(* ===== verification/_CoqProject ===== *)
-Q . S2P
Prelude.v
DList.v
Vas.v
Bitmap.v
BigAlloc.v
PageIndex.v
PageIndexQuery.v
BuildRefinement.v
BigAllocFacts.v
Forest.v
Traversal.v
Toplevel.v
Attach.v
Create.v
Detach.v
Delete.v
Resize.v
QueryCorrect.v
Reachable.v
Demo.v
PageIndexTheorems.v
MallocMeta.v
AddrList.v
GenericMalloc.v
GenericMallocFacts.v
Alloca.v
AllocaFacts.v
HeapTheorems.v
MappingSeq.v
MappingSeqFacts.v
Mmap.v
MmapFacts.v
MapFacts.v
Brk.v
BrkFacts.v
MappingTheorems.v
GenericSmall.v
GenericSmallFacts.v
PackedSeq.v
PackedSeqFacts.v
AllocSites.v
MemTable.v
MemrangeCache.v
MemrangeCacheFacts.v
TableTheorems.v
SequenceTheorems.v
Uniqtype.v
Subobject.v
SubobjectFacts.v
Query.v
QueryFacts.v
QueryTheorems.v
UniqtypeBfs.v
UniqtypeBfsFacts.v
UniqtypeTheorems.v
Walk.v
WalkFacts.v
WalkTheorems.v
RtTypes.v
RtTypesFacts.v
RtTypesTheorems.v
MetaDso.v
StaticData.v
StaticFacts.v
StaticLoad.v
StaticHole.v
StaticTheorems.v
Stack.v
StackFacts.v
StackTheorems.v
Linear.v
LinearFacts.v
Events.v
EventTheorems.v
LdSo.v
LdSoTheorems.v
PrivateHeap.v
PrivateHeapTheorems.v
Systrap.v
SystrapTheorems.v
