(* ===== verification/Prelude.v ===== *)
(** * liballocs: a verified model of the run-time metadata library

    liballocs keeps a process-wide account of memory: which allocator manages
    an address, which allocation it belongs to, and its type.  This library
    models the C code under src/src, src/include, part of src/allocsld and of
    src/tools/stubgen.h, and proves that its data structures keep their
    invariants and answer queries correctly.

    ** The program's parts

    - The bigalloc table and page index (pageindex.c, pageindex.h): a forest
      of memory ranges, and a 16-bit entry per page naming the innermost range
      that spans the page.  Every other part registers its arenas there and
      asks it which arena an address lies in.
    - Mappings (mmap.c, brk.c): each top-level bigalloc made by mmap owns a
      mapping sequence, the list of contiguous mappings it is made of, kept in
      step with the calls mmap, munmap, mremap and brk.  The program break is a
      bigalloc inside the mapping that holds it.
    - Traps (systrap.c, preload.c): system calls of the program are handed to
      replacements, which make the call and notify the mapping allocators.
    - Malloc-like arenas (generic_malloc_index.h, malloc-meta.h): a bitmap of
      chunk starts per arena, and an 8-byte insert at the end of each chunk.
      Stack frames with alloca'd chunks (alloca.c, stackframe.c) are arenas
      of the same kind that grow downwards.
    - The dynamic linker's malloc (linear_malloc_index.h, allocinstr.c,
      ld-so-malloc.c): a sorted array of chunks, and an arena for them.
    - Allocation events (stubgen.h): what happens when a malloc of either kind
      allocates, frees or reallocates, with lifetime policies.
    - The private heap (dlmalloc-ext.c): where the library's own blocks are,
      and a bitmap of them.
    - Small objects (generic_small.c): a rectangular index, buckets by layers.
    - Static data (static-file.c, static-segment.c, static-section.c,
      static-symbol.c): files, their segments and sections as nested
      bigallocs, and a sorted vector of objects per segment; packed sequences
      (packed-seq.c), allocation-site vectors (allocsites.c).  The meta-object
      of a file (meta-dso.c, meta-dso-util.c) is looked for by build ID and by
      path.
    - The stack (stack.c, auxv.c, stackframe.c, fake-libunwind.c): bigallocs
      of the initial stack and the auxiliary vector, an unwinder, and queries
      of frames.
    - Queries (liballocs.h, query.c): type, base, size and site of an address,
      through the caches and allocators; search of the subobjects of a type.
    - Walks (walk.c, uniqtype-bfs.c): over the tree of allocations depth-first,
      over the object graph breadth-first.
    - Types made at run time (uniqtype-util.c, rt-uniqtypes.c).
    - Tables keyed on addresses: memtables (memtable.h), the cache of typed
      ranges (liballocs_cil_inlines.h, cache.c), the list of unrecognised
      sites (addrlist.c).

    ** Conventions

    A C function that reads and writes a state [S] is a value of [M S A],
    with three outcomes: [Done], [Abort] (a call to abort(), a failed assert,
    an access through a null pointer or past an array) and [NoFuel].  Machine
    integers are values of [Z] whose wrap-around is written out with [wrap].
    Pointers to table records are their indices, as in the code's own
    BIDX/IDXB.  The state of a component contains that of the components it
    calls: [state] (the table), [mstate] (with mapping sequences), [bstate]
    (with the break), [qstate], [sstate], [kstate], [ldstate], [hstate],
    [trap_state].  [Build] says whether assertions are compiled in: [debug] or
    [release].

    Code that is not in the repository (librunt, libdlbind, libsystrap,
    dlmalloc, libc, the loader, the kernel) and functions reached through
    pointers are fields of type classes: [Bitmap], [Hooks], [MallocEnv],
    [AllocaEnv], [SmallEnv], [SeqEnv], [SiteEnv], [MemtableEnv], [MmapEnv],
    [BrkEnv], [UniqtypeEnv], [QueryEnv], [BfsEnv], [WalkEnv], [Interpreter],
    [DlEnv], [MetaFiles], [StaticEnv], [StackEnv], [Qsort], [LdsoEnv], [Dlmalloc],
    [HeapEnv], [Flavour], [Kernel], [TrapEnv].  [MallocIndex] is the interface
    that both malloc indexes implement for the allocation events.  What the
    code relies on is stated as laws ([VasLaws], [BitmapLaws], [SeqLaws],
    [SiteLaws], [MmapLaws], [QueryLaws], [WalkLaws], [DlLaws], [StaticLaws],
    [RuntLaws], [CloseLaws], [QsortLaws], [LdsoLaws],
    [DlmallocLaws], [HeapLaws], [KernelLaws]), and concrete instances satisfy
    them.

    ** Files

    - [Prelude], [DList] (doubly linked segments), [Vas] (pages and the address
      space), [Bitmap].
    - [BigAlloc], [PageIndex], [PageIndexQuery]: the functions of pageindex.c
      and the inlines of pageindex.h.  [Forest] states the invariant [wf] and
      [index_ok]; [Traversal], [Toplevel], [BigAllocFacts] hold the lemmas
      shared by the proofs of the operations: [Attach], [Create], [Detach],
      [Delete], [Resize], [QueryCorrect].  [Reachable] is creation as a whole
      and the step relation on tables.  [BuildRefinement] relates the two
      builds.  [Demo] is a concrete table, [PageIndexTheorems] the contract.
    - [MappingSeq] (the array of mappings), [Mmap] and [Brk] (the handlers, on
      the bigalloc table and the store of sequences); [MappingSeqFacts],
      [MmapFacts] (the invariant [mmap_ok]: sequences tile their bigallocs),
      [MapFacts], [BrkFacts]; the contract, with the abstract address space it
      refines, is [MappingTheorems].  [Systrap], [SystrapTheorems]: the traps.
    - [MallocMeta], [AddrList], [GenericMalloc], [GenericMallocFacts],
      [Alloca], [AllocaFacts]; the contract is [HeapTheorems].
    - [Linear], [LinearFacts], [Events], [EventTheorems]: the linear index and
      the events; [LdSo], [LdSoTheorems]: the linker's malloc; [PrivateHeap],
      [PrivateHeapTheorems].
    - [GenericSmall], [GenericSmallFacts], [MemTable], [MemrangeCache],
      [MemrangeCacheFacts]; the contract is [TableTheorems].
    - [PackedSeq], [PackedSeqFacts], [AllocSites]; the contract is
      [SequenceTheorems].
    - [Uniqtype] (types and their members), [Subobject], [SubobjectFacts],
      [Query], [QueryFacts], [QueryTheorems]; [UniqtypeBfs],
      [UniqtypeBfsFacts], [UniqtypeTheorems]; [Walk], [WalkFacts],
      [WalkTheorems]; [RtTypes], [RtTypesFacts], [RtTypesTheorems].
    - [MetaDso] (names and choice of meta-objects), [StaticData],
      [StaticFacts], [StaticLoad], [StaticHole], [StaticTheorems].
    - [Stack], [StackFacts], [StackTheorems].

    A file with the functions of a component names the source file at its
    top, and its definitions carry the names of the C functions.

    ** What the theorems show

    The page index: every table reached by proper steps satisfies the
    invariant; creation and deletion of a subtree keep it and change only what
    they say; resizing keeps the forest, and the index exactly under stated
    conditions on pages; lookups return the innermost or the outermost range;
    the word-at-a-time fill equals the plain one; impossible creations abort;
    assertions and sanity checks never change a result.  Mappings: a list of
    mmap and munmap notifications of the kinds the code handles ([covered])
    does to bigallocs and sequences what it does to a map from addresses to
    mappings; with the traps, what the library says of an address is what the
    kernel has there; moving the break keeps the area, its mapping and the
    sequence in step; cases the code does not handle are stated as such.  The
    heap indexes: a chunk indexed and not promoted is found, unindexing removes
    one chunk, types are cached; the linear index refines a map of chunks; a
    free is cancelled exactly while a lifetime policy holds the chunk; the
    private heap's bitmap is exact over proper calls and its break stays in the
    region.  The tables: round trips, the cache as a list in order of use.
    Static data: loading a file adds a bigalloc for it, for each loadable
    header and for each allocated section, unloading takes exactly its
    bigallocs away, a query finds the object around an address, plugging a hole
    refines the address space; the cache of a packed sequence is what its
    enumeration yields, a walk reports each element once, identifiers of sites
    round-trip and are new up to 2^16.  The stack: a query gives the frame whose
    allocation holds the address, the walk over frames ends on any contents,
    the stack grows to the page of a near address only.  Queries: the
    bisecting search of subobjects equals the linear definition; results are
    the same from the cache and from the allocators.  Walks: preorder with
    paths; each reachable object once.  Types made at run time are made once
    and describe what was asked for.

    ** Fuel

    Walks over the bigalloc table get [FUEL], twice the number of records and
    four more: a depth-first walk visits each record once and each list of
    children ends once, and the proofs show that a well-formed table never
    exhausts it.  A walk along the layers of a bucket gets one more than there
    are layers, the walks over a packed sequence one more than its bytes or
    bits, those over the range cache more than its 32 entries.  The loop of
    munmap gets the pages of the range and two more, since each turn moves on
    by a page at least; the search for an overlapped entry one more than the
    array has entries.  A bisection gets the number of members and one more,
    the descent into subobjects the nesting depth of the type, the
    breadth-first walk one more than there are objects, the depth-first walk
    of allocations a bound on the depth of the tree, the loop that unloads
    files the number of records, the walk over frames one turn more than there
    are two-word slots above the query, the linker's start-up one more than
    the array of chunks has entries, the reading of the memory map one more
    than the buffer has bytes.  The theorems are about total correctness: they
    state that the call returns.

    ** Not modelled

    The mutex and the signal handlers (operations are atomic steps) and the
    deferral of mapping events that goes with them; output; the initialisation
    of the mmap allocator, which reads ELF files and the auxiliary vector; of
    /proc only the lines are modelled, as a list; the loader shim and its
    decoding of instructions; the wrappers that forward calls to libc; the
    look-up of types by name in meta-objects; the template of metavec.h, which only a test
    instantiates; lifetime_policies.c, whose calls do not match the interfaces
    of this version; __liballocs_add_type_to_block; and the C++ tools, which
    read DWARF with libraries that are not in the repository. *)
From stdpp Require Import strings.
From stdpp Require Export base gmap list fin_maps sets numbers sorting.

#[global] Open Scope Z_scope.

(** ** Machine integers

    Unsigned integers of width [w] are values of [Z] in [0, 2^w); the
    wrap-around of C arithmetic is written out where the code computes. *)
Definition wrap (w : Z) (x : Z) : Z := x mod 2 ^ w.
Abbreviation wrap16 := (wrap 16).
Abbreviation wrap32 := (wrap 32).
Abbreviation wrap64 := (wrap 64).

Lemma wrap_small w x : 0 <= x < 2 ^ w -> wrap w x = x.
Proof. apply Z.mod_small. Qed.

Lemma wrap_once w x : 0 <= w -> 2 ^ w <= x < 2 * 2 ^ w -> wrap w x = x - 2 ^ w.
Proof. intros. unfold wrap. symmetry. apply (Z.mod_unique x (2 ^ w) 1 (x - 2 ^ w)); lia. Qed.

Lemma wrap_range w x : 0 <= w -> 0 <= wrap w x < 2 ^ w.
Proof. intros. apply Z.mod_pos_bound. apply Z.pow_pos_nonneg; lia. Qed.

(** ** Outcomes

    [Done] is a normal return, [Abort] a call to [abort()] or a failing
    assertion, [NoFuel] a loop that outlives the fuel of its model. *)
Inductive outcome (A : Type) : Type :=
| Done (a : A)
| Abort
| NoFuel.
Arguments Done {A} a.
Arguments Abort {A}.
Arguments NoFuel {A}.

#[export] Instance outcome_eq_dec A `{EqDecision A} : EqDecision (outcome A).
Proof. solve_decision. Defined.

(** ** The state-and-abort monad

    A C function that reads and writes the state [S] and returns an [A]. *)
Definition M (S A : Type) : Type := S -> outcome (A * S).

#[export] Instance M_ret S : MRet (M S) := fun A a s => Done (a, s).
#[export] Instance M_bind S : MBind (M S) := fun A B f m s =>
  match m s with
  | Done (a, s') => f a s'
  | Abort => Abort
  | NoFuel => NoFuel
  end.

Definition gets {S A} (f : S -> A) : M S A := fun s => Done (f s, s).
Definition modify {S} (f : S -> S) : M S unit := fun s => Done (tt, f s).
Definition abort {S A} : M S A := fun _ => Abort.
Definition nofuel {S A} : M S A := fun _ => NoFuel.
Definition when {S} (b : bool) (m : M S unit) : M S unit :=
  if b then m else mret tt.

(** Assertions are checked in debug builds only. *)
Class Build := { NDEBUG : bool }.
Definition release : Build := {| NDEBUG := true |}.
Definition debug : Build := {| NDEBUG := false |}.

Definition assert {B : Build} {S} (b : bool) : M S unit :=
  if NDEBUG then mret tt else if b then mret tt else abort.
Definition assertM {B : Build} {S} (m : M S bool) : M S unit :=
  if NDEBUG then mret tt else b ← m; if (b : bool) then mret tt else abort.

(** ** Total correctness

    [wp m Q s]: from [s], [m] returns normally and the result satisfies [Q]. *)
Definition wp {S A} (m : M S A) (Q : A -> S -> Prop) (s : S) : Prop :=
  match m s with
  | Done (a, s') => Q a s'
  | _ => False
  end.

Section wp.
Context {S : Type}.

Lemma wp_ret {A} (a : A) (Q : A -> S -> Prop) s : Q a s -> wp (mret a) Q s.
Proof. done. Qed.

Lemma wp_bind {A B} (m : M S A) (f : A -> M S B) Q s :
    wp m (fun a s' => wp (f a) Q s') s -> wp (m ≫= f) Q s.
Proof. unfold wp, mbind, M_bind. by destruct (m s) as [[a s']| |]. Qed.

Lemma wp_mono {A} (m : M S A) (Q Q' : A -> S -> Prop) s :
    wp m Q s -> (forall a s', Q a s' -> Q' a s') -> wp m Q' s.
Proof. unfold wp. destruct (m s) as [[a s']| |]; naive_solver. Qed.

Lemma wp_gets {A} (f : S -> A) (Q : A -> S -> Prop) s : Q (f s) s -> wp (gets f) Q s.
Proof. done. Qed.

Lemma wp_modify (f : S -> S) (Q : unit -> S -> Prop) s : Q tt (f s) -> wp (modify f) Q s.
Proof. done. Qed.

Lemma wp_when (b : bool) (m : M S unit) (Q : unit -> S -> Prop) s :
    (b = true -> wp m Q s) -> (b = false -> Q tt s) -> wp (when b m) Q s.
Proof. intros H1 H2. destruct b; [by apply H1 | by apply H2]. Qed.

Lemma bind_Done {A B} (m : M S A) (f : A -> M S B) s a s' :
  m s = Done (a, s') -> (m ≫= f) s = f a s'.
Proof. unfold mbind, M_bind. by intros ->. Qed.

Lemma bind_bind {A B C} (m : M S A) (f : A -> M S B) (g : B -> M S C) s :
  ((m ≫= f) ≫= g) s = (m ≫= fun a => f a ≫= g) s.
Proof. unfold mbind, M_bind. by destruct (m s) as [[a s']| |]. Qed.

Lemma bind_ext {A B} (m : M S A) (f g : A -> M S B) s :
  (forall a s', m s = Done (a, s') -> f a s' = g a s') -> (m ≫= f) s = (m ≫= g) s.
Proof. intros H. unfold mbind, M_bind. destruct (m s) as [[a s']| |]; auto. Qed.

Lemma bind_cong {A B} (m m' : M S A) (f : A -> M S B) s : m s = m' s -> (m ≫= f) s = (m' ≫= f) s.
Proof. unfold mbind, M_bind. by intros ->. Qed.

Lemma wp_Done {A} (m : M S A) Q s :
    wp m Q s -> exists a s', m s = Done (a, s') /\ Q a s'.
Proof. unfold wp. destruct (m s) as [[a s']| |]; naive_solver. Qed.

Lemma wp_intro {A} (m : M S A) (Q : A -> S -> Prop) s a s' :
    m s = Done (a, s') -> Q a s' -> wp m Q s.
Proof. unfold wp. by intros ->. Qed.
End wp.

Lemma assert_true {B : Build} {S} (b : bool) (s : S) : b = true -> assert b s = Done (tt, s).
Proof. intros ->. unfold assert. by destruct NDEBUG. Qed.

(** ** Refinement of programs

    [m1] refines [m2] when every normal run of [m1] is a run of [m2]: this
    is how a debug build relates to the release build. *)
Definition refines {S A} (m1 m2 : M S A) : Prop :=
  forall s r, m1 s = Done r -> m2 s = Done r.

Section refines.
Context {S : Type}.

#[export] Instance refines_preorder A : PreOrder (@refines S A).
Proof. split; [by intros m s r | intros m1 m2 m3 H1 H2 s r ?; by apply H2, H1]. Qed.

Lemma refines_bind {A B} (m1 m2 : M S A) (f1 f2 : A -> M S B) :
    refines m1 m2 -> (forall a, refines (f1 a) (f2 a)) -> refines (m1 ≫= f1) (m2 ≫= f2).
Proof.
    intros Hm Hf s r. unfold mbind, M_bind.
    destruct (m1 s) as [[a s']| |] eqn:E; try done.
    rewrite (Hm _ _ E). apply Hf.
  Qed.

Lemma refines_assert (b : bool) : refines (S:=S) (@assert debug S b) (@assert release S b).
Proof. intros s r. unfold assert; simpl. by destruct b. Qed.

Lemma refines_when (b : bool) (m1 m2 : M S unit) :
    refines m1 m2 -> refines (when b m1) (when b m2).
Proof. by destruct b. Qed.

Lemma refines_if {A} (b : bool) (m1 m2 n1 n2 : M S A) :
    refines m1 m2 -> refines n1 n2 ->
    refines (if b then m1 else n1) (if b then m2 else n2).
Proof. by destruct b. Qed.
End refines.

(** ** Callbacks

    The calls of [cb] on the members of a list, up to the first that does not return 0. *)
Section run_until.
Context {S A : Type} (cb : A -> M S Z).
Fixpoint run_until (l : list A) : M S Z :=
  match l with
  | [] => mret 0
  | v :: l => ret ← cb v; if negb (ret =? 0) then mret ret else run_until l
  end.
End run_until.

Lemma run_until_app {S A} (cb : A -> M S Z) l1 l2 s :
  run_until cb (l1 ++ l2) s = (ret ← run_until cb l1; if negb (ret =? 0) then mret ret else run_until cb l2) s.
Proof.
  revert s. induction l1 as [|v l1 IH]; intros s; [done|]. cbn [app run_until]. rewrite bind_bind.
  apply bind_ext. intros r s' _. destruct (Z.eqb_spec r 0) as [->|N]; [apply IH|].
  unfold mbind, M_bind; simpl. by rewrite (proj2 (Z.eqb_neq _ _) N).
Qed.

Lemma run_until_fmap {S A C} (cb : A -> M S Z) (g : C -> A) l s :
  run_until cb (g <$> l) s = run_until (fun x => cb (g x)) l s.
Proof.
  revert s. induction l as [|x l IH]; intros s; [done|]. cbn. apply bind_ext. intros r s' _.
  destruct (negb (r =? 0)); [done|]. apply IH.
Qed.

(** A callback that stands for the callbacks on a list of its own. *)
Lemma run_until_bind {S A C} (f : A -> M S Z) (g : C -> M S Z) (h : A -> list C) l s :
  Forall (fun x => forall s, f x s = run_until g (h x) s) l -> run_until f l s = run_until g (l ≫= h) s.
Proof.
  intros F. revert s. induction F as [|x l E _ IH]; intros s; [done|]. cbn [run_until mbind list_bind].
  rewrite run_until_app. unfold mbind, M_bind. rewrite E.
  destruct (run_until g (h x) s) as [[r s']| |]; [|done..]. destruct (negb (r =? 0)); [done|]. apply IH.
Qed.

(** Callbacks that agree on the states they meet make the same run. *)
Lemma run_until_ext {S A} (P : S -> Prop) (f g : A -> M S Z) l s :
  P s -> (forall v s, v ∈ l -> P s -> f v s = g v s) ->
  (forall v s r s', v ∈ l -> P s -> g v s = Done (r, s') -> P s') -> run_until f l s = run_until g l s.
Proof.
  revert s. induction l as [|v l IH]; intros s Hs E K; [done|]. cbn [run_until]. unfold mbind, M_bind.
  rewrite E by (done || by left). destruct (g v s) as [[r s']| |] eqn:Eg; [|done..].
  destruct (negb (r =? 0)); [done|]. apply IH; [eapply K; [by left|done|done]| |].
  - intros. apply E; [by right|done].
  - intros v' s1 r' s1' Hv. apply K. by right.
Qed.

(** ** Lists *)

Lemma filter_id {A} (P : A -> Prop) `{forall x, Decision (P x)} (l : list A) :
  (forall x, x ∈ l -> P x) -> filter P l = l.
Proof.
  induction l as [|x l IH]; intros Hl; [done|].
  rewrite filter_cons_True by (apply Hl; by left). f_equal. apply IH. intros y Hy. apply Hl. by right.
Qed.

Create HintDb prog.
#[export] Hint Resolve wp_ret wp_gets wp_modify : prog.
#[export] Hint Resolve refines_bind refines_assert refines_when refines_if : prog.

Lemma filter_ext_in {A} (P Q : A -> Prop) `{forall x, Decision (P x), forall x, Decision (Q x)} (l : list A) :
  (forall x, x ∈ l -> P x <-> Q x) -> filter P l = filter Q l.
Proof.
  induction l as [|x l IH]; intros PQ; [done|]. pose proof (PQ x ltac:(by left)).
  rewrite !filter_cons, IH by (intros y Hy; apply PQ; by right).
  destruct (decide (P x)), (decide (Q x)); naive_solver.
Qed.

Lemma filter_none {A} (P : A -> Prop) `{forall x, Decision (P x)} (l : list A) :
  (forall x, x ∈ l -> ~ P x) -> filter P l = [].
Proof.
  induction l as [|x l IH]; intros Hl; [done|].
  rewrite filter_cons_False by (apply Hl; by left). apply IH. intros y Hy. apply Hl. by right.
Qed.

(** ** Strings *)

Lemma string_length_app s1 s2 : String.length (s1 +:+ s2) = (String.length s1 + String.length s2)%nat.
Proof. unfold String.app. induction s1 as [|c s1 IH]; simpl; [done|]. by rewrite IH. Qed.

Lemma string_app_assoc s1 s2 s3 : (s1 +:+ s2) +:+ s3 = s1 +:+ (s2 +:+ s3).
Proof. unfold String.app. induction s1 as [|c s1 IH]; simpl; [done|]. by rewrite IH. Qed.

Lemma string_app_nil (s : string) : s +:+ EmptyString = s.
Proof. unfold String.app. induction s as [|c s IH]; simpl; [done|]. by rewrite IH. Qed.
