(* ===== verification/DList.v ===== *)
(** Doubly linked segments over two link functions, whatever record holds
    them: the lists of the bigalloc table and of the lookup cache. *)
From S2P Require Import Prelude.

(** [seg pv nx pp p q qn l]: the members of [l] are linked from [p] to [q] in
    both directions; [pp] precedes the first and [qn] follows the last. *)
Fixpoint seg (pv nx : Z -> Z) (pp p q qn : Z) (l : list Z) : Prop :=
  match l with
  | [] => p = qn /\ pp = q
  | x :: l => p = x /\ pv x = pp /\ seg pv nx x (nx x) q qn l
  end.

Lemma seg_app pv nx pp p q qn l1 l2 :
  seg pv nx pp p q qn (l1 ++ l2) <->
  exists j jn, seg pv nx pp p j jn l1 /\ seg pv nx j jn q qn l2.
Proof.
  revert pp p. induction l1 as [|x l1 IH]; intros pp p; simpl.
  - split; [intros; by exists pp, p | by intros (j & jn & [-> ->] & ?)].
  - rewrite IH. naive_solver.
Qed.

Lemma seg_snoc pv nx pp p q qn l x :
  seg pv nx pp p q qn (l ++ [x]) <->
  q = x /\ nx x = qn /\ seg pv nx pp p (pv x) x l.
Proof. rewrite seg_app. simpl. naive_solver. Qed.

(** Only the two link fields of the members matter. *)
Lemma seg_ext pv nx pv' nx' pp p q qn l :
  (forall x, x ∈ l -> pv' x = pv x /\
                    nx' x = nx x) ->
  seg pv nx pp p q qn l -> seg pv' nx' pp p q qn l.
Proof.
  revert pp p. induction l as [|x l IH]; intros pp p E; simpl; [done|].
  destruct (E x ltac:(left)) as [-> ->].
  intros (-> & -> & ?). split_and!; [done..|]. apply IH; [|done].
  intros y Hy. apply E. by right.
Qed.

Lemma seg_det pv nx pp p q l q' l' :
  0 ∉ l -> 0 ∉ l' -> seg pv nx pp p q 0 l -> seg pv nx pp p q' 0 l' -> l = l'.
Proof.
  revert pp p l'. induction l as [|x l IH]; intros pp p [|y l']; simpl; try set_solver.
  intros H1 H2 (-> & _ & D) (-> & _ & D'). f_equal. eapply IH; eauto; set_solver.
Qed.

(** Changing the link out of the last member. *)
Lemma seg_relink_last pv nx pv' nx' pp p q qn qn' l :
  NoDup l -> l <> [] ->
  (forall y, y ∈ l -> pv' y = pv y) ->
  (forall y, y ∈ l -> nx' y = if decide (y = q) then qn' else nx y) ->
  seg pv nx pp p q qn l -> seg pv' nx' pp p q qn' l.
Proof.
  intros ND Hl Hprev Hnext. destruct l as [|x l _] using rev_ind; [done|].
  rewrite !seg_snoc. intros (-> & _ & D). apply NoDup_app in ND as (_ & Hx & _).
  split_and!; [done| |].
  - rewrite Hnext by set_solver. by rewrite decide_True.
  - rewrite Hprev by set_solver. eapply seg_ext; [|done]. intros y Hy. split.
    + apply Hprev. set_solver.
    + rewrite Hnext by set_solver. rewrite decide_False; [done|].
      intros ->. apply (Hx x Hy). by left.
Qed.

(** Changing the link into the first member. *)
Lemma seg_relink_first pv nx pv' nx' pp p q qn pp' l :
  NoDup l -> l <> [] ->
  (forall y, y ∈ l -> nx' y = nx y) ->
  (forall y, y ∈ l -> pv' y = if decide (y = p) then pp' else pv y) ->
  seg pv nx pp p q qn l -> seg pv' nx' pp' p q qn l.
Proof.
  intros ND Hl Hnext Hprev. destruct l as [|x l]; [done|]. simpl. intros (-> & _ & D).
  apply NoDup_cons in ND as [Hx _]. split_and!; [done| |].
  - rewrite Hprev by by left. by rewrite decide_True.
  - rewrite Hnext by by left. eapply seg_ext; [|done]. intros y Hy. split.
    + rewrite Hprev by by right. rewrite decide_False; [done|]. by intros ->.
    + apply Hnext. by right.
Qed.

(** Removing the member [x]. *)
Lemma seg_remove pv nx pv' nx' pp p q qn l1 x l2 :
  NoDup (l1 ++ x :: l2) -> pp ∉ l1 ++ x :: l2 -> qn ∉ l1 ++ x :: l2 ->
  seg pv nx pp p q qn (l1 ++ x :: l2) ->
  (forall y, y ∈ l1 ++ l2 -> nx' y =
     if decide (y = pv x) then nx x else nx y) ->
  (forall y, y ∈ l1 ++ l2 -> pv' y =
     if decide (y = nx x) then pv x else pv y) ->
  exists q', seg pv' nx' pp (match l1 with [] => nx x | _ => p end) q' qn (l1 ++ l2).
Proof.
  intros ND Hpp Hqn D Hn Hp. apply seg_app in D as (j & jn & D1 & D2).
  simpl in D2. destruct D2 as (-> & <- & D2).
  apply NoDup_app in ND as (ND1 & Hdis & ND2). apply NoDup_cons in ND2 as [Nx ND2].
  set (a := pv x) in *. set (b := nx x) in *.
  assert (Ha2 : a ∉ l2).
  { destruct l1 as [|y l1 _] using rev_ind; simpl in *.
    - destruct D1 as [_ <-]. set_solver.
    - apply seg_snoc in D1 as (-> & _). set_solver. }
  assert (Hb1 : b ∉ l1).
  { destruct l2 as [|y l2]; simpl in D2.
    - destruct D2 as [-> _]. set_solver.
    - destruct D2 as (-> & _). set_solver. }
  assert (D1' : seg pv' nx' pp (match l1 with [] => b | _ => p end) a b l1).
  { destruct l1 as [|y l1]; [simpl in *; naive_solver|].
    apply (seg_relink_last pv nx pv' nx' pp p a x b (y :: l1)); try done.
    - intros z Hz. rewrite Hp by set_solver. rewrite decide_False; [done|]. set_solver.
    - intros z Hz. apply Hn. set_solver. }
  destruct (decide (l2 = [])) as [->|Nl2].
  - exists a. rewrite app_nil_r. simpl in D2. destruct D2 as [<- _]. done.
  - exists q. apply seg_app. exists a, b. split; [done|].
    apply (seg_relink_first pv nx pv' nx' x b q qn a l2); try done.
    + intros z Hz. rewrite Hn by set_solver. rewrite decide_False; [done|]. set_solver.
    + intros z Hz. apply Hp. set_solver.
Qed.

(** Inserting [x] between two parts. *)
Lemma seg_insert pv nx pv' nx' pp p q qn l1 x l2 a b :
  NoDup (l1 ++ l2) -> x ∉ l1 ++ l2 -> pp ∉ l1 ++ l2 -> qn ∉ l1 ++ l2 ->
  seg pv nx pp p a b l1 -> seg pv nx a b q qn l2 ->
  pv' x = a -> nx' x = b ->
  (forall y, y ∈ l1 ++ l2 -> nx' y =
     if decide (y = a) then x else nx y) ->
  (forall y, y ∈ l1 ++ l2 -> pv' y =
     if decide (y = b) then x else pv y) ->
  exists q', seg pv' nx' pp (match l1 with [] => x | _ => p end) q' qn (l1 ++ x :: l2).
Proof.
  intros ND Hx Hpp Hqn D1 D2 Ea Eb Hn Hp.
  apply NoDup_app in ND as (ND1 & Hdis & ND2).
  assert (Ha2 : a ∉ l2).
  { destruct l1 as [|y l1 _] using rev_ind; simpl in *.
    - destruct D1 as [_ <-]. set_solver.
    - apply seg_snoc in D1 as (-> & _). set_solver. }
  assert (Hb1 : b ∉ l1).
  { destruct l2 as [|y l2]; simpl in D2.
    - destruct D2 as [-> _]. set_solver.
    - destruct D2 as (-> & _). set_solver. }
  assert (D1' : seg pv' nx' pp (match l1 with [] => x | _ => p end) a x l1).
  { destruct l1 as [|y l1]; [simpl in *; naive_solver|].
    apply (seg_relink_last pv nx pv' nx' pp p a b x (y :: l1)); try done.
    - intros z Hz. rewrite Hp by set_solver. rewrite decide_False; [done|]. set_solver.
    - intros z Hz. apply Hn. set_solver. }
  destruct (decide (l2 = [])) as [->|Nl2].
  - exists x. apply seg_app. exists a, x. split; [done|]. simpl in D2 |- *.
    destruct D2 as [<- _]. done.
  - exists q. apply seg_app. exists a, x. split; [done|]. simpl. split_and!; [done..|].
    rewrite Eb. apply (seg_relink_first pv nx pv' nx' a b q qn x l2); try done.
    + intros z Hz. rewrite Hn by set_solver. rewrite decide_False; [done|]. set_solver.
    + intros z Hz. apply Hp. set_solver.
Qed.

(** [first_of l]: the head of [l], 0 for none; [last_of d l]: its last member. *)
Definition first_of (l : list Z) : Z := default 0 (head l).
Definition last_of (d : Z) (l : list Z) : Z := default d (list.last l).

Lemma last_of_snoc d l x : last_of d (l ++ [x]) = x.
Proof. unfold last_of. by rewrite last_snoc. Qed.

Lemma seg_last pv nx pp p q qn l : seg pv nx pp p q qn l -> q = last_of pp l.
Proof.
  destruct l as [|x l _] using rev_ind; [by intros [_ ->]|].
  rewrite last_of_snoc. by intros (-> & _)%seg_snoc.
Qed.

Lemma seg_first pv nx pp p q qn l : seg pv nx pp p q qn l -> p = default qn (head l).
Proof. destruct l; [by intros [-> _]|by intros (-> & _)]. Qed.
