(* ===== verification/Vas.v ===== *)
(** The virtual address space as the repository uses it.

    [PAGE_SIZE] and [LOG_PAGE_SIZE] are those of src/src/liballocs_private.h.
    The remaining macros come from the header vas.h of the librunt submodule,
    which is not part of the repository: they are the operations of the class
    [Vas], and [VasLaws] states the documented meaning the code relies on
    (page number of an address, rounding to a multiple, the address limit).
    [vas_x86_64] is an instance with the values of a 47-bit user address
    space. *)
From S2P Require Import Prelude.

Definition PAGE_SIZE : Z := 4096.
Definition LOG_PAGE_SIZE : Z := 12.

Class Vas := {
  PAGENUM : Z -> Z;
  ROUND_UP : Z -> Z -> Z;
  ROUND_DOWN : Z -> Z -> Z;
  DIVIDE_ROUNDING_UP : Z -> Z -> Z;
  MAXIMUM_USER_ADDRESS : Z;
  BIGGEST_SANE_USER_ALLOC : Z;
}.

Class VasLaws (V : Vas) : Prop := {
  PAGENUM_spec a : 0 <= a -> PAGENUM a = a / PAGE_SIZE;
  ROUND_DOWN_spec a n : 0 <= a -> 0 < n -> ROUND_DOWN a n = n * (a / n);
  ROUND_UP_spec a n : 0 <= a -> 0 < n -> ROUND_UP a n = n * ((a + n - 1) / n);
  DIVIDE_ROUNDING_UP_spec a n : 0 <= a -> 0 < n -> DIVIDE_ROUNDING_UP a n = (a + n - 1) / n;
  max_user_address_spec :
    PAGE_SIZE <= MAXIMUM_USER_ADDRESS + 1 <= 2 ^ 47 /\
    (MAXIMUM_USER_ADDRESS + 1) mod PAGE_SIZE = 0;
  biggest_sane_spec : 0 <= BIGGEST_SANE_USER_ALLOC;
}.

#[export] Instance vas_x86_64 : Vas := {|
  PAGENUM a := Z.shiftr a LOG_PAGE_SIZE;
  ROUND_UP a n := n * ((a + n - 1) / n);
  ROUND_DOWN a n := n * (a / n);
  DIVIDE_ROUNDING_UP a n := (a + n - 1) / n;
  MAXIMUM_USER_ADDRESS := 2 ^ 47 - 1;
  BIGGEST_SANE_USER_ALLOC := 2 ^ 32 - 1;
|}.

#[export] Instance vas_x86_64_laws : VasLaws vas_x86_64.
Proof.
  split; simpl; try done.
  intros. by rewrite Z.shiftr_div_pow2.
Qed.

(** [PAGE_DIST] of src/src/pageindex.c: pages between two page-aligned addresses. *)
Definition PAGE_DIST `{Vas} (first second : Z) : Z :=
  if PAGENUM first <? PAGENUM second then PAGENUM second - PAGENUM first else 0.

(** The number of entries of the page index. *)
Definition NPAGES `{Vas} : Z := (MAXIMUM_USER_ADDRESS + 1) / PAGE_SIZE.

(** First page wholly at or above an address, and page containing it. *)
Definition page_up (a : Z) : Z := (a + PAGE_SIZE - 1) / PAGE_SIZE.
Definition page_down (a : Z) : Z := a / PAGE_SIZE.

Ltac page_lia :=
  unfold page_up, page_down, PAGE_SIZE in *; Z.to_euclidean_division_equations; lia.

Section vas.
Context {V : Vas} {VL : VasLaws V}.

Lemma pagenum_round_up a : 0 <= a -> PAGENUM (ROUND_UP a PAGE_SIZE) = page_up a.
Proof.
    intros. rewrite ROUND_UP_spec, PAGENUM_spec by page_lia.
    rewrite Z.mul_comm, Z.div_mul by done. done.
  Qed.

Lemma pagenum_round_down a : 0 <= a -> PAGENUM (ROUND_DOWN a PAGE_SIZE) = page_down a.
Proof.
    intros. rewrite ROUND_DOWN_spec, PAGENUM_spec by page_lia.
    rewrite Z.mul_comm, Z.div_mul by done. done.
  Qed.

Lemma pagenum_down a : 0 <= a -> PAGENUM a = page_down a.
Proof. apply PAGENUM_spec. Qed.

Lemma page_dist_up_down a b :
    0 <= a -> 0 <= b ->
    PAGE_DIST (ROUND_UP a PAGE_SIZE) (ROUND_DOWN b PAGE_SIZE) =
      Z.max 0 (page_down b - page_up a).
Proof.
    intros. unfold PAGE_DIST. rewrite pagenum_round_up, pagenum_round_down by done.
    destruct (Z.ltb_spec (page_up a) (page_down b)); lia.
  Qed.

Lemma page_dist_down_down a b :
    0 <= a -> 0 <= b ->
    PAGE_DIST (ROUND_DOWN a PAGE_SIZE) (ROUND_DOWN b PAGE_SIZE) =
      Z.max 0 (page_down b - page_down a).
Proof.
    intros. unfold PAGE_DIST. rewrite !pagenum_round_down by done.
    destruct (Z.ltb_spec (page_down a) (page_down b)); lia.
  Qed.

Lemma page_dist_up_up a b :
    0 <= a -> 0 <= b ->
    PAGE_DIST (ROUND_UP a PAGE_SIZE) (ROUND_UP b PAGE_SIZE) =
      Z.max 0 (page_up b - page_up a).
Proof.
    intros. unfold PAGE_DIST. rewrite !pagenum_round_up by done.
    destruct (Z.ltb_spec (page_up a) (page_up b)); lia.
  Qed.
End vas.
