(* ===== verification/Bitmap.v ===== *)
(** Bitmaps, as the indexes use them.

    The bitmap primitives (bitmap.h) belong to the librunt submodule, which is
    not part of the repository: they are the class [Bitmap], over arrays of
    words, and their documented meaning is [BitmapLaws].  [words64] is an
    instance with 64-bit words. *)
From S2P Require Import Prelude.

Class Bitmap := {
  BITMAP_WORD_NBITS : Z;
  bitmap_get_l : list Z -> Z -> bool;
  bitmap_set_l : list Z -> Z -> list Z;
  bitmap_clear_l : list Z -> Z -> list Z;
  (** Index of the highest set bit at or below a start index; 2^64 - 1 if none. *)
  bitmap_rfind_first_set_leq_l : list Z -> Z -> Z;
  (** Index of the lowest set bit at or above a start index; 2^64 - 1 if none. *)
  bitmap_find_first_set1_geq_l : list Z -> Z -> Z;
  (** Number of set bits from one index up to, but not including, another. *)
  bitmap_count_set_l : list Z -> Z -> Z -> Z;
}.

Class BitmapLaws (BM : Bitmap) : Prop := {
  bitmap_nbits_pos : 0 < BITMAP_WORD_NBITS <= 2 ^ 16;
  bitmap_set_length w i : length (bitmap_set_l w i) = length w;
  bitmap_clear_length w i : length (bitmap_clear_l w i) = length w;
  bitmap_get_set w i j :
    0 <= i < BITMAP_WORD_NBITS * Z.of_nat (length w) -> 0 <= j ->
    bitmap_get_l (bitmap_set_l w i) j = bool_decide (i = j) || bitmap_get_l w j;
  bitmap_get_clear w i j :
    0 <= i < BITMAP_WORD_NBITS * Z.of_nat (length w) -> 0 <= j ->
    bitmap_get_l (bitmap_clear_l w i) j = negb (bool_decide (i = j)) && bitmap_get_l w j;
  bitmap_get_app w w' j : 0 <= j ->
    bitmap_get_l (w ++ w') j =
      if j <? BITMAP_WORD_NBITS * Z.of_nat (length w) then bitmap_get_l w j
      else bitmap_get_l w' (j - BITMAP_WORD_NBITS * Z.of_nat (length w));
  bitmap_get_zeros k j : bitmap_get_l (replicate k 0) j = false;
  bitmap_get_beyond w j : BITMAP_WORD_NBITS * Z.of_nat (length w) <= j -> bitmap_get_l w j = false;
  bitmap_rfind_found w st i :
    0 <= st -> bitmap_rfind_first_set_leq_l w st = i -> i <> 2 ^ 64 - 1 ->
    0 <= i <= st /\ bitmap_get_l w i = true /\ forall j, i < j <= st -> bitmap_get_l w j = false;
  bitmap_rfind_none w st :
    0 <= st -> BITMAP_WORD_NBITS * Z.of_nat (length w) < 2 ^ 64 - 1 ->
    bitmap_rfind_first_set_leq_l w st = 2 ^ 64 - 1 ->
    forall j, 0 <= j <= st -> bitmap_get_l w j = false;
  bitmap_find_found w st i :
    0 <= st -> bitmap_find_first_set1_geq_l w st = i -> i <> 2 ^ 64 - 1 ->
    st <= i /\ bitmap_get_l w i = true /\ forall j, st <= j < i -> bitmap_get_l w j = false;
  bitmap_find_none w st :
    0 <= st -> BITMAP_WORD_NBITS * Z.of_nat (length w) < 2 ^ 64 - 1 ->
    bitmap_find_first_set1_geq_l w st = 2 ^ 64 - 1 ->
    forall j, st <= j -> bitmap_get_l w j = false;
  bitmap_count_spec w a b : 0 <= a ->
    bitmap_count_set_l w a b =
      Z.of_nat (length (filter (fun j => bitmap_get_l w j = true) (seqZ a (b - a))));
}.

(** ** A concrete bitmap: 64-bit words, least significant bit first *)

Definition word_get (w : list Z) (i : Z) : bool :=
  if i <? 0 then false else Z.testbit (default 0 (w !! Z.to_nat (i / 64))) (i mod 64).
Definition word_alter (f : Z -> Z -> Z) (w : list Z) (i : Z) : list Z :=
  alter (fun x => f x (i mod 64)) (Z.to_nat (i / 64)) w.
Fixpoint word_rfind (w : list Z) (n : nat) : Z :=
  if word_get w (Z.of_nat n) then Z.of_nat n
  else match n with O => 2 ^ 64 - 1 | S n => word_rfind w n end.

Fixpoint word_find (w : list Z) (i : Z) (n : nat) : Z :=
  match n with
  | O => 2 ^ 64 - 1
  | S n => if word_get w i then i else word_find w (i + 1) n
  end.

Definition words64 : Bitmap := {|
  BITMAP_WORD_NBITS := 64;
  bitmap_get_l := word_get;
  bitmap_set_l := word_alter Z.setbit;
  bitmap_clear_l := word_alter Z.clearbit;
  bitmap_rfind_first_set_leq_l w st :=
    word_rfind w (Z.to_nat (Z.min st (64 * Z.of_nat (length w))));
  bitmap_find_first_set1_geq_l w st := word_find w st (Z.to_nat (64 * Z.of_nat (length w) - st));
  bitmap_count_set_l w a b :=
    Z.of_nat (length (filter (fun j => word_get w j = true) (seqZ a (b - a))));
|}.

Lemma word_get_alter f w i j (g : bool -> bool -> bool) :
  (forall x n m, 0 <= n -> 0 <= m -> Z.testbit (f x n) m = g (bool_decide (n = m)) (Z.testbit x m)) ->
  (forall b, g false b = b) ->
  0 <= i < 64 * Z.of_nat (length w) -> 0 <= j ->
  word_get (word_alter f w i) j = g (bool_decide (i = j)) (word_get w j).
Proof.
  intros Hf Hg Hi Hj. unfold word_get, word_alter. destruct (Z.ltb_spec j 0); [lia|].
  pose proof (Z.mod_pos_bound i 64 ltac:(lia)). pose proof (Z.mod_pos_bound j 64 ltac:(lia)).
  destruct (decide (i / 64 = j / 64)) as [E|N].
  - rewrite <- E, list_lookup_alter_eq.
    assert (Hlt : (Z.to_nat (i / 64) < length w)%nat) by (Z.to_euclidean_division_equations; lia).
    destruct (lookup_lt_is_Some_2 w _ Hlt) as [x Hx]. rewrite Hx. simpl.
    rewrite Hf by lia. f_equal. apply bool_decide_ext. Z.to_euclidean_division_equations; lia.
  - rewrite list_lookup_alter_ne by (Z.to_euclidean_division_equations; lia).
    rewrite bool_decide_eq_false_2 by (intros ->; done). by rewrite Hg.
Qed.

Lemma word_rfind_ok w n :
  (word_rfind w n = 2 ^ 64 - 1 /\ forall j, 0 <= j <= Z.of_nat n -> word_get w j = false) \/
  (0 <= word_rfind w n <= Z.of_nat n /\ word_get w (word_rfind w n) = true /\
   forall j, word_rfind w n < j <= Z.of_nat n -> word_get w j = false).
Proof.
  induction n as [|n IH]; cbn [word_rfind].
  - destruct (word_get w (Z.of_nat 0)) eqn:E; [right|left].
    + split_and!; [lia..|done|lia].
    + split; [done|]. intros j Hj. by replace j with (Z.of_nat 0) by lia.
  - destruct (word_get w (Z.of_nat (S n))) eqn:E; [right; split_and!; [lia..|done|lia]|].
    destruct IH as [[-> Hn]|(Hr & Hg & Hn)]; [left|right].
    + split; [done|]. intros j Hj. destruct (decide (j = Z.of_nat (S n))) as [->|]; [done|]. apply Hn. lia.
    + split_and!; [lia..|done|]. intros j Hj. destruct (decide (j = Z.of_nat (S n))) as [->|]; [done|].
      apply Hn. lia.
Qed.

Lemma word_get_beyond w j : 64 * Z.of_nat (length w) <= j -> word_get w j = false.
Proof.
  intros Hj. unfold word_get. destruct (Z.ltb_spec j 0); [done|].
  rewrite lookup_ge_None_2 by (Z.to_euclidean_division_equations; lia). apply Z.bits_0.
Qed.

Lemma word_find_ok w n i :
  (word_find w i n = 2 ^ 64 - 1 /\ forall j, i <= j < i + Z.of_nat n -> word_get w j = false) \/
  (i <= word_find w i n < i + Z.of_nat n /\ word_get w (word_find w i n) = true /\
   forall j, i <= j < word_find w i n -> word_get w j = false).
Proof.
  revert i. induction n as [|n IH]; intros i; cbn [word_find]; [left; split; [done|lia]|].
  destruct (word_get w i) eqn:E; [right; split_and!; [lia..|done|lia]|].
  destruct (IH (i + 1)) as [[Hr Hn]|(Hr & Hg & Hn)]; [left|right].
  - split; [done|]. intros j Hj. destruct (decide (j = i)) as [->|]; [done|]. apply Hn. lia.
  - split_and!; [lia..|done|]. intros j Hj. destruct (decide (j = i)) as [->|]; [done|]. apply Hn. lia.
Qed.

#[export] Instance words64_laws : BitmapLaws words64.
Proof.
  split; cbn [BITMAP_WORD_NBITS bitmap_get_l bitmap_set_l bitmap_clear_l bitmap_rfind_first_set_leq_l
    bitmap_find_first_set1_geq_l bitmap_count_set_l words64].
  - done.
  - intros. apply length_alter.
  - intros. apply length_alter.
  - intros w i j Hi Hj. apply (word_get_alter Z.setbit w i j orb); [|done..].
    intros x n m Hn Hm. rewrite Z.setbit_eqb by done. f_equal. by destruct (Z.eqb_spec n m); case_bool_decide.
  - intros w i j Hi Hj. rewrite andb_comm.
    apply (word_get_alter Z.clearbit w i j (fun e b => b && negb e)); [|by intros []|done..].
    intros x n m Hn Hm. rewrite Z.clearbit_eqb. do 2 f_equal. by destruct (Z.eqb_spec n m); case_bool_decide.
  - intros w w' j Hj. unfold word_get. destruct (Z.ltb_spec j 0); [lia|].
    destruct (Z.ltb_spec j (64 * Z.of_nat (length w))).
    + rewrite lookup_app_l; [done|]. Z.to_euclidean_division_equations; lia.
    + rewrite lookup_app_r by (Z.to_euclidean_division_equations; lia).
      destruct (Z.ltb_spec (j - 64 * Z.of_nat (length w)) 0); [lia|].
      f_equal; [do 2 f_equal|]; Z.to_euclidean_division_equations; lia.
  - intros k j. unfold word_get. destruct (j <? 0); [done|].
    destruct (replicate k 0 !! Z.to_nat (j / 64)) as [x|] eqn:E; [|apply Z.bits_0].
    apply lookup_replicate in E as [-> _]. apply Z.bits_0.
  - apply word_get_beyond.
  - intros w st i Hst Hr Hi.
    destruct (word_rfind_ok w (Z.to_nat (Z.min st (64 * Z.of_nat (length w))))) as [[E _]|(R & G & N)].
    { congruence. }
    rewrite Hr in *. split_and!; [lia..|done|]. intros j Hj.
    destruct (decide (j <= 64 * Z.of_nat (length w))); [apply N; lia|]. apply word_get_beyond. lia.
  - intros w st Hst Hl Hr j Hj.
    destruct (word_rfind_ok w (Z.to_nat (Z.min st (64 * Z.of_nat (length w))))) as [[_ N]|(R & G & N)].
    + destruct (decide (j <= 64 * Z.of_nat (length w))); [apply N; lia|]. apply word_get_beyond. lia.
    + rewrite Hr in R. lia.
  - intros w st i Hst Hr Hi.
    destruct (word_find_ok w (Z.to_nat (64 * Z.of_nat (length w) - st)) st) as [[E _]|(R & G & N)];
      [congruence|]. rewrite Hr in *. split_and!; [lia|done..].
  - intros w st Hst Hl Hr j Hj.
    destruct (word_find_ok w (Z.to_nat (64 * Z.of_nat (length w) - st)) st) as [[_ N]|(R & G & N)];
      [|rewrite Hr in R; lia].
    destruct (decide (j < 64 * Z.of_nat (length w))); [apply N; lia|apply word_get_beyond; lia].
  - done.
Qed.

