(* ===== verification/BigAlloc.v ===== *)
(** The table of big allocations and the page index: data and low-level
    operations of src/src/pageindex.c and src/include/pageindex.h.

    A pointer to a [struct big_allocation] is modelled by its index in the
    array [big_allocations], the null pointer by 0: this is the code's own
    [BIDX]/[IDXB] convention (entry 0 is never used).  The table and the page
    index are total arrays that start zeroed, so they are finite maps with
    the zero record, respectively 0, as default.  Calls through the
    [*_private_free] function pointers are recorded in the trace [freed]. *)
From S2P Require Import Prelude Vas.

Definition NBIGALLOCS : Z := 32768.
Definition PAGEINDEX_ADDRESS : Z := 0x410000000000.

Record big_allocation := BigAllocation {
  b_begin : Z;
  b_end : Z;
  first_child : Z;
  next_sib : Z;
  parent : Z;
  prev_sib : Z;
  allocated_by : Z;
  suballocator : Z;
  allocator_private : Z;
  allocator_private_free : Z;
  suballocator_private : Z;
  suballocator_private_free : Z;
}.

Definition zero_bigalloc : big_allocation := BigAllocation 0 0 0 0 0 0 0 0 0 0 0 0.

#[export] Instance big_allocation_eq_dec : EqDecision big_allocation.
Proof. solve_decision. Defined.

(** Field updates. *)
Definition set_begin (v : Z) (b : big_allocation) : big_allocation :=
  BigAllocation v (b_end b) (first_child b) (next_sib b) (parent b) (prev_sib b)
    (allocated_by b) (suballocator b) (allocator_private b) (allocator_private_free b) (suballocator_private b) (suballocator_private_free b).
Definition set_end (v : Z) (b : big_allocation) : big_allocation :=
  BigAllocation (b_begin b) v (first_child b) (next_sib b) (parent b) (prev_sib b)
    (allocated_by b) (suballocator b) (allocator_private b) (allocator_private_free b) (suballocator_private b) (suballocator_private_free b).
Definition set_first_child (v : Z) (b : big_allocation) : big_allocation :=
  BigAllocation (b_begin b) (b_end b) v (next_sib b) (parent b) (prev_sib b)
    (allocated_by b) (suballocator b) (allocator_private b) (allocator_private_free b) (suballocator_private b) (suballocator_private_free b).
Definition set_next_sib (v : Z) (b : big_allocation) : big_allocation :=
  BigAllocation (b_begin b) (b_end b) (first_child b) v (parent b) (prev_sib b)
    (allocated_by b) (suballocator b) (allocator_private b) (allocator_private_free b) (suballocator_private b) (suballocator_private_free b).
Definition set_parent (v : Z) (b : big_allocation) : big_allocation :=
  BigAllocation (b_begin b) (b_end b) (first_child b) (next_sib b) v (prev_sib b)
    (allocated_by b) (suballocator b) (allocator_private b) (allocator_private_free b) (suballocator_private b) (suballocator_private_free b).
Definition set_prev_sib (v : Z) (b : big_allocation) : big_allocation :=
  BigAllocation (b_begin b) (b_end b) (first_child b) (next_sib b) (parent b) v
    (allocated_by b) (suballocator b) (allocator_private b) (allocator_private_free b) (suballocator_private b) (suballocator_private_free b).
Definition set_suballocator (v : Z) (b : big_allocation) : big_allocation :=
  BigAllocation (b_begin b) (b_end b) (first_child b) (next_sib b) (parent b) (prev_sib b)
    (allocated_by b) v (allocator_private b) (allocator_private_free b) (suballocator_private b) (suballocator_private_free b).
Definition set_suballocator_private (v f : Z) (b : big_allocation) : big_allocation :=
  BigAllocation (b_begin b) (b_end b) (first_child b) (next_sib b) (parent b) (prev_sib b)
    (allocated_by b) (suballocator b) (allocator_private b) (allocator_private_free b) v f.

(** [START] is the variable [__liballocs_private_nommap_malloc_bigalloc]. *)
Record state := State {
  big_allocations : gmap Z big_allocation;
  pageindex : gmap Z Z;
  START : Z;
  freed : list (Z * Z);
}.

Definition init_state : state := State ∅ ∅ 0 [].

Definition ba (s : state) (i : Z) : big_allocation :=
  default zero_bigalloc (big_allocations s !! i).
Definition pi (s : state) (p : Z) : Z := default 0 (pageindex s !! p).

Definition upd (i : Z) (f : big_allocation -> big_allocation) (s : state) : state :=
  State (<[i := f (ba s i)]> (big_allocations s)) (pageindex s) (START s) (freed s).
Definition pi_upd (p v : Z) (s : state) : state :=
  State (big_allocations s) (<[p := v]> (pageindex s)) (START s) (freed s).
Definition log_free (f arg : Z) (s : state) : state :=
  State (big_allocations s) (pageindex s) (START s) (freed s ++ [(f, arg)]).
Definition set_START (b : Z) (s : state) : state := State (big_allocations s) (pageindex s) b (freed s).

Definition BIGALLOC_IN_USE (b : big_allocation) : bool :=
  negb (b_begin b =? 0) && negb (b_end b =? 0).

(** What the table needs from the allocators it serves: the [min_alignment]
    of each [struct allocator] (src/include/allocmeta.h), the handlers that
    may claim an address no bigalloc covers, and start-up work of the brk and
    mmap allocators. *)
Class Hooks := {
  min_alignment : Z -> Z;
  brk_allocator : Z;
  systrap_is_initialized : bool;
  stack_notify_unindexed_address : Z -> M state bool;
  mmap_notify_unindexed_address : Z -> M state bool;
  brk_notify_brk : M state unit;
  mmap_allocator_init : M state unit;
}.

(** Fuel for one walk over the table: more than twice the number of entries. *)
Definition NB : nat := Z.to_nat NBIGALLOCS.
Arguments NB : simpl never.
Definition FUEL : nat := 2 * NB + 4.
Arguments FUEL : simpl never.
Lemma NB_eq : NB = Z.to_nat NBIGALLOCS.
Proof. done. Qed.
Lemma FUEL_eq : FUEL = (2 * NB + 4)%nat.
Proof. done. Qed.
#[global] Opaque NB FUEL.

Definition rd {A} (f : big_allocation -> A) (i : Z) : M state A :=
  gets (fun s => f (ba s i)).
Definition wr (i : Z) (f : big_allocation -> big_allocation) : M state unit :=
  modify (upd i f).
Definition pi_get (p : Z) : M state Z := gets (fun s => pi s p).
Definition pi_set (p v : Z) : M state unit := modify (pi_upd p v).

Section ops.
Context {V : Vas} {H : Hooks} {B : Build}.

Fixpoint bigalloc_depth_loop (fuel : nat) (tmp depth : Z) : M state Z :=
  match fuel with
  | O => nofuel
  | S fuel =>
    if tmp =? 0 then mret depth
    else p ← rd parent tmp; bigalloc_depth_loop fuel p (wrap32 (depth + 1))
  end.
Definition bigalloc_depth (b : Z) : M state Z := bigalloc_depth_loop FUEL b 0.

(** The checks of a debug build. *)
Fixpoint sanity_check_rec (fuel : nat) (b : Z) : M state unit :=
  match fuel with
  | O => nofuel
  | S fuel =>
    rec ← rd id b;
    if negb (BIGALLOC_IN_USE rec) then mret tt else
    assert (negb (b_end rec =? b_begin rec)) ;;
    before ← pi_get (PAGENUM (wrap64 (b_begin rec - 1)));
    assert (negb (before =? b)) ;;
    after ← pi_get (PAGENUM (b_end rec));
    assert (negb (after =? b)) ;;
    assert ((allocated_by rec =? 0) || (min_alignment (allocated_by rec) =? 0)
            || (b_begin rec mod min_alignment (allocated_by rec) =? 0)) ;;
    (if parent rec =? 0 then mret tt else
       d ← bigalloc_depth b;
       dp ← bigalloc_depth (parent rec);
       assert (d =? wrap32 (1 + dp)) ;;
       prec ← rd id (parent rec);
       assert (b_begin prec <=? b_begin rec) ;;
       assert (b_end rec <=? b_end prec)) ;;
    (if first_child rec =? 0 then mret tt else
       fcd ← bigalloc_depth (first_child rec);
       c ← rd next_sib (first_child rec);
       sanity_check_siblings fuel fcd c)
  end
with sanity_check_siblings (fuel : nat) (first_child_depth child : Z) : M state unit :=
  match fuel with
  | O => nofuel
  | S fuel =>
    if child =? 0 then mret tt else
    d ← bigalloc_depth child;
    assert (d =? first_child_depth) ;;
    sanity_check_rec fuel child ;;
    c ← rd next_sib child;
    sanity_check_siblings fuel first_child_depth c
  end.
Definition sanity_check_bigalloc (b : Z) : M state unit :=
  if NDEBUG then mret tt else sanity_check_rec FUEL b.

Definition CHECK_LOC (pos old_num : Z) : M state unit :=
  if NDEBUG then mret tt else
  loc ← pi_get pos;
  if (old_num =? 2 ^ 16 - 1) || (loc =? 0) || (loc =? old_num) then mret tt else abort.

Fixpoint check_range (k : nat) (pos old_num : Z) : M state unit :=
  match k with
  | O => mret tt
  | S k => CHECK_LOC pos old_num ;; check_range k (pos + 1) old_num
  end.

(** [wmemset] over the 16-bit entries: each wide character is two entries,
    the low half first (little-endian). *)
Fixpoint wmemset (k : nat) (pos val : Z) : M state unit :=
  match k with
  | O => mret tt
  | S k =>
    pi_set pos (Z.land val (2 ^ 16 - 1)) ;;
    pi_set (pos + 1) (Z.land (Z.shiftr val 16) (2 ^ 16 - 1)) ;;
    wmemset k (pos + 2) val
  end.

Definition memset_bigalloc (begin num old_num n : Z) : M state unit :=
  if Z.shiftr BIGGEST_SANE_USER_ALLOC LOG_PAGE_SIZE <? n then abort else
  bn ← (if (0 <? n) && negb ((PAGEINDEX_ADDRESS + 2 * begin) mod 4 =? 0)
        then CHECK_LOC begin old_num ;; pi_set begin num ;; mret (begin + 1, n - 1)
        else mret (begin, n));
  let begin := fst bn in
  let n := snd bn in
  assert ((n =? 0) || ((PAGEINDEX_ADDRESS + 2 * begin) mod 4 =? 0)) ;;
  let wchar_val := Z.lor (Z.shiftl num 16) num in
  (if negb (old_num =? 2 ^ 16 - 1) && negb (old_num =? 0) then
     let last := Z.min n (PAGENUM (MAXIMUM_USER_ADDRESS + 1) - begin) in
     check_range (Z.to_nat last) begin old_num ;;
     assert (Z.max 0 last =? n)
   else mret tt) ;;
  when (negb (n =? 0)) (wmemset (Z.to_nat (n / 2)) begin wchar_val) ;;
  when (n mod 2 =? 1)
    (CHECK_LOC (begin + (n - 1)) old_num ;; pi_set (begin + (n - 1)) num).

Fixpoint find_free_from (k : nat) (p : Z) : M state Z :=
  match k with
  | O => abort
  | S k =>
    sanity_check_bigalloc p ;;
    u ← rd BIGALLOC_IN_USE p;
    if (u : bool) then find_free_from k (p + 1) else mret p
  end.
Definition find_free_bigalloc : M state Z :=
  find_free_from (Z.to_nat (NBIGALLOCS - 1)) 1.

Fixpoint is_unindexed_loop (k : nat) (pos last : Z) : M state bool :=
  v ← pi_get pos;
  match k with
  | O => mret (pos =? last)
  | S k =>
    if (pos <? last) && (v =? 0) then is_unindexed_loop k (pos + 1) last
    else mret (pos =? last)
  end.
Definition is_unindexed (begin end_ : Z) : M state bool :=
  is_unindexed_loop (Z.to_nat (PAGENUM end_ - PAGENUM begin)) (PAGENUM begin) (PAGENUM end_).
Definition __pages_unused (begin end_ : Z) : M state bool := is_unindexed begin end_.

Definition clear_bigalloc_nomemset (b : Z) : M state unit :=
  wr b (fun r => set_end 0 (set_begin 0 r)).

Definition add_child (child parent_ : Z) : M state unit :=
  sanity_check_bigalloc parent_ ;;
  cp ← rd parent child;
  assert (cp =? 0) ;;
  wr child (set_parent parent_) ;;
  previous_first_child ← rd first_child parent_;
  wr parent_ (set_first_child child) ;;
  cn ← rd next_sib child;
  assert (cn =? 0) ;;
  wr child (set_next_sib previous_first_child) ;;
  pfp ← rd prev_sib previous_first_child;
  assert ((previous_first_child =? 0) || (pfp =? 0)) ;;
  when (negb (previous_first_child =? 0)) (wr previous_first_child (set_prev_sib child)) ;;
  cpv ← rd prev_sib child;
  assert (cpv =? 0) ;;
  sanity_check_bigalloc child ;;
  sanity_check_bigalloc parent_.

Definition unlink_child (child : Z) : M state unit :=
  parent_ ← rd parent child;
  if parent_ =? 0 then abort else
  sanity_check_bigalloc child ;;
  sanity_check_bigalloc parent_ ;;
  fc ← rd first_child parent_;
  ps ← rd prev_sib child;
  (if child =? fc then
     ns ← rd next_sib child;
     wr parent_ (set_first_child ns) ;;
     assert (ps =? 0)
   else assert (negb (ps =? 0))) ;;
  ns ← rd next_sib child;
  when (negb (ps =? 0)) (wr ps (set_next_sib ns)) ;;
  ns ← rd next_sib child;
  ps ← rd prev_sib child;
  when (negb (ns =? 0)) (wr ns (set_prev_sib ps)) ;;
  wr child (fun r => set_parent 0 (set_next_sib 0 (set_prev_sib 0 r))) ;;
  sanity_check_bigalloc parent_.
End ops.
