(* ===== verification/PageIndex.v ===== *)
(** The operations of src/src/pageindex.c over the bigalloc table and the
    page index, and the inline queries of src/include/pageindex.h.

    Every function below is the whole function of the source.  The mutex
    ([BIG_LOCK]/[BIG_UNLOCK]) serialises the operations, so each is one atomic
    step on the state; [if (!pageindex) __pageindex_init()] has run before the
    first step.  Diagnostic output is dropped.  [sanity_check_bigallocs_toplevel]
    has no effect other than its assertions, so it is empty in a release
    build. *)
From S2P Require Import Prelude Vas BigAlloc.

Section ops.
Context {V : Vas} {H : Hooks} {B : Build}.

(** ** The ordered list of top-level bigallocs *)

Definition bigalloc_compare_toplevel (b1 b2 : big_allocation) : Z :=
  if b_begin b1 <? b_begin b2 then -1
  else if b_begin b2 <? b_begin b1 then 1 else 0.

(** Walk from [cur] along [dir], asserting the order of neighbours; returns
    the entries met, the last one first. *)
Fixpoint sanity_walk (fuel : nat) (dir : big_allocation -> Z) (ord : Z)
    (cur : Z) (seen : list Z) : M state (list Z) :=
  match fuel with
  | O => nofuel
  | S fuel =>
    if cur =? 0 then mret seen else
    r ← rd id cur;
    n ← rd id (dir r);
    (if dir r =? 0 then mret tt
     else assert (bigalloc_compare_toplevel r n =? ord)) ;;
    sanity_walk fuel dir ord (dir r) (cur :: seen)
  end.

Fixpoint toplevel_in_use (k : nat) (idx : Z) : M state (list Z) :=
  match k with
  | O => mret []
  | S k =>
    r ← rd id idx;
    l ← toplevel_in_use k (idx + 1);
    mret (if BIGALLOC_IN_USE r && (parent r =? 0) then idx :: l else l)
  end.

Definition sanity_check_bigallocs_toplevel : M state unit :=
  if NDEBUG then mret tt else
  b ← gets START;
  if b =? 0 then mret tt else
  back ← sanity_walk FUEL prev_sib 1 b [];
  fwd ← sanity_walk FUEL next_sib (-1) b [];
  tops ← toplevel_in_use (Z.to_nat (NBIGALLOCS - 1)) 1;
  assert (forallb (fun i => bool_decide (i ∈ back ++ fwd)) tops) ;;
  up ← sanity_walk FUEL next_sib (-1) (default 0 (head back)) [];
  assert (bool_decide (length up = length tops)) ;;
  down ← sanity_walk FUEL prev_sib 1 (default 0 (head fwd)) [];
  assert (bool_decide (length down = length tops)).

(** [search_xwards_until_p]: returns the final [cur] and [prev]. *)
Fixpoint search_until (fuel : nat) (dir : big_allocation -> Z)
    (p : big_allocation -> bool) (cur prev : Z) : M state (Z * Z) :=
  match fuel with
  | O => nofuel
  | S fuel =>
    if cur =? 0 then mret (cur, prev) else
    r ← rd id cur;
    if p r then mret (cur, prev) else search_until fuel dir p (dir r) cur
  end.

Definition ge_cond (addr : Z) (r : big_allocation) : bool := addr <=? wrap64 (b_end r - 1).
Definition lt_cond (addr : Z) (r : big_allocation) : bool := b_begin r <? addr.

Definition find_toplevel_lowest_ge (addr : Z) : M state Z :=
  st ← gets START;
  cp ← search_until FUEL next_sib (ge_cond addr) st 0;
  let cur := fst cp in
  if negb (cur =? 0) && negb (cur =? st) then mret cur
  else if cur =? 0 then mret 0
  else
    cp ← search_until FUEL prev_sib (fun r => negb (ge_cond addr r)) st 0;
    assert (negb (fst cp =? st)) ;;
    assert (negb (snd cp =? 0)) ;;
    mret (snd cp).

Definition find_toplevel_highest_lt (addr : Z) : M state Z :=
  st ← gets START;
  cp ← search_until FUEL prev_sib (lt_cond addr) st 0;
  let cur := fst cp in
  if negb (cur =? 0) && negb (cur =? st) then mret cur
  else if cur =? 0 then mret 0
  else
    cp ← search_until FUEL next_sib (fun r => negb (lt_cond addr r)) st 0;
    assert (negb (fst cp =? st)) ;;
    assert (negb (snd cp =? 0)) ;;
    mret (snd cp).

Definition add_toplevel (b : Z) : M state unit :=
  e ← rd b_end b;
  n ← find_toplevel_lowest_ge e;
  wr b (set_next_sib n) ;;
  p ← (if negb (n =? 0) then rd prev_sib n
       else bg ← rd b_begin b; find_toplevel_highest_lt bg);
  wr b (set_prev_sib p) ;;
  when (negb (p =? 0)) (wr p (set_next_sib b)) ;;
  when (negb (n =? 0)) (wr n (set_prev_sib b)).

Definition unlink_toplevel (b : Z) : M state unit :=
  ps ← rd prev_sib b;
  ns ← rd next_sib b;
  when (negb (ps =? 0)) (wr ps (set_next_sib ns)) ;;
  when (negb (ns =? 0)) (wr ns (set_prev_sib ps)).

Definition __liballocs_find_mapping_at_or_above (addr : Z) : M state Z :=
  found ← find_toplevel_highest_lt addr;
  if found =? 0 then mret 0 else
  e ← rd b_end found;
  if e <=? addr then find_toplevel_lowest_ge addr else mret found.

Definition __liballocs_find_mapping_below (addr : Z) : M state Z :=
  found ← find_toplevel_highest_lt addr;
  if found =? 0 then mret 0 else
  r ← rd id found;
  if addr <? b_end r then find_toplevel_highest_lt (b_begin r) else mret found.

(** ** Creation *)

Definition bigalloc_init_nomemset (b ptr size parent_ ap apf ab sa sp spf : Z) : M state unit :=
  wr b (fun r => BigAllocation ptr (wrap64 (ptr + size)) 0 0 (parent r) 0 ab sa ap apf sp spf) ;;
  (if negb (parent_ =? 0) then
     add_child b parent_ ;;
     p ← rd parent b;
     assert (negb (p =? 0))
   else add_toplevel b) ;;
  sanity_check_bigalloc b ;;
  p ← rd parent b;
  when (p =? 0) sanity_check_bigallocs_toplevel.

Definition bigalloc_init (b ptr size parent_ ap apf ab sa sp spf : Z) : M state unit :=
  bigalloc_init_nomemset b ptr size parent_ ap apf ab sa sp spf ;;
  r ← rd id b;
  memset_bigalloc (PAGENUM (ROUND_UP (b_begin r) PAGE_SIZE)) b parent_
    (PAGE_DIST (ROUND_UP (b_begin r) PAGE_SIZE) (ROUND_DOWN (b_end r) PAGE_SIZE)) ;;
  sanity_check_bigalloc b.

Definition bigalloc_new (ptr size parent_ ap apf ab : Z) : M state Z :=
  b ← find_free_bigalloc;
  bigalloc_init b ptr size parent_ ap apf ab 0 0 0 ;;
  mret b.

(** ** Deletion *)

Fixpoint bigalloc_del_rec (fuel : nat) (b : Z) : M state unit :=
  match fuel with
  | O => nofuel
  | S fuel =>
    sanity_check_bigalloc b ;;
    child ← rd first_child b;
    bigalloc_del_children fuel child ;;
    r ← rd id b;
    when (negb (allocator_private r =? 0) && negb (allocator_private_free r =? 0))
      (modify (log_free (allocator_private_free r) (allocator_private r))) ;;
    when (negb (suballocator_private_free r =? 0))
      (modify (log_free (suballocator_private_free r) (suballocator_private r))) ;;
    p ← rd parent b;
    (if negb (p =? 0) then unlink_child b else unlink_toplevel b) ;;
    sanity_check_bigalloc b ;;
    r ← rd id b;
    memset_bigalloc (PAGENUM (ROUND_UP (b_begin r) PAGE_SIZE)) p b
      (PAGE_DIST (ROUND_UP (b_begin r) PAGE_SIZE) (ROUND_DOWN (b_end r) PAGE_SIZE)) ;;
    clear_bigalloc_nomemset b ;;
    u ← rd BIGALLOC_IN_USE b;
    assert (negb u)
  end
with bigalloc_del_children (fuel : nat) (child : Z) : M state unit :=
  match fuel with
  | O => nofuel
  | S fuel =>
    if child =? 0 then mret tt else
    next_child ← rd next_sib child;
    bigalloc_del_rec fuel child ;;
    bigalloc_del_children fuel next_child
  end.
Definition bigalloc_del (b : Z) : M state unit := bigalloc_del_rec FUEL b.

(** ** Resizing *)

Definition __liballocs_extend_bigalloc (b new_end : Z) : M state bool :=
  old_end ← rd b_end b;
  wr b (set_end new_end) ;;
  parent_num ← rd parent b;
  memset_bigalloc (PAGENUM (ROUND_DOWN old_end PAGE_SIZE)) b parent_num
    (PAGE_DIST (ROUND_DOWN old_end PAGE_SIZE) (ROUND_DOWN new_end PAGE_SIZE)) ;;
  sanity_check_bigalloc b ;;
  mret true.

Fixpoint under_direct (fuel : nat) (n child : Z) : M state bool :=
  match fuel with
  | O => nofuel
  | S fuel =>
    if child =? 0 then mret false else
    if child =? n then mret true else
    c ← rd next_sib child; under_direct fuel n c
  end.

Fixpoint under_rec (fuel : nat) (n b : Z) : M state bool :=
  match fuel with
  | O => nofuel
  | S fuel =>
    if n =? b then mret false else
    c ← rd first_child b;
    hit ← under_direct FUEL n c;
    if (hit : bool) then mret true else
    c ← rd first_child b;
    under_children fuel n c
  end
with under_children (fuel : nat) (n child : Z) : M state bool :=
  match fuel with
  | O => nofuel
  | S fuel =>
    if child =? 0 then mret false else
    r ← under_rec fuel n child;
    if (r : bool) then mret true else
    c ← rd next_sib child; under_children fuel n c
  end.
Definition is_one_or_more_levels_under (maybe_lower_n b : Z) : M state bool :=
  under_rec FUEL maybe_lower_n b.

Definition __liballocs_pre_extend_bigalloc (b new_begin : Z) : M state bool :=
  sanity_check_bigalloc b ;;
  old_begin ← rd b_begin b;
  (if new_begin <? old_begin then
     wr b (set_begin new_begin) ;;
     parent_num ← rd parent b;
     e ← rd b_end b;
     idx ← pi_get (PAGENUM old_begin);
     under ← (if PAGENUM old_begin <? PAGENUM e
              then u ← is_one_or_more_levels_under idx b; mret (negb u)
              else mret false);
     memset_bigalloc (PAGENUM (ROUND_UP new_begin PAGE_SIZE)) b parent_num
       (PAGE_DIST (ROUND_UP new_begin PAGE_SIZE)
          (if (under : bool) then ROUND_UP old_begin PAGE_SIZE else ROUND_DOWN old_begin PAGE_SIZE))
   else mret tt) ;;
  sanity_check_bigalloc b ;;
  mret true.

Fixpoint pre_extend_rec (fuel : nat) (b new_begin : Z) : M state bool :=
  match fuel with
  | O => nofuel
  | S fuel =>
    p ← rd parent b;
    ret ← (if negb (p =? 0) then
             pr ← rd id p;
             let al := min_alignment (allocated_by pr) in
             pre_extend_rec fuel p
               (if negb (al =? 0) then ROUND_DOWN new_begin al else new_begin)
           else mret true);
    if (ret : bool) then __liballocs_pre_extend_bigalloc b new_begin else mret ret
  end.
Definition __liballocs_pre_extend_bigalloc_recursive (b new_begin : Z) : M state bool :=
  pre_extend_rec FUEL b new_begin.

Definition bigalloc_truncate_at_end (b new_end : Z) : M state bool :=
  old_end ← rd b_end b;
  wr b (set_end new_end) ;;
  parent_num ← rd parent b;
  memset_bigalloc (PAGENUM (ROUND_DOWN new_end PAGE_SIZE)) parent_num b
    (PAGE_DIST (ROUND_DOWN new_end PAGE_SIZE) (ROUND_DOWN old_end PAGE_SIZE)) ;;
  sanity_check_bigalloc b ;;
  mret true.

Definition __liballocs_truncate_bigalloc_at_end (b new_end : Z) : M state bool :=
  ret ← bigalloc_truncate_at_end b new_end;
  sanity_check_bigalloc b ;;
  mret ret.

Definition __adjust_bigalloc_end (b new_end : Z) : M state unit :=
  old_end ← rd b_end b;
  if new_end <? old_end then
    __liballocs_truncate_bigalloc_at_end b new_end ;; mret tt
  else if old_end <? new_end then
    __liballocs_extend_bigalloc b new_end ;; mret tt
  else mret tt.

Definition __liballocs_truncate_bigalloc_at_beginning (b new_begin : Z) : M state bool :=
  old_begin ← rd b_begin b;
  wr b (set_begin new_begin) ;;
  parent_num ← rd parent b;
  memset_bigalloc (PAGENUM (ROUND_UP old_begin PAGE_SIZE)) parent_num b
    (PAGE_DIST (ROUND_UP old_begin PAGE_SIZE) (ROUND_UP new_begin PAGE_SIZE)) ;;
  sanity_check_bigalloc b ;;
  mret true.

(** ** Splitting *)

Fixpoint split_children (fuel : nat) (b new split_addr child : Z) : M state unit :=
  match fuel with
  | O => nofuel
  | S fuel =>
    if child =? 0 then mret tt else
    c ← rd id child;
    r ← rd id b;
    let first := (b_begin r <=? b_begin c) && (b_end c <=? split_addr) in
    let second := (split_addr <=? b_begin c) && (b_end c <=? b_end r) in
    assert (negb (first && second)) ;;
    if first && second then abort else
    when second (unlink_child child ;; add_child child new) ;;
    split_children fuel b new split_addr (next_sib c)
  end.

Fixpoint replace_range (k : nat) (pos from to : Z) : M state unit :=
  match k with
  | O => mret tt
  | S k =>
    v ← pi_get pos;
    when (v =? from) (pi_set pos to) ;;
    replace_range k (pos + 1) from to
  end.

Definition __liballocs_split_bigalloc_at_page_boundary (b split_addr : Z) : M state Z :=
  tmp ← rd id b;
  new ← find_free_bigalloc;
  bigalloc_init_nomemset new split_addr (wrap64 (b_end tmp - split_addr)) (parent tmp)
    (allocator_private tmp) (allocator_private_free tmp) (allocated_by tmp)
    (suballocator tmp) (suballocator_private tmp) (suballocator_private_free tmp) ;;
  child ← rd first_child b;
  split_children FUEL b new split_addr child ;;
  wr b (set_end split_addr) ;;
  nr ← rd id new;
  let first := PAGENUM (ROUND_UP (b_begin nr) PAGE_SIZE) in
  let last := PAGENUM (ROUND_UP (b_end nr) PAGE_SIZE) in
  replace_range (Z.to_nat (last - first)) first b new ;;
  sanity_check_bigalloc b ;;
  sanity_check_bigalloc new ;;
  mret new.
End ops.
