(* ===== verification/PageIndexQuery.v ===== *)
(** Queries of src/src/pageindex.c and the inlines of src/include/pageindex.h:
    from an address to the bigalloc that spans it. *)
From S2P Require Import Prelude Vas BigAlloc PageIndex.

Section query.
Context {V : Vas} {H : Hooks} {B : Build}.

Definition __liballocs_notify_unindexed_address (ptr : Z) : M state bool :=
  ret ← stack_notify_unindexed_address ptr;
  if (ret : bool) then mret true else
  ret ← mmap_notify_unindexed_address ptr;
  if (ret : bool) then mret true else mret false.

Definition spans (addr : Z) (r : big_allocation) : bool :=
  (b_begin r <=? addr) && (addr <? b_end r).

(** ** The deepest bigalloc *)

Fixpoint find_deepest_rec (fuel : nat) (start addr : Z) : M state Z :=
  match fuel with
  | O => nofuel
  | S fuel =>
    c ← rd first_child start;
    d ← find_deepest_children fuel c addr;
    mret (if d =? 0 then start else d)
  end
with find_deepest_children (fuel : nat) (child addr : Z) : M state Z :=
  match fuel with
  | O => nofuel
  | S fuel =>
    if child =? 0 then mret 0 else
    r ← rd id child;
    if spans addr r then
      maybe_deeper ← find_deepest_rec fuel child addr;
      if negb (maybe_deeper =? 0) then mret maybe_deeper
      else find_deepest_children fuel (next_sib r) addr
    else find_deepest_children fuel (next_sib r) addr
  end.
Definition find_deepest_bigalloc_recursive (start addr : Z) : M state Z :=
  find_deepest_rec FUEL start addr.

Definition find_deepest_bigalloc (addr : Z) : M state Z :=
  start_idx ← pi_get (PAGENUM addr);
  if start_idx =? 0 then
    __liballocs_notify_unindexed_address addr ;;
    start_idx ← pi_get (PAGENUM addr);
    if start_idx =? 0 then mret 0
    else find_deepest_bigalloc_recursive start_idx addr
  else find_deepest_bigalloc_recursive start_idx addr.

Definition __lookup_deepest_bigalloc (mem : Z) : M state Z := find_deepest_bigalloc mem.

(** ** The topmost bigalloc of a given (sub)allocator *)

Fixpoint root_loop (fuel : nat) (start : Z) : M state Z :=
  match fuel with
  | O => nofuel
  | S fuel =>
    p ← rd parent start;
    if p =? 0 then mret start else root_loop fuel p
  end.

Fixpoint find_bigalloc_rec (fuel : nat) (start addr a : Z) (match_suballocator : bool) : M state Z :=
  match fuel with
  | O => nofuel
  | S fuel =>
    r ← rd id start;
    if (if match_suballocator then suballocator r else allocated_by r) =? a then mret start
    else find_bigalloc_children fuel (first_child r) addr a match_suballocator
  end
with find_bigalloc_children (fuel : nat) (child addr a : Z) (match_suballocator : bool) : M state Z :=
  match fuel with
  | O => nofuel
  | S fuel =>
    if child =? 0 then mret 0 else
    r ← rd id child;
    if spans addr r then find_bigalloc_rec fuel child addr a match_suballocator
    else find_bigalloc_children fuel (next_sib r) addr a match_suballocator
  end.

(** The walk back over unindexed pages before the system-call traps are set
    up; the subtraction is that of [unsigned long]. *)
Definition MAX_BRK_PAGES_TO_SEARCH : Z := 128.
Fixpoint brk_search_loop (fuel : nat) (search_pagenum pagenum : Z) : M state Z :=
  match fuel with
  | O => nofuel
  | S fuel =>
    v ← pi_get search_pagenum;
    if (0 <? search_pagenum) && (v =? 0) then
      if MAX_BRK_PAGES_TO_SEARCH <? wrap64 (search_pagenum - pagenum)
      then mret search_pagenum
      else brk_search_loop fuel (search_pagenum - 1) pagenum
    else mret search_pagenum
  end.

Definition from_root (startnum addr a : Z) (match_suballocator : bool) : M state Z :=
  root ← root_loop FUEL startnum;
  find_bigalloc_rec FUEL root addr a match_suballocator.

(** The page of the address tested here is indexed, so the recursive
    [__lookup_bigalloc_from_root] of the source starts from its entry. *)
Definition early_fixup (addr : Z) : M state unit :=
  b2 ← rd b_begin 2;
  if negb (b2 =? 0) then
    search_pagenum ← brk_search_loop FUEL (PAGENUM addr) (PAGENUM addr);
    v ← pi_get search_pagenum;
    if negb (v =? 0) then
      found ← from_root v
        (wrap64 (Z.shiftl search_pagenum LOG_PAGE_SIZE + (Z.shiftl 1 LOG_PAGE_SIZE - 1)))
        brk_allocator false;
      if negb (found =? 0) then brk_notify_brk else mret tt
    else mret tt
  else mmap_allocator_init.

Definition find_bigalloc_recursive (start addr a : Z) (match_suballocator : bool) : M state Z :=
  if start =? 0 then
    startnum ← pi_get (PAGENUM addr);
    if (startnum =? 0) && negb systrap_is_initialized then
      early_fixup addr ;;
      startnum ← pi_get (PAGENUM addr);
      if startnum =? 0 then mret 0 else from_root startnum addr a match_suballocator
    else from_root startnum addr a match_suballocator
  else find_bigalloc_rec FUEL start addr a match_suballocator.

Definition find_bigalloc_under_pageindex (addr a : Z) : M state Z :=
  start_idx ← pi_get (PAGENUM addr);
  if start_idx =? 0 then mret 0 else find_bigalloc_recursive start_idx addr a false.
Definition find_bigalloc_from_root (addr a : Z) : M state Z :=
  find_bigalloc_recursive 0 addr a false.
Definition find_bigalloc_under_pageindex_nofail (addr a : Z) : M state Z :=
  start_idx ← pi_get (PAGENUM addr);
  if start_idx =? 0 then abort else find_bigalloc_recursive start_idx addr a false.

Definition __lookup_bigalloc_under_pageindex (mem a : Z) : M state Z :=
  assert (negb (a =? 0)) ;; find_bigalloc_under_pageindex mem a.
Definition __lookup_bigalloc_under (mem a start : Z) : M state Z :=
  assert (negb (a =? 0)) ;; find_bigalloc_recursive start mem a false.
Definition __lookup_bigalloc_under_by_suballocator (mem sub_a start : Z) : M state Z :=
  assert (negb (sub_a =? 0)) ;; find_bigalloc_recursive start mem sub_a true.
Definition __lookup_bigalloc_from_root (mem a : Z) : M state Z :=
  assert (negb (a =? 0)) ;; find_bigalloc_from_root mem a.
Definition __lookup_bigalloc_from_root_by_suballocator (mem sub_a : Z) : M state Z :=
  assert (negb (sub_a =? 0)) ;; find_bigalloc_recursive 0 mem sub_a true.

Definition __lookup_bigalloc_top_level (mem : Z) : M state Z :=
  n ← pi_get (PAGENUM mem);
  if n =? 0 then mret 0 else root_loop FUEL n.

(** ** Common ancestors *)

Fixpoint common_parent_rec (fuel : nat) (b1 depth1 b2 depth2 : Z) : M state Z :=
  match fuel with
  | O => nofuel
  | S fuel =>
    if b1 =? b2 then mret b1 else
    if (depth1 =? 0) || (depth2 =? 0) then mret 0 else
    if depth2 <? depth1 then
      p ← rd parent b1; common_parent_rec fuel p (depth1 - 1) b2 (depth2 - 1)
    else
      p ← rd parent b2; common_parent_rec fuel b1 depth1 p (depth2 - 1)
  end.
Definition get_common_parent_bigalloc (ptr end_ : Z) : M state Z :=
  b1 ← find_deepest_bigalloc ptr;
  b2 ← find_deepest_bigalloc end_;
  depth1 ← bigalloc_depth b1;
  depth2 ← bigalloc_depth b2;
  common_parent_rec FUEL b1 depth1 b2 depth2.
Definition __liballocs_find_common_parent_bigalloc (ptr end_ : Z) : M state Z :=
  get_common_parent_bigalloc ptr end_.

(** ** Allocator queries *)

Definition __liballocs_get_bigalloc_containing (obj : Z) : M state Z :=
  pi_get (PAGENUM obj).

Definition __liballocs_get_allocator_upper_bound (obj : Z) : M state Z :=
  b ← __liballocs_get_bigalloc_containing obj;
  if negb (b =? 0) then rd allocated_by b else mret 0.

Definition __liballocs_infer_allocator (maybe_the_allocation containing_bigalloc : Z) : M state Z :=
  assert (negb (containing_bigalloc =? 0)) ;;
  sa ← rd suballocator containing_bigalloc;
  assert (negb (sa =? 0) || negb (maybe_the_allocation =? 0)) ;;
  if negb (maybe_the_allocation =? 0) then rd allocated_by maybe_the_allocation
  else mret sa.

(** One descent step: the last child in list order that spans the address. *)
Fixpoint leaf_step (fuel : nat) (cur child obj : Z) : M state Z :=
  match fuel with
  | O => nofuel
  | S fuel =>
    if child =? 0 then mret cur else
    r ← rd id child;
    leaf_step fuel (if spans obj r then child else cur) (next_sib r) obj
  end.
Fixpoint leaf_loop (fuel : nat) (deepest cur obj : Z) : M state Z :=
  match fuel with
  | O => nofuel
  | S fuel =>
    if cur =? 0 then mret deepest else
    c ← rd first_child cur;
    next ← leaf_step FUEL cur c obj;
    leaf_loop fuel cur (if next =? cur then 0 else next) obj
  end.
(** Returns the allocator and, where it is set, the out-parameter. *)
Definition __liballocs_leaf_allocator_for (obj : Z) : M state (Z * option Z) :=
  cur ← __liballocs_get_bigalloc_containing obj;
  deepest ← leaf_loop FUEL 0 cur obj;
  if deepest =? 0 then mret (0, None) else
  r ← rd id deepest;
  mret (if negb (suballocator r =? 0) then suballocator r else allocated_by r, Some deepest).

Definition __liballocs_ool_get_allocator (obj : Z) : M state Z :=
  r ← __liballocs_leaf_allocator_for obj; mret (fst r).

(** ** Entry points that combine a query with an update *)

Definition __liballocs_new_bigalloc (ptr size ap apf maybe_parent ab : Z) : M state Z :=
  let chunk_lastbyte := wrap64 (ptr + size - 1) in
  if BIGGEST_SANE_USER_ALLOC <? size then abort else
  parent_ ← (if negb (maybe_parent =? 0) then mret maybe_parent else
    deepest_at_start ← find_deepest_bigalloc ptr;
    deepest_at_end ← find_deepest_bigalloc chunk_lastbyte;
    if negb (deepest_at_start =? deepest_at_end) then abort else
    if deepest_at_start =? 0 then
      if negb (ROUND_UP ptr PAGE_SIZE =? ptr) then abort else
      if negb (ROUND_UP (wrap64 (chunk_lastbyte + 1)) PAGE_SIZE =? wrap64 (chunk_lastbyte + 1))
      then abort else mret deepest_at_start
    else mret deepest_at_start);
  (if negb (parent_ =? 0) then sanity_check_bigalloc parent_ else mret tt) ;;
  b ← bigalloc_new ptr size parent_ ap apf ab;
  sanity_check_bigalloc b ;;
  mret b.

Definition __liballocs_delete_bigalloc_at (begin a : Z) : M state bool :=
  b ← find_bigalloc_from_root begin a;
  if b =? 0 then mret false else bigalloc_del b ;; mret true.

Fixpoint skip_zeros (k : nat) (pos : Z) : M state Z :=
  match k with
  | O => mret pos
  | S k => v ← pi_get pos; if v =? 0 then skip_zeros k (pos + 1) else mret pos
  end.

Fixpoint delete_all_loop (fuel : nat) (deleted_up_to end_ : Z) : M state unit :=
  match fuel with
  | O => nofuel
  | S fuel =>
    if negb (deleted_up_to <? end_) then mret tt else
    let initial_pagenum := PAGENUM deleted_up_to in
    let max_len := PAGENUM (ROUND_UP end_ PAGE_SIZE) - initial_pagenum in
    pos ← skip_zeros (Z.to_nat max_len) initial_pagenum;
    let deleted_up_to := wrap64 (deleted_up_to + PAGE_SIZE * (pos - initial_pagenum)) in
    if end_ <=? deleted_up_to then mret tt else
    n ← pi_get (PAGENUM deleted_up_to);
    if n =? 0 then abort else
    r ← rd id n;
    if b_begin r =? 0 then abort else
    if b_end r =? 0 then abort else
    root ← root_loop FUEL n;
    e ← rd b_end root;
    if negb (deleted_up_to <? e) then abort else
    bigalloc_del root ;;
    delete_all_loop fuel e end_
  end.
Definition __liballocs_delete_all_bigallocs_overlapping_range (begin end_ : Z) : M state bool :=
  delete_all_loop FUEL begin end_ ;; mret true.
End query.
