(* ===== verification/BuildRefinement.v ===== *)
(** Debug and release builds of the page index: assertions and sanity checks
    only read the state, so whenever a debug build returns, the release build
    returns the same result in the same state. *)
From S2P Require Import Prelude Vas BigAlloc PageIndex PageIndexQuery.

(** ** Programs that only read *)

Definition reads {S A} (m : M S A) : Prop := forall s a s', m s = Done (a, s') -> s' = s.

Section reads.
Context {S : Type}.

Lemma reads_ret {A} (a : A) : reads (S := S) (mret a).
Proof. by intros s ? ? [= _ ->]. Qed.
Lemma reads_gets {A} (f : S -> A) : reads (gets f).
Proof. by intros s ? ? [= _ ->]. Qed.
Lemma reads_abort {A} : reads (S := S) (A := A) abort.
Proof. done. Qed.
Lemma reads_nofuel {A} : reads (S := S) (A := A) nofuel.
Proof. done. Qed.
Lemma reads_assert {B : Build} (b : bool) : reads (S := S) (assert b).
Proof. intros s ? ?. unfold assert. destruct NDEBUG, b; by intros [= _ ->]. Qed.
Lemma reads_bind {A C} (m : M S A) (f : A -> M S C) : reads m -> (forall a, reads (f a)) -> reads (m ≫= f).
Proof.
  intros Hm Hf s a s'. unfold mbind, M_bind. destruct (m s) as [[x t]| |] eqn:E; try done.
  intros ->%Hf. by apply Hm in E.
Qed.

(** A check that only reads can be left out. *)
Lemma reads_refines (m : M S unit) : reads m -> refines m (mret tt).
Proof. intros Hm s [[] s'] E. by rewrite (Hm _ _ _ E). Qed.
End reads.

Lemma reads_rd {A} (f : big_allocation -> A) i : reads (rd f i).
Proof. apply reads_gets. Qed.
Lemma reads_pi_get p : reads (pi_get p).
Proof. apply reads_gets. Qed.

Create HintDb build discriminated.
#[export] Hint Constants Opaque : build.
#[export] Hint Resolve reads_rd reads_pi_get reads_ret reads_gets reads_abort reads_nofuel reads_assert : build.

Ltac solve_reads :=
  repeat (intros; first
    [ solve [eauto 2 with build]
    | apply reads_bind
    | match goal with |- reads (if ?b then _ else _) => destruct b end ]).

Ltac solve_refines :=
  repeat (intros; first
    [ apply refines_assert
    | solve [eauto 2 with build]
    | reflexivity
    | apply refines_bind
    | apply refines_when
    | match goal with |- refines (if ?b then _ else _) _ => destruct b end ]).

Section build.
Context {V : Vas} {H : Hooks}.

(** ** The checks *)

Lemma depth_loop_reads fuel t d : reads (bigalloc_depth_loop fuel t d).
Proof. revert t d. induction fuel; intros; cbn [bigalloc_depth_loop]; solve_reads. Qed.

Lemma sanity_reads fuel : (forall b, reads (sanity_check_rec (B := debug) fuel b)) /\
  (forall d c, reads (sanity_check_siblings (B := debug) fuel d c)).
Proof.
  induction fuel as [|fuel [IH1 IH2]]; [done|].
  split; intros; cbn [sanity_check_rec sanity_check_siblings]; unfold bigalloc_depth;
    pose proof depth_loop_reads; solve_reads.
Qed.

Lemma sanity_refines b : refines (sanity_check_bigalloc (B := debug) b) (sanity_check_bigalloc (B := release) b).
Proof. apply reads_refines, sanity_reads. Qed.

Lemma sanity_walk_reads dir ord fuel c l : reads (sanity_walk (B := debug) fuel dir ord c l).
Proof. revert c l. induction fuel; intros; cbn [sanity_walk]; solve_reads. Qed.

Lemma toplevel_in_use_reads k i : reads (toplevel_in_use k i).
Proof. revert i. induction k; intros; cbn [toplevel_in_use]; solve_reads. Qed.

Lemma toplevel_refines :
  refines (sanity_check_bigallocs_toplevel (B := debug)) (sanity_check_bigallocs_toplevel (B := release)).
Proof.
  apply reads_refines. unfold sanity_check_bigallocs_toplevel. cbn [NDEBUG debug].
  pose proof sanity_walk_reads. pose proof toplevel_in_use_reads. solve_reads.
Qed.

Lemma check_loc_refines p o : refines (CHECK_LOC (B := debug) p o) (CHECK_LOC (B := release) p o).
Proof. apply reads_refines. unfold CHECK_LOC. cbn [NDEBUG debug]. solve_reads. Qed.
End build.
#[export] Hint Resolve sanity_refines toplevel_refines check_loc_refines : build.

Section ops.
Context {V : Vas} {H : Hooks}.

Lemma check_range_refines k p o : refines (check_range (B := debug) k p o) (check_range (B := release) k p o).
Proof. revert p. induction k; intros; cbn [check_range]; solve_refines. Qed.
#[local] Hint Resolve check_range_refines : build.

Lemma memset_refines b n o k :
  refines (memset_bigalloc (B := debug) b n o k) (memset_bigalloc (B := release) b n o k).
Proof. unfold memset_bigalloc. solve_refines. Qed.

Lemma find_free_from_refines k p : refines (find_free_from (B := debug) k p) (find_free_from (B := release) k p).
Proof. revert p. induction k; intros; cbn [find_free_from]; solve_refines. Qed.

Lemma find_free_refines : refines (find_free_bigalloc (B := debug)) (find_free_bigalloc (B := release)).
Proof. apply find_free_from_refines. Qed.

Lemma add_child_refines c p : refines (add_child (B := debug) c p) (add_child (B := release) c p).
Proof. unfold add_child. solve_refines. Qed.

Lemma unlink_child_refines c : refines (unlink_child (B := debug) c) (unlink_child (B := release) c).
Proof. unfold unlink_child. solve_refines. Qed.

Lemma lowest_ge_refines a :
  refines (find_toplevel_lowest_ge (B := debug) a) (find_toplevel_lowest_ge (B := release) a).
Proof. unfold find_toplevel_lowest_ge. solve_refines. Qed.

Lemma highest_lt_refines a :
  refines (find_toplevel_highest_lt (B := debug) a) (find_toplevel_highest_lt (B := release) a).
Proof. unfold find_toplevel_highest_lt. solve_refines. Qed.
#[local] Hint Resolve memset_refines find_free_refines add_child_refines unlink_child_refines
  lowest_ge_refines highest_lt_refines : build.

Lemma add_toplevel_refines b : refines (add_toplevel (B := debug) b) (add_toplevel (B := release) b).
Proof. unfold add_toplevel. solve_refines. Qed.
#[local] Hint Resolve add_toplevel_refines : build.

Lemma at_or_above_refines a : refines (__liballocs_find_mapping_at_or_above (B := debug) a)
  (__liballocs_find_mapping_at_or_above (B := release) a).
Proof. unfold __liballocs_find_mapping_at_or_above. solve_refines. Qed.

Lemma below_refines a : refines (__liballocs_find_mapping_below (B := debug) a)
  (__liballocs_find_mapping_below (B := release) a).
Proof. unfold __liballocs_find_mapping_below. solve_refines. Qed.

Lemma init_nomemset_refines b ptr size par ap apf ab sa sp spf :
  refines (bigalloc_init_nomemset (B := debug) b ptr size par ap apf ab sa sp spf)
    (bigalloc_init_nomemset (B := release) b ptr size par ap apf ab sa sp spf).
Proof. unfold bigalloc_init_nomemset. solve_refines. Qed.
#[local] Hint Resolve at_or_above_refines below_refines init_nomemset_refines : build.

Lemma new_refines ptr size par ap apf ab :
  refines (bigalloc_new (B := debug) ptr size par ap apf ab) (bigalloc_new (B := release) ptr size par ap apf ab).
Proof. unfold bigalloc_new, bigalloc_init. solve_refines. Qed.

Lemma del_rec_refines fuel :
  (forall b, refines (bigalloc_del_rec (B := debug) fuel b) (bigalloc_del_rec (B := release) fuel b)) /\
  (forall c, refines (bigalloc_del_children (B := debug) fuel c) (bigalloc_del_children (B := release) fuel c)).
Proof.
  induction fuel as [|fuel [IH1 IH2]]; [done|].
  split; intros; cbn [bigalloc_del_rec bigalloc_del_children]; solve_refines.
Qed.

Lemma del_refines b : refines (bigalloc_del (B := debug) b) (bigalloc_del (B := release) b).
Proof. apply del_rec_refines. Qed.
#[local] Hint Resolve new_refines del_refines : build.

Lemma extend_refines b e : refines (__liballocs_extend_bigalloc (B := debug) b e)
  (__liballocs_extend_bigalloc (B := release) b e).
Proof. unfold __liballocs_extend_bigalloc. solve_refines. Qed.

Lemma pre_extend_refines b e : refines (__liballocs_pre_extend_bigalloc (B := debug) b e)
  (__liballocs_pre_extend_bigalloc (B := release) b e).
Proof. unfold __liballocs_pre_extend_bigalloc. solve_refines. Qed.
#[local] Hint Resolve extend_refines pre_extend_refines : build.

Lemma pre_extend_rec_refines fuel b e :
  refines (pre_extend_rec (B := debug) fuel b e) (pre_extend_rec (B := release) fuel b e).
Proof. revert b e. induction fuel; intros; cbn [pre_extend_rec]; cbv zeta; solve_refines. Qed.

Lemma truncate_end_refines b e : refines (__liballocs_truncate_bigalloc_at_end (B := debug) b e)
  (__liballocs_truncate_bigalloc_at_end (B := release) b e).
Proof. unfold __liballocs_truncate_bigalloc_at_end, bigalloc_truncate_at_end. solve_refines. Qed.

Lemma truncate_beginning_refines b e : refines (__liballocs_truncate_bigalloc_at_beginning (B := debug) b e)
  (__liballocs_truncate_bigalloc_at_beginning (B := release) b e).
Proof. unfold __liballocs_truncate_bigalloc_at_beginning. solve_refines. Qed.
#[local] Hint Resolve truncate_end_refines truncate_beginning_refines : build.

Lemma adjust_end_refines b e : refines (__adjust_bigalloc_end (B := debug) b e)
  (__adjust_bigalloc_end (B := release) b e).
Proof. unfold __adjust_bigalloc_end. solve_refines. Qed.

Lemma split_children_refines fuel b n a c :
  refines (split_children (B := debug) fuel b n a c) (split_children (B := release) fuel b n a c).
Proof. revert c. induction fuel; intros; cbn [split_children]; cbv zeta; solve_refines. Qed.
#[local] Hint Resolve split_children_refines : build.

Lemma split_refines b a : refines (__liballocs_split_bigalloc_at_page_boundary (B := debug) b a)
  (__liballocs_split_bigalloc_at_page_boundary (B := release) b a).
Proof. unfold __liballocs_split_bigalloc_at_page_boundary. cbv zeta. solve_refines. Qed.

Lemma new_bigalloc_refines ptr size ap apf par ab :
  refines (__liballocs_new_bigalloc (B := debug) ptr size ap apf par ab)
    (__liballocs_new_bigalloc (B := release) ptr size ap apf par ab).
Proof. unfold __liballocs_new_bigalloc. cbv zeta. solve_refines. Qed.

Lemma delete_at_refines b a : refines (__liballocs_delete_bigalloc_at (B := debug) b a)
  (__liballocs_delete_bigalloc_at (B := release) b a).
Proof. unfold __liballocs_delete_bigalloc_at. solve_refines. Qed.

Lemma delete_all_refines fuel d e :
  refines (delete_all_loop (B := debug) fuel d e) (delete_all_loop (B := release) fuel d e).
Proof. revert d. induction fuel; intros; cbn [delete_all_loop]; cbv zeta; solve_refines. Qed.

#[local] Hint Resolve pre_extend_rec_refines adjust_end_refines split_refines new_bigalloc_refines
  delete_at_refines delete_all_refines : build.

(** ** Calls of the library *)

(** The entry points that change the table, and the ordered queries. *)
Inductive request :=
| NewBigalloc (ptr size ap apf maybe_parent ab : Z)
| DeleteBigalloc (b : Z)
| DeleteBigallocAt (begin a : Z)
| DeleteAllOverlapping (begin end_ : Z)
| ExtendBigalloc (b new_end : Z)
| PreExtendBigalloc (b new_begin : Z)
| PreExtendRecursive (b new_begin : Z)
| TruncateAtEnd (b new_end : Z)
| TruncateAtBeginning (b new_begin : Z)
| AdjustEnd (b new_end : Z)
| SplitAtPageBoundary (b split_addr : Z)
| FindMappingBelow (addr : Z)
| FindMappingAtOrAbove (addr : Z).

Definition as_int (m : M state bool) : M state Z := r ← m; mret (Z.b2z r).
Definition as_void (m : M state unit) : M state Z := m ;; mret 0.

Definition run {B : Build} (q : request) : M state Z :=
  match q with
  | NewBigalloc ptr size ap apf par ab => __liballocs_new_bigalloc ptr size ap apf par ab
  | DeleteBigalloc b => as_void (bigalloc_del b)
  | DeleteBigallocAt begin a => as_int (__liballocs_delete_bigalloc_at begin a)
  | DeleteAllOverlapping begin e => as_int (__liballocs_delete_all_bigallocs_overlapping_range begin e)
  | ExtendBigalloc b e => as_int (__liballocs_extend_bigalloc b e)
  | PreExtendBigalloc b n => as_int (__liballocs_pre_extend_bigalloc b n)
  | PreExtendRecursive b n => as_int (__liballocs_pre_extend_bigalloc_recursive b n)
  | TruncateAtEnd b e => as_int (__liballocs_truncate_bigalloc_at_end b e)
  | TruncateAtBeginning b n => as_int (__liballocs_truncate_bigalloc_at_beginning b n)
  | AdjustEnd b e => as_void (__adjust_bigalloc_end b e)
  | SplitAtPageBoundary b a => __liballocs_split_bigalloc_at_page_boundary b a
  | FindMappingBelow a => __liballocs_find_mapping_below a
  | FindMappingAtOrAbove a => __liballocs_find_mapping_at_or_above a
  end.

Fixpoint run_all {B : Build} (l : list request) : M state (list Z) :=
  match l with
  | [] => mret []
  | q :: l => r ← run q; rs ← run_all l; mret (r :: rs)
  end.

Lemma run_refines q : refines (run (B := debug) q) (run (B := release) q).
Proof.
  destruct q; cbn [run]; unfold as_int, as_void, __liballocs_delete_all_bigallocs_overlapping_range,
    __liballocs_pre_extend_bigalloc_recursive; solve_refines.
Qed.
#[local] Hint Resolve run_refines : build.

Lemma run_all_refines l : refines (run_all (B := debug) l) (run_all (B := release) l).
Proof. induction l; cbn [run_all]; solve_refines. Qed.
End ops.
