(* ===== verification/BigAllocFacts.v ===== *)
(** Reasoning principles for the table and the page index: reads after
    writes, the step tactic for monadic code, and the equivalence of
    [memset_bigalloc] with a plain fill of the page index. *)
From S2P Require Import Prelude Vas BigAlloc.

(** ** Reads after writes *)

Lemma ba_upd i f s j : ba (upd i f s) j = if decide (i = j) then f (ba s i) else ba s j.
Proof. unfold ba at 1, upd; simpl. rewrite lookup_insert. by case_decide. Qed.

Lemma ba_upd_eq i f s : ba (upd i f s) i = f (ba s i).
Proof. rewrite ba_upd. by rewrite decide_True. Qed.

Lemma ba_upd_ne i f s j : i <> j -> ba (upd i f s) j = ba s j.
Proof. intros. rewrite ba_upd. by rewrite decide_False. Qed.

Lemma pi_pi_upd p v s q : pi (pi_upd p v s) q = if decide (p = q) then v else pi s q.
Proof. unfold pi, pi_upd; simpl. rewrite lookup_insert. by case_decide. Qed.

Lemma ba_pi_upd p v s i : ba (pi_upd p v s) i = ba s i.
Proof. done. Qed.
Lemma pi_upd_ba i f s p : pi (upd i f s) p = pi s p.
Proof. done. Qed.
Lemma ba_log_free f a s i : ba (log_free f a s) i = ba s i.
Proof. done. Qed.

Create Rewrite HintDb big.
#[export] Hint Rewrite ba_upd_eq ba_pi_upd pi_upd_ba ba_log_free : big.

(** Field [f] of every entry is the same after [g] is applied to one entry. *)
Lemma field_upd {A} (f : big_allocation -> A) g i s j :
  (forall r, f (g r) = f r) -> f (ba (upd i g s) j) = f (ba s j).
Proof. intros E. rewrite ba_upd. case_decide; [by subst | done]. Qed.

(** ** A plain fill of the page index *)

Fixpoint fill_pages (k : nat) (pos v : Z) (s : state) : state :=
  match k with
  | O => s
  | S k => fill_pages k (pos + 1) v (pi_upd pos v s)
  end.

Lemma fill_pages_big k pos v s :
  big_allocations (fill_pages k pos v s) = big_allocations s /\
  START (fill_pages k pos v s) = START s /\ freed (fill_pages k pos v s) = freed s.
Proof. revert pos s. induction k as [|k IH]; intros pos s; simpl; [done|]. apply (IH _ (pi_upd pos v s)). Qed.

Lemma ba_fill k pos v s i : ba (fill_pages k pos v s) i = ba s i.
Proof. unfold ba. by rewrite (proj1 (fill_pages_big k pos v s)). Qed.

Lemma START_fill k pos v s : START (fill_pages k pos v s) = START s.
Proof. by apply (fill_pages_big k pos v s). Qed.

Lemma pi_fill k pos v s p :
  pi (fill_pages k pos v s) p = if decide (pos <= p < pos + Z.of_nat k) then v else pi s p.
Proof.
  revert pos s. induction k as [|k IH]; intros pos s; simpl.
  - rewrite decide_False by lia. done.
  - rewrite IH, pi_pi_upd. repeat case_decide; try done; lia.
Qed.

#[export] Hint Rewrite ba_fill START_fill : big.

Lemma fill_pages_snoc k pos v s :
  fill_pages (S k) pos v s = pi_upd (pos + Z.of_nat k) v (fill_pages k pos v s).
Proof.
  revert pos s. induction k as [|k IH]; intros pos s.
  - simpl. by rewrite Z.add_0_r.
  - change (fill_pages (S (S k)) pos v s) with (fill_pages (S k) (pos + 1) v (pi_upd pos v s)).
    rewrite IH. simpl. f_equal. lia.
Qed.

(** ** [wmemset] writes the doubled value as two entries *)

Lemma double_low num : 0 <= num < 2 ^ 16 ->
  Z.land (Z.lor (Z.shiftl num 16) num) (2 ^ 16 - 1) = num.
Proof.
  intros. change (2 ^ 16 - 1) with (Z.ones 16).
  rewrite Z.land_lor_distr_l, !Z.land_ones by lia.
  rewrite Z.shiftl_mul_pow2, Z.mod_mul, Z.mod_small by lia. apply Z.lor_0_l.
Qed.

Lemma double_high num : 0 <= num < 2 ^ 16 ->
  Z.land (Z.shiftr (Z.lor (Z.shiftl num 16) num) 16) (2 ^ 16 - 1) = num.
Proof.
  intros. change (2 ^ 16 - 1) with (Z.ones 16).
  rewrite Z.shiftr_lor, Z.shiftr_shiftl_l, Z.sub_diag, Z.shiftl_0_r by lia.
  rewrite (Z.shiftr_div_pow2 num), (Z.div_small num), Z.lor_0_r by lia.
  rewrite Z.land_ones by lia. by apply Z.mod_small.
Qed.

Lemma wmemset_fill k pos num s :
  0 <= num < 2 ^ 16 ->
  wmemset k pos (Z.lor (Z.shiftl num 16) num) s = Done (tt, fill_pages (2 * k) pos num s).
Proof.
  intros Hn. revert pos s. induction k as [|k IH]; intros pos s; [done|].
  replace (2 * S k)%nat with (S (S (2 * k))) by lia.
  cbn [wmemset]. rewrite double_low, double_high by done.
  unfold mbind, M_bind, pi_set, modify. rewrite IH. simpl.
  replace (pos + 1 + 1) with (pos + 2) by lia. done.
Qed.

Section memset.
Context {V : Vas}.

Lemma memset_tail begin num old_num n s :
  0 <= num < 2 ^ 16 -> 0 <= n ->
  (when (negb (n =? 0)) (wmemset (Z.to_nat (n / 2)) begin (Z.lor (Z.shiftl num 16) num)) ;;
   when (n mod 2 =? 1)
     (CHECK_LOC (B := release) (begin + (n - 1)) old_num ;; pi_set (begin + (n - 1)) num)) s
  = Done (tt, fill_pages (Z.to_nat n) begin num s).
Proof.
  intros Hnum Hn.
  assert (Hw : when (negb (n =? 0)) (wmemset (Z.to_nat (n / 2)) begin (Z.lor (Z.shiftl num 16) num)) s
    = Done (tt, fill_pages (2 * Z.to_nat (n / 2)) begin num s)).
  { destruct (Z.eqb_spec n 0) as [->|]; simpl; [done|]. by rewrite wmemset_fill. }
  unfold mbind, M_bind. rewrite Hw. clear Hw.
  pose proof (Z.mod_pos_bound n 2 ltac:(lia)). pose proof (Z.div_mod n 2 ltac:(lia)).
  pose proof (Z.div_pos n 2 Hn ltac:(lia)).
  destruct (Z.eqb_spec (n mod 2) 1); simpl.
  - replace (Z.to_nat n) with (S (2 * Z.to_nat (n / 2))) by lia.
    rewrite fill_pages_snoc.
    by replace (begin + (n - 1)) with (begin + Z.of_nat (2 * Z.to_nat (n / 2))) by lia.
  - by replace (Z.to_nat n) with (2 * Z.to_nat (n / 2))%nat by lia.
Qed.

Lemma memset_release_fill begin num old_num n s :
  0 <= num < 2 ^ 16 ->
  0 <= n <= Z.shiftr BIGGEST_SANE_USER_ALLOC LOG_PAGE_SIZE ->
  memset_bigalloc (B := release) begin num old_num n s =
    Done (tt, fill_pages (Z.to_nat n) begin num s).
Proof.
  intros Hnum Hn. unfold memset_bigalloc.
  destruct (Z.ltb_spec (Z.shiftr BIGGEST_SANE_USER_ALLOC LOG_PAGE_SIZE) n) as [?|_]; [lia|].
  assert (Hchk : forall k pos s, check_range (B := release) k pos old_num s = Done (tt, s)).
  { induction k; intros; simpl; [done|]. by rewrite <- (IHk (pos + 1) s0). }
  assert (Hrest : forall begin n s, 0 <= n ->
    ((if negb (old_num =? 2 ^ 16 - 1) && negb (old_num =? 0) then
       check_range (B := release)
         (Z.to_nat (Z.min n (PAGENUM (MAXIMUM_USER_ADDRESS + 1) - begin))) begin old_num ;;
       assert (B := release)
         (Z.max 0 (Z.min n (PAGENUM (MAXIMUM_USER_ADDRESS + 1) - begin)) =? n)
      else mret tt) ;;
      when (negb (n =? 0)) (wmemset (Z.to_nat (n / 2)) begin (Z.lor (Z.shiftl num 16) num)) ;;
      when (n mod 2 =? 1)
        (CHECK_LOC (B := release) (begin + (n - 1)) old_num ;; pi_set (begin + (n - 1)) num)) s
    = Done (tt, fill_pages (Z.to_nat n) begin num s)).
  { intros b m s' Hm. rewrite <- (memset_tail b num old_num m s') by done.
    rewrite (bind_Done _ _ _ tt s'); [done|].
    case_match; [|done]. by rewrite (bind_Done _ _ _ tt s') by apply Hchk. }
  destruct (Z.ltb_spec 0 n); simpl; [|apply (Hrest begin n s); lia].
  destruct (negb ((PAGEINDEX_ADDRESS + 2 * begin) mod 4 =? 0)); simpl;
    [|apply (Hrest begin n s); lia].
  etrans; [apply (Hrest (begin + 1) (n - 1) (pi_upd begin num s)); lia|].
  replace (Z.to_nat n) with (S (Z.to_nat (n - 1))) by lia. done.
Qed.
End memset.
