(* ===== verification/Forest.v ===== *)
(** What the bigalloc table promises: the records in use form a forest of
    properly nested, pairwise disjoint address ranges, held together by
    doubly linked sibling lists; the page index maps every page to the
    deepest bigalloc that spans the whole page (the contract stated at the
    top of src/include/pageindex.h). *)
From S2P Require Import Prelude DList Vas BigAlloc BigAllocFacts.

(** ** Records in use *)

Definition used (s : state) (i : Z) : Prop :=
  b_begin (ba s i) <> 0 /\ b_end (ba s i) <> 0.

#[export] Instance used_dec s i : Decision (used s i).
Proof. unfold used. apply _. Defined.

Lemma in_use_used s i : BIGALLOC_IN_USE (ba s i) = true <-> used s i.
Proof.
  unfold BIGALLOC_IN_USE, used.
  rewrite andb_true_iff, !negb_true_iff, !Z.eqb_neq. done.
Qed.

Definition live (s : state) : gset Z :=
  dom (filter (fun kv => BIGALLOC_IN_USE (snd kv) = true) (big_allocations s)).

Lemma elem_of_live s i : i ∈ live s <-> used s i.
Proof.
  unfold live. rewrite elem_of_dom, <- in_use_used. unfold ba. split.
  - intros [r Hr]. apply map_lookup_filter_Some in Hr as [-> Hr]. done.
  - intros Hu. destruct (big_allocations s !! i) as [r|] eqn:E; [|done].
    exists r. by apply map_lookup_filter_Some.
Qed.

(** The fields of a record other than its links to children and siblings. *)
Definition meta (r : big_allocation) :=
  (b_begin r, b_end r, parent r, allocated_by r, suballocator r,
   allocator_private r, allocator_private_free r, suballocator_private r, suballocator_private_free r).

(** ** Sibling lists *)

(** [dseg s pp p q qn l]: the records [l] are linked from [p] to [q] in both
    directions; [pp] precedes the first and [qn] follows the last. *)
Fixpoint dseg (s : state) (pp p q qn : Z) (l : list Z) : Prop :=
  match l with
  | [] => p = qn /\ pp = q
  | x :: l =>
    p = x /\ prev_sib (ba s x) = pp /\ dseg s x (next_sib (ba s x)) q qn l
  end.

Definition chain (s : state) (first : Z) (l : list Z) : Prop :=
  exists last, dseg s 0 first last 0 l.

Lemma dseg_seg s pp p q qn l :
  dseg s pp p q qn l <-> seg (fun i => prev_sib (ba s i)) (fun i => next_sib (ba s i)) pp p q qn l.
Proof. revert pp p. induction l as [|x l IH]; intros pp p; simpl; [done|]. by rewrite IH. Qed.

Lemma dseg_app s pp p q qn l1 l2 :
  dseg s pp p q qn (l1 ++ l2) <->
  exists j jn, dseg s pp p j jn l1 /\ dseg s j jn q qn l2.
Proof. setoid_rewrite dseg_seg. apply seg_app. Qed.

Lemma dseg_snoc s pp p q qn l x :
  dseg s pp p q qn (l ++ [x]) <->
  q = x /\ next_sib (ba s x) = qn /\ dseg s pp p (prev_sib (ba s x)) x l.
Proof. setoid_rewrite dseg_seg. apply seg_snoc. Qed.

(** Only the two link fields of the members matter. *)
Lemma dseg_ext s s' pp p q qn l :
  (forall x, x ∈ l -> prev_sib (ba s' x) = prev_sib (ba s x) /\
                    next_sib (ba s' x) = next_sib (ba s x)) ->
  dseg s pp p q qn l -> dseg s' pp p q qn l.
Proof. setoid_rewrite dseg_seg. apply seg_ext. Qed.

Lemma dseg_head s pp p q qn x l : dseg s pp p q qn (x :: l) -> p = x.
Proof. by intros [-> _]. Qed.

Lemma dseg_det s pp p q l q' l' :
  0 ∉ l -> 0 ∉ l' -> dseg s pp p q 0 l -> dseg s pp p q' 0 l' -> l = l'.
Proof. setoid_rewrite dseg_seg. apply seg_det. Qed.

Lemma chain_det s f l l' : 0 ∉ l -> 0 ∉ l' -> chain s f l -> chain s f l' -> l = l'.
Proof. intros ?? [q D] [q' D']. by eapply dseg_det. Qed.

(** Relinking the end points of a segment. *)
Lemma dseg_set_next s pp p q qn l qn' :
  l <> [] -> NoDup l ->
  dseg s pp p q qn l -> dseg (upd q (set_next_sib qn') s) pp p q qn' l.
Proof.
  intros Hl. destruct l as [|x l _] using rev_ind; [done|].
  rewrite NoDup_app, !dseg_snoc. intros (_ & Hx & _) (-> & _ & D).
  rewrite ba_upd_eq. destruct (ba s x) eqn:E; simpl in *. split_and!; [done..|].
  eapply dseg_ext; [|done]. intros y Hy.
  assert (x <> y) by (intros ->; eapply Hx; [done|by left]). by rewrite ba_upd_ne.
Qed.

Lemma dseg_set_prev s pp p q qn l pp' :
  l <> [] -> NoDup l ->
  dseg s pp p q qn l -> dseg (upd p (set_prev_sib pp') s) pp' p q qn l.
Proof.
  intros Hl. destruct l as [|x l]; [done|].
  rewrite NoDup_cons. intros [Hx _] (-> & _ & D). simpl.
  rewrite ba_upd_eq. split_and!; [done|by destruct (ba s x)|].
  replace (next_sib (set_prev_sib pp' (ba s x))) with (next_sib (ba s x)) by by destruct (ba s x).
  eapply dseg_ext; [|done]. intros y Hy. rewrite ba_upd_ne; [done|]. by intros ->.
Qed.

(** ** The forest invariant *)

(** Record 0 stands for the null pointer; a walk that starts there reads these fields. *)
Definition null_fields (r : big_allocation) := (first_child r, allocated_by r, suballocator r).

Definition contains (s : state) (i a : Z) : Prop :=
  b_begin (ba s i) <= a < b_end (ba s i).

(** The children of [i], in list order. *)
Definition kids (s : state) (i : Z) (l : list Z) : Prop :=
  NoDup l /\ chain s (first_child (ba s i)) l /\
  forall c, c ∈ l <-> used s c /\ parent (ba s c) = i.

Definition precedes (s : state) (i j : Z) : Prop := b_end (ba s i) <= b_begin (ba s j).

(** The top-level bigallocs, in address order. *)
Definition roots (s : state) (l : list Z) : Prop :=
  NoDup l /\ (exists first, chain s first l) /\
  (forall c, c ∈ l <-> used s c /\ parent (ba s c) = 0) /\
  StronglySorted (precedes s) l.

Record wf `{Vas} (s : state) : Prop := {
  wf_range i : used s i -> 1 <= i < NBIGALLOCS;
  wf_bounds i : used s i ->
    0 < b_begin (ba s i) < b_end (ba s i) /\ b_end (ba s i) <= MAXIMUM_USER_ADDRESS + 1;
  wf_parent i : used s i -> parent (ba s i) <> 0 ->
    used s (parent (ba s i)) /\
    b_begin (ba s (parent (ba s i))) <= b_begin (ba s i) /\
    b_end (ba s i) <= b_end (ba s (parent (ba s i)));
  wf_kids i : used s i -> exists l, kids s i l;
  wf_roots : exists l, roots s l;
  wf_disjoint i j : used s i -> used s j -> i <> j ->
    parent (ba s i) = parent (ba s j) -> precedes s i j \/ precedes s j i;
  wf_free i : ~ used s i -> parent (ba s i) = 0;
  wf_rank : exists rk : Z -> nat, forall i, used s i -> parent (ba s i) <> 0 ->
    (rk (parent (ba s i)) < rk i)%nat;
  wf_aligned i : used s i -> parent (ba s i) = 0 ->
    b_begin (ba s i) mod PAGE_SIZE = 0 /\ b_end (ba s i) mod PAGE_SIZE = 0;
  wf_null : null_fields (ba s 0) = (0, 0, 0);
}.

(** The anchor of the top-level list is a live top-level bigalloc; before the
    first bigalloc is created, it is null. *)
Definition start_ok (s : state) : Prop :=
  (used s (START s) /\ parent (ba s (START s)) = 0) \/ (START s = 0 /\ forall i, ~ used s i).

(** ** The page index contract *)

(** Bigalloc [i] spans the whole of page [p]. *)
Definition covers (s : state) (i p : Z) : Prop :=
  b_begin (ba s i) <= p * PAGE_SIZE /\ (p + 1) * PAGE_SIZE <= b_end (ba s i).

(** [n] is the deepest bigalloc spanning page [p], or 0 if there is none. *)
Definition deepest_covering (s : state) (p n : Z) : Prop :=
  (n = 0 /\ forall i, used s i -> ~ covers s i p) \/
  (used s n /\ covers s n p /\ forall c, used s c -> parent (ba s c) = n -> ~ covers s c p).

Definition index_ok `{Vas} (s : state) : Prop :=
  forall p, 0 <= p < NPAGES -> deepest_covering s p (pi s p).

Lemma covers_pages s i p :
  0 < b_begin (ba s i) -> covers s i p <-> page_up (b_begin (ba s i)) <= p < page_down (b_end (ba s i)).
Proof. unfold covers. intros. split; intros; page_lia. Qed.

Section wf.
Context {V : Vas} {VL : VasLaws V}.

Lemma not_used_0 s : wf s -> ~ used s 0.
Proof. intros W U. pose proof (wf_range _ W _ U). lia. Qed.

Lemma used_nonzero s i : wf s -> used s i -> i <> 0.
Proof. intros W U. pose proof (wf_range _ W _ U). lia. Qed.

Lemma parent_used s i : wf s -> used s i -> parent (ba s i) <> 0 -> used s (parent (ba s i)).
Proof. intros W U P. by apply (wf_parent _ W i U P). Qed.

Lemma kids_nonzero s i l : wf s -> kids s i l -> 0 ∉ l.
Proof. intros W (_ & _ & Hl) H0. apply Hl in H0 as [U _]. by apply (not_used_0 s W). Qed.

Lemma roots_nonzero s l : wf s -> roots s l -> 0 ∉ l.
Proof. intros W (_ & _ & Hl & _) H0. apply Hl in H0 as [U _]. by apply (not_used_0 s W). Qed.

Lemma kids_det s i l l' : wf s -> kids s i l -> kids s i l' -> l = l'.
Proof.
  intros W K K'. pose proof (kids_nonzero _ _ _ W K). pose proof (kids_nonzero _ _ _ W K').
  destruct K as (_ & C & _), K' as (_ & C' & _). by eapply chain_det.
Qed.

Lemma contains_parent s i a :
  wf s -> used s i -> parent (ba s i) <> 0 -> contains s i a -> contains s (parent (ba s i)) a.
Proof. intros W U P C. pose proof (wf_parent _ W i U P) as (_ & ? & ?). unfold contains in *. lia. Qed.

Lemma covers_parent s i p :
  wf s -> used s i -> parent (ba s i) <> 0 -> covers s i p -> covers s (parent (ba s i)) p.
Proof. intros W U P C. pose proof (wf_parent _ W i U P) as (_ & ? & ?). unfold covers in *. lia. Qed.

Lemma first_child_kid s P :
  wf s -> used s P ->
  first_child (ba s P) = 0 \/
  (used s (first_child (ba s P)) /\ parent (ba s (first_child (ba s P))) = P).
Proof.
  intros W U. destruct (wf_kids _ W P U) as [l (_ & [q C] & K)].
  destruct l as [|x l]; simpl in C; [naive_solver|]. destruct C as (-> & _).
  right. apply K. by left.
Qed.

(** Two siblings never span the same address. *)
Lemma siblings_same s i j a :
  wf s -> used s i -> used s j -> parent (ba s i) = parent (ba s j) ->
  contains s i a -> contains s j a -> i = j.
Proof.
  intros W Ui Uj P Ci Cj. destruct (decide (i = j)) as [|N]; [done|].
  destruct (wf_disjoint _ W i j Ui Uj N P) as [D|D]; unfold precedes, contains in *; lia.
Qed.

(** Ancestor-or-self. *)
Definition ancestor (s : state) (a d : Z) : Prop :=
  rtc (fun x y => used s x /\ parent (ba s x) = y /\ y <> 0) d a.

Lemma ancestor_refl s i : ancestor s i i.
Proof. apply rtc_refl. Qed.

Lemma ancestor_parent s i : used s i -> parent (ba s i) <> 0 -> ancestor s (parent (ba s i)) i.
Proof. intros. by apply rtc_once. Qed.

Lemma ancestor_step s a i :
  used s i -> parent (ba s i) <> 0 -> ancestor s a (parent (ba s i)) -> ancestor s a i.
Proof. intros. by eapply rtc_l. Qed.

Lemma ancestor_trans s a b c : ancestor s a b -> ancestor s b c -> ancestor s a c.
Proof. unfold ancestor. intros. by etrans. Qed.

Lemma ancestor_contains s a d x :
  wf s -> used s d -> ancestor s a d -> contains s d x -> used s a /\ contains s a x.
Proof.
  intros W U A. revert U. induction A as [d|d p a (Ud & P & Np) A IH]; intros U C; [done|].
  subst p. apply IH; [by apply parent_used | by apply contains_parent].
Qed.

Lemma ancestor_covers s a d p : wf s -> used s d -> ancestor s a d -> covers s d p -> covers s a p.
Proof.
  intros W U A C. unfold covers in *.
  destruct (ancestor_contains s a d (p * PAGE_SIZE) W U A) as [_ H1]; [unfold contains, PAGE_SIZE in *; lia|].
  destruct (ancestor_contains s a d ((p + 1) * PAGE_SIZE - 1) W U A) as [_ H2];
    unfold contains, PAGE_SIZE in *; lia.
Qed.

(** Siblings that cover a common page are the same. *)
Lemma siblings_cover s i j p : wf s -> used s i -> used s j -> parent (ba s i) = parent (ba s j) ->
  covers s i p -> covers s j p -> i = j.
Proof.
  intros W Ui Uj P Ci Cj. destruct (decide (i = j)) as [|N]; [done|].
  destruct (wf_disjoint _ W i j Ui Uj N P); unfold precedes, covers, PAGE_SIZE in *; lia.
Qed.

Lemma ancestor_used s a d : wf s -> used s d -> ancestor s a d -> used s a.
Proof.
  intros W U A. revert U. induction A as [d|d p a (Ud & P & Np) A IH]; intros U; [done|].
  subst p. apply IH. by apply parent_used.
Qed.

Lemma wf_ind s (P : Z -> Prop) :
  wf s ->
  (forall i, used s i -> (parent (ba s i) <> 0 -> P (parent (ba s i))) -> P i) ->
  forall i, used s i -> P i.
Proof.
  intros W IH. destruct (wf_rank _ W) as [rk Hrk].
  intros i. remember (rk i) as n eqn:E. revert i E.
  induction (lt_wf n) as [n _ IHn]. intros i -> U.
  apply IH; [done|]. intros Hp.
  eapply IHn; [by apply Hrk | done | by apply parent_used].
Qed.

(** Below a root: the root ancestor of a live bigalloc. *)
Lemma root_exists s i : wf s -> used s i ->
  exists r, ancestor s r i /\ used s r /\ parent (ba s r) = 0.
Proof.
  intros W. apply (wf_ind s (fun i => exists r, ancestor s r i /\ used s r /\ parent (ba s r) = 0) W).
  clear i. intros i U IH. destruct (decide (parent (ba s i) = 0)) as [E|N].
  - exists i. split_and!; [apply ancestor_refl|done..].
  - destruct (IH N) as (r & A & ? & ?). exists r. split_and!; [by apply ancestor_step|done..].
Qed.

Lemma ancestor_antisym s a b : wf s -> ancestor s a b -> ancestor s b a -> a = b.
Proof.
  intros W A A'. destruct (wf_rank _ W) as [rk Hrk].
  assert (Hle : forall a b, ancestor s a b -> a = b \/ (rk a < rk b)%nat).
  { intros x y Hxy. induction Hxy as [y|y p x (Uy & Py & Np) _ IH]; [by left|].
    subst p. right. specialize (Hrk y Uy Np). destruct IH as [->|]; lia. }
  destruct (Hle _ _ A) as [?|], (Hle _ _ A') as [?|]; congruence || lia.
Qed.

Lemma parent_not_self s b : wf s -> used s b -> parent (ba s b) <> b.
Proof.
  intros W U E. destruct (wf_rank _ W) as [rk Hrk]. specialize (Hrk b U).
  rewrite E in Hrk. specialize (Hrk (used_nonzero s b W U)). lia.
Qed.

Lemma child_not_ancestor s c b : wf s -> used s c -> parent (ba s c) = b -> ~ ancestor s c b.
Proof.
  intros W U P A. destruct (decide (b = 0)) as [->|N].
  - unfold ancestor in A. apply rtc_inv in A as [E|(y & (U0 & _) & _)].
    + apply (used_nonzero s c W U). congruence.
    + by apply (not_used_0 s W).
  - assert (A' : ancestor s b c) by (rewrite <- P; apply ancestor_parent; [done|congruence]).
    apply (parent_not_self s c W U). rewrite P. by apply (ancestor_antisym s).
Qed.

(** A proper ancestor has a child on the way down. *)
Lemma ancestor_child s a d :
  ancestor s a d -> a <> d ->
  exists c, ancestor s c d /\ used s c /\ parent (ba s c) = a.
Proof.
  intros A. unfold ancestor in A. apply rtc_inv_r in A as [<-|(c & A & (U & P & _))]; [done|].
  intros _. exists c. done.
Qed.

(** Every bigalloc spanning [x] is an ancestor of one none of whose children
    span it. *)
Lemma deepest_is_below s i j x :
  wf s -> used s i -> contains s i x ->
  (forall c, used s c -> parent (ba s c) = i -> ~ contains s c x) ->
  used s j -> contains s j x -> ancestor s j i.
Proof.
  intros W Ui Ci Hi. revert j.
  apply (wf_ind s (fun j => contains s j x -> ancestor s j i) W).
  intros j Uj IH Cj. destruct (decide (parent (ba s j) = 0)) as [E|N].
  - destruct (root_exists s i W Ui) as (r & A & Ur & Er).
    destruct (ancestor_contains s r i x W Ui A Ci) as [_ Cr].
    assert (j = r) as -> by (eapply siblings_same; eauto; congruence). done.
  - assert (A := IH N (contains_parent _ _ _ W Uj N Cj)).
    destruct (decide (parent (ba s j) = i)) as [E|Ne].
    { destruct (Hi j Uj E Cj). }
    destruct (ancestor_child _ _ _ A Ne) as (c & Ac & Uc & Pc).
    destruct (ancestor_contains s c i x W Ui Ac Ci) as [_ Cc].
    assert (j = c) as -> by (eapply siblings_same; eauto; congruence). done.
Qed.
(** The invariant depends on ranges, parents and links only. *)
Definition shape (r : big_allocation) :=
  (b_begin r, b_end r, first_child r, next_sib r, parent r, prev_sib r).

Lemma wf_shape s s' : (forall i, shape (ba s' i) = shape (ba s i)) ->
  null_fields (ba s' 0) = null_fields (ba s 0) -> wf s -> wf s'.
Proof.
  intros Hs H0. assert (Hf : forall i, b_begin (ba s' i) = b_begin (ba s i) /\ b_end (ba s' i) = b_end (ba s i) /\
    first_child (ba s' i) = first_child (ba s i) /\ parent (ba s' i) = parent (ba s i)).
  { intros i. by pose proof (Hs i) as [= -> -> -> _ -> _]. }
  assert (Hu : forall i, used s' i <-> used s i) by (intros i; unfold used; by destruct (Hf i) as (-> & -> & _)).
  assert (Hc : forall f l, chain s f l -> chain s' f l).
  { intros f l [q D]. exists q. eapply dseg_ext; [|done]. intros x _. by pose proof (Hs x) as [= _ _ _ -> _ ->]. }
  assert (Hp : forall i j, precedes s i j -> precedes s' i j).
  { intros i j. unfold precedes. destruct (Hf i) as (_ & -> & _). by destruct (Hf j) as (-> & _). }
  intros [R B P K Ro D F Rk A N0]. split; [.. |by rewrite H0].
  - intros i Ui%Hu. by apply R.
  - intros i Ui%Hu. destruct (Hf i) as (-> & -> & _). by apply B.
  - intros i Ui%Hu. destruct (Hf i) as (-> & -> & _ & ->). destruct (Hf (parent (ba s i))) as (-> & -> & _).
    rewrite Hu. by apply P.
  - intros i Ui%Hu. destruct (K i Ui) as [l (ND & C & Hl)]. exists l. split_and!; [done| |].
    + destruct (Hf i) as (_ & _ & -> & _). by apply Hc.
    + intros c. rewrite Hl, Hu. by destruct (Hf c) as (_ & _ & _ & ->).
  - destruct Ro as [l (ND & [f C] & Hl & S)]. exists l. split_and!; [done|exists f; by apply Hc| |].
    + intros c. rewrite Hl, Hu. by destruct (Hf c) as (_ & _ & _ & ->).
    + clear -S Hp. induction S as [|x l S IH F]; constructor; [done|]. eapply Forall_impl; [done|]. auto.
  - intros i j Ui%Hu Uj%Hu N. destruct (Hf i) as (_ & _ & _ & ->), (Hf j) as (_ & _ & _ & ->). intros E.
    destruct (D i j Ui Uj N E); [left|right]; by apply Hp.
  - intros i. rewrite Hu. destruct (Hf i) as (_ & _ & _ & ->). apply F.
  - destruct Rk as [rk Hrk]. exists rk. intros i Ui%Hu. destruct (Hf i) as (_ & _ & _ & ->). by apply Hrk.
  - intros i Ui%Hu. destruct (Hf i) as (-> & -> & _ & ->). by apply A.
Qed.

Lemma index_shape s s' : (forall i, shape (ba s' i) = shape (ba s i)) -> (forall p, pi s' p = pi s p) ->
  index_ok s -> index_ok s'.
Proof.
  intros Hs Hpi I p Hp. rewrite Hpi.
  assert (Hf : forall i, b_begin (ba s' i) = b_begin (ba s i) /\ b_end (ba s' i) = b_end (ba s i) /\
    parent (ba s' i) = parent (ba s i)).
  { intros i. by pose proof (Hs i) as [= -> -> _ _ -> _]. }
  assert (Hu : forall i, used s' i <-> used s i) by (intros i; unfold used; by destruct (Hf i) as (-> & -> & _)).
  assert (Hc : forall i, covers s' i p <-> covers s i p).
  { intros i. unfold covers. by destruct (Hf i) as (-> & -> & _). }
  destruct (I p Hp) as [[-> Hn]|(U & C & Hn)]; [left|right].
  - split; [done|]. intros i. rewrite Hu, Hc. apply Hn.
  - rewrite Hu, Hc. split_and!; [done..|]. intros c. rewrite Hu, Hc. destruct (Hf c) as (_ & _ & ->). apply Hn.
Qed.
End wf.
