(* ===== verification/Traversal.v ===== *)
(** Traversals of the forest, and relinking its sibling lists.

    The code walks from a bigalloc to its first child and along sibling links.
    The induction principle below follows that recursion and carries the
    counting argument that bounds it: no record is visited twice on a path, so
    twice the size of the table is enough fuel for every walk.  Then: page
    counts of ranges small enough for one [memset_bigalloc], and how insertion
    into and removal from a doubly linked segment act on the list. *)
From S2P Require Import Prelude DList Vas BigAlloc BigAllocFacts Forest.

(** ** Counting argument for fuel *)

Section traversal.
Context {V : Vas} {VL : VasLaws V}.

Lemma used_nodup_length s :
  wf s -> forall l, NoDup l -> Forall (used s) l -> (length l < NB)%nat.
Proof.
  intros W l ND F.
  assert (length l <= length (seqZ 1 (NBIGALLOCS - 1)))%nat as Hle.
  { apply submseteq_length, NoDup_submseteq; [done|]. intros x Hx.
    rewrite elem_of_seqZ. pose proof (wf_range _ W x) as R.
    rewrite Forall_forall in F. specialize (R (F x Hx)). lia. }
  rewrite length_seqZ in Hle. rewrite NB_eq.
  assert (0 < NBIGALLOCS) as Hpos by done. revert Hle Hpos. generalize NBIGALLOCS. lia.
Qed.

Definition below (rk : Z -> nat) (s : state) (cur : Z) (w : Z) : Prop :=
  (rk (parent (ba s w)) < rk cur)%nat.

(** A list of siblings still to be visited. *)
Record pending (s : state) (cur child : Z) (l : list Z) : Prop := {
  pending_nodup : NoDup l;
  pending_seg : exists pp q, dseg s pp child q 0 l;
  pending_kids : forall c, c ∈ l -> used s c /\ parent (ba s c) = cur;
}.

Lemma pending_kids_of s i l : kids s i l -> pending s i (first_child (ba s i)) l.
Proof. intros (ND & [q C] & K). split; [done| by exists 0, q | by intros c Hc%K]. Qed.

Lemma pending_inv s cur child l :
  wf s -> pending s cur child l ->
  (child = 0 /\ l = []) \/
  (exists l', child <> 0 /\ l = (child :: l') /\ used s child /\ parent (ba s child) = cur /\
     (child ∉ l') /\ pending s cur (next_sib (ba s child)) l').
Proof.
  intros W [ND (pp & q & D) K]. destruct l as [|x l]; simpl in D.
  { left. naive_solver. }
  right. destruct D as (-> & _ & D). apply NoDup_cons in ND as [Nx ND].
  destruct (K x ltac:(left)) as [Ux Px]. exists l.
  split_and!; try done. { by apply (used_nonzero s). }
  split; [done| by exists x, q | intros c Hc; apply K; by right].
Qed.

Lemma visit_child (rk : Z -> nat) s W cur child :
  wf s -> (forall i, used s i -> parent (ba s i) <> 0 -> (rk (parent (ba s i)) < rk i)%nat) ->
  used s cur -> used s child -> parent (ba s child) = cur ->
  Forall (fun w => rk (parent (ba s w)) <= rk cur)%nat W ->
  Forall (below rk s child) (child :: W).
Proof.
  intros Wf Hrk Uc Uch P F. pose proof (used_nonzero s cur Wf Uc).
  assert (rk cur < rk child)%nat by (rewrite <- P; apply Hrk; congruence).
  constructor; unfold below. { by rewrite P. }
  eapply Forall_impl; [done|]. simpl. lia.
Qed.


(** Induction along a walk: [P] for a bigalloc, [Q] for a list of siblings. *)
Section descent.
Context (s : state) (Wf : wf s).
Context (P : nat -> Z -> Prop) (Q : nat -> Z -> Z -> list Z -> Prop).
Hypothesis P_intro : forall fuel cur l,
  used s cur -> kids s cur l -> Q fuel cur (first_child (ba s cur)) l -> P (S fuel) cur.
Hypothesis Q_nil : forall fuel cur, used s cur -> Q (S fuel) cur 0 [].
Hypothesis Q_cons : forall fuel cur child l,
  used s cur -> used s child -> child <> 0 -> parent (ba s child) = cur -> child ∉ l ->
  P fuel child -> Q fuel cur (next_sib (ba s child)) l -> Q (S fuel) cur child (child :: l).

Lemma descent_aux (nb : nat) (rk : Z -> nat) fuel :
  (forall l, NoDup l -> Forall (used s) l -> (length l < nb)%nat) ->
  (forall i, used s i -> parent (ba s i) <> 0 -> (rk (parent (ba s i)) < rk i)%nat) ->
  (forall cur W, used s cur -> NoDup W -> Forall (used s) W -> Forall (below rk s cur) W ->
     (2 * (nb - length W) + 2 <= fuel)%nat -> P fuel cur) /\
  (forall cur child l W, used s cur -> NoDup W -> Forall (used s) W ->
     Forall (fun w => rk (parent (ba s w)) <= rk cur)%nat W ->
     pending s cur child l -> (forall c, c ∈ l -> c ∉ W) ->
     (2 * (nb - length W) + 1 <= fuel)%nat -> Q fuel cur child l).
Proof.
  intros Hnb Hrk. induction fuel as [|fuel [IHr IHc]]; [split; intros; lia|]. split.
  - intros cur W Uc ND Fu Fb Hf.
    destruct (wf_kids _ Wf cur Uc) as [l K]. apply (P_intro _ _ l); [done..|].
    apply (IHc _ _ _ W); try done; [| |intros c Hc Hw|lia].
    { eapply Forall_impl; [done|]. unfold below. lia. }
    { by apply pending_kids_of. }
    apply (proj2 (proj2 K)) in Hc as [_ Pc].
    rewrite Forall_forall in Fb. specialize (Fb c Hw). unfold below in Fb. rewrite Pc in Fb. lia.
  - intros cur child l W Uc ND Fu Fb Hp Hfresh Hf.
    destruct (pending_inv _ _ _ _ Wf Hp) as [[-> ->]|(l' & Nz & -> & Uch & Pch & Nl & Hp')].
    { by apply Q_nil. }
    assert (NoDup (child :: W)) as ND'.
    { apply NoDup_cons. split; [apply Hfresh; by left|done]. }
    assert (Forall (used s) (child :: W)) as Fu' by by constructor.
    pose proof (Hnb _ ND' Fu') as Hlen. cbn [length] in Hlen.
    pose proof (visit_child rk s W cur child Wf Hrk Uc Uch Pch Fb) as Fb'.
    apply Q_cons; try done.
    + apply (IHr child (child :: W)); try done. cbn [length]. lia.
    + apply (IHc cur _ _ (child :: W)); try done; [| |cbn [length]; lia].
      { constructor; [by rewrite Pch|done]. }
      intros c Hc. apply not_elem_of_cons. split; [by intros ->|]. apply Hfresh. by right.
Qed.

Lemma descent_ind cur : used s cur -> P FUEL cur.
Proof.
  intros U. destruct (wf_rank _ Wf) as [rk Hrk].
  destruct (descent_aux NB rk FUEL (used_nodup_length s Wf) Hrk) as [Hr _].
  apply (Hr cur []); [done|constructor..|]. rewrite FUEL_eq. generalize NB. cbn [length]. lia.
Qed.
End descent.

(** The same for a walk towards the root. *)
Lemma ascent_ind (s : state) (P : nat -> Z -> Prop) :
  wf s ->
  (forall fuel cur, used s cur ->
     (parent (ba s cur) <> 0 -> P fuel (parent (ba s cur))) -> P (S fuel) cur) ->
  forall cur, used s cur -> P FUEL cur.
Proof.
  intros Wf IH cur U. destruct (wf_rank _ Wf) as [rk Hrk].
  assert (Hnb := used_nodup_length s Wf).
  assert (Hgen : forall nb fuel cur W,
    (forall l, NoDup l -> Forall (used s) l -> (length l < nb)%nat) ->
    used s cur -> NoDup W -> Forall (used s) W -> Forall (fun w => rk cur < rk w)%nat W ->
    (nb - length W <= fuel)%nat -> P fuel cur).
  { intros nb. induction fuel as [|fuel IHf]; intros c W Hn Uc ND Fu Fr Hf.
    all: assert (NoDup (c :: W)) as ND'
      by (apply NoDup_cons; split; [|done]; intros Hin;
          rewrite Forall_forall in Fr; specialize (Fr _ Hin); lia).
    all: assert (Forall (used s) (c :: W)) as Fu' by by constructor.
    all: pose proof (Hn _ ND' Fu') as Hlen; cbn [length] in Hlen.
    { lia. }
    apply IH; [done|]. intros Np. specialize (Hrk c Uc Np).
    apply (IHf _ (c :: W)); try done; [by apply parent_used| |cbn [length]; lia].
    constructor; [done|]. eapply Forall_impl; [done|]. simpl. lia. }
  apply (Hgen NB FUEL cur []); [done|done|constructor..|].
  rewrite FUEL_eq. generalize NB. cbn [length]. lia.
Qed.
End traversal.

Section pages.
Context {V : Vas} {VL : VasLaws V}.

(** Ranges small enough for one [memset_bigalloc]. *)
Definition sane (s : state) : Prop :=
  forall i, used s i -> b_end (ba s i) - b_begin (ba s i) <= BIGGEST_SANE_USER_ALLOC.

Lemma sane_pages lo hi :
  0 <= lo -> 0 <= hi -> hi - lo <= BIGGEST_SANE_USER_ALLOC ->
  0 <= PAGE_DIST (ROUND_UP lo PAGE_SIZE) (ROUND_DOWN hi PAGE_SIZE)
    <= Z.shiftr BIGGEST_SANE_USER_ALLOC LOG_PAGE_SIZE.
Proof.
  intros Hlo Hhi Hd. rewrite page_dist_up_down by done.
  pose proof biggest_sane_spec. rewrite Z.shiftr_div_pow2 by done.
  change (2 ^ LOG_PAGE_SIZE) with PAGE_SIZE. split; [lia|]. apply Z.max_lub; [page_lia|].
  transitivity ((hi - lo) / PAGE_SIZE); [page_lia|]. apply Z.div_le_mono; [done|lia].
Qed.

End pages.

(** Removing the member [x]. *)
Lemma dseg_remove s s' pp p q qn l1 x l2 :
  NoDup (l1 ++ x :: l2) -> pp ∉ l1 ++ x :: l2 -> qn ∉ l1 ++ x :: l2 ->
  dseg s pp p q qn (l1 ++ x :: l2) ->
  (forall y, y ∈ l1 ++ l2 -> next_sib (ba s' y) =
     if decide (y = prev_sib (ba s x)) then next_sib (ba s x) else next_sib (ba s y)) ->
  (forall y, y ∈ l1 ++ l2 -> prev_sib (ba s' y) =
     if decide (y = next_sib (ba s x)) then prev_sib (ba s x) else prev_sib (ba s y)) ->
  exists q', dseg s' pp (match l1 with [] => next_sib (ba s x) | _ => p end) q' qn (l1 ++ l2).
Proof. setoid_rewrite dseg_seg. apply seg_remove. Qed.

(** Inserting [x] between two parts. *)
Lemma dseg_insert s s' pp p q qn l1 x l2 a b :
  NoDup (l1 ++ l2) -> x ∉ l1 ++ l2 -> pp ∉ l1 ++ l2 -> qn ∉ l1 ++ l2 ->
  dseg s pp p a b l1 -> dseg s a b q qn l2 ->
  prev_sib (ba s' x) = a -> next_sib (ba s' x) = b ->
  (forall y, y ∈ l1 ++ l2 -> next_sib (ba s' y) =
     if decide (y = a) then x else next_sib (ba s y)) ->
  (forall y, y ∈ l1 ++ l2 -> prev_sib (ba s' y) =
     if decide (y = b) then x else prev_sib (ba s y)) ->
  exists q', dseg s' pp (match l1 with [] => x | _ => p end) q' qn (l1 ++ x :: l2).
Proof. setoid_rewrite dseg_seg. 
  apply (seg_insert (fun i => prev_sib (ba s i)) (fun i => next_sib (ba s i))
    (fun i => prev_sib (ba s' i)) (fun i => next_sib (ba s' i))). Qed.
