(* ===== verification/Toplevel.v ===== *)
(** The ordered list of top-level bigallocs: the two-way searches from
    [START] split the list at an address, insertion keeps it sorted, and
    mappings are found by address. *)
From S2P Require Import Prelude DList Vas BigAlloc PageIndex BigAllocFacts Forest Traversal.

(** ** Sorted lists and monotone conditions *)

Lemma sorted_app_inv {A} (R : A -> A -> Prop) l1 l2 :
  StronglySorted R (l1 ++ l2) ->
  StronglySorted R l1 /\ StronglySorted R l2 /\ forall x y, x ∈ l1 -> y ∈ l2 -> R x y.
Proof.
  induction l1 as [|a l1 IH]; simpl; intros S.
  - split_and!; [constructor|done|]. intros x y Hx. by apply elem_of_nil in Hx.
  - apply StronglySorted_inv in S as [S F]. destruct (IH S) as (S1 & S2 & HR).
    rewrite Forall_forall in F. split_and!; [|done|].
    + constructor; [done|]. apply Forall_forall. intros x Hx. apply F. set_solver.
    + intros x y [->|Hx]%elem_of_cons Hy; [apply F; set_solver | by apply HR].
Qed.

Lemma sorted_app {A} (R : A -> A -> Prop) l1 l2 :
  StronglySorted R l1 -> StronglySorted R l2 -> (forall x y, x ∈ l1 -> y ∈ l2 -> R x y) ->
  StronglySorted R (l1 ++ l2).
Proof.
  intros S1 S2 HR. induction S1 as [|a l1 S1 IH F]; simpl; [done|].
  constructor.
  - apply IH. intros x y Hx. apply HR. by right.
  - apply Forall_app. split; [done|]. apply Forall_forall. intros y Hy. apply HR; [by left|done].
Qed.

Lemma sorted_weaken {A} (R R' : A -> A -> Prop) l :
  (forall x y, x ∈ l -> y ∈ l -> R x y -> R' x y) -> StronglySorted R l -> StronglySorted R' l.
Proof.
  intros HR S. induction S as [|x l S IH F]; constructor.
  - apply IH. intros y z Hy Hz. apply HR; by right.
  - rewrite Forall_forall in F |- *. intros y Hy. apply HR; [by left|by right|by apply F].
Qed.

Lemma Forall_impl_in {A} (P Q : A -> Prop) l :
  Forall P l -> (forall x, x ∈ l -> P x -> Q x) -> Forall Q l.
Proof. rewrite !Forall_forall. auto. Qed.

Section search.
Context {V : Vas} {VL : VasLaws V}.

(** Forward search stops at the first member satisfying the predicate. *)
Lemma search_next_ok s (P : big_allocation -> bool) fuel pp p q l prev :
  dseg s pp p q 0 l -> 0 ∉ l -> (length l < fuel)%nat ->
  exists l1 l2, l = l1 ++ l2 /\ Forall (fun x => P (ba s x) = false) l1 /\
    (forall x, head l2 = Some x -> P (ba s x) = true) /\
    search_until fuel next_sib P p prev s = Done ((first_of l2, last_of prev l1), s).
Proof.
  revert fuel pp p prev. induction l as [|x l IH]; intros fuel pp p prev D H0 Hf.
  - destruct fuel; [lia|]. simpl in D. destruct D as [-> _]. by exists [], [].
  - destruct fuel; [simpl in Hf; lia|]. simpl in D. destruct D as (-> & _ & D).
    assert (x <> 0) by set_solver. cbn [search_until].
    rewrite (proj2 (Z.eqb_neq x 0)) by done. unfold rd, gets, mbind, M_bind, id.
    destruct (P (ba s x)) eqn:EP.
    + exists [], (x :: l). split_and!; [done|constructor| |done]. by intros y [= ->].
    + destruct (IH fuel x (next_sib (ba s x)) x D) as (l1 & l2 & -> & F & Hh & ->).
      { set_solver. } { simpl in Hf. lia. }
      exists (x :: l1), l2. split_and!; [done|by constructor|done|].
      do 3 f_equal. destruct l1 as [|y l1 _] using rev_ind; [done|].
      rewrite app_comm_cons, !last_of_snoc. done.
Qed.

(** Backward search likewise, from the right end. *)
Lemma search_prev_ok s (P : big_allocation -> bool) fuel f q qn l prev :
  dseg s 0 f q qn l -> 0 ∉ l -> (length l < fuel)%nat ->
  exists l1 l2, l = l1 ++ l2 /\ Forall (fun x => P (ba s x) = false) l2 /\
    (forall x, list.last l1 = Some x -> P (ba s x) = true) /\
    search_until fuel prev_sib P q prev s =
      Done ((last_of 0 l1, default prev (head l2)), s).
Proof.
  revert fuel q qn prev. induction l as [|x l IH] using rev_ind; intros fuel q qn prev D H0 Hf.
  - destruct fuel; [lia|]. simpl in D. destruct D as [_ <-]. by exists [], [].
  - destruct fuel; [rewrite length_app in Hf; simpl in Hf; lia|].
    apply dseg_snoc in D as (-> & _ & D).
    assert (x <> 0) by set_solver. cbn [search_until].
    rewrite (proj2 (Z.eqb_neq x 0)) by done. unfold rd, gets, mbind, M_bind, id.
    destruct (P (ba s x)) eqn:EP.
    + exists (l ++ [x]), []. split_and!; [by rewrite app_nil_r|constructor| |].
      * intros y. rewrite last_snoc. by intros [= ->].
      * by rewrite last_of_snoc.
    + destruct (IH fuel (prev_sib (ba s x)) x x D) as (l1 & l2 & -> & F & Hh & ->).
      { set_solver. } { rewrite length_app in Hf. simpl in Hf. lia. }
      exists l1, (l2 ++ [x]). split_and!; [by rewrite app_assoc| |done|].
      * apply Forall_app. split; [done|]. by constructor.
      * by destruct l2.
Qed.

(** A top-level list the searches may walk: linked, sorted, anchored. *)
Record toplist (s : state) (l : list Z) : Prop := {
  tl_nodup : NoDup l;
  tl_nonzero : 0 ∉ l;
  tl_chain : exists first, chain s first l;
  tl_anchor : START s ∈ l;
  tl_sorted : StronglySorted (precedes s) l;
  tl_bounds x : x ∈ l -> 0 < b_begin (ba s x) < b_end (ba s x) /\ b_end (ba s x) <= 2 ^ 47;
  tl_length : (length l < FUEL)%nat;
}.

Definition anchored (s : state) (l : list Z) : Prop := toplist s l \/ (l = [] /\ START s = 0).

Lemma roots_toplist s l : wf s -> start_ok s -> roots s l -> anchored s l.
Proof.
  intros W [[U P]|[Z N]] R; pose proof R as (ND & C & K & S); [left|right; split; [|done]].
  2:{ destruct l as [|x l]; [done|]. destruct (N x). by apply (K x); left. }
  split; try done.
  - by apply (roots_nonzero s).
  - by apply K.
  - intros x [Ux _]%K. pose proof (wf_bounds _ W x Ux). destruct (max_user_address_spec). lia.
  - rewrite FUEL_eq. assert (length l < NB)%nat; [|lia]. apply (used_nodup_length s); [done..|].
    apply Forall_forall. intros c Hc. by apply K.
Qed.

(** Only the members' records and the anchor matter. *)
Lemma toplist_ext s s' l :
  (forall x, x ∈ l -> ba s' x = ba s x) -> START s' = START s -> toplist s l -> toplist s' l.
Proof.
  intros E ES [ND H0 [f [q C]] HS S Bd Hl]. split; try done.
  - exists f, q. eapply dseg_ext; [|done]. intros x Hx. by rewrite E.
  - by rewrite ES.
  - eapply sorted_weaken; [|done]. intros x y Hx Hy. unfold precedes. by rewrite !E.
  - intros x Hx. rewrite E by done. by apply Bd.
Qed.

(** The list around the anchor. *)
Lemma toplist_split s l :
  toplist s l ->
  exists la lb f q j, l = la ++ START s :: lb /\
    dseg s 0 f (START s) j (la ++ [START s]) /\ dseg s (prev_sib (ba s (START s))) (START s) q 0 (START s :: lb).
Proof.
  intros [_ _ [f [q D]] (la & lb & ->)%list_elem_of_split _ _ _].
  pose proof D as (j & jn & D1 & D2)%dseg_app. simpl in D2. destruct D2 as (-> & Ej & D2).
  exists la, lb, f, q, (next_sib (ba s (START s))). split_and!; [done| |simpl; by rewrite Ej].
  apply dseg_snoc. by rewrite Ej.
Qed.

(** ** The two-way search from the anchor *)

(** [l] is split by [P]: it fails on the first part and holds on the second. *)
Definition split_by (s : state) (P : big_allocation -> bool) (l l1 l2 : list Z) : Prop :=
  l = l1 ++ l2 /\ Forall (fun x => P (ba s x) = false) l1 /\ Forall (fun x => P (ba s x) = true) l2.

Definition upward (s : state) (P : big_allocation -> bool) (x y : Z) : Prop :=
  P (ba s x) = true -> P (ba s y) = true.

Lemma upward_prefix s P l x :
  StronglySorted (upward s P) (l ++ [x]) -> P (ba s x) = false ->
  Forall (fun y => P (ba s y) = false) (l ++ [x]).
Proof.
  intros (_ & _ & HR)%sorted_app_inv E. apply Forall_app. split; [|by constructor].
  apply Forall_forall. intros y Hy. specialize (HR y x Hy ltac:(set_solver)). unfold upward in HR.
  destruct (P (ba s y)); [|done]. rewrite HR in E; done.
Qed.

Lemma upward_suffix s P x l :
  StronglySorted (upward s P) (x :: l) -> P (ba s x) = true ->
  Forall (fun y => P (ba s y) = true) (x :: l).
Proof.
  intros [_ F]%StronglySorted_inv E. constructor; [done|]. eapply Forall_impl; [done|].
  intros y Hy. by apply Hy.
Qed.

Lemma last_of_prefix (la : list Z) x k1 y k2 :
  x <> 0 -> la ++ [x] = k1 ++ y :: k2 -> (x ∉ la) -> last_of 0 k1 <> x.
Proof.
  intros Nz E Hx. destruct k1 as [|z k1 _] using rev_ind; [done|]. rewrite last_of_snoc.
  intros ->. apply Hx. destruct k2 as [|w k2 _] using rev_ind.
  - apply app_inj_tail in E as [-> _]. set_solver.
  - rewrite app_comm_cons, app_assoc in E. apply app_inj_tail in E as [-> _]. set_solver.
Qed.

Lemma search_up s P l :
  toplist s l -> StronglySorted (upward s P) l ->
  exists l1 l2, split_by s P l l1 l2 /\
    ((exists pr, search_until FUEL next_sib P (START s) 0 s = Done ((first_of l2, pr), s) /\
       first_of l2 <> START s) \/
     (exists cur pr, search_until FUEL next_sib P (START s) 0 s = Done ((START s, pr), s) /\
       search_until FUEL prev_sib (fun r => negb (P r)) (START s) 0 s = Done ((cur, first_of l2), s) /\
       cur <> START s /\ first_of l2 <> 0)).
Proof.
  intros R S. pose proof (tl_length _ _ R) as Hlen.
  pose proof (tl_nonzero _ _ R) as H0. pose proof (tl_nodup _ _ R) as ND.
  destruct (toplist_split s l R) as (la & lb & f & q & j & -> & Da & Db).
  rewrite length_app in Hlen. cbn [length] in Hlen.
  assert (START s <> 0) by set_solver.
  destruct (search_next_ok s P FUEL _ _ _ _ 0 Db) as (m1 & m2 & Em & F1 & Hh & E1); [set_solver|cbn [length]; lia|].
  pose proof (sorted_app_inv _ _ _ S) as (_ & Sb & Hab).
  destruct m1 as [|x m1].
  - simpl in Em. subst m2. assert (PS : P (ba s (START s)) = true) by (by apply Hh).
    destruct (search_prev_ok s (fun r => negb (P r)) FUEL _ _ _ _ 0 Da)
      as (k1 & k2 & Ek & F2 & Hl & E2); [set_solver|rewrite length_app; cbn [length]; lia|].
    destruct k2 as [|y k2].
    { rewrite app_nil_r in Ek. rewrite <- Ek, last_snoc in Hl. specialize (Hl _ eq_refl). by rewrite PS in Hl. }
    exists k1, ((y :: k2) ++ lb). assert (El : la ++ START s :: lb = k1 ++ (y :: k2) ++ lb).
    { rewrite app_assoc, <- Ek, <- app_assoc. done. }
    assert (y <> 0) by (rewrite El in H0; set_solver).
    split; [split_and!; [done| |]|].
    + destruct k1 as [|z k1 _] using rev_ind; [constructor|].
      apply upward_prefix; [|by specialize (Hl z (last_snoc _ _)); apply negb_true_iff].
      rewrite El in S. by apply sorted_app_inv in S as (? & _).
    + rewrite El in S. apply sorted_app_inv in S as (_ & S & _). apply upward_suffix; [done|].
      apply Forall_inv in F2. by apply negb_false_iff.
    + right. exists (last_of 0 k1), (last_of 0 []). split_and!; [done|done| |done].
      apply NoDup_app in ND as (_ & ND & _).
      apply (last_of_prefix la (START s) k1 y k2); [done..|]. intros Hin. apply (ND _ Hin). by left.
  - simpl in Em. injection Em as <- ->. exists (la ++ START s :: m1), m2.
    assert (St1 : P (ba s (START s)) = false) by (by apply Forall_inv in F1).
    split; [split_and!; [by rewrite <- app_assoc| |]|].
    + rewrite cons_middle, app_assoc in S. apply sorted_app_inv in S as (S & _).
      apply upward_prefix in S; [|done]. apply Forall_app. split; [|done].
      by apply Forall_app in S as [? _].
    + destruct m2 as [|y m2]; [constructor|]. apply upward_suffix; [|by apply Hh].
      rewrite app_comm_cons in Sb. by apply sorted_app_inv in Sb as (_ & ? & _).
    + left. exists (last_of 0 (START s :: m1)). split; [done|].
      destruct m2 as [|y m2]; [done|]. change (y <> START s). intros ->.
      apply NoDup_app in ND as (_ & _ & ND). apply NoDup_cons in ND as [ND _].
      apply ND, elem_of_app. right. by left.
Qed.

Lemma search_down s P l :
  toplist s l -> StronglySorted (upward s (fun r => negb (P r))) l ->
  exists l1 l2, split_by s (fun r => negb (P r)) l l1 l2 /\
    ((exists pr, search_until FUEL prev_sib P (START s) 0 s = Done ((last_of 0 l1, pr), s) /\
       last_of 0 l1 <> START s) \/
     (exists cur pr, search_until FUEL prev_sib P (START s) 0 s = Done ((START s, pr), s) /\
       search_until FUEL next_sib (fun r => negb (P r)) (START s) 0 s = Done ((cur, last_of 0 l1), s) /\
       cur <> START s /\ last_of 0 l1 <> 0)).
Proof.
  intros R S. pose proof (tl_length _ _ R) as Hlen.
  pose proof (tl_nonzero _ _ R) as H0. pose proof (tl_nodup _ _ R) as ND.
  destruct (toplist_split s l R) as (la & lb & f & q & j & -> & Da & Db).
  rewrite length_app in Hlen. cbn [length] in Hlen.
  assert (START s <> 0) by set_solver.
  destruct (search_prev_ok s P FUEL _ _ _ _ 0 Da)
    as (m1 & m2 & Em & F1 & Hl & E1); [set_solver|rewrite length_app; cbn [length]; lia|].
  apply NoDup_app in ND as (_ & NDa & ND). apply NoDup_cons in ND as [NDb _].
  destruct m2 as [|y m2].
  - rewrite app_nil_r in Em. subst m1. rewrite last_snoc in Hl. specialize (Hl _ eq_refl).
    destruct (search_next_ok s (fun r => negb (P r)) FUEL _ _ _ _ 0 Db)
      as (k1 & k2 & Ek & F2 & Hh & E2); [set_solver|cbn [length]; lia|].
    destruct k1 as [|z k1].
    { simpl in Ek. subst k2. specialize (Hh _ eq_refl). by rewrite Hl in Hh. }
    simpl in Ek. injection Ek as <- ->. rewrite last_of_snoc in E1.
    assert (Ne : last_of 0 (START s :: k1) <> 0).
    { destruct k1 as [|w k1 _] using rev_ind; [done|]. rewrite app_comm_cons, last_of_snoc.
      intros ->. apply H0. apply elem_of_app. right. right. rewrite <- app_assoc.
      apply elem_of_app. right. by left. }
    exists (la ++ START s :: k1), k2. split; [split_and!; [by rewrite <- app_assoc| |]|].
    + apply Forall_app. split; [|done]. rewrite cons_middle, app_assoc in S.
      apply sorted_app_inv in S as (S & _). apply (upward_prefix s (fun r => negb (P r))) in S; [|by rewrite Hl].
      by apply Forall_app in S as [? _].
    + destruct k2 as [|w k2]; [constructor|]. apply (upward_suffix s (fun r => negb (P r))); [|by apply Hh].
      rewrite app_comm_cons, app_assoc in S. by apply sorted_app_inv in S as (_ & ? & _).
    + replace (last_of 0 (la ++ START s :: k1)) with (last_of 0 (START s :: k1)).
      2:{ unfold last_of. by rewrite last_app_cons. }
      right. eexists _, _. split_and!; [done|done| |done].
      destruct k2 as [|w k2]; [done|]. change (w <> START s). intros ->.
      apply NDb, elem_of_app. right. by left.
  - exists m1, ((y :: m2) ++ lb). assert (El : la ++ START s :: lb = m1 ++ (y :: m2) ++ lb).
    { rewrite app_assoc, <- Em, <- app_assoc. done. }
    split; [split_and!; [done| |]|].
    + destruct m1 as [|z m1 _] using rev_ind; [constructor|].
      apply (upward_prefix s (fun r => negb (P r))); [|by rewrite (Hl z (last_snoc _ _))].
      rewrite El in S. by apply sorted_app_inv in S as (? & _).
    + rewrite El in S. apply sorted_app_inv in S as (_ & S & _). apply (upward_suffix s (fun r => negb (P r))); [done|].
      apply Forall_inv in F1. by rewrite F1.
    + left. eexists. split; [done|]. apply (last_of_prefix la (START s) m1 y m2); [done..|].
      intros Hin. apply (NDa _ Hin). by left.
Qed.

(** ** The two searches of the code *)
Context {H : Hooks} {B : Build}.

Lemma find_lowest_ge_ok s l addr :
  toplist s l ->
  exists l1 l2, l = l1 ++ l2 /\ Forall (fun x => b_end (ba s x) <= addr) l1 /\
    Forall (fun x => addr < b_end (ba s x)) l2 /\
    find_toplevel_lowest_ge addr s = Done (first_of l2, s).
Proof.
  intros R.
  assert (Hge : forall x, x ∈ l -> ge_cond addr (ba s x) = true <-> addr < b_end (ba s x)).
  { intros x Hx. pose proof (tl_bounds _ _ R x Hx). unfold ge_cond.
    rewrite wrap_small by lia. rewrite Z.leb_le. lia. }
  destruct (search_up s (ge_cond addr) l R) as (l1 & l2 & (-> & F1 & F2) & Hc).
  { eapply sorted_weaken; [|apply R]. intros x y Hx Hy Pxy. unfold upward.
    rewrite !Hge by done. unfold precedes in Pxy. pose proof (tl_bounds _ _ R y Hy). lia. }
  exists l1, l2. split_and!; [done| | |].
  - eapply Forall_impl_in; [done|]. simpl. intros x Hx E. apply Z.le_ngt.
    rewrite <- Hge by set_solver. congruence.
  - eapply Forall_impl_in; [done|]. simpl. intros x Hx. apply Hge. set_solver.
  - unfold find_toplevel_lowest_ge. rewrite (bind_Done _ _ s (START s) s) by done.
    assert (NS : START s <> 0) by (intros E0; apply (tl_nonzero _ _ R); rewrite <- E0; apply (tl_anchor _ _ R)).
    destruct Hc as [(pr & E & N)|(cur & pr & E & E' & N & N')]; rewrite (bind_Done _ _ _ _ _ E); cbn [fst snd].
    + rewrite (proj2 (Z.eqb_neq _ _) N), andb_true_r.
      destruct (Z.eqb_spec (first_of l2) 0) as [->|]; done.
    + rewrite Z.eqb_refl, andb_false_r, (proj2 (Z.eqb_neq _ _) NS), (bind_Done _ _ _ _ _ E'). cbn [fst snd].
      rewrite (proj2 (Z.eqb_neq _ _) N), (proj2 (Z.eqb_neq _ _) N'). unfold assert.
      by destruct NDEBUG.
Qed.

Lemma find_highest_lt_ok s l addr :
  toplist s l ->
  exists l1 l2, l = l1 ++ l2 /\ Forall (fun x => b_begin (ba s x) < addr) l1 /\
    Forall (fun x => addr <= b_begin (ba s x)) l2 /\
    find_toplevel_highest_lt addr s = Done (last_of 0 l1, s).
Proof.
  intros R.
  destruct (search_down s (lt_cond addr) l R) as (l1 & l2 & (-> & F1 & F2) & Hc).
  { eapply sorted_weaken; [|apply R]. intros x y Hx Hy Pxy. unfold upward, lt_cond, precedes in *.
    pose proof (tl_bounds _ _ R x Hx). rewrite !negb_true_iff, !Z.ltb_ge. lia. }
  exists l1, l2. split_and!; [done| | |].
  - eapply Forall_impl; [done|]. simpl. intros x. unfold lt_cond. rewrite negb_false_iff, Z.ltb_lt. done.
  - eapply Forall_impl; [done|]. simpl. intros x. unfold lt_cond. rewrite negb_true_iff, Z.ltb_ge. done.
  - unfold find_toplevel_highest_lt. rewrite (bind_Done _ _ s (START s) s) by done.
    assert (NS : START s <> 0) by (intros E0; apply (tl_nonzero _ _ R); rewrite <- E0; apply (tl_anchor _ _ R)).
    destruct Hc as [(pr & E & N)|(cur & pr & E & E' & N & N')]; rewrite (bind_Done _ _ _ _ _ E); cbn [fst snd].
    + rewrite (proj2 (Z.eqb_neq _ _) N), andb_true_r.
      destruct (Z.eqb_spec (last_of 0 l1) 0) as [->|]; done.
    + rewrite Z.eqb_refl, andb_false_r, (proj2 (Z.eqb_neq _ _) NS), (bind_Done _ _ _ _ _ E'). cbn [fst snd].
      rewrite (proj2 (Z.eqb_neq _ _) N), (proj2 (Z.eqb_neq _ _) N'). unfold assert.
      by destruct NDEBUG.
Qed.
End search.

Section mappings.
Context {V : Vas} {VL : VasLaws V} {B : Build}.

Lemma find_lt_anchored s l addr : anchored s l ->
  exists l1 l2, l = l1 ++ l2 /\ Forall (fun x => b_begin (ba s x) < addr) l1 /\
    Forall (fun x => addr <= b_begin (ba s x)) l2 /\
    find_toplevel_highest_lt addr s = Done (last_of 0 l1, s).
Proof.
  intros [T|[-> Hs]]; [by apply find_highest_lt_ok|]. exists [], [].
  split_and!; [done|constructor..|]. unfold find_toplevel_highest_lt. cbv [gets]. unfold mbind, M_bind.
  rewrite Hs, FUEL_eq. done.
Qed.

Lemma find_ge_anchored s l addr : anchored s l ->
  exists l1 l2, l = l1 ++ l2 /\ Forall (fun x => b_end (ba s x) <= addr) l1 /\
    Forall (fun x => addr < b_end (ba s x)) l2 /\
    find_toplevel_lowest_ge addr s = Done (first_of l2, s).
Proof.
  intros [T|[-> Hs]]; [by apply find_lowest_ge_ok|]. exists [], [].
  split_and!; [done|constructor..|]. unfold find_toplevel_lowest_ge. cbv [gets]. unfold mbind, M_bind.
  rewrite Hs, FUEL_eq. done.
Qed.

(** Two splits of a list by the same predicate agree. *)
Lemma split_unique (P : Z -> Prop) l1 l2 k1 k2 :
  l1 ++ l2 = k1 ++ k2 -> Forall P l1 -> Forall (fun x => ~ P x) l2 ->
  Forall P k1 -> Forall (fun x => ~ P x) k2 -> l1 = k1 /\ l2 = k2.
Proof.
  revert k1. induction l1 as [|x l1 IH]; intros [|y k1] E F1 F2 G1 G2; simpl in *; simplify_eq.
  - done.
  - inversion F2; inversion G1; naive_solver.
  - inversion G2; inversion F1; naive_solver.
  - inversion F1; inversion G1; subst. destruct (IH k1) as [-> ->]; done.
Qed.

Section sorted.
Context (s : state) (l : list Z) (W : wf s) (St : start_ok s) (R : roots s l).

Lemma roots_bounds x : x ∈ l -> 0 < b_begin (ba s x) < b_end (ba s x).
Proof. intros Hx. apply (proj1 (proj2 (proj2 R))) in Hx as [U _]. by apply (wf_bounds _ W x U). Qed.

Lemma roots_precede l1 x l2 : l = l1 ++ x :: l2 ->
  (forall y, y ∈ l1 -> b_end (ba s y) <= b_begin (ba s x)) /\
  (forall y, y ∈ l2 -> b_end (ba s x) <= b_begin (ba s y)).
Proof.
  intros ->. destruct R as (_ & _ & _ & S). apply sorted_app_inv in S as (_ & S2 & H12). split.
  - intros y Hy. apply H12; [done|by left].
  - intros y Hy. apply StronglySorted_inv in S2 as [_ F]. rewrite Forall_forall in F. by apply F.
Qed.

(** The highest mapping that ends at or below an address. *)
Lemma find_mapping_below_ok addr :
  exists l1 l2, l = l1 ++ l2 /\ Forall (fun x => b_end (ba s x) <= addr) l1 /\
    Forall (fun x => addr < b_end (ba s x)) l2 /\
    __liballocs_find_mapping_below addr s = Done (last_of 0 l1, s).
Proof.
  pose proof (roots_toplist s l W St R) as A. pose proof roots_bounds as Hb.
  destruct (find_lt_anchored s l addr A) as (l1 & l2 & El & F1 & F2 & E).
  unfold __liballocs_find_mapping_below. rewrite (bind_Done _ _ _ _ _ E).
  rewrite Forall_forall in F1, F2.
  destruct l1 as [|x l1 _] using rev_ind.
  { exists [], l2. split_and!; [done|constructor| |done]. apply Forall_forall. intros y Hy.
    specialize (F2 y Hy). pose proof (Hb y ltac:(rewrite El; set_solver)). lia. }
  rewrite last_of_snoc. assert (Hx : x ∈ l) by (rewrite El; set_solver).
  assert (x <> 0) by (intros ->; by apply (roots_nonzero s l W R)).
  rewrite (proj2 (Z.eqb_neq x 0)) by done. rewrite (bind_Done _ _ _ (ba s x) s) by done.
  assert (El' : l = l1 ++ x :: l2) by (rewrite El, <- app_assoc; done).
  destruct (roots_precede l1 x l2 El') as [Hbef Haft]. pose proof (Hb x Hx).
  assert (Hl2 : forall y, y ∈ l2 -> addr < b_end (ba s y)).
  { intros y Hy. specialize (F2 y Hy). pose proof (Hb y ltac:(rewrite El'; set_solver)). lia. }
  destruct (Z.ltb_spec addr (b_end (ba s x))).
  - destruct (find_lt_anchored s l (b_begin (ba s x)) A) as (k1 & k2 & Ek & K1 & K2 & ->).
    exists l1, (x :: l2). split_and!; [done| |constructor; [done|by apply Forall_forall]|].
    + apply Forall_forall. intros y Hy. specialize (Hbef y Hy). pose proof (F1 x ltac:(set_solver)). lia.
    + destruct (split_unique (fun y => b_begin (ba s y) < b_begin (ba s x)) k1 k2 l1 (x :: l2)) as [-> _]; [congruence|done| | | |done].
      * eapply Forall_impl; [exact K2|]. simpl. lia.
      * apply Forall_forall. intros y Hy. specialize (Hbef y Hy). pose proof (Hb y ltac:(rewrite El'; set_solver)). lia.
      * constructor; [lia|]. apply Forall_forall. intros y Hy. specialize (Haft y Hy). lia.
  - exists (l1 ++ [x]), l2. split_and!; [done| |by apply Forall_forall|by rewrite last_of_snoc].
    apply Forall_app. split; [|by constructor]. apply Forall_forall. intros y Hy. specialize (Hbef y Hy).
    lia.
Qed.

(** The lowest mapping that ends above an address, where one begins below it. *)
Lemma find_mapping_at_or_above_ok addr :
  exists l1 l2, l = l1 ++ l2 /\ Forall (fun x => b_end (ba s x) <= addr) l1 /\
    Forall (fun x => addr < b_end (ba s x)) l2 /\
    __liballocs_find_mapping_at_or_above addr s =
      Done (if bool_decide (Exists (fun x => b_begin (ba s x) < addr) l) then first_of l2 else 0, s).
Proof.
  pose proof (roots_toplist s l W St R) as A. pose proof roots_bounds as Hb.
  destruct (find_ge_anchored s l addr A) as (k1 & k2 & Ek & K1 & K2 & Ege).
  exists k1, k2. split_and!; [done..|].
  destruct (find_lt_anchored s l addr A) as (l1 & l2 & El & F1 & F2 & E).
  unfold __liballocs_find_mapping_at_or_above. rewrite (bind_Done _ _ _ _ _ E).
  destruct l1 as [|x l1 _] using rev_ind.
  { rewrite bool_decide_eq_false_2; [done|]. rewrite El. simpl. rewrite Exists_exists.
    rewrite Forall_forall in F2. intros (y & Hy & ?). specialize (F2 y Hy). lia. }
  rewrite last_of_snoc. assert (Hx : x ∈ l) by (rewrite El; set_solver).
  assert (x <> 0) by (intros ->; by apply (roots_nonzero s l W R)).
  apply Forall_app in F1 as [F1 Fx]. apply Forall_inv in Fx.
  rewrite bool_decide_eq_true_2 by (apply Exists_exists; eauto).
  rewrite (proj2 (Z.eqb_neq x 0)) by done. rewrite (bind_Done _ _ _ (b_end (ba s x)) s) by done.
  destruct (Z.leb_spec (b_end (ba s x)) addr); [done|].
  assert (El' : l = l1 ++ x :: l2) by (rewrite El, <- app_assoc; done).
  destruct (roots_precede l1 x l2 El') as [Hbef Haft].
  destruct (split_unique (fun y => b_end (ba s y) <= addr) k1 k2 l1 (x :: l2)) as [_ ->]; [congruence|done| | | |done].
  - eapply Forall_impl; [exact K2|]. simpl. lia.
  - apply Forall_forall. intros y Hy. specialize (Hbef y Hy). lia.
  - constructor; [lia|]. rewrite Forall_forall in *. intros y Hy. specialize (F2 y Hy).
    pose proof (Hb y ltac:(rewrite El'; set_solver)). lia.
Qed.
End sorted.
End mappings.
