(* ===== verification/Attach.v ===== *)
(** Attaching a fresh bigalloc to the forest, as a child or at its place in
    the ordered top-level list, and indexing the pages it spans. *)
From S2P Require Import Prelude DList Vas BigAlloc BigAllocFacts Forest Traversal Toplevel.

(** ** As a child *)

(** The effect of linking [b] at the head of [P]'s children. *)
Record added_child (s s' : state) (b P ptr e : Z) : Prop := {
  ac_begin : b_begin (ba s' b) = ptr;
  ac_end : b_end (ba s' b) = e;
  ac_first0 : first_child (ba s' b) = 0;
  ac_parentP : parent (ba s' b) = P;
  ac_prev0 : prev_sib (ba s' b) = 0;
  ac_nextP : next_sib (ba s' b) = first_child (ba s P);
  ac_firstP : first_child (ba s' P) = b;
  ac_begin_ne i : i <> b -> b_begin (ba s' i) = b_begin (ba s i);
  ac_end_ne i : i <> b -> b_end (ba s' i) = b_end (ba s i);
  ac_parent_ne i : i <> b -> parent (ba s' i) = parent (ba s i);
  ac_first_ne i : i <> b -> i <> P -> first_child (ba s' i) = first_child (ba s i);
  ac_next_ne i : i <> b -> next_sib (ba s' i) = next_sib (ba s i);
  ac_prev_ne i : i <> b -> i <> 0 -> prev_sib (ba s' i) =
    if decide (i = first_child (ba s P)) then b else prev_sib (ba s i);
  ac_null : null_fields (ba s' 0) = null_fields (ba s 0);
}.

Section attach.
Context {V : Vas} {VL : VasLaws V}.

(** The range of the new bigalloc fits below [P], clear of its children. *)
Definition fits_under (s : state) (P ptr e : Z) : Prop :=
  used s P /\ 0 < ptr < e /\ b_begin (ba s P) <= ptr /\ e <= b_end (ba s P) /\
  forall c, used s c -> parent (ba s c) = P -> e <= b_begin (ba s c) \/ b_end (ba s c) <= ptr.

Lemma no_free_parent s b i : wf s -> ~ used s b -> used s i -> b <> 0 -> parent (ba s i) <> b.
Proof. intros W N U Nz E. apply N. rewrite <- E. apply parent_used; [done..|congruence]. Qed.

Section child.
Context (s s' : state) (b P ptr e : Z).
Context (W : wf s) (Nb : ~ used s b) (Rb : 1 <= b < NBIGALLOCS).
Context (Fit : fits_under s P ptr e) (A : added_child s s' b P ptr e).

Lemma ac_used i : used s' i <-> i = b \/ used s i.
Proof.
  destruct Fit as (_ & ? & _). unfold used. destruct (decide (i = b)) as [->|N].
  - rewrite (ac_begin _ _ _ _ _ _ A), (ac_end _ _ _ _ _ _ A). split; [by left|lia].
  - rewrite (ac_begin_ne _ _ _ _ _ _ A), (ac_end_ne _ _ _ _ _ _ A) by done. naive_solver.
Qed.

Lemma ac_used_ne i : used s' i -> i <> b -> used s i.
Proof. intros [->|?]%ac_used; done. Qed.

Lemma ac_P : used s P /\ P <> 0 /\ P <> b.
Proof.
  destruct Fit as (U & _). split_and!; [done|by apply (used_nonzero s)|by intros ->].
Qed.

Lemma ac_not_parent i : used s' i -> i <> b -> parent (ba s' i) <> b.
Proof.
  intros U N. rewrite (ac_parent_ne _ _ _ _ _ _ A) by done.
  apply (no_free_parent s); [done..|by apply ac_used_ne|lia].
Qed.

(** Members of any other list keep their links. *)
Lemma ac_links c :
  used s c -> parent (ba s c) <> P ->
  prev_sib (ba s' c) = prev_sib (ba s c) /\ next_sib (ba s' c) = next_sib (ba s c).
Proof.
  intros U N. destruct ac_P as (UP & _). assert (c <> b) by (by intros ->).
  pose proof (used_nonzero s c W U).
  rewrite (ac_prev_ne _ _ _ _ _ _ A), (ac_next_ne _ _ _ _ _ _ A) by done.
  rewrite decide_False; [done|]. intros ->.
  destruct (first_child_kid s P W UP) as [E|[_ E]]; congruence.
Qed.

Lemma ac_member (Q : Z -> Prop) c :
  (Q P -> c = b -> False) ->
  (used s c /\ Q (parent (ba s c))) <-> (used s' c /\ Q (parent (ba s' c))) .
Proof.
  intros HQ. rewrite ac_used. destruct (decide (c = b)) as [->|N].
  - rewrite (ac_parentP _ _ _ _ _ _ A). naive_solver.
  - rewrite (ac_parent_ne _ _ _ _ _ _ A) by done. naive_solver.
Qed.

Lemma ac_kids_other i l : i <> b -> i <> P -> kids s i l -> kids s' i l.
Proof.
  intros Nib NiP (ND & [q C] & K). split_and!; [done| |].
  - exists q. rewrite (ac_first_ne _ _ _ _ _ _ A) by done. eapply dseg_ext; [|done].
    intros c [U Pc]%K. apply ac_links; [done|congruence].
  - intros c. rewrite K. apply (ac_member (fun p => p = i)). congruence.
Qed.

Lemma ac_kids_parent l : kids s P l -> kids s' P (b :: l).
Proof.
  intros (ND & [q C] & K). destruct ac_P as (UP & NP & NPb).
  assert (b ∉ l) as Hbl by (intros [U _]%K; done).
  assert (0 ∉ l) as H0l by (intros [U _]%K; by apply (not_used_0 s)).
  split_and!; [by apply NoDup_cons| |].
  - destruct (dseg_insert s s' 0 (first_child (ba s P)) q 0 [] b l 0 (first_child (ba s P)))
      as [q' D]; try done.
    + by rewrite (ac_prev0 _ _ _ _ _ _ A).
    + by rewrite (ac_nextP _ _ _ _ _ _ A).
    + intros y Hy. rewrite (ac_next_ne _ _ _ _ _ _ A) by set_solver.
      rewrite decide_False; [done|]. by intros ->.
    + intros y Hy. rewrite (ac_prev_ne _ _ _ _ _ _ A) by set_solver. done.
    + exists q'. by rewrite (ac_firstP _ _ _ _ _ _ A).
  - intros c. rewrite elem_of_cons, K, ac_used. destruct (decide (c = b)) as [->|Nc].
    + rewrite (ac_parentP _ _ _ _ _ _ A). naive_solver.
    + rewrite (ac_parent_ne _ _ _ _ _ _ A) by done. naive_solver.
Qed.

Lemma ac_kids i : used s' i -> exists l, kids s' i l.
Proof.
  intros Ui. destruct ac_P as (UP & NP & NPb). destruct (decide (i = b)) as [->|N].
  - exists []. split_and!; [constructor| |].
    + exists 0. by rewrite (ac_first0 _ _ _ _ _ _ A).
    + intros c. split; [by intros ?%elem_of_nil|]. intros [Uc Pc].
      destruct (decide (c = b)) as [->|Nc]; [|by destruct (ac_not_parent c Uc Nc)].
      rewrite (ac_parentP _ _ _ _ _ _ A) in Pc. done.
  - destruct (wf_kids _ W i (ac_used_ne i Ui N)) as [l K].
    destruct (decide (i = P)) as [->|NiP]; [exists (b :: l) | exists l].
    + by apply ac_kids_parent.
    + by apply ac_kids_other.
Qed.

Lemma ac_roots l : roots s l -> roots s' l.
Proof.
  intros (ND & [f [q C]] & K & S). destruct ac_P as (UP & NP & NPb). split_and!; [done| | |].
  - exists f, q. eapply dseg_ext; [|done]. intros c [U Pc]%K. apply ac_links; [done|congruence].
  - intros c. rewrite K. apply (ac_member (fun p => p = 0)). congruence.
  - assert (Hl : forall c, c ∈ l -> c <> b) by (intros c [? _]%K; by intros ->).
    clear -A S Hl. induction S as [|x l S IH F]; constructor.
    + apply IH. intros c Hc. apply Hl. by right.
    + rewrite Forall_forall in F |- *. intros y Hy. specialize (F y Hy). unfold precedes in *.
      rewrite (ac_end_ne _ _ _ _ _ _ A), (ac_begin_ne _ _ _ _ _ _ A);
        [done| apply Hl; by right | apply Hl; by left].
Qed.

Lemma ac_parent i : used s' i -> parent (ba s' i) <> 0 ->
  used s' (parent (ba s' i)) /\
  b_begin (ba s' (parent (ba s' i))) <= b_begin (ba s' i) /\
  b_end (ba s' i) <= b_end (ba s' (parent (ba s' i))).
Proof.
  intros Ui. destruct ac_P as (UP & NP & NPb). destruct (decide (i = b)) as [->|N].
  - rewrite (ac_parentP _ _ _ _ _ _ A), (ac_begin _ _ _ _ _ _ A), (ac_end _ _ _ _ _ _ A).
    rewrite (ac_begin_ne _ _ _ _ _ _ A), (ac_end_ne _ _ _ _ _ _ A) by done.
    intros _. destruct Fit as (_ & _ & ? & ? & _). split_and!; [apply ac_used; by right|done..].
  - intros Np. pose proof (ac_not_parent i Ui N) as Npb.
    rewrite (ac_parent_ne _ _ _ _ _ _ A) in * by done.
    rewrite !(ac_begin_ne _ _ _ _ _ _ A), !(ac_end_ne _ _ _ _ _ _ A), ac_used by done.
    destruct (wf_parent _ W i (ac_used_ne i Ui N) Np) as (? & ? & ?). auto.
Qed.

Lemma ac_disjoint i j : used s' i -> used s' j -> i <> j ->
  parent (ba s' i) = parent (ba s' j) -> precedes s' i j \/ precedes s' j i.
Proof.
  assert (Hbs : forall j, used s' j -> j <> b -> parent (ba s' j) = P ->
    precedes s' b j \/ precedes s' j b).
  { intros k Uk Nk Pk. rewrite (ac_parent_ne _ _ _ _ _ _ A) in Pk by done. unfold precedes.
    rewrite (ac_begin _ _ _ _ _ _ A), (ac_end _ _ _ _ _ _ A).
    rewrite (ac_begin_ne _ _ _ _ _ _ A), (ac_end_ne _ _ _ _ _ _ A) by done.
    destruct Fit as (_ & _ & _ & _ & Hd). apply Hd; [by apply ac_used_ne|done]. }
  intros Ui Uj N E.
  destruct (decide (i = b)) as [->|Ni]; [|destruct (decide (j = b)) as [->|Nj]].
  - apply Hbs; [done|done|]. rewrite <- E. apply (ac_parentP _ _ _ _ _ _ A).
  - destruct (Hbs i Ui Ni); [|by right|by left]. rewrite E. apply (ac_parentP _ _ _ _ _ _ A).
  - rewrite !(ac_parent_ne _ _ _ _ _ _ A) in E by done. unfold precedes.
    rewrite !(ac_begin_ne _ _ _ _ _ _ A), !(ac_end_ne _ _ _ _ _ _ A) by done.
    apply (wf_disjoint _ W); [by apply ac_used_ne..|done|done].
Qed.

Lemma ac_rank : exists rk : Z -> nat, forall i, used s' i -> parent (ba s' i) <> 0 ->
  (rk (parent (ba s' i)) < rk i)%nat.
Proof.
  destruct ac_P as (UP & NP & NPb). destruct (wf_rank _ W) as [rk Hrk].
  exists (fun i => if decide (i = b) then S (rk P) else rk i).
  intros i Ui Np. destruct (decide (i = b)) as [->|N].
  - rewrite (ac_parentP _ _ _ _ _ _ A). rewrite decide_False by done. lia.
  - rewrite decide_False by by apply ac_not_parent.
    rewrite (ac_parent_ne _ _ _ _ _ _ A) in * by done. apply Hrk; [by apply ac_used_ne|done].
Qed.

Lemma wf_added_child : wf s'.
Proof.
  destruct ac_P as (UP & NP & NPb). split; [.. |by rewrite (ac_null _ _ _ _ _ _ A), (wf_null _ W)].
  - intros i [->|U]%ac_used; [done|]. by apply (wf_range _ W).
  - intros i Ui. destruct (decide (i = b)) as [->|N].
    + rewrite (ac_begin _ _ _ _ _ _ A), (ac_end _ _ _ _ _ _ A).
      pose proof (wf_bounds _ W P UP). destruct Fit as (_ & ? & ? & ? & _). lia.
    + rewrite (ac_begin_ne _ _ _ _ _ _ A), (ac_end_ne _ _ _ _ _ _ A) by done.
      by apply (wf_bounds _ W), ac_used_ne.
  - apply ac_parent.
  - apply ac_kids.
  - destruct (wf_roots _ W) as [l K]. exists l. by apply ac_roots.
  - apply ac_disjoint.
  - intros i Ni. rewrite ac_used in Ni. rewrite (ac_parent_ne _ _ _ _ _ _ A) by tauto.
    apply (wf_free _ W). tauto.
  - apply ac_rank.
  - intros i Ui Pi. destruct (decide (i = b)) as [->|N].
    { rewrite (ac_parentP _ _ _ _ _ _ A) in Pi. done. }
    rewrite (ac_parent_ne _ _ _ _ _ _ A) in Pi by done.
    rewrite (ac_begin_ne _ _ _ _ _ _ A), (ac_end_ne _ _ _ _ _ _ A) by done.
    apply (wf_aligned _ W); [by apply ac_used_ne|done].
Qed.
End child.
End attach.

(** The effect of linking [b] between the roots [l1] below it and [l2] above. *)
Record added_root (s s' : state) (b ptr e : Z) (l1 l2 : list Z) : Prop := {
  ar_begin : b_begin (ba s' b) = ptr;
  ar_end : b_end (ba s' b) = e;
  ar_first0 : first_child (ba s' b) = 0;
  ar_parent0 : parent (ba s' b) = 0;
  ar_prev : prev_sib (ba s' b) = last_of 0 l1;
  ar_next : next_sib (ba s' b) = first_of l2;
  ar_begin_ne i : i <> b -> b_begin (ba s' i) = b_begin (ba s i);
  ar_end_ne i : i <> b -> b_end (ba s' i) = b_end (ba s i);
  ar_parent_ne i : i <> b -> parent (ba s' i) = parent (ba s i);
  ar_first_ne i : i <> b -> first_child (ba s' i) = first_child (ba s i);
  ar_next_ne i : i <> b -> i <> 0 -> next_sib (ba s' i) =
    if decide (i = last_of 0 l1) then b else next_sib (ba s i);
  ar_prev_ne i : i <> b -> i <> 0 -> prev_sib (ba s' i) =
    if decide (i = first_of l2) then b else prev_sib (ba s i);
  ar_null : null_fields (ba s' 0) = null_fields (ba s 0);
}.

Lemma dseg_ends s f q l1 l2 :
  dseg s 0 f q 0 (l1 ++ l2) ->
  exists f1 q2, dseg s 0 f1 (last_of 0 l1) (first_of l2) l1 /\ dseg s (last_of 0 l1) (first_of l2) q2 0 l2.
Proof.
  intros (j & jn & D1 & D2)%dseg_app.
  assert (j = last_of 0 l1) as ->.
  { destruct l1 as [|x l1 _] using rev_ind; [by destruct D1|].
    rewrite last_of_snoc. by apply dseg_snoc in D1 as (-> & _). }
  assert (jn = first_of l2) as ->; [|by exists f, q].
  destruct l2; [by destruct D2|]. by destruct D2 as (-> & _).
Qed.

Lemma last_of_elem (l : list Z) : last_of 0 l = 0 \/ last_of 0 l ∈ l.
Proof.
  destruct l as [|x l _] using rev_ind; [by left|]. rewrite last_of_snoc. right. set_solver.
Qed.

Lemma first_of_elem (l : list Z) : first_of l = 0 \/ first_of l ∈ l.
Proof. destruct l; [by left|]. right. by left. Qed.

Section root.
Context {V : Vas} {VL : VasLaws V}.

(** The range is page-aligned and clear of every top-level bigalloc. *)
Definition fits_top (s : state) (ptr e : Z) : Prop :=
  0 < ptr < e /\ e <= MAXIMUM_USER_ADDRESS + 1 /\ ptr mod PAGE_SIZE = 0 /\ e mod PAGE_SIZE = 0 /\
  forall c, used s c -> parent (ba s c) = 0 -> e <= b_begin (ba s c) \/ b_end (ba s c) <= ptr.

Context (s s' : state) (b ptr e : Z) (l1 l2 : list Z).
Context (W : wf s) (Nb : ~ used s b) (Rb : 1 <= b < NBIGALLOCS) (Fit : fits_top s ptr e).
Context (R : roots s (l1 ++ l2)) (A : added_root s s' b ptr e l1 l2).
Context (F1 : Forall (fun x => b_end (ba s x) <= ptr) l1) (F2 : Forall (fun x => e <= b_begin (ba s x)) l2).

Lemma ar_used i : used s' i <-> i = b \/ used s i.
Proof.
  destruct Fit as (? & _). unfold used. destruct (decide (i = b)) as [->|N].
  - rewrite (ar_begin _ _ _ _ _ _ _ A), (ar_end _ _ _ _ _ _ _ A). split; [by left|lia].
  - rewrite (ar_begin_ne _ _ _ _ _ _ _ A), (ar_end_ne _ _ _ _ _ _ _ A) by done. naive_solver.
Qed.

Lemma ar_same i : used s' i -> i <> b -> used s i /\ parent (ba s' i) = parent (ba s i) /\
  b_begin (ba s' i) = b_begin (ba s i) /\ b_end (ba s' i) = b_end (ba s i).
Proof.
  intros [->|U]%ar_used N; [done|].
  by rewrite (ar_parent_ne _ _ _ _ _ _ _ A), (ar_begin_ne _ _ _ _ _ _ _ A), (ar_end_ne _ _ _ _ _ _ _ A).
Qed.

Lemma ar_not_parent i : used s i -> parent (ba s i) <> b.
Proof. intros U. apply (no_free_parent s); [done..|lia]. Qed.

Lemma ar_links c : used s c -> parent (ba s c) <> 0 ->
  prev_sib (ba s' c) = prev_sib (ba s c) /\ next_sib (ba s' c) = next_sib (ba s c).
Proof.
  intros U P. assert (c <> b) by (by intros ->). assert (c <> 0) by by apply (used_nonzero s).
  assert (Nl : c ∉ l1 ++ l2) by (intros Hc; by apply (proj1 (proj2 (proj2 R))) in Hc as [_ ?]).
  rewrite (ar_prev_ne _ _ _ _ _ _ _ A), (ar_next_ne _ _ _ _ _ _ _ A) by done.
  split; (rewrite decide_False; [done|]); intros ->.
  - destruct (first_of_elem l2) as [?|?]; [done|]. apply Nl. set_solver.
  - destruct (last_of_elem l1) as [?|?]; [done|]. apply Nl. set_solver.
Qed.

Lemma ar_kids i : used s' i -> exists l, kids s' i l.
Proof.
  intros Ui. destruct (decide (i = b)) as [->|N].
  - exists []. split_and!; [constructor|exists 0; by rewrite (ar_first0 _ _ _ _ _ _ _ A)|].
    intros c. split; [by intros ?%elem_of_nil|]. intros [Uc Pc].
    destruct (decide (c = b)) as [->|Nc].
    + rewrite (ar_parent0 _ _ _ _ _ _ _ A) in Pc. lia.
    + destruct (ar_same c Uc Nc) as (U & Ep & _). rewrite Ep in Pc. by destruct (ar_not_parent c U).
  - destruct (ar_same i Ui N) as (U & _). destruct (wf_kids _ W i U) as [l (ND & [q C] & K)].
    pose proof (used_nonzero s i W U) as Nz. exists l. split_and!; [done| |].
    + exists q. rewrite (ar_first_ne _ _ _ _ _ _ _ A) by done. eapply dseg_ext; [|done].
      intros c [Uc Pc]%K. apply ar_links; [done|congruence].
    + intros c. rewrite K, ar_used. destruct (decide (c = b)) as [->|Nc].
      * rewrite (ar_parent0 _ _ _ _ _ _ _ A). naive_solver.
      * rewrite (ar_parent_ne _ _ _ _ _ _ _ A) by done. naive_solver.
Qed.

Lemma ar_roots : roots s' (l1 ++ b :: l2).
Proof.
  pose proof (roots_nonzero _ _ W R) as Nz. destruct R as (ND & [f [q C]] & K & S).
  assert (Nbl : b ∉ l1 ++ l2) by (intros Hb; by apply K in Hb as [? _]).
  assert (Hsame : forall x, x ∈ l1 ++ l2 -> b_begin (ba s' x) = b_begin (ba s x) /\ b_end (ba s' x) = b_end (ba s x)).
  { intros x Hx. assert (x <> b) by (by intros ->).
    by rewrite (ar_begin_ne _ _ _ _ _ _ _ A), (ar_end_ne _ _ _ _ _ _ _ A). }
  split_and!.
  - rewrite <- Permutation_middle. by apply NoDup_cons.
  - destruct (dseg_ends _ _ _ _ _ C) as (f1 & q2 & D1 & D2). eexists.
    apply (dseg_insert s s' 0 f1 q2 0 l1 b l2 (last_of 0 l1) (first_of l2)); try done.
    + apply (ar_prev _ _ _ _ _ _ _ A).
    + apply (ar_next _ _ _ _ _ _ _ A).
    + intros y Hy. apply (ar_next_ne _ _ _ _ _ _ _ A); [by intros ->|by intros ->].
    + intros y Hy. apply (ar_prev_ne _ _ _ _ _ _ _ A); [by intros ->|by intros ->].
  - intros c. rewrite <- Permutation_middle, elem_of_cons, K, ar_used.
    destruct (decide (c = b)) as [->|Nc].
    + rewrite (ar_parent0 _ _ _ _ _ _ _ A). naive_solver.
    + rewrite (ar_parent_ne _ _ _ _ _ _ _ A) by done. naive_solver.
  - assert (S' : StronglySorted (precedes s') (l1 ++ l2)).
    { eapply sorted_weaken; [|exact S]. intros x y Hx Hy. unfold precedes.
      by rewrite (proj2 (Hsame x Hx)), (proj1 (Hsame y Hy)). }
    apply sorted_app_inv in S' as (S1 & S2 & HR). rewrite Forall_forall in F1, F2.
    apply sorted_app; [done|constructor; [done|]|].
    + apply Forall_forall. intros y Hy. unfold precedes.
      rewrite (ar_end _ _ _ _ _ _ _ A), (proj1 (Hsame y ltac:(set_solver))). by apply F2.
    + intros x y Hx [->|Hy]%elem_of_cons; [|by apply HR]. unfold precedes.
      rewrite (ar_begin _ _ _ _ _ _ _ A), (proj2 (Hsame x ltac:(set_solver))). by apply F1.
Qed.

Lemma wf_added_root : wf s'.
Proof.
  destruct Fit as (Hr & Hm & Ha & Ha' & Hd). split; [.. |by rewrite (ar_null _ _ _ _ _ _ _ A), (wf_null _ W)].
  - intros i [->|U]%ar_used; [done|]. by apply (wf_range _ W).
  - intros i Ui. destruct (decide (i = b)) as [->|N].
    + rewrite (ar_begin _ _ _ _ _ _ _ A), (ar_end _ _ _ _ _ _ _ A). lia.
    + destruct (ar_same i Ui N) as (U & _ & -> & ->). by apply (wf_bounds _ W).
  - intros i Ui Np. destruct (decide (i = b)) as [->|N].
    { by rewrite (ar_parent0 _ _ _ _ _ _ _ A) in Np. }
    destruct (ar_same i Ui N) as (U & Ep & -> & ->). rewrite Ep in *.
    pose proof (ar_not_parent i U).
    rewrite ar_used, (ar_begin_ne _ _ _ _ _ _ _ A), (ar_end_ne _ _ _ _ _ _ _ A) by done.
    destruct (wf_parent _ W i U Np) as (? & ? & ?). auto.
  - apply ar_kids.
  - eexists. apply ar_roots.
  - assert (Hbs : forall j, used s' j -> j <> b -> parent (ba s' j) = 0 -> precedes s' b j \/ precedes s' j b).
    { intros j Uj Nj. destruct (ar_same j Uj Nj) as (U & -> & Ebj & Eej). intros Pj. unfold precedes.
      rewrite (ar_begin _ _ _ _ _ _ _ A), (ar_end _ _ _ _ _ _ _ A), Ebj, Eej. by apply Hd. }
    intros i j Ui Uj N E.
    destruct (decide (i = b)) as [->|Ni]; [|destruct (decide (j = b)) as [->|Nj]].
    + apply Hbs; [done..|]. rewrite <- E. apply (ar_parent0 _ _ _ _ _ _ _ A).
    + destruct (Hbs i Ui Ni); [|by right|by left]. rewrite E. apply (ar_parent0 _ _ _ _ _ _ _ A).
    + destruct (ar_same i Ui Ni) as (U & Ep & Eb & Ee), (ar_same j Uj Nj) as (U' & Ep' & Eb' & Ee').
      unfold precedes. rewrite Eb, Ee, Eb', Ee'. apply (wf_disjoint _ W); [done..|congruence].
  - intros i Ni. rewrite ar_used in Ni. rewrite (ar_parent_ne _ _ _ _ _ _ _ A) by tauto.
    apply (wf_free _ W). tauto.
  - destruct (wf_rank _ W) as [rk Hrk]. exists rk. intros i Ui Np.
    destruct (decide (i = b)) as [->|N]; [by rewrite (ar_parent0 _ _ _ _ _ _ _ A) in Np|].
    destruct (ar_same i Ui N) as (U & Ep & _). rewrite Ep in *. by apply Hrk.
  - intros i Ui Pi. destruct (decide (i = b)) as [->|N].
    { by rewrite (ar_begin _ _ _ _ _ _ _ A), (ar_end _ _ _ _ _ _ _ A). }
    destruct (ar_same i Ui N) as (U & Ep & -> & ->). apply (wf_aligned _ W); [done|congruence].
Qed.
End root.
