(* ===== verification/Create.v ===== *)
(** Creation of a bigalloc, below a parent or at top level: [bigalloc_init]
    links the record, indexes its pages and preserves the forest and
    page-index invariants; [find_free_bigalloc] supplies the record. *)
From S2P Require Import Prelude DList Vas BigAlloc PageIndex PageIndexQuery BigAllocFacts Forest Traversal.
From S2P Require Import Traversal Attach Toplevel.

(** ** The page index after attaching a childless bigalloc *)

Lemma index_attached `{Vas} s s' b :
  index_ok s -> ~ used s b ->
  (forall i, used s' i <-> i = b \/ used s i) ->
  (forall i, i <> b -> b_begin (ba s' i) = b_begin (ba s i) /\
     b_end (ba s' i) = b_end (ba s i) /\ parent (ba s' i) = parent (ba s i)) ->
  (forall c, used s' c -> parent (ba s' c) <> b) ->
  (forall p, 0 <= p < NPAGES -> (covers s' b p /\ pi s' p = b) \/ (~ covers s' b p /\ pi s' p = pi s p)) ->
  index_ok s'.
Proof.
  intros I Nb HU Hsame Hleaf Hpi p Hp.
  assert (Hcov : forall i, i <> b -> covers s' i p <-> covers s i p).
  { intros i Ni. unfold covers. destruct (Hsame i Ni) as (-> & -> & _). done. }
  destruct (Hpi p Hp) as [[C ->]|[C ->]].
  - right. split_and!; [apply HU; by left|done|]. intros c U P. by destruct (Hleaf c U).
  - destruct (I p Hp) as [[-> Hn]|(Un & Cn & Hk)].
    + left. split; [done|]. intros i [->|U]%HU; [done|].
      rewrite Hcov by (by intros ->). by apply Hn.
    + assert (pi s p <> b) by (by intros <-). right.
      split_and!; [apply HU; by right|by apply Hcov|].
      intros c [->|U]%HU Pc; [done|]. assert (c <> b) by (by intros ->).
      rewrite Hcov by done. apply Hk; [done|]. destruct (Hsame c) as (_ & _ & <-); done.
Qed.

Section create.
Context {V : Vas} {VL : VasLaws V} {H : Hooks}.

(** ** [add_child] and [bigalloc_init_nomemset] as state transformers *)

Definition add_child_st (c P : Z) (s : state) : state :=
  let pf := first_child (ba s P) in
  let s3 := upd c (set_next_sib pf) (upd P (set_first_child c) (upd c (set_parent P) s)) in
  if pf =? 0 then s3 else upd pf (set_prev_sib c) s3.

Lemma add_child_eq c P s :
  c <> P -> add_child (B := release) c P s = Done (tt, add_child_st c P s).
Proof.
  intros N. unfold add_child, add_child_st.
  cbv [sanity_check_bigalloc assert NDEBUG release rd wr gets modify mbind M_bind mret M_ret when].
  replace (first_child (ba (upd c (set_parent P) s) P)) with (first_child (ba s P))
    by (by rewrite ba_upd_ne).
  by destruct (first_child (ba s P) =? 0).
Qed.

Definition fresh_record (ptr size ap apf ab sa sp spf : Z) (r : big_allocation) : big_allocation :=
  BigAllocation ptr (wrap64 (ptr + size)) 0 0 (parent r) 0 ab sa ap apf sp spf.

Lemma init_nomemset_child_eq b ptr size P ap apf ab sa sp spf s :
  b <> P -> P <> 0 ->
  bigalloc_init_nomemset (B := release) b ptr size P ap apf ab sa sp spf s =
    Done (tt, add_child_st b P (upd b (fresh_record ptr size ap apf ab sa sp spf) s)).
Proof.
  intros N NP. unfold bigalloc_init_nomemset.
  rewrite (proj2 (Z.eqb_neq P 0)) by done. cbn [negb].
  set (s1 := upd b (fresh_record ptr size ap apf ab sa sp spf) s).
  rewrite (bind_Done _ _ _ tt s1) by done.
  rewrite (bind_Done _ _ _ tt (add_child_st b P s1)).
  2:{ by rewrite (bind_Done _ _ _ tt (add_child_st b P s1)) by by apply add_child_eq. }
  cbv [sanity_check_bigalloc NDEBUG release mbind M_bind mret M_ret rd gets when].
  by destruct (parent (ba (add_child_st b P s1) b) =? 0).
Qed.

Lemma added_child_st b ptr size P ap apf ab sa sp spf s :
  b <> P -> b <> 0 -> P <> 0 -> parent (ba s b) = 0 ->
  first_child (ba s P) <> b -> first_child (ba s P) <> P ->
  added_child s (add_child_st b P (upd b (fresh_record ptr size ap apf ab sa sp spf) s))
    b P ptr (wrap64 (ptr + size)).
Proof.
  intros N Nb NP Pb Hf HfP. unfold add_child_st.
  assert (E : first_child (ba (upd b (fresh_record ptr size ap apf ab sa sp spf) s) P) = first_child (ba s P))
    by (by rewrite ba_upd_ne). rewrite E. clear E.
  destruct (Z.eqb_spec (first_child (ba s P)) 0) as [E0|N0];
    split; intros; rewrite ?ba_upd; repeat case_decide; subst; try done;
    repeat match goal with |- context [ba s ?i] => destruct (ba s i) eqn:? end;
    simpl in *; congruence.
Qed.

(** ** [add_toplevel] as a state transformer *)

Definition add_top_st (b p n : Z) (s : state) : state :=
  let s1 := upd b (set_prev_sib p) (upd b (set_next_sib n) s) in
  let s2 := if p =? 0 then s1 else upd p (set_next_sib b) s1 in
  if n =? 0 then s2 else upd n (set_prev_sib b) s2.

Lemma add_toplevel_eq {B : Build} s l b :
  toplist s l -> b ∉ l -> b <> 0 -> 0 < b_begin (ba s b) < b_end (ba s b) ->
  (forall x, x ∈ l -> b_end (ba s b) <= b_begin (ba s x) \/ b_end (ba s x) <= b_begin (ba s b)) ->
  exists l1 l2, l = l1 ++ l2 /\
    Forall (fun x => b_end (ba s x) <= b_begin (ba s b)) l1 /\
    Forall (fun x => b_end (ba s b) <= b_begin (ba s x)) l2 /\
    add_toplevel b s = Done (tt, add_top_st b (last_of 0 l1) (first_of l2) s).
Proof.
  intros T Nb Nz Hr Hd.
  destruct (find_lowest_ge_ok s l (b_end (ba s b)) T) as (l1 & l2 & El & F1 & F2 & E).
  assert (Hb := tl_bounds _ _ T). exists l1, l2.
  assert (G1 : Forall (fun x => b_end (ba s x) <= b_begin (ba s b)) l1).
  { eapply Forall_impl_in; [exact F1|]. simpl. intros x Hx Hle.
    pose proof (Hb x ltac:(set_solver)). destruct (Hd x ltac:(set_solver)); lia. }
  assert (G2 : Forall (fun x => b_end (ba s b) <= b_begin (ba s x)) l2).
  { eapply Forall_impl_in; [exact F2|]. simpl. intros x Hx Hle.
    pose proof (Hb x ltac:(set_solver)). destruct (Hd x ltac:(set_solver)); lia. }
  split_and!; [done..|]. unfold add_toplevel.
  rewrite (bind_Done _ _ _ (b_end (ba s b)) s), (bind_Done _ _ _ _ _ E) by done.
  set (s2 := upd b (set_next_sib (first_of l2)) s). rewrite (bind_Done _ _ _ tt s2) by done.
  assert (Hne : forall x, x ∈ l -> ba s2 x = ba s x).
  { intros x Hx. unfold s2. rewrite ba_upd_ne; [done|]. by intros ->. }
  rewrite (bind_Done _ _ _ (last_of 0 l1) s2).
  { unfold add_top_st. fold s2. cbv [wr when modify mbind M_bind mret M_ret].
    by destruct (last_of 0 l1 =? 0), (first_of l2 =? 0). }
  destruct l2 as [|n l2].
  - rewrite app_nil_r in El. subst l1. change (negb (first_of [] =? 0)) with false. cbv iota.
    rewrite (bind_Done _ _ _ (b_begin (ba s b)) s2).
    2:{ unfold s2, rd, gets. by rewrite field_upd. }
    assert (T2 : toplist s2 l) by by apply (toplist_ext s).
    destruct (find_highest_lt_ok s2 l (b_begin (ba s b)) T2) as (k1 & k2 & -> & _ & K2 & ->).
    destruct k2 as [|y k2]; [by rewrite app_nil_r|]. exfalso.
    apply Forall_inv in K2. rewrite Hne in K2 by set_solver.
    rewrite Forall_forall in G1. specialize (G1 y ltac:(set_solver)).
    pose proof (Hb y ltac:(set_solver)). lia.
  - change (negb (first_of (n :: l2) =? 0)) with (negb (n =? 0)). assert (Hn : n ∈ l) by set_solver.
    assert (n <> 0) by (intros ->; by apply (tl_nonzero _ _ T)).
    rewrite (proj2 (Z.eqb_neq n 0)) by done. cbn [negb].
    unfold rd, gets. change (first_of (n :: l2)) with n. rewrite Hne by done.
    destruct (tl_chain _ _ T) as [f [q C]]. rewrite El in C.
    destruct (dseg_ends _ _ _ _ _ C) as (f1 & q2 & _ & D2). destruct D2 as (_ & -> & _). done.
Qed.

(** The first bigalloc of all: there is no list yet. *)
Lemma add_toplevel_first {B : Build} s b :
  START s = 0 -> b <> 0 -> add_toplevel b s = Done (tt, add_top_st b 0 0 s).
Proof.
  intros Hs Nb. assert (Hf : forall dir p s', START s' = 0 -> search_until FUEL dir p 0 0 s' = Done ((0, 0), s')).
  { intros. rewrite FUEL_eq. done. }
  unfold add_toplevel, find_toplevel_lowest_ge, find_toplevel_highest_lt.
  cbv [mbind M_bind gets rd wr modify]. rewrite Hs, Hf by done. cbn [fst negb andb Z.eqb].
  cbv [mret M_ret]. cbn [fst negb andb Z.eqb]. change (START (upd b (set_next_sib 0) s)) with (START s).
  rewrite Hs, Hf by done. done.
Qed.

Lemma add_toplevel_anchored {B : Build} s l b :
  anchored s l -> b ∉ l -> b <> 0 -> 0 < b_begin (ba s b) < b_end (ba s b) ->
  (forall x, x ∈ l -> b_end (ba s b) <= b_begin (ba s x) \/ b_end (ba s x) <= b_begin (ba s b)) ->
  exists l1 l2, l = l1 ++ l2 /\
    Forall (fun x => b_end (ba s x) <= b_begin (ba s b)) l1 /\
    Forall (fun x => b_end (ba s b) <= b_begin (ba s x)) l2 /\
    add_toplevel b s = Done (tt, add_top_st b (last_of 0 l1) (first_of l2) s).
Proof.
  intros [T|[-> Hs]]; [by apply add_toplevel_eq|]. intros. exists [], [].
  split_and!; [done|constructor..|]. by apply add_toplevel_first.
Qed.

Lemma added_root_st b ptr size ap apf ab sa sp spf s l1 l2 :
  b <> 0 -> parent (ba s b) = 0 -> (b ∉ l1 ++ l2) -> NoDup (l1 ++ l2) -> (0 ∉ l1 ++ l2) ->
  added_root s (add_top_st b (last_of 0 l1) (first_of l2) (upd b (fresh_record ptr size ap apf ab sa sp spf) s))
    b ptr (wrap64 (ptr + size)) l1 l2.
Proof.
  intros Nz Pb Nb ND N0.
  assert (Hp : last_of 0 l1 <> b).
  { destruct (last_of_elem l1) as [->|?]; [done|]. intros <-. set_solver. }
  assert (Hn : first_of l2 <> b).
  { destruct (first_of_elem l2) as [->|?]; [done|]. intros <-. set_solver. }
  assert (Hpn : last_of 0 l1 = first_of l2 -> first_of l2 = 0).
  { intros E. destruct (first_of_elem l2) as [?|H2]; [done|]. destruct (last_of_elem l1) as [?|H1]; [congruence|].
    rewrite E in H1. apply NoDup_app in ND as (_ & Hd & _). by destruct (Hd _ H1). }
  unfold add_top_st.
  destruct (Z.eqb_spec (last_of 0 l1) 0), (Z.eqb_spec (first_of l2) 0);
    split; intros; rewrite ?ba_upd; repeat case_decide; subst;
    cbn [b_begin b_end first_child next_sib parent prev_sib fresh_record set_next_sib set_prev_sib];
    try done; try congruence; exfalso; auto.
Qed.

(** ** Initialising a record *)

(** From [s] to [s'] the bigalloc [b] has come into being. *)
Record created (s s' : state) (b : Z) : Prop := {
  cr_wf : wf s';
  cr_index : index_ok s';
  cr_start : START s' = START s;
  cr_freed : freed s' = freed s;
  cr_used i : used s' i <-> i = b \/ used s i;
  cr_meta i : i <> b -> meta (ba s' i) = meta (ba s i);
  cr_leaf : first_child (ba s' b) = 0;
}.

(** Where a new bigalloc may go: below [P], or at top level when [P] is 0. *)
Definition fits (s : state) (P ptr e : Z) : Prop :=
  if decide (P = 0) then start_ok s /\ fits_top s ptr e else fits_under s P ptr e.

Lemma fits_bounds s P ptr e : wf s -> fits s P ptr e -> 0 < ptr < e /\ e <= MAXIMUM_USER_ADDRESS + 1.
Proof.
  intros W. unfold fits. case_decide.
  - by intros (_ & ? & ? & _).
  - intros (U & ? & ? & ? & _). pose proof (wf_bounds _ W P U). lia.
Qed.

(** The linking step, whichever branch is taken. *)
Record linked (s s' : state) (b : Z) : Prop := {
  lk_wf k q v : wf (fill_pages k q v s');
  lk_pi p : pi s' p = pi s p;
  lk_log : START s' = START s /\ freed s' = freed s;
  lk_used i : used s' i <-> i = b \/ used s i;
  lk_meta i : i <> b -> meta (ba s' i) = meta (ba s i);
  lk_leaf : first_child (ba s' b) = 0;
}.

Lemma added_child_fill s s' b P ptr e k q v :
  added_child s s' b P ptr e -> added_child s (fill_pages k q v s') b P ptr e.
Proof. intros []; split; intros; rewrite ba_fill; auto. Qed.

Lemma added_root_fill s s' b ptr e l1 l2 k q v :
  added_root s s' b ptr e l1 l2 -> added_root s (fill_pages k q v s') b ptr e l1 l2.
Proof. intros []; split; intros; rewrite ba_fill; auto. Qed.

Lemma free_slot s b P :
  wf s -> ~ used s b -> 1 <= b < NBIGALLOCS -> used s P ->
  b <> P /\ P <> 0 /\ parent (ba s b) = 0 /\ first_child (ba s P) <> b /\ first_child (ba s P) <> P.
Proof.
  intros W N Rb U. pose proof (used_nonzero s P W U) as Nz.
  assert (b <> P) by (by intros ->). pose proof (wf_free _ W b N).
  destruct (first_child_kid s P W U) as [->|[Uf Pf]]; [lia|].
  split_and!; [done..|by intros E; rewrite E in Uf|].
  intros E. rewrite E in Pf. by apply (parent_not_self s P).
Qed.

Section link.
Context (s : state) (b ptr size ap apf ab sa sp spf : Z).
Context (W : wf s) (Nb : ~ used s b) (Rb : 1 <= b < NBIGALLOCS) (Hs : 0 <= size).
Context (Hw : wrap64 (ptr + size) = ptr + size).
Let rec := fresh_record ptr size ap apf ab sa sp spf.

Lemma link_child P :
  fits_under s P ptr (ptr + size) ->
  exists s', bigalloc_init_nomemset (B := release) b ptr size P ap apf ab sa sp spf s = Done (tt, s') /\
    linked s s' b /\ meta (ba s' b) = (ptr, ptr + size, P, ab, sa, ap, apf, sp, spf).
Proof.
  intros Fit. destruct (free_slot s b P W Nb Rb (proj1 Fit)) as (H1 & H2 & H3 & H4 & H5).
  pose proof (added_child_st b ptr size P ap apf ab sa sp spf s H1 ltac:(lia) H2 H3 H4 H5) as A.
  rewrite Hw in A. eexists. split; [by apply init_nomemset_child_eq|].
  set (s' := add_child_st b P (upd b (fresh_record ptr size ap apf ab sa sp spf) s)) in *.
  assert (Hlog : START s' = START s /\ freed s' = freed s /\ pageindex s' = pageindex s).
  { unfold s', add_child_st. by case_match. }
  assert (Hmeta : forall i, meta (ba s' i) = meta (ba (upd b (fun r => set_parent P (rec r)) s) i)).
  { intros i. unfold s', add_child_st. case_match; rewrite !ba_upd;
      repeat case_decide; simplify_eq; done. }
  split; [split|].
  - intros k q v. apply (wf_added_child s _ b P ptr (ptr + size)); try done.
    by apply added_child_fill.
  - intros p. unfold pi. by destruct Hlog as (_ & _ & ->).
  - naive_solver.
  - intros i. by apply (ac_used s s' b P ptr (ptr + size)).
  - intros i N. rewrite Hmeta, ba_upd_ne by done. done.
  - apply (ac_first0 _ _ _ _ _ _ A).
  - rewrite Hmeta, ba_upd_eq. unfold meta, rec. cbn. by rewrite Hw.
Qed.

Lemma link_root :
  start_ok s -> fits_top s ptr (ptr + size) ->
  exists s', bigalloc_init_nomemset (B := release) b ptr size 0 ap apf ab sa sp spf s = Done (tt, s') /\
    linked s s' b /\ meta (ba s' b) = (ptr, ptr + size, 0, ab, sa, ap, apf, sp, spf).
Proof.
  intros St Fit. destruct (wf_roots _ W) as [l R]. set (s1 := upd b rec s).
  assert (Nl : b ∉ l) by (intros Hl; by apply (proj1 (proj2 (proj2 R))) in Hl as [? _]).
  assert (Hne : forall x, x ∈ l -> ba s1 x = ba s x).
  { intros x Hx. unfold s1. rewrite ba_upd_ne; [done|]. by intros ->. }
  assert (Er : b_begin (ba s1 b) = ptr /\ b_end (ba s1 b) = ptr + size).
  { unfold s1. rewrite ba_upd_eq. unfold rec. cbn. by rewrite Hw. } destruct Er as [Eb Ee].
  destruct (add_toplevel_anchored (B := release) s1 l b) as (l1 & l2 & El & F1 & F2 & E); try (done || lia).
  { destruct (roots_toplist s l W St R) as [T|[-> Hz]]; [left; by apply (toplist_ext s)|by right]. } { rewrite Eb, Ee. apply Fit. }
  { intros x Hx. rewrite Eb, Ee, Hne by done. apply Fit; by apply (proj1 (proj2 (proj2 R))). }
  pose proof (roots_nonzero s l W R) as Nz. rewrite El in R, Nl, Nz, Hne.
  pose proof (added_root_st b ptr size ap apf ab sa sp spf s l1 l2 ltac:(lia) (wf_free _ W b Nb) Nl (proj1 R) Nz) as A.
  rewrite Hw, Eb, Ee in *. fold rec in A. fold s1 in A.
  set (s2 := add_top_st b (last_of 0 l1) (first_of l2) s1) in *.
  assert (Hlog : START s2 = START s /\ freed s2 = freed s /\ pageindex s2 = pageindex s).
  { unfold s2, add_top_st. by repeat case_match. }
  assert (Hmeta : forall i, meta (ba s2 i) = meta (ba s1 i)).
  { intros i. unfold s2, add_top_st. repeat case_match; by rewrite !field_upd. }
  exists s2. split; [|split; [split|]].
  - unfold bigalloc_init_nomemset. cbn [negb Z.eqb].
    rewrite (bind_Done _ _ _ tt s1), (bind_Done _ _ _ _ _ E) by done.
    cbv [sanity_check_bigalloc NDEBUG release mbind M_bind mret M_ret rd gets when sanity_check_bigallocs_toplevel].
    by destruct (parent (ba s2 b) =? 0).
  - intros k q v. apply (wf_added_root s _ b ptr (ptr + size) l1 l2); try done.
    + by apply added_root_fill.
    + eapply Forall_impl_in; [exact F1|]. simpl. intros x Hx. by rewrite Hne by set_solver.
    + eapply Forall_impl_in; [exact F2|]. simpl. intros x Hx. by rewrite Hne by set_solver.
  - intros p. unfold pi. by destruct Hlog as (_ & _ & ->).
  - naive_solver.
  - intros i. by apply (ar_used s s2 b ptr (ptr + size) l1 l2).
  - intros i N. rewrite Hmeta. unfold s1. by rewrite ba_upd_ne.
  - apply (ar_first0 _ _ _ _ _ _ _ A).
  - rewrite Hmeta. unfold s1. rewrite ba_upd_eq. unfold meta, rec. cbn. rewrite Hw.
    by rewrite (wf_free _ W b Nb).
Qed.
End link.

Lemma bigalloc_init_ok s b ptr size P ap apf ab sa sp spf :
  wf s -> index_ok s -> ~ used s b -> 1 <= b < NBIGALLOCS ->
  0 <= size <= BIGGEST_SANE_USER_ALLOC -> fits s P ptr (ptr + size) ->
  exists s', bigalloc_init (B := release) b ptr size P ap apf ab sa sp spf s = Done (tt, s') /\
    created s s' b /\ meta (ba s' b) = (ptr, ptr + size, P, ab, sa, ap, apf, sp, spf).
Proof.
  intros W I Nb Rb Hs Fit. pose proof (fits_bounds _ _ _ _ W Fit) as [Hb Hm].
  destruct (max_user_address_spec).
  assert (Hw : wrap64 (ptr + size) = ptr + size) by (apply wrap_small; lia).
  assert (exists s', bigalloc_init_nomemset (B := release) b ptr size P ap apf ab sa sp spf s = Done (tt, s') /\
    linked s s' b /\ meta (ba s' b) = (ptr, ptr + size, P, ab, sa, ap, apf, sp, spf)) as (s1 & E & L & M).
  { unfold fits in Fit. case_decide as HP; [subst P; apply link_root|apply link_child]; naive_solver. }
  pose proof M as [= Mb Me Mp _ _ _ _ _ _].
  unfold bigalloc_init. rewrite (bind_Done _ _ _ _ _ E), (bind_Done _ _ _ (ba s1 b) s1), Mb, Me by done.
  erewrite bind_Done; [|apply memset_release_fill].
  2:{ unfold NBIGALLOCS in Rb. lia. } 2:{ apply sane_pages; lia. }
  set (n := PAGE_DIST _ _). set (p0 := PAGENUM _).
  eexists. split; [done|]. split; [split|].
  - apply (lk_wf _ _ _ L).
  - apply (index_attached s _ b); [done|done| | | |].
    + intros i. unfold used. rewrite ba_fill. apply (lk_used _ _ _ L).
    + intros i N. rewrite ba_fill. pose proof (lk_meta _ _ _ L i N) as [= -> -> -> _ _ _ _ _ _]. done.
    + intros c. unfold used. rewrite !ba_fill. intros Uc. apply (lk_used _ _ _ L) in Uc as [->|Uc].
      * rewrite Mp. unfold fits in Fit. case_decide; [lia|]. destruct Fit as (U & _). by intros ->.
      * assert (c <> b) by (by intros ->). pose proof (lk_meta _ _ _ L c ltac:(done)) as [= _ _ -> _ _ _ _ _ _].
        apply (no_free_parent s); [done..|lia].
    + intros p Hp. rewrite pi_fill, (lk_pi _ _ _ L), covers_pages by (rewrite ba_fill; lia).
      rewrite !ba_fill, Mb, Me. unfold n, p0. rewrite page_dist_up_down, pagenum_round_up by lia.
      case_decide; [left|right]; (split; [lia|done]).
  - rewrite START_fill. apply (lk_log _ _ _ L).
  - destruct (fill_pages_big (Z.to_nat n) p0 b s1) as (_ & _ & ->). apply (lk_log _ _ _ L).
  - intros i. unfold used. rewrite ba_fill. apply (lk_used _ _ _ L).
  - intros i N. rewrite ba_fill. by apply (lk_meta _ _ _ L).
  - rewrite ba_fill. apply (lk_leaf _ _ _ L).
  - by rewrite ba_fill.
Qed.

(** ** Finding a free record *)

Lemma find_free_from_ok k p s :
  (exists i, p <= i < p + Z.of_nat k /\ ~ used s i /\ (forall j, p <= j < i -> used s j) /\
     find_free_from (B := release) k p s = Done (i, s)) \/
  ((forall j, p <= j < p + Z.of_nat k -> used s j) /\ find_free_from (B := release) k p s = Abort).
Proof.
  revert p. induction k as [|k IH]; intros p; [right; split; [lia|done]|].
  cbn [find_free_from]. rewrite (bind_Done _ _ _ tt s), (bind_Done _ _ _ (BIGALLOC_IN_USE (ba s p)) s) by done.
  destruct (BIGALLOC_IN_USE (ba s p)) eqn:Eu.
  - apply in_use_used in Eu. destruct (IH (p + 1)) as [(i & Hi & Nu & Hj & E)|[Hj E]].
    + left. exists i. split_and!; [lia..|done| |done]. intros j Hj'.
      destruct (decide (j = p)) as [->|]; [done|]. apply Hj. lia.
    + right. split; [|done]. intros j Hj'. destruct (decide (j = p)) as [->|]; [done|]. apply Hj. lia.
  - left. exists p. split_and!; [lia..| |lia|done]. rewrite <- in_use_used. congruence.
Qed.

(** The first free record, if there is one; the code aborts otherwise. *)
Definition first_free (s : state) (b : Z) : Prop :=
  1 <= b < NBIGALLOCS /\ ~ used s b /\ forall j, 1 <= j < b -> used s j.

Lemma find_free_bigalloc_ok s :
  (exists b, first_free s b /\ find_free_bigalloc (B := release) s = Done (b, s)) \/
  ((forall j, 1 <= j < NBIGALLOCS -> used s j) /\ find_free_bigalloc (B := release) s = Abort).
Proof.
  destruct (find_free_from_ok (Z.to_nat (NBIGALLOCS - 1)) 1 s) as [(i & Hi & Nu & Hj & E)|[Hj E]].
  - left. exists i. split; [|done]. split_and!; [..|done|done]; rewrite Z2Nat.id in Hi; unfold NBIGALLOCS in *; lia.
  - right. split; [|done]. intros j Hj'. apply Hj. rewrite Z2Nat.id; unfold NBIGALLOCS in *; lia.
Qed.

Lemma bigalloc_new_ok s b ptr size P ap apf ab :
  wf s -> index_ok s -> first_free s b ->
  0 <= size <= BIGGEST_SANE_USER_ALLOC -> fits s P ptr (ptr + size) ->
  exists s', bigalloc_new (B := release) ptr size P ap apf ab s = Done (b, s') /\
    created s s' b /\ meta (ba s' b) = (ptr, ptr + size, P, ab, 0, ap, apf, 0, 0).
Proof.
  intros W I (Rb & Nb & Hb) Hs Fit.
  destruct (bigalloc_init_ok s b ptr size P ap apf ab 0 0 0) as (s' & E & C & M); [done..|].
  exists s'. split; [|done]. unfold bigalloc_new.
  destruct (find_free_bigalloc_ok s) as [(b' & (R' & N' & H') & E')|[Hf _]].
  - assert (b' = b) as ->.
    { destruct (Z.lt_trichotomy b' b) as [?|[?|?]]; [|done|]; [destruct N'|destruct Nb]; auto with lia. }
    by rewrite (bind_Done _ _ _ _ _ E'), (bind_Done _ _ _ _ _ E).
  - destruct Nb. by apply Hf.
Qed.
End create.
