(* ===== verification/Detach.v ===== *)
(** Detaching a childless bigalloc from the forest, from its parent's list
    or from the top-level list, and handing its pages to the parent. *)
From S2P Require Import Prelude DList Vas BigAlloc BigAllocFacts Forest Traversal Toplevel.

(** The effect of unlinking [b] and clearing its range. *)
Record removed (s s' : state) (b : Z) : Prop := {
  rm_gone : ~ used s' b;
  rm_parent0 : parent (ba s' b) = 0;
  rm_begin i : i <> b -> b_begin (ba s' i) = b_begin (ba s i);
  rm_end i : i <> b -> b_end (ba s' i) = b_end (ba s i);
  rm_parent i : i <> b -> parent (ba s' i) = parent (ba s i);
  rm_first i : used s i -> i <> b -> first_child (ba s' i) =
    if decide (first_child (ba s i) = b) then next_sib (ba s b) else first_child (ba s i);
  rm_next i : i <> b -> i <> 0 -> next_sib (ba s' i) =
    if decide (i = prev_sib (ba s b)) then next_sib (ba s b) else next_sib (ba s i);
  rm_prev i : i <> b -> i <> 0 -> prev_sib (ba s' i) =
    if decide (i = next_sib (ba s b)) then prev_sib (ba s b) else prev_sib (ba s i);
  rm_null : null_fields (ba s' 0) = null_fields (ba s 0);
}.

Definition leaf (s : state) (b : Z) : Prop := forall c, used s c -> parent (ba s c) <> b.

(** The neighbours of a member of a linked list are members. *)
Lemma dseg_neighbours s p q l x :
  dseg s 0 p q 0 l -> x ∈ l ->
  (prev_sib (ba s x) = 0 \/ prev_sib (ba s x) ∈ l) /\
  (next_sib (ba s x) = 0 \/ next_sib (ba s x) ∈ l).
Proof.
  intros D (l1 & l2 & ->)%list_elem_of_split. apply dseg_app in D as (j & jn & D1 & D2).
  simpl in D2. destruct D2 as (-> & -> & D2). split.
  - destruct l1 as [|y l1 _] using rev_ind; simpl in D1; [naive_solver|].
    apply dseg_snoc in D1 as (-> & _). right. set_solver.
  - destruct l2 as [|y l2]; simpl in D2; [naive_solver|]. destruct D2 as (-> & _). right. set_solver.
Qed.

Section detach.
Context {V : Vas} {VL : VasLaws V}.

(** The list that holds [b]. *)
Lemma siblings_list s b :
  wf s -> used s b -> exists l f, NoDup l /\ chain s f l /\ (0 ∉ l) /\ b ∈ l /\
    forall c, c ∈ l <-> used s c /\ parent (ba s c) = parent (ba s b).
Proof.
  intros W U. destruct (decide (parent (ba s b) = 0)) as [E|N].
  - destruct (wf_roots _ W) as [l R]. pose proof R as (ND & [f C] & K & _). exists l, f.
    split_and!; [done..|by apply (roots_nonzero s)|by apply K|]. intros c. by rewrite K, E.
  - destruct (wf_kids _ W _ (parent_used s b W U N)) as [l R]. pose proof R as (ND & C & K).
    exists l, (first_child (ba s (parent (ba s b)))).
    split_and!; [done..|by eapply kids_nonzero|by apply K|done].
Qed.

Section removed.
Context (s s' : state) (b : Z) (W : wf s) (U : used s b) (L : leaf s b) (R : removed s s' b).

Lemma rm_used i : used s' i <-> used s i /\ i <> b.
Proof.
  destruct (decide (i = b)) as [->|N].
  - pose proof (rm_gone _ _ _ R). naive_solver.
  - unfold used. rewrite (rm_begin _ _ _ R), (rm_end _ _ _ R) by done. naive_solver.
Qed.

Lemma rm_links c :
  used s c -> parent (ba s c) <> parent (ba s b) ->
  prev_sib (ba s' c) = prev_sib (ba s c) /\ next_sib (ba s' c) = next_sib (ba s c).
Proof.
  intros Uc P. assert (c <> b) by (by intros ->). assert (c <> 0) by by apply (used_nonzero s).
  destruct (siblings_list s b W U) as (l & f & ND & [q C] & Nz & Hb & K).
  destruct (dseg_neighbours s f q l b C Hb) as [Hp Hn].
  assert (c ∉ l) by (intros Hc; apply K in Hc; naive_solver).
  rewrite (rm_prev _ _ _ R), (rm_next _ _ _ R) by done.
  split; (rewrite decide_False; [done|]); intros ->; naive_solver.
Qed.

(** A list without [b] is unchanged; the list of [b] loses it. *)
Lemma rm_list_other f (l : list Z) (p : Z) :
  p <> parent (ba s b) -> (forall c, c ∈ l <-> used s c /\ parent (ba s c) = p) ->
  chain s f l -> chain s' f l.
Proof.
  intros Np K [q C]. exists q. eapply dseg_ext; [|done]. intros c [Uc Pc]%K.
  apply rm_links; [done|congruence].
Qed.

Lemma rm_list_own f l1 l2 :
  NoDup (l1 ++ b :: l2) -> 0 ∉ (l1 ++ b :: l2) -> chain s f (l1 ++ b :: l2) ->
  chain s' (match l1 with [] => next_sib (ba s b) | _ => f end) (l1 ++ l2).
Proof.
  intros ND H0 [q C]. apply (dseg_remove s s' 0 f q 0 l1 b l2); try done.
  - intros y Hy. apply (rm_next _ _ _ R); [|set_solver]. intros ->.
    apply NoDup_app in ND as (_ & Hd & [Hb _]%NoDup_cons). set_solver.
  - intros y Hy. apply (rm_prev _ _ _ R); [|set_solver]. intros ->.
    apply NoDup_app in ND as (_ & Hd & [Hb _]%NoDup_cons). set_solver.
Qed.

Lemma rm_members l1 l2 p :
  NoDup (l1 ++ b :: l2) -> (forall c, c ∈ l1 ++ b :: l2 <-> used s c /\ parent (ba s c) = p) ->
  forall c, c ∈ l1 ++ l2 <-> used s' c /\ parent (ba s' c) = p.
Proof.
  intros ND K c. rewrite rm_used. apply NoDup_app in ND as (_ & Hd & [Hb _]%NoDup_cons).
  destruct (decide (c = b)) as [->|N].
  - split; [|naive_solver]. intros [Hc|Hc]%elem_of_app; [|done]. exfalso. apply (Hd b Hc). by left.
  - rewrite (rm_parent _ _ _ R) by done. specialize (K c).
    rewrite elem_of_app, elem_of_cons in K. rewrite elem_of_app. tauto.
Qed.

Lemma rm_members_other (l : list Z) p :
  p <> parent (ba s b) -> (forall c, c ∈ l <-> used s c /\ parent (ba s c) = p) ->
  forall c, c ∈ l <-> used s' c /\ parent (ba s' c) = p.
Proof.
  intros Np K c. rewrite rm_used, K. destruct (decide (c = b)) as [->|N]; [naive_solver|].
  rewrite (rm_parent _ _ _ R) by done. naive_solver.
Qed.

(** The children of a survivor: the same list, less [b]. *)
Lemma rm_kids_own l1 l2 :
  parent (ba s b) <> 0 -> kids s (parent (ba s b)) (l1 ++ b :: l2) ->
  kids s' (parent (ba s b)) (l1 ++ l2).
Proof.
  intros Np K0. pose proof (kids_nonzero _ _ _ W K0) as Nz. destruct K0 as (ND & C & K).
  assert (parent (ba s b) <> b) by by apply L.
  pose proof (rm_list_own _ _ _ ND Nz C) as C'.
  pose proof ND as (? & Hd & [Hb ?]%NoDup_cons)%NoDup_app.
  split_and!; [apply NoDup_app; set_solver| |by apply rm_members].
  rewrite (rm_first _ _ _ R); [|by apply parent_used|done]. destruct C as [q C].
  destruct l1 as [|x l1]; simpl in C; destruct C as (E & _); rewrite E.
  - by rewrite decide_True.
  - rewrite decide_False by set_solver. by rewrite E in C'.
Qed.

Lemma rm_kids_other i l :
  used s i -> i <> b -> i <> parent (ba s b) -> kids s i l -> kids s' i l.
Proof.
  intros Ui N Np (ND & C & K). split_and!; [done| |by apply rm_members_other].
  rewrite (rm_first _ _ _ R) by done. rewrite decide_False.
  - by eapply rm_list_other.
  - intros E. destruct (first_child_kid s i W Ui) as [E0|[_ P]]; [|congruence].
    apply (used_nonzero s b W U). congruence.
Qed.

Lemma rm_kids i : used s' i -> exists l, kids s' i l.
Proof.
  intros [Ui N]%rm_used. destruct (wf_kids _ W i Ui) as [l K].
  destruct (decide (i = parent (ba s b))) as [->|Np]; [|exists l; by apply rm_kids_other].
  assert (b ∈ l) as (l1 & l2 & ->)%list_elem_of_split by by apply K.
  exists (l1 ++ l2). apply rm_kids_own; [by apply (used_nonzero s)|done].
Qed.

Lemma rm_precedes (l : list Z) : b ∉ l -> StronglySorted (precedes s) l -> StronglySorted (precedes s') l.
Proof.
  intros Hb S. induction S as [|x l S IH F]; constructor; [apply IH; set_solver|].
  rewrite Forall_forall in F |- *. intros y Hy. specialize (F y Hy). unfold precedes in *.
  rewrite (rm_end _ _ _ R), (rm_begin _ _ _ R); [done|set_solver..].
Qed.

Lemma rm_roots : exists l, roots s' l.
Proof.
  destruct (wf_roots _ W) as [l R0]. pose proof (roots_nonzero s l W R0) as Nz.
  destruct R0 as (ND & [f C] & K & S).
  destruct (decide (parent (ba s b) = 0)) as [E|N].
  - assert (b ∈ l) as (l1 & l2 & ->)%list_elem_of_split by by apply K.
    pose proof ND as (? & Hd & [Hb ?]%NoDup_cons)%NoDup_app.
    pose proof S as (S1 & [S2 _]%StronglySorted_inv & HR)%sorted_app_inv.
    exists (l1 ++ l2). split_and!.
    + apply NoDup_app. set_solver.
    + eexists. by apply (rm_list_own f).
    + intros c. apply rm_members; [done|]. intros c'. by rewrite K.
    + apply rm_precedes; [set_solver|]. apply sorted_app; [done..|]. intros x y Hx Hy.
      apply HR; [done|by right].
  - exists l. split_and!; [done| | |].
    + exists f. by eapply (rm_list_other f l 0).
    + by apply rm_members_other.
    + apply rm_precedes; [|done]. intros Hb. by apply K in Hb as [_ ?].
Qed.

Lemma wf_removed : wf s'.
Proof.
  assert (Hp : forall i, used s' i -> used s i /\ i <> b /\ parent (ba s' i) = parent (ba s i) /\
    b_begin (ba s' i) = b_begin (ba s i) /\ b_end (ba s' i) = b_end (ba s i)).
  { intros i [Ui N]%rm_used.
    by rewrite (rm_parent _ _ _ R), (rm_begin _ _ _ R), (rm_end _ _ _ R). }
  split; [.. |by rewrite (rm_null _ _ _ R), (wf_null _ W)].
  - intros i (Ui & _)%Hp. by apply (wf_range _ W).
  - intros i (Ui & N & _ & -> & ->)%Hp. by apply (wf_bounds _ W).
  - intros i (Ui & N & -> & -> & ->)%Hp Np. destruct (wf_parent _ W i Ui Np) as (Upar & ? & ?).
    assert (parent (ba s i) <> b) by by apply L.
    by rewrite rm_used, (rm_begin _ _ _ R), (rm_end _ _ _ R).
  - apply rm_kids.
  - apply rm_roots.
  - intros i j (Ui & Ni & -> & Bi & Ei)%Hp (Uj & Nj & -> & Bj & Ej)%Hp N E.
    unfold precedes. rewrite Bi, Ei, Bj, Ej. by apply (wf_disjoint _ W).
  - intros i Ni. destruct (decide (i = b)) as [->|N]; [apply (rm_parent0 _ _ _ R)|].
    rewrite (rm_parent _ _ _ R) by done. apply (wf_free _ W). rewrite rm_used in Ni. naive_solver.
  - destruct (wf_rank _ W) as [rk Hrk]. exists rk. intros i (Ui & _ & -> & _)%Hp. by apply Hrk.
  - intros i (Ui & _ & -> & -> & ->)%Hp. by apply (wf_aligned _ W).
Qed.
End removed.

(** ** The page index after detaching *)

Lemma covers_disjoint s i j p :
  wf s -> used s i -> used s j -> parent (ba s i) = parent (ba s j) ->
  covers s i p -> covers s j p -> i = j.
Proof.
  intros W Ui Uj P Ci Cj. apply (siblings_same s i j (p * PAGE_SIZE)); try done;
    unfold contains, covers, PAGE_SIZE in *; lia.
Qed.

(** Every bigalloc spanning a page is an ancestor of a deepest one. *)
Lemma covering_chain s i j p :
  wf s -> used s i -> covers s i p ->
  (forall c, used s c -> parent (ba s c) = i -> ~ covers s c p) ->
  used s j -> covers s j p -> ancestor s j i.
Proof.
  intros W Ui Ci Hi. revert j.
  apply (wf_ind s (fun j => covers s j p -> ancestor s j i) W).
  intros j Uj IH Cj. destruct (decide (parent (ba s j) = 0)) as [E|N].
  - destruct (root_exists s i W Ui) as (r & A & Ur & Er).
    pose proof (ancestor_covers s r i p W Ui A Ci) as Cr.
    assert (j = r) as -> by (eapply covers_disjoint; eauto; congruence). done.
  - assert (A := IH N (covers_parent _ _ _ W Uj N Cj)).
    destruct (decide (parent (ba s j) = i)) as [E|Ne]; [by destruct (Hi j Uj E)|].
    destruct (ancestor_child _ _ _ A Ne) as (c & Ac & Uc & Pc).
    pose proof (ancestor_covers s c i p W Ui Ac Ci) as Cc.
    assert (j = c) as -> by (eapply covers_disjoint; eauto; congruence). done.
Qed.

Lemma leaf_ancestor s b d : leaf s b -> ancestor s b d -> d = b.
Proof.
  intros L A. destruct (decide (b = d)) as [|N]; [done|].
  destruct (ancestor_child _ _ _ A N) as (c & _ & U & P). by destruct (L c U).
Qed.

Lemma index_detached s s' b :
  wf s -> index_ok s -> used s b -> leaf s b ->
  (forall i, used s' i <-> used s i /\ i <> b) ->
  (forall i, i <> b -> b_begin (ba s' i) = b_begin (ba s i) /\
     b_end (ba s' i) = b_end (ba s i) /\ parent (ba s' i) = parent (ba s i)) ->
  (forall p, 0 <= p < NPAGES -> (covers s b p /\ pi s' p = parent (ba s b)) \/
     (~ covers s b p /\ pi s' p = pi s p)) ->
  index_ok s'.
Proof.
  intros W I U L HU Hsame Hpi p Hp.
  assert (Hcov : forall i, i <> b -> covers s' i p <-> covers s i p).
  { intros i Ni. unfold covers. destruct (Hsame i Ni) as (-> & -> & _). done. }
  assert (Hpar : forall i, i <> b -> parent (ba s' i) = parent (ba s i)) by naive_solver.
  assert (Hleaf : forall c, used s c -> parent (ba s c) = b -> ~ covers s c p).
  { intros c Uc Pc. by destruct (L c Uc). }
  destruct (Hpi p Hp) as [[C ->]|[C ->]].
  - destruct (decide (parent (ba s b) = 0)) as [E|N]; [left; split; [done|]|right].
    + intros i [Ui Ni]%HU Ci. apply Hcov in Ci; [|done].
      pose proof (covering_chain s b i p W U C Hleaf Ui Ci) as A.
      destruct (ancestor_child _ _ _ A Ni) as (c & Ac & Uc & Pc).
      destruct (decide (c = b)) as [->|Ncb]; [|].
      * apply (used_nonzero s i W Ui). congruence.
      * unfold ancestor in Ac. apply rtc_inv in Ac as [?|(y & (_ & Hy & Ny) & _)]; congruence.
    + assert (parent (ba s b) <> b) by by apply L.
      split_and!; [apply HU; split; [by apply parent_used|done]| |].
      * rewrite Hcov by done. by apply covers_parent.
      * intros c [Uc Nc]%HU Pc Cc. rewrite Hcov in Cc by done. rewrite Hpar in Pc by done.
        apply Nc. by eapply (covers_disjoint s).
  - destruct (I p Hp) as [[-> Hn]|(Un & Cn & Hk)].
    + left. split; [done|]. intros i [Ui Ni]%HU Ci. apply Hcov in Ci; [|done]. by apply (Hn i).
    + assert (pi s p <> b) by (by intros <-). right.
      split_and!; [by apply HU|by apply Hcov|].
      intros c [Uc Nc]%HU Pc Cc. rewrite Hcov in Cc by done. rewrite Hpar in Pc by done.
      by apply (Hk c).
Qed.
End detach.
