(* ===== verification/Delete.v ===== *)
(** Deletion: [bigalloc_del] removes exactly the subtree of a bigalloc,
    children first, returns its pages to the parent and calls each private
    destructor once; the forest and the page index stay well formed. *)
From S2P Require Import Prelude DList Vas BigAlloc PageIndex BigAllocFacts Forest Traversal Toplevel.
From S2P Require Import Detach Traversal.

(** The destructor calls a record asks for. *)
Definition free_calls (r : big_allocation) : list (Z * Z) :=
  (if negb (allocator_private r =? 0) && negb (allocator_private_free r =? 0)
   then [(allocator_private_free r, allocator_private r)] else []) ++
  (if negb (suballocator_private_free r =? 0)
   then [(suballocator_private_free r, suballocator_private r)] else []).

Definition log_frees (l : list (Z * Z)) (s : state) : state :=
  State (big_allocations s) (pageindex s) (START s) (freed s ++ l).

Section delete.
Context {V : Vas} {VL : VasLaws V} {H : Hooks}.

(** ** Unlinking as a state transformer *)

Definition unlink_st (b : Z) (s : state) : state :=
  let r := ba s b in
  let s1 := if b =? first_child (ba s (parent r)) then upd (parent r) (set_first_child (next_sib r)) s else s in
  let s2 := if prev_sib r =? 0 then s1 else upd (prev_sib r) (set_next_sib (next_sib r)) s1 in
  let s3 := if next_sib r =? 0 then s2 else upd (next_sib r) (set_prev_sib (prev_sib r)) s2 in
  upd b (fun r => set_parent 0 (set_next_sib 0 (set_prev_sib 0 r))) s3.

Definition unlink_top_st (b : Z) (s : state) : state :=
  let r := ba s b in
  let s2 := if prev_sib r =? 0 then s else upd (prev_sib r) (set_next_sib (next_sib r)) s in
  if next_sib r =? 0 then s2 else upd (next_sib r) (set_prev_sib (prev_sib r)) s2.

Lemma unlink_child_eq b s :
  parent (ba s b) <> 0 -> parent (ba s b) <> b -> prev_sib (ba s b) <> b ->
  unlink_child (B := release) b s = Done (tt, unlink_st b s).
Proof.
  intros Np Nb Nps. unfold unlink_child, unlink_st.
  cbv [sanity_check_bigalloc assert NDEBUG release rd wr gets modify mbind M_bind mret M_ret when].
  rewrite (proj2 (Z.eqb_neq _ 0) Np).
  assert (E : forall f, ba (upd (parent (ba s b)) f s) b = ba s b) by (intros; by rewrite ba_upd_ne).
  destruct (b =? first_child (ba s (parent (ba s b)))); cbn;
    destruct (Z.eqb_spec (prev_sib (ba s b)) 0) as [E0|N0]; cbn; rewrite ?E0;
    repeat (rewrite ba_upd_ne by done);
    rewrite ?E0; by destruct (next_sib (ba s b) =? 0).
Qed.

Lemma unlink_toplevel_eq b s :
  unlink_toplevel b s = Done (tt, unlink_top_st b s).
Proof.
  unfold unlink_toplevel, unlink_top_st.
  cbv [rd wr gets modify mbind M_bind mret M_ret when].
  by destruct (prev_sib (ba s b) =? 0), (next_sib (ba s b) =? 0).
Qed.

(** Deleting a childless bigalloc. *)
Definition del_leaf_st (b : Z) (s : state) : state :=
  let p := parent (ba s b) in
  let s1 := log_frees (free_calls (ba s b)) s in
  let s2 := if p =? 0 then unlink_top_st b s1 else unlink_st b s1 in
  upd b (fun r => set_end 0 (set_begin 0 r))
    (fill_pages (Z.to_nat (PAGE_DIST (ROUND_UP (b_begin (ba s b)) PAGE_SIZE) (ROUND_DOWN (b_end (ba s b)) PAGE_SIZE)))
       (PAGENUM (ROUND_UP (b_begin (ba s b)) PAGE_SIZE)) p s2).

Lemma ba_log_frees l s i : ba (log_frees l s) i = ba s i.
Proof. done. Qed.

Lemma removed_leaf_st b s :
  b <> 0 -> parent (ba s b) <> b -> prev_sib (ba s b) <> b -> next_sib (ba s b) <> b ->
  (prev_sib (ba s b) <> 0 -> prev_sib (ba s b) <> next_sib (ba s b)) ->
  (forall i, used s i -> first_child (ba s i) = b -> i = parent (ba s b)) ->
  ~ used s 0 ->
  removed s (del_leaf_st b s) b.
Proof.
  intros Nz Np Nps Nns Npn Hf U0. unfold del_leaf_st, unlink_st, unlink_top_st.
  rewrite ba_log_frees.
  assert (Hz : forall p x s' i, ba (fill_pages p x (parent (ba s b)) s') i = ba s' i) by (intros; apply ba_fill).
  destruct (Z.eqb_spec (parent (ba s b)) 0) as [E|N].
  all: destruct (Z.eqb_spec (prev_sib (ba s b)) 0), (Z.eqb_spec (next_sib (ba s b)) 0).
  all: try destruct (Z.eqb_spec b (first_child (ba (log_frees (free_calls (ba s b)) s) (parent (ba s b))))) as [Eb|Nf].
  all: rewrite ?ba_log_frees in *.
  all: split; intros; try (unfold used at 1); rewrite ?ba_upd, ?Hz, ?ba_upd, ?ba_log_frees.
  all: repeat case_decide; subst; cbn [b_begin b_end first_child next_sib parent prev_sib set_begin set_end set_first_child set_next_sib set_parent set_prev_sib] in *; try done; try tauto; try congruence.
  all: match goal with Hf : forall i, used ?s i -> _ -> _, N : used ?s ?i |- _ =>
    specialize (Hf i N ltac:(reflexivity || assumption)); congruence end.
Qed.

(** The neighbours of a live bigalloc. *)
Lemma sibling_links s b :
  wf s -> used s b ->
  prev_sib (ba s b) <> b /\ next_sib (ba s b) <> b /\
  (prev_sib (ba s b) <> 0 -> prev_sib (ba s b) <> next_sib (ba s b)).
Proof.
  intros W U. destruct (siblings_list s b W U) as (l & f & ND & [q D] & Nz & Hb & _).
  apply list_elem_of_split in Hb as (l1 & l2 & ->).
  apply NoDup_app in ND as (_ & Hd & [Hb _]%NoDup_cons).
  apply dseg_app in D as (j & jn & D1 & D2). simpl in D2. destruct D2 as (-> & <- & D2).
  assert (Hp : prev_sib (ba s b) = 0 \/ prev_sib (ba s b) ∈ l1).
  { destruct l1 as [|y l1 _] using rev_ind; simpl in D1; [by left; destruct D1|].
    apply dseg_snoc in D1 as (-> & _). set_solver. }
  assert (Hn : next_sib (ba s b) = 0 \/ next_sib (ba s b) ∈ l2).
  { destruct l2 as [|y l2]; simpl in D2; [by left; destruct D2|].
    destruct D2 as (-> & _). set_solver. }
  assert (b <> 0) by set_solver.
  split_and!.
  - intros E. destruct Hp as [?|Hp]; [congruence|]. rewrite E in Hp. apply (Hd b Hp). by left.
  - intros E. destruct Hn as [?|Hn]; [congruence|]. by rewrite E in Hn.
  - intros N E. destruct Hp as [?|Hp]; [done|]. destruct Hn as [?|Hn]; [congruence|].
    rewrite <- E in Hn. apply (Hd _ Hp). by right.
Qed.

Lemma first_child_parent s b i :
  wf s -> used s b -> used s i -> first_child (ba s i) = b -> i = parent (ba s b).
Proof.
  intros W U Ui E. destruct (first_child_kid s i W Ui) as [E0|[_ P]]; [|congruence].
  destruct (used_nonzero s b W U). congruence.
Qed.

(** ** One deletion step *)

Definition unlinked_st (b : Z) (s : state) : state :=
  if parent (ba s b) =? 0 then unlink_top_st b s else unlink_st b s.

Lemma unlinked_range b s :
  prev_sib (ba s b) <> b -> next_sib (ba s b) <> b -> parent (ba s b) <> b ->
  b_begin (ba (unlinked_st b s) b) = b_begin (ba s b) /\
  b_end (ba (unlinked_st b s) b) = b_end (ba s b).
Proof.
  intros. unfold unlinked_st, unlink_top_st, unlink_st.
  destruct (parent (ba s b) =? 0), (prev_sib (ba s b) =? 0), (next_sib (ba s b) =? 0),
    (b =? first_child (ba s (parent (ba s b)))); rewrite ?ba_upd_eq; cbn;
    repeat (rewrite ba_upd_ne by done); done.
Qed.

Lemma free_steps r s :
  (when (negb (allocator_private r =? 0) && negb (allocator_private_free r =? 0))
     (modify (log_free (allocator_private_free r) (allocator_private r))) ;;
   when (negb (suballocator_private_free r =? 0))
     (modify (log_free (suballocator_private_free r) (suballocator_private r)))) s
  = Done (tt, log_frees (free_calls r) s).
Proof.
  unfold free_calls, log_frees, mbind, M_bind, when.
  destruct (negb (allocator_private r =? 0) && negb (allocator_private_free r =? 0)),
    (negb (suballocator_private_free r =? 0)); cbn; unfold log_free, modify; cbn;
    rewrite <- ?app_assoc, ?app_nil_r; by destruct s.
Qed.

Lemma del_rec_eq fuel b s s1 :
  bigalloc_del_children (B := release) fuel (first_child (ba s b)) s = Done (tt, s1) ->
  wf s1 -> used s1 b -> sane s1 ->
  bigalloc_del_rec (B := release) (S fuel) b s = Done (tt, del_leaf_st b s1).
Proof.
  intros E W U Sn. cbn [bigalloc_del_rec].
  rewrite (bind_Done _ _ _ tt s) by done.
  rewrite (bind_Done _ _ _ (first_child (ba s b)) s) by done.
  rewrite (bind_Done _ _ _ _ _ E), (bind_Done _ _ _ (ba s1 b) s1) by done.
  set (s2 := log_frees (free_calls (ba s1 b)) s1).
  destruct (sibling_links s1 b W U) as (Hp & Hn & _).
  pose proof (parent_not_self s1 b W U) as Hs.
  pose proof (wf_bounds _ W b U) as Hb. pose proof (Sn b U) as Hsz.
  match goal with |- (?a ≫= fun _ => ?b ≫= fun _ => ?c) s1 = _ =>
    transitivity (((a ≫= fun _ => b) ≫= fun _ => c) s1) end.
  { unfold mbind, M_bind. by repeat case_match; simplify_eq. }
  rewrite (bind_Done _ _ _ _ _ (free_steps (ba s1 b) s1)). fold s2.
  rewrite (bind_Done _ _ _ (parent (ba s1 b)) s2) by done.
  rewrite (bind_Done _ _ _ tt (unlinked_st b s2)).
  2:{ unfold unlinked_st. change (parent (ba s2 b)) with (parent (ba s1 b)).
      destruct (Z.eqb_spec (parent (ba s1 b)) 0); simpl;
        [apply unlink_toplevel_eq|by apply unlink_child_eq]. }
  rewrite (bind_Done _ _ _ tt (unlinked_st b s2)) by done.
  rewrite (bind_Done _ _ _ (ba (unlinked_st b s2) b) (unlinked_st b s2)) by done.
  destruct (unlinked_range b s2) as [-> ->]; [done..|].
  erewrite bind_Done; [|apply memset_release_fill].
  - done.
  - destruct (decide (parent (ba s1 b) = 0)) as [->|N]; [lia|].
    pose proof (wf_range _ W _ (parent_used s1 b W U N)). unfold NBIGALLOCS in *. lia.
  - apply sane_pages; change (ba s2 b) with (ba s1 b); lia.
Qed.

(** ** Pruning a set of bigallocs *)

(** From [s] to [s'] exactly the bigallocs in [D] have gone. *)
Record pruned (s s' : state) (D : Z -> Prop) : Prop := {
  pr_wf : wf s';
  pr_index : index_ok s';
  pr_start : START s' = START s;
  pr_used i : used s' i <-> used s i /\ ~ D i;
  pr_meta i : used s' i -> meta (ba s' i) = meta (ba s i);
  pr_kids i l : used s' i -> kids s i l -> kids s' i (filter (used s') l);
  pr_freed : exists order, NoDup order /\ (forall i, i ∈ order <-> used s i /\ D i) /\
    freed s' = freed s ++ concat (map (fun i => free_calls (ba s i)) order);
}.

Lemma free_calls_meta r r' : meta r = meta r' -> free_calls r = free_calls r'.
Proof. unfold meta, free_calls. by intros [= _ _ _ _ _ -> -> -> ->]. Qed.

Lemma pruned_dec s s' D i : pruned s s' D -> used s i -> D i \/ ~ D i.
Proof.
  intros P U. destruct (pr_freed _ _ _ P) as (o & _ & Ho & _).
  destruct (decide (i ∈ o)) as [Hi|Hi]; [left; by apply Ho|]. right. intros Di. apply Hi. by apply Ho.
Qed.

Lemma pruned_equiv s s' D D' :
  (forall i, used s i -> D i <-> D' i) -> pruned s s' D -> pruned s s' D'.
Proof.
  intros E [W I St U Me K (o & ND & Ho & Ef)]. split; try done.
  - intros i. rewrite U. split; intros [Ui Hi]; (split; [done|]); naive_solver.
  - exists o. split_and!; [done| |done]. intros i. rewrite Ho.
    split; intros [Ui Hi]; (split; [done|]); by apply E.
Qed.

Lemma pruned_trans s s1 s2 D1 D2 :
  pruned s s1 D1 -> pruned s1 s2 D2 -> pruned s s2 (fun i => D1 i \/ D2 i).
Proof.
  intros P1 P2. pose proof (pr_used _ _ _ P1) as U1. pose proof (pr_used _ _ _ P2) as U2.
  assert (U21 : forall i, used s2 i -> used s1 i) by (intros i Hi; by apply U2 in Hi as [? _]).
  split.
  - apply (pr_wf _ _ _ P2).
  - apply (pr_index _ _ _ P2).
  - rewrite (pr_start _ _ _ P2). apply (pr_start _ _ _ P1).
  - intros i. rewrite U2, U1. tauto.
  - intros i Ui. rewrite (pr_meta _ _ _ P2) by done. apply (pr_meta _ _ _ P1). auto.
  - intros i l Ui K. apply (pr_kids _ _ _ P1) in K; [|auto].
    apply (pr_kids _ _ _ P2) in K; [|done]. rewrite list_filter_filter_l in K; [done|auto].
  - destruct (pr_freed _ _ _ P1) as (o1 & ND1 & H1 & E1).
    destruct (pr_freed _ _ _ P2) as (o2 & ND2 & H2 & E2). exists (o1 ++ o2). split_and!.
    + apply NoDup_app. split_and!; [done| |done]. intros x Hx1%H1 Hx2%H2. apply Hx1.
      destruct Hx2 as [Hx2 _]. apply U1 in Hx2. naive_solver.
    + intros i. rewrite elem_of_app, H1, H2, U1. split; [tauto|]. intros [Ui Hi].
      destruct (pruned_dec s s1 D1 i P1 Ui); tauto.
    + rewrite E2, E1, map_app, concat_app, app_assoc. do 2 f_equal. apply map_ext_in.
      intros i [Hi Di]%list_elem_of_In%H2. apply free_calls_meta, (pr_meta _ _ _ P1). done.
Qed.

(** ** Deleting a childless bigalloc *)

Lemma removed_leaf s b : wf s -> used s b -> removed s (del_leaf_st b s) b.
Proof.
  intros W U. destruct (sibling_links s b W U) as (Hp & Hn & Hpn).
  apply removed_leaf_st; try done.
  - by apply (used_nonzero s).
  - by apply parent_not_self.
  - intros i Ui. by apply first_child_parent.
  - by apply not_used_0.
Qed.

Lemma meta_leaf s b i : b <> i -> meta (ba (del_leaf_st b s) i) = meta (ba s i).
Proof.
  intros N. unfold del_leaf_st, unlink_st, unlink_top_st. rewrite ba_upd_ne, ba_fill by done.
  rewrite !ba_log_frees.
  destruct (parent (ba s b) =? 0), (prev_sib (ba s b) =? 0), (next_sib (ba s b) =? 0),
    (b =? first_child (ba s (parent (ba s b))));
    rewrite ?(ba_upd_ne b) by done; repeat (rewrite field_upd by done); done.
Qed.

Lemma log_leaf s b :
  START (del_leaf_st b s) = START s /\ freed (del_leaf_st b s) = freed s ++ free_calls (ba s b).
Proof.
  unfold del_leaf_st, unlink_st, unlink_top_st. cbn [upd START freed].
  match goal with |- context [fill_pages ?k ?q ?v ?x] =>
    pose proof (fill_pages_big k q v x) as (_ & -> & ->) end.
  destruct (parent (ba s b) =? 0); rewrite !ba_log_frees;
    destruct (prev_sib (ba s b) =? 0), (next_sib (ba s b) =? 0),
    (b =? first_child (ba s (parent (ba s b)))); done.
Qed.

Lemma pi_leaf s b p :
  wf s -> used s b -> (covers s b p /\ pi (del_leaf_st b s) p = parent (ba s b)) \/
     (~ covers s b p /\ pi (del_leaf_st b s) p = pi s p).
Proof.
  intros W U. pose proof (wf_bounds _ W b U). rewrite covers_pages by lia.
  unfold del_leaf_st. rewrite pi_upd_ba, pi_fill.
  rewrite page_dist_up_down, pagenum_round_up by lia.
  assert (E : pi (if parent (ba s b) =? 0 then unlink_top_st b (log_frees (free_calls (ba s b)) s)
     else unlink_st b (log_frees (free_calls (ba s b)) s)) p = pi s p).
  { unfold unlink_st, unlink_top_st. destruct (parent (ba s b) =? 0); rewrite !ba_log_frees;
    destruct (prev_sib (ba s b) =? 0), (next_sib (ba s b) =? 0),
    (b =? first_child (ba s (parent (ba s b)))); done. }
  case_decide; [left|right]; (split; [lia|done]).
Qed.

Lemma pruned_leaf s b :
  wf s -> index_ok s -> used s b -> leaf s b -> pruned s (del_leaf_st b s) (fun i => i = b).
Proof.
  intros W I U L. pose proof (removed_leaf s b W U) as R.
  pose proof (rm_used s _ b R) as HU.
  pose proof (wf_removed s _ b W U L R) as W'.
  destruct (log_leaf s b) as [ES EF]. split; try done.
  - apply (index_detached s _ b); try done.
    + intros i N. by rewrite (rm_begin _ _ _ R), (rm_end _ _ _ R), (rm_parent _ _ _ R).
    + intros p _. by apply pi_leaf.
  - intros i [_ N]%HU. by apply meta_leaf.
  - intros i l [Ui N]%HU K. destruct (decide (i = parent (ba s b))) as [->|Np].
    + assert (b ∈ l) as (l1 & l2 & ->)%list_elem_of_split by by apply K.
      pose proof (rm_kids_own s _ b W U L R l1 l2 (used_nonzero _ _ W Ui) K) as K'.
      rewrite filter_app, filter_cons_False by (rewrite HU; naive_solver).
      rewrite !filter_id; [done| |]; intros x Hx; apply K'; set_solver.
    + pose proof (rm_kids_other s _ b W U R i l Ui N Np K) as K'.
      rewrite filter_id; [done|]. intros x Hx. by apply K'.
  - exists [b]. split_and!; [apply NoDup_singleton| |by rewrite EF; simpl; rewrite app_nil_r].
    intros i. rewrite list_elem_of_singleton. naive_solver.
Qed.

(** ** Deleting a subtree *)

Lemma pruned_sane s s' D : pruned s s' D -> sane s -> sane s'.
Proof.
  intros P Sn i Ui. pose proof (pr_meta _ _ _ P i Ui) as [= -> -> _ _ _ _ _ _ _].
  apply Sn. by apply (pr_used _ _ _ P).
Qed.

Lemma pruned_parent s s' D i : pruned s s' D -> used s' i -> parent (ba s' i) = parent (ba s i).
Proof. intros P Ui. by pose proof (pr_meta _ _ _ P i Ui) as [= _ _ -> _ _ _ _ _ _]. Qed.

(** Ancestry among the survivors is unchanged. *)
Lemma pruned_ancestor s s' D a d :
  pruned s s' D -> used s' d -> ancestor s' a d <-> ancestor s a d.
Proof.
  intros P Ud. split; intros A; revert Ud.
  - induction A as [d|d p a (U & Pd & Np) A IH]; intros Ud; [apply ancestor_refl|].
    pose proof (pruned_parent _ _ _ _ P Ud) as Ep. subst p. rewrite Ep in *.
    apply ancestor_step; [by apply (pr_used _ _ _ P)|done|]. apply IH. rewrite <- Ep.
    apply parent_used; [apply (pr_wf _ _ _ P)|done|congruence].
  - induction A as [d|d p a (U & <- & Np) A IH]; intros Ud; [apply ancestor_refl|].
    pose proof (pruned_parent _ _ _ _ P Ud) as Ep. rewrite <- Ep in Np, IH.
    apply ancestor_step; [done..|]. apply IH.
    apply parent_used; [apply (pr_wf _ _ _ P)|done..].
Qed.

Lemma pruned_live s s' D b :
  pruned s s' D -> used s b -> D b -> (size (live s') < size (live s))%nat.
Proof.
  intros P U Db. apply subset_size. split.
  - intros i. rewrite !elem_of_live. intros Ui. by apply (pr_used _ _ _ P).
  - intros Hs. specialize (Hs b). rewrite !elem_of_live, (pr_used _ _ _ P) in Hs. naive_solver.
Qed.

Lemma kids_first s b l : kids s b l -> first_child (ba s b) = first_of l.
Proof. intros (_ & [q D] & _). destruct l; [by destruct D|]. by destruct D as (-> & _). Qed.

Lemma kids_next s b c l : kids s b (c :: l) -> next_sib (ba s c) = first_of l.
Proof. intros (_ & [q (_ & _ & D)] & _). destruct l; [by destruct D|]. by destruct D as (-> & _). Qed.

Lemma path_bound s W b :
  NoDup W -> (forall w, w ∈ W -> used s w) -> used s b -> b ∉ W -> (length W < size (live s))%nat.
Proof.
  intros ND FW U N. assert (E : length (b :: W) = size (list_to_set (b :: W) : gset Z)).
  { rewrite size_list_to_set; [done|]. by apply NoDup_cons. }
  enough (length (b :: W) <= size (live s))%nat by (cbn [length] in *; lia).
  rewrite E. apply subseteq_size. intros i. rewrite elem_of_list_to_set, elem_of_live, elem_of_cons.
  intros [->|?]; auto.
Qed.

(** What is known of the path [W] to a bigalloc about to be deleted. *)
Record path (s : state) (W : list Z) (b : Z) : Prop := {
  path_nodup : NoDup W;
  path_used w : w ∈ W -> used s w;
  path_ancestor w : w ∈ W -> ancestor s w b;
}.

Lemma path_child s W b c :
  wf s -> path s W b -> used s c -> parent (ba s c) = b -> used s b -> path s W c /\ c ∉ W.
Proof.
  intros Wf [ND FU FA] Uc P Ub. split.
  - split; [done..|]. intros w Hw. eapply ancestor_trans; [by apply FA|]. rewrite <- P.
    apply ancestor_parent; [done|]. rewrite P. by apply (used_nonzero s).
  - intros Hc%FA. by apply (child_not_ancestor s c b).
Qed.

(** After the subtree of a child of [b] has gone, the path is still there. *)
Lemma path_pruned s s' W b c :
  wf s -> path s W b -> used s c -> parent (ba s c) = b -> used s b ->
  pruned s s' (ancestor s c) -> used s' b /\ path s' W b.
Proof.
  intros Wf [ND FU FA] Uc P Ub Pr.
  assert (Hs : forall w, used s w -> ancestor s w b -> used s' w).
  { intros w Uw Hw. apply (pr_used _ _ _ Pr). split; [done|]. intros A.
    apply (child_not_ancestor s c b Wf Uc P). by eapply ancestor_trans. }
  assert (used s' b) by (apply Hs; [done|apply ancestor_refl]). split; [done|].
  split; [done| |]; intros w Hw; [apply Hs; auto|].
  apply (pruned_ancestor s s' (ancestor s c)); auto.
Qed.

(** The children of [b] that remain once its first child has gone. *)
Lemma kids_pruned s s' b c l :
  wf s -> used s b -> used s' b -> kids s b (c :: l) -> pruned s s' (ancestor s c) -> kids s' b l.
Proof.
  intros W U U' K Pr. pose proof (pr_kids _ _ _ Pr b _ U' K) as K'.
  pose proof K as (ND & _ & M). apply NoDup_cons in ND as [Nc _].
  destruct (proj1 (M c) ltac:(left)) as [Uc Pc].
  rewrite filter_cons_False in K' by (rewrite (pr_used _ _ _ Pr); pose proof (ancestor_refl s c); tauto).
  rewrite filter_id in K'; [done|]. intros x Hx. apply (pr_used _ _ _ Pr).
  destruct (proj1 (M x) ltac:(by right)) as [Ux Px]. split; [done|]. intros A.
  assert (N : c <> x) by (by intros ->).
  unfold ancestor in A. apply rtc_inv in A as [?|(y & (_ & <- & _) & A)]; [congruence|].
  rewrite Px in A. by apply (child_not_ancestor s c b).
Qed.

(** A bigalloc without children: nothing below it. *)
Lemma pruned_no_kids s b :
  wf s -> index_ok s -> kids s b [] -> pruned s s (fun i => i <> b /\ ancestor s b i).
Proof.
  intros W I (_ & _ & M).
  assert (Hn : forall i, ~ (i <> b /\ ancestor s b i)).
  { intros i [N A]. destruct (ancestor_child _ _ _ A ltac:(done)) as (c & _ & Uc & Pc).
    assert (c ∈ (@nil Z)) as []%elem_of_nil by by apply M. }
  split; try done.
  - intros i. specialize (Hn i). tauto.
  - intros i l _ K. rewrite filter_id; [done|]. intros x Hx. by apply K.
  - exists []. split_and!; [constructor| |by rewrite app_nil_r]. intros i. rewrite elem_of_nil.
    specialize (Hn i). tauto.
Qed.

(** The subtree of the first child, then those of the others. *)
Lemma strict_descendants s s1 b c :
  wf s -> used s b -> used s c -> parent (ba s c) = b -> pruned s s1 (ancestor s c) ->
  forall i, used s i ->
    (ancestor s c i \/ (i <> b /\ ancestor s1 b i)) <-> (i <> b /\ ancestor s b i).
Proof.
  intros W Ub Uc Pc Pr i Ui.
  assert (Abc : ancestor s b c).
  { rewrite <- Pc. apply ancestor_parent; [done|]. rewrite Pc. by apply (used_nonzero s). }
  split.
  - intros [A|[N A]].
    + split; [|by eapply ancestor_trans]. intros ->. by apply (child_not_ancestor s c b).
    + split; [done|]. apply (pruned_ancestor s s1 _ b i Pr); [|done].
      unfold ancestor in A. by apply rtc_inv in A as [?|(y & (? & _) & _)].
  - intros [N A]. destruct (pruned_dec _ _ _ i Pr Ui) as [D|D]; [by left|right].
    split; [done|]. apply (pruned_ancestor s s1 _ b i Pr); [|done]. by apply (pr_used _ _ _ Pr).
Qed.

Lemma del_aux fuel :
  (forall s b W, wf s -> index_ok s -> sane s -> used s b -> path s W b -> b ∉ W ->
     (2 * (size (live s) - length W) <= fuel)%nat ->
     exists s', bigalloc_del_rec (B := release) fuel b s = Done (tt, s') /\ pruned s s' (ancestor s b)) /\
  (forall s b l W, wf s -> index_ok s -> sane s -> used s b -> kids s b l -> path s W b ->
     (2 * (size (live s) - length W) + 1 <= fuel)%nat ->
     exists s', bigalloc_del_children (B := release) fuel (first_child (ba s b)) s = Done (tt, s') /\
       pruned s s' (fun i => i <> b /\ ancestor s b i)).
Proof.
  induction fuel as [|fuel [IHr IHc]]; split.
  - intros s b W Wf I Sn U Pa N Hf.
    pose proof (path_bound s W b (path_nodup _ _ _ Pa) (path_used _ _ _ Pa) U N). lia.
  - intros. lia.
  - intros s b W Wf I Sn U Pa N Hf.
    pose proof (path_bound s W b (path_nodup _ _ _ Pa) (path_used _ _ _ Pa) U N).
    destruct (wf_kids _ Wf b U) as [l K].
    destruct (IHc s b l (b :: W)) as (s1 & E & Pr); try done.
    { split; [by apply NoDup_cons, (conj N), Pa| |]; intros w [->|Hw]%elem_of_cons;
        [done|by apply Pa|apply ancestor_refl|by apply Pa]. }
    { cbn [length]. lia. }
    assert (U1 : used s1 b) by (apply (pr_used _ _ _ Pr); naive_solver).
    pose proof (pr_wf _ _ _ Pr) as W1. pose proof (pr_index _ _ _ Pr) as I1.
    assert (L1 : leaf s1 b).
    { intros c Uc Pc. assert (Uc0 := Uc). apply (pr_used _ _ _ Pr) in Uc0 as [Uc0 Nc]. apply Nc.
      rewrite (pruned_parent _ _ _ _ Pr) in Pc by done. split.
      - intros ->. by apply (parent_not_self s b).
      - rewrite <- Pc. apply ancestor_parent; [done|]. rewrite Pc. by apply (used_nonzero s). }
    exists (del_leaf_st b s1). split.
    { apply (del_rec_eq fuel b s s1); [done..|by eapply pruned_sane]. }
    eapply pruned_equiv; [|by eapply pruned_trans; [exact Pr|apply pruned_leaf]].
    intros i Ui. simpl. destruct (decide (i = b)) as [->|Nib]; [|tauto].
    pose proof (ancestor_refl s b). tauto.
  - intros s b l W Wf I Sn U K Pa Hf. rewrite (kids_first _ _ _ K). destruct l as [|c l].
    { exists s. split; [done|]. by apply pruned_no_kids. }
    destruct (proj1 (proj2 (proj2 K) c) ltac:(left)) as [Uc Pc].
    destruct (path_child s W b c Wf Pa Uc Pc U) as [Pac Nc].
    destruct (IHr s c W) as (s1 & E1 & Pr1); try done; [lia|].
    destruct (path_pruned s s1 W b c Wf Pa Uc Pc U Pr1) as [U1 Pa1].
    pose proof (kids_pruned s s1 b c l Wf U U1 K Pr1) as K1.
    pose proof (pruned_live _ _ _ c Pr1 Uc (ancestor_refl s c)).
    pose proof (path_bound s W c (path_nodup _ _ _ Pac) (path_used _ _ _ Pac) Uc Nc).
    destruct (IHc s1 b l W) as (s2 & E2 & Pr2); try done;
      [apply Pr1|apply Pr1|by eapply pruned_sane|lia|].
    exists s2. split.
    + change (first_of (c :: l)) with c. cbn [bigalloc_del_children].
      rewrite (proj2 (Z.eqb_neq c 0)) by by apply (used_nonzero s).
      rewrite (bind_Done _ _ _ (next_sib (ba s c)) s) by done.
      rewrite (bind_Done _ _ _ _ _ E1), (kids_next _ _ _ _ K), <- (kids_first _ _ _ K1). done.
    + eapply pruned_equiv; [|by eapply pruned_trans; [exact Pr1|exact Pr2]].
      by apply strict_descendants.
Qed.

(** [bigalloc_del] terminates and removes exactly the subtree. *)
Lemma bigalloc_del_ok s b :
  wf s -> index_ok s -> sane s -> used s b ->
  exists s', bigalloc_del (B := release) b s = Done (tt, s') /\ pruned s s' (ancestor s b).
Proof.
  intros W I Sn U. apply (proj1 (del_aux FUEL) s b []); try done.
  - split; [constructor|set_solver|set_solver].
  - set_solver.
  - rewrite FUEL_eq. assert (size (live s) < NB)%nat; [|cbn [length]; lia].
    apply (used_nodup_length s W (elements (live s))); [apply NoDup_elements|].
    apply Forall_forall. intros x. by rewrite elem_of_elements, elem_of_live.
Qed.
End delete.
