(* ===== verification/Resize.v ===== *)
(** Resizing a bigalloc: extension, truncation, and extension at the beginning,
    which the stack needs, keep the forest well formed and the page index
    exact. *)
From S2P Require Import Prelude DList Vas BigAlloc PageIndex BigAllocFacts Forest Traversal Toplevel.
From S2P Require Import Attach Create Detach Delete.

(** [s'] is [s] with the range of [b] replaced; only the page index may also differ. *)
Record resized (s s' : state) (b nb ne : Z) : Prop := {
  rz_other i : i <> b -> ba s' i = ba s i;
  rz_self : ba s' b = set_begin nb (set_end ne (ba s b));
  rz_start : START s' = START s;
  rz_freed : freed s' = freed s;
}.

Section resize.
Context {V : Vas} {VL : VasLaws V}.

(** A range [b] may take: it meets the old one, holds the children of [b],
    stays inside the parent and clear of the siblings. *)
Record fits_range (s : state) (b nb ne : Z) : Prop := {
  fr_bounds : 0 < nb < ne /\ ne <= MAXIMUM_USER_ADDRESS + 1;
  fr_meets : nb < b_end (ba s b) /\ b_begin (ba s b) < ne;
  fr_parent : parent (ba s b) <> 0 ->
    b_begin (ba s (parent (ba s b))) <= nb /\ ne <= b_end (ba s (parent (ba s b)));
  fr_aligned : parent (ba s b) = 0 -> nb mod PAGE_SIZE = 0 /\ ne mod PAGE_SIZE = 0;
  fr_kids c : used s c -> parent (ba s c) = b -> nb <= b_begin (ba s c) /\ b_end (ba s c) <= ne;
  fr_siblings c : used s c -> c <> b -> parent (ba s c) = parent (ba s b) ->
    ne <= b_begin (ba s c) \/ b_end (ba s c) <= nb;
}.

Section resized.
Context (s s' : state) (b nb ne : Z).
Context (W : wf s) (U : used s b) (F : fits_range s b nb ne) (R : resized s s' b nb ne).

Lemma rz_links i : parent (ba s' i) = parent (ba s i) /\ first_child (ba s' i) = first_child (ba s i) /\
  next_sib (ba s' i) = next_sib (ba s i) /\ prev_sib (ba s' i) = prev_sib (ba s i).
Proof.
  destruct (decide (i = b)) as [->|N]; [by rewrite (rz_self _ _ _ _ _ R)|by rewrite (rz_other _ _ _ _ _ R)].
Qed.

Lemma rz_parent i : parent (ba s' i) = parent (ba s i).
Proof. apply rz_links. Qed.

Lemma rz_used i : used s' i <-> used s i.
Proof.
  unfold used. destruct (decide (i = b)) as [->|N]; [|by rewrite (rz_other _ _ _ _ _ R)].
  rewrite (rz_self _ _ _ _ _ R). cbn. destruct (fr_bounds _ _ _ _ F). destruct U. split; [done|lia].
Qed.

Lemma rz_chain f l : chain s f l -> chain s' f l.
Proof.
  intros [q D]. exists q. eapply dseg_ext; [|done]. intros x _.
  destruct (rz_links x) as (_ & _ & -> & ->). done.
Qed.

Lemma rz_range i : (i = b /\ b_begin (ba s' i) = nb /\ b_end (ba s' i) = ne) \/
  (i <> b /\ b_begin (ba s' i) = b_begin (ba s i) /\ b_end (ba s' i) = b_end (ba s i)).
Proof.
  destruct (decide (i = b)) as [->|N]; [left|right; by rewrite (rz_other _ _ _ _ _ R)].
  by rewrite (rz_self _ _ _ _ _ R).
Qed.

Lemma rz_precedes i j : used s i -> used s j -> parent (ba s i) = parent (ba s j) ->
  precedes s i j -> precedes s' i j.
Proof.
  unfold precedes. intros Ui Uj P Hp. pose proof (fr_meets _ _ _ _ F).
  pose proof (wf_bounds _ W i Ui). pose proof (wf_bounds _ W j Uj).
  destruct (rz_range i) as [(-> & Ebi & Eei)|(Ni & Ebi & Eei)], (rz_range j) as [(-> & Ebj & Eej)|(Nj & Ebj & Eej)];
    rewrite ?Eei, ?Ebj; try lia.
  - destruct (fr_siblings _ _ _ _ F j Uj Nj); [congruence|done|lia].
  - destruct (fr_siblings _ _ _ _ F i Ui Ni P); lia.
Qed.

Lemma wf_resized : wf s'.
Proof.
  destruct (fr_bounds _ _ _ _ F) as [Hb Hm].
  split; [.. |by rewrite (rz_other _ _ _ _ _ R), (wf_null _ W) by by apply not_eq_sym, (used_nonzero s)].
  - intros i Ui%rz_used. by apply (wf_range _ W).
  - intros i Ui%rz_used. destruct (rz_range i) as [(-> & -> & ->)|(_ & -> & ->)]; [lia|by apply (wf_bounds _ W)].
  - intros i Ui%rz_used. rewrite rz_parent. intros Np. destruct (wf_parent _ W i Ui Np) as (Up & Hlo & Hhi).
    split; [by apply rz_used|]. pose proof (parent_not_self s i W Ui).
    destruct (rz_range i) as [(-> & -> & ->)|(Ni & -> & ->)].
    + destruct (rz_range (parent (ba s b))) as [(? & _ & _)|(_ & -> & ->)]; [done|]. by apply (fr_parent _ _ _ _ F).
    + destruct (rz_range (parent (ba s i))) as [(E & -> & ->)|(_ & -> & ->)]; [|done]. by apply (fr_kids _ _ _ _ F).
  - intros i Ui%rz_used. destruct (wf_kids _ W i Ui) as [l (ND & C & K)]. exists l. split_and!; [done| |].
    + destruct (rz_links i) as (_ & -> & _). by apply rz_chain.
    + intros c. by rewrite K, rz_used, rz_parent.
  - destruct (wf_roots _ W) as [l (ND & [f C] & K & S)]. exists l. split_and!; [done|by exists f; apply rz_chain| |].
    + intros c. by rewrite K, rz_used, rz_parent.
    + eapply sorted_weaken; [|exact S]. intros x y [Ux Px]%K [Uy Py]%K. apply rz_precedes; [done..|congruence].
  - intros i j Ui%rz_used Uj%rz_used N. rewrite !rz_parent. intros E.
    destruct (wf_disjoint _ W i j Ui Uj N E); [left|right]; by apply rz_precedes.
  - intros i. rewrite rz_used, rz_parent. apply (wf_free _ W).
  - destruct (wf_rank _ W) as [rk Hrk]. exists rk. intros i Ui%rz_used. rewrite rz_parent. by apply Hrk.
  - intros i Ui%rz_used. rewrite rz_parent. intros P.
    destruct (rz_range i) as [(-> & -> & ->)|(_ & -> & ->)]; [by apply (fr_aligned _ _ _ _ F)|by apply (wf_aligned _ W)].
Qed.

Lemma start_resized : start_ok s -> start_ok s'.
Proof.
  unfold start_ok. rewrite (rz_start _ _ _ _ _ R), rz_used, rz_parent.
  intros [?|[? N]]; [by left|]. by destruct (N b).
Qed.

(** The pages the bigalloc gains become its own, those it loses become its parent's. *)
Lemma index_resized : index_ok s ->
  (forall p, 0 <= p < NPAGES -> covers s b p <-> covers s' b p -> pi s' p = pi s p) ->
  (forall p, 0 <= p < NPAGES -> ~ covers s b p -> covers s' b p -> pi s' p = b) ->
  (forall p, 0 <= p < NPAGES -> covers s b p -> ~ covers s' b p -> pi s' p = parent (ba s b)) ->
  index_ok s'.
Proof.
  intros I Hsame Hgain Hlose p Hp.
  assert (Hcov : forall i, i <> b -> covers s' i p <-> covers s i p).
  { intros i Ni. unfold covers. by rewrite (rz_other _ _ _ _ _ R). }
  assert (Hdec : forall x, covers x b p \/ ~ covers x b p).
  { intros x. unfold covers. lia. }
  assert (Hkids : forall c, used s c -> parent (ba s c) = b -> covers s c p -> covers s b p /\ covers s' b p).
  { intros c Uc Pc Cc. split.
    - rewrite <- Pc. apply covers_parent; [done..| |done]. rewrite Pc. by apply (used_nonzero s).
    - unfold covers in *. rewrite (rz_self _ _ _ _ _ R). cbn. pose proof (fr_kids _ _ _ _ F c Uc Pc). lia. }
  destruct (Hdec s) as [C|C], (Hdec s') as [C'|C'].
  - rewrite (Hsame p Hp) by done. destruct (I p Hp) as [[_ Hn]|(Un & Cn & Hk)]; [by destruct (Hn b)|].
    right. split_and!; [by apply rz_used| |].
    + destruct (decide (pi s p = b)) as [->|N]; [done|]. by apply Hcov.
    + intros c Uc%rz_used. rewrite rz_parent. intros Pc. destruct (decide (c = b)) as [->|N].
      * by destruct (Hk b).
      * rewrite Hcov by done. by apply Hk.
  - rewrite (Hlose p Hp) by done. destruct (decide (parent (ba s b) = 0)) as [Pz|Pn].
    + left. split; [done|]. intros i Ui%rz_used Ci. destruct (decide (i = b)) as [->|Ni]; [done|].
      apply Hcov in Ci; [|done]. destruct (I p Hp) as [[_ Hn]|(Un & Cn & Hk)]; [by destruct (Hn b)|].
      destruct (root_exists s i W Ui) as (r & A & Ur & Pr).
      pose proof (ancestor_covers s r i p W Ui A Ci) as Cr.
      assert (r = b) as -> by (apply (siblings_cover s r b p); [done..|congruence|done|done]).
      destruct (ancestor_child s b i A) as (c & Ac & Uc & Pc); [done|].
      pose proof (ancestor_covers s c i p W Ui Ac Ci) as Cc.
      by destruct (Hkids c Uc Pc Cc).
    + pose proof (parent_used s b W U Pn) as Up. pose proof (parent_not_self s b W U).
      right. split_and!; [by apply rz_used|apply Hcov; [done|]; by apply covers_parent|].
      intros c Uc%rz_used. rewrite rz_parent. intros Pc. destruct (decide (c = b)) as [->|N]; [done|].
      rewrite Hcov by done. intros Cc. apply N.
      by apply (siblings_cover s c b p).
  - rewrite (Hgain p Hp) by done. right. split_and!; [by apply rz_used|done|].
    intros c Uc%rz_used. rewrite rz_parent. intros Pc Cc.
    assert (c <> b) by (intros ->; by apply (parent_not_self s b)).
    apply Hcov in Cc; [|done]. by destruct (Hkids c Uc Pc Cc).
  - rewrite (Hsame p Hp) by done. destruct (I p Hp) as [[-> Hn]|(Un & Cn & Hk)].
    + left. split; [done|]. intros i Ui%rz_used. destruct (decide (i = b)) as [->|N]; [done|].
      rewrite Hcov by done. by apply Hn.
    + assert (pi s p <> b) by congruence. right. split_and!; [by apply rz_used|by apply Hcov|].
      intros c Uc%rz_used. rewrite rz_parent. intros Pc. destruct (decide (c = b)) as [->|N]; [done|].
      rewrite Hcov by done. by apply Hk.
Qed.
End resized.

(** ** The operations *)

Lemma fill_resized s b f nb ne k q v :
  f (ba s b) = set_begin nb (set_end ne (ba s b)) -> resized s (fill_pages k q v (upd b f s)) b nb ne.
Proof.
  intros Hf. split.
  - intros i N. by rewrite ba_fill, ba_upd_ne by done.
  - by rewrite ba_fill, ba_upd_eq.
  - by rewrite START_fill.
  - by destruct (fill_pages_big k q v (upd b f s)) as (_ & _ & ->).
Qed.

(** What a resizing operation leaves behind, the page index apart. *)
Record tree_resized (s s' : state) (b nb ne : Z) : Prop := {
  tr_wf : wf s';
  tr_start : start_ok s -> start_ok s';
  tr_resized : resized s s' b nb ne;
}.

(** The page index is exact afterwards, too. *)
Record resize_ok (s s' : state) (b nb ne : Z) : Prop := {
  ro_wf : wf s';
  ro_index : index_ok s';
  ro_start : start_ok s -> start_ok s';
  ro_resized : resized s s' b nb ne;
}.

Definition parent_covers (s : state) (b p : Z) : Prop := parent (ba s b) <> 0 /\ covers s (parent (ba s b)) p.

(** The index is written a page at a time, from the page the old (or the new)
    end lies in.  The end of [b] can move to [ne] with the index kept exact
    when [b] begins at or below the lower end's page, or when the end stays in
    its page so that nothing is written, or, for a truncation, when the page
    written too many is the parent's already. *)
Definition end_movable (s : state) (b ne : Z) : Prop :=
  page_up (b_begin (ba s b)) <= page_down (Z.min ne (b_end (ba s b))) \/
  page_down ne = page_down (b_end (ba s b)) \/
  (ne < b_end (ba s b) /\ parent_covers s b (page_down ne)).

(** More index entries than this are not written at once: [memset_bigalloc] aborts. *)
Definition page_limit : Z := Z.shiftr BIGGEST_SANE_USER_ALLOC LOG_PAGE_SIZE.

(** The same for a new beginning [nb], at or above the old one. *)
Definition begin_cuttable (s : state) (b nb : Z) : Prop :=
  page_up nb <= page_down (b_end (ba s b)) \/
  page_up nb = page_up (b_begin (ba s b)) \/
  parent_covers s b (page_down (b_end (ba s b))).

Lemma page_dist_down a c : 0 <= a -> 0 <= c ->
  PAGE_DIST (ROUND_DOWN a PAGE_SIZE) (ROUND_DOWN c PAGE_SIZE) = Z.max 0 (page_down c - page_down a).
Proof.
  intros. unfold PAGE_DIST. rewrite !pagenum_round_down by done. destruct (Z.ltb_spec (page_down a) (page_down c)); lia.
Qed.

Lemma page_dist_up a c : 0 <= a -> 0 <= c ->
  PAGE_DIST (ROUND_UP a PAGE_SIZE) (ROUND_UP c PAGE_SIZE) = Z.max 0 (page_up c - page_up a).
Proof.
  intros. unfold PAGE_DIST. rewrite !pagenum_round_up by done. destruct (Z.ltb_spec (page_up a) (page_up c)); lia.
Qed.

Lemma sane_page_count n : 0 <= n -> n * PAGE_SIZE <= BIGGEST_SANE_USER_ALLOC ->
  n <= Z.shiftr BIGGEST_SANE_USER_ALLOC LOG_PAGE_SIZE.
Proof.
  intros Hn Hb. rewrite Z.shiftr_div_pow2 by done. change (2 ^ LOG_PAGE_SIZE) with PAGE_SIZE.
  apply Z.div_le_lower_bound; [done|lia].
Qed.

Lemma page_limit_ok n : 0 <= n -> n * PAGE_SIZE <= BIGGEST_SANE_USER_ALLOC -> n <= page_limit.
Proof. apply sane_page_count. Qed.

Lemma memset_too_many begin num old_num n s : page_limit < n -> memset_bigalloc (B := release) begin num old_num n s = Abort.
Proof. intros Hn. unfold memset_bigalloc. by rewrite (proj2 (Z.ltb_lt _ _)). Qed.

Section ops.
Context {H : Hooks}.
Context (s : state) (b : Z) (W : wf s) (I : index_ok s) (U : used s b) (Sn : sane s).

Lemma num16 i : i = 0 \/ used s i -> 0 <= i < 2 ^ 16.
Proof. intros [->|Hu]; [lia|]. pose proof (wf_range _ W i Hu). unfold NBIGALLOCS in *. lia. Qed.

Lemma parent16 : 0 <= parent (ba s b) < 2 ^ 16.
Proof. apply num16. destruct (decide (parent (ba s b) = 0)); [by left|right]. by apply parent_used. Qed.

(** Resizing in general: one field is written and a run of pages is filled. *)
Lemma resize_fill f nb ne k q v :
  let s' := fill_pages k q v (upd b f s) in
  f (ba s b) = set_begin nb (set_end ne (ba s b)) -> fits_range s b nb ne ->
  (forall p, 0 <= p < NPAGES ->
     let old := page_up (b_begin (ba s b)) <= p < page_down (b_end (ba s b)) in
     let new := page_up nb <= p < page_down ne in
     if decide (q <= p < q + Z.of_nat k)
     then (~ old /\ new /\ v = b) \/ (old /\ ~ new /\ v = parent (ba s b)) \/ ((old <-> new) /\ v = pi s p)
     else (old <-> new)) ->
  resize_ok s s' b nb ne.
Proof.
  intros s' Hf F Hpi. pose proof (fill_resized s b f nb ne k q v Hf) as R. fold s' in R.
  pose proof (wf_bounds _ W b U) as [Hb _]. destruct (fr_bounds _ _ _ _ F) as [Hn _].
  split; [by eapply wf_resized| |by eapply start_resized|done].
  assert (Hc : forall p, covers s' b p <-> page_up nb <= p < page_down ne).
  { intros p. rewrite covers_pages by (rewrite (rz_self _ _ _ _ _ R); cbn; lia). by rewrite (rz_self _ _ _ _ _ R). }
  eapply index_resized; try done; intros p Hp; rewrite Hc, covers_pages by lia; specialize (Hpi p Hp);
    unfold s'; rewrite pi_fill; case_decide; naive_solver.
Qed.

(** The part of it that does not depend on the pages filled. *)
Lemma fill_tree f nb ne k q v :
  f (ba s b) = set_begin nb (set_end ne (ba s b)) -> fits_range s b nb ne ->
  tree_resized s (fill_pages k q v (upd b f s)) b nb ne.
Proof.
  intros Hf F. pose proof (fill_resized s b f nb ne k q v Hf) as R.
  split; [by eapply wf_resized|by eapply start_resized|done].
Qed.

(** A bigalloc that spans a page is at or above the deepest one that does. *)
Lemma covers_above i p : used s i -> covers s i p -> (forall c, used s c -> parent (ba s c) = i -> ~ covers s c p) ->
  forall j, used s j -> covers s j p -> ancestor s j i.
Proof.
  intros Ui Ci Hi. apply (wf_ind s (fun j => covers s j p -> ancestor s j i) W). intros j Uj IH Cj.
  destruct (decide (parent (ba s j) = 0)) as [Pz|Pn].
  - destruct (root_exists s i W Ui) as (r & A & Ur & Pr).
    by rewrite (siblings_cover s j r p W Uj Ur ltac:(congruence) Cj (ancestor_covers s r i p W Ui A Ci)).
  - specialize (IH Pn (covers_parent s j p W Uj Pn Cj)). destruct (decide (parent (ba s j) = i)) as [Ei|Ni]; [by destruct (Hi j Uj Ei)|].
    destruct (ancestor_child s _ i IH Ni) as (c & Ac & Uc & Pc).
    by rewrite (siblings_cover s j c p W Uj Uc ltac:(congruence) Cj (ancestor_covers s c i p W Ui Ac Ci)).
Qed.

Lemma deepest_covering_unique p n m : deepest_covering s p n -> deepest_covering s p m -> n = m.
Proof.
  intros [[-> N]|(Un & Cn & Kn)] [[-> M]|(Um & Cm & Km)]; [done|by destruct (N m)|by destruct (M n)|].
  apply (ancestor_antisym s); [done|by apply (covers_above m p)|by apply (covers_above n p)].
Qed.

(** A page that [b] meets and does not span belongs to the parent if the parent spans it. *)
Lemma parents_page p : 0 <= p < NPAGES -> parent_covers s b p -> ~ covers s b p ->
  b_begin (ba s b) < (p + 1) * PAGE_SIZE -> p * PAGE_SIZE < b_end (ba s b) -> pi s p = parent (ba s b).
Proof.
  intros Hp [Pn Cp] Nc H1 H2.
  apply (deepest_covering_unique p); [by apply I|]. right. split_and!; [by apply parent_used|done|].
  intros c Uc Pc Cc. destruct (decide (c = b)) as [->|N]; [done|].
  destruct (wf_disjoint _ W c b Uc U N Pc); unfold precedes, covers in *; lia.
Qed.

(** A page given to a bigalloc that does not span it is wrong in the index. *)
Lemma wrong_page t v p : 0 <= p < NPAGES -> v <> 0 -> pi t p = v -> ~ covers t v p -> ~ index_ok t.
Proof. intros Hp Nv Ev Nc It. destruct (It p Hp) as [[E0 _]|(_ & C & _)]; rewrite Ev in *; done. Qed.

Lemma user_page a : 0 <= a <= MAXIMUM_USER_ADDRESS -> 0 <= page_down a < NPAGES.
Proof. intros Ha. destruct max_user_address_spec as [_ Hmod]. unfold NPAGES. page_lia. Qed.

(** ** Moving the end *)

(** What extension does to the table, whether or not the range is free. *)
Lemma extend_run new_end :
  b_end (ba s b) <= new_end ->
  __liballocs_extend_bigalloc (B := release) b new_end s =
    if decide (Z.abs (page_down new_end - page_down (b_end (ba s b))) <= page_limit)
    then Done (true, fill_pages (Z.to_nat (Z.max 0 (page_down new_end - page_down (b_end (ba s b)))))
                  (page_down (b_end (ba s b))) b (upd b (set_end new_end) s))
    else Abort.
Proof.
  intros Hge. pose proof (wf_bounds _ W b U) as [Hb Hm].
  unfold __liballocs_extend_bigalloc. cbv [rd wr gets modify]. cbv [mbind M_bind].
  rewrite pagenum_round_down, page_dist_down by lia. rewrite field_upd by done.
  assert (page_down (b_end (ba s b)) <= page_down new_end) by page_lia.
  case_decide; [|by rewrite memset_too_many by lia].
  by rewrite memset_release_fill; [|apply num16; by right|fold page_limit; lia].
Qed.

Lemma extend_exact new_end :
  fits_range s b (b_begin (ba s b)) new_end -> b_end (ba s b) <= new_end ->
  Z.abs (page_down new_end - page_down (b_end (ba s b))) <= page_limit ->
  exists s', __liballocs_extend_bigalloc (B := release) b new_end s = Done (true, s') /\
    tree_resized s s' b (b_begin (ba s b)) new_end /\ (index_ok s' <-> end_movable s b new_end).
Proof.
  intros F Hge Hlim. rewrite (extend_run new_end Hge), decide_True by done. eexists. split; [done|].
  pose proof (wf_bounds _ W b U) as [Hb Hm]. destruct (fr_bounds _ _ _ _ F) as [Hn Hx].
  assert (Hf : set_end new_end (ba s b) = set_begin (b_begin (ba s b)) (set_end new_end (ba s b))) by by destruct (ba s b).
  assert (Hd : page_down (b_end (ba s b)) <= page_down new_end) by page_lia.
  split; [by apply fill_tree|]. unfold end_movable. rewrite Z.min_r by lia. split.
  - intros I'. destruct (decide (page_down new_end = page_down (b_end (ba s b)))) as [|Nd]; [by right; left|left].
    apply Z.le_ngt. intros Hlt. revert I'. apply (wrong_page _ b (page_down (b_end (ba s b)))).
    + apply user_page. page_lia.
    + by apply (used_nonzero s).
    + rewrite pi_fill, decide_True; [done|lia].
    + unfold covers. rewrite ba_fill, ba_upd_eq. cbn. page_lia.
  - intros Hc. apply (ro_index s _ b (b_begin (ba s b)) new_end). apply resize_fill; [done..|]. intros p Hp. cbv zeta.
    case_decide; [left|]; lia.
Qed.

Lemma truncate_end_run new_end : 0 <= new_end -> new_end <= b_end (ba s b) ->
  __liballocs_truncate_bigalloc_at_end (B := release) b new_end s =
    if decide (Z.abs (page_down new_end - page_down (b_end (ba s b))) <= page_limit)
    then Done (true, fill_pages (Z.to_nat (Z.max 0 (page_down (b_end (ba s b)) - page_down new_end)))
                  (page_down new_end) (parent (ba s b)) (upd b (set_end new_end) s))
    else Abort.
Proof.
  intros Hn Hle. pose proof (wf_bounds _ W b U) as [Hb Hm].
  unfold __liballocs_truncate_bigalloc_at_end, bigalloc_truncate_at_end. cbv [rd wr gets modify]. cbv [mbind M_bind].
  rewrite pagenum_round_down, page_dist_down by lia. rewrite field_upd by done.
  assert (page_down new_end <= page_down (b_end (ba s b))) by page_lia.
  case_decide; [|by rewrite memset_too_many by lia].
  by rewrite memset_release_fill; [|apply parent16|fold page_limit; lia].
Qed.

Lemma truncate_end_exact new_end :
  fits_range s b (b_begin (ba s b)) new_end -> new_end <= b_end (ba s b) ->
  Z.abs (page_down new_end - page_down (b_end (ba s b))) <= page_limit ->
  exists s', __liballocs_truncate_bigalloc_at_end (B := release) b new_end s = Done (true, s') /\
    tree_resized s s' b (b_begin (ba s b)) new_end /\ (index_ok s' <-> end_movable s b new_end).
Proof.
  intros F Hle Hlim. pose proof (wf_bounds _ W b U) as [Hb Hm]. destruct (fr_bounds _ _ _ _ F) as [Hn _].
  rewrite (truncate_end_run new_end ltac:(lia) Hle), decide_True by done.
  eexists. split; [done|]. split; [by apply fill_tree|].
  assert (Hd : page_down new_end <= page_down (b_end (ba s b))) by page_lia. unfold end_movable. rewrite Z.min_l by lia.
  assert (Hq : page_down new_end < page_down (b_end (ba s b)) -> 0 <= page_down new_end < NPAGES) by (intros; apply user_page; page_lia).
  split.
  - intros I'. destruct (decide (page_up (b_begin (ba s b)) <= page_down new_end)) as [|Nl]; [by left|right].
    destruct (decide (page_down new_end = page_down (b_end (ba s b)))) as [|Nd]; [by left|right]. split; [page_lia|].
    assert (Pn : parent (ba s b) <> 0) by (intros E0; destruct (wf_aligned _ W b U E0); page_lia).
    destruct (I' (page_down new_end) (Hq ltac:(lia))) as [[E0 _]|(_ & C & _)]; rewrite pi_fill, decide_True in * by lia; [done|].
    split; [done|]. unfold covers in C. rewrite ba_fill, ba_upd_ne in C; [done|]. by apply not_eq_sym, (parent_not_self s b).
  - intros Hc. apply (ro_index s _ b (b_begin (ba s b)) new_end). apply resize_fill; [done..|]. intros p Hp. cbv zeta.
    case_decide; [right|lia]. destruct (decide (p < page_up (b_begin (ba s b)))); [right; split; [lia|]|left; lia].
    assert (p = page_down new_end) as -> by page_lia. symmetry. apply parents_page; [done|naive_solver lia|unfold covers; page_lia|page_lia|page_lia].
Qed.

(** ** Cutting off the beginning *)

Lemma truncate_beginning_run new_begin : b_begin (ba s b) <= new_begin ->
  __liballocs_truncate_bigalloc_at_beginning (B := release) b new_begin s =
    if decide (page_up new_begin - page_up (b_begin (ba s b)) <= page_limit)
    then Done (true, fill_pages (Z.to_nat (Z.max 0 (page_up new_begin - page_up (b_begin (ba s b)))))
                  (page_up (b_begin (ba s b))) (parent (ba s b)) (upd b (set_begin new_begin) s))
    else Abort.
Proof.
  intros Hle. pose proof (wf_bounds _ W b U) as [Hb Hm].
  unfold __liballocs_truncate_bigalloc_at_beginning. cbv [rd wr gets modify]. cbv [mbind M_bind].
  rewrite pagenum_round_up, page_dist_up by lia. rewrite field_upd by done.
  assert (page_up (b_begin (ba s b)) <= page_up new_begin) by page_lia.
  case_decide; [|by rewrite memset_too_many by lia].
  by rewrite memset_release_fill; [|apply parent16|fold page_limit; lia].
Qed.

Lemma truncate_beginning_exact new_begin :
  fits_range s b new_begin (b_end (ba s b)) -> b_begin (ba s b) <= new_begin ->
  page_up new_begin - page_up (b_begin (ba s b)) <= page_limit ->
  exists s', __liballocs_truncate_bigalloc_at_beginning (B := release) b new_begin s = Done (true, s') /\
    tree_resized s s' b new_begin (b_end (ba s b)) /\ (index_ok s' <-> begin_cuttable s b new_begin).
Proof.
  intros F Hle Hlim. pose proof (wf_bounds _ W b U) as [Hb Hm]. destruct (fr_bounds _ _ _ _ F) as [Hn _].
  rewrite (truncate_beginning_run new_begin Hle), decide_True by done.
  assert (Hf : set_begin new_begin (ba s b) = set_begin new_begin (set_end (b_end (ba s b)) (ba s b))) by by destruct (ba s b).
  eexists. split; [done|]. split; [by apply fill_tree|].
  assert (Hd : page_up (b_begin (ba s b)) <= page_up new_begin) by page_lia. unfold begin_cuttable.
  split.
  - intros I'. destruct (decide (page_up new_begin <= page_down (b_end (ba s b)))) as [|Nl]; [by left|right].
    destruct (decide (page_up new_begin = page_up (b_begin (ba s b)))) as [|Nd]; [by left|right].
    assert (Pn : parent (ba s b) <> 0) by (intros E0; destruct (wf_aligned _ W b U E0); page_lia).
    destruct (I' (page_down (b_end (ba s b)))) as [[E0 _]|(_ & C & _)]; [destruct max_user_address_spec as [_ Hmod]; apply user_page; page_lia|..]; rewrite pi_fill, decide_True in * by page_lia; [done|].
    split; [done|]. unfold covers in C. rewrite ba_fill, ba_upd_ne in C; [done|]. by apply not_eq_sym, (parent_not_self s b).
  - intros Hc. apply (ro_index s _ b new_begin (b_end (ba s b))). apply resize_fill; [done..|]. intros p Hp. cbv zeta.
    case_decide; [right|lia]. destruct (decide (page_down (b_end (ba s b)) <= p)); [right; split; [lia|]|left; lia].
    assert (p = page_down (b_end (ba s b))) as -> by page_lia. symmetry. apply parents_page; [done|naive_solver lia|unfold covers; page_lia|page_lia|page_lia].
Qed.

(** ** The operations where the index stays exact *)

Lemma resize_ok_of s' nb ne P : tree_resized s s' b nb ne /\ (index_ok s' <-> P) -> P -> resize_ok s s' b nb ne.
Proof. intros [[W' S' R] Hi] HP. split; [done|by apply Hi|done|done]. Qed.

(** A bigalloc of sane size that begins at or below the page of its lower end stays within the limit. *)
Lemma end_in_limit new_end : page_up (b_begin (ba s b)) <= page_down (Z.min new_end (b_end (ba s b))) ->
  new_end - b_begin (ba s b) <= BIGGEST_SANE_USER_ALLOC ->
  Z.abs (page_down new_end - page_down (b_end (ba s b))) <= page_limit.
Proof.
  intros Hpg Hs. pose proof (wf_bounds _ W b U) as [Hb _]. pose proof (Sn b U). apply page_limit_ok; [lia|].
  destruct (Z.le_gt_cases new_end (b_end (ba s b))); [rewrite Z.min_l in Hpg by lia|rewrite Z.min_r in Hpg by lia]; page_lia.
Qed.

Lemma begin_in_limit new_begin : page_up new_begin <= page_down (b_end (ba s b)) ->
  page_up new_begin - page_up (b_begin (ba s b)) <= page_limit.
Proof.
  intros Hpg. pose proof (wf_bounds _ W b U) as [Hb _]. pose proof (Sn b U). apply Z.le_trans with (Z.max 0 (page_up new_begin - page_up (b_begin (ba s b)))); [lia|].
  apply page_limit_ok; [lia|]. page_lia.
Qed.

Lemma extend_ok new_end :
  fits_range s b (b_begin (ba s b)) new_end -> b_end (ba s b) <= new_end ->
  page_up (b_begin (ba s b)) <= page_down (b_end (ba s b)) ->
  new_end - b_begin (ba s b) <= BIGGEST_SANE_USER_ALLOC ->
  exists s', __liballocs_extend_bigalloc (B := release) b new_end s = Done (true, s') /\
    resize_ok s s' b (b_begin (ba s b)) new_end.
Proof.
  intros F Hge Hpg Hs. destruct (extend_exact new_end F Hge) as (s' & E & R); [apply end_in_limit; [by rewrite Z.min_r by lia|done]|].
  exists s'. split; [done|]. eapply resize_ok_of; [done|]. left. by rewrite Z.min_r by lia.
Qed.

Lemma truncate_end_ok new_end :
  fits_range s b (b_begin (ba s b)) new_end -> new_end <= b_end (ba s b) -> page_up (b_begin (ba s b)) <= page_down new_end ->
  exists s', __liballocs_truncate_bigalloc_at_end (B := release) b new_end s = Done (true, s') /\
    resize_ok s s' b (b_begin (ba s b)) new_end.
Proof.
  intros F Hle Hpg. pose proof (Sn b U).
  destruct (truncate_end_exact new_end F Hle) as (s' & E & R); [apply end_in_limit; [by rewrite Z.min_l by lia|lia]|].
  exists s'. split; [done|]. eapply resize_ok_of; [done|]. left. by rewrite Z.min_l by lia.
Qed.

Lemma truncate_beginning_ok new_begin :
  fits_range s b new_begin (b_end (ba s b)) -> b_begin (ba s b) <= new_begin -> page_up new_begin <= page_down (b_end (ba s b)) ->
  exists s', __liballocs_truncate_bigalloc_at_beginning (B := release) b new_begin s = Done (true, s') /\
    resize_ok s s' b new_begin (b_end (ba s b)).
Proof.
  intros F Hle Hpg. destruct (truncate_beginning_exact new_begin F Hle (begin_in_limit new_begin Hpg)) as (s' & E & R).
  exists s'. split; [done|]. eapply resize_ok_of; [done|]. by left.
Qed.

(** ** [__adjust_bigalloc_end] *)

(** It resizes in whichever direction is needed. *)
Lemma adjust_end_exact new_end : fits_range s b (b_begin (ba s b)) new_end ->
  if decide (Z.abs (page_down new_end - page_down (b_end (ba s b))) <= page_limit)
  then exists s', __adjust_bigalloc_end (B := release) b new_end s = Done (tt, s') /\
    tree_resized s s' b (b_begin (ba s b)) new_end /\ (index_ok s' <-> end_movable s b new_end)
  else __adjust_bigalloc_end (B := release) b new_end s = Abort.
Proof.
  intros F. destruct (fr_bounds _ _ _ _ F) as [Hn _]. unfold __adjust_bigalloc_end. cbv [rd gets]. unfold mbind, M_bind.
  destruct (Z.ltb_spec new_end (b_end (ba s b))) as [Hlt|Hge]; [|destruct (Z.ltb_spec (b_end (ba s b)) new_end) as [Hlt|Hge']].
  - case_decide as Hl; [|by rewrite truncate_end_run, decide_False by (done || lia)].
    destruct (truncate_end_exact new_end F) as (s' & E & Hr); [lia|done|]. exists s'. by rewrite E.
  - case_decide as Hl; [|by rewrite extend_run, decide_False by (done || lia)].
    destruct (extend_exact new_end F) as (s' & E & Hr); [lia|done|]. exists s'. by rewrite E.
  - assert (new_end = b_end (ba s b)) as -> by lia. rewrite decide_True.
    2: { rewrite Z.sub_diag. apply page_limit_ok; [done|]. pose proof biggest_sane_spec. unfold PAGE_SIZE. lia. }
    exists s. split; [done|]. split.
    + split; [done|tauto|]. split; [done|by destruct (ba s b)|done..].
    + unfold end_movable. tauto.
Qed.

Lemma adjust_end_ok new_end :
  fits_range s b (b_begin (ba s b)) new_end ->
  page_up (b_begin (ba s b)) <= page_down (Z.min new_end (b_end (ba s b))) ->
  new_end - b_begin (ba s b) <= BIGGEST_SANE_USER_ALLOC ->
  exists s', __adjust_bigalloc_end (B := release) b new_end s = Done (tt, s') /\
    resize_ok s s' b (b_begin (ba s b)) new_end.
Proof.
  intros F Hc Hs. pose proof (adjust_end_exact new_end F) as X. rewrite decide_True in X by by apply end_in_limit.
  destruct X as (s' & E & R). exists s'. split; [done|]. eapply resize_ok_of; [done|]. by left.
Qed.

(** ** Calls that return *)

Lemma extend_returned new_end r s' :
  fits_range s b (b_begin (ba s b)) new_end -> b_end (ba s b) <= new_end -> end_movable s b new_end ->
  __liballocs_extend_bigalloc (B := release) b new_end s = Done (r, s') -> resize_ok s s' b (b_begin (ba s b)) new_end.
Proof.
  intros F Hge Hc E. destruct (decide (Z.abs (page_down new_end - page_down (b_end (ba s b))) <= page_limit)) as [Hl|Hl].
  - destruct (extend_exact new_end F Hge Hl) as (s1 & E1 & R). rewrite E1 in E. injection E as _ <-. by eapply resize_ok_of.
  - by rewrite extend_run, decide_False in E.
Qed.

Lemma truncate_end_returned new_end r s' :
  fits_range s b (b_begin (ba s b)) new_end -> new_end <= b_end (ba s b) -> end_movable s b new_end ->
  __liballocs_truncate_bigalloc_at_end (B := release) b new_end s = Done (r, s') -> resize_ok s s' b (b_begin (ba s b)) new_end.
Proof.
  intros F Hle Hc E. destruct (fr_bounds _ _ _ _ F) as [Hn _].
  destruct (decide (Z.abs (page_down new_end - page_down (b_end (ba s b))) <= page_limit)) as [Hl|Hl].
  - destruct (truncate_end_exact new_end F Hle Hl) as (s1 & E1 & R). rewrite E1 in E. injection E as _ <-. by eapply resize_ok_of.
  - by rewrite truncate_end_run, decide_False in E by (done || lia).
Qed.

Lemma truncate_beginning_returned new_begin r s' :
  fits_range s b new_begin (b_end (ba s b)) -> b_begin (ba s b) <= new_begin -> begin_cuttable s b new_begin ->
  __liballocs_truncate_bigalloc_at_beginning (B := release) b new_begin s = Done (r, s') -> resize_ok s s' b new_begin (b_end (ba s b)).
Proof.
  intros F Hle Hc E. destruct (decide (page_up new_begin - page_up (b_begin (ba s b)) <= page_limit)) as [Hl|Hl].
  - destruct (truncate_beginning_exact new_begin F Hle Hl) as (s1 & E1 & R). rewrite E1 in E. injection E as _ <-. by eapply resize_ok_of.
  - by rewrite truncate_beginning_run, decide_False in E.
Qed.
End ops.
End resize.

Section preextend.
Context {V : Vas} {VL : VasLaws V} {H : Hooks}.

(** ** [is_one_or_more_levels_under] *)

Lemma under_direct_ok s n cur l : forall fuel child,
  wf s -> pending s cur child l -> (length l < fuel)%nat ->
  under_direct fuel n child s = Done (bool_decide (n ∈ l), s).
Proof.
  induction l as [|x l IH]; intros fuel child W P Hf; (destruct fuel as [|fuel]; [simpl in Hf; lia|]).
  all: destruct (pending_inv _ _ _ _ W P) as [[-> E]|(l' & Nz & E & Uc & Pc & Nc & P')]; try done.
  injection E as -> ->. cbn [under_direct]. rewrite (proj2 (Z.eqb_neq child 0) Nz).
  destruct (Z.eqb_spec child n) as [->|N].
  - rewrite bool_decide_eq_true_2 by by left. done.
  - cbv [rd gets]. unfold mbind, M_bind. rewrite (IH fuel _ W P') by (simpl in Hf; lia).
    do 2 f_equal. apply bool_decide_ext. rewrite elem_of_cons. naive_solver.
Qed.

Definition strictly_below (s : state) (b n : Z) : Prop := n <> b /\ used s n /\ ancestor s b n.

Lemma below_via_child s b n : wf s -> used s b ->
  strictly_below s b n <->
  exists c, used s c /\ parent (ba s c) = b /\ (c = n \/ strictly_below s c n).
Proof.
  intros W U. unfold strictly_below. split.
  - intros (N & Un & A). destruct (ancestor_child s b n A) as (c & Ac & Uc & Pc); [done|].
    exists c. split_and!; [done..|]. destruct (decide (c = n)); [by left|right]. done.
  - intros (c & Uc & Pc & Hc).
    assert (Ab : ancestor s b c).
    { rewrite <- Pc. apply ancestor_parent; [done|]. rewrite Pc. by apply (used_nonzero s). }
    destruct Hc as [<-|(N & Un & A)].
    + split_and!; [|done|done]. intros ->. by apply (parent_not_self s b).
    + split_and!; [|done|by eapply ancestor_trans]. intros ->.
      by apply (child_not_ancestor s c b W Uc Pc).
Qed.

Lemma is_under_ok s n b : wf s -> used s b ->
  exists r : bool, is_one_or_more_levels_under n b s = Done (r, s) /\ (r = true <-> strictly_below s b n).
Proof.
  intros W. revert b. apply (descent_ind s W
    (fun fuel cur => exists r : bool, under_rec fuel n cur s = Done (r, s) /\ (r = true <-> strictly_below s cur n))
    (fun fuel cur child l => exists r : bool, under_children fuel n child s = Done (r, s) /\
       (r = true <-> exists c, c ∈ l /\ strictly_below s c n))).
  - intros fuel cur l Uc K (r & E & Hr). cbn [under_rec].
    destruct (Z.eqb_spec n cur) as [->|N].
    { exists false. split; [done|]. split; [done|]. by intros [? _]. }
    cbv [rd gets]. unfold mbind, M_bind.
    rewrite (under_direct_ok s n cur l FUEL _ W (pending_kids_of _ _ _ K)).
    2:{ rewrite FUEL_eq. assert (length l < NB)%nat; [|lia]. apply (used_nodup_length s W); [apply K|].
        apply Forall_forall. intros c Hc. by apply (proj2 (proj2 K)) in Hc as [? _]. }
    destruct (bool_decide_reflect (n ∈ l)) as [Hn|Hn].
    + exists true. split; [done|]. split; [intros _|done]. apply below_via_child; [done..|].
      exists n. apply (proj2 (proj2 K)) in Hn as [? ?]. auto.
    + rewrite E. exists r. split; [done|]. rewrite Hr, below_via_child by done. split.
      * intros (c & [? ?]%(proj2 (proj2 K)) & ?). eauto.
      * intros (c & Uc' & Pc & [->|?]); [destruct Hn|exists c; split; [|done]]; by apply (proj2 (proj2 K)).
  - intros fuel cur Uc. exists false. split; [done|]. split; [done|]. intros (c & Hc & _). by apply not_elem_of_nil in Hc.
  - intros fuel cur child l Uc Uch Nz Pch Nl (r & E & Hr) (r' & E' & Hr').
    cbn [under_children]. rewrite (proj2 (Z.eqb_neq child 0) Nz). unfold mbind, M_bind. rewrite E.
    setoid_rewrite elem_of_cons. destruct r.
    + exists true. split; [done|]. split; [intros _; exists child; split; [by left|by apply Hr]|done].
    + cbv [rd gets]. rewrite E'. exists r'. split; [done|]. rewrite Hr'. split.
      * intros (c & ? & ?). eauto.
      * intros (c & [->|?] & ?); [|eauto]. assert (false = true) by by apply Hr. done.
Qed.

(** ** [__liballocs_pre_extend_bigalloc] *)

Section ops.
Context (s : state) (b : Z) (W : wf s) (I : index_ok s) (U : used s b).

(** The page that holds the old beginning, when the bigalloc did not span it,
    does not belong to the subtree. *)
Lemma partial_page_not_below : b_begin (ba s b) mod PAGE_SIZE <> 0 ->
  ~ strictly_below s b (pi s (page_down (b_begin (ba s b)))).
Proof.
  intros Ha (N & Un & A). pose proof (wf_bounds _ W b U) as [Hb Hm]. destruct max_user_address_spec as [Hmax Hmod].
  assert (Hp : 0 <= page_down (b_begin (ba s b)) < NPAGES).
  { unfold NPAGES. page_lia. }
  destruct (I _ Hp) as [[E _]|(_ & C & _)].
  - rewrite E in Un. by apply (not_used_0 s).
  - apply (ancestor_covers s b _ _ W Un A) in C. unfold covers in C. page_lia.
Qed.

(** The page up to which extension at the beginning fills, and the number of pages that is. *)
Definition pre_extend_limit : Z :=
  if page_down (b_begin (ba s b)) <? page_down (b_end (ba s b))
  then page_up (b_begin (ba s b)) else page_down (b_begin (ba s b)).

Lemma pre_extend_count new_begin (r : bool) :
  0 < new_begin -> new_begin < b_begin (ba s b) ->
  (r = true -> strictly_below s b (pi s (PAGENUM (b_begin (ba s b))))) ->
  forall x : bool,
  (if PAGENUM (b_begin (ba s b)) <? PAGENUM (b_end (ba s b)) then x = negb r else x = false) ->
  PAGE_DIST (ROUND_UP new_begin PAGE_SIZE)
    (if x then ROUND_UP (b_begin (ba s b)) PAGE_SIZE else ROUND_DOWN (b_begin (ba s b)) PAGE_SIZE)
  = Z.max 0 (pre_extend_limit - page_up new_begin).
Proof.
  intros Hn Hlt Hr x Hx. pose proof (wf_bounds _ W b U) as [Hb Hm]. unfold pre_extend_limit. rewrite !PAGENUM_spec in Hx by lia.
  fold (page_down (b_begin (ba s b))) in Hx. fold (page_down (b_end (ba s b))) in Hx.
  destruct (Z.ltb_spec (page_down (b_begin (ba s b))) (page_down (b_end (ba s b)))).
  - destruct r; simpl in Hx; subst x; [|by apply page_dist_up; lia].
    rewrite page_dist_up_down by lia. do 2 f_equal.
    destruct (decide (b_begin (ba s b) mod PAGE_SIZE = 0)) as [Ha|Ha]; [page_lia|].
    exfalso. apply (partial_page_not_below Ha). rewrite PAGENUM_spec in Hr by lia. by apply Hr.
  - subst x. rewrite page_dist_up_down by lia. done.
Qed.

Lemma pre_extend_ok new_begin :
  fits_range s b new_begin (b_end (ba s b)) -> new_begin <= b_begin (ba s b) ->
  b_end (ba s b) - new_begin <= BIGGEST_SANE_USER_ALLOC ->
  exists s', __liballocs_pre_extend_bigalloc (B := release) b new_begin s = Done (true, s') /\
    resize_ok s s' b new_begin (b_end (ba s b)).
Proof.
  intros F Hle Hsane. pose proof (wf_bounds _ W b U) as [Hb Hm]. destruct (fr_bounds _ _ _ _ F) as [Hn _].
  unfold __liballocs_pre_extend_bigalloc. cbv [sanity_check_bigalloc NDEBUG release].
  rewrite (bind_Done _ _ _ tt s) by done. rewrite (bind_Done _ _ _ (b_begin (ba s b)) s) by done.
  destruct (Z.ltb_spec new_begin (b_begin (ba s b))) as [Hlt|Hge].
  2:{ assert (new_begin = b_begin (ba s b)) as -> by lia. exists s. split; [done|].
      split; [done..|tauto|]. split; [done|by destruct (ba s b)|done..]. }
  set (s1 := upd b (set_begin new_begin) s).
  assert (W1 : wf s1).
  { apply (wf_resized s s1 b new_begin (b_end (ba s b))); try done.
    apply (fill_resized s b (set_begin new_begin) new_begin (b_end (ba s b)) 0 0 0). by destruct (ba s b). }
  assert (U1 : forall i, used s1 i <-> used s i).
  { intros i. apply (rz_used s s1 b new_begin (b_end (ba s b))); try done.
    apply (fill_resized s b (set_begin new_begin) new_begin (b_end (ba s b)) 0 0 0). by destruct (ba s b). }
  assert (P1 : forall i, parent (ba s1 i) = parent (ba s i)) by (intros i; unfold s1; by rewrite field_upd).
  assert (B1 : forall n, strictly_below s1 b n -> strictly_below s b n).
  { intros n (N & Un & A). split_and!; [done|by apply U1|]. unfold ancestor in *.
    eapply rtc_subrel; [|exact A]. intros x y (Uy & Py & Ny). rewrite P1 in *. split_and!; try done. by apply U1. }
  destruct (is_under_ok s1 (pi s (PAGENUM (b_begin (ba s b)))) b W1) as (r & Er & Hr); [by apply U1|].
  assert (Ee : b_end (ba s1 b) = b_end (ba s b)) by (unfold s1; by rewrite field_upd).
  set (lim := pre_extend_limit).
  assert (Hd : forall x : bool,
    (if PAGENUM (b_begin (ba s b)) <? PAGENUM (b_end (ba s b)) then x = negb r else x = false) ->
    PAGE_DIST (ROUND_UP new_begin PAGE_SIZE)
      (if x then ROUND_UP (b_begin (ba s b)) PAGE_SIZE else ROUND_DOWN (b_begin (ba s b)) PAGE_SIZE)
    = Z.max 0 (lim - page_up new_begin)).
  { apply pre_extend_count; [lia..|]. intros Hr'. by apply B1, Hr. }
  exists (fill_pages (Z.to_nat (Z.max 0 (lim - page_up new_begin))) (page_up new_begin) b s1). split.
  - assert (Hn16 : 0 <= Z.max 0 (lim - page_up new_begin) <= Z.shiftr BIGGEST_SANE_USER_ALLOC LOG_PAGE_SIZE).
    { split; [lia|]. apply sane_page_count; [lia|]. unfold lim, pre_extend_limit.
      destruct (Z.ltb_spec (page_down (b_begin (ba s b))) (page_down (b_end (ba s b)))); page_lia. }
    erewrite bind_Done; [cbn beta; erewrite bind_Done; [|done]; done|].
    rewrite (bind_Done _ _ _ tt s1), (bind_Done _ _ _ (parent (ba s b)) s1), (bind_Done _ _ _ (b_end (ba s b)) s1),
      (bind_Done _ _ _ (pi s (PAGENUM (b_begin (ba s b)))) s1); [|done|by cbv [rd gets]; rewrite Ee|
      by cbv [rd gets]; rewrite P1|done].
    destruct (PAGENUM (b_begin (ba s b)) <? PAGENUM (b_end (ba s b))) eqn:Ep.
    + rewrite (bind_Done _ _ _ (negb r) s1) by (rewrite (bind_Done _ _ _ _ _ Er); done).
      specialize (Hd (negb r) eq_refl). rewrite Hd, pagenum_round_up by lia. rewrite memset_release_fill; [done|by apply (num16 s W); right|done].
    + rewrite (bind_Done _ _ _ false s1) by done.
      specialize (Hd false eq_refl). cbv iota in Hd |- *. rewrite Hd, pagenum_round_up by lia. rewrite memset_release_fill; [done|by apply (num16 s W); right|done].
  - apply resize_fill; [done..|by destruct (ba s b)|done|]. intros p Hp. unfold lim, pre_extend_limit.
    destruct (Z.ltb_spec (page_down (b_begin (ba s b))) (page_down (b_end (ba s b))));
      case_decide; try left; page_lia.
Qed.
End ops.
End preextend.
