(* ===== verification/QueryCorrect.v ===== *)
(** Correctness of the address queries: over a well-formed table whose page
    index meets its contract, the descent from the page index finds the
    deepest bigalloc spanning an address, and terminates within the fuel. *)
From S2P Require Import Prelude Vas BigAlloc PageIndex PageIndexQuery BigAllocFacts Forest Traversal.

Section query.
Context {V : Vas} {VL : VasLaws V} {H : Hooks} {B : Build}.

(** What a descent from [cur] finds. *)
Definition deepest_under (s : state) (cur addr d : Z) : Prop :=
  ancestor s cur d /\ used s d /\ (cur = d \/ contains s d addr) /\
  forall c, used s c -> parent (ba s c) = d -> ~ contains s c addr.

Lemma spans_contains s i addr : spans addr (ba s i) = true <-> contains s i addr.
Proof. unfold spans, contains. rewrite andb_true_iff, Z.leb_le, Z.ltb_lt. done. Qed.

Lemma find_deepest_recursive_ok s cur addr :
  wf s -> used s cur ->
  exists d, find_deepest_bigalloc_recursive cur addr s = Done (d, s) /\ deepest_under s cur addr d.
Proof.
  intros Wf. revert cur. apply (descent_ind s Wf
    (fun fuel cur => exists d, find_deepest_rec fuel cur addr s = Done (d, s) /\
       deepest_under s cur addr d)
    (fun fuel cur child l => exists d, find_deepest_children fuel child addr s = Done (d, s) /\
       ((d = 0 /\ forall c, c ∈ l -> ~ contains s c addr) \/
        exists c, c ∈ l /\ contains s c addr /\ deepest_under s c addr d))).
  - intros fuel cur l Uc K (d & E & Hd). exists (if d =? 0 then cur else d). split.
    { cbn [find_deepest_rec]. unfold rd, gets, mbind, M_bind. by rewrite E. }
    destruct Hd as [[-> Hn]|(c & Hc & Cc & A & Ud & Cd & Hn)]; simpl.
    + split_and!; [apply ancestor_refl|done|by left|]. intros c U P. apply Hn.
      by apply (proj2 (proj2 K)).
    + rewrite (proj2 (Z.eqb_neq d 0)) by by apply (used_nonzero s).
      apply (proj2 (proj2 K)) in Hc as [Uch Pch].
      split_and!; [|done|right; naive_solver|done].
      eapply ancestor_trans; [|done]. rewrite <- Pch. apply ancestor_parent; [done|].
      rewrite Pch. by apply (used_nonzero s).
  - intros fuel cur _. exists 0. split; [done|]. left. set_solver.
  - intros fuel cur child l Uc Uch Nz Pch Nl (d & Er & Hd) (d' & Ec & Hd').
    cbn [find_deepest_children]. rewrite (proj2 (Z.eqb_neq child 0)) by done.
    unfold rd, gets, mbind, M_bind. simpl. unfold id.
    destruct (spans addr (ba s child)) eqn:Sp.
    + apply spans_contains in Sp. exists d. rewrite Er.
      rewrite (proj2 (Z.eqb_neq d 0)) by (apply (used_nonzero s); [done|apply Hd]).
      split; [done|]. right. exists child. split_and!; [by left|done|done].
    + exists d'. split; [done|]. destruct Hd' as [[-> Hn]|(c & Hc & ?)].
      * left. split; [done|]. intros c [->|Hc]%elem_of_cons; [|by apply Hn].
        rewrite <- spans_contains. congruence.
      * right. exists c. split; [by right|done].
Qed.

(** ** From an address to the page index *)

Definition user_address (addr : Z) : Prop := 0 <= addr <= MAXIMUM_USER_ADDRESS.

Lemma user_address_page addr : user_address addr -> 0 <= PAGENUM addr < NPAGES.
Proof.
  unfold user_address, NPAGES. intros Ha. rewrite PAGENUM_spec by lia.
  destruct max_user_address_spec as [? ?]. unfold PAGE_SIZE in *.
  Z.to_euclidean_division_equations. lia.
Qed.

Lemma covers_contains s n addr :
  0 <= addr -> covers s n (PAGENUM addr) -> contains s n addr.
Proof. intros Ha. rewrite PAGENUM_spec by done. unfold covers, contains. page_lia. Qed.

(** A root spanning an address spans its whole page. *)
Lemma root_covers_page s r addr :
  wf s -> used s r -> parent (ba s r) = 0 -> 0 <= addr -> contains s r addr ->
  covers s r (PAGENUM addr).
Proof.
  intros W U P Ha C. destruct (wf_aligned _ W r U P). rewrite PAGENUM_spec by done.
  unfold covers, contains in *. page_lia.
Qed.

Lemma index_spans s addr :
  wf s -> index_ok s -> user_address addr ->
  (exists i, used s i /\ contains s i addr) ->
  used s (pi s (PAGENUM addr)) /\ contains s (pi s (PAGENUM addr)) addr.
Proof.
  intros W I Ha (i & Ui & Ci). pose proof (user_address_page _ Ha) as Hp.
  assert (0 <= addr) by apply Ha.
  destruct (root_exists s i W Ui) as (r & A & Ur & Er).
  destruct (ancestor_contains s r i addr W Ui A Ci) as [_ Cr].
  destruct (I _ Hp) as [[_ Hn]|(U & C & _)].
  - destruct (Hn r Ur). by apply root_covers_page.
  - split; [done|]. by apply covers_contains.
Qed.

Lemma index_none s addr :
  wf s -> index_ok s -> user_address addr ->
  (forall i, used s i -> ~ contains s i addr) -> pi s (PAGENUM addr) = 0.
Proof.
  intros W I Ha Hn. destruct (I _ (user_address_page _ Ha)) as [[? _]|(U & C & _)]; [done|].
  destruct (Hn _ U). apply covers_contains; [apply Ha|done].
Qed.

(** The specification of an address query: the deepest bigalloc spanning the
    address, i.e. one of which every bigalloc spanning it is an ancestor. *)
Definition deepest_at (s : state) (addr d : Z) : Prop :=
  used s d /\ contains s d addr /\
  forall j, used s j -> contains s j addr -> ancestor s j d.

Lemma deepest_under_at s n addr d :
  wf s -> used s n -> contains s n addr -> deepest_under s n addr d -> deepest_at s addr d.
Proof.
  intros W U C (A & Ud & Cd & Hn).
  assert (contains s d addr) as Cd' by (by destruct Cd as [<-|]).
  split_and!; [done..|]. intros j Uj Cj. by eapply deepest_is_below.
Qed.

Lemma find_deepest_ok s addr :
  wf s -> index_ok s -> user_address addr ->
  (exists i, used s i /\ contains s i addr) ->
  exists d, find_deepest_bigalloc addr s = Done (d, s) /\ deepest_at s addr d.
Proof.
  intros W I Ha Hex. destruct (index_spans s addr W I Ha Hex) as [U C].
  destruct (find_deepest_recursive_ok s _ addr W U) as (d & E & Hd).
  exists d. split; [|by eapply deepest_under_at].
  unfold find_deepest_bigalloc, pi_get, gets, mbind, M_bind.
  rewrite (proj2 (Z.eqb_neq _ 0)) by by apply (used_nonzero s). done.
Qed.

(** ** The leaf allocator *)

Lemma leaf_step_ok s cur obj fuel :
  wf s -> forall acc child l, pending s cur child l -> (length l < fuel)%nat ->
  exists r, leaf_step fuel acc child obj s = Done (r, s) /\
    ((r = acc /\ forall c, c ∈ l -> ~ contains s c obj) \/ (r ∈ l /\ contains s r obj)).
Proof.
  intros W. induction fuel as [|fuel IH]; intros acc child l Hp Hf; [lia|].
  destruct (pending_inv _ _ _ _ W Hp) as [[-> ->]|(l' & Nz & -> & Uch & Pch & Nl & Hp')].
  { exists acc. split; [done|]. left. set_solver. }
  cbn [length] in Hf. cbn [leaf_step]. rewrite (proj2 (Z.eqb_neq child 0)) by done.
  unfold rd, gets, mbind, M_bind, id. simpl.
  destruct (IH (if spans obj (ba s child) then child else acc) _ l' Hp' ltac:(lia)) as (r & -> & Hr).
  exists r. split; [done|]. destruct (spans obj (ba s child)) eqn:Sp.
  - apply spans_contains in Sp. right.
    destruct Hr as [[-> _]|[? ?]]; [split; [by left|done]|split; [by right|done]].
  - destruct Hr as [[-> Hn]|[? ?]]; [left|right; split; [by right|done]].
    split; [done|]. intros c [->|Hc]%elem_of_cons; [|by apply Hn].
    rewrite <- spans_contains. congruence.
Qed.

Lemma kids_length s i l : wf s -> kids s i l -> (length l < NB)%nat.
Proof.
  intros W (ND & _ & K). apply (used_nodup_length s); [done..|].
  apply Forall_forall. intros c Hc. by apply K.
Qed.

Lemma leaf_loop_S fuel prev cur obj s :
  leaf_loop (S fuel) prev cur obj s =
    if cur =? 0 then Done (prev, s) else
    match leaf_step FUEL cur (first_child (ba s cur)) obj s with
    | Done (n, s') => leaf_loop fuel cur (if n =? cur then 0 else n) obj s'
    | Abort => Abort
    | NoFuel => NoFuel
    end.
Proof. cbn [leaf_loop]. by destruct (cur =? 0). Qed.

Lemma leaf_loop_mono fuel prev cur obj s r :
  leaf_loop fuel prev cur obj s = Done r -> leaf_loop (S fuel) prev cur obj s = Done r.
Proof.
  revert prev cur s r. induction fuel as [|fuel IH]; intros prev cur s r; [done|].
  rewrite (leaf_loop_S (S fuel)), (leaf_loop_S fuel). destruct (cur =? 0); [done|].
  destruct (leaf_step FUEL cur _ obj s) as [[n s']| |]; [|done..]. apply IH.
Qed.

(** The leaf loop follows the same path; [descent_ind] bounds it. *)
Lemma leaf_loop_ok s obj :
  wf s -> forall cur, used s cur -> contains s cur obj -> forall prev,
  exists d, leaf_loop FUEL prev cur obj s = Done (d, s) /\ deepest_at s obj d.
Proof.
  intros Wf. apply (descent_ind s Wf
    (fun fuel cur => contains s cur obj -> forall prev,
       exists d, leaf_loop fuel prev cur obj s = Done (d, s) /\ deepest_at s obj d)
    (fun fuel cur child l => (1 <= fuel)%nat /\ forall c, c ∈ l -> contains s c obj ->
       forall prev, exists d, leaf_loop fuel prev c obj s = Done (d, s) /\ deepest_at s obj d)).
  - intros fuel cur l Uc K [Hf IH] Cc prev.
    destruct (leaf_step_ok s cur obj FUEL Wf cur (first_child (ba s cur)) l) as (r & E & Hr).
    { by apply pending_kids_of. }
    { pose proof (kids_length s cur l Wf K) as Hl. rewrite FUEL_eq. lia. }
    assert (cur <> 0) by by apply (used_nonzero s).
    rewrite leaf_loop_S, (proj2 (Z.eqb_neq cur 0)), E by done.
    destruct Hr as [[-> Hn]|[Hl Cr]].
    + rewrite Z.eqb_refl. exists cur. destruct fuel; [lia|]. rewrite leaf_loop_S. split; [done|].
      apply (deepest_under_at s cur obj cur Wf Uc Cc). split_and!; [apply ancestor_refl|done|by left|].
      intros c U P. apply Hn. by apply (proj2 (proj2 K)).
    + rewrite (proj2 (Z.eqb_neq r cur)); [by apply IH|].
      intros ->. apply (proj2 (proj2 K)) in Hl as [U P]. destruct (wf_rank _ Wf) as [rk Hrk].
      specialize (Hrk cur U). rewrite P in Hrk. specialize (Hrk ltac:(done)). lia.
  - intros fuel cur Uc. split; [lia|]. intros c Hc. by apply elem_of_nil in Hc.
  - intros fuel cur child l Uc Uch Nz Pch Nl IHr [Hf IHc]. split; [lia|].
    intros c [->|Hc]%elem_of_cons Cc prev.
    + destruct (IHr Cc prev) as (d & E & Hd). exists d. split; [|done]. by apply leaf_loop_mono.
    + destruct (IHc c Hc Cc prev) as (d & E & Hd). exists d. split; [|done].
      by apply leaf_loop_mono.
Qed.

Lemma deepest_at_unique s addr d d' :
  wf s -> deepest_at s addr d -> deepest_at s addr d' -> d = d'.
Proof.
  intros W (U & C & A) (U' & C' & A'). specialize (A d' U' C'). specialize (A' d U C).
  by apply (ancestor_antisym s).
Qed.

Lemma leaf_allocator_ok s obj d :
  wf s -> index_ok s -> user_address obj -> deepest_at s obj d ->
  __liballocs_leaf_allocator_for obj s =
    Done ((if decide (suballocator (ba s d) = 0) then allocated_by (ba s d)
           else suballocator (ba s d), Some d), s).
Proof.
  intros W I Ha Hd. destruct (index_spans s obj W I Ha) as [U C].
  { exists d. by destruct Hd as (? & ? & _). }
  destruct (leaf_loop_ok s obj W _ U C 0) as (d' & E & Hd').
  rewrite (deepest_at_unique s obj d d' W Hd Hd').
  assert (d' <> 0) by (apply (used_nonzero s); [done|apply Hd']).
  unfold __liballocs_leaf_allocator_for, __liballocs_get_bigalloc_containing, pi_get, rd, gets, mbind, M_bind.
  rewrite E, (proj2 (Z.eqb_neq d' 0)) by done. unfold id.
  case_decide as Hs; [by rewrite Hs|]. by rewrite (proj2 (Z.eqb_neq _ 0)) by done.
Qed.

(** ** The topmost bigalloc of an allocator *)

Lemma root_loop_ok s : wf s -> forall cur, used s cur ->
  exists r, root_loop FUEL cur s = Done (r, s) /\
    ancestor s r cur /\ used s r /\ parent (ba s r) = 0.
Proof.
  intros Wf. apply (ascent_ind s (fun fuel cur => exists r, root_loop fuel cur s = Done (r, s) /\
    ancestor s r cur /\ used s r /\ parent (ba s r) = 0) Wf).
  intros fuel cur U IH. cbn [root_loop]. unfold rd, gets, mbind, M_bind.
  destruct (Z.eqb_spec (parent (ba s cur)) 0) as [E|N].
  - exists cur. split_and!; [done|apply ancestor_refl|done..].
  - destruct (IH N) as (r & -> & A & ? & ?). exists r.
    split_and!; [done|by apply ancestor_step|done..].
Qed.

Definition allocator_of (match_suballocator : bool) (r : big_allocation) : Z :=
  if match_suballocator then suballocator r else allocated_by r.

(** [r] is the outermost bigalloc below [cur] that spans the address and
    belongs to [a]; 0 means that there is none. *)
Definition topmost_under (s : state) (cur addr a : Z) (sub : bool) (r : Z) : Prop :=
  let hit j := used s j /\ contains s j addr /\ allocator_of sub (ba s j) = a /\ ancestor s cur j in
  (r = 0 /\ forall j, ~ hit j) \/ (hit r /\ forall j, hit j -> ancestor s r j).

Lemma find_bigalloc_rec_ok s addr a sub :
  wf s -> forall cur, used s cur -> contains s cur addr ->
  exists r, find_bigalloc_rec FUEL cur addr a sub s = Done (r, s) /\ topmost_under s cur addr a sub r.
Proof.
  intros Wf. apply (descent_ind s Wf
    (fun fuel cur => contains s cur addr -> exists r,
       find_bigalloc_rec fuel cur addr a sub s = Done (r, s) /\ topmost_under s cur addr a sub r)
    (fun fuel cur child l => exists r,
       find_bigalloc_children fuel child addr a sub s = Done (r, s) /\
       ((r = 0 /\ forall c, c ∈ l -> ~ contains s c addr) \/
        exists c, c ∈ l /\ contains s c addr /\ topmost_under s c addr a sub r))).
  - intros fuel cur l Uc K (r & E & Hr) Cc.
    cbn [find_bigalloc_rec]. unfold rd, gets, mbind, M_bind, id.
    change (if sub then suballocator (ba s cur) else allocated_by (ba s cur))
      with (allocator_of sub (ba s cur)).
    destruct (Z.eqb_spec (allocator_of sub (ba s cur)) a) as [Ea|Na].
    { exists cur. split; [done|]. right. split; [|by intros j (_ & _ & _ & ?)].
      split_and!; [done..|apply ancestor_refl]. }
    exists r. split; [done|]. unfold topmost_under in *.
    assert (Hdown : forall j, used s j /\ contains s j addr /\
      allocator_of sub (ba s j) = a /\ ancestor s cur j ->
      exists c, c ∈ l /\ contains s c addr /\ ancestor s c j).
    { intros j (Uj & Cj & Aj & Anc). assert (cur <> j) by (intros ->; done).
      destruct (ancestor_child _ _ _ Anc) as (c & Ac & U & P); [done|].
      exists c. split_and!; [by apply (proj2 (proj2 K))| |done].
      by apply (ancestor_contains s c j). }
    destruct Hr as [[-> Hn]|(c & Hc & Cch & [[-> Hn]|[(Ur & Cr & Ar & Anr) Ht]])].
    + left. split; [done|]. intros j Hj. destruct (Hdown j Hj) as (c & Hc & Cc' & _). by apply (Hn c).
    + left. split; [done|]. intros j Hj. destruct (Hdown j Hj) as (c' & Hc' & Cc' & Anc).
      apply (proj2 (proj2 K)) in Hc as [U P], Hc' as [U' P'].
      assert (c' = c) as -> by (eapply siblings_same; eauto; congruence).
      apply (Hn j). destruct Hj as (? & ? & ? & _). done.
    + apply (proj2 (proj2 K)) in Hc as [U P]. right. split.
      * split_and!; [done..|]. eapply ancestor_trans; [|done]. rewrite <- P.
        apply ancestor_parent; [done|]. rewrite P. by apply (used_nonzero s).
      * intros j Hj. destruct (Hdown j Hj) as (c' & Hc' & Cc' & Anc).
        apply (proj2 (proj2 K)) in Hc' as [U' P'].
        assert (c' = c) as -> by (eapply siblings_same; eauto; congruence).
        apply Ht. destruct Hj as (? & ? & ? & _). done.
  - intros fuel cur _. exists 0. split; [done|]. left. set_solver.
  - intros fuel cur child l Uc Uch Nz Pch Nl IHr (r & Ec & Hr).
    cbn [find_bigalloc_children]. rewrite (proj2 (Z.eqb_neq child 0)) by done.
    unfold rd, gets, mbind, M_bind, id. destruct (spans addr (ba s child)) eqn:Sp.
    + apply spans_contains in Sp. destruct (IHr Sp) as (r' & E & Ht). exists r'. split; [done|].
      right. exists child. split_and!; [by left|done..].
    + exists r. split; [done|]. destruct Hr as [[-> Hn]|(c & Hc & ?)].
      * left. split; [done|]. intros c [->|Hc]%elem_of_cons; [|by apply Hn].
        rewrite <- spans_contains. congruence.
      * right. exists c. split; [by right|done].
Qed.

(** Outermost over the whole forest. *)
Definition topmost_at (s : state) (addr a : Z) (sub : bool) (r : Z) : Prop :=
  let hit j := used s j /\ contains s j addr /\ allocator_of sub (ba s j) = a in
  (r = 0 /\ forall j, ~ hit j) \/ (hit r /\ forall j, hit j -> ancestor s r j).

Lemma from_root_ok s addr a sub :
  wf s -> index_ok s -> user_address addr -> (exists i, used s i /\ contains s i addr) ->
  exists r, from_root (pi s (PAGENUM addr)) addr a sub s = Done (r, s) /\ topmost_at s addr a sub r.
Proof.
  intros W I Ha Hex. destruct (index_spans s addr W I Ha Hex) as [U C].
  destruct (root_loop_ok s W _ U) as (root & E & A & Ur & Pr).
  destruct (ancestor_contains s root _ addr W U A C) as [_ Cr].
  destruct (find_bigalloc_rec_ok s addr a sub W root Ur Cr) as (r & E' & Ht).
  exists r. split. { unfold from_root, mbind, M_bind. by rewrite E. }
  assert (Hall : forall j, used s j -> contains s j addr -> ancestor s root j).
  { intros j Uj Cj. destruct (root_exists s j W Uj) as (r' & A' & Ur' & Pr').
    destruct (ancestor_contains s r' j addr W Uj A' Cj) as [_ Cr'].
    assert (r' = root) as -> by (eapply siblings_same; eauto; congruence). done. }
  clear E E'. destruct Ht as [[-> Hn]|[(Ur' & Cr' & Ar & An) Ht]].
  - left. split; [done|]. intros j (Uj & Cj & Aj). apply (Hn j). auto.
  - right. split; [done|]. intros j (Uj & Cj & Aj). apply Ht. auto.
Qed.

(** From the root of the forest: the page index decides where to start, and an
    unindexed address leads to the null record once system calls are trapped. *)
Lemma from_null_ok s addr a sub : wf s -> a <> 0 -> from_root 0 addr a sub s = Done (0, s).
Proof.
  intros W Na. pose proof (wf_null _ W) as [= Ef Ea Es]. unfold from_root.
  rewrite FUEL_eq, Nat.add_comm. simpl (4 + 2 * NB)%nat. generalize (2 * NB)%nat. intros n.
  cbn [root_loop find_bigalloc_rec]. unfold rd, gets, mbind, M_bind, id.
  rewrite (wf_free _ W 0 (not_used_0 s W)).  rewrite Z.eqb_refl.
  cbv [mret M_ret]. rewrite Ea, Es, Ef.
  by replace ((if sub then 0 else 0) =? a) with false by (symmetry; destruct sub; by apply Z.eqb_neq).
Qed.

Lemma find_from_root_ok s addr a sub :
  wf s -> index_ok s -> user_address addr -> a <> 0 ->
  (exists i, used s i /\ contains s i addr) \/ systrap_is_initialized = true ->
  exists r, find_bigalloc_recursive 0 addr a sub s = Done (r, s) /\ topmost_at s addr a sub r.
Proof.
  intros W I Ha Na Hc. unfold find_bigalloc_recursive. cbn [Z.eqb]. cbv [pi_get gets]. unfold mbind at 1, M_bind at 1.
  destruct (decide (Exists (fun i => used s i /\ b_begin (ba s i) <= addr < b_end (ba s i)) (elements (live s)))) as [Hex|Hn].
  - apply Exists_exists in Hex as (i & _ & U & C). assert (Hex : exists i, used s i /\ contains s i addr) by by exists i.
    destruct (index_spans s addr W I Ha Hex) as [Up _].
    rewrite (proj2 (Z.eqb_neq _ 0)) by by apply (used_nonzero s). by apply from_root_ok.
  - assert (Hu : forall i, used s i -> ~ contains s i addr).
    { intros i U C. apply Hn, Exists_exists. exists i. split; [|done]. by apply elem_of_elements, elem_of_live. }
    destruct Hc as [(i & U & C)|Hs]; [by destruct (Hu i U)|]. rewrite Hs. rewrite (index_none s addr W I Ha Hu). simpl.
    exists 0. split; [by apply from_null_ok|]. left. split; [done|]. intros j (U & C & _). by apply (Hu j).
Qed.
End query.
