(* ===== verification/Reachable.v ===== *)
(** [__liballocs_new_bigalloc]: choice of the parent, the checks it makes and
    the states it leads to; and the life of the bigalloc table as a transition
    system: from the empty table, through the creation of the anchor bigalloc,
    creations, deletions and resizings, every state satisfies the invariant of
    the page index.

    A step is a call of the library's interface in the release build, made
    where it keeps the index exact: a new bigalloc takes a free range of its
    parent, a deletion spares the anchor of the top-level list, a resized
    bigalloc keeps its children, does not run into its siblings, and its end
    or beginning moves as [end_movable] or [begin_cuttable] says.  These are
    conditions on the caller: the code does not check them. *)
From S2P Require Import Prelude DList Vas BigAlloc PageIndex PageIndexQuery BigAllocFacts Forest Traversal.
From S2P Require Import Toplevel Attach Create Detach Delete Resize QueryCorrect.

Section newbig.
Context {V : Vas} {VL : VasLaws V} {H : Hooks}.

(** No allocator claims the unindexed address. *)
Definition quiet (addr : Z) (s : state) : Prop :=
  stack_notify_unindexed_address addr s = Done (false, s) /\
  mmap_notify_unindexed_address addr s = Done (false, s).

Definition uncovered (s : state) (addr : Z) : Prop := forall i, used s i -> ~ contains s i addr.

Lemma find_deepest_none s addr :
  wf s -> index_ok s -> user_address addr -> uncovered s addr -> quiet addr s ->
  find_deepest_bigalloc addr s = Done (0, s).
Proof.
  intros W I Ha Hn [Q1 Q2]. pose proof (index_none s addr W I Ha Hn) as E.
  unfold find_deepest_bigalloc, __liballocs_notify_unindexed_address, pi_get, gets, mbind, M_bind.
  rewrite E. simpl. rewrite Q1. simpl. rewrite Q2. simpl. by rewrite E.
Qed.

Lemma find_deepest_at s addr d :
  wf s -> index_ok s -> user_address addr -> deepest_at s addr d ->
  find_deepest_bigalloc addr s = Done (d, s).
Proof.
  intros W I Ha D. destruct (find_deepest_ok s addr W I Ha) as (d' & E & D').
  { exists d. by destruct D as (? & ? & _). }
  by rewrite (deepest_at_unique s addr d d' W D D').
Qed.

(** A range whose ends have the same deepest bigalloc, none of whose children
    begins inside it, fits below that bigalloc. *)
Lemma nested_fits s d ptr e :
  wf s -> 0 < ptr < e -> deepest_at s ptr d -> deepest_at s (e - 1) d ->
  (forall c, used s c -> parent (ba s c) = d -> ~ (ptr <= b_begin (ba s c) < e)) ->
  fits s d ptr e.
Proof.
  intros W He D1 D2 Hk. destruct D1 as (U & C1 & A1), D2 as (_ & C2 & _).
  unfold fits. rewrite decide_False by by apply (used_nonzero s).
  unfold contains in *. split_and!; [done|lia..|]. intros c Uc Pc. specialize (Hk c Uc Pc).
  destruct (decide (e <= b_begin (ba s c))) as [|N]; [by left|right].
  apply Z.le_ngt. intros Hlt. apply (child_not_ancestor s c d W Uc Pc). apply A1; [done|].
  unfold contains. lia.
Qed.

(** The parent a creation ends up with: the one passed, or the one deduced. *)
Definition parent_for (s : state) (ptr size mp P : Z) : Prop :=
  (mp <> 0 /\ P = mp) \/
  (mp = 0 /\ find_deepest_bigalloc ptr s = Done (P, s) /\
   find_deepest_bigalloc (ptr + size - 1) s = Done (P, s) /\
   (P = 0 -> ptr mod PAGE_SIZE = 0 /\ (ptr + size) mod PAGE_SIZE = 0)).

(** Once the checks pass, the release build does what [bigalloc_new] does. *)
Lemma new_bigalloc_checked s ptr size P ap apf ab mp :
  0 < ptr -> 0 < size <= BIGGEST_SANE_USER_ALLOC -> ptr + size < 2 ^ 64 -> parent_for s ptr size mp P ->
  __liballocs_new_bigalloc (B := release) ptr size ap apf mp ab s =
    bigalloc_new (B := release) ptr size P ap apf ab s.
Proof.
  intros Hb Hs Hm Hp. unfold __liballocs_new_bigalloc.
  rewrite (proj2 (Z.ltb_ge _ _)) by lia.
  rewrite (wrap_small 64 (ptr + size - 1)), (wrap_small 64 (ptr + size - 1 + 1)) by lia.
  assert (Hr : forall x, 0 <= x -> x mod PAGE_SIZE = 0 -> ROUND_UP x PAGE_SIZE = x).
  { intros x Hx Hxm. rewrite ROUND_UP_spec by done. page_lia. }
  rewrite (bind_Done _ _ _ P s).
  2:{ destruct Hp as [[N ->]|(-> & E1 & E2 & Ha)]; [by rewrite (proj2 (Z.eqb_neq mp 0))|].
      change (negb (0 =? 0)) with false. cbv iota.
      rewrite (bind_Done _ _ _ _ _ E1), (bind_Done _ _ _ _ _ E2), Z.eqb_refl. simpl.
      destruct (Z.eqb_spec P 0) as [->|]; [|done]. destruct (Ha eq_refl).
      replace (ptr + size - 1 + 1) with (ptr + size) by lia. by rewrite !Hr, !Z.eqb_refl by lia. }
  rewrite (bind_Done _ _ _ tt s) by by case_match.
  unfold mbind, M_bind. by destruct (bigalloc_new ptr size P ap apf ab s) as [[b s']| |].
Qed.

Lemma new_bigalloc_with_parent s b ptr size P ap apf ab mp :
  wf s -> index_ok s -> first_free s b -> 0 < size <= BIGGEST_SANE_USER_ALLOC ->
  fits s P ptr (ptr + size) -> parent_for s ptr size mp P ->
  exists s', __liballocs_new_bigalloc (B := release) ptr size ap apf mp ab s = Done (b, s') /\
    created s s' b /\ meta (ba s' b) = (ptr, ptr + size, P, ab, 0, ap, apf, 0, 0).
Proof.
  intros W I Fr Hs Fit Hp. pose proof (fits_bounds _ _ _ _ W Fit) as [Hb Hm].
  destruct (max_user_address_spec) as [Hmax _]. rewrite (new_bigalloc_checked s ptr size P) by (done || lia).
  apply bigalloc_new_ok; (done || lia).
Qed.

(** A full table ends the program. *)
Lemma new_bigalloc_full s ptr size P ap apf ab mp :
  (forall j, 1 <= j < NBIGALLOCS -> used s j) ->
  0 < ptr -> 0 < size <= BIGGEST_SANE_USER_ALLOC -> ptr + size < 2 ^ 64 -> parent_for s ptr size mp P ->
  __liballocs_new_bigalloc (B := release) ptr size ap apf mp ab s = Abort.
Proof.
  intros Hfull Hb Hs Hm Hp. rewrite (new_bigalloc_checked s ptr size P) by done.
  unfold bigalloc_new, mbind, M_bind.
  destruct (find_free_bigalloc_ok s) as [(b & (Hr & N & _) & _)|[_ ->]]; [|done]. by destruct N; apply Hfull.
Qed.

Lemma new_bigalloc_too_big {B : Build} ptr size ap apf mp ab s :
  BIGGEST_SANE_USER_ALLOC < size -> __liballocs_new_bigalloc ptr size ap apf mp ab s = Abort.
Proof. intros Hs. unfold __liballocs_new_bigalloc. by rewrite (proj2 (Z.ltb_lt _ _)). Qed.

Lemma new_bigalloc_deduced {B : Build} ptr size ap apf ab s d1 d2 :
  0 <= size <= BIGGEST_SANE_USER_ALLOC -> 0 <= ptr + size - 1 < 2 ^ 63 ->
  find_deepest_bigalloc ptr s = Done (d1, s) ->
  find_deepest_bigalloc (ptr + size - 1) s = Done (d2, s) ->
  d1 <> d2 \/ (d1 = 0 /\ d2 = 0 /\ 0 <= ptr /\ (ptr mod PAGE_SIZE <> 0 \/ (ptr + size) mod PAGE_SIZE <> 0)) ->
  __liballocs_new_bigalloc ptr size ap apf 0 ab s = Abort.
Proof.
  intros Hs Hr E1 E2 Hc. unfold __liballocs_new_bigalloc.
  rewrite (proj2 (Z.ltb_ge _ _)) by lia.
  rewrite (wrap_small 64 (ptr + size - 1)), (wrap_small 64 (ptr + size - 1 + 1)) by lia.
  change (negb (0 =? 0)) with false. cbv iota. unfold mbind at 1, M_bind at 1.
  rewrite (bind_Done _ _ _ _ _ E1), (bind_Done _ _ _ _ _ E2).
  destruct Hc as [N|(-> & -> & Hp & Ha)]; [by rewrite (proj2 (Z.eqb_neq d1 d2))|].
  simpl. replace (ptr + size - 1 + 1) with (ptr + size) by lia.
  assert (Hne : forall x, 0 <= x -> x mod PAGE_SIZE <> 0 -> ROUND_UP x PAGE_SIZE <> x).
  { intros x Hx Hxm. rewrite ROUND_UP_spec by done. page_lia. }
  destruct (Z.eqb_spec (ROUND_UP ptr PAGE_SIZE) ptr) as [Ep|]; [|done]. simpl.
  destruct Ha as [Ha|Ha]; [by destruct (Hne ptr)|].
  rewrite (proj2 (Z.eqb_neq _ _)); [done|]. apply Hne; [lia|done].
Qed.
End newbig.

Section reachable.
Context {V : Vas} {VL : VasLaws V} {H : Hooks}.

Record table_ok (s : state) : Prop := {
  tk_wf : wf s;
  tk_index : index_ok s;
  tk_start : start_ok s;
  tk_sane : sane s;
}.

(** ** The empty table *)

Lemma init_not_used i : ~ used init_state i.
Proof. unfold used, ba, init_state. simpl. rewrite lookup_empty. simpl. tauto. Qed.

Lemma init_ok : table_ok init_state.
Proof.
  pose proof init_not_used as N. split.
  - split; try by (intros i; intros; by destruct (N i)).
    + exists []. split_and!; [constructor|exists 0, 0; done| |constructor].
      intros c. split; [intros Hc; by apply not_elem_of_nil in Hc|]. intros [U _]. by destruct (N c).
    + intros i _. unfold ba, init_state. simpl. by rewrite lookup_empty.
    + exists (fun _ => 0%nat). intros i U. by destruct (N i).
    + unfold ba, init_state. simpl. by rewrite lookup_empty.
  - intros p _. left. split; [|intros i U; by destruct (N i)].
    unfold pi, init_state. simpl. by rewrite lookup_empty.
  - right. done.
  - intros i U. by destruct (N i).
Qed.

(** ** Steps *)


Inductive step : state -> state -> Prop :=
| step_boot s s' b ptr size ap apf ab :
    START s = 0 -> fits s 0 ptr (ptr + size) -> 0 < size <= BIGGEST_SANE_USER_ALLOC ->
    parent_for s ptr size 0 0 ->
    __liballocs_new_bigalloc (B := release) ptr size ap apf 0 ab s = Done (b, s') ->
    step s (set_START b s')
| step_new s s' b ptr size ap apf mp ab P :
    START s <> 0 -> fits s P ptr (ptr + size) -> 0 < size <= BIGGEST_SANE_USER_ALLOC ->
    parent_for s ptr size mp P ->
    __liballocs_new_bigalloc (B := release) ptr size ap apf mp ab s = Done (b, s') ->
    step s s'
| step_delete s s' b :
    used s b -> ~ ancestor s b (START s) ->
    bigalloc_del (B := release) b s = Done (tt, s') -> step s s'
| step_extend s s' b new_end r :
    used s b -> fits_range s b (b_begin (ba s b)) new_end -> b_end (ba s b) <= new_end -> end_movable s b new_end ->
    new_end - b_begin (ba s b) <= BIGGEST_SANE_USER_ALLOC ->
    __liballocs_extend_bigalloc (B := release) b new_end s = Done (r, s') -> step s s'
| step_pre_extend s s' b new_begin r :
    used s b -> fits_range s b new_begin (b_end (ba s b)) -> new_begin <= b_begin (ba s b) ->
    b_end (ba s b) - new_begin <= BIGGEST_SANE_USER_ALLOC ->
    __liballocs_pre_extend_bigalloc (B := release) b new_begin s = Done (r, s') -> step s s'
| step_truncate_end s s' b new_end r :
    used s b -> fits_range s b (b_begin (ba s b)) new_end -> new_end <= b_end (ba s b) -> end_movable s b new_end ->
    __liballocs_truncate_bigalloc_at_end (B := release) b new_end s = Done (r, s') -> step s s'
| step_truncate_beginning s s' b new_begin r :
    used s b -> fits_range s b new_begin (b_end (ba s b)) -> b_begin (ba s b) <= new_begin -> begin_cuttable s b new_begin ->
    __liballocs_truncate_bigalloc_at_beginning (B := release) b new_begin s = Done (r, s') -> step s s'.

Definition reachable (s : state) : Prop := rtc step init_state s.

(** ** The invariant *)

(** A creation that returns found a free record. *)
Lemma new_returns_free s ptr size ap apf mp ab b s' P :
  wf s -> index_ok s -> fits s P ptr (ptr + size) -> 0 < size <= BIGGEST_SANE_USER_ALLOC ->
  parent_for s ptr size mp P ->
  __liballocs_new_bigalloc (B := release) ptr size ap apf mp ab s = Done (b, s') ->
  first_free s b /\ created s s' b /\ meta (ba s' b) = (ptr, ptr + size, P, ab, 0, ap, apf, 0, 0).
Proof.
  intros W I Fit Hs Hp E. pose proof (fits_bounds _ _ _ _ W Fit) as [Hb Hm].
  destruct (max_user_address_spec) as [Hmax _].
  destruct (find_free_bigalloc_ok s) as [(b' & Fr & E')|[Hfull _]].
  - destruct (new_bigalloc_with_parent s b' ptr size P ap apf ab mp W I Fr Hs Fit Hp) as (s1 & E1 & C & M).
    rewrite E1 in E. by injection E as <- <-.
  - by rewrite (new_bigalloc_full s ptr size P) in E by (done || lia).
Qed.

Lemma sane_created s s' b ptr size P ab ap apf : sane s -> created s s' b ->
  meta (ba s' b) = (ptr, ptr + size, P, ab, 0, ap, apf, 0, 0) -> size <= BIGGEST_SANE_USER_ALLOC -> sane s'.
Proof.
  intros Sn C M Hs i Ui. apply (cr_used _ _ _ C) in Ui as [->|Ui].
  - injection M as -> -> _ _ _ _ _ _ _. lia.
  - destruct (decide (i = b)) as [->|N]; [injection M as -> -> _ _ _ _ _ _ _; lia|].
    pose proof (cr_meta _ _ _ C i N) as [= -> -> _ _ _ _ _ _ _]. by apply Sn.
Qed.

Lemma wf_set_START b s : wf s -> wf (set_START b s).
Proof.
  assert (Hc : forall f l, chain s f l -> chain (set_START b s) f l).
  { intros f l [q D]. exists q. by eapply dseg_ext; [|done]. }
  intros [R B P K Ro D F Rk A N0]. split; try done.
  - intros i U. destruct (K i U) as [l (ND & C & Hl)]. exists l. split_and!; [done|by apply Hc|done].
  - destruct Ro as [l (ND & [f C] & Hl & S)]. exists l. split_and!; [done|exists f; by apply Hc|done..].
Qed.

Lemma resize_table_ok s s' b nb ne : table_ok s -> used s b -> fits_range s b nb ne -> resize_ok s s' b nb ne ->
  ne - nb <= BIGGEST_SANE_USER_ALLOC -> table_ok s'.
Proof.
  intros [W I St Sn] U F [W' I' St' R] Hs. split; [done..|auto|].
  intros i Ui. apply (rz_used s s' b nb ne) in Ui; [|done..].
  destruct (rz_range s s' b nb ne R i) as [(-> & -> & ->)|(_ & -> & ->)]; [done|by apply Sn].
Qed.

Lemma table_ok_step s s' : table_ok s -> step s s' -> table_ok s'.
Proof.
  intros T St. pose proof T as [W I Hst Sn].
  destruct St as [s s' b ptr size ap apf ab Z Fit Hs Hp E|s s' b ptr size ap apf mp ab P Z Fit Hs Hp E|s s' b U Na E
    |s s' b ne r U F Hle Hpg Hs E|s s' b nb r U F Hle Hs E|s s' b ne r U F Hle Hpg E|s s' b nb r U F Hle Hpg E].
  - destruct (new_returns_free s ptr size ap apf 0 ab b s' 0 W I Fit Hs Hp E) as (Fr & C & M).
    split; [apply wf_set_START, C|apply C| |].
    + left. split; [apply (cr_used _ _ _ C); by left|]. injection M as _ _ Mp _ _ _ _ _ _. exact Mp.
    + intros i Ui. by apply (sane_created s s' b ptr size 0 ab ap apf Sn C M ltac:(lia)).
  - destruct (new_returns_free s ptr size ap apf mp ab b s' P W I Fit Hs Hp E) as (Fr & C & M).
    split; [apply C..| |by apply (sane_created s s' b ptr size P ab ap apf Sn C M ltac:(lia))].
    destruct Hst as [[U0 P0]|[? _]]; [left|done].
    rewrite (cr_start _ _ _ C). assert (START s <> b) by (intros Eb; rewrite Eb in U0; by apply Fr).
    pose proof (cr_meta _ _ _ C _ ltac:(done)) as [= _ _ -> _ _ _ _ _ _].
    split; [apply (cr_used _ _ _ C); by right|done].
  - destruct (bigalloc_del_ok s b W I Sn U) as (s1 & E1 & Pr). rewrite E1 in E. injection E as <-.
    split; [apply Pr..| |].
    + destruct Hst as [[U0 P0]|[_ N0]]; [left|by destruct (N0 b)]. rewrite (pr_start _ _ _ Pr).
      assert (Us : used s1 (START s)) by by apply (pr_used _ _ _ Pr). split; [done|].
      by pose proof (pr_meta _ _ _ Pr _ Us) as [= _ _ -> _ _ _ _ _ _].
    + intros i Ui. pose proof (pr_meta _ _ _ Pr i Ui) as [= -> -> _ _ _ _ _ _ _]. apply Sn. by apply (pr_used _ _ _ Pr).
  - apply (resize_table_ok s s' b (b_begin (ba s b)) ne); [done..| |done]. by apply (extend_returned s b W I U ne r).
  - destruct (pre_extend_ok s b W I U nb F Hle Hs) as (s1 & E1 & R). rewrite E1 in E. injection E as _ <-.
    by apply (resize_table_ok s s1 b nb (b_end (ba s b))).
  - apply (resize_table_ok s s' b (b_begin (ba s b)) ne); [done..|by apply (truncate_end_returned s b W I U ne r)|].
    pose proof (Sn b U). lia.
  - apply (resize_table_ok s s' b nb (b_end (ba s b))); [done..|by apply (truncate_beginning_returned s b W I U nb r)|].
    pose proof (Sn b U). lia.
Qed.

Lemma reachable_ok s : reachable s -> table_ok s.
Proof.
  intros R. unfold reachable in R. remember init_state as s0 eqn:E0. assert (T : table_ok s0) by (subst; apply init_ok).
  clear E0. induction R as [|s0 s1 s2 S R IH]; [done|]. apply IH. by eapply table_ok_step.
Qed.
End reachable.
