(* ===== verification/Demo.v ===== *)
(** Small concrete bigalloc tables, reached from the empty one by calls of the
    library: they are the inputs at which the theorems on the page index are
    instantiated. *)
From S2P Require Import Prelude DList Vas BigAlloc PageIndex PageIndexQuery BigAllocFacts Forest Traversal.
From S2P Require Import Traversal Attach Toplevel Create Detach Delete Resize QueryCorrect.
From S2P Require Import Reachable.

#[export] Instance quiet_hooks : Hooks := {|
  min_alignment _ := 0;
  brk_allocator := 0;
  systrap_is_initialized := false;
  stack_notify_unindexed_address _ := mret false;
  mmap_notify_unindexed_address _ := mret false;
  brk_notify_brk := mret tt;
  mmap_allocator_init := mret tt;
|}.

Definition result {A} (o : outcome (A * state)) : state :=
  match o with Done (_, s) => s | _ => init_state end.

(** Allocator 77 maps [0x10000, 0x20000) and [0x40000, 0x44000); allocator 78
    takes [0x11000, 0x18000) of the first, and 79 [0x12800, 0x13000) of that. *)
Definition demo1 : state :=
  set_START 1 (result (__liballocs_new_bigalloc (B := release) 0x10000 0x10000 0 0 0 77 init_state)).
Definition demo2 : state :=
  result (__liballocs_new_bigalloc (B := release) 0x40000 0x4000 0 0 0 77 demo1).
Definition demo3 : state :=
  result (__liballocs_new_bigalloc (B := release) 0x11000 0x7000 501 601 1 78 demo2).
Definition demo : state :=
  result (__liballocs_new_bigalloc (B := release) 0x12800 0x800 0 0 0 79 demo3).

(** ** The live records of a concrete table *)

Lemma used_among s l i : elements (live s) = l -> used s i -> i ∈ l.
Proof. intros <- U. by apply elem_of_elements, elem_of_live. Qed.

Lemma demo1_used i : used demo1 i -> i ∈ [1].
Proof. apply used_among. by vm_compute. Qed.
Lemma demo2_used i : used demo2 i -> i ∈ [2; 1].
Proof. apply used_among. by vm_compute. Qed.
Lemma demo3_used i : used demo3 i -> i ∈ [3; 2; 1].
Proof. apply used_among. by vm_compute. Qed.
Lemma demo_used i : used demo i -> i ∈ [3; 4; 2; 1].
Proof. apply used_among. by vm_compute. Qed.

(** A test that every live record passes, by evaluation. *)
Lemma live_all s (f : Z -> bool) : forallb f (elements (live s)) = true -> forall i, used s i -> f i = true.
Proof. intros Hb i U. apply (proj1 (forallb_forall f _) Hb), list_elem_of_In. by apply elem_of_elements, elem_of_live. Qed.

(** Case analysis on a live record of one of the tables. *)
Ltac live_cases H lem :=
  apply lem in H; repeat (apply elem_of_cons in H as [->|H]); [..|exfalso; exact (not_elem_of_nil _ H)].

(** Facts about concrete records, by evaluation. *)
Ltac by_eval := vm_compute; repeat split; try reflexivity; try (intros; discriminate).

(** ** Reachability *)

Lemma demo1_step : step init_state demo1.
Proof.
  apply (step_boot _ _ 1 0x10000 0x10000 0 0 77); [done| |by_eval|right|by vm_compute].
  - unfold fits. rewrite decide_True by done. split; [right; split; [done|apply init_not_used]|].
    split_and!; [by_eval..|]. intros c U. by destruct (init_not_used c).
  - split_and!; [done|by vm_compute..|by_eval].
Qed.

Lemma demo2_step : step demo1 demo2.
Proof.
  apply (step_new _ _ 2 0x40000 0x4000 0 0 0 77 0); [by vm_compute| |by_eval|right|by vm_compute].
  - unfold fits. rewrite decide_True by done. split; [left; by_eval|].
    split_and!; [by_eval..|]. intros c U _. live_cases U demo1_used. right. by_eval.
  - split_and!; [done|by vm_compute..|by_eval].
Qed.

Lemma demo3_step : step demo2 demo3.
Proof.
  apply (step_new _ _ 3 0x11000 0x7000 501 601 1 78 1); [by vm_compute| |by_eval|by left|by vm_compute].
  unfold fits. rewrite decide_False by done. split_and!; [by_eval..|].
  intros c U P. live_cases U demo2_used; vm_compute in P; discriminate P.
Qed.

Lemma demo_step : step demo3 demo.
Proof.
  apply (step_new _ _ 4 0x12800 0x800 0 0 0 79 3); [by vm_compute| |by_eval|right|by vm_compute].
  - unfold fits. rewrite decide_False by done. split_and!; [by_eval..|].
    intros c U P. live_cases U demo3_used; vm_compute in P; discriminate P.
  - split_and!; [done|by vm_compute..|done].
Qed.

Lemma demo_reachable : reachable demo.
Proof.
  eapply rtc_l; [apply demo1_step|]. eapply rtc_l; [apply demo2_step|]. eapply rtc_l; [apply demo3_step|].
  apply rtc_once, demo_step.
Qed.

Lemma demo_ok : table_ok demo.
Proof. apply reachable_ok, demo_reachable. Qed.

(** Record 4 is the deepest around its addresses: its ancestors are 3 and 1. *)
Lemma demo_deepest a : 0x12800 <= a < 0x13000 -> deepest_at demo a 4.
Proof.
  intros Ha. assert (A3 : ancestor demo 3 4) by (apply (ancestor_parent demo 4); by_eval).
  assert (A1 : ancestor demo 1 3) by (apply (ancestor_parent demo 3); by_eval).
  assert (b_begin (ba demo 4) = 0x12800 /\ b_end (ba demo 4) = 0x13000) as (E6 & E7) by by_eval.
  assert (b_begin (ba demo 2) = 0x40000) as E2 by by_eval.
  split_and!; [by_eval|unfold contains; rewrite E6, E7; lia|]. intros j U C. live_cases U demo_used.
  - exact A3.
  - apply ancestor_refl.
  - exfalso. unfold contains in C. rewrite E2 in C. lia.
  - by eapply ancestor_trans.
Qed.
