(* ===== verification/PageIndexTheorems.v ===== *)
(** The contract of the page index and the bigalloc table: what the library's
    interface promises to allocators and to queries, with instances on the
    concrete tables of [Demo]. *)
From S2P Require Import Prelude DList Vas BigAlloc PageIndex PageIndexQuery BuildRefinement BigAllocFacts.
From S2P Require Import Forest Traversal Attach Toplevel Create Detach.
From S2P Require Import Delete Resize QueryCorrect Reachable Demo.

Section theorems.
Context {V : Vas} {VL : VasLaws V} {H : Hooks}.

(** C1.  Every state of the bigalloc table that proper creations, deletions
    and resizings reach from the empty table satisfies the invariant: the live
    records are a forest of nested, disjoint, correctly linked ranges; the
    page index maps every page to the deepest bigalloc spanning the whole
    page; the anchor of the top-level list is live; no range exceeds the
    largest sane size.  Proper ([step]) means: the first creation is the anchor
    at top level; a creation takes a range of sane size that fits below its
    parent; the subtree deleted does not hold the anchor; a resized bigalloc
    keeps its children, stays inside its parent, off its siblings and of sane
    size, and its end or beginning moves where that keeps the index exact
    ([end_movable], [begin_cuttable]; that these are the right conditions is
    C11).  The code checks none of the conditions on resizing. *)
Theorem reachable_invariant s :
  reachable s -> wf s /\ index_ok s /\ start_ok s /\ sane s.
Proof. intros R. destruct (reachable_ok s R) as [W I St Sn]. done. Qed.

(** C5.  Deleting a live bigalloc returns, removes exactly the records of its
    subtree, keeps the invariant, leaves every other record's range, parent and
    metadata as it was, and calls the free function of each removed record's
    metadata exactly once. *)
Theorem delete_subtree s b :
  wf s -> index_ok s -> sane s -> used s b ->
  exists s', bigalloc_del (B := release) b s = Done (tt, s') /\ pruned s s' (ancestor s b).
Proof. apply bigalloc_del_ok. Qed.

(** C6.  Creating a bigalloc in a free range of its parent (the one passed, or
    the one deduced from the two ends of the range) returns the first free
    record, filled with the arguments and without children; the invariant is
    kept and the other records keep their metadata. *)
Theorem create_bigalloc s b ptr size P ap apf ab mp :
  wf s -> index_ok s -> first_free s b -> 0 < size <= BIGGEST_SANE_USER_ALLOC ->
  fits s P ptr (ptr + size) -> parent_for s ptr size mp P ->
  exists s', __liballocs_new_bigalloc (B := release) ptr size ap apf mp ab s = Done (b, s') /\
    created s s' b /\ meta (ba s' b) = (ptr, ptr + size, P, ab, 0, ap, apf, 0, 0).
Proof. apply new_bigalloc_with_parent. Qed.

(** C7.  Looking up the deepest bigalloc at a user address returns, without
    changing the table: the record that contains the address and lies below
    every other record that does; or 0 when no record contains it and no
    allocator claims the unindexed address. *)
Theorem lookup_deepest s addr :
  wf s -> index_ok s -> user_address addr ->
  (exists d, __lookup_deepest_bigalloc addr s = Done (d, s) /\ deepest_at s addr d) \/
  (uncovered s addr /\ (quiet addr s -> __lookup_deepest_bigalloc addr s = Done (0, s))).
Proof.
  intros W I Ha. destruct (decide (Exists (fun i => used s i /\ b_begin (ba s i) <= addr < b_end (ba s i))
    (elements (live s)))) as [Hex|Hn].
  - left. apply find_deepest_ok; [done..|]. apply Exists_exists in Hex as (i & _ & U & C). by exists i.
  - right. assert (Hu : uncovered s addr).
    { intros i U C. apply Hn, Exists_exists. exists i. split; [|done]. by apply elem_of_elements, elem_of_live. }
    split; [done|]. intros Hq. by apply find_deepest_none.
Qed.

(** The leaf allocator of an address is the suballocator of the deepest
    bigalloc that contains it, or that bigalloc's allocator when it has no
    suballocator; the bigalloc is also returned. *)
Lemma leaf_allocator s obj d :
  wf s -> index_ok s -> user_address obj -> deepest_at s obj d ->
  __liballocs_leaf_allocator_for obj s =
    Done ((if decide (suballocator (ba s d) = 0) then allocated_by (ba s d)
           else suballocator (ba s d), Some d), s).
Proof. apply leaf_allocator_ok. Qed.

(** Looking up a bigalloc from the root by its allocator, or by its
    suballocator, finds the outermost record around the address that matches,
    or 0 when there is none; the address may be unindexed once system calls
    are trapped. *)
Lemma lookup_from_root s addr a :
  wf s -> index_ok s -> user_address addr -> a <> 0 ->
  (exists i, used s i /\ contains s i addr) \/ systrap_is_initialized = true ->
  (exists r, __lookup_bigalloc_from_root (B := release) addr a s = Done (r, s) /\ topmost_at s addr a false r) /\
  (exists r, __lookup_bigalloc_from_root_by_suballocator (B := release) addr a s = Done (r, s) /\
     topmost_at s addr a true r).
Proof.
  intros W I Ha Na Hc. split.
  - destruct (find_from_root_ok s addr a false W I Ha Na Hc) as (r & E & T). exists r. split; [|done].
    unfold __lookup_bigalloc_from_root. by rewrite (bind_Done _ _ _ tt s) by done.
  - destruct (find_from_root_ok s addr a true W I Ha Na Hc) as (r & E & T). exists r. split; [|done].
    unfold __lookup_bigalloc_from_root_by_suballocator. by rewrite (bind_Done _ _ _ tt s) by done.
Qed.

(** C9.  Filling a run of the page index, which the code does a double word at
    a time with special cases at both ends, is the same as writing its entries
    one by one. *)
Theorem memset_is_fill begin num old_num n s :
  0 <= num < 2 ^ 16 -> 0 <= n <= Z.shiftr BIGGEST_SANE_USER_ALLOC LOG_PAGE_SIZE ->
  exists s', memset_bigalloc (B := release) begin num old_num n s = Done (tt, s') /\
    (forall p, pi s' p = if decide (begin <= p < begin + n) then num else pi s p) /\
    big_allocations s' = big_allocations s /\ START s' = START s.
Proof.
  intros Hnum Hn. rewrite memset_release_fill by done. eexists. split; [done|].
  destruct (fill_pages_big (Z.to_nat n) begin num s) as (Eb & Es & _). split_and!; [|done..].
  intros p. by rewrite pi_fill, Z2Nat.id by lia.
Qed.

(** C10.  A creation that cannot be placed ends the program: a range larger
    than the largest sane size, a range whose two ends lie in different
    bigallocs, a top-level range that is not page-aligned, or a full table. *)
Theorem create_rejected s ptr size ap apf ab mp d1 d2 P :
  (BIGGEST_SANE_USER_ALLOC < size \/
   (mp = 0 /\ 0 <= size <= BIGGEST_SANE_USER_ALLOC /\ 0 <= ptr + size - 1 < 2 ^ 63 /\
    find_deepest_bigalloc ptr s = Done (d1, s) /\ find_deepest_bigalloc (ptr + size - 1) s = Done (d2, s) /\
    (d1 <> d2 \/ (d1 = 0 /\ d2 = 0 /\ 0 <= ptr /\ (ptr mod PAGE_SIZE <> 0 \/ (ptr + size) mod PAGE_SIZE <> 0)))) \/
   ((forall j, 1 <= j < NBIGALLOCS -> used s j) /\ 0 < ptr /\ 0 < size <= BIGGEST_SANE_USER_ALLOC /\
    ptr + size < 2 ^ 64 /\ parent_for s ptr size mp P)) ->
  __liballocs_new_bigalloc (B := release) ptr size ap apf mp ab s = Abort.
Proof.
  intros [Hs|[(-> & Hs & Hr & E1 & E2 & Hc)|(Hf & Hp & Hs & Hm & Hpar)]].
  - by apply new_bigalloc_too_big.
  - by apply (new_bigalloc_deduced ptr size ap apf ab s d1 d2).
  - by apply (new_bigalloc_full s ptr size P).
Qed.

(** C11.  Resizing a bigalloc to a range of sane size that its parent and
    siblings allow and its children permit: moving its end up or down returns
    with only its end changed and the forest well formed, and the page index
    is exact afterwards if and only if the move is [end_movable]: the bigalloc
    begins at or below the page of the lower end, or the end stays in its page,
    or a truncation writes one page too many and that page was the parent's
    anyway.  Cutting off its beginning does the same, the index being exact if
    and only if the cut is [begin_cuttable].  Both abort exactly when more index
    entries would be written than the limit of [memset_bigalloc].  Extending it
    downwards as the stack grows always returns with the index exact (the page
    that held the old beginning is given to it only if it now spans that page,
    and the entries of its children are not overwritten). *)
Theorem resize_bigalloc s b nb ne :
  wf s -> index_ok s -> used s b -> sane s -> fits_range s b nb ne -> ne - nb <= BIGGEST_SANE_USER_ALLOC ->
  (nb = b_begin (ba s b) ->
   if decide (Z.abs (page_down ne - page_down (b_end (ba s b))) <= page_limit)
   then exists s', __adjust_bigalloc_end (B := release) b ne s = Done (tt, s') /\
     tree_resized s s' b nb ne /\ (index_ok s' <-> end_movable s b ne)
   else __adjust_bigalloc_end (B := release) b ne s = Abort) /\
  (ne = b_end (ba s b) -> b_begin (ba s b) <= nb ->
   if decide (page_up nb - page_up (b_begin (ba s b)) <= page_limit)
   then exists s', __liballocs_truncate_bigalloc_at_beginning (B := release) b nb s = Done (true, s') /\
     tree_resized s s' b nb ne /\ (index_ok s' <-> begin_cuttable s b nb)
   else __liballocs_truncate_bigalloc_at_beginning (B := release) b nb s = Abort) /\
  (ne = b_end (ba s b) -> nb <= b_begin (ba s b) ->
   exists s', __liballocs_pre_extend_bigalloc (B := release) b nb s = Done (true, s') /\ resize_ok s s' b nb ne).
Proof.
  intros W I U Sn F Hs. split_and!.
  - intros ->. by apply adjust_end_exact.
  - intros -> Hb. case_decide; [by apply truncate_beginning_exact|by rewrite truncate_beginning_run, decide_False].
  - intros -> Hb. by apply pre_extend_ok.
Qed.

(** The two searches of the top level: [__liballocs_find_mapping_below]
    returns the highest top-level bigalloc that ends at or below the address,
    or 0; [__liballocs_find_mapping_at_or_above] returns the lowest one that
    ends above the address, but only when some top-level bigalloc begins below
    the address: otherwise it returns 0, even if there is a mapping above. *)
Lemma find_mapping_around s l addr :
  wf s -> start_ok s -> roots s l ->
  exists l1 l2, l = l1 ++ l2 /\ Forall (fun x => b_end (ba s x) <= addr) l1 /\
    Forall (fun x => addr < b_end (ba s x)) l2 /\
    __liballocs_find_mapping_below (B := release) addr s = Done (last_of 0 l1, s) /\
    __liballocs_find_mapping_at_or_above (B := release) addr s =
      Done (if bool_decide (Exists (fun x => b_begin (ba s x) < addr) l) then first_of l2 else 0, s).
Proof.
  intros W St R. destruct (find_mapping_below_ok (B := release) s l W St R addr) as (l1 & l2 & -> & F1 & F2 & E).
  destruct (find_mapping_at_or_above_ok (B := release) s (l1 ++ l2) W St R addr) as (k1 & k2 & El & G1 & G2 & E').
  destruct (split_unique (fun x => b_end (ba s x) <= addr) l1 l2 k1 k2) as [<- <-]; [done|done| |done| |by exists l1, l2].
  - apply (Forall_impl _ _ _ F2). intros x. lia.
  - apply (Forall_impl _ _ _ G2). intros x. lia.
Qed.

(** [is_one_or_more_levels_under] terminates and decides whether a
    number names a record strictly below the given bigalloc. *)
Lemma under_decides s n b :
  wf s -> used s b ->
  exists r : bool, is_one_or_more_levels_under n b s = Done (r, s) /\
    (r = true <-> n <> b /\ used s n /\ ancestor s b n).
Proof. apply is_under_ok. Qed.

(** A debug build differs from a release build only by stopping at a
    failed check: whenever a sequence of calls returns in a debug build, the
    release build returns the same results and ends in the same state. *)
Lemma debug_refines_release l : refines (run_all (B := debug) l) (run_all (B := release) l).
Proof. apply run_all_refines. Qed.
End theorems.

(** ** Instances *)

Lemma reachable_invariant_witness : reachable demo /\ wf demo /\ index_ok demo /\ start_ok demo /\ sane demo.
Proof. split; [apply demo_reachable|]. apply (reachable_invariant demo). apply demo_reachable. Defined.

Lemma demo_is_used i : i ∈ [1; 2; 3; 4] -> used demo i.
Proof. intros Hi. repeat (apply elem_of_cons in Hi as [->|Hi]); [by_eval..|exfalso; exact (not_elem_of_nil _ Hi)]. Qed.

Lemma delete_subtree_witness :
  used demo 3 /\ exists s', bigalloc_del (B := release) 3 demo = Done (tt, s') /\ pruned demo s' (ancestor demo 3).
Proof.
  split; [by_eval|]. apply (delete_subtree demo 3); [apply demo_ok..|by_eval].
Defined.

Lemma create_bigalloc_witness :
  exists s', __liballocs_new_bigalloc (B := release) 0x12800 0x800 0 0 0 79 demo3 = Done (4, s') /\
    created demo3 s' 4 /\ meta (ba s' 4) = (0x12800, 0x12800 + 0x800, 3, 79, 0, 0, 0, 0, 0).
Proof.
  assert (T : table_ok demo3).
  { apply reachable_ok. eapply rtc_l; [apply demo1_step|]. eapply rtc_l; [apply demo2_step|].
    apply rtc_once, demo3_step. }
  apply (create_bigalloc demo3 4 0x12800 0x800 3 0 0 79 0); [exact (tk_wf _ T)|exact (tk_index _ T)| |by_eval| |].
  - split_and!; [done|done|by_eval; by intros [? ?]|]. intros j Hj.
    assert (j = 1 \/ j = 2 \/ j = 3) as [->|[->| ->]] by lia; by_eval.
  - unfold fits. rewrite decide_False by done. split_and!; [by_eval..|].
    intros c U P. live_cases U demo3_used; vm_compute in P; discriminate P.
  - right. split_and!; [done|by vm_compute..|done].
Defined.

Lemma lookup_deepest_witness :
  user_address 0x12900 /\
  ((exists d, __lookup_deepest_bigalloc 0x12900 demo = Done (d, demo) /\ deepest_at demo 0x12900 d) \/
   (uncovered demo 0x12900 /\ (quiet 0x12900 demo -> __lookup_deepest_bigalloc 0x12900 demo = Done (0, demo)))).
Proof. split; [by_eval|]. apply (lookup_deepest demo 0x12900); [apply demo_ok..|by_eval]. Defined.

Lemma leaf_allocator_demo :
  __liballocs_leaf_allocator_for 0x12900 demo =
    Done ((if decide (suballocator (ba demo 4) = 0) then allocated_by (ba demo 4)
           else suballocator (ba demo 4), Some 4), demo).
Proof. apply (leaf_allocator demo 0x12900 4); [apply demo_ok..|by_eval|apply demo_deepest; lia]. Defined.

Lemma lookup_from_root_demo :
  (exists r, __lookup_bigalloc_from_root (B := release) 0x12900 78 demo = Done (r, demo) /\
     topmost_at demo 0x12900 78 false r) /\
  (exists r, __lookup_bigalloc_from_root_by_suballocator (B := release) 0x12900 78 demo = Done (r, demo) /\
     topmost_at demo 0x12900 78 true r).
Proof.
  apply (lookup_from_root demo 0x12900 78); [apply demo_ok..|by_eval|done|left; exists 3; by_eval].
Defined.

Lemma memset_is_fill_witness :
  exists s', memset_bigalloc (B := release) 5 9 0 7 demo = Done (tt, s') /\
    (forall p, pi s' p = if decide (5 <= p < 5 + 7) then 9 else pi demo p) /\
    big_allocations s' = big_allocations demo /\ START s' = START demo.
Proof. apply (memset_is_fill 5 9 0 7 demo); by_eval. Defined.

Lemma create_rejected_witness :
  __liballocs_new_bigalloc (B := release) 0x17000 0x4000 0 0 0 80 demo = Abort.
Proof.
  apply (create_rejected demo 0x17000 0x4000 0 0 80 0 3 1 0). right. left.
  split_and!; [done|by_eval..|by vm_compute|by vm_compute|by left].
Defined.

(** Ranges for record 3 of [demo], which lies in record 1 and holds record 4. *)
Lemma demo_range nb ne : 0x10000 <= nb <= 0x12800 -> 0x13000 <= ne <= 0x20000 -> fits_range demo 3 nb ne.
Proof.
  intros Hb He.
  assert (b_begin (ba demo 3) = 0x11000 /\ b_end (ba demo 3) = 0x18000 /\ parent (ba demo 3) = 1) as (E1 & E2 & E3)
    by by_eval.
  assert (b_begin (ba demo 1) = 0x10000 /\ b_end (ba demo 1) = 0x20000) as (E4 & E5) by by_eval.
  assert (b_begin (ba demo 4) = 0x12800 /\ b_end (ba demo 4) = 0x13000) as (E6 & E7) by by_eval.
  split; rewrite ?E1, ?E2, ?E3, ?E4, ?E5.
  - change (MAXIMUM_USER_ADDRESS) with (2 ^ 47 - 1). lia.
  - lia.
  - lia.
  - lia.
  - intros c U P. live_cases U demo_used; try (vm_compute in P; discriminate P). rewrite E6, E7. lia.
  - intros c U N P. live_cases U demo_used; try (vm_compute in P; discriminate P). by destruct N.
Qed.

Lemma resize_bigalloc_witness :
  (exists s', __adjust_bigalloc_end (B := release) 3 0x1a000 demo = Done (tt, s') /\
     tree_resized demo s' 3 0x11000 0x1a000 /\ (index_ok s' <-> end_movable demo 3 0x1a000)) /\
  (exists s', __liballocs_truncate_bigalloc_at_beginning (B := release) 3 0x12000 demo = Done (true, s') /\
     tree_resized demo s' 3 0x12000 0x18000 /\ (index_ok s' <-> begin_cuttable demo 3 0x12000)) /\
  (exists s', __liballocs_pre_extend_bigalloc (B := release) 3 0x10800 demo = Done (true, s') /\
     resize_ok demo s' 3 0x10800 0x18000).
Proof.
  assert (U : used demo 3) by by_eval.
  destruct demo_ok as [W I St Sn]. split_and!.
  - destruct (resize_bigalloc demo 3 0x11000 0x1a000 W I U Sn) as (X & _ & _); [apply demo_range; by_eval|by_eval|].
    specialize (X ltac:(by_eval)). by rewrite decide_True in X by by_eval.
  - destruct (resize_bigalloc demo 3 0x12000 0x18000 W I U Sn) as (_ & X & _); [apply demo_range; by_eval|by_eval|].
    specialize (X ltac:(by_eval) ltac:(by_eval)). by rewrite decide_True in X by by_eval.
  - refine (proj2 (proj2 (resize_bigalloc demo 3 0x10800 0x18000 W I U Sn _ _)) _ _);
      [apply demo_range; by_eval|by_eval..].
Defined.

(** Extending a bigalloc of less than a page to the next page boundary: the
    index then gives it the page it begins in, and a query of an address below
    it in that page returns it, although it does not contain the address. *)
Definition demo_short : state := result (__liballocs_new_bigalloc (B := release) 0x12800 0x100 0 0 0 79 demo3).

Lemma extension_within_page :
  exists s', __liballocs_extend_bigalloc (B := release) 4 0x13000 demo_short = Done (true, s') /\
    __lookup_deepest_bigalloc 0x12100 s' = Done (4, s') /\
    b_begin (ba s' 4) = 0x12800 /\ ~ end_movable demo_short 4 0x13000.
Proof.
  eexists. split; [by vm_compute|]. split; [by vm_compute|]. split; [by vm_compute|].
  assert (E : b_begin (ba demo_short 4) = 0x12800 /\ b_end (ba demo_short 4) = 0x12900) by by_eval. destruct E as [E1 E2].
  unfold end_movable. rewrite E1, E2. intros [C|[C|[C _]]]; vm_compute in C; [by apply C|discriminate C|discriminate C].
Qed.

Lemma demo_roots : roots demo [1; 2].
Proof.
  split_and!.
  - repeat constructor; rewrite ?list_elem_of_singleton, ?elem_of_nil; (done || tauto).
  - exists 1, 2. by_eval.
  - intros c. split.
    + intros Hc. repeat (apply elem_of_cons in Hc as [->|Hc]); [by_eval..|exfalso; exact (not_elem_of_nil _ Hc)].
    + intros [U P]. live_cases U demo_used; try (vm_compute in P; discriminate P); [right; by left|by left].
  - repeat constructor; by_eval.
Qed.

Lemma find_mapping_around_demo :
  exists l1 l2, [1; 2] = l1 ++ l2 /\ Forall (fun x => b_end (ba demo x) <= 0x41000) l1 /\
    Forall (fun x => 0x41000 < b_end (ba demo x)) l2 /\
    __liballocs_find_mapping_below (B := release) 0x41000 demo = Done (last_of 0 l1, demo) /\
    __liballocs_find_mapping_at_or_above (B := release) 0x41000 demo =
      Done (if bool_decide (Exists (fun x => b_begin (ba demo x) < 0x41000) [1; 2]) then first_of l2 else 0, demo).
Proof. apply (find_mapping_around demo [1; 2] 0x41000); [apply demo_ok..|apply demo_roots]. Defined.

Lemma under_decides_demo :
  exists r : bool, is_one_or_more_levels_under 4 1 demo = Done (r, demo) /\
    (r = true <-> 4 <> 1 /\ used demo 4 /\ ancestor demo 1 4).
Proof. apply (under_decides demo 4 1); [apply demo_ok|by_eval]. Defined.
