(* ===== verification/MallocMeta.v ===== *)
(** The per-chunk metadata word of src/include/malloc-meta.h.

    [struct insert] is one 64-bit word seen through a union of bit-fields.
    On the x86-64 ABI bit-fields are allocated from the least significant bit,
    so [initial] is always_0:1, alloc_site:47, unused:12, lifetime_policies:4
    and [with_type] is always_1:1, alloc_site_id:15 (signed),
    uniqtype_shifted:44, lifetime_policies:4. *)
From S2P Require Import Prelude.

Definition MALLOC_ALIGN : Z := 16.
Definition sizeof_insert : Z := 8.

(** Bit-field of width [w] at bit [lo]: read and write. *)
Definition field (lo w x : Z) : Z := Z.land (Z.shiftr x lo) (Z.ones w).
Definition set_field (lo w v x : Z) : Z :=
  Z.lor (Z.ldiff x (Z.shiftl (Z.ones w) lo)) (Z.shiftl (Z.land v (Z.ones w)) lo).
(** Sign extension of a [w]-bit value. *)
Definition sext (w x : Z) : Z := if x <? 2 ^ (w - 1) then x else x - 2 ^ w.

Definition initial_alloc_site (i : Z) : Z := field 1 47 i.
Definition initial_unused (i : Z) : Z := field 48 12 i.
Definition set_initial_unused (v i : Z) : Z := set_field 48 12 v i.
Definition set_initial_alloc_site (v i : Z) : Z := set_field 1 47 v i.
Definition with_type_always_1 (i : Z) : Z := field 0 1 i.
Definition with_type_alloc_site_id (i : Z) : Z := sext 15 (field 1 15 i).
Definition with_type_uniqtype_shifted (i : Z) : Z := field 16 44 i.
Definition lifetime_policies (i : Z) : Z := field 60 4 i.
Definition set_lifetime_policies (v i : Z) : Z := set_field 60 4 v i.

(** The compound literal [(struct insert) { .with_type = { ... } }]. *)
Definition mk_with_type (uniqtype_shifted alloc_site_id always_1 : Z) : Z :=
  set_field 16 44 uniqtype_shifted (set_field 1 15 alloc_site_id (set_field 0 1 always_1 0)).

Definition UNIQTYPE_SHIFT_FOR_INSERT (u : Z) : Z := Z.shiftr u 3.
Definition UNIQTYPE_UNSHIFT_FROM_INSERT (bits : Z) : Z := wrap64 (Z.shiftl bits 3).

Definition INSERT_IS_WITH_TYPE (i : Z) : bool := negb (initial_unused i =? 0).
Definition INSERT_DESCRIBES_OBJECT (MINIMUM_USER_ADDRESS i : Z) : bool :=
  negb (with_type_alloc_site_id i =? 0) || (MINIMUM_USER_ADDRESS <=? initial_alloc_site i).
Definition INSERT_IS_NULL (i : Z) : bool :=
  negb (INSERT_IS_WITH_TYPE i) && (initial_alloc_site i =? 0).

Definition LIFETIME_POLICY_FLAG (id : Z) : Z := Z.shiftl 1 id.
Definition MANUAL_DEALLOCATION_FLAG : Z := LIFETIME_POLICY_FLAG 0.
Definition HAS_LIFETIME_POLICIES_ATTACHED (lti : Z) : Z := Z.ldiff lti MANUAL_DEALLOCATION_FLAG.

(** ** Sizes *)

Definition PAD_TO_ALIGN (n a : Z) : Z := if n mod a =? 0 then n else n + a - n mod a.
Definition CHUNK_SIZE_WITH_TRAILER (sz trailer_size trailer_align : Z) : Z :=
  PAD_TO_ALIGN (sz + trailer_size) trailer_align.

Definition caller_usable_size_for_chunk_and_usable_size (userptr alloc_usable_size : Z) : Z :=
  wrap64 (alloc_usable_size - sizeof_insert).
Definition insert_for_chunk_and_caller_usable_size (userptr caller_usable_size : Z) : Z :=
  wrap64 (userptr + caller_usable_size).
Definition caller_usable_size_for_chunk (sizefn : Z -> Z) (userptr : Z) : Z :=
  caller_usable_size_for_chunk_and_usable_size userptr (sizefn userptr).
Definition insert_for_chunk (sizefn : Z -> Z) (userptr : Z) : Z :=
  insert_for_chunk_and_caller_usable_size userptr (caller_usable_size_for_chunk sizefn userptr).

Definition allocsize_to_usersize (allocsz : Z) : Z := wrap64 (allocsz - sizeof_insert).
Definition usersize_to_allocsize (usersz : Z) : Z := wrap64 (usersz + sizeof_insert).
Definition usersize (sizefn : Z -> Z) (userptr : Z) : Z := allocsize_to_usersize (sizefn userptr).
Definition allocsize (sizefn : Z -> Z) (allocptr : Z) : Z := sizefn allocptr.

(** ** Bit-field laws *)

Lemma field_testbit lo w x n :
  0 <= lo -> 0 <= w -> 0 <= n -> Z.testbit (field lo w x) n = (n <? w) && Z.testbit x (n + lo).
Proof.
  intros. unfold field. rewrite Z.land_spec, Z.shiftr_spec, Z.testbit_ones by done.
  rewrite (proj2 (Z.leb_le 0 n)) by done. rewrite andb_comm. done.
Qed.

Lemma set_field_testbit lo w v x n :
  0 <= lo -> 0 <= w -> 0 <= n ->
  Z.testbit (set_field lo w v x) n =
    if (lo <=? n) && (n <? lo + w) then Z.testbit v (n - lo) else Z.testbit x n.
Proof.
  intros. unfold set_field.
  rewrite Z.lor_spec, Z.ldiff_spec, !Z.shiftl_spec, Z.land_spec by done.
  destruct (Z.leb_spec lo n); simpl.
  - rewrite Z.testbit_ones by done. rewrite (proj2 (Z.leb_le 0 (n - lo))) by lia. simpl.
    destruct (Z.ltb_spec (n - lo) w), (Z.ltb_spec n (lo + w)); try lia;
      by rewrite ?andb_false_r, ?andb_true_r, ?orb_false_r.
  - rewrite (Z.testbit_neg_r (Z.ones w)), (Z.testbit_neg_r v) by lia. by rewrite andb_true_r, orb_false_r.
Qed.

Lemma field_set_same lo w v x :
  0 <= lo -> 0 <= w -> 0 <= v < 2 ^ w -> field lo w (set_field lo w v x) = v.
Proof.
  intros Hlo Hw Hv. apply Z.bits_inj'. intros n Hn.
  rewrite field_testbit, set_field_testbit by lia.
  rewrite (proj2 (Z.leb_le lo (n + lo))) by lia. replace (n + lo - lo) with n by lia. simpl.
  destruct (Z.ltb_spec n w), (Z.ltb_spec (n + lo) (lo + w)); try lia; simpl; [done|].
  destruct (decide (v = 0)) as [->|]; [by rewrite Z.bits_0|].
  symmetry. apply Z.bits_above_log2; [lia|]. apply Z.log2_lt_pow2; [lia|].
  eapply Z.lt_le_trans; [apply Hv|]. by apply Z.pow_le_mono_r.
Qed.

Lemma field_set_other lo w lo' w' v x :
  0 <= lo -> 0 <= w -> 0 <= lo' -> 0 <= w' -> lo + w <= lo' \/ lo' + w' <= lo ->
  field lo w (set_field lo' w' v x) = field lo w x.
Proof.
  intros ???? Hd. apply Z.bits_inj'. intros n Hn.
  rewrite !field_testbit, set_field_testbit by lia.
  destruct (Z.ltb_spec n w); simpl; [|done].
  destruct (Z.leb_spec lo' (n + lo)), (Z.ltb_spec (n + lo) (lo' + w')); simpl; try done; lia.
Qed.

Lemma field_range lo w x : 0 <= w -> 0 <= field lo w x < 2 ^ w.
Proof. intros. unfold field. rewrite Z.land_ones by done. apply Z.mod_pos_bound. apply Z.pow_pos_nonneg; lia. Qed.

Lemma field_0 lo w : field lo w 0 = 0.
Proof. unfold field. by rewrite Z.shiftr_0_l. Qed.

(** A field read out of a larger field. *)
Lemma field_field lo w lo' w' x :
  0 <= lo -> 0 <= w -> 0 <= lo' -> 0 <= w' -> lo' + w' <= w ->
  field lo' w' (field lo w x) = field (lo + lo') w' x.
Proof.
  intros. apply Z.bits_inj'. intros n Hn. rewrite !field_testbit by lia.
  destruct (Z.ltb_spec n w'); simpl; [|done]. rewrite (proj2 (Z.ltb_lt (n + lo') w)) by lia. simpl.
  f_equal. lia.
Qed.

Lemma field_as_div lo w x : 0 <= lo -> 0 <= w -> field lo w x = (x / 2 ^ lo) mod 2 ^ w.
Proof. intros. unfold field. by rewrite Z.land_ones, Z.shiftr_div_pow2 by done. Qed.

(** ** What a typed insert says *)

Section typed.
Context (u id : Z).
Hypothesis u_range : 0 <= u < 2 ^ 47.
Hypothesis u_aligned : u mod 8 = 0.
Hypothesis id_range : - 2 ^ 14 <= id < 2 ^ 14.

Let ins : Z := mk_with_type (UNIQTYPE_SHIFT_FOR_INSERT u) id 1.

Lemma shift_range : 0 <= UNIQTYPE_SHIFT_FOR_INSERT u < 2 ^ 44.
Proof. unfold UNIQTYPE_SHIFT_FOR_INSERT. rewrite Z.shiftr_div_pow2 by done. Z.to_euclidean_division_equations. lia. Qed.

Lemma mk_with_type_uniqtype : with_type_uniqtype_shifted ins = UNIQTYPE_SHIFT_FOR_INSERT u.
Proof. apply field_set_same; [done..|apply shift_range]. Qed.

Lemma mk_with_type_unshift :
  UNIQTYPE_UNSHIFT_FROM_INSERT (with_type_uniqtype_shifted ins) = u.
Proof.
  rewrite mk_with_type_uniqtype. unfold UNIQTYPE_UNSHIFT_FROM_INSERT, UNIQTYPE_SHIFT_FOR_INSERT, wrap.
  rewrite Z.shiftl_mul_pow2, Z.shiftr_div_pow2 by done.
  change (2 ^ 3) with 8. replace (u / 8 * 8) with u by (Z.to_euclidean_division_equations; lia).
  rewrite Z.mod_small; [done|]. split; [lia|]. etrans; [apply u_range|done].
Qed.

Lemma mk_with_type_id : with_type_alloc_site_id ins = id.
Proof.
  unfold with_type_alloc_site_id, ins, mk_with_type.
  rewrite field_set_other by (done || lia).
  replace (set_field 1 15 id) with (set_field 1 15 (id mod 2 ^ 15)).
  2:{ unfold set_field. rewrite <- !Z.land_ones by done. by rewrite <- Z.land_assoc. }
  assert (Hm := Z.mod_pos_bound id (2 ^ 15) ltac:(done)).
  rewrite field_set_same by done. unfold sext. change (15 - 1) with 14.
  destruct (decide (0 <= id)).
  - rewrite Z.mod_small by lia. destruct (Z.ltb_spec id (2 ^ 14)); lia.
  - replace (id mod 2 ^ 15) with (id + 2 ^ 15).
    2:{ symmetry. rewrite <- (Z.mod_add id 1) by done. apply Z.mod_small. lia. }
    destruct (Z.ltb_spec (id + 2 ^ 15) (2 ^ 14)); lia.
Qed.

Lemma mk_with_type_always_1 : with_type_always_1 ins = 1.
Proof.
  unfold with_type_always_1, ins, mk_with_type. rewrite !field_set_other by (done || lia).
  by apply field_set_same.
Qed.

Lemma mk_with_type_lifetime : lifetime_policies ins = 0.
Proof.
  unfold lifetime_policies, ins, mk_with_type. rewrite !field_set_other by (done || lia).
  apply field_0.
Qed.

(** The test the code uses looks at bits 48-59, the top of the type field. *)
Lemma mk_with_type_recognised : INSERT_IS_WITH_TYPE ins = true <-> 2 ^ 35 <= u.
Proof.
  unfold INSERT_IS_WITH_TYPE. rewrite negb_true_iff, Z.eqb_neq.
  assert (E : initial_unused ins = u / 2 ^ 35).
  { unfold initial_unused. change (field 48 12 ins) with (field (16 + 32) 12 ins).
    rewrite <- (field_field 16 44 32 12) by (done || lia).
    change (field 16 44 ins) with (with_type_uniqtype_shifted ins).
    rewrite mk_with_type_uniqtype, field_as_div by done. unfold UNIQTYPE_SHIFT_FOR_INSERT.
    rewrite Z.shiftr_div_pow2, Z.div_div by done. change (2 ^ 3 * 2 ^ 32) with (2 ^ 35).
    apply Z.mod_small. Z.to_euclidean_division_equations. lia. }
  rewrite E. Z.to_euclidean_division_equations. lia.
Qed.
End typed.

(** A fresh insert, as written on allocation. *)
Lemma fresh_insert_site caller old :
  0 <= caller < 2 ^ 47 ->
  let i := set_initial_alloc_site caller (set_initial_unused 0 old) in
  initial_alloc_site i = caller /\ INSERT_IS_WITH_TYPE i = false /\
  lifetime_policies i = lifetime_policies old.
Proof.
  intros Hc i. unfold i, initial_alloc_site, INSERT_IS_WITH_TYPE, initial_unused, lifetime_policies,
    set_initial_alloc_site, set_initial_unused.
  rewrite field_set_same, !(field_set_other _ _ 1), field_set_same, field_set_other by (done || lia).
  done.
Qed.

(** ** Padding *)

Lemma PAD_TO_ALIGN_spec n a :
  0 < a -> n <= PAD_TO_ALIGN n a < n + a /\ PAD_TO_ALIGN n a mod a = 0.
Proof.
  intros Ha. unfold PAD_TO_ALIGN. pose proof (Z.mod_pos_bound n a Ha).
  destruct (Z.eqb_spec (n mod a) 0); [lia|]. split; [lia|].
  rewrite (Z.div_mod n a) at 1 by lia.
  replace (a * (n / a) + n mod a + a - n mod a) with ((n / a + 1) * a) by lia.
  apply Z.mod_mul. lia.
Qed.
