(* ===== verification/AddrList.v ===== *)
(** The growable list of addresses of src/src/addrlist.c.

    [addrs] has [allocsz] slots, of which the first [count] are in use; slots
    that [realloc] adds hold whatever memory held, which is the argument
    [junk].  A list that cannot be grown is not handled by the code. *)
From S2P Require Import Prelude.

Record addrlist := AddrListRec {
  al_count : Z;
  al_allocsz : Z;
  al_addrs : list Z;
}.

Fixpoint addrlist_scan (n : nat) (i : Z) (addrs : list Z) (addr : Z) : Z :=
  match n, addrs with
  | S n, x :: addrs => if x =? addr then 1 + i else addrlist_scan n (i + 1) addrs addr
  | _, _ => 0
  end.
Definition __liballocs_addrlist_contains (l : addrlist) (addr : Z) : Z :=
  addrlist_scan (Z.to_nat (al_count l)) 0 (al_addrs l) addr.

Definition __liballocs_addrlist_add (junk : list Z) (l : addrlist) (addr : Z) : addrlist :=
  let l :=
    if al_count l =? al_allocsz l then
      let allocsz := wrap32 (wrap32 (al_allocsz l + 1) * 2) in
      AddrListRec (al_count l) allocsz
        (resize (Z.to_nat allocsz) 0 (al_addrs l ++ junk))
    else l in
  AddrListRec (wrap32 (al_count l + 1)) (al_allocsz l) (<[Z.to_nat (al_count l) := addr]> (al_addrs l)).

Definition addrlist_wf (l : addrlist) : Prop :=
  0 <= al_count l <= al_allocsz l /\ Z.of_nat (length (al_addrs l)) = al_allocsz l.

(** The addresses in use. *)
Definition addrlist_items (l : addrlist) : list Z := take (Z.to_nat (al_count l)) (al_addrs l).

Definition empty_addrlist : addrlist := AddrListRec 0 0 [].

Lemma addrlist_scan_items n i l addr :
  addrlist_scan n i l addr = addrlist_scan (length (take n l)) i (take n l) addr.
Proof.
  revert i l. induction n as [|n IH]; intros i [|x l]; simpl; [done..|].
  destruct (x =? addr); [done|]. apply IH.
Qed.

Lemma addrlist_scan_spec i l addr :
  0 <= i ->
  ((addr ∉ l) /\ addrlist_scan (length l) i l addr = 0) \/
  (exists k, l !! k = Some addr /\ (forall j, (j < k)%nat -> l !! j <> Some addr) /\
     addrlist_scan (length l) i l addr = 1 + i + Z.of_nat k).
Proof.
  revert i. induction l as [|x l IH]; intros i Hi; simpl; [left; set_solver|].
  destruct (Z.eqb_spec x addr) as [->|N].
  - right. exists 0%nat. split_and!; [done|lia|simpl; lia].
  - destruct (IH (i + 1) ltac:(lia)) as [[Nl E]|(k & Hk & Hm & E)].
    + left. split; [set_solver|done].
    + right. exists (S k). split_and!; [done| |rewrite E; lia].
      intros [|j] Hj; simpl; [congruence|]. apply Hm. lia.
Qed.

(** Adding appends: the items gain the address at the end. *)
Lemma addrlist_add_ok junk l addr :
  addrlist_wf l -> al_allocsz l < 2 ^ 31 - 1 ->
  addrlist_wf (__liballocs_addrlist_add junk l addr) /\
  addrlist_items (__liballocs_addrlist_add junk l addr) = addrlist_items l ++ [addr].
Proof.
  intros [Hc Hl] Hm. unfold __liballocs_addrlist_add, addrlist_wf, addrlist_items.
  assert (Hins : forall (k : list Z), take (Z.to_nat (al_count l)) k = take (Z.to_nat (al_count l)) (al_addrs l) ->
    (Z.to_nat (al_count l) < length k)%nat ->
    take (Z.to_nat (al_count l + 1)) (<[Z.to_nat (al_count l) := addr]> k) =
      take (Z.to_nat (al_count l)) (al_addrs l) ++ [addr]).
  { intros k Hk Hlen. replace (Z.to_nat (al_count l + 1)) with (S (Z.to_nat (al_count l))) by lia.
    erewrite take_S_r; [|by apply list_lookup_insert_eq]. by rewrite take_insert_ge, Hk by lia. }
  destruct (Z.eqb_spec (al_count l) (al_allocsz l)) as [E|N]; cbn [al_count al_allocsz al_addrs];
    rewrite (wrap_small 32 (al_count l + 1)) by lia.
  - rewrite (wrap_small 32 (al_allocsz l + 1)), wrap_small by lia.
    rewrite length_insert, length_resize. split; [lia|]. apply Hins.
    + rewrite take_resize_le by lia. rewrite resize_le by (rewrite length_app; lia).
      by rewrite take_app_le by lia.
    + rewrite length_resize. lia.
  - rewrite length_insert. split; [lia|]. apply Hins; [done|lia].
Qed.

Lemma addrlist_contains_items l addr :
  (__liballocs_addrlist_contains l addr <> 0 <-> addr ∈ addrlist_items l).
Proof.
  unfold __liballocs_addrlist_contains. rewrite addrlist_scan_items.
  fold (addrlist_items l).
  destruct (addrlist_scan_spec 0 (addrlist_items l) addr ltac:(done)) as [[N ->]|(k & Hk & _ & ->)].
  - split; [done|]. by intros ?%N.
  - split; [|lia]. intros _. by eapply list_elem_of_lookup_2.
Qed.
