(* ===== verification/GenericMalloc.v ===== *)
(** The generic malloc index of src/include/generic_malloc_index.h.

    One bit per [MALLOC_ALIGN] bytes of an arena says whether a chunk starts
    there; the metadata of a chunk is the insert in its last word.  The state
    adds to the bigalloc table the arena records, which
    [suballocator_private] points to, the words of memory that hold inserts,
    the thread-local [__current_allocsite], the list of unrecognised
    allocation sites, and traces of the calls to [__liballocs_uncache_all] and
    [__notify_copy].

    The bitmap primitives are the class [Bitmap].  The private heap, the tables
    of allocation sites and [sizefn] are parameters too. *)
From S2P Require Import Prelude Vas Bitmap BigAlloc PageIndex PageIndexQuery MallocMeta AddrList.

Record arena_bitmap_info := ArenaBitmapInfo {
  nwords : Z;
  bitmap : list Z;
  bitmap_base_addr : Z;
  bitmap_insert_count : Z;
  biggest_allocated_object : Z;
  biggest_unpromoted_object : Z;
}.
Definition zero_info : arena_bitmap_info := ArenaBitmapInfo 0 [] 0 0 0 0.

Record gstate := GState {
  table : state;
  infos : gmap Z arena_bitmap_info;
  mem : gmap Z Z;
  __current_allocsite : Z;
  unrecognised : addrlist;
  uncached : list (Z * Z);
  copies : list (Z * Z * Z);
}.

Definition set_table (t : state) (g : gstate) : gstate :=
  GState t (infos g) (mem g) (__current_allocsite g) (unrecognised g) (uncached g) (copies g).
Definition set_infos (i : gmap Z arena_bitmap_info) (g : gstate) : gstate :=
  GState (table g) i (mem g) (__current_allocsite g) (unrecognised g) (uncached g) (copies g).
Definition set_mem (m : gmap Z Z) (g : gstate) : gstate :=
  GState (table g) (infos g) m (__current_allocsite g) (unrecognised g) (uncached g) (copies g).
Definition add_unrecognised (a : Z) (g : gstate) : gstate :=
  GState (table g) (infos g) (mem g) (__current_allocsite g) (__liballocs_addrlist_add [] (unrecognised g) a) (uncached g) (copies g).
Definition add_uncached (p n : Z) (g : gstate) : gstate :=
  GState (table g) (infos g) (mem g) (__current_allocsite g) (unrecognised g) (uncached g ++ [(p, n)]) (copies g).
Definition add_copy (d s n : Z) (g : gstate) : gstate :=
  GState (table g) (infos g) (mem g) (__current_allocsite g) (unrecognised g) (uncached g) (copies g ++ [(d, s, n)]).

(** An operation on the bigalloc table, run inside the larger state. *)
Definition big {A} (m : M state A) : M gstate A := fun g =>
  match m (table g) with
  | Done (a, t) => Done (a, set_table t g)
  | Abort => Abort
  | NoFuel => NoFuel
  end.

Definition info (g : gstate) (p : Z) : arena_bitmap_info := default zero_info (infos g !! p).
Definition load (g : gstate) (a : Z) : Z := default 0 (mem g !! a).
Definition rd_info (p : Z) : M gstate arena_bitmap_info := gets (fun g => info g p).
Definition wr_info (p : Z) (f : arena_bitmap_info -> arena_bitmap_info) : M gstate unit :=
  modify (fun g => set_infos (<[p := f (info g p)]> (infos g)) g).
Definition rd_mem (a : Z) : M gstate Z := gets (fun g => load g a).
Definition wr_mem (a v : Z) : M gstate unit := modify (fun g => set_mem (<[a := v]> (mem g)) g).

(** Following a null pointer ends the program. *)
Definition deref (p : Z) : M gstate unit := if p =? 0 then abort else mret tt.

Inductive err := err_unindexed_heap_object | err_unrecognised_alloc_site.

(** The private heap and the allocation-site tables. *)
Class MallocEnv := {
  private_malloc : gmap Z arena_bitmap_info -> Z;
  private_realloc_ok : Z -> bool;
  free_arena_bitmap_and_info : Z;
  find_allocsite_entry_at : Z -> option Z;
  allocsite_id : Z -> Z;
  MINIMUM_USER_ADDRESS : Z;
}.

Definition SHOULD_PROMOTE_TO_BIGALLOC (usable_size : Z) : bool := 131072 <? usable_size.

Section ops.
Context {V : Vas} {H : Hooks} {B : Build} {BM : Bitmap} {E : MallocEnv}.

Definition COVERAGE : Z := MALLOC_ALIGN * BITMAP_WORD_NBITS.

Definition __generic_malloc_fresh_big (a allocptr bigalloc_size containing_bigalloc : Z) : M gstate Z :=
  b ← big (__liballocs_new_bigalloc allocptr bigalloc_size 0 0 containing_bigalloc a);
  if b =? 0 then abort else mret b.

Definition __generic_malloc_ensure_big (a addr size : Z) : M gstate Z :=
  maybe_already ← big (__lookup_bigalloc_from_root addr a);
  if negb (maybe_already =? 0) then mret maybe_already else
  d ← big (__lookup_deepest_bigalloc addr);
  __generic_malloc_fresh_big a addr size d.

Definition ensure_arena_has_info (arena : Z) : M gstate Z :=
  deref arena ;;
  sp ← big (rd suballocator_private arena);
  if sp =? 0 then
    p ← gets (fun g => private_malloc (infos g));
    bg ← big (rd b_begin arena);
    big (wr arena (set_suballocator_private p free_arena_bitmap_and_info)) ;;
    wr_info p (fun _ => ArenaBitmapInfo 0 [] (ROUND_DOWN bg COVERAGE) 0 0 0) ;;
    mret p
  else mret sp.

Definition arena_for_userptr (a userptr : Z) : M gstate Z :=
  b ← big (__lookup_bigalloc_from_root_by_suballocator userptr a);
  if b =? 0 then
    b ← big (__lookup_deepest_bigalloc userptr);
    deref b ;;
    sa ← big (rd suballocator b);
    assert (sa =? 0) ;;
    big (wr b (set_suballocator a)) ;;
    ensure_arena_has_info b ;;
    mret b
  else mret b.

Definition arena_info_for_userptr (a userptr : Z) : M gstate Z :=
  b ← arena_for_userptr a userptr;
  if negb (b =? 0) then big (rd suballocator_private b) else mret 0.

Definition ensure_arena_info_for_userptr (a userptr : Z) : M gstate Z :=
  arena ← arena_for_userptr a userptr;
  ensure_arena_has_info arena.

(** [realloc] followed by [bzero] of the new words. *)
Definition grow_bitmap (total_words : Z) (i : arena_bitmap_info) : arena_bitmap_info :=
  ArenaBitmapInfo total_words
    (bitmap i ++ replicate (Z.to_nat (total_words - nwords i)) 0)
    (bitmap_base_addr i) (bitmap_insert_count i)
    (biggest_allocated_object i) (biggest_unpromoted_object i).

Definition ensure_has_bitmap_to (a ip end_ : Z) : M gstate unit :=
  arena ← big (__lookup_bigalloc_under_by_suballocator (wrap64 (end_ - 1)) a 0);
  assert (negb (arena =? 0)) ;;
  deref arena ;;
  bg ← big (rd b_begin arena);
  i ← rd_info ip;
  assert (ROUND_DOWN bg COVERAGE =? bitmap_base_addr i) ;;
  let total_words := wrap64 (ROUND_UP end_ COVERAGE - bitmap_base_addr i) / COVERAGE in
  if nwords i <? total_words then
    if private_realloc_ok total_words
    then wr_info ip (grow_bitmap total_words)
    else abort
  else mret tt.

Definition with_biggest_allocated (v : Z) (i : arena_bitmap_info) : arena_bitmap_info :=
  ArenaBitmapInfo (nwords i) (bitmap i) (bitmap_base_addr i) (bitmap_insert_count i)
    v (biggest_unpromoted_object i).
Definition with_biggest_unpromoted (v : Z) (i : arena_bitmap_info) : arena_bitmap_info :=
  ArenaBitmapInfo (nwords i) (bitmap i) (bitmap_base_addr i) (bitmap_insert_count i)
    (biggest_allocated_object i) v.
Definition with_insert_count (v : Z) (i : arena_bitmap_info) : arena_bitmap_info :=
  ArenaBitmapInfo (nwords i) (bitmap i) (bitmap_base_addr i) v
    (biggest_allocated_object i) (biggest_unpromoted_object i).
Definition with_bitmap (v : list Z) (i : arena_bitmap_info) : arena_bitmap_info :=
  ArenaBitmapInfo (nwords i) v (bitmap_base_addr i) (bitmap_insert_count i)
    (biggest_allocated_object i) (biggest_unpromoted_object i).

Definition bit_index (i : arena_bitmap_info) (ptr : Z) : Z :=
  wrap64 (ptr - bitmap_base_addr i) / MALLOC_ALIGN.

Context (sizefn : Z -> Z).

Definition __generic_malloc_index_insert (a ip allocptr caller_requested_size caller : Z) : M gstate Z :=
  ensure_has_bitmap_to a ip (wrap64 (allocptr + caller_requested_size)) ;;
  arena ← big (__lookup_bigalloc_under_by_suballocator allocptr a 0);
  deref arena ;;
  ar ← big (rd id arena);
  i ← rd_info ip;
  assert (bitmap_base_addr i =? ROUND_DOWN (b_begin ar) COVERAGE) ;;
  ai ← rd_info (suballocator_private ar);
  let bitmap_end_addr := wrap64 (bitmap_base_addr i + nwords ai * COVERAGE) in
  assert (allocptr <=? bitmap_end_addr) ;;
  let alloc_usable_size := sizefn allocptr in
  let caller_usable_size := caller_usable_size_for_chunk_and_usable_size allocptr alloc_usable_size in
  let p_insert := insert_for_chunk_and_caller_usable_size allocptr caller_usable_size in
  old ← rd_mem p_insert;
  wr_mem p_insert (set_initial_alloc_site caller (set_initial_unused 0 old)) ;;
  wr_info ip (fun i => with_biggest_allocated (Z.max caller_usable_size (biggest_allocated_object i)) i) ;;
  (if SHOULD_PROMOTE_TO_BIGALLOC alloc_usable_size then
     assert (caller_requested_size <=? alloc_usable_size - sizeof_insert) ;;
     b ← __generic_malloc_fresh_big (suballocator ar) allocptr caller_requested_size arena;
     if b =? 0 then abort else mret tt
   else
     wr_info ip (fun i => with_biggest_unpromoted (Z.max caller_usable_size (biggest_unpromoted_object i)) i)) ;;
  when (negb NDEBUG) (wr_info ip (fun i => with_insert_count (wrap64 (bitmap_insert_count i + 1)) i)) ;;
  wr_info ip (fun i => with_bitmap (bitmap_set_l (bitmap i) (bit_index i allocptr)) i) ;;
  mret p_insert.

Definition __generic_malloc_index_delete (a ip userptr : Z) : M gstate unit :=
  assert (negb (userptr =? 0)) ;;
  modify (add_uncached userptr (sizefn userptr)) ;;
  b ← big (__lookup_bigalloc_under userptr a 0);
  if negb (b =? 0) then
    ab ← big (rd allocated_by b);
    big (__liballocs_delete_bigalloc_at userptr ab) ;; mret tt
  else
    arena ← big (__lookup_bigalloc_under_by_suballocator userptr a 0);
    i ← rd_info ip;
    when (negb NDEBUG) (deref arena) ;;
    bg ← big (rd b_begin arena);
    assert (bitmap_base_addr i =? ROUND_DOWN bg COVERAGE) ;;
    assert (bitmap_base_addr i <=? userptr) ;;
    wr_info ip (fun i => with_bitmap (bitmap_clear_l (bitmap i) (bit_index i userptr)) i).

Definition __generic_malloc_index_reinsert_after_resize
    (a oldinfo userptr modified_size old_usable_size requested_size caller new_allocptr : Z) : M gstate Z :=
  site ← gets __current_allocsite;
  let site := if negb (site =? 0) then site else caller in
  ins ← (if negb (new_allocptr =? 0) && negb (new_allocptr =? userptr) then
           newinfo ← ensure_arena_info_for_userptr a new_allocptr;
           ins ← __generic_malloc_index_insert a newinfo new_allocptr requested_size site;
           modify (add_copy new_allocptr userptr
             (caller_usable_size_for_chunk_and_usable_size userptr old_usable_size)) ;;
           mret ins
         else __generic_malloc_index_insert a oldinfo userptr requested_size site);
  b ← big (__lookup_bigalloc_from_root userptr a);
  (if (new_allocptr =? userptr) && (modified_size <? old_usable_size) && negb (b =? 0) then
     big (__liballocs_truncate_bigalloc_at_end b (wrap64 (userptr + modified_size))) ;; mret tt
   else mret tt) ;;
  mret ins.

(** Returns the insert, the object start and the object size. *)
Definition nbits_hidden (i : arena_bitmap_info) (m : Z) : Z :=
  if NDEBUG then
    let fake_bitmap_base_addr := ROUND_DOWN (wrap64 (m - biggest_unpromoted_object i)) COVERAGE in
    if bitmap_base_addr i <? fake_bitmap_base_addr then
      wrap64 (BITMAP_WORD_NBITS * ((fake_bitmap_base_addr - bitmap_base_addr i) / COVERAGE))
    else 0
  else 0.

Definition search_bitmap (i : arena_bitmap_info) (m : Z) : option Z :=
  let start_idx := wrap32 (wrap64 (m - bitmap_base_addr i) / MALLOC_ALIGN) in
  let hidden := nbits_hidden i m in
  let found_bitidx := bitmap_rfind_first_set_leq_l
    (drop (Z.to_nat (hidden / BITMAP_WORD_NBITS)) (take (Z.to_nat (nwords i)) (bitmap i)))
    (wrap64 (start_idx - hidden)) in
  if found_bitidx =? 2 ^ 64 - 1 then None
  else Some (wrap64 (bitmap_base_addr i + MALLOC_ALIGN * wrap64 (found_bitidx + hidden))).

Definition lookup_object_info_via_bitmap (ip m : Z) : M gstate (option (Z * Z * Z)) :=
  if ip =? 0 then mret None else
  i ← rd_info ip;
  assert (nbits_hidden i m mod BITMAP_WORD_NBITS =? 0) ;;
  match search_bitmap i m with
  | None => mret None
  | Some object_start =>
    let found_ins := insert_for_chunk sizefn object_start in
    if found_ins =? 0 then mret None else
    assert (negb (object_start =? 0)) ;;
    w ← rd_mem found_ins;
    assert (INSERT_DESCRIBES_OBJECT MINIMUM_USER_ADDRESS w) ;;
    mret (Some (found_ins, object_start, usersize sizefn object_start))
  end.

Definition lookup_object_info (arena m : Z) : M gstate (option (Z * Z * Z)) :=
  b1 ← big (rd b_begin 1);
  if b1 =? 0 then mret None else
  deref arena ;;
  sa ← big (rd suballocator arena);
  ip ← arena_info_for_userptr sa m;
  lookup_object_info_via_bitmap ip m.

(** Returns the type and, where it is set, the site; or an error. *)
Definition extract_and_output_alloc_site_and_type (p_ins : Z) : M gstate ((err + Z) * option Z) :=
  if p_ins =? 0 then mret (inl err_unindexed_heap_object, None) else
  w ← rd_mem p_ins;
  r ← (if INSERT_IS_WITH_TYPE w then
         mret (UNIQTYPE_UNSHIFT_FROM_INSERT (with_type_uniqtype_shifted w), 0)
       else
         let alloc_site := initial_alloc_site w in
         let alloc_uniqtype := default 0 (find_allocsite_entry_at alloc_site) in
         seen ← gets (fun g => negb (__liballocs_addrlist_contains (unrecognised g) alloc_site =? 0));
         when ((alloc_uniqtype =? 0) && negb (alloc_site =? 0) && negb seen)
           (modify (add_unrecognised alloc_site)) ;;
         when NDEBUG (wr_mem p_ins
           (mk_with_type (UNIQTYPE_SHIFT_FOR_INSERT alloc_uniqtype) (allocsite_id alloc_site) 1)) ;;
         mret (alloc_uniqtype, alloc_site));
  if fst r =? 0 then
    when NDEBUG (wr_mem p_ins (mk_with_type 0 (-1) 1)) ;;
    w ← rd_mem p_ins;
    assert (INSERT_DESCRIBES_OBJECT MINIMUM_USER_ADDRESS w) ;;
    assert (negb (INSERT_IS_NULL w)) ;;
    mret (inl err_unrecognised_alloc_site, Some (snd r))
  else mret (inr (fst r), Some (snd r)).

(** Base, size, and what the insert says. *)
Definition __generic_malloc_get_info (a obj maybe_the_allocation : Z)
    : M gstate (option (Z * Z * ((err + Z) * option Z))) :=
  m ← big (rd id maybe_the_allocation);
  if negb (maybe_the_allocation =? 0) && (allocated_by m =? a) then
    let base := b_begin m in
    let caller_usable_size := wrap64 (b_end m - b_begin m) in
    let heap_info := insert_for_chunk_and_caller_usable_size base (wrap64 (caller_usable_size + sizeof_insert)) in
    assert (negb (heap_info =? 0)) ;;
    r ← extract_and_output_alloc_site_and_type heap_info;
    mret (Some (base, caller_usable_size, r))
  else
    ip ← arena_info_for_userptr a obj;
    f ← lookup_object_info_via_bitmap ip obj;
    match f with
    | None => mret None
    | Some (heap_info, base, alloc_usable_chunksize) =>
      assert (negb (base =? 0)) ;;
      let caller_usable_size := caller_usable_size_for_chunk_and_usable_size base alloc_usable_chunksize in
      r ← extract_and_output_alloc_site_and_type heap_info;
      mret (Some (base, caller_usable_size, r))
    end.

Definition __generic_malloc_set_type (a maybe_the_allocation obj new_type : Z) : M gstate (option err) :=
  arena ← arena_for_userptr a obj;
  f ← lookup_object_info arena obj;
  match f with
  | None => mret (Some err_unindexed_heap_object)
  | Some (ins, _, _) =>
    w ← rd_mem ins;
    let existing_alloc_site_id :=
      if INSERT_IS_WITH_TYPE w then with_type_alloc_site_id w
      else allocsite_id (initial_alloc_site w) in
    wr_mem ins (mk_with_type (UNIQTYPE_SHIFT_FOR_INSERT new_type) existing_alloc_site_id 1) ;;
    mret None
  end.
End ops.
