(* ===== verification/GenericMallocFacts.v ===== *)
(** Correctness of the generic malloc index: the bitmap search, its
    release-build shortcut, indexing, unindexing and the cached types. *)
From S2P Require Import Prelude Vas Bitmap BigAlloc PageIndex PageIndexQuery BigAllocFacts Forest Traversal.
From S2P Require Import QueryCorrect MallocMeta AddrList GenericMalloc.

(** ** The search for the chunk below an address *)

Section search.
Context {V : Vas} {VL : VasLaws V} {BM : Bitmap} {BL : BitmapLaws BM}.

(** A consistent arena record, all of it below [limit]. *)
Record info_ok (i : arena_bitmap_info) : Prop := {
  io_words : Z.of_nat (length (bitmap i)) = nwords i;
  io_base : 0 <= bitmap_base_addr i;
  io_aligned : bitmap_base_addr i mod COVERAGE = 0;
  io_limit : bitmap_base_addr i + nwords i * COVERAGE < 2 ^ 48;
  io_biggest : 0 <= biggest_unpromoted_object i;
}.

(** Address [o] starts a chunk according to the bitmap. *)
Definition starts_chunk (i : arena_bitmap_info) (o : Z) : Prop :=
  bitmap_base_addr i <= o /\ (o - bitmap_base_addr i) mod MALLOC_ALIGN = 0 /\
  bitmap_get_l (bitmap i) ((o - bitmap_base_addr i) / MALLOC_ALIGN) = true.

(** [o] is the last chunk start at or below [m]. *)
Definition last_start (i : arena_bitmap_info) (m o : Z) : Prop :=
  starts_chunk i o /\ o <= m /\ forall o', starts_chunk i o' -> o' <= m -> o' <= o.

Lemma coverage_pos : 0 < COVERAGE.
Proof. unfold COVERAGE, MALLOC_ALIGN. pose proof bitmap_nbits_pos. lia. Qed.

Lemma get_drop w k j : 0 <= j ->
  bitmap_get_l (drop k w) j = bitmap_get_l w (j + BITMAP_WORD_NBITS * Z.of_nat k).
Proof.
  intros Hj. pose proof bitmap_nbits_pos. destruct (decide (k <= length w)%nat) as [Hk|Hk].
  - rewrite <- (take_drop k w) at 2. rewrite bitmap_get_app by nia.
    rewrite length_take_le by done. rewrite (proj2 (Z.ltb_ge _ _)) by lia. f_equal. lia.
  - rewrite drop_ge by lia. rewrite !bitmap_get_beyond; [done| |simpl; lia]. nia.
Qed.

(** The hidden prefix is a whole number of words and ends at or below
    [m - biggest_unpromoted_object]. *)
Lemma nbits_hidden_ok {B : Build} i m :
  info_ok i -> bitmap_base_addr i <= m < bitmap_base_addr i + nwords i * COVERAGE ->
  biggest_unpromoted_object i <= m ->
  exists k, 0 <= k < nwords i /\ nbits_hidden i m = BITMAP_WORD_NBITS * k /\
    (k = 0 \/ bitmap_base_addr i + COVERAGE * k <= m - biggest_unpromoted_object i) /\
    (NDEBUG = false -> k = 0).
Proof.
  intros [Hw Hb Ha Hl Hbig] Hm Hmb. pose proof coverage_pos as Hc. pose proof bitmap_nbits_pos.
  assert (0 < nwords i) by nia. unfold nbits_hidden. destruct NDEBUG.
  2:{ exists 0. split_and!; [lia..|by left|done]. }
  rewrite wrap_small by lia. rewrite ROUND_DOWN_spec by lia.
  set (big := biggest_unpromoted_object i) in *. set (base := bitmap_base_addr i) in *.
  destruct (Z.ltb_spec base (COVERAGE * ((m - big) / COVERAGE))) as [Hlt|Hge].
  2:{ exists 0. split_and!; [lia..|by left|done]. }
  assert (Hc0 : COVERAGE <> 0) by lia. pose proof (Z.div_mod base COVERAGE Hc0) as Eb. rewrite Ha in Eb.
  pose proof (Z.mul_div_le (m - big) COVERAGE Hc).
  set (q := (m - big) / COVERAGE) in *. set (q0 := base / COVERAGE) in *.
  assert (Eq : (COVERAGE * q - base) / COVERAGE = q - q0).
  { replace (COVERAGE * q - base) with ((q - q0) * COVERAGE) by lia. by apply Z.div_mul. }
  rewrite Eq. exists (q - q0). assert (0 < q - q0) by nia.
  assert (COVERAGE * (q - q0) <= m - big - base) by nia.
  assert (BITMAP_WORD_NBITS <= COVERAGE) by (unfold COVERAGE, MALLOC_ALIGN in *; lia).
  split_and!; [lia|nia| |right; lia|done].
  rewrite wrap_small; [done|]. split; [nia|]. assert (BITMAP_WORD_NBITS * (q - q0) <= COVERAGE * (q - q0)) by nia. lia.
Qed.

Lemma search_bitmap_found {B : Build} i m o :
  info_ok i -> bitmap_base_addr i <= m < bitmap_base_addr i + nwords i * COVERAGE ->
  m - bitmap_base_addr i < 2 ^ 36 ->
  last_start i m o -> m - o <= biggest_unpromoted_object i <= m ->
  search_bitmap i m = Some o.
Proof.
  intros Iok Hm H36 ((Hbo & Hao & Hgo) & Hom & Hlast) Hbig.
  destruct (nbits_hidden_ok i m Iok Hm ltac:(lia)) as (k & Hk & Eh & Hhid & _).
  destruct Iok as [Hw Hb Ha Hl _]. pose proof coverage_pos as Hc. pose proof bitmap_nbits_pos as Hn.
  unfold search_bitmap. rewrite Eh. set (base := bitmap_base_addr i) in *.
  assert (Ecov : COVERAGE = MALLOC_ALIGN * BITMAP_WORD_NBITS) by done.
  rewrite Z.mul_comm, Z.div_mul, take_ge by lia. unfold MALLOC_ALIGN in *.
  assert (Hidx : 0 <= (m - base) / 16 < 2 ^ 32) by (split; [apply Z.div_pos; lia|apply Z.div_lt_upper_bound; lia]).
  rewrite (wrap_small 64 (m - base)), (wrap_small 32) by lia.
  pose proof (Z.div_mod (o - base) 16 ltac:(lia)) as Eo. rewrite Hao in Eo.
  set (io := (o - base) / 16) in *. set (im := (m - base) / 16) in *.
  assert (Him : 16 * im <= m - base < 16 * im + 16) by (unfold im; Z.to_euclidean_division_equations; lia).
  assert (Hko : k * BITMAP_WORD_NBITS <= io) by nia.
  rewrite (wrap_small 64 (im - _)) by nia.
  set (st := im - k * BITMAP_WORD_NBITS). set (w := drop (Z.to_nat k) (bitmap i)).
  assert (Hst : 0 <= st) by nia.
  assert (Hget : forall j, 0 <= j -> bitmap_get_l w j = bitmap_get_l (bitmap i) (j + k * BITMAP_WORD_NBITS)).
  { intros j Hj. unfold w. rewrite get_drop by done. rewrite Z2Nat.id by lia. f_equal. lia. }
  assert (Hgo' : bitmap_get_l w (io - k * BITMAP_WORD_NBITS) = true).
  { rewrite Hget by lia. by replace (io - k * BITMAP_WORD_NBITS + k * BITMAP_WORD_NBITS) with io by lia. }
  destruct (Z.eqb_spec (bitmap_rfind_first_set_leq_l w st) (2 ^ 64 - 1)) as [En|Ef].
  { rewrite (bitmap_rfind_none w st Hst) in Hgo'; [done|unfold w; rewrite length_drop; nia|done|lia]. }
  destruct (bitmap_rfind_found w st _ Hst eq_refl Ef) as (Hr & Hgr & Hnr).
  set (r := bitmap_rfind_first_set_leq_l w st) in *.
  assert (r = io - k * BITMAP_WORD_NBITS) as ->.
  { destruct (Z.lt_trichotomy r (io - k * BITMAP_WORD_NBITS)) as [Hlt|[?|Hgt]]; [|done|]; exfalso.
    - rewrite Hnr in Hgo'; [done|lia].
    - rewrite Hget in Hgr by lia.
      assert (base + 16 * (r + k * BITMAP_WORD_NBITS) <= o); [|lia].
      apply Hlast; [|lia]. fold base. split_and!; [fold base; nia| |].
      + fold base. replace (base + 16 * (r + k * BITMAP_WORD_NBITS) - base) with ((r + k * BITMAP_WORD_NBITS) * 16) by lia.
        by apply Z.mod_mul.
      + fold base. replace (base + 16 * (r + k * BITMAP_WORD_NBITS) - base) with ((r + k * BITMAP_WORD_NBITS) * 16) by lia.
        by rewrite Z.div_mul. }
  f_equal. replace (io - k * BITMAP_WORD_NBITS + k * BITMAP_WORD_NBITS) with io by lia.
  rewrite (wrap_small 64 io), wrap_small by lia. lia.
Qed.
End search.

(** ** Arena lookups *)

Section arena.
Context {V : Vas} {VL : VasLaws V} {H : Hooks}.

Lemma topmost_unique s addr a sub r r' :
  wf s -> r <> 0 -> r' <> 0 -> topmost_at s addr a sub r -> topmost_at s addr a sub r' -> r = r'.
Proof.
  intros W N N' [[? _]|[Hr Ar]] [[? _]|[Hr' Ar']]; try done.
  apply (ancestor_antisym s); [done|by apply Ar|by apply Ar'].
Qed.

Lemma lookup_arena_ok t ptr a sub r :
  wf t -> index_ok t -> user_address ptr -> r <> 0 -> topmost_at t ptr a sub r ->
  find_bigalloc_recursive 0 ptr a sub t = Done (r, t).
Proof.
  intros W I Hp Nr Tr. pose proof Tr as [[? _]|[(Ur & Cr & _) _]]; [done|].
  assert (Hex : exists i, used t i /\ contains t i ptr) by by exists r.
  destruct (from_root_ok t ptr a sub W I Hp Hex) as (r' & E & T').
  destruct (index_spans t ptr W I Hp Hex) as [U _].
  unfold find_bigalloc_recursive. simpl. unfold pi_get, gets. unfold mbind at 1, M_bind at 1.
  rewrite (proj2 (Z.eqb_neq _ 0)) by by apply (used_nonzero t). cbn [andb]. rewrite E.
  destruct (decide (r' = 0)) as [->|N'].
  - exfalso. destruct T' as [[_ Hn]|[(U0 & _) _]].
    + by destruct Tr as [[? _]|[Hr _]]; [|apply (Hn r)].
    + by apply (not_used_0 t W).
  - by rewrite (topmost_unique t ptr a sub r r').
Qed.

(** The arena of allocator [a] for an address. *)
Definition arena_of (t : state) (a ptr arena : Z) : Prop :=
  user_address ptr /\ arena <> 0 /\ topmost_at t ptr a true arena.

Lemma lookup_arena {B : Build} t a ptr arena :
  wf t -> index_ok t -> a <> 0 -> arena_of t a ptr arena ->
  __lookup_bigalloc_under_by_suballocator ptr a 0 t = Done (arena, t).
Proof.
  intros W I Na (Hu & N & T). unfold __lookup_bigalloc_under_by_suballocator.
  rewrite (bind_Done _ _ _ tt t); [by apply lookup_arena_ok|].
  unfold assert. rewrite (proj2 (Z.eqb_neq a 0)) by done. by destruct NDEBUG.
Qed.

Lemma big_pure {A} (m : M state A) (x : A) g :
  m (table g) = Done (x, table g) -> big m g = Done (x, g).
Proof. unfold big. intros ->. by destruct g. Qed.
End arena.

Lemma info_set g g' p x q :
  info (set_infos (<[p := x]> (infos g)) g') q = if decide (p = q) then x else info g q.
Proof. unfold info, set_infos; simpl. rewrite lookup_insert. by case_decide. Qed.

Lemma load_set g a v b :
  load (set_mem (<[a := v]> (mem g)) g) b = if decide (a = b) then v else load g b.
Proof. unfold load, set_mem; simpl. rewrite lookup_insert. by case_decide. Qed.

Lemma info_set_mem m g q : info (set_mem m g) q = info g q.
Proof. done. Qed.
Lemma load_set_infos i g a : load (set_infos i g) a = load g a.
Proof. done. Qed.

(** ** Growing the bitmap *)

Section grow.
Context {V : Vas} {VL : VasLaws V} {H : Hooks} {BM : Bitmap} {BL : BitmapLaws BM} {E : MallocEnv}.

(** The same chunks, possibly with more room. *)
Record same_chunks (i i' : arena_bitmap_info) : Prop := {
  sc_base : bitmap_base_addr i' = bitmap_base_addr i;
  sc_get j : 0 <= j -> bitmap_get_l (bitmap i') j = bitmap_get_l (bitmap i) j;
  sc_alloc : biggest_allocated_object i' = biggest_allocated_object i;
  sc_unprom : biggest_unpromoted_object i' = biggest_unpromoted_object i;
  sc_words : nwords i <= nwords i';
}.

Lemma grow_bitmap_ok i total :
  info_ok i -> nwords i <= total -> bitmap_base_addr i + total * COVERAGE < 2 ^ 48 ->
  info_ok (grow_bitmap total i) /\ same_chunks i (grow_bitmap total i) /\ nwords (grow_bitmap total i) = total.
Proof.
  intros [Hw Hb Ha Hl Hbig] Ht Hlim. split_and!; [split; simpl; try done|split; simpl; try done|done].
  - rewrite length_app, length_replicate. lia.
  - intros j Hj. rewrite bitmap_get_app by done.
    destruct (Z.ltb_spec j (BITMAP_WORD_NBITS * Z.of_nat (length (bitmap i)))); [done|].
    rewrite bitmap_get_zeros. symmetry. by apply bitmap_get_beyond.
Qed.

(** The state after [ensure_has_bitmap_to]. *)
Record bitmap_ensured (g g' : gstate) (ip end_ : Z) : Prop := {
  be_table : table g' = table g;
  be_mem : mem g' = mem g;
  be_info : info_ok (info g' ip);
  be_same : same_chunks (info g ip) (info g' ip);
  be_room : end_ <= bitmap_base_addr (info g' ip) + nwords (info g' ip) * COVERAGE;
  be_other q : q <> ip -> info g' q = info g q;
}.

Lemma ensure_has_bitmap_to_ok {B : Build} g a ip arena end_ :
  wf (table g) -> index_ok (table g) -> a <> 0 -> arena_of (table g) a (end_ - 1) arena ->
  info_ok (info g ip) -> bitmap_base_addr (info g ip) = ROUND_DOWN (b_begin (ba (table g) arena)) COVERAGE ->
  (forall n, private_realloc_ok n = true) ->
  exists g', ensure_has_bitmap_to a ip end_ g = Done (tt, g') /\ bitmap_ensured g g' ip end_.
Proof.
  intros W I Na Har Iok Eb Hre. pose proof Har as ((Hu0 & Hu1) & Nar & T).
  destruct max_user_address_spec as [Hmax _]. pose proof coverage_pos as Hc.
  destruct T as [[? _]|[(Uar & Car & _) _]]; [done|]. unfold contains in Car.
  unfold ensure_has_bitmap_to. rewrite wrap_small by lia.
  rewrite (bind_Done _ _ _ arena g) by (apply big_pure; by apply lookup_arena).
  rewrite (bind_Done _ _ _ tt g).
  2:{ unfold assert. rewrite (proj2 (Z.eqb_neq arena 0)) by done. by destruct NDEBUG. }
  rewrite (bind_Done _ _ _ tt g) by (unfold deref; by rewrite (proj2 (Z.eqb_neq arena 0))).
  rewrite (bind_Done _ _ _ (b_begin (ba (table g) arena)) g) by by apply big_pure.
  rewrite (bind_Done _ _ _ (info g ip) g) by done.
  rewrite (bind_Done _ _ _ tt g).
  2:{ unfold assert. rewrite Eb, Z.eqb_refl. by destruct NDEBUG. }
  pose proof (io_base _ Iok) as Hb. pose proof (io_aligned _ Iok) as Hal.
  set (i := info g ip) in *. set (base := bitmap_base_addr i) in *.
  pose proof (wf_bounds _ W arena Uar) as Hbd.
  assert (Hbe : base <= b_begin (ba (table g) arena)).
  { rewrite Eb. rewrite ROUND_DOWN_spec by lia. pose proof (Z.mul_div_le (b_begin (ba (table g) arena)) COVERAGE Hc). lia. }
  rewrite ROUND_UP_spec by lia. set (q := (end_ + COVERAGE - 1) / COVERAGE).
  assert (Hq : end_ <= COVERAGE * q < end_ + COVERAGE).
  { unfold q. pose proof (Z.mul_div_le (end_ + COVERAGE - 1) COVERAGE Hc).
    pose proof (Z.mul_succ_div_gt (end_ + COVERAGE - 1) COVERAGE Hc). lia. }
  assert (HCb : COVERAGE <= 2 ^ 20) by (unfold COVERAGE, MALLOC_ALIGN; pose proof bitmap_nbits_pos; lia).
  assert (Eb0 : base = COVERAGE * (base / COVERAGE)) by (assert (COVERAGE <> 0) by lia; pose proof (Z.div_mod base COVERAGE); lia).
  assert (Et : wrap64 (COVERAGE * q - base) / COVERAGE = q - base / COVERAGE).
  { rewrite wrap_small by lia. rewrite Eb0 at 1. replace (COVERAGE * q - COVERAGE * (base / COVERAGE)) with ((q - base / COVERAGE) * COVERAGE) by lia.
    apply Z.div_mul. lia. }
  rewrite Et. set (total := q - base / COVERAGE).
  assert (Htot : base + total * COVERAGE = COVERAGE * q) by (unfold total; lia).
  destruct (Z.ltb_spec (nwords i) total) as [Hlt|Hge].
  - rewrite Hre. destruct (grow_bitmap_ok i total Iok ltac:(lia) ltac:(fold base; lia)) as (Iok' & Sc & En).
    eexists. split; [done|]. split; rewrite ?info_set, ?decide_True by done; try done.
    + fold i. rewrite En. simpl. fold base. lia.
    + intros p Hp. by rewrite info_set, decide_False.
  - exists g. split; [done|]. split; [done..|by split| |done]. fold i. fold base. nia.
Qed.
End grow.

(** ** Indexing a chunk *)

Section insert.
Context {V : Vas} {VL : VasLaws V} {H : Hooks} {BM : Bitmap} {BL : BitmapLaws BM} {E : MallocEnv}.
Context (sizefn : Z -> Z).

(** What the index needs to know of a chunk that is about to be added. *)
Record chunk_ok (g : gstate) (a ip arena allocptr req : Z) : Prop := {
  ck_wf : wf (table g);
  ck_index : index_ok (table g);
  ck_a : a <> 0;
  ck_arena : arena_of (table g) a allocptr arena;
  ck_arena_end : arena_of (table g) a (allocptr + req - 1) arena;
  ck_info : info_ok (info g ip);
  ck_base : bitmap_base_addr (info g ip) = ROUND_DOWN (b_begin (ba (table g) arena)) COVERAGE;
  ck_private : suballocator_private (ba (table g) arena) = ip;
  ck_aligned : allocptr mod MALLOC_ALIGN = 0;
  ck_req : 0 < req;
  ck_usable : req + sizeof_insert <= sizefn allocptr;
  ck_end : allocptr + sizefn allocptr <= b_end (ba (table g) arena);
}.

(** The bit of [allocptr] is the only change to the bitmap. *)
Record indexed (g g' : gstate) (ip allocptr req caller : Z) : Prop := {
  ix_info : info_ok (info g' ip);
  ix_base : bitmap_base_addr (info g' ip) = bitmap_base_addr (info g ip);
  ix_starts o : starts_chunk (info g' ip) o <-> o = allocptr \/ starts_chunk (info g ip) o;
  ix_room : allocptr + req <= bitmap_base_addr (info g' ip) + nwords (info g' ip) * COVERAGE;
  ix_biggest : biggest_unpromoted_object (info g' ip) =
    Z.max (sizefn allocptr - sizeof_insert) (biggest_unpromoted_object (info g ip));
  ix_other q : q <> ip -> info g' q = info g q;
  ix_insert : load g' (allocptr + sizefn allocptr - sizeof_insert) =
    set_initial_alloc_site caller (set_initial_unused 0 (load g (allocptr + sizefn allocptr - sizeof_insert)));
  ix_mem q : q <> allocptr + sizefn allocptr - sizeof_insert -> load g' q = load g q;
  ix_table : table g' = table g;
}.

Lemma bit_index_aligned i o :
  info_ok i -> bitmap_base_addr i <= o < 2 ^ 48 -> bit_index i o = (o - bitmap_base_addr i) / MALLOC_ALIGN.
Proof. intros Iok Ho. unfold bit_index. pose proof (io_base _ Iok). by rewrite wrap_small by lia. Qed.

(** Setting one bit adds one start. *)
Lemma starts_set i o :
  info_ok i -> bitmap_base_addr i <= o -> (o - bitmap_base_addr i) mod MALLOC_ALIGN = 0 ->
  o < bitmap_base_addr i + nwords i * COVERAGE ->
  info_ok (with_bitmap (bitmap_set_l (bitmap i) (bit_index i o)) i) /\
  forall o', starts_chunk (with_bitmap (bitmap_set_l (bitmap i) (bit_index i o)) i) o' <->
    o' = o \/ starts_chunk i o'.
Proof.
  intros Iok Hb Ha Hr. pose proof Iok as [Hw Hbase Hal Hlim Hbig]. pose proof bitmap_nbits_pos.
  rewrite bit_index_aligned by (done || lia).
  assert (Hidx : 0 <= (o - bitmap_base_addr i) / MALLOC_ALIGN < BITMAP_WORD_NBITS * Z.of_nat (length (bitmap i))).
  { split; [apply Z.div_pos; unfold MALLOC_ALIGN; lia|]. apply Z.div_lt_upper_bound; [done|].
    rewrite Hw. unfold COVERAGE in Hr. nia. }
  split; [split; try done; simpl; by rewrite bitmap_set_length|]. intros o'. unfold starts_chunk. simpl.
  destruct (decide (bitmap_base_addr i <= o')) as [Ho'|]; [|lia].
  rewrite bitmap_get_set by (done || (apply Z.div_pos; unfold MALLOC_ALIGN; lia)).
  rewrite orb_true_iff, bool_decide_eq_true. unfold MALLOC_ALIGN in *. split.
  - intros (_ & Ho'a & [Eq|G]); [left|by right]. Z.to_euclidean_division_equations; lia.
  - intros [->|(? & ? & ?)]; auto.
Qed.

(** A chunk is aligned from the base of its bitmap. *)
Lemma chunk_aligned i p : info_ok i -> p mod MALLOC_ALIGN = 0 -> (p - bitmap_base_addr i) mod MALLOC_ALIGN = 0.
Proof.
  intros Iok Hp. pose proof (io_aligned _ Iok) as HA. unfold MALLOC_ALIGN in *. assert (bitmap_base_addr i mod 16 = 0).
  { apply Z.mod_divide in HA; [|pose proof coverage_pos; lia]. apply Z.mod_divide; [done|].
    eapply Z.divide_trans; [|done]. unfold COVERAGE, MALLOC_ALIGN. apply Z.divide_factor_l. }
  Z.to_euclidean_division_equations; lia.
Qed.

Lemma index_insert_ok g a ip arena allocptr req caller :
  chunk_ok g a ip arena allocptr req -> sizefn allocptr <= 131072 ->
  (forall n, private_realloc_ok n = true) ->
  exists g', __generic_malloc_index_insert (B := release) sizefn a ip allocptr req caller g =
      Done (allocptr + sizefn allocptr - sizeof_insert, g') /\
    indexed g g' ip allocptr req caller.
Proof.
  intros [W I Na Har Hare Iok Eb Ep Hal Hreq Hus Hend] Hsz Hre.
  pose proof Har as (Hu & Nar & T). destruct T as [[? _]|[(Uar & Car & _) _]]; [done|].
  pose proof (wf_bounds _ W arena Uar) as Hbd. destruct max_user_address_spec as [Hmax _].
  pose proof coverage_pos as Hc. unfold contains in Car. unfold sizeof_insert in *.
  destruct (ensure_has_bitmap_to_ok (B := release) g a ip arena (allocptr + req)) as (g1 & E1 & [Et Em Iok1 Sc Rm Ot]); [done..|].
  unfold __generic_malloc_index_insert. rewrite (wrap_small 64 (allocptr + req)) by lia.
  rewrite (bind_Done _ _ _ _ _ E1).
  rewrite (bind_Done _ _ _ arena g1) by (apply big_pure; rewrite Et; by apply lookup_arena).
  rewrite (bind_Done _ _ _ tt g1) by (unfold deref; by rewrite (proj2 (Z.eqb_neq arena 0))).
  rewrite (bind_Done _ _ _ (ba (table g1) arena) g1) by by apply big_pure.
  do 4 rewrite (bind_Done _ _ g1 _ g1) by done.
  unfold caller_usable_size_for_chunk_and_usable_size, insert_for_chunk_and_caller_usable_size, sizeof_insert, SHOULD_PROMOTE_TO_BIGALLOC.
  rewrite (wrap_small 64 (sizefn allocptr - 8)) by lia.
  rewrite (wrap_small 64 (allocptr + (sizefn allocptr - 8))) by lia.
  rewrite (proj2 (Z.ltb_ge _ _)) by lia.
  replace (allocptr + (sizefn allocptr - 8)) with (allocptr + sizefn allocptr - 8) by lia.
  set (pins := allocptr + sizefn allocptr - 8).
  set (i1 := info g1 ip) in *.
  assert (Hbase : bitmap_base_addr i1 <= b_begin (ba (table g) arena)).
  { rewrite (sc_base _ _ Sc), Eb, ROUND_DOWN_spec by lia.
    pose proof (Z.mul_div_le (b_begin (ba (table g) arena)) COVERAGE Hc). lia. }
  set (i2 := with_biggest_unpromoted (Z.max (sizefn allocptr - 8) (biggest_unpromoted_object i1))
    (with_biggest_allocated (Z.max (sizefn allocptr - 8) (biggest_allocated_object i1)) i1)).
  assert (Iok2 : info_ok i2) by (destruct Iok1; split; simpl; try done; lia).
  assert (Ha16 : (allocptr - bitmap_base_addr i2) mod MALLOC_ALIGN = 0).
  { simpl. rewrite (sc_base _ _ Sc). by apply chunk_aligned. }
  destruct (starts_set i2 allocptr Iok2 ltac:(simpl; lia) Ha16 ltac:(simpl; lia)) as [Iok3 St].
  eexists. split; [reflexivity|].
  assert (Hi : forall q, info g1 q = if decide (ip = q) then i1 else info g q).
  { intros q. case_decide; [by subst|by apply Ot]. }
  match goal with |- indexed _ ?g' _ _ _ _ =>
    assert (Einfo : forall q, info g' q = if decide (ip = q) then with_bitmap (bitmap_set_l (bitmap i2) (bit_index i2 allocptr)) i2 else info g q);
    [|assert (Eload : forall q, load g' q = if decide (pins = q)
        then set_initial_alloc_site caller (set_initial_unused 0 (load g pins)) else load g q)] end.
  { intros q. rewrite !info_set. rewrite !(decide_True (P := ip = ip)) by done.
    rewrite !info_set_mem. case_decide; [done|]. by rewrite Hi, decide_False. }
  { intros q. rewrite !load_set_infos, load_set. unfold load. by rewrite Em. }
  assert (Eip := Einfo ip). rewrite decide_True in Eip by done.
  split; rewrite ?Eip; try done.
  - rewrite <- (sc_base _ _ Sc). done.
  - intros o. rewrite St. unfold starts_chunk. simpl. rewrite (sc_base _ _ Sc).
    split; (intros [->|(Ho & ? & G)]; [by left|right; split_and!; [done..|]]);
      revert G; rewrite (sc_get _ _ Sc); try done; apply Z.div_pos; unfold MALLOC_ALIGN; lia.
  - simpl. by rewrite (sc_unprom _ _ Sc).
  - intros q Hq. rewrite Einfo, decide_False; done.
  - unfold sizeof_insert. fold pins. by rewrite Eload, decide_True.
  - intros q Hq. rewrite Eload, decide_False; done.
Qed.

(** ** Finding a chunk *)

Lemma lookup_ok g ip m o :
  ip <> 0 -> info_ok (info g ip) ->
  bitmap_base_addr (info g ip) <= m < bitmap_base_addr (info g ip) + nwords (info g ip) * COVERAGE ->
  m - bitmap_base_addr (info g ip) < 2 ^ 36 -> last_start (info g ip) m o ->
  m - o <= biggest_unpromoted_object (info g ip) <= m ->
  0 < o -> sizeof_insert <= sizefn o -> o + sizefn o < 2 ^ 64 ->
  lookup_object_info_via_bitmap (B := release) sizefn ip m g =
    Done (Some (o + sizefn o - sizeof_insert, o, sizefn o - sizeof_insert), g).
Proof.
  intros Np Iok Hm H36 Hl Hb Ho Hs Hs'. unfold lookup_object_info_via_bitmap.
  rewrite (proj2 (Z.eqb_neq ip 0)) by done.
  do 2 rewrite (bind_Done _ _ g _ g) by done.
  rewrite (search_bitmap_found (B := release) (info g ip) m o) by done.
  unfold insert_for_chunk, insert_for_chunk_and_caller_usable_size, caller_usable_size_for_chunk,
    caller_usable_size_for_chunk_and_usable_size, usersize, allocsize_to_usersize, sizeof_insert in *.
  rewrite (wrap_small 64 (sizefn o - 8)), wrap_small by lia.
  rewrite (proj2 (Z.eqb_neq _ 0)) by lia.
  replace (o + (sizefn o - 8)) with (o + sizefn o - 8) by lia. done.
Qed.

Lemma insert_lookup_ok g g' a ip arena allocptr req caller m :
  chunk_ok g a ip arena allocptr req -> indexed g g' ip allocptr req caller -> ip <> 0 ->
  biggest_unpromoted_object (info g ip) <= allocptr -> sizefn allocptr <= allocptr ->
  allocptr <= m < allocptr + req ->
  m - bitmap_base_addr (info g ip) < 2 ^ 36 ->
  (forall o, starts_chunk (info g ip) o -> ~ allocptr < o <= m) ->
  lookup_object_info_via_bitmap (B := release) sizefn ip m g' =
    Done (Some (allocptr + sizefn allocptr - sizeof_insert, allocptr, sizefn allocptr - sizeof_insert), g').
Proof.
  intros [W I Na Har Hare Iok Eb Ep Hal Hreq Hus Hend] X Np Hbig Hsz Hm H36 Hno. pose proof (ix_room _ _ _ _ _ _ X) as Hroom.
  pose proof Har as (Hu & Nar & T). destruct T as [[? _]|[(Uar & Car & _) _]]; [done|].
  pose proof (wf_bounds _ W arena Uar) as Hbd. destruct max_user_address_spec as [Hmax _].
  pose proof (ix_starts _ _ _ _ _ _ X) as St. pose proof (ix_base _ _ _ _ _ _ X) as Ebase.
  assert (Sa : starts_chunk (info g' ip) allocptr) by (apply St; by left).
  unfold contains, sizeof_insert in *.
  assert (Hb0 : bitmap_base_addr (info g' ip) <= allocptr) by apply Sa.
  apply lookup_ok; unfold sizeof_insert; try done; try lia.
  - apply (ix_info _ _ _ _ _ _ X).
  - split_and!; [done|lia|]. intros o [->|So]%St Hom; [lia|]. specialize (Hno o So). lia.
  - rewrite (ix_biggest _ _ _ _ _ _ X). unfold sizeof_insert. lia.
Qed.

(** ** Unindexing a chunk *)

Lemma find_from_root_none t ptr a sub :
  wf t -> index_ok t -> user_address ptr -> (exists i, used t i /\ contains t i ptr) ->
  topmost_at t ptr a sub 0 -> find_bigalloc_recursive 0 ptr a sub t = Done (0, t).
Proof.
  intros W I Hp Hex [[_ Hn]|[(U0 & _) _]]; [|by apply (not_used_0 t W) in U0].
  destruct (from_root_ok t ptr a sub W I Hp Hex) as (r' & E' & T').
  destruct (index_spans t ptr W I Hp Hex) as [U _].
  unfold find_bigalloc_recursive. simpl. unfold pi_get, gets. unfold mbind at 1, M_bind at 1.
  rewrite (proj2 (Z.eqb_neq _ 0)) by by apply (used_nonzero t). cbn [andb]. rewrite E'.
  destruct T' as [[-> _]|[Hr _]]; [done|]. by destruct (Hn r').
Qed.

(** Clearing one bit removes one start. *)
Lemma starts_clear i o :
  info_ok i -> starts_chunk i o ->
  info_ok (with_bitmap (bitmap_clear_l (bitmap i) (bit_index i o)) i) /\
  forall o', starts_chunk (with_bitmap (bitmap_clear_l (bitmap i) (bit_index i o)) i) o' <->
    o' <> o /\ starts_chunk i o'.
Proof.
  intros Iok (Hb & Ha & Hg). pose proof Iok as [Hw Hbase Hal Hlim Hbig]. pose proof bitmap_nbits_pos.
  assert (Hidx : 0 <= (o - bitmap_base_addr i) / MALLOC_ALIGN < BITMAP_WORD_NBITS * Z.of_nat (length (bitmap i))).
  { split; [apply Z.div_pos; unfold MALLOC_ALIGN; lia|]. apply Z.nle_gt. intros Hle.
    by rewrite bitmap_get_beyond in Hg. }
  rewrite bit_index_aligned.
  2:{ done. }
  2:{ rewrite Hw in Hidx. unfold COVERAGE, MALLOC_ALIGN in *. Z.to_euclidean_division_equations; nia. }
  split; [split; try done; simpl; by rewrite bitmap_clear_length|]. intros o'. unfold starts_chunk. simpl.
  destruct (decide (bitmap_base_addr i <= o')) as [Ho'|]; [|lia].
  rewrite bitmap_get_clear by (done || (apply Z.div_pos; unfold MALLOC_ALIGN; lia)).
  rewrite andb_true_iff, negb_true_iff, bool_decide_eq_false. unfold MALLOC_ALIGN in *. split.
  - intros (_ & Ho'a & Ne & G). split; [congruence|done].
  - intros (Ne & ? & ? & ?). split_and!; try done. intros Eq. apply Ne.
    Z.to_euclidean_division_equations; lia.
Qed.

(** After unindexing, [userptr] no longer starts a chunk; nothing else of the
    index has changed. *)
Record unindexed (g g' : gstate) (ip userptr : Z) : Prop := {
  ux_info : info_ok (info g' ip);
  ux_starts o : starts_chunk (info g' ip) o <-> o <> userptr /\ starts_chunk (info g ip) o;
  ux_other q : q <> ip -> info g' q = info g q;
  ux_mem : mem g' = mem g;
  ux_table : table g' = table g;
  ux_uncached : uncached g' = uncached g ++ [(userptr, sizefn userptr)];
}.

Lemma index_delete_ok g a ip arena userptr :
  wf (table g) -> index_ok (table g) -> a <> 0 -> arena_of (table g) a userptr arena ->
  topmost_at (table g) userptr a false 0 -> info_ok (info g ip) -> starts_chunk (info g ip) userptr ->
  exists g', __generic_malloc_index_delete (B := release) sizefn a ip userptr g = Done (tt, g') /\
    unindexed g g' ip userptr.
Proof.
  intros W I Na Har Tn Iok Sc. pose proof Har as (Hu & Nar & T).
  destruct T as [[? _]|[(Uar & Car & _) _]]; [done|].
  destruct (starts_clear _ _ Iok Sc) as [Iok' St].
  unfold __generic_malloc_index_delete. rewrite (bind_Done _ _ g tt g) by done.
  set (g1 := add_uncached userptr (sizefn userptr) g). rewrite (bind_Done _ _ g tt g1) by done.
  rewrite (bind_Done _ _ g1 0 g1).
  2:{ apply big_pure. unfold __lookup_bigalloc_under. rewrite (bind_Done _ _ _ tt (table g1)) by done.
      apply find_from_root_none; [done..|by exists arena|done]. }
  change (negb (0 =? 0)) with false. cbv iota.
  rewrite (bind_Done _ _ g1 arena g1) by (apply big_pure; by apply lookup_arena).
  do 2 rewrite (bind_Done _ _ g1 _ g1) by done.
  rewrite (bind_Done _ _ g1 (b_begin (ba (table g1) arena)) g1) by by apply big_pure.
  do 2 rewrite (bind_Done _ _ g1 _ g1) by done.
  eexists. split; [reflexivity|]. split; try done; rewrite ?info_set, ?decide_True by done; try done.
  intros q Hq. by rewrite info_set, decide_False.
Qed.
End insert.

(** ** Types from allocation sites *)

Section extract.
Context {E : MallocEnv}.

Definition untyped (g : gstate) (p site : Z) : Prop :=
  p <> 0 /\ INSERT_IS_WITH_TYPE (load g p) = false /\ initial_alloc_site (load g p) = site.

(** The first query of a chunk looks its site up and leaves the type behind. *)
Lemma extract_first g p site u :
  untyped g p site -> find_allocsite_entry_at site = Some u -> u <> 0 ->
  extract_and_output_alloc_site_and_type (B := release) p g =
    Done ((inr u, Some site),
      set_mem (<[p := mk_with_type (UNIQTYPE_SHIFT_FOR_INSERT u) (allocsite_id site) 1]> (mem g)) g).
Proof.
  intros (Np & Ht & Es) Hf Nu. unfold extract_and_output_alloc_site_and_type.
  rewrite (proj2 (Z.eqb_neq p 0)) by done. rewrite (bind_Done _ _ g (load g p) g) by done.
  rewrite Ht, Es, Hf. simpl default. rewrite (proj2 (Z.eqb_neq u 0)) by done.
  unfold mbind, M_bind; cbn. by rewrite (proj2 (Z.eqb_neq u 0)).
Qed.

(** Later queries read it from the insert. *)
Lemma extract_typed g p u id :
  p <> 0 -> 2 ^ 35 <= u < 2 ^ 47 -> u mod 8 = 0 -> - 2 ^ 14 <= id < 2 ^ 14 ->
  load g p = mk_with_type (UNIQTYPE_SHIFT_FOR_INSERT u) id 1 ->
  extract_and_output_alloc_site_and_type (B := release) p g = Done ((inr u, Some 0), g).
Proof.
  intros Np Hu Ha Hid El. unfold extract_and_output_alloc_site_and_type.
  rewrite (proj2 (Z.eqb_neq p 0)) by done. rewrite (bind_Done _ _ g (load g p) g) by done.
  rewrite El, (proj2 (mk_with_type_recognised u id ltac:(lia) Ha)) by lia.
  rewrite mk_with_type_unshift by (done || lia). unfold mbind, M_bind; cbn.
  by rewrite (proj2 (Z.eqb_neq u 0)) by lia.
Qed.

(** A site without an entry: the error, and what is left in the insert. *)
Lemma extract_unrecognised g p site :
  untyped g p site -> site <> 0 -> find_allocsite_entry_at site = None ->
  __liballocs_addrlist_contains (unrecognised g) site = 0 ->
  exists g', extract_and_output_alloc_site_and_type (B := release) p g =
      Done ((inl err_unrecognised_alloc_site, Some site), g') /\
    load g' p = mk_with_type 0 (-1) 1 /\
    unrecognised g' = __liballocs_addrlist_add [] (unrecognised g) site.
Proof.
  intros (Np & Ht & Es) Ns Hf Hc. unfold extract_and_output_alloc_site_and_type.
  rewrite (proj2 (Z.eqb_neq p 0)) by done. rewrite (bind_Done _ _ g (load g p) g) by done.
  rewrite Ht, Es, Hf. simpl default.
  unfold mbind, M_bind; cbn. rewrite Hc. cbn. rewrite (proj2 (Z.eqb_neq site 0)) by done. cbn.
  eexists. split; [done|]. split; [|done]. unfold load. simpl. by rewrite lookup_insert_eq.
Qed.

(** The word left behind is not recognised as typed: its site reads 0x7fff. *)
Lemma cleared_insert_untyped g p :
  p <> 0 -> load g p = mk_with_type 0 (-1) 1 -> untyped g p 0x7fff.
Proof. intros Np El. split_and!; [done|by rewrite El|by rewrite El]. Qed.
End extract.
