(* ===== verification/Alloca.v ===== *)
(** The alloca allocator: src/src/allocators/alloca.c, the size and adjustment
    functions of src/include/liballocs_cil_inlines.h that instrumented code
    calls around [alloca], and the creation of stack-frame bigallocs in
    src/src/allocators/stackframe.c.

    Stack chunks are indexed like heap chunks, in the bitmap of the frame's
    bigalloc; the word before a chunk holds its usable size.  Frames grow
    downwards, so the bitmap is extended at its beginning.

    The stack pointer is an argument.  The addresses of the allocators, the
    value an uninitialised variable holds and the public query the final
    assertions make are the class [AllocaEnv]. *)
From S2P Require Import Prelude Vas Bitmap BigAlloc PageIndex PageIndexQuery MallocMeta AddrList GenericMalloc.

Definition ALLOCA_ALIGN : Z := 16.
Definition ALLOCA_HEADER_SIZE : Z := 8.
Definition ALLOCA_TRAILER_SIZE : Z := 8.
Definition BIGGEST_SANE_ALLOCA : Z := 33554431.

Class AllocaEnv := {
  __stackframe_allocator : Z;
  __stack_allocator : Z;
  __alloca_allocator : Z;
  uninitialised : Z;
  __liballocs_get_alloc_base : Z -> M gstate Z;
}.

(** [usable_size]: the word before the chunk. *)
Definition usable_size (g : gstate) (p : Z) : Z := load g (wrap64 (p - 8)).

(** The overall size to ask of [alloca]. *)
Definition __liballocs_alloca_size (orig_size : Z) : Z :=
  let size_with_trailer := wrap64 (PAD_TO_ALIGN (wrap64 (orig_size + ALLOCA_TRAILER_SIZE)) ALLOCA_ALIGN) in
  wrap64 (PAD_TO_ALIGN ALLOCA_HEADER_SIZE ALLOCA_ALIGN + size_with_trailer).

(** Where the user's chunk starts in the memory [alloca] returned. *)
Definition userchunk_of (allocated : Z) : Z :=
  wrap64 (PAD_TO_ALIGN (wrap64 (allocated + ALLOCA_HEADER_SIZE)) ALLOCA_ALIGN).

Inductive alloca_err := err_unindexed_alloca_object | err_of_insert (e : err).

Section ops.
Context {V : Vas} {H : Hooks} {B : Build} {BM : Bitmap} {E : MallocEnv} {A : AllocaEnv}.

Definition ALLOCA_COVERAGE : Z := ALLOCA_ALIGN * BITMAP_WORD_NBITS.

Definition alloca_arena_for_userptr (userptr b : Z) : M gstate Z :=
  g ← gets id;
  assert (usable_size g userptr <=? BIGGEST_SANE_ALLOCA) ;;
  if negb (b =? 0) then
    ab ← big (rd allocated_by b);
    if ab =? __stackframe_allocator then mret b
    else if ab =? __alloca_allocator then big (rd parent b)
    else abort
  else
    b ← big (__lookup_bigalloc_from_root_by_suballocator userptr __alloca_allocator);
    assert (negb (b =? 0)) ;;
    mret b.

(** Base, size, and what the insert says. *)
Definition __alloca_get_info (obj b : Z) : M gstate (alloca_err + (Z * Z * ((err + Z) * option Z))) :=
  deref b ;;
  ip ← big (rd suballocator_private b);
  assert (negb (ip =? 0)) ;;
  if ip =? 0 then mret (inl err_unindexed_alloca_object) else
  arena ← alloca_arena_for_userptr obj b;
  g ← gets id;
  f ← lookup_object_info (usable_size g) arena obj;
  match f with
  | None => mret (inl err_unindexed_alloca_object)
  | Some (heap_info, base, alloc_usable_chunksize) =>
    assert (negb (base =? 0)) ;;
    let caller_usable_size := caller_usable_size_for_chunk_and_usable_size base alloc_usable_chunksize in
    assert (negb (heap_info =? 0)) ;;
    r ← extract_and_output_alloc_site_and_type heap_info;
    mret (inr (base, caller_usable_size, r))
  end.

(** ** The bitmap of a frame *)

(** The words move up and the fresh ones, at the beginning, are zeroed. *)
Definition prepend_words (new_min_nwords new_bitmap_base_addr : Z) (i : arena_bitmap_info) : arena_bitmap_info :=
  let nwords_added := new_min_nwords - nwords i in
  ArenaBitmapInfo new_min_nwords
    (replicate (Z.to_nat nwords_added) 0 ++ take (Z.to_nat (nwords i)) (bitmap i))
    (if bitmap_base_addr i =? 0 then new_bitmap_base_addr
     else wrap64 (bitmap_base_addr i - nwords_added * BITMAP_WORD_NBITS * ALLOCA_ALIGN))
    (bitmap_insert_count i) (biggest_allocated_object i) (biggest_unpromoted_object i).

Definition realloc_bitmap_prepend (ip new_min_nwords new_bitmap_base_addr : Z) : M gstate unit :=
  i ← rd_info ip;
  if nwords i <? new_min_nwords then
    if negb (private_realloc_ok new_min_nwords) then abort else
    wr_info ip (prepend_words new_min_nwords new_bitmap_base_addr) ;;
    i' ← rd_info ip;
    assert ((bitmap_base_addr i =? 0) || (bitmap_base_addr i' =? new_bitmap_base_addr))
  else mret tt.

(** The address of the first chunk (0 if none), with its bit index. *)
Definition first_chunk_addr (arena : Z) : M gstate (Z * Z) :=
  ip ← big (rd suballocator_private arena);
  i ← rd_info ip;
  bg ← big (rd b_begin arena);
  let first_bit_set := bitmap_find_first_set1_geq_l (take (Z.to_nat (nwords i)) (bitmap i)) 0 in
  assert ((bitmap_base_addr i =? 0) || (bitmap_base_addr i =? ROUND_DOWN bg ALLOCA_COVERAGE)) ;;
  if first_bit_set =? 2 ^ 64 - 1 then mret (0, first_bit_set)
  else mret (wrap64 (bitmap_base_addr i + first_bit_set * ALLOCA_ALIGN), first_bit_set).

Definition cover_frame (arena addr : Z) : M gstate unit :=
  ip ← big (rd suballocator_private arena);
  old_start ← big (rd b_begin arena);
  (if addr <? old_start then
     big (__liballocs_pre_extend_bigalloc_recursive arena addr) ;; mret tt
   else mret tt) ;;
  ar ← big (rd id arena);
  assert (b_begin ar <=? addr) ;;
  let new_bitmap_base_addr := ROUND_DOWN (b_begin ar) ALLOCA_COVERAGE in
  let new_bitmap_limit_addr := ROUND_UP (b_end ar) ALLOCA_COVERAGE in
  let new_coverage_nbytes := wrap64 (new_bitmap_limit_addr - new_bitmap_base_addr) in
  assert (new_coverage_nbytes mod ALLOCA_ALIGN =? 0) ;;
  let new_coverage_naligns := new_coverage_nbytes / ALLOCA_ALIGN in
  realloc_bitmap_prepend ip (DIVIDE_ROUNDING_UP new_coverage_naligns BITMAP_WORD_NBITS) new_bitmap_base_addr ;;
  i ← rd_info ip;
  assert (bitmap_base_addr i =? new_bitmap_base_addr).

(** A bitmap is present exactly when it has words. *)
Definition ensure_arena_covers_addr (arena addr : Z) : M gstate unit :=
  deref arena ;;
  ip ← big (rd suballocator_private arena);
  deref ip ;;
  old_first ← (if NDEBUG then mret 0 else c ← first_chunk_addr arena; mret (fst c));
  i ← rd_info ip;
  old_start ← big (rd b_begin arena);
  assert ((bitmap_base_addr i =? 0) || (bitmap_base_addr i =? ROUND_DOWN old_start ALLOCA_COVERAGE)) ;;
  if negb (nwords i =? 0) && (old_start <=? addr) then mret tt else
  cover_frame arena addr ;;
  if NDEBUG then mret tt else
  new_first ← first_chunk_addr arena;
  assert (old_first =? fst new_first).

(** ** Frames *)

Definition __stackframe_allocator_find_or_create_bigalloc
    (frame_counter frame_sp_at_caller frame_bp_at_caller : Z) : M gstate Z :=
  found ← big (__lookup_bigalloc_from_root frame_counter __stackframe_allocator);
  if negb (found =? 0) then mret found else
  found_begin ← big (__lookup_deepest_bigalloc frame_sp_at_caller);
  fb ← big (rd allocated_by found_begin);
  assert ((found_begin =? 0) || (fb =? __stack_allocator)) ;;
  found_end ← big (__lookup_deepest_bigalloc (wrap64 (frame_bp_at_caller - 1)));
  assert (negb (found_end =? 0)) ;;
  fe ← big (rd allocated_by found_end);
  assert (fe =? __stack_allocator) ;;
  b ← big (__liballocs_new_bigalloc frame_sp_at_caller (wrap64 (frame_bp_at_caller - frame_sp_at_caller))
             0 0 0 __stackframe_allocator);
  big (sanity_check_bigalloc b) ;;
  if b =? 0 then abort else mret b.

(** ** Notifications *)

Definition __alloca_allocator_notify
    (new_userchunkaddr requested_size frame_counter caller bp_at_caller : Z) : M gstate unit :=
  g ← gets id;
  assert (usable_size g new_userchunkaddr <=? BIGGEST_SANE_ALLOCA) ;;
  b ← __stackframe_allocator_find_or_create_bigalloc frame_counter new_userchunkaddr bp_at_caller;
  assert (negb (b =? 0)) ;;
  sa ← big (rd suballocator b);
  (if sa =? 0 then big (wr b (set_suballocator __alloca_allocator))
   else if negb (sa =? __alloca_allocator) then abort else mret tt) ;;
  sp ← big (rd suballocator_private b);
  (if sp =? 0 then
     p ← gets (fun g => private_malloc (infos g));
     big (wr b (set_suballocator_private p free_arena_bitmap_and_info)) ;;
     wr_info p (fun _ => zero_info)
   else mret tt) ;;
  ensure_arena_covers_addr b new_userchunkaddr ;;
  ip ← arena_info_for_userptr __alloca_allocator new_userchunkaddr;
  g ← gets id;
  __generic_malloc_index_insert (usable_size g) __alloca_allocator ip new_userchunkaddr requested_size caller ;;
  if NDEBUG then mret tt else
  base ← __liballocs_get_alloc_base new_userchunkaddr;
  assert (negb (base =? 0)) ;;
  base ← __liballocs_get_alloc_base new_userchunkaddr;
  assert (base =? new_userchunkaddr).

(** [memset] to zero of [n] bytes at [a]. *)
Definition zero_range (a n : Z) (m : gmap Z Z) : gmap Z Z :=
  filter (fun kv : Z * Z => ~ (a <= kv.1 < a + n)) m.

Definition __liballocs_notify_and_adjust_alloca
    (allocated orig_size tweaked_size frame_counter caller bp : Z) : M gstate Z :=
  modify (fun g => set_mem (zero_range allocated tweaked_size (mem g)) g) ;;
  let userchunk := userchunk_of allocated in
  let header_effective_size := wrap64 (userchunk - allocated) in
  let non_header_size := wrap64 (tweaked_size - header_effective_size) in
  wr_mem (wrap64 (userchunk - 8)) non_header_size ;;
  old ← rd_mem frame_counter;
  wr_mem frame_counter (wrap64 (old + non_header_size)) ;;
  __alloca_allocator_notify userchunk orig_size frame_counter caller bp ;;
  mret userchunk.

(** ** Leaving a frame *)

Fixpoint unindex_loop (fuel : nat) (ip cur_bit_idx total_to_unindex total_unindexed : Z) : M gstate unit :=
  match fuel with
  | O => nofuel
  | S fuel =>
    i ← rd_info ip;
    let cur_bit_idx := bitmap_find_first_set1_geq_l (take (Z.to_nat (nwords i)) (bitmap i)) (wrap64 (cur_bit_idx + 1)) in
    if cur_bit_idx =? 2 ^ 64 - 1 then mret tt else
    let cur_userchunk := wrap64 (bitmap_base_addr i + cur_bit_idx * ALLOCA_ALIGN) in
    g ← gets id;
    let bytes_to_unindex := usable_size g cur_userchunk in
    chunk_ip ← arena_info_for_userptr __alloca_allocator cur_userchunk;
    __generic_malloc_index_delete (usable_size g) __alloca_allocator chunk_ip cur_userchunk ;;
    assert (bytes_to_unindex <? BIGGEST_SANE_ALLOCA) ;;
    let total_unindexed := wrap64 (total_unindexed + bytes_to_unindex) in
    if total_to_unindex <=? total_unindexed then mret tt
    else unindex_loop fuel ip cur_bit_idx total_to_unindex total_unindexed
  end.

Definition __liballocs_unindex_stack_objects_counted_by (bytes_counter frame_addr sp : Z) : M gstate unit :=
  b ← big (__lookup_bigalloc_under_pageindex bytes_counter __stackframe_allocator);
  n ← rd_mem bytes_counter;
  total ← (if n =? 0 then mret uninitialised else
           if b =? 0 then abort else
           ensure_arena_covers_addr b sp ;;
           ip ← big (rd suballocator_private b);
           i ← rd_info ip;
           bg ← big (rd b_begin b);
           assert ((bitmap_base_addr i =? 0) || (bitmap_base_addr i =? ROUND_DOWN bg ALLOCA_COVERAGE)) ;;
           unindex_loop (2 + Z.to_nat (BITMAP_WORD_NBITS * nwords i)) ip
             (wrap64 (wrap64 (sp - bitmap_base_addr i) / ALLOCA_ALIGN - 1)) n 0 ;;
           mret n);
  modify (add_uncached frame_addr total) ;;
  if negb (b =? 0) then
    big (__liballocs_delete_bigalloc_at bytes_counter __stackframe_allocator) ;; mret tt
  else mret tt.
End ops.
