(* ===== verification/AllocaFacts.v ===== *)
(** Correctness of the alloca support: the geometry of a stack chunk, and the
    bitmap of a frame as it is extended downwards. *)
From S2P Require Import Prelude Vas Bitmap BigAlloc PageIndex PageIndexQuery BigAllocFacts MallocMeta.
From S2P Require Import AddrList GenericMalloc GenericMallocFacts Alloca.

(** ** Geometry of a chunk *)

Lemma pad16 n : 0 <= n -> exists q, PAD_TO_ALIGN n 16 = 16 * q /\ n <= 16 * q < n + 16.
Proof.
  intros Hn. unfold PAD_TO_ALIGN. destruct (Z.eqb_spec (n mod 16) 0).
  - exists (n / 16). Z.to_euclidean_division_equations. lia.
  - exists (n / 16 + 1). Z.to_euclidean_division_equations. lia.
Qed.

(** The chunk is aligned, has room for its header before it, ends where the
    allocated memory ends, and holds the requested bytes and the insert. *)
Record chunk_fits (allocated orig : Z) : Prop := {
  cf_align : userchunk_of allocated mod ALLOCA_ALIGN = 0;
  cf_header : allocated + ALLOCA_HEADER_SIZE <= userchunk_of allocated;
  cf_room : userchunk_of allocated + orig + ALLOCA_TRAILER_SIZE <= allocated + __liballocs_alloca_size orig;
  cf_insert : (allocated + __liballocs_alloca_size orig - ALLOCA_TRAILER_SIZE) mod 8 = 0;
}.

Lemma alloca_chunk_fits allocated orig :
  0 <= allocated -> allocated mod 8 = 0 -> 0 <= orig -> allocated + orig + 64 < 2 ^ 64 ->
  chunk_fits allocated orig.
Proof.
  intros Ha Hm Ho Hlim.
  destruct (pad16 (allocated + 8)) as (q & Eq & Hq); [lia|].
  destruct (pad16 (orig + 8)) as (r & Er & Hr); [lia|].
  assert (Eu : userchunk_of allocated = 16 * q).
  { unfold userchunk_of, ALLOCA_HEADER_SIZE, ALLOCA_ALIGN. rewrite (wrap_small 64 (allocated + 8)), Eq by lia.
    apply wrap_small. lia. }
  assert (Es : __liballocs_alloca_size orig = 16 + 16 * r).
  { unfold __liballocs_alloca_size, ALLOCA_HEADER_SIZE, ALLOCA_TRAILER_SIZE, ALLOCA_ALIGN.
    rewrite (wrap_small 64 (orig + 8)), Er, (wrap_small 64 (16 * r)) by lia. apply wrap_small.
    change (PAD_TO_ALIGN 8 16) with 16. lia. }
  split; rewrite ?Eu, ?Es; unfold ALLOCA_HEADER_SIZE, ALLOCA_TRAILER_SIZE, ALLOCA_ALIGN;
    Z.to_euclidean_division_equations; lia.
Qed.

(** ** Extending the bitmap downwards *)

Section prepend.
Context {V : Vas} {VL : VasLaws V} {BM : Bitmap} {BL : BitmapLaws BM} {E : MallocEnv}.

Lemma prepend_words_ok i n base : info_ok i -> nwords i < n -> bitmap_base_addr i <> 0 ->
  base = bitmap_base_addr i - (n - nwords i) * COVERAGE -> 0 <= base ->
  let i' := prepend_words n base i in
  info_ok i' /\ bitmap_base_addr i' = base /\ nwords i' = n /\
  base + n * COVERAGE = bitmap_base_addr i + nwords i * COVERAGE /\
  forall o, starts_chunk i' o <-> starts_chunk i o.
Proof.
  intros [Hw Hb Ha Hl Hbig] Hn Hnz -> Hpos i'. pose proof coverage_pos as Hc. pose proof bitmap_nbits_pos as HN.
  set (d := n - nwords i) in *. assert (Hd : 0 < d) by lia.
  assert (Ebase : bitmap_base_addr i' = bitmap_base_addr i - d * COVERAGE).
  { unfold i', prepend_words. simpl. rewrite (proj2 (Z.eqb_neq _ 0) Hnz). fold d.
    replace (d * BITMAP_WORD_NBITS * ALLOCA_ALIGN) with (d * COVERAGE) by (unfold COVERAGE, MALLOC_ALIGN, ALLOCA_ALIGN; lia).
    apply wrap_small. nia. }
  assert (Ebits : bitmap i' = replicate (Z.to_nat d) 0 ++ bitmap i).
  { unfold i', prepend_words. simpl. fold d. f_equal. apply take_ge. lia. }
  split_and!; [|done..|lia|].
  - split; rewrite ?Ebase, ?Ebits.
    + rewrite length_app, length_replicate. unfold i'. simpl. lia.
    + lia.
    + rewrite Zminus_mod, Ha, Z.mod_mul, Z.mod_0_l by lia. done.
    + unfold i'. simpl. lia.
    + done.
  - intros o. unfold starts_chunk. rewrite Ebase, Ebits.
    replace (o - (bitmap_base_addr i - d * COVERAGE))
      with (o - bitmap_base_addr i + d * BITMAP_WORD_NBITS * MALLOC_ALIGN) by (unfold COVERAGE; lia).
    assert (HM : MALLOC_ALIGN <> 0) by done.
    rewrite Z.mod_add, Z.div_add by done. split.
    + intros (Hlo & Hm & Hg). rewrite bitmap_get_app in Hg.
      2:{ apply Z.mod_divide in Hm as [q Hq]; [|done]. rewrite Hq, Z.div_mul by done.
          unfold COVERAGE, MALLOC_ALIGN in *. nia. }
      rewrite length_replicate, Z2Nat.id in Hg by lia.
      destruct (Z.ltb_spec ((o - bitmap_base_addr i) / MALLOC_ALIGN + d * BITMAP_WORD_NBITS) (BITMAP_WORD_NBITS * d));
        [by rewrite bitmap_get_zeros in Hg|].
      assert (Hge : 0 <= (o - bitmap_base_addr i) / MALLOC_ALIGN) by lia.
      replace ((o - bitmap_base_addr i) / MALLOC_ALIGN + d * BITMAP_WORD_NBITS - BITMAP_WORD_NBITS * d)
        with ((o - bitmap_base_addr i) / MALLOC_ALIGN) in Hg by lia.
      split_and!; [|done..]. unfold MALLOC_ALIGN in *. Z.to_euclidean_division_equations. lia.
    + intros (Hlo & Hm & Hg). split_and!; [lia|done|].
      assert (Hge : 0 <= (o - bitmap_base_addr i) / MALLOC_ALIGN) by (apply Z.div_pos; [lia|done]).
      rewrite bitmap_get_app by nia. rewrite length_replicate, Z2Nat.id by lia.
      destruct (Z.ltb_spec ((o - bitmap_base_addr i) / MALLOC_ALIGN + d * BITMAP_WORD_NBITS) (BITMAP_WORD_NBITS * d)); [lia|].
      replace ((o - bitmap_base_addr i) / MALLOC_ALIGN + d * BITMAP_WORD_NBITS - BITMAP_WORD_NBITS * d)
        with ((o - bitmap_base_addr i) / MALLOC_ALIGN) by lia. done.
Qed.

(** The first bitmap of a frame holds no chunk. *)
Lemma prepend_fresh_ok i n base : nwords i = 0 -> bitmap_base_addr i = 0 -> 0 <= biggest_unpromoted_object i ->
  0 < n -> 0 <= base -> base mod COVERAGE = 0 -> base + n * COVERAGE < 2 ^ 48 ->
  let i' := prepend_words n base i in
  info_ok i' /\ bitmap_base_addr i' = base /\ nwords i' = n /\ forall o, ~ starts_chunk i' o.
Proof.
  intros Hw Hb Hbig Hn Hbase Ha Hl i'.
  assert (Ebits : bitmap i' = replicate (Z.to_nat n) 0).
  { unfold i', prepend_words. simpl. rewrite Hw, Z.sub_0_r. simpl. by rewrite take_0, app_nil_r. }
  assert (Ebase : bitmap_base_addr i' = base) by (unfold i', prepend_words; simpl; by rewrite Hb).
  split_and!; [|done..|].
  - split; rewrite ?Ebits, ?Ebase, ?length_replicate; unfold i'; simpl; (done || lia).
  - intros o (_ & _ & Hg). by rewrite Ebits, bitmap_get_zeros in Hg.
Qed.

Definition set_info_at (ip : Z) (i : arena_bitmap_info) (g : gstate) : gstate :=
  set_infos (<[ip := i]> (infos g)) g.

Lemma realloc_bitmap_prepend_ok {B : Build} g ip n base :
  (forall k, private_realloc_ok k = true) ->
  nwords (info g ip) < n ->
  bitmap_base_addr (prepend_words n base (info g ip)) = base ->
  realloc_bitmap_prepend ip n base g = Done (tt, set_info_at ip (prepend_words n base (info g ip)) g).
Proof.
  intros Hre Hn Hb. unfold realloc_bitmap_prepend, rd_info, wr_info. cbv [mbind M_bind gets].
  destruct (Z.ltb_spec (nwords (info g ip)) n); [|lia]. rewrite Hre. cbn [negb]. cbv [modify].
  rewrite info_set, decide_True, Hb, Z.eqb_refl, orb_true_r by done. unfold assert. by destruct NDEBUG.
Qed.
End prepend.

(** ** The bitmap of a frame covers the frame *)

Section cover.
Context {V : Vas} {VL : VasLaws V} {H : Hooks} {B : Build} {BM : Bitmap} {BL : BitmapLaws BM}.
Context {E : MallocEnv} {A : AllocaEnv}.

Lemma coverage_eq : ALLOCA_COVERAGE = COVERAGE.
Proof. done. Qed.

Definition frame_base (r : big_allocation) : Z := ROUND_DOWN (b_begin r) COVERAGE.
Definition frame_words (r : big_allocation) : Z :=
  DIVIDE_ROUNDING_UP (wrap64 (ROUND_UP (b_end r) COVERAGE - frame_base r) / ALLOCA_ALIGN) BITMAP_WORD_NBITS.

Lemma frame_geometry r : 0 <= b_begin r < b_end r -> b_end r < 2 ^ 47 ->
  let c := frame_words r in
  0 <= frame_base r <= b_begin r /\ frame_base r mod COVERAGE = 0 /\
  0 < c /\ b_end r <= frame_base r + c * COVERAGE < 2 ^ 48 /\
  wrap64 (ROUND_UP (b_end r) COVERAGE - frame_base r) mod ALLOCA_ALIGN = 0.
Proof.
  intros Hb He c. pose proof coverage_pos as Hc. pose proof bitmap_nbits_pos as HN.
  set (lo := b_begin r / COVERAGE). set (hi := (b_end r + COVERAGE - 1) / COVERAGE).
  assert (Elo : frame_base r = COVERAGE * lo) by (unfold frame_base, lo; apply ROUND_DOWN_spec; lia).
  assert (Ehi : ROUND_UP (b_end r) COVERAGE = COVERAGE * hi) by (unfold hi; apply ROUND_UP_spec; lia).
  assert (Hlo : COVERAGE * lo <= b_begin r < COVERAGE * lo + COVERAGE).
  { unfold lo. pose proof (Z.mul_div_le (b_begin r) COVERAGE Hc). pose proof (Z.mul_succ_div_gt (b_begin r) COVERAGE Hc). lia. }
  assert (Hhi : b_end r <= COVERAGE * hi < b_end r + COVERAGE).
  { unfold hi. pose proof (Z.mul_div_le (b_end r + COVERAGE - 1) COVERAGE Hc).
    pose proof (Z.mul_succ_div_gt (b_end r + COVERAGE - 1) COVERAGE Hc). lia. }
  assert (HCb : COVERAGE <= 2 ^ 20) by (unfold COVERAGE, MALLOC_ALIGN; lia).
  assert (Hlo0 : 0 <= lo) by (apply Z.div_pos; lia).
  assert (Hlh : lo < hi) by nia.
  assert (Ew : wrap64 (ROUND_UP (b_end r) COVERAGE - frame_base r) = (hi - lo) * BITMAP_WORD_NBITS * ALLOCA_ALIGN).
  { rewrite Ehi, Elo, wrap_small by nia. unfold COVERAGE, MALLOC_ALIGN, ALLOCA_ALIGN. lia. }
  assert (Ec : c = hi - lo).
  { unfold c, frame_words. rewrite Ew, Z.div_mul by done.
    rewrite DIVIDE_ROUNDING_UP_spec by nia. rewrite <- Z.add_sub_assoc, Z.div_add_l, Z.div_small by lia. lia. }
  rewrite Ec, Ew, Elo. split_and!; try nia.
  - rewrite Z.mul_comm. apply Z.mod_mul. lia.
  - apply Z.mod_mul. done.
Qed.

Lemma first_chunk_none g arena :
  let i := info g (suballocator_private (ba (table g) arena)) in
  (bitmap_base_addr i = 0 \/ bitmap_base_addr i = frame_base (ba (table g) arena)) ->
  (forall j, 0 <= j -> bitmap_get_l (take (Z.to_nat (nwords i)) (bitmap i)) j = false) ->
  first_chunk_addr arena g = Done ((0, 2 ^ 64 - 1), g).
Proof.
  intros i Hb Hn. unfold first_chunk_addr.
  rewrite (bind_Done _ _ _ (suballocator_private (ba (table g) arena)) g) by by apply big_pure.
  rewrite (bind_Done _ _ _ i g) by done.
  rewrite (bind_Done _ _ _ (b_begin (ba (table g) arena)) g) by by apply big_pure.
  assert (bitmap_find_first_set1_geq_l (take (Z.to_nat (nwords i)) (bitmap i)) 0 = 2 ^ 64 - 1) as ->.
  { destruct (decide (bitmap_find_first_set1_geq_l (take (Z.to_nat (nwords i)) (bitmap i)) 0 = 2 ^ 64 - 1)) as [|Hf]; [done|].
    destruct (bitmap_find_found (take (Z.to_nat (nwords i)) (bitmap i)) 0 _ ltac:(done) eq_refl Hf) as (Hi & Hg & _).
    rewrite Hn in Hg by lia. done. }
  rewrite (bind_Done _ _ _ tt g); [by rewrite Z.eqb_refl|].
  unfold assert, frame_base in *. rewrite coverage_eq.
  destruct Hb as [->| ->]; rewrite Z.eqb_refl, ?orb_true_r; by destruct NDEBUG.
Qed.

(** The first coverage of a frame that has no bitmap yet. *)
Lemma cover_fresh_ok g arena addr :
  (forall k, private_realloc_ok k = true) ->
  let r := ba (table g) arena in let ip := suballocator_private r in
  arena <> 0 -> ip <> 0 -> info g ip = zero_info ->
  0 <= b_begin r < b_end r -> b_end r < 2 ^ 47 -> b_begin r <= addr ->
  exists i', ensure_arena_covers_addr arena addr g = Done (tt, set_info_at ip i' g) /\
    info_ok i' /\ bitmap_base_addr i' = frame_base r /\
    b_end r <= bitmap_base_addr i' + nwords i' * COVERAGE /\ forall o, ~ starts_chunk i' o.
Proof.
  intros Hre r ip Hnz Hip Hzero Hb He Haddr.
  destruct (frame_geometry r Hb He) as (Hfb & Hfa & Hfw & Hfe & Hmod).
  destruct (prepend_fresh_ok (info g ip) (frame_words r) (frame_base r)) as (Iok & Eb & Ew & Hno);
    [by rewrite Hzero..|done|lia|done|lia|].
  set (i' := prepend_words (frame_words r) (frame_base r) (info g ip)) in *.
  exists i'. split_and!; [|done..|rewrite Eb, Ew; lia|done].
  set (g' := set_info_at ip i' g).
  assert (Einfo : info g' ip = i') by (unfold g', set_info_at; rewrite info_set; by rewrite decide_True).
  assert (Hcov : cover_frame arena addr g = Done (tt, g')).
  { unfold cover_frame.
    rewrite (bind_Done _ _ _ ip g) by by apply big_pure.
    rewrite (bind_Done _ _ _ (b_begin r) g) by by apply big_pure.
    destruct (Z.ltb_spec addr (b_begin r)); [lia|].
    rewrite (bind_Done _ _ _ tt g) by done.
    rewrite (bind_Done _ _ _ r g) by by apply big_pure.
    rewrite (bind_Done _ _ _ tt g) by (unfold assert; rewrite (proj2 (Z.leb_le _ _) Haddr); by destruct NDEBUG).
    rewrite coverage_eq. fold (frame_base r).
    rewrite (bind_Done _ _ _ tt g) by (unfold assert; rewrite Hmod; by destruct NDEBUG).
    fold (frame_words r). rewrite (bind_Done _ _ _ tt g').
    2:{ apply realloc_bitmap_prepend_ok; [done|rewrite Hzero; simpl; lia|done]. }
    rewrite (bind_Done _ _ _ i' g') by (unfold rd_info, gets; by rewrite Einfo).
    unfold assert. rewrite Eb, Z.eqb_refl. by destruct NDEBUG. }
  assert (Hfirst : NDEBUG = false -> first_chunk_addr arena g = Done ((0, 2 ^ 64 - 1), g) /\
                                    first_chunk_addr arena g' = Done ((0, 2 ^ 64 - 1), g')).
  { intros _. split; apply first_chunk_none.
    - fold r ip. rewrite Hzero. by left.
    - fold r ip. rewrite Hzero. intros j Hj. apply bitmap_get_beyond. simpl. lia.
    - change (table g') with (table g). fold r ip. rewrite Einfo. by right.
    - change (table g') with (table g). fold r ip. rewrite Einfo. intros j Hj.
      unfold i', prepend_words. cbn [bitmap nwords]. rewrite Hzero. cbn [bitmap nwords zero_info].
      rewrite Z.sub_0_r, app_nil_r, take_ge by (rewrite length_replicate; lia). apply bitmap_get_zeros. }
  unfold ensure_arena_covers_addr.
  rewrite (bind_Done _ _ _ tt g) by (unfold deref; by rewrite (proj2 (Z.eqb_neq _ 0) Hnz)).
  rewrite (bind_Done _ _ _ ip g) by by apply big_pure.
  rewrite (bind_Done _ _ _ tt g) by (unfold deref; by rewrite (proj2 (Z.eqb_neq _ 0) Hip)).
  rewrite (bind_Done _ _ _ 0 g).
  2:{ destruct NDEBUG; [done|]. destruct (Hfirst eq_refl) as [Hf _]. by rewrite (bind_Done _ _ _ _ _ Hf). }
  rewrite (bind_Done _ _ _ (info g ip) g) by done.
  rewrite (bind_Done _ _ _ (b_begin r) g) by by apply big_pure.
  rewrite Hzero. cbn [bitmap_base_addr nwords zero_info].
  rewrite (bind_Done _ _ _ tt g) by (unfold assert; by destruct NDEBUG).
  cbn [Z.eqb negb andb]. rewrite (bind_Done _ _ _ tt g' Hcov).
  destruct NDEBUG eqn:Hd; [done|]. destruct (Hfirst eq_refl) as [_ Hf].
  rewrite (bind_Done _ _ _ _ _ Hf). unfold assert. by rewrite Hd.
Qed.
End cover.
