(* ===== verification/HeapTheorems.v ===== *)
(** The contract of the heap indexes: chunks of a malloc-like arena, the
    inserts that describe them, and the chunks of stack frames. *)
From S2P Require Import Prelude DList Vas Bitmap BigAlloc PageIndex PageIndexQuery BigAllocFacts Forest.
From S2P Require Import Traversal Attach Toplevel Create Detach Delete Resize.
From S2P Require Import QueryCorrect Reachable Demo MallocMeta AddrList GenericMalloc GenericMallocFacts.
From S2P Require Import Alloca AllocaFacts.

(** ** Indexing and finding a chunk *)

Section heap.
Context {V : Vas} {VL : VasLaws V} {H : Hooks} {BM : Bitmap} {BL : BitmapLaws BM} {E : MallocEnv}.
Context (sizefn : Z -> Z).

(** C12.  Indexing a chunk that is not promoted to a bigalloc and then looking
    up any address of the requested bytes finds the chunk, its insert and its
    usable size: the index keeps all other chunks, and the insert names the
    caller as the allocation site.  The conditions: the chunk is aligned, lies
    in the arena of the index and has room for the insert ([chunk_ok]); its
    usable size is at most 128 KiB, above which it would be promoted; the
    bitmap can be grown when it has to be; the caller is below [2^47]; the
    address is within [2^36] of the bitmap's base; no other chunk starts
    between the chunk's start and the address; and the chunk's address is at
    least its own size and that of the largest unpromoted chunk, so that the
    search back does not run below zero. *)
Theorem index_then_lookup g a ip arena allocptr req caller m :
  chunk_ok sizefn g a ip arena allocptr req -> sizefn allocptr <= 131072 ->
  (forall n, private_realloc_ok n = true) -> ip <> 0 -> 0 <= caller < 2 ^ 47 ->
  biggest_unpromoted_object (info g ip) <= allocptr -> sizefn allocptr <= allocptr ->
  allocptr <= m < allocptr + req -> m - bitmap_base_addr (info g ip) < 2 ^ 36 ->
  (forall o, starts_chunk (info g ip) o -> ~ allocptr < o <= m) ->
  exists g', __generic_malloc_index_insert (B := release) sizefn a ip allocptr req caller g =
      Done (allocptr + sizefn allocptr - sizeof_insert, g') /\
    lookup_object_info_via_bitmap (B := release) sizefn ip m g' =
      Done (Some (allocptr + sizefn allocptr - sizeof_insert, allocptr, sizefn allocptr - sizeof_insert), g') /\
    (forall o, starts_chunk (info g' ip) o <-> o = allocptr \/ starts_chunk (info g ip) o) /\
    initial_alloc_site (load g' (allocptr + sizefn allocptr - sizeof_insert)) = caller /\
    INSERT_IS_WITH_TYPE (load g' (allocptr + sizefn allocptr - sizeof_insert)) = false.
Proof.
  intros C Hsz Hre Hip Hc Hbig Hle Hm H36 Hno.
  destruct (index_insert_ok sizefn g a ip arena allocptr req caller C Hsz Hre) as (g' & E1 & X).
  exists g'. split_and!; [done| |apply (ix_starts _ _ _ _ _ _ _ X)| |].
  - by apply (insert_lookup_ok sizefn g g' a ip arena allocptr req caller m).
  - rewrite (ix_insert _ _ _ _ _ _ _ X). by apply (fresh_insert_site caller).
  - rewrite (ix_insert _ _ _ _ _ _ _ X). by apply (fresh_insert_site caller).
Qed.

(** Unindexing a chunk that was not promoted clears its bit and no
    other, touches neither memory nor the bigalloc table, and asks for the
    chunk's cached entries to be dropped. *)
Lemma unindex_chunk g a ip arena userptr :
  wf (table g) -> index_ok (table g) -> a <> 0 -> arena_of (table g) a userptr arena ->
  topmost_at (table g) userptr a false 0 -> info_ok (info g ip) -> starts_chunk (info g ip) userptr ->
  exists g', __generic_malloc_index_delete (B := release) sizefn a ip userptr g = Done (tt, g') /\
    unindexed sizefn g g' ip userptr.
Proof. apply index_delete_ok. Qed.

(** The search of the bitmap gives the same answer in both builds: the
    shortcut of the release build, which skips the words that can hold no
    chunk reaching the address, never hides the chunk around it. *)
Lemma search_shortcut i m o :
  info_ok i -> bitmap_base_addr i <= m < bitmap_base_addr i + nwords i * COVERAGE ->
  m - bitmap_base_addr i < 2 ^ 36 ->
  last_start i m o -> m - o <= biggest_unpromoted_object i <= m ->
  search_bitmap (B := release) i m = Some o /\ search_bitmap (B := debug) i m = Some o.
Proof. intros. split; by apply search_bitmap_found. Qed.

(** The first query of a chunk's type finds it through the allocation
    site and caches it in the insert; the second reads it from there and gives
    the same type.  When the site has no entry, the first query reports the
    error and records the site, but the word it leaves in the insert is not
    recognised as typed: to the next query the allocation site is 0x7fff. *)
Lemma type_is_cached g p site :
  untyped g p site ->
  (forall u, find_allocsite_entry_at site = Some u ->
     2 ^ 35 <= u < 2 ^ 47 -> u mod 8 = 0 -> - 2 ^ 14 <= allocsite_id site < 2 ^ 14 ->
     exists g', extract_and_output_alloc_site_and_type (B := release) p g = Done ((inr u, Some site), g') /\
       extract_and_output_alloc_site_and_type (B := release) p g' = Done ((inr u, Some 0), g')) /\
  (site <> 0 -> find_allocsite_entry_at site = None ->
   __liballocs_addrlist_contains (unrecognised g) site = 0 ->
   exists g', extract_and_output_alloc_site_and_type (B := release) p g =
       Done ((inl err_unrecognised_alloc_site, Some site), g') /\ untyped g' p 0x7fff).
Proof.
  intros Hu. split.
  - intros u Hf Hr Ha Hid. eexists. split; [by apply extract_first; [..|lia]|].
    apply (extract_typed _ p u (allocsite_id site)); [apply Hu|done..|].
    by rewrite load_set, decide_True.
  - intros Hs Hf Hc. destruct (extract_unrecognised g p site Hu Hs Hf Hc) as (g' & E1 & Hl & _).
    exists g'. split; [done|]. apply cleared_insert_untyped; [apply Hu|done].
Qed.
End heap.

(** An insert written with a type is recognised as such by
    [INSERT_IS_WITH_TYPE] exactly when the type's address is at least 2^35:
    the test looks at bits that only the top of the type field reaches. *)
Lemma with_type_recognised u id :
  0 <= u < 2 ^ 47 -> u mod 8 = 0 -> - 2 ^ 14 <= id < 2 ^ 14 ->
  INSERT_IS_WITH_TYPE (mk_with_type (UNIQTYPE_SHIFT_FOR_INSERT u) id 1) = true <-> 2 ^ 35 <= u.
Proof. intros Hu Ha Hid. by apply mk_with_type_recognised. Qed.

(** The list of unrecognised sites: adding an address appends it, keeps
    the list well formed, and makes exactly that address a new member. *)
Lemma addrlist_add_contains junk l addr x :
  addrlist_wf l -> al_allocsz l < 2 ^ 31 - 1 ->
  addrlist_wf (__liballocs_addrlist_add junk l addr) /\
  addrlist_items (__liballocs_addrlist_add junk l addr) = addrlist_items l ++ [addr] /\
  (__liballocs_addrlist_contains (__liballocs_addrlist_add junk l addr) x <> 0 <->
   x = addr \/ __liballocs_addrlist_contains l x <> 0).
Proof.
  intros W Hs. destruct (addrlist_add_ok junk l addr W Hs) as [W' E1]. split_and!; [done..|].
  rewrite !addrlist_contains_items, E1, elem_of_app, list_elem_of_singleton. tauto.
Qed.

(** ** Stack chunks *)

(** The memory instrumented code asks of [alloca] holds the chunk: the
    user's part is 16-byte aligned, the word before it is available for the
    size, it ends with the memory, has room for the requested bytes and the
    insert, and the insert is 8-byte aligned. *)
Lemma alloca_geometry allocated orig :
  0 <= allocated -> allocated mod 8 = 0 -> 0 <= orig -> allocated + orig + 64 < 2 ^ 64 ->
  chunk_fits allocated orig.
Proof. apply alloca_chunk_fits. Qed.

Section frames.
Context {V : Vas} {VL : VasLaws V} {H : Hooks} {B : Build} {BM : Bitmap} {BL : BitmapLaws BM}.
Context {E : MallocEnv} {A : AllocaEnv}.

(** Extending the bitmap of a frame at its beginning, as the frame grows
    downwards, moves the base address and keeps exactly the chunks that were
    marked, at their addresses. *)
Lemma prepend_keeps_chunks g ip n base :
  (forall k, private_realloc_ok k = true) -> info_ok (info g ip) -> nwords (info g ip) < n ->
  bitmap_base_addr (info g ip) <> 0 ->
  base = bitmap_base_addr (info g ip) - (n - nwords (info g ip)) * COVERAGE -> 0 <= base ->
  exists g', realloc_bitmap_prepend ip n base g = Done (tt, g') /\
    info_ok (info g' ip) /\ bitmap_base_addr (info g' ip) = base /\ nwords (info g' ip) = n /\
    forall o, starts_chunk (info g' ip) o <-> starts_chunk (info g ip) o.
Proof.
  intros Hre Iok Hn Hnz Eb Hb.
  destruct (prepend_words_ok (info g ip) n base Iok Hn Hnz Eb Hb) as (Iok' & Eb' & En & _ & St).
  exists (set_info_at ip (prepend_words n base (info g ip)) g). split; [by apply realloc_bitmap_prepend_ok|].
  unfold set_info_at. rewrite info_set, decide_True by done. done.
Qed.

(** The first time a frame is asked to cover an address it already
    spans, it gets an empty bitmap that starts at its rounded-down beginning
    and reaches its end. *)
Lemma frame_gets_bitmap g arena addr :
  (forall k, private_realloc_ok k = true) ->
  arena <> 0 -> suballocator_private (ba (table g) arena) <> 0 ->
  info g (suballocator_private (ba (table g) arena)) = zero_info ->
  0 <= b_begin (ba (table g) arena) < b_end (ba (table g) arena) -> b_end (ba (table g) arena) < 2 ^ 47 ->
  b_begin (ba (table g) arena) <= addr ->
  exists g', ensure_arena_covers_addr arena addr g = Done (tt, g') /\ table g' = table g /\ mem g' = mem g /\
    let i' := info g' (suballocator_private (ba (table g) arena)) in
    info_ok i' /\ bitmap_base_addr i' = ROUND_DOWN (b_begin (ba (table g) arena)) COVERAGE /\
    b_end (ba (table g) arena) <= bitmap_base_addr i' + nwords i' * COVERAGE /\
    forall o, ~ starts_chunk i' o.
Proof.
  intros Hre Hnz Hip Hz Hb He Ha.
  destruct (cover_fresh_ok g arena addr Hre Hnz Hip Hz Hb He Ha) as (i' & E1 & Hi).
  exists (set_info_at (suballocator_private (ba (table g) arena)) i' g). split_and!; [done..|].
  unfold set_info_at. rewrite info_set, decide_True by done. exact Hi.
Qed.
End frames.

(** ** Instances *)

#[local] Existing Instance words64.

(** One arena, record 1 of [demo1], with an arena record at address 7; the
    site 0x5555 has an entry. *)
#[local] Instance heap_env : MallocEnv := {|
  private_malloc _ := 7;
  private_realloc_ok _ := true;
  free_arena_bitmap_and_info := 0;
  find_allocsite_entry_at site := if site =? 0x5555 then Some (2 ^ 40) else None;
  allocsite_id _ := 3;
  MINIMUM_USER_ADDRESS := 2 ^ 22;
|}.

Definition heap_table : state :=
  upd 1 (fun r => set_suballocator_private 7 0 (set_suballocator 90 r)) demo1.
Definition heap (i : arena_bitmap_info) : gstate := GState heap_table {[7 := i]} ∅ 0 empty_addrlist [] [].
Definition fresh_info : arena_bitmap_info := ArenaBitmapInfo 0 [] 0x10000 0 0 0.
(** Chunks at 0x10000 and 0x10200. *)
Definition marked_info : arena_bitmap_info := ArenaBitmapInfo 1 [1 + 2 ^ 32] 0x10000 0 56 56.

Lemma heap_shape i : shape (ba heap_table i) = shape (ba demo1 i).
Proof. unfold heap_table. rewrite ba_upd. case_decide; by subst. Qed.

Lemma heap_table_ok : wf heap_table /\ index_ok heap_table.
Proof.
  assert (T : table_ok demo1) by (apply reachable_ok, rtc_once, demo1_step).
  split; [eapply wf_shape|eapply index_shape]; try apply heap_shape; try apply T. done.
Qed.

Lemma heap_used i : used heap_table i -> i ∈ [1].
Proof. apply used_among. by vm_compute. Qed.

Lemma heap_arena ptr : 0x10000 <= ptr < 0x20000 -> arena_of heap_table 90 ptr 1.
Proof.
  intros Hp. assert (b_begin (ba heap_table 1) = 0x10000 /\ b_end (ba heap_table 1) = 0x20000) as [E1 E2] by by_eval.
  split_and!; [unfold user_address; cbn -[Z.pow]; lia|done|]. right. split.
  - split_and!; [by_eval|unfold contains; rewrite E1, E2; lia|by_eval].
  - intros j (U & _). live_cases U heap_used. apply ancestor_refl.
Qed.

Lemma fresh_info_ok : info_ok fresh_info.
Proof. split; by_eval. Qed.
Lemma marked_info_ok : info_ok marked_info.
Proof. split; by_eval. Qed.

Lemma heap_chunk : chunk_ok (fun _ => 64) (heap fresh_info) 90 7 1 0x10400 40.
Proof.
  split; [apply heap_table_ok|apply heap_table_ok|by_eval|apply heap_arena; lia|apply heap_arena; lia|
    apply fresh_info_ok|by_eval..].
Qed.

Lemma index_then_lookup_witness :
  exists g', __generic_malloc_index_insert (B := release) (fun _ => 64) 90 7 0x10400 40 0x5555 (heap fresh_info) =
      Done (0x10400 + 64 - sizeof_insert, g') /\
    lookup_object_info_via_bitmap (B := release) (fun _ => 64) 7 0x10410 g' =
      Done (Some (0x10400 + 64 - sizeof_insert, 0x10400, 64 - sizeof_insert), g') /\
    (forall o, starts_chunk (info g' 7) o <-> o = 0x10400 \/ starts_chunk (info (heap fresh_info) 7) o) /\
    initial_alloc_site (load g' (0x10400 + 64 - sizeof_insert)) = 0x5555 /\
    INSERT_IS_WITH_TYPE (load g' (0x10400 + 64 - sizeof_insert)) = false.
Proof.
  apply (index_then_lookup (fun _ => 64) (heap fresh_info) 90 7 1 0x10400 40 0x5555 0x10410).
  - apply heap_chunk.
  - by_eval.
  - reflexivity.
  - discriminate.
  - by_eval.
  - by_eval.
  - by_eval.
  - by_eval.
  - by_eval.
  - intros o (Hlo & _ & G). exfalso. rewrite bitmap_get_beyond in G; [discriminate G|].
    apply Z.div_pos; [lia|reflexivity].
Defined.

Lemma heap_marked : starts_chunk marked_info 0x10200.
Proof. by_eval. Qed.

Lemma unindex_chunk_demo :
  exists g', __generic_malloc_index_delete (B := release) (fun _ => 64) 90 7 0x10200 (heap marked_info) = Done (tt, g') /\
    unindexed (fun _ => 64) (heap marked_info) g' 7 0x10200.
Proof.
  apply (unindex_chunk (fun _ => 64) (heap marked_info) 90 7 1 0x10200).
  - apply heap_table_ok.
  - apply heap_table_ok.
  - discriminate.
  - apply heap_arena. by_eval.
  - left. split; [reflexivity|]. intros j (U & _ & A). live_cases U heap_used. vm_compute in A. discriminate A.
  - apply marked_info_ok.
  - apply heap_marked.
Defined.

(** The bits of [marked_info]. *)
Lemma marked_starts o : starts_chunk marked_info o -> o = 0x10000 \/ o = 0x10200.
Proof.
  intros (Hlo & Ha & G). cbn [marked_info bitmap bitmap_base_addr] in *. unfold MALLOC_ALIGN in *.
  apply Z.mod_divide in Ha as [q Hq]; [|done]. rewrite Hq, Z.div_mul in G by done.
  destruct (decide (q < 64)) as [Hl|Hl].
  - cbn [bitmap_get_l words64] in G. unfold word_get in G. rewrite (proj2 (Z.ltb_ge q 0)) in G by lia.
    rewrite Z.div_small, Z.mod_small in G by lia. change (default 0 ([1 + 2 ^ 32] !! Z.to_nat 0)) with (1 + 2 ^ 32) in G.
    rewrite Z.add_nocarry_lxor, Z.lxor_spec in G by reflexivity.
    destruct (decide (q = 0)) as [->|]; [left; lia|]. right.
    rewrite Z.pow2_bits_eqb in G by lia. change 1 with (2 ^ 0) in G. rewrite Z.pow2_bits_eqb in G by lia.
    rewrite (proj2 (Z.eqb_neq 0 q)) in G by lia. destruct (Z.eqb_spec 32 q); [lia|done].
  - rewrite bitmap_get_beyond in G; [done|]. simpl. lia.
Qed.

Lemma search_shortcut_demo :
  search_bitmap (B := release) marked_info 0x10208 = Some 0x10200 /\
  search_bitmap (B := debug) marked_info 0x10208 = Some 0x10200.
Proof.
  apply (search_shortcut marked_info 0x10208 0x10200); [apply marked_info_ok|by_eval|by_eval| |by_eval].
  split; [apply heap_marked|]. split; [by_eval|]. intros o' [->| ->]%marked_starts _; by_eval.
Defined.

(** The insert of a chunk allocated at site 0x5555, and at a site without entry. *)
Definition inserts : gstate :=
  set_mem {[8 := set_initial_alloc_site 0x5555 0; 16 := set_initial_alloc_site 0x6666 0]} (heap fresh_info).

Lemma type_is_cached_demo :
  (exists g', extract_and_output_alloc_site_and_type (B := release) 8 inserts = Done ((inr (2 ^ 40), Some 0x5555), g') /\
    extract_and_output_alloc_site_and_type (B := release) 8 g' = Done ((inr (2 ^ 40), Some 0), g')) /\
  (exists g', extract_and_output_alloc_site_and_type (B := release) 16 inserts =
      Done ((inl err_unrecognised_alloc_site, Some 0x6666), g') /\ untyped g' 16 0x7fff).
Proof.
  split; [apply (type_is_cached inserts 8 0x5555)|apply (type_is_cached inserts 16 0x6666)]; by_eval.
Defined.

Lemma with_type_recognised_demo :
  INSERT_IS_WITH_TYPE (mk_with_type (UNIQTYPE_SHIFT_FOR_INSERT (2 ^ 34)) 3 1) = true <-> 2 ^ 35 <= 2 ^ 34.
Proof. apply (with_type_recognised (2 ^ 34) 3); by_eval. Defined.

Lemma alloca_geometry_demo : chunk_fits 0x7ff008 100.
Proof. apply (alloca_geometry 0x7ff008 100); by_eval. Defined.

Lemma prepend_keeps_chunks_demo :
  exists g', realloc_bitmap_prepend (B := debug) 7 3 (0x10000 - 2 * 1024) (heap marked_info) = Done (tt, g') /\
    info_ok (info g' 7) /\ bitmap_base_addr (info g' 7) = 0x10000 - 2 * 1024 /\ nwords (info g' 7) = 3 /\
    forall o, starts_chunk (info g' 7) o <-> starts_chunk (info (heap marked_info) 7) o.
Proof.
  apply (prepend_keeps_chunks (B := debug) (heap marked_info) 7 3 (0x10000 - 2 * 1024));
    [reflexivity|apply marked_info_ok|by_eval..].
Defined.

Lemma frame_gets_bitmap_demo :
  exists g', ensure_arena_covers_addr (B := debug) 1 0x10800 (heap zero_info) = Done (tt, g') /\
    table g' = heap_table /\ mem g' = ∅ /\
    let i' := info g' 7 in
    info_ok i' /\ bitmap_base_addr i' = ROUND_DOWN 0x10000 COVERAGE /\
    0x20000 <= bitmap_base_addr i' + nwords i' * COVERAGE /\ forall o, ~ starts_chunk i' o.
Proof.
  apply (frame_gets_bitmap (B := debug) (heap zero_info) 1 0x10800); [reflexivity|by_eval..].
Defined.
