(* ===== verification/MappingSeq.v ===== *)
(** Mapping sequences: the data of src/src/liballocs_private.h and the
    operations of src/src/allocators/mmap.c on one sequence.

    A sequence describes the contiguous memory mappings that back one
    bigalloc: at most [MAPPING_SEQUENCE_MAX_LEN] entries of a fixed array, of
    which the first [nused] count.  The array is a list; an access past its
    end is undefined behaviour and modelled as [Abort].  File names are
    compared by content, so they are strings, with [None] for the null
    pointer; copying one is assumed to find memory.  The object that loaded
    the code at an address (librunt's [get_highest_loaded_object_below]) is a
    parameter.  Diagnostic output is dropped. *)
From stdpp Require Import strings.
From S2P Require Import Prelude.

Definition MAPPING_SEQUENCE_MAX_LEN : nat := 8.
Definition PROT_NONE : Z := 0.

Record mapping_entry := MappingEntry {
  e_begin : Z;
  e_end : Z;
  e_prot : Z;
  e_flags : Z;
  e_offset : Z;
  e_is_anon : bool;
  e_caller : Z;
}.
Definition zero_mapping : mapping_entry := MappingEntry 0 0 0 0 0 false 0.

#[export] Instance mapping_entry_eq_dec : EqDecision mapping_entry.
Proof. solve_decision. Defined.

Record mapping_sequence := MappingSequence {
  seq_begin : Z;
  seq_end : Z;
  seq_filename : option string;
  nused : nat;
  mappings : list mapping_entry;
}.
(** What [calloc] and [memset] make of it. *)
Definition zero_sequence : mapping_sequence :=
  MappingSequence 0 0 None 0 (replicate MAPPING_SEQUENCE_MAX_LEN zero_mapping).

#[export] Instance mapping_sequence_eq_dec : EqDecision mapping_sequence.
Proof. solve_decision. Defined.

Definition set_e_begin (v : Z) (e : mapping_entry) : mapping_entry :=
  MappingEntry v (e_end e) (e_prot e) (e_flags e) (e_offset e) (e_is_anon e) (e_caller e).
Definition set_e_end (v : Z) (e : mapping_entry) : mapping_entry :=
  MappingEntry (e_begin e) v (e_prot e) (e_flags e) (e_offset e) (e_is_anon e) (e_caller e).
Definition set_seq_begin (v : Z) (s : mapping_sequence) : mapping_sequence :=
  MappingSequence v (seq_end s) (seq_filename s) (nused s) (mappings s).
Definition set_seq_end (v : Z) (s : mapping_sequence) : mapping_sequence :=
  MappingSequence (seq_begin s) v (seq_filename s) (nused s) (mappings s).
Definition set_filename (f : option string) (s : mapping_sequence) : mapping_sequence :=
  MappingSequence (seq_begin s) (seq_end s) f (nused s) (mappings s).
Definition set_nused (n : nat) (s : mapping_sequence) : mapping_sequence :=
  MappingSequence (seq_begin s) (seq_end s) (seq_filename s) n (mappings s).
Definition set_mappings (l : list mapping_entry) (s : mapping_sequence) : mapping_sequence :=
  MappingSequence (seq_begin s) (seq_end s) (seq_filename s) (nused s) l.

(** ** Comparing sequences *)

Definition mapping_entry_equal (e1 e2 : mapping_entry) : bool := bool_decide (e1 = e2).

(** The first [n] elements of two arrays. *)
Fixpoint mapping_entries_equal (n : nat) (l1 l2 : list mapping_entry) : bool :=
  match n, l1, l2 with
  | O, _, _ => true
  | S n, e1 :: l1, e2 :: l2 => mapping_entry_equal e1 e2 && mapping_entries_equal n l1 l2
  | _, _, _ => false
  end.

Definition mapping_at (s : mapping_sequence) (i : nat) : mapping_entry :=
  default zero_mapping (mappings s !! i).

Definition mapping_sequence_prefix (s1 s2 : mapping_sequence) : bool :=
  (nused s1 <=? nused s2)%nat &&
  (mapping_entries_equal (nused s1) (mappings s1) (mappings s2)
   || (mapping_entries_equal (nused s1 - 1) (mappings s1) (mappings s2)
       && (nused s1 =? nused s2)%nat
       && e_is_anon (mapping_at s1 (nused s1 - 1))
       && e_is_anon (mapping_at s2 (nused s2 - 1))
       && (e_begin (mapping_at s1 (nused s1 - 1)) =? e_begin (mapping_at s2 (nused s2 - 1)))
       && (e_end (mapping_at s1 (nused s1 - 1)) <=? e_end (mapping_at s2 (nused s2 - 1))))).

Definition mem_range_prefix (s1 s2 : mapping_sequence) : bool :=
  (seq_begin s1 =? seq_begin s2) && (seq_end s1 <? seq_end s2).

Definition mapping_sequence_suffix (s1 s2 : mapping_sequence) : bool :=
  (nused s1 <=? nused s2)%nat &&
  mapping_entries_equal (nused s1) (drop (nused s2 - nused s1) (mappings s2)) (mappings s1).

Definition mem_range_suffix (s1 s2 : mapping_sequence) : bool :=
  (seq_end s1 =? seq_end s2) && (seq_begin s2 <? seq_begin s1).

(** [__mmap_allocator_find_entry]: the index of the entry it returns. *)
Fixpoint find_entry_from (l : list mapping_entry) (i : nat) (addr : Z) : option nat :=
  match l with
  | [] => None
  | e :: l => if (e_begin e <=? addr) && (addr <? e_end e) then Some i else find_entry_from l (S i) addr
  end.
Definition __mmap_allocator_find_entry (addr : Z) (s : mapping_sequence) : option nat :=
  find_entry_from (take (nused s) (mappings s)) 0 addr.

Section ops.
Context {B : Build}.

(** ** The array *)

Definition rd_map (i : nat) : M mapping_sequence mapping_entry :=
  s ← gets id; match mappings s !! i with Some e => mret e | None => abort end.
Definition wr_map (i : nat) (f : mapping_entry -> mapping_entry) : M mapping_sequence unit :=
  e ← rd_map i; modify (fun s => set_mappings (<[i := f e]> (mappings s)) s).

(** [memmove] of [n] entries within the array. *)
Definition moved (dst src n : nat) (l : list mapping_entry) : list mapping_entry :=
  take dst l ++ take n (drop src l) ++ drop (dst + n) l.
Definition memmove (dst src n : nat) : M mapping_sequence unit :=
  s ← gets id;
  if ((dst + n <=? length (mappings s)) && (src + n <=? length (mappings s)))%nat
  then modify (set_mappings (moved dst src n (mappings s)))
  else abort.

Definition copy_all_left_from_by (from by_ : nat) : M mapping_sequence unit :=
  n ← gets nused;
  if ((from <? by_) || (n <? from))%nat then abort else
  memmove (from - by_) from (n - from) ;;
  modify (set_nused (n - by_)).

Definition copy_all_right_from_by (from by_ : nat) : M mapping_sequence unit :=
  n ← gets nused;
  if (n <? from)%nat then abort else
  memmove (from + by_) from (n - from) ;;
  modify (set_nused (n + by_)).

(** ** The sanity check *)

Fixpoint sanity_entries (k : nat) (i : nat) : M mapping_sequence unit :=
  match k with
  | O => mret tt
  | S k =>
    e ← rd_map i;
    assert (negb (e_begin e =? 0)) ;;
    assert (negb (e_end e =? 0)) ;;
    assert (e_begin e <? e_end e) ;;
    (match i with
     | O => mret tt
     | S j => p ← rd_map j; assert (e_end p =? e_begin e)
     end) ;;
    sanity_entries k (S i)
  end.

Definition check_mapping_sequence_sanity : M mapping_sequence unit :=
  if NDEBUG then mret tt else
  s ← gets id;
  match nused s with
  | O => mret tt
  | S last =>
    e0 ← rd_map 0;
    assert (seq_begin s =? e_begin e0) ;;
    el ← rd_map last;
    assert (seq_end s =? e_end el) ;;
    sanity_entries (nused s) 0
  end.

(** ** Adding a mapping *)

Definition OVERLAPS (b1 e1 b2 e2 : Z) : bool := (b1 <? e2) && (b2 <=? e1).

(** The first and the last entry the new mapping touches. *)
Fixpoint first_overlapped_loop (fuel i : nat) (begin end_ : Z) : M mapping_sequence nat :=
  match fuel with
  | O => nofuel
  | S fuel =>
    e ← rd_map i;
    if OVERLAPS (e_begin e) (e_end e) begin end_ then mret i
    else first_overlapped_loop fuel (S i) begin end_
  end.
Fixpoint last_overlapped_loop (i : nat) (begin end_ : Z) : M mapping_sequence nat :=
  e ← rd_map i;
  if OVERLAPS (e_begin e) (e_end e) begin end_ then mret i
  else match i with O => abort | S i => last_overlapped_loop i begin end_ end.

Context (get_highest_loaded_object_below : Z -> Z).

Definition same_object (caller1 caller2 : Z) : bool :=
  get_highest_loaded_object_below caller1 =? get_highest_loaded_object_below caller2.

Definition is_null {A} (p : option A) : bool := match p with None => true | Some _ => false end.
Definition same_name (f g : option string) : bool :=
  match f, g with Some a, Some b => bool_decide (a = b) | _, _ => false end.

Definition new_entry (begin end_ prot flags offset : Z) (filename : option string) (caller : Z) : mapping_entry :=
  MappingEntry begin end_ prot flags offset (is_null filename) caller.

(** May the mapping follow the last one? *)
Definition filename_is_consistent_1 (s : mapping_sequence) (prot : Z) (filename : option string) (caller : Z) : bool :=
  let last := mapping_at s (nused s - 1) in
  (is_null filename && is_null (seq_filename s))
  || (nused s =? 0)%nat
  || ((prot =? PROT_NONE) && is_null filename)
  || (is_null filename && negb (is_null (seq_filename s)) && negb (e_is_anon last)
      && (((caller =? 0) && (e_caller last =? 0)) || same_object caller (e_caller last)))
  || same_name filename (seq_filename s).

Definition augment_clean (begin end_ prot flags offset : Z) (filename : option string) (caller : Z)
    : M mapping_sequence bool :=
  s ← gets id;
  if negb (filename_is_consistent_1 s prot filename caller) then mret false else
  when (seq_begin s =? 0) (modify (set_seq_begin begin)) ;;
  modify (set_seq_end end_) ;;
  when (is_null (seq_filename s)) (modify (set_filename filename)) ;;
  wr_map (nused s) (fun _ => new_entry begin end_ prot flags offset filename caller) ;;
  modify (set_nused (S (nused s))) ;;
  mret true.

(** May the mapping replace the entries from [first] to [last]? *)
Definition filename_is_consistent_2 (s : mapping_sequence) (filename : option string) (caller : Z)
    (first last : nat) (begin_partial end_partial : bool) : bool :=
  if (is_null filename && is_null (seq_filename s)) || (nused s =? 0)%nat then true
  else if negb (is_null filename) && negb (is_null (seq_filename s)) && negb (same_name filename (seq_filename s))
  then false
  else
    let preceding := if begin_partial then Some first else match first with O => None | S i => Some i end in
    let following := if end_partial then last else S last in
    let following := if (nused s <=? following)%nat then None else Some following in
    let edge :=
      match preceding with
      | Some i => e_is_anon (mapping_at s i) && negb (is_null filename)
      | None => false
      end
      || match following with
         | Some i => is_null filename && negb (e_is_anon (mapping_at s i))
         | None => false
         end in
    negb edge
    && ((caller =? 0) || (e_caller (mapping_at s first) =? 0)
        || same_object caller (e_caller (mapping_at s first))).

Definition augment_overlap (begin end_ prot flags offset : Z) (filename : option string) (caller : Z)
    : M mapping_sequence bool :=
  s ← gets id;
  first ← first_overlapped_loop (S (length (mappings s))) 0 begin end_;
  last ← (match nused s with O => abort | S i => last_overlapped_loop i begin end_ end);
  let begin_partial := negb (e_begin (mapping_at s first) =? begin) in
  let end_partial := negb (e_end (mapping_at s last) =? end_) in
  if negb (filename_is_consistent_2 s filename caller first last begin_partial end_partial) then mret false else
  if (MAPPING_SEQUENCE_MAX_LEN - nused s <? Nat.b2n begin_partial + Nat.b2n end_partial)%nat then mret false else
  fl ← (if begin_partial then
          copy_all_right_from_by first 1 ;;
          let last := if (first =? last)%nat then last else S last in
          wr_map first (set_e_end begin) ;;
          wr_map (S first) (set_e_begin begin) ;;
          let last := if (first =? last)%nat then S last else last in
          mret (S first, last)
        else mret (first, last));
  let first := fst fl in
  let last := snd fl in
  (if end_partial then
     copy_all_right_from_by last 1 ;;
     wr_map (S last) (set_e_begin end_) ;;
     wr_map last (set_e_end end_)
   else mret tt) ;;
  assert (first <=? last)%nat ;;
  last ← (if (first <? last)%nat then
            copy_all_left_from_by (S last) (last - first) ;; mret first
          else mret last);
  assert (first =? last)%nat ;;
  wr_map first (fun _ => new_entry begin end_ prot flags offset filename caller) ;;
  mret true.

Definition augment_sequence (begin end_ prot flags offset : Z) (filename : option string) (caller : Z)
    : M mapping_sequence bool :=
  check_mapping_sequence_sanity ;;
  s ← gets id;
  let is_clean_extension := (seq_end s =? 0) || (seq_end s =? begin) in
  let bounds_would_remain_contiguous :=
    is_clean_extension || OVERLAPS (seq_begin s) (seq_end s) begin end_ in
  let begin_addr_unchanged := seq_begin s <=? begin in
  let not_too_many := negb (nused s =? MAPPING_SEQUENCE_MAX_LEN)%nat in
  ret ← (if bounds_would_remain_contiguous && begin_addr_unchanged && not_too_many then
           if is_clean_extension
           then augment_clean begin end_ prot flags offset filename caller
           else augment_overlap begin end_ prot flags offset filename caller
         else mret false);
  check_mapping_sequence_sanity ;;
  mret ret.
Definition __augment_mapping_sequence := augment_sequence.

(** ** Removing a span *)

Definition clear_or_trim (i : nat) (addr length : Z) : M mapping_sequence unit :=
  e ← rd_map i;
  let limit := wrap64 (addr + length) in
  if (e_begin e <=? limit) && (addr <? e_end e) then
    if (e_begin e <? addr) && (limit <? e_end e) then abort else
    let left_at_beginning := if e_begin e <? addr then wrap64 (addr - e_begin e) else 0 in
    let left_at_end := if e_end e <? limit then 0 else wrap64 (e_end e - limit) in
    if (left_at_beginning =? 0) && (left_at_end =? 0) then wr_map i (fun _ => zero_mapping) else
    assert ((left_at_beginning =? 0) || (left_at_end =? 0)) ;;
    let current_length := wrap64 (e_end e - e_begin e) in
    if left_at_beginning =? 0 then
      let b := wrap64 (e_begin e + (current_length - left_at_end)) in
      wr_map i (set_e_begin b) ;;
      when (i =? 0)%nat (modify (set_seq_begin b))
    else
      let x := wrap64 (e_end e - (current_length - left_at_beginning)) in
      wr_map i (set_e_end x) ;;
      n ← gets nused;
      when (S i =? n)%nat (modify (set_seq_end x))
  else mret tt.

Fixpoint delete_loop (k i : nat) (addr length : Z) : M mapping_sequence unit :=
  match k with
  | O => mret tt
  | S k => clear_or_trim i addr length ;; delete_loop k (S i) addr length
  end.

(** Every step of the loop moves on or drops an entry. *)
Fixpoint compact_loop (k i : nat) : M mapping_sequence unit :=
  match k with
  | O => mret tt
  | S k =>
    n ← gets nused;
    if (i <? n)%nat then
      e ← rd_map i;
      if e_begin e =? 0 then
        memmove i (S i) (n - S i) ;;
        wr_map (n - 1) (fun _ => zero_mapping) ;;
        modify (set_nused (n - 1)) ;;
        compact_loop k i
      else compact_loop k (S i)
    else mret tt
  end.

Definition delete_mapping_sequence_span (addr length : Z) : M mapping_sequence unit :=
  check_mapping_sequence_sanity ;;
  delete_loop MAPPING_SEQUENCE_MAX_LEN 0 addr length ;;
  n ← gets nused;
  compact_loop n 0 ;;
  s ← gets id;
  let limit := wrap64 (addr + length) in
  when ((addr <=? seq_begin s) && (seq_begin s <? limit)) (modify (set_seq_begin limit)) ;;
  when ((addr <? seq_end s) && (seq_end s <=? limit)) (modify (set_seq_end addr)) ;;
  check_mapping_sequence_sanity.
End ops.
