(* ===== verification/MappingSeqFacts.v ===== *)
(** Correctness of mapping sequences: adding a mapping replaces what it
    overlaps and keeps the sequence contiguous; removing a span from either
    end trims it. *)
From stdpp Require Import strings.
From S2P Require Import Prelude MappingSeq.

(** ** Contiguous entries *)

Fixpoint contig (p q : Z) (l : list mapping_entry) : Prop :=
  match l with
  | [] => p = q
  | e :: l => e_begin e = p /\ p < e_end e /\ contig (e_end e) q l
  end.

Lemma contig_app p q l1 l2 : contig p q (l1 ++ l2) <-> exists m, contig p m l1 /\ contig m q l2.
Proof.
  revert p. induction l1 as [|e l1 IH]; intros p; simpl.
  - split; [by exists p|]. by intros (m & <- & ?).
  - rewrite IH. split; [intros (? & ? & m & ? & ?); by exists m|]. intros (m & (? & ? & ?) & ?). split_and!; [done..|by exists m].
Qed.

Lemma contig_le p q l : contig p q l -> p <= q.
Proof. revert p. induction l as [|e l IH]; intros p; simpl; [lia|]. intros (_ & ? & C). apply IH in C. lia. Qed.

Lemma contig_in p q l e : contig p q l -> e ∈ l -> p <= e_begin e < e_end e /\ e_end e <= q.
Proof.
  revert p. induction l as [|x l IH]; intros p; simpl; [intros _ H; by apply not_elem_of_nil in H|].
  intros (<- & Hx & C) [->|He]%elem_of_cons.
  - apply contig_le in C. lia.
  - specialize (IH _ C He). lia.
Qed.

(** What is mapped at an address, the file offset aside. *)
Definition attrs (e : mapping_entry) : Z * Z * bool * Z := (e_prot e, e_flags e, e_is_anon e, e_caller e).

Fixpoint attrs_at (l : list mapping_entry) (a : Z) : option (Z * Z * bool * Z) :=
  match l with
  | [] => None
  | e :: l => if (e_begin e <=? a) && (a <? e_end e) then Some (attrs e) else attrs_at l a
  end.

Lemma attrs_at_app l1 l2 a :
  attrs_at (l1 ++ l2) a = match attrs_at l1 a with Some x => Some x | None => attrs_at l2 a end.
Proof. induction l1 as [|e l1 IH]; simpl; [done|]. destruct (_ && _); [done|apply IH]. Qed.

Lemma attrs_at_outside p q l a : contig p q l -> ~ p <= a < q -> attrs_at l a = None.
Proof.
  intros C Ha. induction l as [|e l IH] in p, C, Ha |- *; [done|]. destruct C as (<- & He & C). simpl.
  pose proof (contig_le _ _ _ C). destruct (Z.leb_spec (e_begin e) a), (Z.ltb_spec a (e_end e)); simpl; try lia;
    apply (IH _ C); lia.
Qed.

(** The sequence around [m], read below [m] and from [m] on. *)
Lemma attrs_at_split p m q l1 l2 a : contig p m l1 -> contig m q l2 ->
  attrs_at (l1 ++ l2) a = if decide (a < m) then attrs_at l1 a else attrs_at l2 a.
Proof.
  intros C1 C2. rewrite attrs_at_app. case_decide.
  - rewrite (attrs_at_outside _ _ _ a C2) by lia. by case_match.
  - by rewrite (attrs_at_outside _ _ _ a C1) by lia.
Qed.

Lemma attrs_at_cons e l a :
  attrs_at (e :: l) a = if (e_begin e <=? a) && (a <? e_end e) then Some (attrs e) else attrs_at l a.
Proof. done. Qed.

(** ** The sequence *)

(** An entry past [nused]: cleared, or left over from the sequence's own range. *)
Definition stale (p q : Z) (e : mapping_entry) : Prop :=
  e = zero_mapping \/ p <= e_begin e < e_end e /\ e_end e <= q.

Record seq_ok (s : mapping_sequence) (es junk : list mapping_entry) : Prop := {
  sq_maps : mappings s = es ++ junk;
  sq_len : length (mappings s) = MAPPING_SEQUENCE_MAX_LEN;
  sq_nused : nused s = length es;
  sq_contig : contig (seq_begin s) (seq_end s) es;
  sq_stale : Forall (stale (seq_begin s) (seq_end s)) junk;
  sq_range : 0 < seq_begin s < seq_end s /\ seq_end s < 2 ^ 63;
}.

Lemma stale_mono p q p' q' e : p' <= p -> q <= q' -> stale p q e -> stale p' q' e.
Proof. intros ? ? [->|?]; [by left|right; lia]. Qed.

Lemma contig_stale p q l : contig p q l -> Forall (stale p q) l.
Proof. intros C. apply Forall_forall. intros e He. right. pose proof (contig_in _ _ _ _ C He). lia. Qed.

Lemma rd_map_at l1 e l2 s i : mappings s = l1 ++ e :: l2 -> i = length l1 -> rd_map i s = Done (e, s).
Proof.
  intros E ->. unfold rd_map. rewrite (bind_Done _ _ s s s) by done. by rewrite E, list_lookup_middle.
Qed.

Lemma mapping_at_mid l1 e l2 s i : mappings s = l1 ++ e :: l2 -> i = length l1 -> mapping_at s i = e.
Proof. intros E ->. unfold mapping_at. by rewrite E, list_lookup_middle. Qed.

Lemma wr_map_at l1 e l2 f s i : mappings s = l1 ++ e :: l2 -> i = length l1 ->
  wr_map i f s = Done (tt, set_mappings (l1 ++ f e :: l2) s).
Proof.
  intros E ->. unfold wr_map. rewrite (bind_Done _ _ _ _ _ (rd_map_at l1 e l2 s _ E eq_refl)).
  unfold modify. rewrite E, insert_app_r_alt, Nat.sub_diag by lia. done.
Qed.

(** The debug build's check accepts it. *)
Lemma sanity_entries_ok {B : Build} s l1 l2 l3 p m q :
  mappings s = l1 ++ l2 ++ l3 -> contig p m l1 -> contig m q l2 -> 0 < p ->
  sanity_entries (length l2) (length l1) s = Done (tt, s).
Proof.
  intros E C1 C2 Hp. induction l2 as [|e l2 IH] in l1, m, E, C1, C2 |- *; [done|].
  destruct C2 as (Hb & He & C2). pose proof (contig_le _ _ _ C1). cbn [length sanity_entries].
  rewrite (bind_Done _ _ _ _ _ (rd_map_at l1 e (l2 ++ l3) s _ E eq_refl)).
  do 3 (rewrite (bind_Done _ _ s tt s) by (apply assert_true; lia)).
  rewrite (bind_Done _ _ s tt s).
  - specialize (IH (l1 ++ [e]) (e_end e)). rewrite length_app, Nat.add_1_r in IH. apply IH; [by rewrite <- app_assoc| |done].
    apply contig_app. exists m. split; [done|]. by simpl.
  - destruct l1 as [|d l1 _] using rev_ind; [done|]. rewrite length_app, Nat.add_1_r.
    rewrite (bind_Done _ _ _ _ _ (rd_map_at l1 d (e :: l2 ++ l3) s _ ltac:(by rewrite E, <- app_assoc) eq_refl)).
    apply contig_app in C1 as (m' & _ & _ & _ & ->). apply assert_true. lia.
Qed.

Lemma sanity_ok {B : Build} s es junk : seq_ok s es junk -> check_mapping_sequence_sanity s = Done (tt, s).
Proof.
  intros [E Hl Hn C _ [Hb _]]. unfold check_mapping_sequence_sanity. destruct NDEBUG eqn:Hd; [done|].
  rewrite (bind_Done _ _ s s s) by done. destruct es as [|e es]; [simpl in C; lia|].
  rewrite Hn. cbn [length]. destruct (C) as (Hb0 & _ & _).
  rewrite (bind_Done _ _ _ _ _ (rd_map_at [] e (es ++ junk) s _ E eq_refl)).
  rewrite (bind_Done _ _ s tt s) by (apply assert_true; lia).
  destruct (exists_last (l := e :: es) ltac:(done)) as (l0 & y & El).
  assert (Hly : length es = length l0) by (apply (f_equal length) in El; rewrite length_app in El; simpl in El; lia).
  rewrite El in C. apply contig_app in C as (m & C0 & Hy & Hlt & Hq). simpl in Hq.
  rewrite (bind_Done _ _ _ _ _ (rd_map_at l0 y junk s _ ltac:(by rewrite E, El, <- app_assoc) Hly)).
  rewrite (bind_Done _ _ s tt s) by (apply assert_true; lia).
  replace (S (length es)) with (length (l0 ++ [y])) by (rewrite length_app; simpl; lia).
  apply (sanity_entries_ok s [] (l0 ++ [y]) junk (seq_begin s) (seq_begin s) (e_end y)); [by rewrite E, El|done| |lia].
  apply contig_app. exists m. split; [done|]. by simpl.
Qed.

(** ** Finding what a mapping overlaps *)

(** The first entry that reaches [a]. *)
Lemma split_first p q l a : contig p q l -> l <> [] -> p <= a <= q ->
  exists l1 x l2, l = l1 ++ x :: l2 /\ contig p (e_begin x) l1 /\ contig (e_begin x) q (x :: l2) /\
    e_begin x <= a <= e_end x /\ Forall (fun e => e_end e < a) l1.
Proof.
  induction l as [|e l IH] in p |- *; [done|]. intros (<- & He & C) _ Ha.
  destruct (decide (a <= e_end e)).
  - exists [], e, l. split_and!; [done|done| |lia..|constructor]. by simpl.
  - destruct l as [|e' l]; [simpl in C; lia|].
    destruct (IH _ C ltac:(done) ltac:(lia)) as (l1 & x & l2 & El & C1 & C2 & Hx & F).
    exists (e :: l1), x, l2. split_and!; [by rewrite El|done|done|lia..|]. constructor; [lia|done].
Qed.

(** The last entry that begins below [a]. *)
Lemma split_last p q l a : contig p q l -> p < a <= q ->
  exists l1 y l2, l = l1 ++ y :: l2 /\ contig p (e_begin y) l1 /\ contig (e_end y) q l2 /\
    e_begin y < a <= e_end y /\ Forall (fun e => a <= e_begin e) l2.
Proof.
  induction l as [|e l IH] in p |- *; [simpl; lia|]. intros (<- & He & C) Ha.
  destruct (decide (a <= e_end e)).
  - exists [], e, l. split_and!; [done|done|done|lia..|]. apply Forall_forall. intros x Hx.
    pose proof (contig_in _ _ _ _ C Hx). lia.
  - destruct (IH _ C ltac:(lia)) as (l1 & y & l2 & El & C1 & C2 & Hy & F).
    exists (e :: l1), y, l2. split_and!; [by rewrite El|done|done|lia..|done].
Qed.

Lemma first_loop_ok s b e pre x rest i l0 fuel :
  mappings s = l0 ++ pre ++ x :: rest -> i = length l0 ->
  Forall (fun d => OVERLAPS (e_begin d) (e_end d) b e = false) pre ->
  OVERLAPS (e_begin x) (e_end x) b e = true -> (length pre < fuel)%nat ->
  first_overlapped_loop fuel i b e s = Done ((length l0 + length pre)%nat, s).
Proof.
  intros E -> F Hx. revert l0 fuel E. induction pre as [|d pre IH]; intros l0 fuel E Hf;
    (destruct fuel as [|fuel]; [simpl in Hf; lia|]); cbn [first_overlapped_loop].
  - rewrite (bind_Done _ _ _ _ _ (rd_map_at l0 x rest s _ E eq_refl)), Hx. simpl. by rewrite Nat.add_0_r.
  - apply Forall_cons in F as [Hd F]. rewrite (bind_Done _ _ _ _ _ (rd_map_at l0 d (pre ++ x :: rest) s _ E eq_refl)), Hd.
    specialize (IH F (l0 ++ [d]) fuel). rewrite !length_app in IH. simpl in IH, Hf.
    replace (S (length l0)) with (length l0 + 1)%nat by lia. rewrite IH; [do 2 f_equal; simpl; lia| |lia].
    by rewrite <- app_assoc.
Qed.

Lemma last_loop_ok s b e l1 y post junk :
  mappings s = (l1 ++ y :: post) ++ junk ->
  Forall (fun d => OVERLAPS (e_begin d) (e_end d) b e = false) post ->
  OVERLAPS (e_begin y) (e_end y) b e = true ->
  last_overlapped_loop (length l1 + length post) b e s = Done (length l1, s).
Proof.
  intros E F Hy. revert junk E F. induction post as [|d post IH] using rev_ind; intros junk E F.
  - simpl. rewrite Nat.add_0_r. destruct (length l1) eqn:El; cbn [last_overlapped_loop];
      by rewrite (bind_Done _ _ _ _ _ (rd_map_at l1 y junk s _ ltac:(by rewrite E, <- app_assoc) (eq_sym El))), Hy.
  - apply Forall_app in F as [F [Hd _]%Forall_cons]. rewrite length_app. simpl.
    replace (length l1 + (length post + 1))%nat with (S (length l1 + length post)) by lia. cbn [last_overlapped_loop].
    rewrite (bind_Done _ _ _ _ _ (rd_map_at (l1 ++ y :: post) d junk s (S (length l1 + length post))
      ltac:(by rewrite E, app_comm_cons, app_assoc, <- app_assoc) ltac:(rewrite length_app; simpl; lia))), Hd.
    apply (IH ([d] ++ junk)); [|done]. by rewrite E, app_comm_cons, app_assoc, <- app_assoc.
Qed.

(** ** Moving entries *)

Lemma moved_right pre x rest j junk :
  moved (length pre + 1) (length pre) (length (x :: rest)) (pre ++ (x :: rest) ++ j :: junk) =
    pre ++ x :: (x :: rest) ++ junk.
Proof.
  unfold moved. rewrite take_app_ge, drop_app_length by lia.
  replace (length pre + 1 - length pre)%nat with 1%nat by lia. rewrite (take_app_length (x :: rest)).
  replace (length pre + 1 + length (x :: rest))%nat with (length (pre ++ (x :: rest) ++ [j])) by (rewrite !length_app; simpl; lia).
  replace (pre ++ (x :: rest) ++ j :: junk) with ((pre ++ (x :: rest) ++ [j]) ++ junk) by (by rewrite <- !app_assoc).
  rewrite drop_app_length. by rewrite <- app_assoc.
Qed.

Lemma memmove_ok dst src n s :
  (dst + n <= length (mappings s))%nat -> (src + n <= length (mappings s))%nat ->
  memmove dst src n s = Done (tt, set_mappings (moved dst src n (mappings s)) s).
Proof.
  intros Hd Hs. unfold memmove. rewrite (bind_Done _ _ s s s) by done.
  by rewrite (proj2 (Nat.leb_le _ _) Hd), (proj2 (Nat.leb_le _ _) Hs).
Qed.

Lemma copy_right_ok pre x rest j junk s :
  mappings s = pre ++ (x :: rest) ++ j :: junk -> nused s = length (pre ++ x :: rest) ->
  copy_all_right_from_by (length pre) 1 s =
    Done (tt, set_nused (S (nused s)) (set_mappings (pre ++ x :: (x :: rest) ++ junk) s)).
Proof.
  intros E En. unfold copy_all_right_from_by. rewrite (bind_Done _ _ s (nused s) s) by done.
  assert (Hn : (nused s - length pre)%nat = length (x :: rest)) by (rewrite En, length_app; lia).
  rewrite (proj2 (Nat.ltb_ge _ _)) by (rewrite En, length_app; lia). rewrite Hn.
  assert (Hl : length (mappings s) = (length pre + length (x :: rest) + S (length junk))%nat).
  { rewrite E, !length_app. simpl. lia. }
  rewrite (bind_Done _ _ _ _ _ (memmove_ok (length pre + 1) (length pre) (length (x :: rest)) s ltac:(lia) ltac:(lia))), E, moved_right.
  unfold modify. by rewrite Nat.add_1_r.
Qed.

(** The entries of [mid] are overwritten by what follows them. *)
Lemma moved_left pre mid post junk :
  exists junk', length junk' = (length mid + length junk)%nat /\
    moved (length pre) (length pre + length mid) (length post) (pre ++ mid ++ post ++ junk) = pre ++ post ++ junk' /\
    (forall d, d ∈ junk' -> d ∈ mid ++ post ++ junk).
Proof.
  exists (drop (length post) (mid ++ post ++ junk)). split_and!.
  - rewrite length_drop, !length_app. lia.
  - unfold moved. rewrite take_app_length.
    replace (drop (length pre + length mid) (pre ++ mid ++ post ++ junk)) with (post ++ junk).
    2:{ by rewrite <- length_app, app_assoc, drop_app_length. }
    rewrite take_app_length. do 2 f_equal. rewrite drop_app_ge by lia. f_equal. lia.
  - intros d Hd. rewrite <- (take_drop (length post) (mid ++ post ++ junk)). apply elem_of_app. by right.
Qed.

Lemma copy_left_ok pre x mid post junk s :
  mappings s = pre ++ x :: mid ++ post ++ junk -> nused s = length (pre ++ x :: mid ++ post) ->
  exists junk', copy_all_left_from_by (length pre + S (length mid)) (length mid) s =
      Done (tt, set_nused (length (pre ++ x :: post)) (set_mappings (pre ++ x :: post ++ junk') s)) /\
    length junk' = (length mid + length junk)%nat /\ (forall d, d ∈ junk' -> d ∈ mid ++ post ++ junk).
Proof.
  intros E En. destruct (moved_left (pre ++ [x]) mid post junk) as (junk' & Hl & Hm & Hin). exists junk'.
  split_and!; [|done..]. unfold copy_all_left_from_by. rewrite (bind_Done _ _ s (nused s) s) by done.
  rewrite !length_app in *. simpl in *. rewrite !length_app in *.
  rewrite (proj2 (Nat.ltb_ge _ _)), (proj2 (Nat.ltb_ge _ _)) by lia. cbn [orb].
  assert (Hln : length (mappings s) = (length pre + S (length mid + (length post + length junk)))%nat).
  { rewrite E, length_app. simpl. by rewrite !length_app. }
  replace (length pre + S (length mid) - length mid)%nat with (length pre + 1)%nat by lia.
  replace (length pre + S (length mid))%nat with (length pre + 1 + length mid)%nat by lia.
  replace (nused s - (length pre + 1 + length mid))%nat with (length post) by lia.
  rewrite (bind_Done _ _ _ _ _ (memmove_ok (length pre + 1) (length pre + 1 + length mid) (length post) s ltac:(lia) ltac:(lia))).
  rewrite <- !app_assoc in Hm. simpl in Hm. rewrite E, Hm. unfold modify. do 3 f_equal. lia.
Qed.

(** ** Replacing the overlapped entries *)

(** The sequence with another array. *)
Definition with_maps (l : list mapping_entry) (n : nat) (s : mapping_sequence) : mapping_sequence :=
  MappingSequence (seq_begin s) (seq_end s) (seq_filename s) n l.

Lemma with_maps_eta s : s = with_maps (mappings s) (nused s) s.
Proof. by destruct s. Qed.

Lemma wr_map_w l1 e l2 f n s i : i = length l1 ->
  wr_map i f (with_maps (l1 ++ e :: l2) n s) = Done (tt, with_maps (l1 ++ f e :: l2) n s).
Proof. intros Hi. by rewrite (wr_map_at l1 e l2 f (with_maps (l1 ++ e :: l2) n s) i eq_refl Hi). Qed.

(** What is left of the entries at the two ends of the overlap. *)
Definition left_part (b : Z) (x : mapping_entry) : list mapping_entry :=
  if e_begin x =? b then [] else [set_e_end b x].
Definition right_part (e : Z) (y : mapping_entry) : list mapping_entry :=
  if e_end y =? e then [] else [set_e_begin e y].

Section augment.
Context {B : Build} (get_highest_loaded_object_below : Z -> Z).

Lemma split_at_begin b pre x rest junk n s last :
  n = length (pre ++ x :: rest) -> (e_begin x <> b -> junk <> []) -> (length pre <= last)%nat ->
  exists junk', (if negb (e_begin x =? b) then
      copy_all_right_from_by (length pre) 1 ;;
      wr_map (length pre) (set_e_end b) ;;
      wr_map (S (length pre)) (set_e_begin b) ;;
      mret (S (length pre), if (length pre =? (if (length pre =? last)%nat then last else S last))%nat
        then S (if (length pre =? last)%nat then last else S last)
        else (if (length pre =? last)%nat then last else S last))
    else mret (length pre, last)) (with_maps (pre ++ (x :: rest) ++ junk) n s) =
    Done ((length (pre ++ left_part b x), (last + length (left_part b x))%nat),
      with_maps ((pre ++ left_part b x) ++ ((if e_begin x =? b then x else set_e_begin b x) :: rest) ++ junk')
        (n + length (left_part b x)) s) /\
    (length junk' + length (left_part b x) = length junk)%nat /\ (forall d, d ∈ junk' -> d ∈ junk).
Proof.
  intros En Hj Hlast. unfold left_part. destruct (Z.eqb_spec (e_begin x) b) as [Eb|Nb]; cbn [negb].
  - exists junk. rewrite !app_nil_r, !Nat.add_0_r. done.
  - destruct junk as [|j junk]; [by destruct (Hj Nb)|]. exists junk. split_and!; [|simpl; lia|set_solver].
    rewrite (bind_Done _ _ _ _ _ (copy_right_ok pre x rest j junk (with_maps (pre ++ (x :: rest) ++ j :: junk) n s) eq_refl En)).
    cbn [nused with_maps]. change (set_nused ?a (set_mappings ?b _)) with (with_maps b a s).
    rewrite (bind_Done _ _ _ _ _ (wr_map_w pre x ((x :: rest) ++ junk) (set_e_end b) (S n) s _ eq_refl)).
    rewrite (cons_middle (set_e_end b x)), app_assoc. cbn [app].
    rewrite (bind_Done _ _ _ _ _ (wr_map_w (pre ++ [set_e_end b x]) x (rest ++ junk) (set_e_begin b) (S n) s
      (S (length pre)) ltac:(rewrite length_app; simpl; lia))).
    unfold mret, M_ret. rewrite length_app. simpl. rewrite !Nat.add_1_r.
    do 3 f_equal. destruct (Nat.eqb_spec (length pre) last) as [->|N].
    + by rewrite Nat.eqb_refl.
    + by rewrite (proj2 (Nat.eqb_neq _ _)) by lia.
Qed.

Lemma split_at_end e pre y post junk n s :
  n = length (pre ++ y :: post) -> (e_end y <> e -> junk <> []) ->
  exists y' junk', (if negb (e_end y =? e) then
      copy_all_right_from_by (length pre) 1 ;;
      wr_map (S (length pre)) (set_e_begin e) ;;
      wr_map (length pre) (set_e_end e)
    else mret tt) (with_maps (pre ++ (y :: post) ++ junk) n s) =
    Done (tt, with_maps (pre ++ y' :: (right_part e y ++ post) ++ junk') (n + length (right_part e y)) s) /\
    (length junk' + length (right_part e y) = length junk)%nat /\ (forall d, d ∈ junk' -> d ∈ junk) /\
    e_begin y' = e_begin y /\ e_end y' = e.
Proof.
  intros En Hj. unfold right_part. destruct (Z.eqb_spec (e_end y) e) as [Ee|Ne]; cbn [negb].
  - exists y, junk. rewrite !Nat.add_0_r. done.
  - destruct junk as [|j junk]; [by destruct (Hj Ne)|]. exists (set_e_end e y), junk.
    split_and!; [|simpl; lia|set_solver|done..].
    rewrite (bind_Done _ _ _ _ _ (copy_right_ok pre y post j junk (with_maps (pre ++ (y :: post) ++ j :: junk) n s) eq_refl En)).
    cbn [nused with_maps]. change (set_nused ?a (set_mappings ?b _)) with (with_maps b a s).
    rewrite (cons_middle y), app_assoc. cbn [app].
    rewrite (bind_Done _ _ _ _ _ (wr_map_w (pre ++ [y]) y (post ++ junk) (set_e_begin e) (S n) s
      (S (length pre)) ltac:(rewrite length_app; simpl; lia))).
    rewrite <- app_assoc. simpl. rewrite (wr_map_w pre y _ (set_e_end e)) by done. by rewrite Nat.add_1_r.
Qed.

(** The entries of [mid] become one, the new one. *)
Lemma collapse pre x mid post junk n s new :
  n = length (pre ++ x :: mid ++ post) ->
  exists junk', (last ← (if (length pre <? length pre + length mid)%nat then
        copy_all_left_from_by (S (length pre + length mid)) (length pre + length mid - length pre) ;; mret (length pre)
      else mret (length pre + length mid)%nat);
    assert (length pre =? last)%nat ;;
    wr_map (length pre) (fun _ => new) ;; mret true) (with_maps (pre ++ x :: mid ++ post ++ junk) n s) =
    Done (true, with_maps ((pre ++ new :: post) ++ junk') (length (pre ++ new :: post)) s) /\
    length junk' = (length mid + length junk)%nat /\ (forall d, d ∈ junk' -> d ∈ mid ++ post ++ junk).
Proof.
  intros En.
  assert (Hass : forall t : mapping_sequence, assert (length pre =? length pre)%nat t = Done (tt, t)).
  { intros t. apply assert_true, Nat.eqb_refl. }
  assert (Hfin : forall l, (wr_map (length pre) (fun _ => new) ;; mret true) (with_maps (pre ++ x :: post ++ l) (length (pre ++ x :: post)) s) =
    Done (true, with_maps ((pre ++ new :: post) ++ l) (length (pre ++ new :: post)) s)).
  { intros l. rewrite (bind_Done _ _ _ _ _ (wr_map_w pre x (post ++ l) (fun _ => new) _ s _ eq_refl)).
    rewrite <- app_assoc. cbn [app]. by rewrite !length_app. }
  destruct mid as [|m mid].
  - exists junk. rewrite Nat.add_0_r, Nat.ltb_irrefl. split_and!; [|done|set_solver]. cbn [app] in *.
    rewrite (bind_Done _ _ _ (length pre) (with_maps (pre ++ x :: post ++ junk) n s)) by done.
    rewrite (bind_Done _ _ _ _ _ (Hass _)), En. apply Hfin.
  - destruct (copy_left_ok pre x (m :: mid) post junk (with_maps (pre ++ x :: (m :: mid) ++ post ++ junk) n s) eq_refl En)
      as (junk' & Ec & Hl & Hin). exists junk'. split_and!; [|done..].
    rewrite (proj2 (Nat.ltb_lt _ _)) by (simpl; lia).
    replace (S (length pre + length (m :: mid)))%nat with (length pre + S (length (m :: mid)))%nat by lia.
    replace (length pre + length (m :: mid) - length pre)%nat with (length (m :: mid)) by lia.
    erewrite bind_Done; [|rewrite (bind_Done _ _ _ _ _ Ec); reflexivity].
    rewrite (bind_Done _ _ _ _ _ (Hass _)). apply Hfin.
Qed.

(** The new entry in place of the overlap. *)
Definition spliced (pre : list mapping_entry) (x new y : mapping_entry) (post : list mapping_entry) (b e : Z) : list mapping_entry :=
  (pre ++ left_part b x) ++ new :: right_part e y ++ post.

Lemma spliced_contig p q pre x new y post b e :
  contig p (e_begin x) pre -> contig (e_end y) q post -> e_begin x <= b < e -> e <= e_end y ->
  e_begin new = b -> e_end new = e -> contig p q (spliced pre x new y post b e).
Proof.
  intros C1 C2 Hx Hy Hb He. unfold spliced. apply contig_app. exists b. split.
  - apply contig_app. exists (e_begin x). split; [done|]. unfold left_part. destruct (Z.eqb_spec (e_begin x) b); [done|].
    simpl. split_and!; [done|lia|done].
  - simpl. split_and!; [done|lia|]. rewrite He. apply contig_app. exists (e_end y). split; [|done].
    unfold right_part. destruct (Z.eqb_spec (e_end y) e); [done|]. simpl. split_and!; [done|lia|done].
Qed.

Lemma attrs_new (new : mapping_entry) l a : ~ e_begin new <= a < e_end new -> attrs_at (new :: l) a = attrs_at l a.
Proof. intros Ha. rewrite attrs_at_cons. destruct (Z.leb_spec (e_begin new) a), (Z.ltb_spec a (e_end new)); try done; lia. Qed.

Lemma attrs_hit (new : mapping_entry) l a : e_begin new <= a < e_end new -> attrs_at (new :: l) a = Some (attrs new).
Proof. intros Ha. rewrite attrs_at_cons. by rewrite (proj2 (Z.leb_le _ _)), (proj2 (Z.ltb_lt _ _)) by lia. Qed.

Lemma spliced_attrs p q pre x tl l1 new y post b e a :
  contig p (e_begin x) pre -> contig (e_begin x) q (x :: tl) -> x :: tl = l1 ++ y :: post ->
  contig (e_begin x) (e_begin y) l1 -> contig (e_end y) q post ->
  e_begin x <= b <= e_end x -> e_begin y < e <= e_end y -> b < e -> e_begin new = b -> e_end new = e ->
  attrs_at (spliced pre x new y post b e) a =
    if decide (b <= a < e) then Some (attrs new) else attrs_at (pre ++ x :: tl) a.
Proof.
  intros C1 Cx El Cl C2 Hx Hy Hbe Hb He. unfold spliced.
  assert (Cleft : contig p b (pre ++ left_part b x)).
  { apply contig_app. exists (e_begin x). split; [done|]. unfold left_part. destruct (Z.eqb_spec (e_begin x) b); [done|].
    simpl. split_and!; [done|lia|done]. }
  assert (Cright : contig e q (right_part e y ++ post)).
  { apply contig_app. exists (e_end y). split; [|done]. unfold right_part. destruct (Z.eqb_spec (e_end y) e); [done|].
    simpl. split_and!; [done|lia|done]. }
  rewrite (attrs_at_split p b q _ _ a Cleft) by (simpl; rewrite Hb, He; split_and!; [done|lia|done]).
  rewrite (attrs_at_split p (e_begin x) q pre (x :: tl) a C1 Cx).
  destruct (decide (a < b)) as [Ha|Ha]; [rewrite decide_False by lia|].
  - rewrite attrs_at_app. destruct (decide (a < e_begin x)) as [Hax|Hax].
    + unfold left_part. destruct (Z.eqb_spec (e_begin x) b); [by case_match|].
      rewrite attrs_new by (simpl; lia). simpl. by case_match.
    + rewrite (attrs_at_outside _ _ _ a C1) by lia. unfold left_part. destruct (Z.eqb_spec (e_begin x) b); [lia|].
      rewrite !attrs_hit by (simpl; lia). done.
  - destruct (decide (a < e)) as [Hae|Hae].
    + rewrite attrs_hit, decide_True by lia. done.
    + rewrite attrs_new, decide_False, (decide_False (P := a < e_begin x)) by lia.
      assert (Cy : contig (e_begin y) q (y :: post)) by (simpl; split_and!; [done|lia|done]).
      rewrite El, (attrs_at_split _ _ _ _ _ a Cl Cy), decide_False by lia.
      destruct (decide (a < e_end y)) as [Hay|Hay].
      * rewrite (attrs_hit y) by lia. unfold right_part. destruct (Z.eqb_spec (e_end y) e); [lia|].
        cbn [app]. by rewrite attrs_hit by (simpl; lia).
      * rewrite (attrs_new y) by lia. unfold right_part. destruct (Z.eqb_spec (e_end y) e); [done|].
        cbn [app]. by rewrite attrs_new by (simpl; lia).
Qed.

(** The entries overlapped by [b, e): from [x] to [y]. *)
Record overlapped (s : mapping_sequence) (es : list mapping_entry) (b e : Z)
    (pre : list mapping_entry) (x : mapping_entry) (tl l1 : list mapping_entry) (y : mapping_entry)
    (post : list mapping_entry) : Prop := {
  ov_es : es = pre ++ x :: tl;
  ov_tl : x :: tl = l1 ++ y :: post;
  ov_pre : contig (seq_begin s) (e_begin x) pre;
  ov_x : contig (e_begin x) (seq_end s) (x :: tl);
  ov_l1 : contig (e_begin x) (e_begin y) l1;
  ov_post : contig (e_end y) (seq_end s) post;
  ov_b : e_begin x <= b <= e_end x;
  ov_e : e_begin y < e;
  ov_y : b <= e_end y;
  ov_before : Forall (fun d => e_end d < b) pre;
  ov_after : Forall (fun d => e <= e_begin d) post;
}.

Lemma overlapped_ex s es junk b e :
  seq_ok s es junk -> seq_begin s <= b < e -> e <= seq_end s ->
  exists pre x tl l1 y post, overlapped s es b e pre x tl l1 y post /\ e <= e_end y.
Proof.
  intros Ok Hb He. pose proof (sq_range _ _ _ Ok).
  destruct (split_first _ _ es b (sq_contig _ _ _ Ok)) as (pre & x & tl & Ees & C1 & Cx & Hx & F1); [|lia|].
  { intros ->. pose proof (sq_contig _ _ _ Ok) as C. simpl in C. lia. }
  destruct (split_last _ _ _ e Cx) as (l1 & y & post & El & C2 & C3 & Hy & F2); [lia|].
  exists pre, x, tl, l1, y, post. split; [split; (done || lia)|lia].
Qed.

Lemma OVERLAPS_true b1 e1 b e : b1 < e -> b <= e1 -> OVERLAPS b1 e1 b e = true.
Proof. intros. unfold OVERLAPS. by rewrite (proj2 (Z.ltb_lt _ _)), (proj2 (Z.leb_le _ _)). Qed.

(** Both searches of [augment_overlap] find the ends of the overlap. *)
Lemma locate s es junk b e pre x tl l1 y post :
  seq_ok s es junk -> b < e -> overlapped s es b e pre x tl l1 y post ->
  first_overlapped_loop (S (length (mappings s))) 0 b e s = Done (length pre, s) /\
  match nused s with O => abort | S i => last_overlapped_loop i b e end s = Done ((length pre + length l1)%nat, s) /\
  mapping_at s (length pre) = x /\ mapping_at s (length pre + length l1) = y.
Proof.
  intros Ok Hbe O. destruct (O) as [Ees El _ _ _ _ Hx Hy Hby F1 F2].
  assert (Em : mappings s = pre ++ x :: tl ++ junk) by (rewrite (sq_maps _ _ _ Ok), Ees; by rewrite <- app_assoc).
  assert (Em' : mappings s = ((pre ++ l1) ++ y :: post) ++ junk).
  { rewrite (sq_maps _ _ _ Ok), Ees, El. by rewrite <- !app_assoc. }
  split_and!.
  - apply (first_loop_ok s b e pre x (tl ++ junk) 0 []); [done..| | |rewrite Em, length_app; lia].
    + eapply Forall_impl; [exact F1|]. intros d Hd. unfold OVERLAPS. by rewrite (proj2 (Z.leb_gt _ _)), andb_false_r.
    + apply OVERLAPS_true; lia.
  - rewrite (sq_nused _ _ _ Ok), Ees, El, !length_app. simpl.
    replace (length pre + (length l1 + S (length post)))%nat with (S (length (pre ++ l1) + length post)) by (rewrite length_app; lia).
    rewrite (last_loop_ok s b e (pre ++ l1) y post junk Em'); [by rewrite length_app| |apply OVERLAPS_true; lia].
    eapply Forall_impl; [exact F2|]. intros d Hd. unfold OVERLAPS. by rewrite (proj2 (Z.ltb_ge _ _)).
  - by apply (mapping_at_mid pre x (tl ++ junk)).
  - apply (mapping_at_mid (pre ++ l1) y (post ++ junk)); [by rewrite Em', <- app_assoc|by rewrite length_app].
Qed.

(** An array element that is none of the sequence's, after the splice. *)
Lemma stale_after s es junk b e pre x tl l1 y post d y' :
  seq_ok s es junk -> b < e -> overlapped s es b e pre x tl l1 y post -> e <= e_end y ->
  e_begin y' = e_begin y -> e_end y' = e ->
  d ∈ tail l1 ++ [y'] \/ d ∈ right_part e y ++ post \/ d ∈ junk -> stale (seq_begin s) (seq_end s) d.
Proof.
  intros Ok Hbe O Hey Hb' He' Hd. destruct (O) as [Ees El C1 Cx Cl Cp Hx Hy Hby F1 F2].
  pose proof (contig_le _ _ _ C1). pose proof (contig_le _ _ _ Cp). pose proof (contig_le _ _ _ Cl).
  destruct Hd as [[Hd|Hd]%elem_of_app|[[Hd|Hd]%elem_of_app|Hd]].
  - assert (Hd' : d ∈ l1) by (destruct l1; [done|by right]).
    pose proof (contig_in _ _ _ _ Cl Hd'). right. lia.
  - apply list_elem_of_singleton in Hd as ->. right. lia.
  - unfold right_part in Hd. destruct (Z.eqb_spec (e_end y) e); [by apply not_elem_of_nil in Hd|].
    apply list_elem_of_singleton in Hd as ->. right. simpl. lia.
  - pose proof (contig_in _ _ _ _ Cp Hd). right. lia.
  - pose proof (sq_stale _ _ _ Ok) as F. rewrite Forall_forall in F. by apply F.
Qed.

(** The array work, once the overlap is located and there is room. *)
Lemma splice_ok s es junk b e pre x tl l1 y post new :
  seq_ok s es junk -> b < e -> overlapped s es b e pre x tl l1 y post ->
  (length (left_part b x) + length (right_part e y) <= length junk)%nat ->
  exists junk', (fl ← (if negb (e_begin x =? b) then
        copy_all_right_from_by (length pre) 1 ;;
        wr_map (length pre) (set_e_end b) ;;
        wr_map (S (length pre)) (set_e_begin b) ;;
        mret (S (length pre),
          if (length pre =? (if (length pre =? length pre + length l1)%nat then length pre + length l1 else S (length pre + length l1)))%nat
          then S (if (length pre =? length pre + length l1)%nat then length pre + length l1 else S (length pre + length l1))
          else (if (length pre =? length pre + length l1)%nat then length pre + length l1 else S (length pre + length l1)))%nat
      else mret (length pre, (length pre + length l1)%nat));
    (if negb (e_end y =? e) then
       copy_all_right_from_by (snd fl) 1 ;;
       wr_map (S (snd fl)) (set_e_begin e) ;;
       wr_map (snd fl) (set_e_end e)
     else mret tt) ;;
    assert (fst fl <=? snd fl)%nat ;;
    last ← (if (fst fl <? snd fl)%nat then
              copy_all_left_from_by (S (snd fl)) (snd fl - fst fl) ;; mret (fst fl)
            else mret (snd fl));
    assert (fst fl =? last)%nat ;;
    wr_map (fst fl) (fun _ => new) ;;
    mret true) s =
    Done (true, with_maps (spliced pre x new y post b e ++ junk') (length (spliced pre x new y post b e)) s) /\
    (e <= e_end y -> Forall (stale (seq_begin s) (seq_end s)) junk') /\
    length (spliced pre x new y post b e ++ junk') = MAPPING_SEQUENCE_MAX_LEN.
Proof.
  intros Ok Hbe O Hroom. destruct (O) as [Ees El _ _ _ _ Hx Hy Hby _ _].
  assert (Es : s = with_maps (pre ++ (x :: tl) ++ junk) (length (pre ++ x :: tl)) s).
  { rewrite (with_maps_eta s) at 1. by rewrite (sq_maps _ _ _ Ok), (sq_nused _ _ _ Ok), Ees, <- app_assoc. }
  assert (Hlen : (length (pre ++ x :: tl) + length junk)%nat = MAPPING_SEQUENCE_MAX_LEN).
  { rewrite <- Ees, <- length_app, <- (sq_maps _ _ _ Ok). apply Ok. }
  destruct (split_at_begin b pre x tl junk _ s (length pre + length l1) eq_refl) as (junk1 & E1 & Hl1 & In1); [|lia|].
  { unfold left_part in Hroom. intros N ->. rewrite (proj2 (Z.eqb_neq _ _) N) in Hroom. simpl in Hroom. lia. }
  rewrite Es. rewrite (bind_Done _ _ _ _ _ E1). cbn [fst snd]. clear E1.
  set (x1 := if e_begin x =? b then x else set_e_begin b x). set (pre1 := pre ++ left_part b x).
  set (y1 := match l1 with [] => x1 | _ => y end).
  set (l1' := match l1 with [] => [] | _ :: t => x1 :: t end).
  assert (El1 : x1 :: tl = l1' ++ y1 :: post) by (destruct l1; simpl in El; injection El as ? ?; subst; done).
  assert (Hle : length l1' = length l1) by (by destruct l1).
  assert (Ey : e_end y1 = e_end y /\ right_part e y1 = right_part e y).
  { unfold y1, x1, right_part. destruct l1; [|done]. simpl in El. injection El as -> _. by destruct (e_begin y =? b). }
  destruct Ey as [Ey Er].
  assert (Hlast : (length pre + length l1 + length (left_part b x))%nat = length (pre1 ++ l1')).
  { unfold pre1. rewrite !length_app. lia. }
  replace (pre1 ++ (x1 :: tl) ++ junk1) with ((pre1 ++ l1') ++ (y1 :: post) ++ junk1) by (rewrite El1; by rewrite <- !app_assoc).
  rewrite Hlast, <- Ey.
  destruct (split_at_end e (pre1 ++ l1') y1 post junk1 (length (pre ++ x :: tl) + length (left_part b x)) s)
    as (y' & junk2 & E2 & Hl2 & In2 & Hb' & He').
  { rewrite <- app_assoc, <- El1. unfold pre1. rewrite !length_app. simpl. lia. }
  { intros N ->. rewrite <- Er in Hroom. unfold right_part in Hroom. rewrite (proj2 (Z.eqb_neq _ _) N) in Hroom. simpl in *. lia. }
  rewrite (bind_Done _ _ _ _ _ E2), Er in *. clear E2.
  assert (Hfl : (length pre1 <=? length (pre1 ++ l1'))%nat = true) by (apply Nat.leb_le; rewrite length_app; lia).
  rewrite (bind_Done _ _ _ _ _ (assert_true _ _ Hfl)).
  set (h := match l1' with [] => y' | _ => x1 end). set (mid := match l1' with [] => [] | _ :: t => t ++ [y'] end).
  assert (Em : (pre1 ++ l1') ++ y' :: (right_part e y ++ post) ++ junk2 = pre1 ++ h :: mid ++ (right_part e y ++ post) ++ junk2).
  { rewrite <- app_assoc. f_equal. unfold h, mid, l1'. destruct l1 as [|z t]; [done|]. simpl. by rewrite <- (app_assoc t [y']). }
  assert (Hm : length mid = length l1') by (unfold mid; destruct l1'; [done|rewrite length_app; simpl; lia]).
  rewrite Em, (length_app pre1 l1'), <- Hm.
  destruct (collapse pre1 h mid (right_part e y ++ post) junk2 (length (pre ++ x :: tl) + length (left_part b x) + length (right_part e y))
    s new) as (junk' & E3 & Hl3 & In3).
  { apply (f_equal length) in El1. unfold pre1. rewrite !length_app in *. simpl in *.
    rewrite !length_app in *. simpl in *. lia. }
  exists junk'. split_and!; [exact E3| |].
  - intros Hey. rewrite Ey in Hey. apply Forall_forall. intros d Hd. apply In3 in Hd. rewrite !elem_of_app in Hd.
    destruct l1 as [|z l1]; simpl in mid, l1'.
    + destruct Hd as [Hd|[Hd|Hd]]; [by apply not_elem_of_nil in Hd| |].
      * apply (stale_after s es junk b e pre x tl [] y post d (set_e_end e y)); try done. right. left. by apply elem_of_app.
      * apply (stale_after s es junk b e pre x tl [] y post d (set_e_end e y)); try done. right. right. by apply In1, In2.
    + apply (stale_after s es junk b e pre x tl (z :: l1) y post d y'); try done. rewrite (elem_of_app (right_part e y)).
      destruct Hd as [Hd|[Hd|Hd]]; [by left|by right; left|right; right; by apply In1, In2].
  - unfold spliced. fold pre1. rewrite !length_app in *. simpl in *. rewrite !length_app in *.
    assert (length tl = (length l1 + length post)%nat).
    { apply (f_equal length) in El. rewrite length_app in El. simpl in El. lia. }
    unfold pre1. rewrite length_app. lia.
Qed.

(** ** The whole operation *)

Abbreviation augment := (augment_sequence get_highest_loaded_object_below).
Abbreviation overlap := (augment_overlap get_highest_loaded_object_below).

(** The new mapping is as anonymous as the sequence, or maps its file and
    comes from the same object as the entries, none of which is anonymous. *)
Definition agrees (s : mapping_sequence) (es : list mapping_entry) (file : option string) (caller : Z) : Prop :=
  (file = None /\ seq_filename s = None) \/
  (is_Some file /\ seq_filename s = file /\
   Forall (fun e => e_is_anon e = false /\
     (caller = 0 \/ e_caller e = 0 \/ same_object get_highest_loaded_object_below caller (e_caller e) = true)) es).

Lemma agrees_name s es file caller : agrees s es file caller -> seq_filename s = file.
Proof. intros [[-> Hs]|(_ & Hs & _)]; congruence. Qed.

Lemma agrees_consistent s es junk file caller first last bp ep :
  seq_ok s es junk -> agrees s es file caller -> (first <= last < nused s)%nat ->
  filename_is_consistent_2 get_highest_loaded_object_below s file caller first last bp ep = true.
Proof.
  intros Ok [[-> Hs]|([f ->] & Hs & F)] Hr; unfold filename_is_consistent_2; rewrite Hs; [done|].
  cbn [is_null negb andb orb]. rewrite (proj2 (Nat.eqb_neq _ _)) by lia. cbn [same_name]. rewrite bool_decide_eq_true_2 by done.
  cbn [negb].
  assert (Hin : forall i, (i < nused s)%nat -> exists d, mapping_at s i = d /\ d ∈ es).
  { intros i Hi. rewrite (sq_nused _ _ _ Ok) in Hi. destruct (lookup_lt_is_Some_2 es i Hi) as [d Hd].
    exists d. split; [|by eapply list_elem_of_lookup_2]. unfold mapping_at. by rewrite (sq_maps _ _ _ Ok), lookup_app_l, Hd by done. }
  rewrite Forall_forall in F.
  assert (Ha : forall i, (i < nused s)%nat -> e_is_anon (mapping_at s i) = false).
  { intros i Hi. destruct (Hin i Hi) as (d & -> & Hd). by apply F. }
  destruct (Hin first ltac:(lia)) as (d & Ed & Hd). rewrite Ed. destruct (F d Hd) as [_ Hc].
  apply andb_true_intro. split.
  - apply negb_true_iff, orb_false_iff. split; [|by destruct (_ <=? _)%nat].
    destruct bp; [rewrite Ha by lia; done|]. destruct first; [done|]. by rewrite Ha by lia.
  - rewrite !orb_true_iff, !Z.eqb_eq. naive_solver.
Qed.

(** What [augment_overlap] does once the overlap is located. *)
Lemma overlap_run s es junk b e prot flags off file caller pre x tl l1 y post :
  seq_ok s es junk -> b < e -> overlapped s es b e pre x tl l1 y post ->
  exists r s', overlap b e prot flags off file caller s = Done (r, s') /\
    (r = false -> s' = s) /\
    (r = true -> let new := new_entry b e prot flags off file caller in
       exists junk', s' = with_maps (spliced pre x new y post b e ++ junk') (length (spliced pre x new y post b e)) s /\
         (e <= e_end y -> Forall (stale (seq_begin s) (seq_end s)) junk') /\
         length (spliced pre x new y post b e ++ junk') = MAPPING_SEQUENCE_MAX_LEN) /\
    (agrees s es file caller -> (nused s + 2 <= MAPPING_SEQUENCE_MAX_LEN)%nat -> r = true).
Proof.
  intros Ok Hbe O. destruct (locate _ _ _ _ _ _ _ _ _ _ _ Ok Hbe O) as (Ef & El & Mf & Ml).
  unfold augment_overlap. rewrite (bind_Done _ _ s s s) by done. rewrite (bind_Done _ _ _ _ _ Ef), (bind_Done _ _ _ _ _ El).
  cbv zeta. rewrite Mf, Ml.
  assert (Hl : (length pre <= length pre + length l1 < nused s)%nat).
  { rewrite (sq_nused _ _ _ Ok), (ov_es _ _ _ _ _ _ _ _ _ _ O), (ov_tl _ _ _ _ _ _ _ _ _ _ O), !length_app. simpl. lia. }
  pose proof (agrees_consistent s es junk file caller (length pre) (length pre + length l1)
    (negb (e_begin x =? b)) (negb (e_end y =? e)) Ok) as Hagr.
  destruct (filename_is_consistent_2 _ _ _ _ _ _ _ _); cbn [negb].
  2:{ exists false, s. split_and!; [done..|]. intros Ha _. by specialize (Hagr Ha Hl). }
  destruct (Nat.ltb_spec (MAPPING_SEQUENCE_MAX_LEN - nused s) (Nat.b2n (negb (e_begin x =? b)) + Nat.b2n (negb (e_end y =? e)))).
  { exists false, s. split_and!; [done..|]. intros _ Hn. exfalso. destruct (e_begin x =? b), (e_end y =? e); simpl in *; lia. }
  destruct (splice_ok s es junk b e pre x tl l1 y post (new_entry b e prot flags off file caller) Ok Hbe O) as (junk' & E & F & Hn).
  { assert (nused s + length junk = MAPPING_SEQUENCE_MAX_LEN)%nat.
    { by rewrite (sq_nused _ _ _ Ok), <- length_app, <- (sq_maps _ _ _ Ok), (sq_len _ _ _ Ok). }
    unfold left_part, right_part. destruct (e_begin x =? b), (e_end y =? e); simpl in *; lia. }
  exists true. eexists. split_and!; [exact E|done| |done]. intros _. by exists junk'.
Qed.

Lemma augment_sequence_overlap s es junk b e prot flags off file caller :
  seq_ok s es junk -> seq_begin s <= b < seq_end s -> b < e -> (nused s < MAPPING_SEQUENCE_MAX_LEN)%nat ->
  augment b e prot flags off file caller s =
    (r ← overlap b e prot flags off file caller; check_mapping_sequence_sanity ;; mret r) s.
Proof.
  intros Ok Hb He Hn. pose proof (sq_range _ _ _ Ok). unfold augment_sequence.
  rewrite (bind_Done _ _ _ _ _ (sanity_ok s es junk Ok)), (bind_Done _ _ s s s) by done. cbv zeta.
  rewrite (proj2 (Z.eqb_neq _ 0)), (proj2 (Z.eqb_neq (seq_end s) b)) by lia. cbn [orb].
  rewrite OVERLAPS_true by lia. rewrite (proj2 (Z.leb_le _ _)), (proj2 (Nat.eqb_neq _ _)) by lia. done.
Qed.

(** A mapping within the sequence replaces what it overlaps. *)
Lemma augment_replaces_ok s es junk b e prot flags off file caller :
  seq_ok s es junk -> seq_begin s <= b < e -> e <= seq_end s ->
  exists r s' es' junk', augment b e prot flags off file caller s = Done (r, s') /\ seq_ok s' es' junk' /\
    seq_begin s' = seq_begin s /\ seq_end s' = seq_end s /\ seq_filename s' = seq_filename s /\
    (r = false -> s' = s) /\
    (r = true -> forall a, attrs_at es' a =
       if decide (b <= a < e) then Some (prot, flags, is_null file, caller) else attrs_at es a) /\
    (agrees s es file caller -> (nused s + 2 <= MAPPING_SEQUENCE_MAX_LEN)%nat -> r = true).
Proof.
  intros Ok Hb He. destruct (decide (nused s < MAPPING_SEQUENCE_MAX_LEN)%nat) as [Hn|Hn].
  2:{ exists false, s, es, junk. split_and!; try done; [|lia]. unfold augment_sequence.
      rewrite (bind_Done _ _ _ _ _ (sanity_ok s es junk Ok)), (bind_Done _ _ s s s) by done. cbv zeta.
      assert (nused s <= MAPPING_SEQUENCE_MAX_LEN)%nat.
      { rewrite (sq_nused _ _ _ Ok), <- (sq_len _ _ _ Ok), (sq_maps _ _ _ Ok), length_app. lia. }
      rewrite (proj2 (Nat.eqb_eq _ _)) by lia. cbn [negb]. rewrite andb_false_r, (bind_Done _ _ s false s) by done.
      by rewrite (bind_Done _ _ _ _ _ (sanity_ok s es junk Ok)). }
  rewrite (augment_sequence_overlap s es junk) by (done || lia).
  destruct (overlapped_ex s es junk b e Ok Hb He) as (pre & x & tl & l1 & y & post & O & Hey).
  destruct (overlap_run s es junk b e prot flags off file caller _ _ _ _ _ _ Ok ltac:(lia) O) as (r & s' & Er & Hf & Ht & Hag).
  rewrite (bind_Done _ _ _ _ _ Er). destruct r.
  - destruct (Ht eq_refl) as (junk' & Es' & F & Hl). specialize (F Hey).
    set (new := new_entry b e prot flags off file caller) in *. set (es' := spliced pre x new y post b e) in *.
    destruct O as [Ees Etl C1 Cx Cl Cp Hx Hy Hby _ _].
    assert (Ok' : seq_ok s' es' junk').
    { rewrite Es'. split; try done; [|apply Ok]. apply spliced_contig; (done || simpl; lia). }
    exists true, s', es', junk'. split_and!; try done; [|by rewrite Es'..|].
    + by rewrite (bind_Done _ _ _ _ _ (sanity_ok s' es' junk' Ok')).
    + intros _ a. unfold es'. rewrite (spliced_attrs (seq_begin s) (seq_end s) pre x tl l1 new y post b e a); try (done || lia).
      by rewrite Ees.
  - rewrite (Hf eq_refl) in *. exists false, s, es, junk. split_and!; try done.
    by rewrite (bind_Done _ _ _ _ _ (sanity_ok s es junk Ok)).
Qed.
End augment.

(** ** A mapping that runs past the end *)

Lemma assert_then_abort {B : Build} {S A} (b : bool) (m : M S A) (s : S) : m s = Abort -> (assert b ;; m) s = Abort.
Proof. intros E. unfold assert, mbind, M_bind. destruct NDEBUG, b; by simpl. Qed.

Lemma sanity_entries_bad s l1 l2 l3 d :
  mappings s = l1 ++ l2 ++ l3 -> d ∈ l2 -> e_end d <= e_begin d ->
  sanity_entries (B := debug) (length l2) (length l1) s = Abort.
Proof.
  intros E Hd Hbad. induction l2 as [|e l2 IH] in l1, E, Hd |- *; [by apply not_elem_of_nil in Hd|].
  cbn [length sanity_entries]. rewrite (bind_Done _ _ _ _ _ (rd_map_at l1 e (l2 ++ l3) s _ E eq_refl)).
  do 2 apply assert_then_abort. apply elem_of_cons in Hd as [<-|Hd].
  - unfold mbind at 1, M_bind at 1, assert. cbn [NDEBUG debug]. by rewrite (proj2 (Z.ltb_ge _ _)).
  - apply assert_then_abort. specialize (IH (l1 ++ [e])). rewrite length_app, Nat.add_1_r in IH.
    specialize (IH ltac:(by rewrite E, <- app_assoc) Hd).
    destruct l1 as [|c l1 _] using rev_ind; [done|]. rewrite length_app, Nat.add_1_r in *.
    cbn [mbind M_bind]. unfold mbind at 1, M_bind at 1.
    rewrite (bind_Done _ _ _ _ _ (rd_map_at l1 c (e :: l2 ++ l3) s _ ltac:(by rewrite E, <- app_assoc) eq_refl)).
    unfold assert. cbn [NDEBUG debug]. by destruct (_ =? _).
Qed.

Lemma sanity_bad s es junk d :
  mappings s = es ++ junk -> nused s = length es -> d ∈ es -> e_end d <= e_begin d ->
  check_mapping_sequence_sanity (B := debug) s = Abort.
Proof.
  intros E En Hd Hbad. unfold check_mapping_sequence_sanity. cbn [NDEBUG debug]. rewrite (bind_Done _ _ s s s) by done.
  destruct es as [|e es]; [by apply not_elem_of_nil in Hd|]. rewrite En. cbn [length].
  rewrite (bind_Done _ _ _ _ _ (rd_map_at [] e (es ++ junk) s _ E eq_refl)). apply assert_then_abort.
  destruct (exists_last (l := e :: es) ltac:(done)) as (l0 & y & El).
  assert (Hly : length es = length l0) by (apply (f_equal length) in El; rewrite length_app in El; simpl in El; lia).
  rewrite (bind_Done _ _ _ _ _ (rd_map_at l0 y junk s _ ltac:(by rewrite E, El, <- app_assoc) Hly)). apply assert_then_abort.
  by apply (sanity_entries_bad s [] (e :: es) junk d).
Qed.

Section overrun.
Context (get_highest_loaded_object_below : Z -> Z).

Lemma augment_overrun_ok s es junk b e prot flags off file caller :
  seq_ok s es junk -> seq_begin s <= b < seq_end s -> seq_end s < e ->
  agrees get_highest_loaded_object_below s es file caller -> (nused s + 2 <= MAPPING_SEQUENCE_MAX_LEN)%nat ->
  augment_sequence (B := debug) get_highest_loaded_object_below b e prot flags off file caller s = Abort.
Proof.
  intros Ok Hb He Hag Hn. unfold MAPPING_SEQUENCE_MAX_LEN in Hn.
  rewrite (augment_sequence_overlap _ s es junk) by (done || lia || (unfold MAPPING_SEQUENCE_MAX_LEN; lia)).
  destruct (split_first _ _ es b (sq_contig _ _ _ Ok)) as (pre & x & tl & Ees & C1 & Cx & Hx & F1); [|lia|].
  { intros ->. pose proof (sq_contig _ _ _ Ok) as C. simpl in C. lia. }
  destruct (exists_last (l := x :: tl) ltac:(done)) as (l1 & y & El).
  pose proof Cx as C. rewrite El in C. apply contig_app in C as (m & Cl & <- & Hy & Cp).
  assert (O : overlapped s es b e pre x tl l1 y []).
  { split; try done; simpl in Cp; try lia. }
  destruct (overlap_run (B := debug) get_highest_loaded_object_below s es junk b e prot flags off file caller
    _ _ _ _ _ _ Ok ltac:(lia) O) as (r & s' & Er & _ & Ht & Hr). specialize (Hr Hag Hn) as ->.
  destruct (Ht eq_refl) as (junk' & -> & _). rewrite (bind_Done _ _ _ _ _ Er).
  unfold mbind at 1, M_bind at 1. erewrite (sanity_bad _ _ _ (set_e_begin e y)); [done|reflexivity|reflexivity| |].
  - unfold spliced, right_part. rewrite (proj2 (Z.eqb_neq _ _)) by (simpl in Cp; lia). set_solver.
  - simpl in *. lia.
Qed.
End overrun.

(** ** A mapping after the last one *)

Section extension.
Context {B : Build} (get_highest_loaded_object_below : Z -> Z).

Lemma augment_clean_ok s es j junk b e prot flags off file caller :
  mappings s = es ++ j :: junk -> nused s = length es ->
  augment_clean get_highest_loaded_object_below b e prot flags off file caller s =
    if filename_is_consistent_1 get_highest_loaded_object_below s prot file caller then
      Done (true, MappingSequence (if seq_begin s =? 0 then b else seq_begin s) e
        (if is_null (seq_filename s) then file else seq_filename s) (S (nused s))
        (es ++ new_entry b e prot flags off file caller :: junk))
    else Done (false, s).
Proof.
  intros E En. unfold augment_clean. rewrite (bind_Done _ _ s s s) by done.
  destruct (filename_is_consistent_1 _ _ _ _ _); cbn [negb]; [|done].
  set (s1 := if seq_begin s =? 0 then set_seq_begin b s else s).
  rewrite (bind_Done _ _ s tt s1) by (unfold s1; by destruct (_ =? _)). rewrite (bind_Done _ _ s1 tt (set_seq_end e s1)) by done.
  set (s2 := if is_null (seq_filename s) then set_filename file (set_seq_end e s1) else set_seq_end e s1).
  rewrite (bind_Done _ _ _ tt s2) by (unfold s2; by destruct (is_null _)).
  assert (E2 : mappings s2 = es ++ j :: junk) by (unfold s2, s1; by destruct (is_null _), (_ =? _)).
  rewrite (bind_Done _ _ _ _ _ (wr_map_at es j junk _ s2 _ E2 En)).
  rewrite (bind_Done _ _ _ tt _ eq_refl). unfold mret, M_ret, s2, s1. by destruct (is_null _), (_ =? _).
Qed.

Lemma augment_extends_ok s es junk e prot flags off file caller :
  seq_ok s es junk -> seq_end s < e < 2 ^ 63 ->
  exists r s' es' junk', augment_sequence get_highest_loaded_object_below (seq_end s) e prot flags off file caller s = Done (r, s') /\
    seq_ok s' es' junk' /\ (r = false -> s' = s) /\
    (r = true -> es' = es ++ [new_entry (seq_end s) e prot flags off file caller] /\
       seq_begin s' = seq_begin s /\ seq_end s' = e) /\
    (seq_filename s = file -> (nused s < MAPPING_SEQUENCE_MAX_LEN)%nat -> r = true /\ seq_filename s' = file).
Proof.
  intros Ok He. pose proof (sq_range _ _ _ Ok) as Hr.
  assert (Hnj : (nused s + length junk = MAPPING_SEQUENCE_MAX_LEN)%nat).
  { by rewrite (sq_nused _ _ _ Ok), <- length_app, <- (sq_maps _ _ _ Ok), (sq_len _ _ _ Ok). }
  unfold augment_sequence. rewrite (bind_Done _ _ _ _ _ (sanity_ok s es junk Ok)), (bind_Done _ _ s s s) by done. cbv zeta.
  rewrite Z.eqb_refl, orb_true_r, (proj2 (Z.leb_le _ _)) by lia. cbn [orb andb].
  assert (Hno : exists r s' es' junk', (check_mapping_sequence_sanity ;; mret false) s = Done (r, s') /\
    seq_ok s' es' junk' /\ r = false /\ s' = s).
  { exists false, s, es, junk. split_and!; try done. by rewrite (bind_Done _ _ _ _ _ (sanity_ok s es junk Ok)). }
  destruct Hno as (r0 & s0 & es0 & junk0 & E0 & Ok0 & -> & ->).
  destruct junk as [|j junk]; simpl in Hnj.
  { rewrite (proj2 (Nat.eqb_eq _ _)) by lia. cbn [negb]. rewrite (bind_Done _ _ s false s) by done.
    exists false, s, es0, junk0. split_and!; try done. intros _ ?. lia. }
  rewrite (proj2 (Nat.eqb_neq _ _)) by lia. cbn [negb]. unfold mbind at 1, M_bind at 1.
  rewrite (augment_clean_ok s es j junk _ e prot flags off file caller (sq_maps _ _ _ Ok) (sq_nused _ _ _ Ok)).
  destruct (filename_is_consistent_1 _ _ _ _ _) eqn:Ec.
  - rewrite (proj2 (Z.eqb_neq (seq_begin s) 0)) by lia.
    set (new := new_entry (seq_end s) e prot flags off file caller).
    match goal with |- context [MappingSequence ?a ?b ?c ?d ?l] => set (s' := MappingSequence a b c d l) end.
    assert (Ok' : seq_ok s' (es ++ [new]) junk).
    { split; cbn [s' mappings nused seq_begin seq_end]; [by rewrite <- app_assoc| | | | |lia].
      - rewrite length_app. simpl. rewrite <- (sq_nused _ _ _ Ok). lia.
      - rewrite length_app, (sq_nused _ _ _ Ok). simpl. lia.
      - apply contig_app. exists (seq_end s). split; [apply Ok|]. simpl. split_and!; [done|lia|done].
      - pose proof (sq_stale _ _ _ Ok) as F. apply Forall_cons in F as [_ F]. eapply Forall_impl; [exact F|].
        intros d. apply stale_mono; lia. }
    exists true, s', (es ++ [new]), junk. split_and!; try done.
    + by rewrite (bind_Done _ _ _ _ _ (sanity_ok _ _ _ Ok')).
    + intros Ef _. split; [done|]. cbn [s' seq_filename]. rewrite Ef. by destruct file.
  - exists false, s, es0, junk0. split_and!; try done. intros Ha _. exfalso.
    assert (filename_is_consistent_1 get_highest_loaded_object_below s prot file caller = true); [|congruence].
    unfold filename_is_consistent_1. rewrite Ha. destruct file as [f|]; [|done].
    cbn [is_null andb]. rewrite !andb_false_r. cbn [same_name orb]. rewrite bool_decide_eq_true_2 by done. apply orb_true_r.
Qed.

(** The first mapping of a sequence. *)
Lemma augment_fresh_ok b e prot flags off file caller : 0 < b < e -> e < 2 ^ 63 ->
  let new := new_entry b e prot flags off file caller in
  let s' := MappingSequence b e file 1 (new :: replicate 7 zero_mapping) in
  augment_sequence get_highest_loaded_object_below b e prot flags off file caller zero_sequence = Done (true, s') /\
  seq_ok s' [new] (replicate 7 zero_mapping).
Proof.
  intros Hb He new s'.
  assert (Ok' : seq_ok s' [new] (replicate 7 zero_mapping)).
  { split; cbn [s' seq_begin seq_end]; [done..| | |lia].
    - simpl. split_and!; [done|lia|done].
    - apply Forall_replicate. by left. }
  split; [|done]. unfold augment_sequence.
  assert (Hs : check_mapping_sequence_sanity zero_sequence = Done (tt, zero_sequence)).
  { unfold check_mapping_sequence_sanity. by destruct NDEBUG. }
  rewrite (bind_Done _ _ _ _ _ Hs), (bind_Done _ _ _ zero_sequence zero_sequence) by done.
  cbn [zero_sequence seq_end seq_begin nused]. rewrite (proj2 (Z.leb_le 0 b)) by lia. cbn [Z.eqb orb andb negb Nat.eqb MAPPING_SEQUENCE_MAX_LEN].
  unfold mbind at 1, M_bind at 1. fold zero_sequence.
  rewrite (augment_clean_ok zero_sequence [] zero_mapping (replicate 7 zero_mapping) b e prot flags off file caller eq_refl eq_refl).
  replace (filename_is_consistent_1 _ zero_sequence prot file caller) with true by (unfold filename_is_consistent_1; simpl; by rewrite orb_true_r).
  change (MappingSequence _ _ _ _ _) with s'. by rewrite (bind_Done _ _ _ _ _ (sanity_ok _ _ _ Ok')).
Qed.
End extension.

(** ** Removing a span *)

Definition touched (addr limit : Z) (e : mapping_entry) : bool := (e_begin e <=? limit) && (addr <? e_end e).

(** What an entry becomes. *)
Definition trim (addr limit : Z) (e : mapping_entry) : mapping_entry :=
  if touched addr limit e then
    if (addr <=? e_begin e) && (e_end e <=? limit) then zero_mapping
    else if addr <=? e_begin e then set_e_begin limit e
    else set_e_end addr e
  else e.

(** The span does not fall strictly inside the entry. *)
Definition whole (addr limit : Z) (e : mapping_entry) : Prop :=
  touched addr limit e = true -> 0 <= e_begin e < e_end e /\ e_end e < 2 ^ 63 /\ (addr <= e_begin e \/ e_end e <= limit).

Section removal.
Context {B : Build} (addr len : Z).
Hypothesis span : 0 < addr /\ 0 < len /\ addr + len < 2 ^ 63.

Abbreviation limit := (addr + len).

Lemma clear_or_trim_ok s l1 e l2 :
  mappings s = l1 ++ e :: l2 -> whole addr limit e ->
  exists b' q', clear_or_trim (length l1) addr len s =
      Done (tt, MappingSequence b' q' (seq_filename s) (nused s) (l1 ++ trim addr limit e :: l2)) /\
    (b' = seq_begin s \/ b' = limit /\ touched addr limit e = true /\ limit < e_end e) /\
    (q' = seq_end s \/ q' = addr /\ touched addr limit e = true /\ e_begin e < addr).
Proof.
  intros E W. unfold clear_or_trim. rewrite (bind_Done _ _ _ _ _ (rd_map_at l1 e l2 s _ E eq_refl)).
  rewrite (wrap_small 64 limit) by lia. cbv zeta. fold (touched addr limit e). unfold trim.
  destruct (touched addr limit e) eqn:Ht.
  2:{ exists (seq_begin s), (seq_end s). rewrite <- E. split_and!; [by destruct s|by left..]. }
  destruct (W Ht) as (Hr & Hq & Hw). pose proof Ht as [H1%Z.leb_le H2%Z.ltb_lt]%andb_prop.
  replace ((e_begin e <? addr) && (limit <? e_end e)) with false.
  2:{ symmetry. apply andb_false_iff. destruct Hw; [left|right]; apply Z.ltb_ge; lia. }
  destruct (Z.leb_spec addr (e_begin e)) as [Ha|Ha], (Z.leb_spec (e_end e) limit) as [Hl|Hl]; cbn [andb]; try lia.
  - rewrite (proj2 (Z.ltb_ge (e_begin e) addr)), Z.eqb_refl by lia.
    replace (if e_end e <? limit then 0 else wrap64 (e_end e - limit)) with 0.
    2:{ destruct (Z.ltb_spec (e_end e) limit); [done|]. replace (e_end e - limit) with 0 by lia. done. }
    cbn [Z.eqb andb]. rewrite (wr_map_at l1 e l2 _ s _ E eq_refl).
    exists (seq_begin s), (seq_end s). split_and!; [done|by left..].
  - rewrite (proj2 (Z.ltb_ge (e_begin e) addr)), (proj2 (Z.ltb_ge (e_end e) limit)), Z.eqb_refl by lia.
    rewrite !(wrap_small 64) by (rewrite ?(wrap_small 64) by lia; lia).
    rewrite (proj2 (Z.eqb_neq (e_end e - limit) 0)) by lia. cbn [andb orb].
    rewrite (bind_Done _ _ s tt s) by (by apply assert_true).
    replace (e_begin e + (e_end e - e_begin e - (e_end e - limit))) with limit by lia.
    rewrite (bind_Done _ _ _ _ _ (wr_map_at l1 e l2 _ s _ E eq_refl)).
    destruct l1; [exists limit, (seq_end s)|exists (seq_begin s), (seq_end s)]; split_and!; auto; by right.
  - rewrite (proj2 (Z.ltb_lt (e_begin e) addr)) by lia. rewrite (wrap_small 64 (addr - e_begin e)) by lia.
    rewrite (proj2 (Z.eqb_neq (addr - e_begin e) 0)) by lia.
    replace (if e_end e <? limit then 0 else wrap64 (e_end e - limit)) with 0.
    2:{ destruct (Z.ltb_spec (e_end e) limit); [done|]. replace (e_end e - limit) with 0 by lia. done. }
    cbn [Z.eqb andb orb]. rewrite (bind_Done _ _ s tt s) by (by apply assert_true).
    rewrite !(wrap_small 64) by (rewrite ?(wrap_small 64) by lia; lia).
    replace (e_end e - (e_end e - e_begin e - (addr - e_begin e))) with addr by lia.
    rewrite (bind_Done _ _ _ _ _ (wr_map_at l1 e l2 _ s _ E eq_refl)). rewrite (bind_Done _ _ _ (nused s) (set_mappings (l1 ++ set_e_end addr e :: l2) s)) by done.
    destruct (S (length l1) =? nused s)%nat; [exists (seq_begin s), addr|exists (seq_begin s), (seq_end s)];
      split_and!; auto; by right.
Qed.

Lemma delete_loop_ok s l1 l2 :
  mappings s = l1 ++ l2 -> Forall (whole addr limit) l2 ->
  exists b' q', delete_loop (length l2) (length l1) addr len s =
      Done (tt, MappingSequence b' q' (seq_filename s) (nused s) (l1 ++ (trim addr limit <$> l2))) /\
    (b' = seq_begin s \/ b' = limit /\ exists e, e ∈ l2 /\ touched addr limit e = true /\ limit < e_end e) /\
    (q' = seq_end s \/ q' = addr /\ exists e, e ∈ l2 /\ touched addr limit e = true /\ e_begin e < addr).
Proof.
  revert s l1. induction l2 as [|e l2 IH]; intros s l1 E F.
  - exists (seq_begin s), (seq_end s). simpl. rewrite <- E. split_and!; [by destruct s|by left..].
  - apply Forall_cons in F as [W F]. destruct (clear_or_trim_ok s l1 e l2 E W) as (b1 & q1 & E1 & Hb1 & Hq1).
    cbn [length delete_loop]. rewrite (bind_Done _ _ _ _ _ E1).
    set (s1 := MappingSequence b1 q1 _ _ _). specialize (IH s1 (l1 ++ [trim addr limit e])).
    rewrite length_app, Nat.add_1_r in IH.
    destruct IH as (b' & q' & E' & Hb' & Hq'); [by unfold s1; simpl; rewrite <- app_assoc|done|].
    exists b', q'. rewrite E'. rewrite <- app_assoc. split_and!; [done| |].
    + destruct Hb' as [->|(-> & d & Hd & ?)]; [destruct Hb1 as [->|(-> & ?)]; [by left|right]|right]; (split; [done|]);
        [exists e|exists d]; (split; [set_solver|done]).
    + destruct Hq' as [->|(-> & d & Hd & ?)]; [destruct Hq1 as [->|(-> & ?)]; [by left|right]|right]; (split; [done|]);
        [exists e|exists d]; (split; [set_solver|done]).
Qed.
End removal.

(** Dropping a cleared entry moves the later ones down. *)
Lemma moved_drop kept z rest junk :
  exists w, moved (length kept) (S (length kept)) (length rest) (kept ++ (z :: rest) ++ junk) = kept ++ rest ++ w :: junk.
Proof.
  unfold moved. rewrite take_app_length.
  replace (drop (S (length kept)) (kept ++ (z :: rest) ++ junk)) with (rest ++ junk).
  2:{ rewrite drop_app_ge by lia. by replace (S (length kept) - length kept)%nat with 1%nat by lia. }
  rewrite take_app_length, drop_app_ge by lia.
  replace (length kept + length rest - length kept)%nat with (length rest) by lia.
  destruct (exists_last (l := z :: rest) ltac:(done)) as (l0 & w & El). exists w. do 2 f_equal. rewrite El, <- app_assoc.
  assert (length rest = length l0) as -> by (apply (f_equal length) in El; rewrite length_app in El; simpl in El; lia).
  apply drop_app_length.
Qed.

Definition present (e : mapping_entry) : Prop := e_begin e <> 0.
#[export] Instance present_dec e : Decision (present e).
Proof. unfold present. apply _. Defined.

Lemma compact_ok l2 kept junk s k :
  nused s = (length kept + length l2)%nat -> (length l2 <= k)%nat -> mappings s = kept ++ l2 ++ junk ->
  exists junk', compact_loop k (length kept) s =
      Done (tt, with_maps ((kept ++ filter present l2) ++ junk') (length (kept ++ filter present l2)) s) /\
    (length (filter present l2) + length junk' = length l2 + length junk)%nat /\
    (forall d, d ∈ junk' -> d = zero_mapping \/ d ∈ junk).
Proof.
  revert kept junk s k. induction l2 as [|e l2 IH]; intros kept junk s k En Hk E.
  - exists junk. rewrite app_nil_r. simpl in En. rewrite Nat.add_0_r in En. split_and!; [|done|by right].
    rewrite <- En. simpl in E. rewrite <- E. rewrite <- with_maps_eta.
    destruct k as [|k]; [done|]. cbn [compact_loop]. rewrite (bind_Done _ _ s (nused s) s) by done.
    by rewrite En, Nat.ltb_irrefl.
  - destruct k as [|k]; [simpl in Hk; lia|]. cbn [compact_loop]. simpl in En, Hk.
    rewrite (bind_Done _ _ s (nused s) s) by done. rewrite (proj2 (Nat.ltb_lt _ _)) by lia.
    rewrite (bind_Done _ _ _ _ _ (rd_map_at kept e (l2 ++ junk) s _ E eq_refl)). rewrite filter_cons.
    assert (Hl : length (mappings s) = (length kept + S (length l2 + length junk))%nat).
    { rewrite E, !length_app. simpl. lia. }
    destruct (Z.eqb_spec (e_begin e) 0) as [Ez|Nz].
    + rewrite decide_False by (by unfold present; intros ?).
      replace (nused s - S (length kept))%nat with (length l2) by lia.
      rewrite (bind_Done _ _ _ _ _ (memmove_ok (length kept) (S (length kept)) (length l2) s ltac:(lia) ltac:(lia))).
      destruct (moved_drop kept e l2 junk) as [w Ew]. rewrite E, Ew, app_assoc.
      set (s1 := set_mappings _ s).
      rewrite (bind_Done _ _ _ _ _ (wr_map_at (kept ++ l2) w junk _ s1 (nused s - 1) eq_refl ltac:(rewrite length_app; lia))).
      rewrite (bind_Done _ _ _ tt (with_maps (kept ++ l2 ++ zero_mapping :: junk) (nused s - 1) s)).
      2:{ unfold s1, modify, with_maps, set_nused, set_mappings. cbn [seq_begin seq_end seq_filename nused mappings]. by rewrite <- app_assoc. }
      destruct (IH kept (zero_mapping :: junk) (with_maps (kept ++ l2 ++ zero_mapping :: junk) (nused s - 1) s) k)
        as (junk' & E' & Hn & Hin); [simpl; lia|lia|done|].
      exists junk'. split_and!; [done|simpl in *; lia|]. intros d Hd. destruct (Hin d Hd) as [->|[->|?]%elem_of_cons]; auto.
    + rewrite decide_True by done. specialize (IH (kept ++ [e]) junk s k). rewrite length_app, Nat.add_1_r in IH.
      destruct IH as (junk' & E' & Hn & Hin); [simpl; lia|lia|by rewrite <- app_assoc|].
      exists junk'. rewrite <- (app_assoc kept [e]) in E'. split_and!; [exact E'|simpl in *; lia|done].
Qed.

Lemma trim_zero addr limit : 0 < addr -> trim addr limit zero_mapping = zero_mapping.
Proof. intros. unfold trim, touched. simpl. rewrite (proj2 (Z.ltb_ge addr 0)) by lia. by rewrite andb_false_r. Qed.

Section span.
Context {B : Build}.

(** The result of the two loops and of the final adjustment of the bounds. *)
Lemma delete_span_run s es junk addr len b' q' :
  seq_ok s es junk -> 0 < addr -> 0 < len -> addr + len < 2 ^ 63 ->
  Forall (whole addr (addr + len)) (es ++ junk) ->
  let es' := filter present (trim addr (addr + len) <$> es) in
  (forall b, (b = seq_begin s \/ b = addr + len /\ exists e, e ∈ es ++ junk /\ touched addr (addr + len) e = true /\ addr + len < e_end e) ->
    (if (addr <=? b) && (b <? addr + len) then addr + len else b) = b') ->
  (forall q, (q = seq_end s \/ q = addr /\ exists e, e ∈ es ++ junk /\ touched addr (addr + len) e = true /\ e_begin e < addr) ->
    (if (addr <? q) && (q <=? addr + len) then addr else q) = q') ->
  contig b' q' es' -> 0 < b' < q' -> q' < 2 ^ 63 ->
  (forall e, e ∈ junk -> stale b' q' (trim addr (addr + len) e)) ->
  exists s' junk', delete_mapping_sequence_span addr len s = Done (tt, s') /\ seq_ok s' es' junk' /\
    seq_begin s' = b' /\ seq_end s' = q' /\ seq_filename s' = seq_filename s.
Proof.
  intros Ok Ha Hl Hlim W es' Hb' Hq' C Hr Hr' Hst. unfold delete_mapping_sequence_span.
  rewrite (bind_Done _ _ _ _ _ (sanity_ok s es junk Ok)).
  destruct (delete_loop_ok addr len ltac:(lia) s [] (es ++ junk) (sq_maps _ _ _ Ok) W) as (b1 & q1 & E1 & Hb1 & Hq1).
  assert (Hlen : length (es ++ junk) = MAPPING_SEQUENCE_MAX_LEN) by (rewrite <- (sq_maps _ _ _ Ok); apply Ok).
  rewrite Hlen in E1. rewrite (bind_Done _ _ _ _ _ E1). cbn [app length].
  set (s1 := MappingSequence b1 q1 (seq_filename s) (nused s) (trim addr (addr + len) <$> es ++ junk)).
  rewrite (bind_Done _ _ s1 (nused s) s1) by done.
  destruct (compact_ok (trim addr (addr + len) <$> es) [] (trim addr (addr + len) <$> junk) s1 (nused s)) as (junk' & E2 & Hn & Hin).
  { simpl. by rewrite length_fmap, (sq_nused _ _ _ Ok). }
  { by rewrite length_fmap, (sq_nused _ _ _ Ok). }
  { unfold s1. simpl. by rewrite fmap_app. }
  cbn [length app] in E2. rewrite (bind_Done _ _ _ _ _ E2). fold es' in E2, Hn |- *.
  set (s2 := with_maps _ _ _). rewrite (bind_Done _ _ s2 s2 s2) by done. rewrite (wrap_small 64 (addr + len)) by lia.
  change (seq_begin s2) with b1. change (seq_end s2) with q1.
  set (s3 := MappingSequence b' q' (seq_filename s) (length es') (es' ++ junk')).
  assert (E3 : (when ((addr <=? b1) && (b1 <? addr + len)) (modify (set_seq_begin (addr + len))) ;;
    when ((addr <? q1) && (q1 <=? addr + len)) (modify (set_seq_end addr))) s2 = Done (tt, s3)).
  { specialize (Hb' b1 Hb1). specialize (Hq' q1 Hq1). unfold s3. rewrite <- Hb', <- Hq'.
    by destruct ((addr <=? b1) && _), ((addr <? q1) && _). }
  assert (Ok3 : seq_ok s3 es' junk').
  { split; cbn [s3 mappings nused seq_begin seq_end]; [done| |done|done| |lia].
    - rewrite length_app, Hn, !length_fmap, <- length_app. done.
    - apply Forall_forall. intros d Hd. destruct (Hin d Hd) as [->|(e & -> & He)%list_elem_of_fmap]; [by left|by apply Hst]. }
  exists s3, junk'. split_and!; [|done..]. unfold mbind, M_bind in E3 |- *.
  destruct (when ((addr <=? b1) && (b1 <? addr + len)) (modify (set_seq_begin (addr + len))) s2) as [[[] s2']| |]; try done.
  rewrite E3. apply (sanity_ok s3 es' junk' Ok3).
Qed.

(** The entry around an address. *)
Lemma split_around p q l a : contig p q l -> p <= a < q ->
  exists l1 y l2, l = l1 ++ y :: l2 /\ contig p (e_begin y) l1 /\ contig (e_end y) q l2 /\ e_begin y <= a < e_end y.
Proof.
  intros C Ha. destruct (split_last p q l (a + 1) C) as (l1 & y & l2 & -> & C1 & C2 & Hy & _); [lia|].
  exists l1, y, l2. split_and!; (done || lia).
Qed.

Lemma trim_untouched addr limit e : touched addr limit e = false -> trim addr limit e = e.
Proof. intros H. unfold trim. by rewrite H. Qed.

Lemma touched_spec addr limit e : touched addr limit e = true <-> e_begin e <= limit /\ addr < e_end e.
Proof. unfold touched. by rewrite andb_true_iff, Z.leb_le, Z.ltb_lt. Qed.

Lemma touched_false addr limit e : limit < e_begin e \/ e_end e <= addr -> touched addr limit e = false.
Proof. intros H. apply not_true_is_false. rewrite touched_spec. lia. Qed.

Lemma trim_total addr limit e : addr <= e_begin e < e_end e -> e_end e <= limit -> trim addr limit e = zero_mapping.
Proof.
  intros Hb He. unfold trim. rewrite (proj2 (touched_spec addr limit e)) by lia.
  by rewrite (proj2 (Z.leb_le addr (e_begin e))), (proj2 (Z.leb_le (e_end e) limit)) by lia.
Qed.

Lemma trim_head addr limit e : addr <= e_begin e -> e_begin e <= limit < e_end e -> addr < e_end e ->
  trim addr limit e = set_e_begin limit e.
Proof.
  intros Hb He Hae. unfold trim. rewrite (proj2 (touched_spec addr limit e)) by lia.
  by rewrite (proj2 (Z.leb_le addr (e_begin e))), (proj2 (Z.leb_gt (e_end e) limit)) by lia.
Qed.

Lemma trim_tail addr limit e : e_begin e < addr <= e_end e -> e_end e <= limit -> trim addr limit e = set_e_end addr e.
Proof.
  intros Hb He. destruct (decide (addr = e_end e)) as [->|].
  - rewrite trim_untouched by (apply touched_false; lia). by destruct e.
  - unfold trim. rewrite (proj2 (touched_spec addr limit e)) by lia.
    by rewrite (proj2 (Z.leb_gt addr (e_begin e))) by lia.
Qed.

Lemma fmap_const_zero (f : mapping_entry -> mapping_entry) (l : list mapping_entry) :
  (forall e, e ∈ l -> f e = zero_mapping) -> filter present (f <$> l) = [].
Proof.
  intros Hf. induction l as [|e l IH]; [done|]. simpl. rewrite (Hf e) by (by left).
  rewrite filter_cons_False by (unfold present; simpl; lia). apply IH. intros d Hd. apply Hf. by right.
Qed.

Lemma fmap_same (f : mapping_entry -> mapping_entry) (l : list mapping_entry) : (forall e, e ∈ l -> f e = e) -> f <$> l = l.
Proof. intros Hf. rewrite <- (list_fmap_id l) at 2. apply list_fmap_ext. intros i e He. apply Hf. by eapply list_elem_of_lookup_2. Qed.

Lemma contig_present p q l : contig p q l -> 0 < p -> filter present l = l.
Proof. intros C Hp. apply filter_id. intros e He. pose proof (contig_in _ _ _ _ C He). unfold present. lia. Qed.

Lemma stale_whole p q addr limit e : 0 < p -> q < 2 ^ 63 -> 0 < addr -> (addr <= p \/ q <= limit) -> stale p q e -> whole addr limit e.
Proof. intros Hp Hq Ha Hs [->|He] Ht; apply touched_spec in Ht; simpl in *; [lia|]. split_and!; lia. Qed.

(** Removing the beginning, up to [x]. *)
Lemma delete_prefix_ok s es junk x :
  seq_ok s es junk -> seq_begin s < x < seq_end s ->
  exists s' es' junk', delete_mapping_sequence_span (seq_begin s) (x - seq_begin s) s = Done (tt, s') /\
    seq_ok s' es' junk' /\ seq_begin s' = x /\ seq_end s' = seq_end s /\ seq_filename s' = seq_filename s /\
    forall a, attrs_at es' a = if decide (a < x) then None else attrs_at es a.
Proof.
  intros Ok Hx. destruct (sq_range _ _ _ Ok) as [Hr Hq]. set (b := seq_begin s) in *.
  destruct (split_around _ _ es x (sq_contig _ _ _ Ok) ltac:(fold b; lia)) as (l1 & y & l2 & Ees & C1 & C2 & Hy).
  fold b in C1. pose proof (contig_le _ _ _ C1). pose proof (contig_le _ _ _ C2).
  assert (Els : filter present (trim b (b + (x - b)) <$> es) = set_e_begin x y :: l2).
  { replace (b + (x - b)) with x by lia. rewrite Ees, fmap_app, filter_app. rewrite fmap_const_zero.
    2:{ intros e He. pose proof (contig_in _ _ _ _ C1 He). apply trim_total; lia. }
    cbn [app fmap list_fmap]. rewrite trim_head, filter_cons_True by (unfold present; simpl; lia). f_equal.
    rewrite fmap_same; [apply (contig_present _ _ _ C2); lia|].
    intros e He. pose proof (contig_in _ _ _ _ C2 He). apply trim_untouched, touched_false. lia. }
  assert (Cy : contig x (seq_end s) (set_e_begin x y :: l2)) by (simpl; split_and!; [done|lia|done]).
  assert (Hall : forall e, e ∈ es ++ junk -> stale b (seq_end s) e).
  { intros e [He|He]%elem_of_app; [|by apply (proj1 (Forall_forall _ _) (sq_stale _ _ _ Ok))].
    right. pose proof (contig_in _ _ _ _ (sq_contig _ _ _ Ok) He). unfold b. lia. }
  destruct (delete_span_run s es junk b (x - b) x (seq_end s) Ok ltac:(lia) ltac:(lia) ltac:(lia)) as (s' & junk' & E & Ok' & Hb' & Hq' & Hf').
  - apply Forall_forall. intros e He. apply (stale_whole b (seq_end s)); [lia..|by apply Hall].
  - replace (b + (x - b)) with x by lia. fold b. intros c [->|[-> _]].
    + by rewrite (proj2 (Z.leb_le b b)), (proj2 (Z.ltb_lt b x)) by lia.
    + by rewrite Z.ltb_irrefl, andb_false_r.
  - replace (b + (x - b)) with x by lia. intros c [->|(-> & e & He & Ht & Hlt)].
    + by rewrite (proj2 (Z.leb_gt (seq_end s) x)), andb_false_r by lia.
    + exfalso. apply touched_spec in Ht. destruct (Hall e He) as [->|?]; simpl in *; lia.
  - by rewrite Els.
  - lia.
  - done.
  - replace (b + (x - b)) with x by lia. intros e He.
    destruct (Hall e ltac:(apply elem_of_app; by right)) as [->|Hs]; [left; apply trim_zero; lia|].
    destruct (decide (e_end e <= x)); [left; apply trim_total; lia|]. right. destruct (decide (e_begin e <= x)).
    + rewrite trim_head by lia. simpl. lia.
    + rewrite trim_untouched by (apply touched_false; lia). lia.
  - rewrite Els in Ok'. exists s', (set_e_begin x y :: l2), junk'. split_and!; try done. intros a. case_decide.
    + apply (attrs_at_outside _ _ _ a Cy). lia.
    + rewrite Ees, attrs_at_app, (attrs_at_outside _ _ _ a C1) by lia. rewrite !attrs_at_cons. simpl.
      by rewrite (proj2 (Z.leb_le x a)), (proj2 (Z.leb_le (e_begin y) a)) by lia.
Qed.

(** Removing the end, from [x] on. *)
Lemma delete_suffix_ok s es junk x :
  seq_ok s es junk -> seq_begin s < x < seq_end s ->
  exists s' es' junk', delete_mapping_sequence_span x (seq_end s - x) s = Done (tt, s') /\
    seq_ok s' es' junk' /\ seq_begin s' = seq_begin s /\ seq_end s' = x /\ seq_filename s' = seq_filename s /\
    forall a, attrs_at es' a = if decide (a < x) then attrs_at es a else None.
Proof.
  intros Ok Hx. destruct (sq_range _ _ _ Ok) as [Hr Hq]. set (q := seq_end s) in *.
  destruct (split_last _ _ es x (sq_contig _ _ _ Ok) ltac:(fold q; lia)) as (l1 & y & l2 & Ees & C1 & C2 & Hy & F).
  fold q in C2. pose proof (contig_le _ _ _ C1). pose proof (contig_le _ _ _ C2).
  assert (Els : filter present (trim x (x + (q - x)) <$> es) = l1 ++ [set_e_end x y]).
  { replace (x + (q - x)) with q by lia. rewrite Ees, fmap_app, filter_app. f_equal.
    - rewrite fmap_same; [apply (contig_present _ _ _ C1); lia|].
      intros e He. pose proof (contig_in _ _ _ _ C1 He). apply trim_untouched, touched_false. lia.
    - cbn [fmap list_fmap]. rewrite trim_tail, filter_cons_True by (unfold present; simpl; lia). f_equal.
      apply fmap_const_zero. intros e He. pose proof (contig_in _ _ _ _ C2 He). apply trim_total; lia. }
  assert (Cy : contig (seq_begin s) x (l1 ++ [set_e_end x y])).
  { apply contig_app. exists (e_begin y). split; [done|]. simpl. split_and!; [done|lia|done]. }
  assert (Hall : forall e, e ∈ es ++ junk -> stale (seq_begin s) q e).
  { intros e [He|He]%elem_of_app; [|by apply (proj1 (Forall_forall _ _) (sq_stale _ _ _ Ok))].
    right. pose proof (contig_in _ _ _ _ (sq_contig _ _ _ Ok) He). unfold q. lia. }
  destruct (delete_span_run s es junk x (q - x) (seq_begin s) x Ok ltac:(lia) ltac:(lia) ltac:(lia)) as (s' & junk' & E & Ok' & Hb' & Hq' & Hf').
  - apply Forall_forall. intros e He. apply (stale_whole (seq_begin s) q); [lia..|by apply Hall].
  - replace (x + (q - x)) with q by lia. intros c [->|(-> & e & He & Ht & Hlt)].
    + by rewrite (proj2 (Z.leb_gt x (seq_begin s))) by lia.
    + exfalso. apply touched_spec in Ht. destruct (Hall e He) as [->|?]; simpl in *; lia.
  - replace (x + (q - x)) with q by lia. fold q. intros c [->|(-> & _)].
    + by rewrite (proj2 (Z.ltb_lt x q)), (proj2 (Z.leb_le q q)) by lia.
    + by rewrite Z.ltb_irrefl.
  - by rewrite Els.
  - lia.
  - lia.
  - replace (x + (q - x)) with q by lia. intros e He.
    destruct (Hall e ltac:(apply elem_of_app; by right)) as [->|Hs]; [left; apply trim_zero; lia|].
    destruct (decide (x <= e_begin e)); [left; apply trim_total; lia|]. right. destruct (decide (x <= e_end e)).
    + rewrite trim_tail by lia. simpl. lia.
    + rewrite trim_untouched by (apply touched_false; lia). lia.
  - rewrite Els in Ok'. exists s', (l1 ++ [set_e_end x y]), junk'. split_and!; try done. intros a. case_decide.
    + rewrite Ees, !attrs_at_app. case_match; [done|]. rewrite !attrs_at_cons. simpl.
      rewrite (attrs_at_outside _ _ _ a C2) by lia.
      by rewrite (proj2 (Z.ltb_lt a x)), (proj2 (Z.ltb_lt a (e_end y))) by lia.
    + apply (attrs_at_outside _ _ _ a Cy). lia.
Qed.
End span.
