(* ===== verification/Mmap.v ===== *)
(** The mmap allocator, src/src/allocators/mmap.c: it keeps one top-level
    bigalloc, with a mapping sequence as its private data, for each group of
    contiguous memory mappings, and follows the process's mmap, munmap,
    mremap and brk calls.

    The state is the bigalloc table and the heap of sequences; a pointer to a
    sequence is a key of the heap.  The private malloc, the description of a
    file descriptor and the auxv allocator's start-up are parameters
    ([MmapEnv]).  The contents of /proc/<pid>/maps, parsed by librunt, are an
    argument.  Messages are dropped. *)
From stdpp Require Import strings.
From S2P Require Import Prelude Vas BigAlloc PageIndex PageIndexQuery MappingSeq.

Record mstate := MState {
  m_table : state;
  sequences : gmap Z mapping_sequence;
  brk_mapping_bigalloc : Z;
}.

Definition set_m_table (t : state) (s : mstate) : mstate := MState t (sequences s) (brk_mapping_bigalloc s).
Definition set_sequence (p : Z) (q : mapping_sequence) (s : mstate) : mstate :=
  MState (m_table s) (<[p := q]> (sequences s)) (brk_mapping_bigalloc s).

Definition on_bigallocs {A} (m : M state A) : M mstate A := fun s =>
  match m (m_table s) with
  | Done (a, t) => Done (a, set_m_table t s)
  | Abort => Abort
  | NoFuel => NoFuel
  end.

(** Following a null or dangling pointer is a crash. *)
Definition on_seq {A} (p : Z) (m : M mapping_sequence A) : M mstate A := fun s =>
  match sequences s !! p with
  | None => Abort
  | Some q =>
    match m q with
    | Done (a, q) => Done (a, set_sequence p q s)
    | Abort => Abort
    | NoFuel => NoFuel
    end
  end.

Class MmapEnv := {
  mmap_allocator : Z;
  auxv_allocator : Z;
  private_nommap_free : Z;
  (** The address of a new block. *)
  private_nommap_malloc : gmap Z mapping_sequence -> Z;
  get_highest_loaded_object_below : Z -> Z;
  filename_for_fd : Z -> option string;
  auxv_notify_init_stack_mapping_sequence : Z -> M state unit;
  executable_data_segment_start_addr : Z;
}.

Definition MAP_SHARED : Z := 1.
Definition MAP_PRIVATE : Z := 2.
Definition MAP_FIXED : Z := 16.
Definition MAP_ANONYMOUS : Z := 32.
Definition PROT_READ : Z := 1.
Definition PROT_WRITE : Z := 2.
Definition PROT_EXEC : Z := 4.
Definition MREMAP_DONTUNMAP : Z := 4.
Definition MMAP_RETURN_IS_ERROR (p : Z) : bool := wrap64 (2 ^ 64 - 1 - p) <? PAGE_SIZE.

Definition set_private (v f : Z) (b : big_allocation) : big_allocation :=
  BigAllocation (b_begin b) (b_end b) (first_child b) (next_sib b) (parent b) (prev_sib b)
    (allocated_by b) (suballocator b) v f (suballocator_private b) (suballocator_private_free b).

Section ops.
Context {V : Vas} {H : Hooks} {B : Build} {E : MmapEnv}.

(** ** Bigallocs for sequences *)

Definition add_bigalloc (begin size : Z) : M mstate Z :=
  b ← on_bigallocs (__liballocs_new_bigalloc begin size 0 0 0 mmap_allocator);
  if b =? 0 then abort else mret b.

Definition add_mapping_sequence_bigalloc_with_seq (seq free_fn : Z) : M mstate Z :=
  q ← on_seq seq (gets id);
  b ← add_bigalloc (seq_begin q) (wrap64 (seq_end q - seq_begin q));
  on_bigallocs (wr b (set_private seq free_fn)) ;;
  mret b.
Definition __add_mapping_sequence_bigalloc_with_seq := add_mapping_sequence_bigalloc_with_seq.

Definition new_sequence (q : mapping_sequence) : M mstate Z :=
  p ← gets (fun s => private_nommap_malloc (sequences s));
  modify (set_sequence p q) ;;
  mret p.

Definition add_mapping_sequence_bigalloc_copying_seq (q : mapping_sequence) : M mstate Z :=
  b ← add_bigalloc (seq_begin q) (wrap64 (seq_end q - seq_begin q));
  p ← new_sequence q;
  on_bigallocs (wr b (set_private p private_nommap_free)) ;;
  mret b.

Definition add_mapping_sequence_go_ahead (q : mapping_sequence) : M mstate unit :=
  b ← add_mapping_sequence_bigalloc_copying_seq q;
  match seq_filename q with
  | Some f => if String.prefix "[stack" f
              then on_bigallocs (auxv_notify_init_stack_mapping_sequence b) else mret tt
  | None => mret tt
  end.

(** How a sequence seen in the maps file relates to what is known. *)
Inductive verdict :=
| GoAhead (q : mapping_sequence)
| AlreadyThere
| Problem (existing_seq : Z).

Definition root_at (addr : Z) : M mstate Z :=
  on_bigallocs (n ← pi_get (PAGENUM addr); root_loop FUEL n).

(** The last [k] of the used entries are cleared and dropped. *)
Definition drop_last_entries (k : nat) (new_end : Z) (q : mapping_sequence) : mapping_sequence :=
  MappingSequence (seq_begin q) new_end (seq_filename q) (nused q - k)
    (take (nused q - k) (mappings q) ++ replicate k zero_mapping ++ drop (nused q) (mappings q)).

Definition reconcile_end (q : mapping_sequence) (parent_end : Z) : M mstate verdict :=
  existing ← on_bigallocs (rd allocator_private parent_end);
  e ← on_seq existing (gets id);
  if mem_range_suffix e q then
    if negb (mapping_sequence_suffix e q) then mret (Problem existing) else
    let q' := drop_last_entries (nused e) (seq_begin e) q in
    match check_mapping_sequence_sanity q' with
    | Done _ => on_seq existing check_mapping_sequence_sanity ;; mret (GoAhead q')
    | Abort => abort
    | NoFuel => nofuel
    end
  else if ((nused q =? 1) && (nused e =? 1))%nat then
    on_bigallocs (__liballocs_pre_extend_bigalloc parent_end (seq_begin q)) ;;
    on_seq existing (modify (set_seq_begin (seq_begin q)) ;;
                     wr_map 0 (fun _ => mapping_at q 0) ;;
                     check_mapping_sequence_sanity) ;;
    mret AlreadyThere
  else mret (Problem existing).

Definition reconcile_begin (q : mapping_sequence) (parent_begin : Z) : M mstate verdict :=
  existing ← on_bigallocs (rd allocator_private parent_begin);
  e ← on_seq existing (gets id);
  if mapping_sequence_prefix e q then
    on_bigallocs (__liballocs_extend_bigalloc parent_begin (seq_end q)) ;;
    modify (set_sequence existing q) ;;
    mret AlreadyThere
  else mret (Problem 0).

Definition reconcile_same (q : mapping_sequence) (parent_begin : Z) : M mstate verdict :=
  existing ← on_bigallocs (rd allocator_private parent_begin);
  e ← on_seq existing (gets id);
  if mapping_sequence_suffix e q && mapping_sequence_suffix q e then mret AlreadyThere
  else if mapping_sequence_prefix q e then
    modify (set_sequence existing q) ;;
    if seq_end q =? seq_end e then mret AlreadyThere
    else on_bigallocs (__liballocs_truncate_bigalloc_at_end parent_begin (seq_end q)) ;; mret AlreadyThere
  else mret (Problem existing).

Definition reconcile (q : mapping_sequence) : M mstate verdict :=
  parent_begin ← root_at (seq_begin q);
  parent_end ← root_at (wrap64 (seq_end q - 1));
  a ← on_bigallocs (rd allocated_by parent_begin);
  if negb (parent_end =? 0) && negb (parent_begin =? 0) && (parent_begin =? parent_end) && (a =? auxv_allocator)
  then mret AlreadyThere
  else if (parent_begin =? 0) && (parent_end =? 0) then mret (GoAhead q)
  else if parent_begin =? 0 then reconcile_end q parent_end
  else if parent_end =? 0 then reconcile_begin q parent_begin
  else if parent_begin =? parent_end then reconcile_same q parent_begin
  else mret (Problem 0).

Definition add_mapping_sequence_bigalloc_if_absent (q : mapping_sequence) : M mstate unit :=
  v ← reconcile q;
  match v with
  | GoAhead q => add_mapping_sequence_go_ahead q
  | AlreadyThere => mret tt
  | Problem existing =>
    if existing =? 0 then abort else
    e ← on_seq existing (gets id);
    let x := executable_data_segment_start_addr in
    if negb (x =? 0) && (seq_begin e <=? x) && (x <? seq_end e) then abort else
    on_bigallocs (__liballocs_delete_all_bigallocs_overlapping_range (seq_begin e) (seq_end e)) ;;
    add_mapping_sequence_go_ahead q
  end.

(** ** munmap *)

Definition split_and_truncate (b addr effective_length : Z) : M mstate unit :=
  r ← on_bigallocs (rd id b);
  second_half ← on_bigallocs (__liballocs_split_bigalloc_at_page_boundary b (wrap64 (addr + effective_length)));
  if second_half =? 0 then abort else
  on_bigallocs (__liballocs_truncate_bigalloc_at_end b addr) ;;
  r' ← on_bigallocs (rd id b);
  q ← on_seq (allocator_private r') (gets id);
  new_seq ← new_sequence q;
  on_seq (allocator_private r') (delete_mapping_sequence_span addr (wrap64 (b_end r - addr))) ;;
  on_seq new_seq (delete_mapping_sequence_span (b_begin r') (wrap64 (addr + effective_length - b_begin r'))) ;;
  f ← on_bigallocs (rd allocator_private_free second_half);
  on_bigallocs (wr second_half (set_private new_seq f)).

Fixpoint munmap_loop (fuel : nat) (addr effective_length cur remaining_length : Z) : M mstate unit :=
  match fuel with
  | O => nofuel
  | S fuel =>
    if negb (cur <? wrap64 (addr + effective_length)) then mret tt else
    b ← on_bigallocs (__lookup_bigalloc_from_root cur mmap_allocator);
    if b =? 0 then
      munmap_loop fuel addr effective_length (wrap64 (cur + PAGE_SIZE)) (wrap64 (remaining_length - PAGE_SIZE))
    else
    r ← on_bigallocs (rd id b);
    assert (b_begin r <=? cur) ;;
    if cur =? b_begin r then
      if b_end r <=? wrap64 (cur + remaining_length) then
        on_bigallocs (__liballocs_delete_bigalloc_at (b_begin r) mmap_allocator) ;;
        munmap_loop fuel addr effective_length (b_end r) (wrap64 (remaining_length - (b_end r - cur)))
      else
        on_bigallocs (__liballocs_truncate_bigalloc_at_beginning b (wrap64 (cur + remaining_length))) ;;
        on_seq (allocator_private r) (delete_mapping_sequence_span cur remaining_length)
    else
      assert (b_begin r <? wrap64 (cur + remaining_length)) ;;
      if b_end r <=? wrap64 (cur + remaining_length) then
        let amount_removed := wrap64 (b_end r - cur) in
        on_bigallocs (__liballocs_truncate_bigalloc_at_end b cur) ;;
        on_seq (allocator_private r) (delete_mapping_sequence_span cur amount_removed) ;;
        munmap_loop fuel addr effective_length (wrap64 (cur + amount_removed)) (wrap64 (remaining_length - amount_removed))
      else
        split_and_truncate b addr effective_length ;;
        munmap_loop fuel addr effective_length cur remaining_length
  end.

Definition do_munmap (addr requested_length : Z) : M mstate unit :=
  let effective_length := ROUND_UP requested_length PAGE_SIZE in
  munmap_loop (2 + Z.to_nat (PAGENUM effective_length)) addr effective_length addr effective_length.
Definition __mmap_allocator_notify_munmap := do_munmap.

(** ** mmap *)

(** The first indexed page of the range. *)
Fixpoint scan_overlap (k : nat) (page : Z) : M mstate Z :=
  match k with
  | O => mret 0
  | S k => num ← on_bigallocs (pi_get page); if negb (num =? 0) then mret num else scan_overlap k (page + 1)
  end.

(** On a null sequence the code returns 0, after looking at the sequence's
    name if the mapping has one. *)
Definition augment_at (seq begin end_ prot flags offset : Z) (filename : option string) (caller : Z) : M mstate bool :=
  if seq =? 0 then match filename with Some _ => abort | None => mret false end
  else on_seq seq (augment_sequence get_highest_loaded_object_below begin end_ prot flags offset filename caller).

Definition bigalloc_to_extend (mapped_addr mapped_length : Z) : M mstate Z :=
  before ← on_bigallocs (__lookup_bigalloc_from_root (wrap64 (mapped_addr - 1)) mmap_allocator);
  if negb (before =? 0) then mret before else
  overlap_begin ← on_bigallocs (__lookup_bigalloc_from_root mapped_addr mmap_allocator);
  overlap_end ← on_bigallocs (__lookup_bigalloc_from_root (wrap64 (mapped_addr + mapped_length - 1)) mmap_allocator);
  mret (if negb (overlap_begin =? 0) && ((overlap_end =? 0) || (overlap_begin =? overlap_end)) then overlap_begin else 0).

Definition new_mapping (mapped_addr mapped_length prot flags offset : Z) (filename : option string) (caller : Z)
    : M mstate unit :=
  p ← new_sequence zero_sequence;
  success ← augment_at p mapped_addr (wrap64 (mapped_addr + mapped_length)) prot flags offset filename caller;
  if negb success then abort else
  add_mapping_sequence_bigalloc_with_seq p private_nommap_free ;;
  mret tt.

Definition do_mmap (mapped_addr requested_length prot flags : Z) (filename : option string) (offset caller : Z)
    : M mstate unit :=
  assert (negb (MMAP_RETURN_IS_ERROR mapped_addr)) ;;
  if mapped_addr =? 0 then abort else
  let mapped_length := ROUND_UP requested_length PAGE_SIZE in
  saw_overlap ← scan_overlap (Z.to_nat (Z.shiftr mapped_length LOG_PAGE_SIZE)) (Z.shiftr mapped_addr LOG_PAGE_SIZE);
  if negb (saw_overlap =? 0) && (Z.land flags MAP_FIXED =? 0) then abort else
  before ← bigalloc_to_extend mapped_addr mapped_length;
  if negb (before =? 0) then
    r ← on_bigallocs (rd id before);
    let seq := allocator_private r in
    let new_end := wrap64 (mapped_addr + mapped_length) in
    success ← augment_at seq mapped_addr new_end prot flags offset filename caller;
    if (success : bool) then
      if b_end r <? new_end then
        ok ← on_bigallocs (__liballocs_extend_bigalloc before new_end);
        if negb ok then abort else
        r ← on_bigallocs (rd id before);
        q ← on_seq seq (gets id);
        assert (seq_begin q =? b_begin r) ;;
        assert (seq_end q =? b_end r)
      else mret tt
    else new_mapping mapped_addr mapped_length prot flags offset filename caller
  else new_mapping mapped_addr mapped_length prot flags offset filename caller.

Definition __mmap_allocator_notify_mmap (mapped_addr length prot flags fd offset caller : Z) : M mstate unit :=
  do_mmap mapped_addr length prot flags (filename_for_fd fd) offset caller.

Definition __mmap_allocator_notify_mprotect (addr len prot : Z) : M mstate unit := mret tt.

(** ** mremap *)

Definition entry_of (seq addr : Z) : M mstate mapping_entry :=
  q ← on_seq seq (gets id);
  match __mmap_allocator_find_entry addr q with
  | Some i => mret (mapping_at q i)
  | None => abort
  end.

(** The entries that overlap the old range are mapped again at the new one;
    the sequence is read anew at each step. *)
Fixpoint remap_entries (fuel i : nat) (seq mapped_addr old_addr old_size caller : Z) : M mstate unit :=
  match fuel with
  | O => nofuel
  | S fuel =>
    q ← on_seq seq (gets id);
    if (i =? nused q)%nat then mret tt else
    ent ← on_seq seq (rd_map i);
    let overlap_begin := Z.max (e_begin ent) old_addr in
    let overlap_end := Z.min (e_end ent) (wrap64 (old_addr + old_size)) in
    (if overlap_begin <? overlap_end then
       do_mmap (wrap64 (overlap_begin + (mapped_addr - old_addr))) (overlap_end - overlap_begin)
         (e_prot ent) (e_flags ent) (seq_filename q) (e_offset ent + (overlap_begin - e_begin ent)) caller
     else mret tt) ;;
    remap_entries fuel (S i) seq mapped_addr old_addr old_size caller
  end.

Definition mremap_move (seq mapped_addr old_addr old_size new_size mremap_flags caller : Z) : M mstate unit :=
  remap_entries (S MAPPING_SEQUENCE_MAX_LEN) 0 seq mapped_addr old_addr old_size caller ;;
  (if old_size <? new_size then
     q ← on_seq seq (gets id);
     assert (0 <? nused q)%nat ;;
     ent ← on_seq seq (rd_map (nused q));
     do_mmap (wrap64 (mapped_addr + old_size)) (new_size - old_size) (e_prot ent) (e_flags ent) (seq_filename q)
       (e_offset ent + (wrap64 (old_addr + old_size) - e_begin ent)) caller
   else mret tt) ;;
  if Z.land mremap_flags MREMAP_DONTUNMAP =? 0 then do_munmap old_addr old_size else mret tt.

Definition __mmap_allocator_notify_mremap (mapped_addr old_addr old_size_as_passed new_size mremap_flags
    requested_new_addr caller : Z) : M mstate unit :=
  assert (negb (MMAP_RETURN_IS_ERROR mapped_addr)) ;;
  let old_size := ROUND_UP old_size_as_passed PAGE_SIZE in
  before ← on_bigallocs (__lookup_bigalloc_from_root old_addr mmap_allocator);
  before ← (if before =? 0 then
              __mmap_allocator_notify_mmap old_addr old_size 0 0 (-1) 0 0 ;;
              b ← on_bigallocs (__lookup_bigalloc_from_root old_addr mmap_allocator);
              if b =? 0 then abort else mret b
            else mret before);
  seq ← on_bigallocs (rd allocator_private before);
  if seq =? 0 then abort else
  q ← on_seq seq (gets id);
  if seq_end q <? wrap64 (old_addr + old_size) then abort else
  if (mapped_addr =? old_addr) && (new_size =? old_size) then mret tt else
  assert (negb (new_size =? 0)) ;;
  if (mapped_addr =? old_addr) && (new_size <? old_size) then
    entry_of seq old_addr ;;
    do_munmap (wrap64 (old_addr + new_size)) (old_size - new_size)
  else if (mapped_addr =? old_addr) && (0 <? old_size) && (old_size <? new_size) then
    ent ← entry_of seq old_addr;
    do_mmap (wrap64 (old_addr + old_size)) (new_size - old_size) (e_prot ent) (e_flags ent) (seq_filename q)
      (e_offset ent + (old_addr - e_begin ent) + old_size) caller
  else if (mapped_addr =? old_addr) && (old_size =? 0) then abort
  else if negb (mapped_addr =? old_addr) && negb (old_size =? 0) then
    mremap_move seq mapped_addr old_addr old_size new_size mremap_flags caller
  else if old_size =? 0 then
    ent ← entry_of seq old_addr;
    do_mmap mapped_addr new_size (e_prot ent) (e_flags ent) (seq_filename q)
      (e_offset ent + (old_addr - e_begin ent)) caller
  else abort.

(** ** Mappings that exist at start-up *)

Record maps_entry := MapsEntry {
  first : Z;
  second : Z;
  r_flag : bool;
  w_flag : bool;
  x_flag : bool;
  p_flag : bool;
  maps_offset : Z;
  rest : string;
}.

(** The file name a line stands for; [None] for a line of unknown kind. *)
Definition maps_filename (rest : string) : option (option string) :=
  if bool_decide (rest = "") then Some None
  else if String.prefix "/" rest then Some (Some rest)
  else if String.prefix "[" rest then Some (if String.prefix "[stack" rest then Some rest else None)
  else None.

Definition extend_current (ent : maps_entry) : M mapping_sequence bool :=
  match maps_filename (rest ent) with
  | None => mret false
  | Some filename =>
    augment_sequence get_highest_loaded_object_below (first ent) (second ent)
      (Z.lor (Z.lor (if r_flag ent then PROT_READ else 0) (if w_flag ent then PROT_WRITE else 0))
             (if x_flag ent then PROT_EXEC else 0))
      (Z.lor (if p_flag ent then MAP_PRIVATE else MAP_SHARED) (if is_null filename then MAP_ANONYMOUS else 0))
      (maps_offset ent) filename 0
  end.

Definition on_current {A} (m : M mapping_sequence A) (cur : mapping_sequence) : M mstate (A * mapping_sequence) :=
  match m cur with
  | Done r => mret r
  | Abort => abort
  | NoFuel => nofuel
  end.

Definition set_heap_entry (end_addr : Z) (ent : maps_entry) : maps_entry :=
  MapsEntry (first ent) end_addr (r_flag ent) (w_flag ent) (x_flag ent) (p_flag ent) (maps_offset ent) "".

(** The sequence under construction is returned. *)
Definition add_missing_cb (end_addr : Z) (ent : maps_entry) (cur : mapping_sequence) : M mstate mapping_sequence :=
  let size := wrap64 (second ent - first ent) in
  if BIGGEST_SANE_USER_ALLOC <? size then mret cur else
  if (size =? 0) || (2 ^ 63 <=? first ent) then mret cur else
  let is_heap := String.prefix "[heap" (rest ent) in
  if is_heap && negb (first ent <? end_addr) then mret cur else
  let ent := if is_heap then set_heap_entry end_addr ent else ent in
  ec ← on_current (extend_current ent) cur;
  if (fst ec : bool) then mret (snd ec) else
  add_mapping_sequence_bigalloc_if_absent (snd ec) ;;
  ec ← on_current (extend_current ent) zero_sequence;
  if (fst ec : bool) then mret (snd ec) else abort.

Fixpoint add_missing_lines (end_addr : Z) (lines : list maps_entry) (cur : mapping_sequence) : M mstate mapping_sequence :=
  match lines with
  | [] => mret cur
  | l :: lines => cur ← add_missing_cb end_addr l cur; add_missing_lines end_addr lines cur
  end.

Definition add_missing_mappings_from_proc (lines : list maps_entry) (executable_end_addr : Z) : M mstate unit :=
  assert (negb (bool_decide (lines = []))) ;;
  cur ← add_missing_lines executable_end_addr lines zero_sequence;
  if (0 <? nused cur)%nat then add_mapping_sequence_bigalloc_if_absent cur else mret tt.

(** ** The program break *)

(** Extending the last mapping, or a new anonymous one after it. *)
Definition grow_last_mapping (new_end : Z) : M mapping_sequence unit :=
  modify (set_seq_end new_end) ;;
  q ← gets id;
  match nused q with
  | O => abort
  | S last =>
    e ← rd_map last;
    (if negb (e_is_anon e) then
       wr_map (S last) (fun _ => MappingEntry (e_end e) new_end (Z.lor PROT_READ PROT_WRITE) 0 0 true 0) ;;
       modify (set_nused (S (S last)))
     else wr_map last (set_e_end new_end)) ;;
    check_mapping_sequence_sanity
  end.

Definition __mmap_allocator_notify_brk (new_curbrk : Z) : M mstate unit :=
  b ← gets brk_mapping_bigalloc;
  if b =? 0 then mret tt else
  r ← on_bigallocs (rd id b);
  let old_end := b_end r in
  let new_end := ROUND_UP new_curbrk PAGE_SIZE in
  if old_end <? new_end then
    on_bigallocs (__adjust_bigalloc_end b new_end) ;;
    on_seq (allocator_private r) (grow_last_mapping new_end)
  else if new_end <? old_end then
    on_seq (allocator_private r) (delete_mapping_sequence_span new_end (wrap64 (old_end - new_end))) ;;
    on_bigallocs (__adjust_bigalloc_end b new_end) ;;
    on_seq (allocator_private r) check_mapping_sequence_sanity
  else mret tt.

(** ** Queries *)

(** Base, size and site; there is no type. *)
Definition mmap_get_info (b : Z) : M mstate (Z * Z * Z) :=
  assert (negb (b =? 0)) ;;
  r ← on_bigallocs (rd id b);
  e ← on_seq (allocator_private r) (rd_map 0);
  mret (b_begin r, wrap64 (b_end r - b_begin r), e_caller e).
End ops.

Lemma mmap_no_error p : 0 <= p < 2 ^ 64 - 4096 -> MMAP_RETURN_IS_ERROR p = false.
Proof. intros Hp. unfold MMAP_RETURN_IS_ERROR. rewrite wrap_small by lia. assert (HP : PAGE_SIZE = 4096) by done. lia. Qed.
