(* ===== verification/MmapFacts.v ===== *)
(** The mmap allocator as a map from addresses to mapping attributes.

    [mmap_ok] ties the bigalloc table to the heap of sequences: every mmap
    bigalloc is at top level and owns a sequence of its own that describes
    exactly its range.  [maps_to] is the abstract view; the lemmas say how
    each way of changing a bigalloc together with its sequence changes it. *)
From S2P Require Import Prelude DList Vas BigAlloc PageIndex PageIndexQuery BigAllocFacts Forest Traversal.
From S2P Require Import Traversal Create Delete Resize QueryCorrect Reachable.
From S2P Require Import MappingSeq MappingSeqFacts Mmap.

(** What the private malloc promises: blocks it hands out are not in use. *)
Class MmapLaws (E : MmapEnv) : Prop := {
  mmap_allocator_nonnull : mmap_allocator <> 0;
  nommap_malloc_fresh h : h !! private_nommap_malloc h = None;
  nommap_malloc_nonnull h : private_nommap_malloc h <> 0;
}.

Section facts.
Context {V : Vas} {VL : VasLaws V} {H : Hooks} {E : MmapEnv} {EL : MmapLaws E}.

(** ** Running a part of the state *)

Lemma on_bigallocs_Done {A} (m : M state A) (s : mstate) a t :
  m (m_table s) = Done (a, t) -> on_bigallocs m s = Done (a, set_m_table t s).
Proof. unfold on_bigallocs. by intros ->. Qed.

Lemma on_bigallocs_read {A} (m : M state A) (s : mstate) a :
  m (m_table s) = Done (a, m_table s) -> on_bigallocs m s = Done (a, s).
Proof. intros Em. rewrite (on_bigallocs_Done _ _ _ _ Em). by destruct s. Qed.

Lemma on_seq_Done {A} p (m : M mapping_sequence A) (s : mstate) q a q' :
  sequences s !! p = Some q -> m q = Done (a, q') -> on_seq p m s = Done (a, set_sequence p q' s).
Proof. unfold on_seq. by intros -> ->. Qed.

Lemma on_seq_read {A} p (m : M mapping_sequence A) (s : mstate) q a :
  sequences s !! p = Some q -> m q = Done (a, q) -> on_seq p m s = Done (a, s).
Proof.
  intros Ep Em. rewrite (on_seq_Done p m s q a q Ep Em). destruct s as [t h k]. unfold set_sequence. simpl in *.
  by rewrite insert_id.
Qed.

(** ** The invariant *)

Definition owner (s : mstate) (b p : Z) : Prop :=
  used (m_table s) b /\ allocated_by (ba (m_table s) b) = mmap_allocator /\
  allocator_private (ba (m_table s) b) = p.

Definition described (s : mstate) (b p : Z) (es : list mapping_entry) : Prop :=
  exists q junk, sequences s !! p = Some q /\ seq_ok q es junk /\
    seq_begin q = b_begin (ba (m_table s) b) /\ seq_end q = b_end (ba (m_table s) b).

Record mmap_ok (s : mstate) : Prop := {
  mk_table : table_ok (m_table s);
  mk_top b p : owner s b p -> parent (ba (m_table s) b) = 0;
  mk_seq b p : owner s b p -> exists es, described s b p es;
  mk_distinct b b' p : owner s b p -> owner s b' p -> b = b';
  mk_nonnull b p : owner s b p -> p <> 0;
}.

(** The attributes of the mapping at an address. *)
Definition maps_to (s : mstate) (a : Z) (x : Z * Z * bool * Z) : Prop :=
  exists b p es, owner s b p /\ described s b p es /\ attrs_at es a = Some x.

Lemma described_det s b p es b' es' : described s b p es -> described s b' p es' -> es = es'.
Proof.
  intros (q & j & Eq & Ok & _) (q' & j' & Eq' & Ok' & _). rewrite Eq in Eq'. injection Eq' as <-.
  assert (length es = length es') by (rewrite <- (sq_nused _ _ _ Ok); apply (sq_nused _ _ _ Ok')).
  apply (app_inj_1 es es' j j'); [done|]. by rewrite <- (sq_maps _ _ _ Ok), <- (sq_maps _ _ _ Ok').
Qed.

Lemma described_attrs s b p es a x : described s b p es -> attrs_at es a = Some x -> contains (m_table s) b a.
Proof.
  intros (q & j & Eq & Ok & Eb & Ee) Ha. unfold contains. rewrite <- Eb, <- Ee.
  destruct (decide (seq_begin q <= a < seq_end q)) as [|N]; [done|].
  by rewrite (attrs_at_outside _ _ _ _ (sq_contig _ _ _ Ok) N) in Ha.
Qed.

(** Inside an mmap bigalloc, what is mapped is what its sequence says. *)
Lemma maps_to_inside s b p es a x :
  mmap_ok s -> owner s b p -> described s b p es -> contains (m_table s) b a ->
  maps_to s a x <-> attrs_at es a = Some x.
Proof.
  intros K O D C. split; [|intros Ha; by exists b, p, es].
  intros (b' & p' & es' & O' & D' & Ha). pose proof (described_attrs _ _ _ _ _ _ D' Ha) as C'.
  assert (b' = b) as ->.
  { apply (siblings_same (m_table s) b' b a); [apply K|apply O'|apply O| |done..]. by rewrite (mk_top _ K _ _ O'), (mk_top _ K _ _ O). }
  assert (p' = p) as -> by (destruct O as (_ & _ & <-), O' as (_ & _ & <-); done).
  by rewrite (described_det _ _ _ _ _ _ D' D) in Ha.
Qed.

(** ** Looking up the mapping of an address *)

Context (Sys : systrap_is_initialized = true).

Lemma lookup_mapping_ok s addr : mmap_ok s -> user_address addr ->
  exists r, on_bigallocs (__lookup_bigalloc_from_root (B := release) addr mmap_allocator) s = Done (r, s) /\
    ((r = 0 /\ forall b p, owner s b p -> ~ contains (m_table s) b addr) \/
     (exists p, owner s r p /\ contains (m_table s) r addr)).
Proof.
  intros K Ha. destruct (mk_table _ K) as [W I _ _].
  destruct (find_from_root_ok (m_table s) addr mmap_allocator false W I Ha mmap_allocator_nonnull (or_intror Sys)) as (r & Er & T).
  exists r. split; [apply on_bigallocs_read; exact Er|]. destruct T as [[-> Hn]|[(U & C & Ea) _]].
  - left. split; [done|]. intros b p (U & Ea & _) C. by apply (Hn b).
  - right. exists (allocator_private (ba (m_table s) r)). by split.
Qed.

(** ** Changing a bigalloc and its sequence together *)

Lemma owner_seq s b p : mmap_ok s -> owner s b p -> is_Some (sequences s !! p).
Proof. intros K O. destruct (mk_seq _ K b p O) as (es & q & j & Eq & _). by exists q. Qed.

(** Two states that agree on the owners and on what describes them agree on
    the mapped addresses. *)
Lemma described_ext s s' b p es :
  sequences s' !! p = sequences s !! p -> b_begin (ba (m_table s') b) = b_begin (ba (m_table s) b) ->
  b_end (ba (m_table s') b) = b_end (ba (m_table s) b) -> described s' b p es <-> described s b p es.
Proof. unfold described. by intros -> -> ->. Qed.

Section resize.
Context (s : mstate) (b p : Z) (q' : mapping_sequence) (es' junk' : list mapping_entry) (t : state) (nb ne : Z).
Context (K : mmap_ok s) (O : owner s b p).
Context (F : fits_range (m_table s) b nb ne) (R : resize_ok (m_table s) t b nb ne) (Hsz : ne - nb <= BIGGEST_SANE_USER_ALLOC).
Context (Ok' : seq_ok q' es' junk') (Eb : seq_begin q' = nb) (Ee : seq_end q' = ne).
Let s' := set_sequence p q' (set_m_table t s).

Lemma rs_fields i : allocated_by (ba t i) = allocated_by (ba (m_table s) i) /\
  allocator_private (ba t i) = allocator_private (ba (m_table s) i) /\ parent (ba t i) = parent (ba (m_table s) i).
Proof.
  destruct (decide (i = b)) as [->|N].
  - rewrite (rz_self _ _ _ _ _ (ro_resized _ _ _ _ _ R)). by destruct (ba (m_table s) b).
  - by rewrite (rz_other _ _ _ _ _ (ro_resized _ _ _ _ _ R)).
Qed.

Lemma rs_owner i r : owner s' i r <-> owner s i r.
Proof.
  unfold owner. simpl. destruct (rs_fields i) as (-> & -> & _).
  by rewrite (rz_used _ _ _ _ _ (proj1 O) F (ro_resized _ _ _ _ _ R) i).
Qed.

Lemma rs_described : described s' b p es'.
Proof.
  exists q', junk'. simpl. rewrite lookup_insert_eq, (rz_self _ _ _ _ _ (ro_resized _ _ _ _ _ R)).
  destruct (ba (m_table s) b). by split_and!.
Qed.

Lemma rs_described_ne i r es : owner s i r -> i <> b -> described s' i r es <-> described s i r es.
Proof.
  intros Oi N. assert (r <> p) by (intros ->; by destruct (N (mk_distinct _ K _ _ _ Oi O))).
  apply described_ext; simpl; [by rewrite lookup_insert_ne|by rewrite (rz_other _ _ _ _ _ (ro_resized _ _ _ _ _ R))..].
Qed.

Lemma resize_mapping_ok : mmap_ok s' /\
  forall a x, maps_to s' a x <-> attrs_at es' a = Some x \/ (maps_to s a x /\ ~ contains (m_table s) b a).
Proof.
  split; [split|].
  - by apply (resize_table_ok (m_table s) t b nb ne (mk_table _ K) (proj1 O) F R).
  - intros i r Oi%rs_owner. simpl. destruct (rs_fields i) as (_ & _ & ->). by apply (mk_top _ K i r).
  - intros i r Oi%rs_owner. destruct (decide (i = b)) as [->|N].
    + assert (r = p) as -> by (destruct O as (_ & _ & <-), Oi as (_ & _ & <-); done). exists es'. apply rs_described.
    + destruct (mk_seq _ K i r Oi) as (es & D). exists es. by apply rs_described_ne.
  - intros i i' r Oi%rs_owner Oi'%rs_owner. by apply (mk_distinct _ K i i' r).
  - intros i r Oi%rs_owner. by apply (mk_nonnull _ K i r).
  - intros a x. split.
    + intros (i & r & es & Oi%rs_owner & D & Ha). destruct (decide (i = b)) as [->|N].
      * assert (r = p) as -> by (destruct O as (_ & _ & <-), Oi as (_ & _ & <-); done).
        left. by rewrite <- (described_det _ _ _ _ _ _ D rs_described).
      * right. apply rs_described_ne in D; [|done..]. split; [by exists i, r, es|]. intros C. apply N.
        apply (siblings_same (m_table s) i b a); [apply K|apply Oi|apply O| |by eapply described_attrs|done].
        by rewrite (mk_top _ K _ _ Oi), (mk_top _ K _ _ O).
    + intros [Ha|[(i & r & es & Oi & D & Ha) C]].
      * exists b, p, es'. split_and!; [by apply rs_owner|apply rs_described|done].
      * assert (i <> b) by (intros ->; by destruct (C (described_attrs _ _ _ _ _ _ D Ha))).
        exists i, r, es. split_and!; [by apply rs_owner|by apply rs_described_ne|done].
Qed.
End resize.

(** Deleting a whole mapping bigalloc, with whatever is nested in it. *)
Lemma prune_mapping_ok s t b p :
  mmap_ok s -> owner s b p -> b <> START (m_table s) -> pruned (m_table s) t (ancestor (m_table s) b) ->
  let s' := set_m_table t s in
  mmap_ok s' /\ forall a x, maps_to s' a x <-> maps_to s a x /\ ~ contains (m_table s) b a.
Proof.
  intros K O Ns P s'. destruct (mk_table _ K) as [W I St Sn].
  assert (Hroot : forall i, parent (ba (m_table s) i) = 0 -> ancestor (m_table s) b i -> i = b).
  { intros i Pi A. inversion A as [|? y ? (_ & Ey & Ny)]; [done|]. congruence. }
  assert (Ho : forall i r, owner s' i r <-> owner s i r /\ i <> b).
  { intros i r. unfold owner. simpl. split.
    - intros (U & Ea & Ep). pose proof (pr_meta _ _ _ P i U) as [= _ _ _ Ea' _ Ep' _ _ _].
      apply (pr_used _ _ _ P) in U as [U N]. split_and!; [done|congruence|congruence|].
      intros ->. apply N, ancestor_refl.
    - intros [Oi N]. assert (U : used t i).
      { apply (pr_used _ _ _ P). split; [apply Oi|]. intros A. apply N, Hroot; [by apply (mk_top _ K i r)|done]. }
      pose proof (pr_meta _ _ _ P i U) as [= _ _ _ Ea' _ Ep' _ _ _]. destruct Oi as (_ & ? & ?). split_and!; congruence. }
  assert (Hd : forall i r es, owner s' i r -> described s' i r es <-> described s i r es).
  { intros i r es Oi. pose proof (pr_meta _ _ _ P i (proj1 Oi)) as [= Eb Ee _ _ _ _ _ _ _]. by apply described_ext. }
  split; [split|].
  - split; [apply P..| |by apply (pruned_sane _ _ _ P)]. destruct St as [[U0 P0]|[_ N0]]; [left|by destruct (N0 b (proj1 O))].
    simpl. rewrite (pr_start _ _ _ P). assert (Us : used t (START (m_table s))).
    { apply (pr_used _ _ _ P). split; [done|]. intros A. apply Ns. symmetry. by apply Hroot. }
    split; [done|]. by pose proof (pr_meta _ _ _ P _ Us) as [= _ _ -> _ _ _ _ _ _].
  - intros i r Oi. simpl. pose proof (pr_meta _ _ _ P i (proj1 Oi)) as [= _ _ -> _ _ _ _ _ _].
    apply Ho in Oi as [Oi _]. by apply (mk_top _ K i r).
  - intros i r Oi. destruct (mk_seq _ K i r (proj1 (proj1 (Ho i r) Oi))) as (es & D). exists es. by apply Hd.
  - intros i i' r [Oi _]%Ho [Oi' _]%Ho. by apply (mk_distinct _ K i i' r).
  - intros i r [Oi _]%Ho. by apply (mk_nonnull _ K i r).
  - intros a x. split.
    + intros (i & r & es & Oi & D & Ha). apply Hd in D; [|done]. apply Ho in Oi as [Oi N]. split; [by exists i, r, es|].
      intros C. apply N. apply (siblings_same (m_table s) i b a); [done|apply Oi|apply O| |by eapply described_attrs|done].
      by rewrite (mk_top _ K _ _ Oi), (mk_top _ K _ _ O).
    + intros [(i & r & es & Oi & D & Ha) C]. assert (N : i <> b) by (intros ->; by destruct (C (described_attrs _ _ _ _ _ _ D Ha))).
      exists i, r, es. assert (owner s' i r) by by apply Ho. split_and!; [done|by apply Hd|done].
Qed.

(** A sequence that no bigalloc owns yet. *)
Lemma fresh_sequence_ok s p q :
  mmap_ok s -> sequences s !! p = None ->
  let s' := set_sequence p q s in
  mmap_ok s' /\ (forall a x, maps_to s' a x <-> maps_to s a x) /\ (forall b, ~ owner s' b p).
Proof.
  intros K Np s'.
  assert (Hd : forall b r es, owner s b r -> described s' b r es <-> described s b r es).
  { intros b r es O. apply described_ext; [|done..]. simpl. rewrite lookup_insert_ne; [done|].
    intros <-. destruct (owner_seq s b p K O). congruence. }
  split_and!.
  - split; [apply K|apply K| |apply K..]. intros b r O. destruct (mk_seq _ K b r O) as (es & D). exists es. by apply Hd.
  - intros a x. split; intros (b & r & es & O & D & Ha); exists b, r, es; (split_and!; [done|by apply Hd|done]).
  - intros b O. destruct (owner_seq s b p K O). congruence.
Qed.

(** A new bigalloc that takes over such a sequence. *)
Lemma create_mapping_ok s t b p f q es junk ptr size :
  mmap_ok s -> START (m_table s) <> 0 -> created (m_table s) t b -> ~ used (m_table s) b ->
  meta (ba t b) = (ptr, ptr + size, 0, mmap_allocator, 0, 0, 0, 0, 0) -> size <= BIGGEST_SANE_USER_ALLOC ->
  sequences s !! p = Some q -> p <> 0 -> (forall b', ~ owner s b' p) ->
  seq_ok q es junk -> seq_begin q = ptr -> seq_end q = ptr + size ->
  let s' := set_m_table (upd b (set_private p f) t) s in
  mmap_ok s' /\ forall a x, maps_to s' a x <-> maps_to s a x \/ attrs_at es a = Some x.
Proof.
  intros K Nst C Nu Mb Hs Ep Np No Ok Eb Ee s'. destruct (mk_table _ K) as [W I St Sn].
  assert (Nb : b <> 0).
  { assert (U : used t b) by (apply (cr_used _ _ _ C); by left). apply (used_nonzero t); [apply C|done]. }
  assert (Hsh : forall i, shape (ba (upd b (set_private p f) t) i) = shape (ba t i)).
  { intros i. rewrite ba_upd. case_decide; [subst; by destruct (ba t i)|done]. }
  assert (Hm : forall i, i <> b -> meta (ba (m_table s') i) = meta (ba (m_table s) i)).
  { intros i N. simpl. rewrite ba_upd_ne by done. by apply (cr_meta _ _ _ C). }
  assert (Hu : forall i, used (m_table s') i <-> i = b \/ used (m_table s) i).
  { intros i. rewrite <- (cr_used _ _ _ C). unfold used. simpl. by pose proof (Hsh i) as [= -> -> _ _ _ _]. }
  assert (Hself : owner s' b p /\ parent (ba (m_table s') b) = 0 /\ b_begin (ba (m_table s') b) = ptr /\ b_end (ba (m_table s') b) = ptr + size).
  { injection Mb as Eb' Ee' Epa Ea _ _ _ _ _. simpl. unfold owner. simpl. rewrite ba_upd_eq.
    split_and!; [apply Hu; by left|done..]. }
  destruct Hself as (Ob & Pb & Bb & Be).
  assert (Ho : forall i r, i <> b -> owner s' i r <-> owner s i r).
  { intros i r N. unfold owner. rewrite Hu. simpl. pose proof (Hm i N) as [= _ _ _ -> _ -> _ _ _]. naive_solver. }
  assert (Hd : forall i r es', i <> b -> described s' i r es' <-> described s i r es').
  { intros i r es' N. pose proof (Hm i N) as [= E1 E2 _ _ _ _ _ _ _]. by apply described_ext. }
  assert (Db : described s' b p es) by (exists q, junk; rewrite Bb, Be; by split_and!).
  assert (Hp : forall r, owner s' b r -> r = p) by (intros r (_ & _ & Er); destruct Ob as (_ & _ & Er'); congruence).
  split; [split|].
  - split.
    + apply (wf_shape t); [done| |apply C]. simpl. by rewrite ba_upd_ne.
    + apply (index_shape t); [done|done|apply C].
    + destruct St as [[U0 P0]|[? _]]; [left|done]. simpl. rewrite (cr_start _ _ _ C).
      assert (START (m_table s) <> b) by (intros E0; by rewrite E0 in U0). split; [apply Hu; by right|].
      by pose proof (Hm (START (m_table s)) ltac:(done)) as [= _ _ -> _ _ _ _ _ _].
    + intros i Ui. destruct (decide (i = b)) as [->|N]; [rewrite Bb, Be; lia|].
      apply Hu in Ui as [->|Ui]; [done|]. simpl. pose proof (Hm i N) as [= -> -> _ _ _ _ _ _ _]. by apply Sn.
  - intros i r Oi. destruct (decide (i = b)) as [->|N]; [done|]. simpl. pose proof (Hm i N) as [= _ _ -> _ _ _ _ _ _].
    by apply (mk_top _ K i r), Ho.
  - intros i r Oi. destruct (decide (i = b)) as [->|N]; [rewrite (Hp r Oi); by exists es|].
    apply Ho in Oi; [|done]. destruct (mk_seq _ K i r Oi) as (es' & D). exists es'. by apply Hd.
  - intros i i' r Oi Oi'. destruct (decide (i = b)) as [->|N], (decide (i' = b)) as [->|N']; [done| | |].
    + rewrite (Hp r Oi) in Oi'. apply Ho in Oi'; [|done]. by destruct (No i').
    + rewrite (Hp r Oi') in Oi. apply Ho in Oi; [|done]. by destruct (No i).
    + apply Ho in Oi, Oi'; [|done..]. by apply (mk_distinct _ K i i' r).
  - intros i r Oi. destruct (decide (i = b)) as [->|N]; [by rewrite (Hp r Oi)|]. apply Ho in Oi; [|done]. by apply (mk_nonnull _ K i r).
  - intros a x. split.
    + intros (i & r & es' & Oi & D & Ha). destruct (decide (i = b)) as [->|N].
      * right. rewrite (Hp r Oi) in D. by rewrite <- (described_det _ _ _ _ _ _ D Db).
      * left. exists i, r, es'. split_and!; [by apply Ho|by apply Hd|done].
    + intros [(i & r & es' & Oi & D & Ha)|Ha]; [|by exists b, p, es].
      assert (N : i <> b) by (intros ->; by destruct Oi). exists i, r, es'. split_and!; [by apply Ho|by apply Hd|done].
Qed.
End facts.
