(* ===== verification/MapFacts.v ===== *)
(** Unmapping and mapping a range.

    [do_munmap] deletes the mapping bigallocs that lie in the range, cuts those
    that overlap one of its ends, and leaves every other mapping as it was.
    [do_mmap] extends the mapping bigalloc that ends where the range begins,
    when its sequence can take another entry, and creates a new one
    otherwise. *)
From S2P Require Import Prelude DList Vas BigAlloc PageIndex PageIndexQuery BigAllocFacts Forest Traversal.
From S2P Require Import Attach Create Delete Resize QueryCorrect Reachable MappingSeq MappingSeqFacts Mmap.
From S2P Require Import MmapFacts.

Section munmap.
Context {V : Vas} {VL : VasLaws V} {H : Hooks} {E : MmapEnv} {EL : MmapLaws E}.
Context (Sys : systrap_is_initialized = true).

(** Nothing but the mappings in [lo, hi) has gone. *)
Definition gone (s s' : mstate) (lo hi : Z) : Prop :=
  forall a x, maps_to s' a x <-> maps_to s a x /\ ~ lo <= a < hi.

(** A range that may be unmapped: it is made of whole pages, is not a hole in
    the middle of one bigalloc, cuts no nested allocation out of a bigalloc
    that survives, and spares the anchor of the top-level list. *)
Record unmappable (s : mstate) (lo hi : Z) : Prop := {
  um_range : 0 < lo <= hi /\ hi <= MAXIMUM_USER_ADDRESS + 1;
  um_pages : lo mod PAGE_SIZE = 0 /\ hi mod PAGE_SIZE = 0;
  um_no_hole b p : owner s b p -> lo <= b_begin (ba (m_table s) b) \/ b_end (ba (m_table s) b) <= hi;
  um_kids b p c : owner s b p -> used (m_table s) c -> parent (ba (m_table s) c) = b ->
    b_begin (ba (m_table s) b) < lo < b_end (ba (m_table s) b) \/
      b_begin (ba (m_table s) b) < hi < b_end (ba (m_table s) b) ->
    b_end (ba (m_table s) c) <= lo \/ hi <= b_begin (ba (m_table s) c);
  um_start p : owner s (START (m_table s)) p ->
    ~ (lo <= b_begin (ba (m_table s) (START (m_table s))) /\ b_end (ba (m_table s) (START (m_table s))) <= hi);
}.

(** What the steps of the loop do to the table below the address reached. *)
Record later (s s' : mstate) (lo : Z) : Prop := {
  lt_start : START (m_table s') = START (m_table s);
  lt_used i : used (m_table s') i -> used (m_table s) i;
  lt_meta i : used (m_table s') i ->
    allocated_by (ba (m_table s') i) = allocated_by (ba (m_table s) i) /\
    allocator_private (ba (m_table s') i) = allocator_private (ba (m_table s) i) /\
    parent (ba (m_table s') i) = parent (ba (m_table s) i) /\
    b_begin (ba (m_table s') i) = b_begin (ba (m_table s) i) /\
    (b_end (ba (m_table s') i) = b_end (ba (m_table s) i) \/
     b_end (ba (m_table s') i) <= lo /\ b_end (ba (m_table s') i) <= b_end (ba (m_table s) i));
  lt_clear b p : owner s' b p -> lo <= b_begin (ba (m_table s') b) \/ b_end (ba (m_table s') b) <= lo;
}.

Lemma unmappable_later s s' lo lo' hi :
  unmappable s lo hi -> mmap_ok s' -> later s s' lo' -> lo <= lo' <= hi -> lo' mod PAGE_SIZE = 0 ->
  unmappable s' lo' hi.
Proof.
  intros [R P Hh Hk Hs] K' L Hlo Ha.
  assert (Ho : forall i r, owner s' i r -> owner s i r).
  { intros i r (U & Ea & Ep). destruct (lt_meta _ _ _ L i U) as (E1 & E2 & _). split_and!; [by apply (lt_used _ _ _ L)|congruence..]. }
  split.
  - lia.
  - by split; [|apply P].
  - intros b p O. destruct (lt_clear _ _ _ L b p O); [by left|right; lia].
  - intros b p c O Uc Pc Hov. destruct (lt_clear _ _ _ L b p O) as [?|?]; [|lia].
    destruct (lt_meta _ _ _ L b (proj1 O)) as (_ & _ & _ & Eb & Ee).
    destruct (lt_meta _ _ _ L c Uc) as (_ & _ & Epc & Ebc & Eec).
    destruct (Hk b p c (Ho _ _ O) (lt_used _ _ _ L c Uc) ltac:(congruence)) as [?|?]; [right; lia|left; lia|right; lia].
  - intros p O. pose proof O as Os. rewrite (lt_start _ _ _ L) in *.
    destruct (lt_meta _ _ _ L _ (proj1 O)) as (_ & _ & _ & Eb & Ee).
    pose proof (wf_bounds _ (tk_wf _ (mk_table _ K')) _ (proj1 O)). intros [? ?]. apply (Hs p (Ho _ _ O)). lia.
Qed.

(** ** Shrinking one bigalloc *)

Lemma owner_disjoint s b p i : mmap_ok s -> owner s b p -> used (m_table s) i -> parent (ba (m_table s) i) = 0 -> i <> b ->
  b_end (ba (m_table s) b) <= b_begin (ba (m_table s) i) \/ b_end (ba (m_table s) i) <= b_begin (ba (m_table s) b).
Proof.
  intros K O U P N. destruct (wf_disjoint _ (tk_wf _ (mk_table _ K)) b i (proj1 O) U) as [?|?]; [done| |by left|by right].
  by rewrite P, (mk_top _ K _ _ O).
Qed.

Lemma fits_shrink s b p nb ne :
  mmap_ok s -> owner s b p -> b_begin (ba (m_table s) b) <= nb < ne -> ne <= b_end (ba (m_table s) b) ->
  nb mod PAGE_SIZE = 0 -> ne mod PAGE_SIZE = 0 ->
  (forall c, used (m_table s) c -> parent (ba (m_table s) c) = b ->
     nb <= b_begin (ba (m_table s) c) /\ b_end (ba (m_table s) c) <= ne) ->
  fits_range (m_table s) b nb ne.
Proof.
  intros K O Hn He An Ae Hk. pose proof (wf_bounds _ (tk_wf _ (mk_table _ K)) b (proj1 O)).
  pose proof (mk_top _ K _ _ O) as Pb. split; [lia|lia|done|done|done|].
  intros c U N P. rewrite Pb in P. destruct (owner_disjoint s b p c K O U P N); lia.
Qed.

Lemma gone_resize s b p es q' es' junk' t nb ne lo hi :
  mmap_ok s -> owner s b p -> described s b p es -> fits_range (m_table s) b nb ne ->
  resize_ok (m_table s) t b nb ne -> b_begin (ba (m_table s) b) <= nb -> ne <= b_end (ba (m_table s) b) ->
  seq_ok q' es' junk' -> seq_begin q' = nb -> seq_end q' = ne ->
  b_begin (ba (m_table s) b) <= lo -> hi <= b_end (ba (m_table s) b) ->
  (forall a, contains (m_table s) b a -> attrs_at es' a = if decide (lo <= a < hi) then None else attrs_at es a) ->
  let s' := set_sequence p q' (set_m_table t s) in mmap_ok s' /\ gone s s' lo hi.
Proof.
  intros K O D F R Hnb Hne Ok' Eb Ee Hlo Hhi Ha. pose proof (tk_sane _ (mk_table _ K) b (proj1 O)) as Sn.
  destruct (resize_mapping_ok s b p q' es' junk' t nb ne K O F R ltac:(lia) Ok' Eb Ee) as [K' M].
  split; [exact K'|]. intros a x. rewrite (M a x). destruct (decide (b_begin (ba (m_table s) b) <= a < b_end (ba (m_table s) b))) as [C|C].
  - rewrite (maps_to_inside s b p es a x K O D C), (Ha a C). case_decide; unfold contains; naive_solver.
  - rewrite (attrs_at_outside _ _ _ a (sq_contig _ _ _ Ok')) by lia. unfold contains. split; [intros [?|[? _]]; [done|]|].
    + split; [done|lia].
    + intros [? _]. by right.
Qed.

Lemma later_resize s b p q' t ne lo :
  mmap_ok s -> owner s b p -> used t b ->
  resize_ok (m_table s) t b (b_begin (ba (m_table s) b)) ne -> ne <= b_end (ba (m_table s) b) -> lo = b_end (ba (m_table s) b) ->
  fits_range (m_table s) b (b_begin (ba (m_table s) b)) ne ->
  later s (set_sequence p q' (set_m_table t s)) lo.
Proof.
  intros K O U R Hne -> F. pose proof (ro_resized _ _ _ _ _ R) as Rz.
  assert (Hu : forall i, used t i <-> used (m_table s) i) by (intros i; by apply (rz_used _ _ _ _ _ (proj1 O) F Rz)).
  assert (Hf : forall i, i <> b -> ba t i = ba (m_table s) i) by apply Rz.
  assert (Hb : ba t b = set_end ne (ba (m_table s) b)) by (rewrite (rz_self _ _ _ _ _ Rz); by destruct (ba (m_table s) b)).
  split; simpl.
  - apply Rz.
  - intros i. apply Hu.
  - intros i _. destruct (decide (i = b)) as [->|N]; [rewrite Hb|by rewrite Hf; [split_and!; try done; left|]].
    destruct (ba (m_table s) b) eqn:Eb. simpl in *. split_and!; [done..|right; lia].
  - intros i r (Ui & Ea & _). simpl in *. destruct (decide (i = b)) as [->|N].
    { right. rewrite Hb. simpl. lia. }
    rewrite (Hf i N) in *. apply Hu in Ui. assert (Oi : owner s i (allocator_private (ba (m_table s) i))) by done.
    destruct (owner_disjoint s b p i K O Ui (mk_top _ K _ _ Oi) N); [by left|right].
    pose proof (wf_bounds _ (tk_wf _ (mk_table _ K)) b (proj1 O)). lia.
Qed.

(** ** The steps of the loop *)

Lemma owner_user s b p a : mmap_ok s -> owner s b p -> contains (m_table s) b a -> user_address a.
Proof.
  intros K O C. pose proof (wf_bounds _ (tk_wf _ (mk_table _ K)) b (proj1 O)). unfold contains, user_address in *. lia.
Qed.

Lemma find_mapping_ok s b p a : mmap_ok s -> owner s b p -> contains (m_table s) b a ->
  find_bigalloc_from_root a mmap_allocator (m_table s) = Done (b, m_table s).
Proof.
  intros K O C. destruct (mk_table _ K) as [W I _ _].
  destruct (find_from_root_ok (m_table s) a mmap_allocator false W I (owner_user s b p a K O C) mmap_allocator_nonnull
    (or_introl (ex_intro _ b (conj (proj1 O) C)))) as (r & Er & T).
  replace r with b in Er; [exact Er|]. destruct T as [[-> Hn]|[(U & Cr & Ea) _]].
  - destruct (Hn b). split_and!; [apply O|done|apply O].
  - assert (Or : owner s r (allocator_private (ba (m_table s) r))) by done.
    apply (siblings_same (m_table s) b r a); [done|apply O|done| |done..]. by rewrite (mk_top _ K _ _ O), (mk_top _ K _ _ Or).
Qed.

Lemma wrap_user a : 0 <= a <= MAXIMUM_USER_ADDRESS + 1 -> wrap64 a = a.
Proof. intros. apply wrap_small. destruct max_user_address_spec as [[_ ?] _]. lia. Qed.

Lemma later_pruned s t b p :
  mmap_ok s -> owner s b p -> pruned (m_table s) t (ancestor (m_table s) b) ->
  later s (set_m_table t s) (b_end (ba (m_table s) b)).
Proof.
  intros K O P. split; simpl.
  - apply P.
  - intros i U. by apply (pr_used _ _ _ P) in U as [? _].
  - intros i U. pose proof (pr_meta _ _ _ P i U) as [= -> -> -> -> _ -> _ _ _]. split_and!; [done..|by left].
  - intros i r (Ui & Ea & _). simpl in *. pose proof (pr_meta _ _ _ P i Ui) as [= -> -> _ Ea' _ _ _ _ _].
    apply (pr_used _ _ _ P) in Ui as [Ui Na]. assert (N : i <> b) by (intros ->; apply Na, ancestor_refl).
    rewrite Ea in Ea'. assert (Oi : owner s i (allocator_private (ba (m_table s) i))) by done.
    pose proof (wf_bounds _ (tk_wf _ (mk_table _ K)) b (proj1 O)).
    destruct (owner_disjoint s b p i K O Ui (mk_top _ K _ _ Oi) N); lia.
Qed.

(** A bigalloc inside the range goes. *)
Lemma unmap_whole s b p lo hi :
  mmap_ok s -> owner s b p -> unmappable s lo hi -> lo <= b_begin (ba (m_table s) b) -> b_end (ba (m_table s) b) <= hi ->
  exists s', on_bigallocs (__liballocs_delete_bigalloc_at (B := release) (b_begin (ba (m_table s) b)) mmap_allocator) s = Done (true, s') /\
    mmap_ok s' /\ gone s s' (b_begin (ba (m_table s) b)) (b_end (ba (m_table s) b)) /\ later s s' (b_end (ba (m_table s) b)).
Proof.
  intros K O Hu Hlo Hhi. destruct (mk_table _ K) as [W I St Sn]. pose proof (wf_bounds _ W b (proj1 O)) as Hb.
  destruct (bigalloc_del_ok (m_table s) b W I Sn (proj1 O)) as (t & Et & P).
  assert (Ns : b <> START (m_table s)).
  { intros Eb. pose proof (um_start _ _ _ Hu p) as Hs. rewrite <- Eb in Hs. apply (Hs O). lia. }
  destruct (prune_mapping_ok s t b p K O Ns P) as [K' M]. exists (set_m_table t s). split_and!; [|done|done|by eapply later_pruned].
  apply on_bigallocs_Done. unfold __liballocs_delete_bigalloc_at.
  rewrite (bind_Done _ _ _ _ _ (find_mapping_ok s b p (b_begin (ba (m_table s) b)) K O ltac:(unfold contains; lia))).
  rewrite (proj2 (Z.eqb_neq b 0)) by (apply (used_nonzero (m_table s)); [done|apply O]). by rewrite (bind_Done _ _ _ _ _ Et).
Qed.

(** A bigalloc that begins before the range is cut where the range begins. *)
Lemma unmap_tail s b p lo hi :
  mmap_ok s -> owner s b p -> unmappable s lo hi -> b_begin (ba (m_table s) b) < lo < b_end (ba (m_table s) b) ->
  b_end (ba (m_table s) b) <= hi ->
  exists s', (on_bigallocs (__liballocs_truncate_bigalloc_at_end (B := release) b lo) ;;
      on_seq p (delete_mapping_sequence_span (B := release) lo (b_end (ba (m_table s) b) - lo))) s = Done (tt, s') /\
    mmap_ok s' /\ gone s s' lo (b_end (ba (m_table s) b)) /\ later s s' (b_end (ba (m_table s) b)).
Proof.
  intros K O Hu Hlo Hhi. destruct (mk_table _ K) as [W I St Sn]. pose proof (wf_bounds _ W b (proj1 O)) as Hb.
  destruct (um_pages _ _ _ Hu) as [Al _]. destruct (wf_aligned _ W b (proj1 O) (mk_top _ K _ _ O)) as [Ab _].
  assert (F : fits_range (m_table s) b (b_begin (ba (m_table s) b)) lo).
  { apply (fits_shrink s b p); try (done || lia). intros c U P.
    destruct (wf_parent _ W c U) as (_ & ? & ?); [rewrite P; apply (used_nonzero (m_table s)); [done|apply O]|].
    rewrite P in *. pose proof (wf_bounds _ W c U). destruct (um_kids _ _ _ Hu b p c O U P); lia. }
  destruct (truncate_end_ok (m_table s) b W I (proj1 O) Sn lo F ltac:(lia) ltac:(page_lia)) as (t & Et & R).
  destruct (mk_seq _ K b p O) as (es & D). destruct D as (q & junk & Eq & Ok & Eqb & Eqe).
  destruct (delete_suffix_ok (B := release) q es junk lo Ok ltac:(lia)) as (q' & es' & junk' & Ed & Ok' & Eb' & Ee' & _ & Ha).
  destruct (gone_resize s b p es q' es' junk' t (b_begin (ba (m_table s) b)) lo lo (b_end (ba (m_table s) b))) as [K' G]; try (done || lia).
  { by exists q, junk. }
  { intros a C. rewrite Ha. unfold contains in C. repeat case_decide; (done || lia). }
  eexists. split_and!; [|exact K'|exact G|].
  - rewrite (bind_Done _ _ _ _ _ (on_bigallocs_Done _ _ _ _ Et)). rewrite <- Eqe. by apply (on_seq_Done p _ _ q).
  - apply (later_resize s b p _ t lo); try (done || lia). apply (rz_used _ _ _ _ _ (proj1 O) F (ro_resized _ _ _ _ _ R)), O.
Qed.

(** A bigalloc that runs past the range loses its beginning. *)
Lemma unmap_head s b p lo hi :
  mmap_ok s -> owner s b p -> unmappable s lo hi -> lo = b_begin (ba (m_table s) b) -> lo < hi < b_end (ba (m_table s) b) ->
  exists s', (on_bigallocs (__liballocs_truncate_bigalloc_at_beginning (B := release) b hi) ;;
      on_seq p (delete_mapping_sequence_span (B := release) lo (hi - lo))) s = Done (tt, s') /\
    mmap_ok s' /\ gone s s' lo hi.
Proof.
  intros K O Hu -> Hhi. destruct (mk_table _ K) as [W I St Sn]. pose proof (wf_bounds _ W b (proj1 O)) as Hb.
  destruct (um_pages _ _ _ Hu) as [_ Ah]. destruct (wf_aligned _ W b (proj1 O) (mk_top _ K _ _ O)) as [_ Ae].
  assert (F : fits_range (m_table s) b hi (b_end (ba (m_table s) b))).
  { apply (fits_shrink s b p); try (done || lia). intros c U P.
    destruct (wf_parent _ W c U) as (_ & ? & ?); [rewrite P; apply (used_nonzero (m_table s)); [done|apply O]|].
    rewrite P in *. pose proof (wf_bounds _ W c U). destruct (um_kids _ _ _ Hu b p c O U P); lia. }
  destruct (truncate_beginning_ok (m_table s) b W I (proj1 O) Sn hi F ltac:(lia) ltac:(page_lia)) as (t & Et & R).
  destruct (mk_seq _ K b p O) as (es & D). destruct D as (q & junk & Eq & Ok & Eqb & Eqe).
  destruct (delete_prefix_ok (B := release) q es junk hi Ok ltac:(lia)) as (q' & es' & junk' & Ed & Ok' & Eb' & Ee' & _ & Ha).
  destruct (gone_resize s b p es q' es' junk' t hi (b_end (ba (m_table s) b)) (b_begin (ba (m_table s) b)) hi) as [K' G]; try (done || lia).
  { by exists q, junk. }
  { intros a C. rewrite Ha. unfold contains in C. repeat case_decide; (done || lia). }
  eexists. split_and!; [|exact K'|exact G].
  rewrite (bind_Done _ _ _ _ _ (on_bigallocs_Done _ _ _ _ Et)). rewrite <- Eqb. by apply (on_seq_Done p _ _ q).
Qed.

(** ** The loop *)

Lemma gone_trans s s1 s2 lo mid hi : lo <= mid <= hi -> gone s s1 lo mid -> gone s1 s2 mid hi -> gone s s2 lo hi.
Proof. intros Hm G1 G2 a x. rewrite (G2 a x), (G1 a x). intuition lia. Qed.

(** Where no mapping bigalloc lies, nothing is mapped. *)
Lemma gone_nothing s lo hi : (forall b p a, owner s b p -> lo <= a < hi -> ~ contains (m_table s) b a) -> gone s s lo hi.
Proof.
  intros Hn a x. split; [|by intros [? _]]. intros M. split; [done|]. intros Ha.
  destruct M as (b & p & es & O & D & Hx). by apply (Hn b p a O Ha), (described_attrs s b p es a x).
Qed.

Lemma later_gap s lo : mmap_ok s -> lo mod PAGE_SIZE = 0 -> (forall b p, owner s b p -> ~ contains (m_table s) b lo) ->
  later s s (lo + PAGE_SIZE).
Proof.
  intros K Al Hn. split; [done..| |].
  - intros i U. split_and!; [done..|by left].
  - intros b p O. specialize (Hn b p O). unfold contains in Hn.
    destruct (wf_aligned _ (tk_wf _ (mk_table _ K)) b (proj1 O) (mk_top _ K _ _ O)) as [? ?]. page_lia.
Qed.

Lemma munmap_loop_ok fuel : forall s addr len lo hi,
  addr + len = hi -> mmap_ok s -> unmappable s lo hi -> (hi - lo) / PAGE_SIZE < Z.of_nat fuel ->
  exists s', munmap_loop (B := release) fuel addr len lo (hi - lo) s = Done (tt, s') /\ mmap_ok s' /\ gone s s' lo hi.
Proof.
  induction fuel as [|fuel IH]; intros s addr len lo hi Eh K Hu Hf;
    destruct (um_range _ _ _ Hu) as [Hr Hm]; [page_lia|].
  destruct (um_pages _ _ _ Hu) as [Al Ah]. assert (HP : PAGE_SIZE = 4096) by done.
  cbn [munmap_loop]. rewrite (wrap_user (addr + len)), Eh by lia.
  destruct (Z.ltb_spec lo hi) as [Hlt|Hge]; cbn [negb].
  2:{ exists s. split_and!; [done..|]. apply gone_nothing. lia. }
  destruct (lookup_mapping_ok Sys s lo K ltac:(unfold user_address; lia)) as (b & Eb & [[-> Hn]|(p & O & C)]);
    rewrite (bind_Done _ _ _ _ _ Eb); clear Eb.
  { cbn [Z.eqb]. assert (lo + PAGE_SIZE <= hi) by page_lia. rewrite (wrap_user (lo + PAGE_SIZE)), (wrap_user (hi - lo - PAGE_SIZE)) by lia.
    replace (hi - lo - PAGE_SIZE) with (hi - (lo + PAGE_SIZE)) by lia.
    pose proof (later_gap s lo K Al Hn) as L.
    destruct (IH s addr len (lo + PAGE_SIZE) hi Eh K) as (s' & Es & K' & G); [|page_lia|].
    { apply (unmappable_later s s lo); [done..|lia|page_lia]. }
    exists s'. split_and!; [done..|]. eapply gone_trans; [|apply gone_nothing|exact G]; [lia|].
    intros b p a O Ha C. specialize (Hn b p O). unfold contains in *.
    destruct (wf_aligned _ (tk_wf _ (mk_table _ K)) b (proj1 O) (mk_top _ K _ _ O)) as [? ?]. page_lia. }
  destruct (mk_table _ K) as [W I St Sn]. pose proof (wf_bounds _ W b (proj1 O)) as Hb.
  destruct (wf_aligned _ W b (proj1 O) (mk_top _ K _ _ O)) as [Ab Ae].
  rewrite (proj2 (Z.eqb_neq b 0)) by (apply (used_nonzero (m_table s)); [done|apply O]).
  rewrite (bind_Done _ _ _ _ _ (on_bigallocs_read (rd id b) s (ba (m_table s) b) eq_refl)).
  rewrite (bind_Done _ _ s tt s) by done. replace (lo + (hi - lo)) with hi by lia. rewrite !(wrap_user hi) by lia.
  unfold contains in C. set (e := b_end (ba (m_table s) b)) in *.
  assert (Hnext : e <= hi -> forall s1, mmap_ok s1 -> gone s s1 lo e -> later s s1 e ->
    exists s', munmap_loop (B := release) fuel addr len e (hi - e) s1 = Done (tt, s') /\ mmap_ok s' /\ gone s s' lo hi).
  { intros He s1 K1 G1 L1. destruct (IH s1 addr len e hi Eh K1) as (s' & Es & K' & G); [|page_lia|].
    { apply (unmappable_later s s1 lo); [done..|lia|done]. }
    exists s'. split_and!; [done..|]. by eapply gone_trans; [|exact G1|exact G]; lia. }
  destruct (Z.eqb_spec lo (b_begin (ba (m_table s) b))) as [El|Nl]; [|rewrite (bind_Done _ _ s tt s) by done];
    destruct (Z.leb_spec e hi) as [Hle|Hgt].
  - destruct (unmap_whole s b p lo hi K O Hu) as (s1 & E1 & K1 & G1 & L1); [lia|done|].
    rewrite (bind_Done _ _ _ _ _ E1), (wrap_user (hi - lo - (e - lo))) by lia.
    replace (hi - lo - (e - lo)) with (hi - e) by lia. apply Hnext; [done..| |done]. by rewrite El.
  - destruct O as (? & ? & Ep). rewrite Ep. apply unmap_head; (done || lia).
  - rewrite (wrap_user (e - lo)) by lia. destruct O as (? & ? & Ep). rewrite Ep.
    destruct (unmap_tail s b p lo hi K) as (s1 & E1 & K1 & G1 & L1); [done..|lia|done|].
    fold e in E1. unfold mbind, M_bind in E1 |- *. destruct (on_bigallocs _ s) as [[? s2]| |]; [|done..].
    rewrite E1. rewrite (wrap_user (lo + (e - lo))), (wrap_user (hi - lo - (e - lo))) by lia.
    replace (hi - lo - (e - lo)) with (hi - e) by lia. replace (lo + (e - lo)) with e by lia. by apply Hnext.
  - exfalso. destruct (um_no_hole _ _ _ Hu b p O); lia.
Qed.

Lemma do_munmap_ok s addr len :
  mmap_ok s -> 0 < len -> let hi := addr + ROUND_UP len PAGE_SIZE in unmappable s addr hi ->
  exists s', do_munmap (B := release) addr len s = Done (tt, s') /\ mmap_ok s' /\ gone s s' addr hi.
Proof.
  intros K Hl hi Hu. destruct (um_range _ _ _ Hu). unfold do_munmap.
  assert (Er : ROUND_UP len PAGE_SIZE = hi - addr) by lia. rewrite Er.
  apply munmap_loop_ok; [lia|done..|]. rewrite pagenum_down by lia. unfold page_down.
  rewrite Nat2Z.inj_add, Z2Nat.id by page_lia. lia.
Qed.
End munmap.

Section mmap.
Context {V : Vas} {VL : VasLaws V} {H : Hooks} {E : MmapEnv} {EL : MmapLaws E}.
Context (Sys : systrap_is_initialized = true).

(** A range of whole pages that no bigalloc meets. *)
Record free_range (s : mstate) (lo hi : Z) : Prop := {
  fg_range : 0 < lo < hi /\ hi <= MAXIMUM_USER_ADDRESS + 1;
  fg_pages : lo mod PAGE_SIZE = 0 /\ hi mod PAGE_SIZE = 0;
  fg_free i a : used (m_table s) i -> lo <= a < hi -> ~ contains (m_table s) i a;
}.

Lemma free_clear s lo hi i : wf (m_table s) -> free_range s lo hi -> used (m_table s) i ->
  hi <= b_begin (ba (m_table s) i) \/ b_end (ba (m_table s) i) <= lo.
Proof.
  intros W F U. destruct (fg_range _ _ _ F) as [Hr _]. pose proof (wf_bounds _ W i U).
  destruct (decide (hi <= b_begin (ba (m_table s) i))); [by left|right]. apply Z.le_ngt. intros Hgt.
  apply (fg_free _ _ _ F i (Z.max lo (b_begin (ba (m_table s) i))) U); unfold contains; lia.
Qed.

(** ** Looking for an overlap *)

Lemma free_page s lo hi p : mmap_ok s -> free_range s lo hi -> lo <= p * PAGE_SIZE < hi -> pi (m_table s) p = 0.
Proof.
  intros K F Hp. destruct (mk_table _ K) as [W I _ _]. destruct (fg_range _ _ _ F).
  assert (Ep : PAGENUM (p * PAGE_SIZE) = p) by (rewrite PAGENUM_spec by lia; by rewrite Z.div_mul).
  rewrite <- Ep at 1. apply (index_none _ _ W I); [unfold user_address; lia|].
  intros i U. by apply (fg_free _ _ _ F).
Qed.

Lemma scan_free s lo hi k : mmap_ok s -> free_range s lo hi -> forall p,
  lo <= p * PAGE_SIZE -> (p + Z.of_nat k) * PAGE_SIZE <= hi -> scan_overlap k p s = Done (0, s).
Proof.
  intros K F. assert (HP : PAGE_SIZE = 4096) by done. induction k as [|k IH]; intros p Hl Hh; [done|]. cbn [scan_overlap].
  rewrite (bind_Done _ _ _ _ _ (on_bigallocs_read (pi_get p) s (pi (m_table s) p) eq_refl)).
  rewrite (free_page s lo hi p K F) by lia. cbn [Z.eqb negb]. apply IH; lia.
Qed.

(** ** A new bigalloc *)

(** Once the sequence is in place, the bigalloc is created and linked to it. *)
Lemma with_seq_ok s b p q es junk f :
  mmap_ok s -> START (m_table s) <> 0 -> first_free (m_table s) b ->
  sequences s !! p = Some q -> p <> 0 -> (forall b', ~ owner s b' p) -> seq_ok q es junk ->
  let lo := seq_begin q in let hi := seq_end q in
  free_range s lo hi -> hi - lo <= BIGGEST_SANE_USER_ALLOC ->
  quiet lo (m_table s) -> quiet (hi - 1) (m_table s) ->
  exists s', add_mapping_sequence_bigalloc_with_seq (B := release) p f s = Done (b, s') /\ mmap_ok s' /\
    forall a x, maps_to s' a x <-> maps_to s a x \/ attrs_at es a = Some x.
Proof.
  intros K Nst Fr Eq Np No Ok lo hi F Hs Q1 Q2. destruct (mk_table _ K) as [W I St Sn].
  destruct (fg_range _ _ _ F) as [Hr Hm]. destruct (fg_pages _ _ _ F) as [Al Ah].
  unfold add_mapping_sequence_bigalloc_with_seq. rewrite (bind_Done _ _ _ _ _ (on_seq_read p (gets id) s q q Eq eq_refl)).
  fold lo hi. rewrite (wrap_user (hi - lo)) by lia. unfold add_bigalloc.
  destruct (new_bigalloc_with_parent (m_table s) b lo (hi - lo) 0 0 0 mmap_allocator 0 W I Fr) as (t & Et & C & Mb); [lia| | |].
  - unfold fits. rewrite decide_True by done. split; [done|]. replace (lo + (hi - lo)) with hi by lia.
    split_and!; [lia..|done|done|]. intros c U _. by apply (free_clear s lo hi).
  - right. replace (lo + (hi - lo)) with hi by lia. replace (lo + (hi - lo) - 1) with (hi - 1) by lia.
    split_and!; [done| | |done].
    all: apply find_deepest_none; [done|done|unfold user_address; lia| |done]; intros i U; apply (fg_free _ _ _ F); [done|lia].
  - unfold mbind at 1, M_bind at 1. rewrite (bind_Done _ _ _ _ _ (on_bigallocs_Done _ _ _ _ Et)).
    rewrite (proj2 (Z.eqb_neq b 0)) by (destruct Fr; lia). cbv [mret M_ret].
    rewrite (bind_Done _ _ _ tt (set_m_table (upd b (set_private p f) t) s)) by done.
    destruct (create_mapping_ok s t b p f q es junk lo (hi - lo)) as [K' M]; try (done || apply Fr || lia).
    exists (set_m_table (upd b (set_private p f) t) s). by split_and!.
Qed.

Lemma new_mapping_ok s b lo hi prot flags off file caller :
  mmap_ok s -> START (m_table s) <> 0 -> first_free (m_table s) b -> free_range s lo hi ->
  hi - lo <= BIGGEST_SANE_USER_ALLOC -> quiet lo (m_table s) -> quiet (hi - 1) (m_table s) ->
  exists s', new_mapping (B := release) lo (hi - lo) prot flags off file caller s = Done (tt, s') /\ mmap_ok s' /\
    forall a x, maps_to s' a x <-> maps_to s a x \/ (lo <= a < hi /\ x = (prot, flags, is_null file, caller)).
Proof.
  intros K Nst Fr F Hs Q1 Q2. destruct (fg_range _ _ _ F) as [Hr Hm]. destruct max_user_address_spec as [[_ Hmax] _].
  set (p := private_nommap_malloc (sequences s)).
  destruct (augment_fresh_ok (B := release) get_highest_loaded_object_below lo hi prot flags off file caller) as [Ea Ok]; [lia..|].
  set (q := MappingSequence lo hi file 1 _) in *. set (new := new_entry lo hi prot flags off file caller) in *.
  set (s2 := set_sequence p q s).
  destruct (fresh_sequence_ok s p q K (nommap_malloc_fresh _)) as (K2 & M2 & No). fold s2 in K2, M2, No.
  destruct (with_seq_ok s2 b p q [new] (replicate 7 zero_mapping) private_nommap_free) as (s' & E' & K' & M'); try done.
  { simpl. by rewrite lookup_insert_eq. } { apply nommap_malloc_nonnull. } { by destruct F. }
  exists s'. split_and!; [|done|].
  - unfold new_mapping. rewrite (bind_Done (new_sequence zero_sequence) _ s p (set_sequence p zero_sequence s)) by done.
    unfold augment_at. rewrite (proj2 (Z.eqb_neq p 0)) by apply nommap_malloc_nonnull.
    replace (lo + (hi - lo)) with hi by lia. rewrite (wrap_user hi) by lia.
    rewrite (bind_Done _ _ _ true s2).
    2:{ rewrite (on_seq_Done p _ (set_sequence p zero_sequence s) zero_sequence true q); [|simpl; by rewrite lookup_insert_eq|done].
        unfold s2, set_sequence. simpl. by rewrite insert_insert_eq. }
    cbn [negb]. by rewrite (bind_Done _ _ _ _ _ E').
  - intros a x. rewrite (M' a x), (M2 a x). simpl.
    destruct (Z.leb_spec lo a), (Z.ltb_spec a hi); simpl; naive_solver lia.
Qed.

(** ** Extending the bigalloc below *)

Lemma fits_extend s b p lo hi :
  mmap_ok s -> owner s b p -> b_end (ba (m_table s) b) = lo -> free_range s lo hi ->
  fits_range (m_table s) b (b_begin (ba (m_table s) b)) hi.
Proof.
  intros K O Eb F. destruct (mk_table _ K) as [W _ _ _]. pose proof (wf_bounds _ W b (proj1 O)).
  pose proof (mk_top _ K _ _ O) as Pb. destruct (fg_range _ _ _ F).
  destruct (wf_aligned _ W b (proj1 O) Pb) as [Ab _]. split.
  - lia.
  - lia.
  - done.
  - intros _. split; [done|apply F].
  - intros c U P. destruct (wf_parent _ W c U) as (_ & ? & ?); [rewrite P; apply (used_nonzero (m_table s)); [done|apply O]|].
    rewrite P in *. lia.
  - intros c U N P. rewrite Pb in P. destruct (owner_disjoint s b p c K O U P N) as [?|?]; [|by right].
    destruct (free_clear s lo hi c W F U) as [?|?]; [by left|]. pose proof (wf_bounds _ W c U). lia.
Qed.

Lemma extend_mapping_ok s b p lo hi prot flags off file caller :
  mmap_ok s -> owner s b p -> b_end (ba (m_table s) b) = lo -> free_range s lo hi ->
  hi - b_begin (ba (m_table s) b) <= BIGGEST_SANE_USER_ALLOC ->
  (augment_at (B := release) p lo hi prot flags off file caller s = Done (false, s)) \/
  exists s1 t, augment_at (B := release) p lo hi prot flags off file caller s = Done (true, s1) /\
    m_table s1 = m_table s /\
    __liballocs_extend_bigalloc (B := release) b hi (m_table s) = Done (true, t) /\
    is_Some (sequences s1 !! p) /\ mmap_ok (set_m_table t s1) /\
    forall a x, maps_to (set_m_table t s1) a x <-> maps_to s a x \/ (lo <= a < hi /\ x = (prot, flags, is_null file, caller)).
Proof.
  intros K O Eb F Hs. destruct (mk_table _ K) as [W I St Sn]. pose proof (wf_bounds _ W b (proj1 O)).
  destruct (mk_seq _ K b p O) as (es & q & junk & Eq & Ok & Eqb & Eqe). destruct (fg_range _ _ _ F) as [Hr Hm].
  destruct max_user_address_spec as [[_ Hmax] _].
  destruct (wf_aligned _ W b (proj1 O) (mk_top _ K _ _ O)) as [Ab Ae].
  unfold augment_at. rewrite (proj2 (Z.eqb_neq p 0)) by by apply (mk_nonnull _ K b p). rewrite <- Eb, <- Eqe.
  destruct (augment_extends_ok (B := release) get_highest_loaded_object_below q es junk hi prot flags off file caller Ok ltac:(lia))
    as ([] & q' & es' & junk' & Ea & Ok' & Hf & Ht & _).
  2:{ left. rewrite (Hf eq_refl) in Ea. by apply (on_seq_read p _ s q). }
  right. destruct (Ht eq_refl) as (Ees & Eb' & Ee'). pose proof (fits_extend s b p lo hi K O Eb F) as Ft.
  destruct (extend_ok (m_table s) b W I (proj1 O) Sn hi Ft ltac:(lia) ltac:(page_lia) Hs) as (t & Et & R).
  destruct (resize_mapping_ok s b p q' es' junk' t (b_begin (ba (m_table s) b)) hi K O Ft R Hs Ok' ltac:(congruence) Ee') as [K' M].
  exists (set_sequence p q' s), t. split_and!; [by apply (on_seq_Done p _ s q)|done|done| |exact K'|].
  { simpl. by rewrite lookup_insert_eq. }
  intros a x. change (set_m_table t (set_sequence p q' s)) with (set_sequence p q' (set_m_table t s)). rewrite (M a x).
  pose proof (sq_contig _ _ _ Ok) as Cq. rewrite Ees, attrs_at_app. simpl.
  destruct (decide (contains (m_table s) b a)) as [C|C].
  - assert (D : described s b p es) by by exists q, junk. rewrite (maps_to_inside s b p es a x K O D C).
    unfold contains in C. rewrite (proj2 (Z.leb_gt _ _)) by lia. destruct (attrs_at es a); naive_solver lia.
  - unfold contains in C. rewrite (attrs_at_outside _ _ _ a Cq) by lia.
    destruct (Z.leb_spec (seq_end q) a), (Z.ltb_spec a hi); simpl; naive_solver lia.
Qed.

(** ** The whole operation *)

(** No allocator claims the ends of the range, and extending a neighbour
    would not make it too large. *)
Record mappable (s : mstate) (lo hi : Z) : Prop := {
  mp_free : free_range s lo hi;
  mp_size : hi - lo <= BIGGEST_SANE_USER_ALLOC;
  mp_quiet : quiet lo (m_table s) /\ quiet (hi - 1) (m_table s);
  mp_neighbour b p : owner s b p -> b_end (ba (m_table s) b) = lo ->
    hi - b_begin (ba (m_table s) b) <= BIGGEST_SANE_USER_ALLOC;
}.

Lemma to_extend_ok s lo hi : mmap_ok s -> free_range s lo hi ->
  exists b, bigalloc_to_extend (B := release) lo (hi - lo) s = Done (b, s) /\
    (b = 0 \/ exists p, owner s b p /\ b_end (ba (m_table s) b) = lo).
Proof.
  intros K F. destruct (fg_range _ _ _ F) as [Hr Hm]. unfold bigalloc_to_extend.
  rewrite (wrap_user (lo - 1)) by lia. replace (lo + (hi - lo) - 1) with (hi - 1) by lia. rewrite (wrap_user (hi - 1)) by lia.
  destruct (lookup_mapping_ok Sys s (lo - 1) K ltac:(unfold user_address; lia)) as (b & Eb & [[-> _]|(p & O & C)]);
    rewrite (bind_Done _ _ _ _ _ Eb).
  - cbn [Z.eqb negb].
    destruct (lookup_mapping_ok Sys s lo K ltac:(unfold user_address; lia)) as (b1 & E1 & [[-> _]|(p & O & C)]).
    2:{ destruct (fg_free _ _ _ F b1 lo (proj1 O) ltac:(lia) C). }
    rewrite (bind_Done _ _ _ _ _ E1).
    destruct (lookup_mapping_ok Sys s (hi - 1) K ltac:(unfold user_address; lia)) as (b2 & E2 & _).
    rewrite (bind_Done _ _ _ _ _ E2). exists 0. split; [done|by left].
  - exists b. rewrite (proj2 (Z.eqb_neq b 0)) by (apply (used_nonzero (m_table s)); [apply K|apply O]). split; [done|].
    right. exists p. split; [done|]. pose proof (fg_free _ _ _ F b lo (proj1 O) ltac:(lia)) as N. unfold contains in *. lia.
Qed.

Lemma do_mmap_ok s b lo len prot flags off file caller :
  let hi := lo + ROUND_UP len PAGE_SIZE in
  mmap_ok s -> START (m_table s) <> 0 -> first_free (m_table s) b -> 0 < len -> mappable s lo hi ->
  exists s', do_mmap (B := release) lo len prot flags file off caller s = Done (tt, s') /\ mmap_ok s' /\
    forall a x, maps_to s' a x <-> maps_to s a x \/ (lo <= a < hi /\ x = (prot, flags, is_null file, caller)).
Proof.
  intros hi K Nst Fr Hl [F Hs [Q1 Q2] Hn]. destruct (fg_range _ _ _ F) as [Hr Hm]. destruct (fg_pages _ _ _ F) as [Al Ah].
  assert (Er : ROUND_UP len PAGE_SIZE = hi - lo) by lia. assert (HP : PAGE_SIZE = 4096) by done.
  destruct (new_mapping_ok s b lo hi prot flags off file caller K Nst Fr F Hs Q1 Q2) as (sn & En & Kn & Mn).
  unfold do_mmap. rewrite (bind_Done _ _ s tt s), (proj2 (Z.eqb_neq lo 0)), Er by (done || lia).
  rewrite (bind_Done _ _ s 0 s).
  2:{ apply (scan_free s lo hi); [done..| |]; rewrite !Z.shiftr_div_pow2 by done; change (2 ^ LOG_PAGE_SIZE) with 4096;
      rewrite ?Z2Nat.id by page_lia; page_lia. }
  cbn [Z.eqb negb andb].
  destruct (to_extend_ok s lo hi K F) as (c & Ec & [->|(p & O & Eb)]); rewrite (bind_Done _ _ _ _ _ Ec); [by exists sn|].
  rewrite (proj2 (Z.eqb_neq c 0)) by (apply (used_nonzero (m_table s)); [apply K|apply O]). cbn [negb].
  rewrite (bind_Done _ _ _ _ _ (on_bigallocs_read (rd id c) s (ba (m_table s) c) eq_refl)). cbv zeta.
  pose proof O as (_ & _ & Ep). rewrite Ep. replace (lo + (hi - lo)) with hi by lia. rewrite (wrap_user hi) by lia.
  destruct (extend_mapping_ok s c p lo hi prot flags off file caller K O Eb F (Hn c p O Eb)) as [Ea|(s1 & t & Ea & Et1 & Et & [q Eq] & K1 & M1)];
    rewrite (bind_Done _ _ _ _ _ Ea); [by exists sn|].
  rewrite Eb, (proj2 (Z.ltb_lt lo hi)) by lia. rewrite <- Et1 in Et.
  rewrite (bind_Done _ _ _ _ _ (on_bigallocs_Done _ _ _ _ Et)). cbn [negb].
  rewrite (bind_Done _ _ _ _ _ (on_bigallocs_read (rd id c) (set_m_table t s1) (ba t c) eq_refl)).
  rewrite (bind_Done _ _ _ _ _ (on_seq_read p (gets id) (set_m_table t s1) q q Eq eq_refl)).
  by exists (set_m_table t s1).
Qed.

(** ** Mapping over part of one bigalloc *)

(** The sequence of a bigalloc may be rewritten in place. *)
Lemma rewrite_mapping_ok s b p q' es' junk' :
  mmap_ok s -> owner s b p -> seq_ok q' es' junk' ->
  seq_begin q' = b_begin (ba (m_table s) b) -> seq_end q' = b_end (ba (m_table s) b) ->
  let s' := set_sequence p q' s in
  mmap_ok s' /\ forall a x, maps_to s' a x <-> attrs_at es' a = Some x \/ (maps_to s a x /\ ~ contains (m_table s) b a).
Proof.
  intros K O Ok' Eb Ee. destruct (mk_table _ K) as [W I St Sn]. pose proof (wf_bounds _ W b (proj1 O)).
  destruct (wf_aligned _ W b (proj1 O) (mk_top _ K _ _ O)) as [Ab Ae].
  assert (F : fits_range (m_table s) b (b_begin (ba (m_table s) b)) (b_end (ba (m_table s) b))).
  { apply (fits_shrink s b p); try (done || lia). intros c U P.
    destruct (wf_parent _ W c U) as (_ & ? & ?); [rewrite P; apply (used_nonzero (m_table s)); [done|apply O]|]. by rewrite P in *. }
  assert (R : resize_ok (m_table s) (m_table s) b (b_begin (ba (m_table s) b)) (b_end (ba (m_table s) b))).
  { split; [done..|]. split; [done| |done..]. by destruct (ba (m_table s) b). }
  pose proof (resize_mapping_ok s b p q' es' junk' (m_table s) _ _ K O F R (Sn b (proj1 O)) Ok' Eb Ee) as Hr.
  by destruct s.
Qed.

(** A range inside one bigalloc, where no other mapping ends at its
    beginning and the sequence has room and is of the same file. *)
Record replaceable (s : mstate) (b p lo hi : Z) (file : option String.string) (caller : Z) : Prop := {
  rp_range : b_begin (ba (m_table s) b) <= lo < hi /\ hi <= b_end (ba (m_table s) b);
  rp_pages : lo mod PAGE_SIZE = 0 /\ hi mod PAGE_SIZE = 0;
  rp_first : lo = b_begin (ba (m_table s) b) -> forall c r, owner s c r -> b_end (ba (m_table s) c) <> lo;
  rp_seq : exists q es junk, sequences s !! p = Some q /\ seq_ok q es junk /\
    agrees get_highest_loaded_object_below q es file caller /\ (nused q + 2 <= MAPPING_SEQUENCE_MAX_LEN)%nat;
}.

Lemma to_extend_inside s b p lo hi file caller :
  mmap_ok s -> owner s b p -> replaceable s b p lo hi file caller ->
  bigalloc_to_extend (B := release) lo (hi - lo) s = Done (b, s).
Proof.
  intros K O [[Hr He] _ Hf _]. destruct (mk_table _ K) as [W _ _ _]. pose proof (wf_bounds _ W b (proj1 O)).
  assert (Nb : b <> 0) by (apply (used_nonzero (m_table s)); [done|apply O]).
  assert (Hin : forall a, b_begin (ba (m_table s) b) <= a < b_end (ba (m_table s) b) ->
    on_bigallocs (__lookup_bigalloc_from_root (B := release) a mmap_allocator) s = Done (b, s)).
  { intros a Ha. apply on_bigallocs_read. by apply (find_mapping_ok s b p a K O). }
  unfold bigalloc_to_extend. rewrite (wrap_user (lo - 1)) by lia. replace (lo + (hi - lo) - 1) with (hi - 1) by lia.
  rewrite (wrap_user (hi - 1)) by lia. destruct (decide (lo = b_begin (ba (m_table s) b))) as [El|Nl].
  - destruct (lookup_mapping_ok Sys s (lo - 1) K ltac:(unfold user_address; lia)) as (c & Ec & [[-> _]|(r & Oc & C)]).
    + rewrite (bind_Done _ _ _ _ _ Ec). cbn [Z.eqb negb].
      rewrite (bind_Done _ _ _ _ _ (Hin lo ltac:(lia))), (bind_Done _ _ _ _ _ (Hin (hi - 1) ltac:(lia))).
      by rewrite (proj2 (Z.eqb_neq b 0)), Z.eqb_refl.
    + exfalso. apply (Hf El c r Oc). unfold contains in C. assert (c <> b) by (intros ->; lia).
      destruct (owner_disjoint s b p c K O (proj1 Oc) (mk_top _ K _ _ Oc)); [done|lia..].
  - rewrite (bind_Done _ _ _ _ _ (Hin (lo - 1) ltac:(lia))). by rewrite (proj2 (Z.eqb_neq b 0)).
Qed.

Lemma scan_covered s b p lo k : mmap_ok s -> owner s b p -> contains (m_table s) b lo -> lo mod PAGE_SIZE = 0 ->
  exists n, n <> 0 /\ scan_overlap (S k) (Z.shiftr lo LOG_PAGE_SIZE) s = Done (n, s).
Proof.
  intros K O C Al. destruct (mk_table _ K) as [W I _ _]. pose proof (owner_user s b p lo K O C) as Hu.
  destruct (index_spans (m_table s) lo W I Hu) as [U _]; [exists b; by split; [apply O|]|].
  apply (used_nonzero _ _ W) in U. exists (pi (m_table s) (PAGENUM lo)). split; [done|]. cbn [scan_overlap].
  replace (Z.shiftr lo LOG_PAGE_SIZE) with (PAGENUM lo).
  2:{ rewrite PAGENUM_spec by (unfold user_address in Hu; lia). by rewrite Z.shiftr_div_pow2. }
  rewrite (bind_Done _ _ _ _ _ (on_bigallocs_read (pi_get (PAGENUM lo)) s _ eq_refl)).
  by rewrite (proj2 (Z.eqb_neq _ 0)) by done.
Qed.

(** Over pages that are mapped already, with MAP_FIXED: what is left to do
    once the bigalloc to extend is known. *)
Lemma do_mmap_over s c pc b p lo len prot flags off file caller :
  let hi := lo + ROUND_UP len PAGE_SIZE in
  mmap_ok s -> owner s c pc -> contains (m_table s) c lo -> lo mod PAGE_SIZE = 0 -> 0 < len ->
  hi <= MAXIMUM_USER_ADDRESS + 1 -> Z.land flags MAP_FIXED <> 0 -> owner s b p ->
  bigalloc_to_extend (B := release) lo (hi - lo) s = Done (b, s) ->
  do_mmap (B := release) lo len prot flags file off caller s =
    (success ← augment_at (B := release) p lo hi prot flags off file caller;
     if (success : bool) then
       if b_end (ba (m_table s) b) <? hi then
         ok ← on_bigallocs (__liballocs_extend_bigalloc (B := release) b hi);
         if negb ok then abort else
         r ← on_bigallocs (rd id b);
         q ← on_seq p (gets id);
         assert (B := release) (seq_begin q =? b_begin r) ;;
         assert (B := release) (seq_end q =? b_end r)
       else mret tt
     else new_mapping (B := release) lo (hi - lo) prot flags off file caller) s.
Proof.
  intros hi K Oc C Al Hl Hm Hfx O Ee. pose proof (wf_bounds _ (tk_wf _ (mk_table _ K)) c (proj1 Oc)).
  assert (Hr : 0 < ROUND_UP len PAGE_SIZE) by (rewrite ROUND_UP_spec by (done || lia); page_lia).
  assert (Er : ROUND_UP len PAGE_SIZE = hi - lo) by lia. unfold contains in C.
  unfold do_mmap. rewrite (bind_Done _ _ s tt s), (proj2 (Z.eqb_neq lo 0)), Er by (done || lia).
  assert (Ek : exists k, Z.to_nat (Z.shiftr (hi - lo) LOG_PAGE_SIZE) = S k).
  { rewrite Z.shiftr_div_pow2 by done. change (2 ^ LOG_PAGE_SIZE) with 4096. rewrite <- Er, ROUND_UP_spec in * by (done || lia).
    exists (Z.to_nat ((len + 4095) / 4096 - 1)). rewrite <- Z2Nat.inj_succ by page_lia. f_equal. page_lia. }
  destruct Ek as [k ->]. destruct (scan_covered s c pc lo k K Oc C Al) as (n & Nn & En).
  rewrite (bind_Done _ _ _ _ _ En), (proj2 (Z.eqb_neq n 0)), (proj2 (Z.eqb_neq (Z.land flags MAP_FIXED) 0)) by done. cbn [negb andb].
  rewrite (bind_Done _ _ _ _ _ Ee), (proj2 (Z.eqb_neq b 0)) by (apply (used_nonzero (m_table s)); [apply K|apply O]). cbn [negb].
  rewrite (bind_Done _ _ _ _ _ (on_bigallocs_read (rd id b) s (ba (m_table s) b) eq_refl)). cbv zeta.
  pose proof O as (_ & _ & Ep). rewrite Ep. replace (lo + (hi - lo)) with hi by lia. by rewrite (wrap_user hi) by lia.
Qed.

Lemma do_mmap_fixed_ok s b p lo len prot flags off file caller :
  let hi := lo + ROUND_UP len PAGE_SIZE in
  mmap_ok s -> owner s b p -> 0 < len -> Z.land flags MAP_FIXED <> 0 -> replaceable s b p lo hi file caller ->
  exists s', do_mmap (B := release) lo len prot flags file off caller s = Done (tt, s') /\ mmap_ok s' /\
    forall a x, maps_to s' a x <-> (if decide (lo <= a < hi) then x = (prot, flags, is_null file, caller) else maps_to s a x).
Proof.
  intros hi K O Hl Hfx Rp. destruct (rp_range _ _ _ _ _ _ _ Rp) as [Hr He]. destruct (rp_pages _ _ _ _ _ _ _ Rp) as [Al Ah].
  destruct (mk_table _ K) as [W I St Sn]. pose proof (wf_bounds _ W b (proj1 O)).
  rewrite (do_mmap_over s b p b p) by (done || lia || (unfold contains; lia) || by apply (to_extend_inside s b p lo hi file caller)).
  fold hi.
  destruct (rp_seq _ _ _ _ _ _ _ Rp) as (q & es & junk & Eq & Ok & Ag & Hroom).
  assert (D : described s b p es).
  { destruct (mk_seq _ K b p O) as (es0 & q0 & j0 & Eq0 & _ & Eb0 & Ee0). rewrite Eq in Eq0. injection Eq0 as <-. by exists q, junk. }
  destruct D as (q0 & j0 & Eq0 & _ & Eqb & Eqe). rewrite Eq in Eq0. injection Eq0 as <-.
  destruct (augment_replaces_ok (B := release) get_highest_loaded_object_below q es junk lo hi prot flags off file caller Ok ltac:(lia) ltac:(lia))
    as (r & q' & es' & junk' & Ea & Ok' & Eb' & Ee' & _ & _ & Ht & Hsucc). specialize (Hsucc Ag Hroom) as ->. specialize (Ht eq_refl).
  unfold augment_at. rewrite (proj2 (Z.eqb_neq p 0)) by by apply (mk_nonnull _ K b p).
  rewrite (bind_Done _ _ _ _ _ (on_seq_Done p _ s q true q' Eq Ea)), (proj2 (Z.ltb_ge _ _)) by lia.
  destruct (rewrite_mapping_ok s b p q' es' junk' K O Ok') as [K' M]; [congruence..|].
  exists (set_sequence p q' s). split_and!; [done..|]. intros a x. rewrite (M a x), Ht.
  assert (D : described s b p es) by by exists q, junk.
  case_decide as Hin; [unfold contains; naive_solver lia|].
  destruct (decide (b_begin (ba (m_table s) b) <= a < b_end (ba (m_table s) b))) as [C|C].
  - rewrite (maps_to_inside s b p es a x K O D C). unfold contains. naive_solver.
  - rewrite (attrs_at_outside _ _ _ a (sq_contig _ _ _ Ok)) by lia. unfold contains. naive_solver.
Qed.

(** ** Mapping over the beginning of a bigalloc that another one abuts *)

Lemma to_extend_below s b p lo hi : mmap_ok s -> owner s b p -> b_end (ba (m_table s) b) = lo ->
  bigalloc_to_extend (B := release) lo (hi - lo) s = Done (b, s).
Proof.
  intros K O Eb. pose proof (wf_bounds _ (tk_wf _ (mk_table _ K)) b (proj1 O)). unfold bigalloc_to_extend. rewrite (wrap_user (lo - 1)) by lia.
  rewrite (bind_Done _ _ _ _ _ (on_bigallocs_read (__lookup_bigalloc_from_root (B := release) (lo - 1) mmap_allocator) s b (find_mapping_ok s b p (lo - 1) K O ltac:(unfold contains; lia)))).
  by rewrite (proj2 (Z.eqb_neq b 0)) by (apply (used_nonzero (m_table s)); [apply K|apply O]).
Qed.

(** The bigalloc below is extended over the one that is already there. *)
Lemma do_mmap_abutting s b1 p1 b2 p2 lo len prot flags off file caller :
  let hi := lo + ROUND_UP len PAGE_SIZE in
  mmap_ok s -> owner s b1 p1 -> owner s b2 p2 -> b_end (ba (m_table s) b1) = lo -> b_begin (ba (m_table s) b2) = lo ->
  0 < len -> hi <= b_end (ba (m_table s) b2) -> Z.land flags MAP_FIXED <> 0 ->
  hi - b_begin (ba (m_table s) b1) <= BIGGEST_SANE_USER_ALLOC ->
  (exists q es junk, sequences s !! p1 = Some q /\ seq_ok q es junk /\
     agrees get_highest_loaded_object_below q es file caller /\ (nused q < MAPPING_SEQUENCE_MAX_LEN)%nat) ->
  exists s', do_mmap (B := release) lo len prot flags file off caller s = Done (tt, s') /\
    used (m_table s') b1 /\ used (m_table s') b2 /\ parent (ba (m_table s') b1) = 0 /\ parent (ba (m_table s') b2) = 0 /\
    b_begin (ba (m_table s') b1) < lo /\ b_end (ba (m_table s') b1) = hi /\
    b_begin (ba (m_table s') b2) = lo /\ hi <= b_end (ba (m_table s') b2).
Proof.
  intros hi K O1 O2 E1 E2 Hl Hhi Hfx Hs (q & es & junk & Eq & Ok & Ag & Hroom).
  destruct (mk_table _ K) as [W I St Sn]. pose proof (wf_bounds _ W b1 (proj1 O1)) as Hb1. pose proof (wf_bounds _ W b2 (proj1 O2)) as Hb2.
  destruct (wf_aligned _ W b1 (proj1 O1) (mk_top _ K _ _ O1)) as [Ab1 Ae1]. destruct max_user_address_spec as [[_ Hmax] _].
  assert (Hr : 0 < ROUND_UP len PAGE_SIZE) by (rewrite ROUND_UP_spec by (done || lia); page_lia).
  assert (Hne : b1 <> b2) by (intros ->; lia).
  assert (Eqe : seq_end q = lo).
  { destruct (mk_seq _ K b1 p1 O1) as (es0 & q0 & j0 & Eq0 & _ & _ & Ee0). rewrite Eq in Eq0. injection Eq0 as <-. congruence. }
  rewrite (do_mmap_over s b2 p2 b1 p1) by (done || lia || (unfold contains; lia) || (by rewrite <- E1) || (fold hi; by apply (to_extend_below s b1 p1))).
  fold hi.
  destruct (augment_extends_ok (B := release) get_highest_loaded_object_below q es junk hi prot flags off file caller Ok ltac:(lia))
    as (r & q' & es' & junk' & Ea & _ & _ & _ & Hr1). destruct (Hr1 (agrees_name _ _ _ _ _ Ag) Hroom) as [-> _]. rewrite Eqe in Ea.
  unfold augment_at. rewrite (proj2 (Z.eqb_neq p1 0)) by by apply (mk_nonnull _ K b1 p1).
  rewrite (bind_Done _ _ _ _ _ (on_seq_Done p1 _ s q true q' Eq Ea)), E1, (proj2 (Z.ltb_lt _ _)) by lia.
  pose proof (extend_run (m_table s) b1 W (proj1 O1) hi ltac:(lia)) as Ex.
  rewrite decide_True in Ex by (apply (end_in_limit (m_table s) b1 W (proj1 O1) Sn hi); [rewrite Z.min_r by lia; page_lia|done]).
  rewrite (bind_Done _ _ _ _ _ (on_bigallocs_Done _ (set_sequence p1 q' s) _ _ Ex)). cbn [negb].
  set (t := fill_pages _ _ _ _). set (s' := set_m_table t (set_sequence p1 q' s)).
  rewrite (bind_Done _ _ _ _ _ (on_bigallocs_read (rd id b1) s' (ba t b1) eq_refl)).
  rewrite (bind_Done _ _ _ _ _ (on_seq_read p1 (gets id) s' q' q' ltac:(simpl; by rewrite lookup_insert_eq) eq_refl)).
  assert (Ht1 : ba t b1 = set_end hi (ba (m_table s) b1)) by (unfold t; by rewrite ba_fill, ba_upd_eq).
  assert (Ht2 : ba t b2 = ba (m_table s) b2) by (unfold t; by rewrite ba_fill, ba_upd_ne).
  pose proof (mk_top _ K _ _ O1) as P1. pose proof (mk_top _ K _ _ O2) as P2.
  exists s'. unfold used. simpl. rewrite Ht1, Ht2. simpl. split_and!; (done || lia).
Qed.
End mmap.
