(* ===== verification/Brk.v ===== *)
(** The brk allocator, src/src/allocators/brk.c: one bigalloc from the initial
    program break to the current one, inside the mapping that ends at the
    break, kept up to date in the right order as the break moves.

    [sbrk] is libc's; it may change [__curbrk]. *)
From S2P Require Import Prelude Vas BigAlloc PageIndex PageIndexQuery MappingSeq Mmap.

Record bstate := BState {
  b_mmap : mstate;
  __brk_bigalloc : Z;
  __curbrk : Z;
  last_caller : Z;
  brk_initialized : bool;
  brk_trying : bool;
}.

Definition set_b_mmap (m : mstate) (s : bstate) : bstate :=
  BState m (__brk_bigalloc s) (__curbrk s) (last_caller s) (brk_initialized s) (brk_trying s).
Definition set_brk_bigalloc (b : Z) (s : bstate) : bstate :=
  BState (b_mmap s) b (__curbrk s) (last_caller s) (brk_initialized s) (brk_trying s).
Definition set_last_caller (c : Z) (s : bstate) : bstate :=
  BState (b_mmap s) (__brk_bigalloc s) (__curbrk s) c (brk_initialized s) (brk_trying s).
Definition set_flags (i t : bool) (s : bstate) : bstate :=
  BState (b_mmap s) (__brk_bigalloc s) (__curbrk s) (last_caller s) i t.

Definition on_mmap {A} (m : M mstate A) : M bstate A := fun s =>
  match m (b_mmap s) with
  | Done (a, t) => Done (a, set_b_mmap t s)
  | Abort => Abort
  | NoFuel => NoFuel
  end.
Definition on_brk_table {A} (m : M state A) : M bstate A := on_mmap (on_bigallocs m).

Class BrkEnv := {
  sbrk : Z -> M bstate Z;
  executable_end_addr : Z;
}.

(** A 64-bit difference read as a signed number. *)
Definition signed_diff (a b : Z) : Z :=
  let d := wrap64 (a - b) in if d <? 2 ^ 63 then d else d - 2 ^ 64.

Section ops.
Context {V : Vas} {H : Hooks} {B : Build} {E : MmapEnv} {BE : BrkEnv}.

Definition find_existing_brk_mapping (curbrk : Z) : M bstate Z :=
  assert (negb (executable_end_addr =? 0)) ;;
  mapping_b ← on_brk_table (__lookup_bigalloc_top_level curbrk);
  if negb (mapping_b =? 0) then mret mapping_b else
  mapping_b ← on_brk_table (__liballocs_find_mapping_below curbrk);
  if mapping_b =? 0 then abort else
  r ← on_brk_table (rd id mapping_b);
  let gap := signed_diff curbrk (b_end r) in
  (if (0 <=? gap) && (gap <? Z.shiftr BIGGEST_SANE_USER_ALLOC 1) then
     n ← on_brk_table (rd id (next_sib r));
     if negb ((next_sib r =? 0) || (curbrk <=? b_begin n)) then abort else mret tt
   else mret tt) ;;
  mret mapping_b.

Definition set_brk_mapping (b : Z) (s : mstate) : mstate := MState (m_table s) (sequences s) b.

Definition create_brk_bigalloc (curbrk : Z) : M bstate unit :=
  mapping_b ← find_existing_brk_mapping curbrk;
  m ← on_mmap (gets brk_mapping_bigalloc);
  assert (m =? 0) ;;
  on_mmap (modify (set_brk_mapping mapping_b)) ;;
  assert (negb (mapping_b =? 0)) ;;
  e ← on_brk_table (rd b_end mapping_b);
  let size := signed_diff e curbrk in
  size ← (if 0 <? size then mret size else
            size ← (if size <? 0 then
                      on_brk_table (__liballocs_extend_bigalloc mapping_b curbrk) ;;
                      e ← on_brk_table (rd b_end mapping_b);
                      mret (signed_diff e curbrk)
                    else mret size);
            if size =? 0 then
              ret ← sbrk 1;
              if ret =? 0 then abort else
              on_mmap (__mmap_allocator_notify_brk (wrap64 (curbrk + 1))) ;;
              e ← on_brk_table (rd b_end mapping_b);
              mret (signed_diff e curbrk)
            else mret size);
  assert (0 <? size) ;;
  b ← on_brk_table (__liballocs_new_bigalloc curbrk (wrap64 size) 0 0 mapping_b brk_allocator);
  modify (set_brk_bigalloc b) ;;
  assert (negb (b =? 0)).

Definition update_brk (new_curbrk : Z) : M bstate unit :=
  m ← on_mmap (gets brk_mapping_bigalloc);
  if m =? 0 then mret tt else
  b ← gets __brk_bigalloc;
  assert (negb (b =? 0)) ;;
  e ← on_brk_table (rd b_end b);
  if new_curbrk <? e then
    on_brk_table (__liballocs_truncate_bigalloc_at_end b new_curbrk) ;;
    e' ← on_brk_table (rd b_end b);
    assert (e' =? new_curbrk) ;;
    on_mmap (__mmap_allocator_notify_brk new_curbrk)
  else if e <? new_curbrk then
    on_mmap (__mmap_allocator_notify_brk new_curbrk) ;;
    on_brk_table (__liballocs_extend_bigalloc b new_curbrk) ;;
    mret tt
  else mret tt.

Definition __brk_allocator_init : M bstate unit :=
  s ← gets id;
  if negb (brk_initialized s) && negb (brk_trying s) then
    modify (set_flags (brk_initialized s) true) ;;
    curbrk ← sbrk 0;
    on_mmap (__mmap_allocator_notify_brk curbrk) ;;
    create_brk_bigalloc curbrk ;;
    modify (set_flags true false)
  else mret tt.

Definition __brk_allocator_notify_brk (new_curbrk caller : Z) : M bstate unit :=
  i ← gets brk_initialized;
  if negb i then mret tt else
  modify (set_last_caller caller) ;;
  c ← gets __curbrk;
  if c <? new_curbrk then
    on_mmap (__mmap_allocator_notify_brk new_curbrk) ;; update_brk new_curbrk
  else
    update_brk new_curbrk ;; on_mmap (__mmap_allocator_notify_brk new_curbrk).

Definition __brk_allocator_notify_unindexed_address (mem : Z) : M bstate bool :=
  b ← gets __brk_bigalloc;
  if b =? 0 then mret false else
  old_sbrk ← gets __curbrk;
  new_sbrk ← sbrk 0;
  update_brk new_sbrk ;;
  mret ((old_sbrk <=? mem) && (mem <? new_sbrk)).

(** Base, size and site. *)
Definition brk_get_info : M bstate (Z * Z * Z) :=
  s ← gets id;
  if __brk_bigalloc s =? 0 then abort else
  r ← on_brk_table (rd id (__brk_bigalloc s));
  mret (b_begin r, wrap64 (b_end r - b_begin r), last_caller s).

Definition __mmap_allocator_notify_unindexed_address (mmap_initialized : bool) (mem : Z) : M bstate bool :=
  if mmap_initialized then __brk_allocator_notify_unindexed_address mem else mret false.
End ops.
