(* ===== verification/BrkFacts.v ===== *)
(** Moving the program break: the mapping that holds the break and the brk
    area inside it are resized in the order that keeps the area within the
    mapping, and the mapping's sequence follows. *)
From S2P Require Import Prelude DList Vas BigAlloc PageIndex PageIndexQuery BigAllocFacts Forest Traversal.
From S2P Require Import Traversal Create Delete Resize QueryCorrect Reachable.
From S2P Require Import MappingSeq MappingSeqFacts Mmap MmapFacts MapFacts Brk.

(** ** The last mapping of a sequence *)

(** The last mapping can grow, or another can follow it. *)
Definition can_grow (q : mapping_sequence) : Prop :=
  e_is_anon (mapping_at q (nused q - 1)) = true \/ (nused q < MAPPING_SEQUENCE_MAX_LEN)%nat.

Lemma grow_last_ok {B : Build} s es junk ne :
  seq_ok s es junk -> can_grow s -> seq_end s < ne < 2 ^ 63 ->
  exists s' es' junk', grow_last_mapping ne s = Done (tt, s') /\ seq_ok s' es' junk' /\
    seq_begin s' = seq_begin s /\ seq_end s' = ne /\
    forall a, a < seq_end s -> attrs_at es' a = attrs_at es a.
Proof.
  intros Ok Hg Hne. pose proof (sq_range _ _ _ Ok) as Hr.
  destruct (exists_last (l := es)) as (l & y & Ees).
  { intros ->. pose proof (sq_contig _ _ _ Ok) as C. simpl in C. lia. }
  pose proof (sq_contig _ _ _ Ok) as C. rewrite Ees in C. apply contig_app in C as (m & C1 & Ey & Hy & C2). simpl in C2.
  assert (En : nused s = S (length l)) by (rewrite (sq_nused _ _ _ Ok), Ees, length_app; simpl; lia).
  pose proof (sq_len _ _ _ Ok) as Hlen. rewrite (sq_maps _ _ _ Ok) in Hlen.
  unfold grow_last_mapping. rewrite (bind_Done _ _ s tt (set_seq_end ne s)), (bind_Done _ _ _ (set_seq_end ne s) (set_seq_end ne s)) by done.
  cbn [set_seq_end nused]. rewrite En.
  assert (Em : mappings (set_seq_end ne s) = l ++ y :: junk) by (simpl; by rewrite (sq_maps _ _ _ Ok), Ees, <- app_assoc).
  rewrite (bind_Done _ _ _ _ _ (rd_map_at l y junk _ _ Em eq_refl)).
  assert (St : Forall (stale (seq_begin s) ne) junk).
  { eapply Forall_impl; [apply (sq_stale _ _ _ Ok)|]. intros d. apply stale_mono; lia. }
  destruct (e_is_anon y) eqn:Ea; cbn [negb].
  - rewrite (bind_Done _ _ _ _ _ (wr_map_at l y junk _ _ _ Em eq_refl)).
    set (s' := set_mappings _ _). set (y' := set_e_end ne y).
    assert (Ok' : seq_ok s' (l ++ [y']) junk).
    { split; cbn [s' set_mappings set_seq_end mappings nused seq_begin seq_end]; [by rewrite <- app_assoc| | | |done|lia].
      - rewrite <- Hlen, Ees, !length_app. simpl. lia.
      - rewrite En, length_app. simpl. lia.
      - apply contig_app. exists m. split; [done|]. simpl. split_and!; [done|lia|done]. }
    exists s', (l ++ [y']), junk. split_and!; [by apply (sanity_ok s' (l ++ [y']) junk)|done..|].
    intros a Ha. rewrite Ees, !attrs_at_app. case_match; [done|]. simpl.
    by rewrite (proj2 (Z.ltb_lt a ne)), (proj2 (Z.ltb_lt a (e_end y))) by lia.
  - destruct Hg as [Hg|Hg].
    { exfalso. rewrite En in Hg. replace (S (length l) - 1)%nat with (length l) in Hg by lia.
      rewrite (mapping_at_mid l y junk s _ Em eq_refl) in Hg. congruence. }
    destruct junk as [|j junk]; [rewrite app_nil_r in Hlen; rewrite (sq_nused _ _ _ Ok) in Hg; lia|].
    assert (Em' : mappings (set_seq_end ne s) = (l ++ [y]) ++ j :: junk) by (rewrite Em, <- app_assoc; done).
    set (z := MappingEntry (e_end y) ne (Z.lor PROT_READ PROT_WRITE) 0 0 true 0).
    assert (El : S (length l) = length (l ++ [y])) by (rewrite length_app; simpl; lia).
    unfold mbind at 1, M_bind at 1. rewrite (bind_Done _ _ _ _ _ (wr_map_at (l ++ [y]) j junk _ _ _ Em' El)).
    match goal with |- context [modify (set_nused ?n) ?s0] => set (s' := set_nused n s0) end.
    change (modify _ _) with (Done (tt, s')). cbv iota beta.
    assert (Ok' : seq_ok s' (l ++ [y; z]) junk).
    { split; cbn [s' set_nused set_mappings set_seq_end mappings nused seq_begin seq_end].
      - by rewrite <- !app_assoc.
      - rewrite <- Hlen, Ees, !length_app. simpl. lia.
      - rewrite length_app. simpl. lia.
      - apply contig_app. exists m. split; [done|]. simpl. split_and!; [done|lia|done|lia|done].
      - by apply Forall_cons in St as [_ St].
      - lia. }
    exists s', (l ++ [y; z]), junk. split_and!; [by apply (sanity_ok s' (l ++ [y; z]) junk)|done..|].
    intros a Ha. rewrite Ees, !attrs_at_app. case_match; [done|]. simpl. rewrite C2.
    rewrite (proj2 (Z.leb_gt (seq_end s) a)) by lia. by destruct (_ && _).
Qed.

Section brk.
Context {V : Vas} {VL : VasLaws V} {H : Hooks} {E : MmapEnv} {EL : MmapLaws E} {BE : BrkEnv}.

(** ** The mapping that holds the break *)

(** Outside the span between the old end and the new one, what is mapped stays. *)
Definition same_outside (s s' : mstate) (e1 e2 : Z) : Prop :=
  forall a x, a < Z.min e1 e2 \/ Z.max e1 e2 <= a -> maps_to s' a x <-> maps_to s a x.

Lemma same_refl s e1 e2 : same_outside s s e1 e2.
Proof. done. Qed.

(** A resized bigalloc, with a sequence that agrees with the old one below both ends. *)
Lemma resize_same_outside s b p es q' es' junk' t ne :
  mmap_ok s -> owner s b p -> described s b p es ->
  fits_range (m_table s) b (b_begin (ba (m_table s) b)) ne ->
  resize_ok (m_table s) t b (b_begin (ba (m_table s) b)) ne ->
  ne - b_begin (ba (m_table s) b) <= BIGGEST_SANE_USER_ALLOC ->
  seq_ok q' es' junk' -> seq_begin q' = b_begin (ba (m_table s) b) -> seq_end q' = ne ->
  (forall a, a < Z.min (b_end (ba (m_table s) b)) ne -> attrs_at es' a = attrs_at es a) ->
  let s' := set_sequence p q' (set_m_table t s) in
  mmap_ok s' /\ same_outside s s' (b_end (ba (m_table s) b)) ne.
Proof.
  intros K O D F R Hs Ok' Eb Ee Ha.
  destruct (resize_mapping_ok s b p q' es' junk' t _ ne K O F R Hs Ok' Eb Ee) as [K' M]. split; [exact K'|].
  intros a x Hax. rewrite (M a x).
  destruct (decide (b_begin (ba (m_table s) b) <= a < b_end (ba (m_table s) b))) as [C|C].
  - rewrite (maps_to_inside s b p es a x K O D C), Ha by lia. unfold contains. naive_solver.
  - rewrite (attrs_at_outside _ _ _ a (sq_contig _ _ _ Ok')) by lia. unfold contains. naive_solver.
Qed.

Lemma notify_brk_ok s b p new :
  let ne := ROUND_UP new PAGE_SIZE in
  mmap_ok s -> brk_mapping_bigalloc s = b -> owner s b p ->
  fits_range (m_table s) b (b_begin (ba (m_table s) b)) ne ->
  ne - b_begin (ba (m_table s) b) <= BIGGEST_SANE_USER_ALLOC ->
  (b_end (ba (m_table s) b) < ne -> exists q, sequences s !! p = Some q /\ can_grow q) ->
  exists s', __mmap_allocator_notify_brk (B := release) new s = Done (tt, s') /\ mmap_ok s' /\
    resize_ok (m_table s) (m_table s') b (b_begin (ba (m_table s) b)) ne /\
    brk_mapping_bigalloc s' = b /\ same_outside s s' (b_end (ba (m_table s) b)) ne.
Proof.
  intros ne K Eb O F Hs Hg. destruct (mk_table _ K) as [W I St Sn]. pose proof (wf_bounds _ W b (proj1 O)) as Hb.
  destruct (fr_bounds _ _ _ _ F) as [Hne Hmx]. destruct max_user_address_spec as [[_ Hmax] _].
  destruct (wf_aligned _ W b (proj1 O) (mk_top _ K _ _ O)) as [Ab Ae].
  destruct (fr_aligned _ _ _ _ F (mk_top _ K _ _ O)) as [_ An].
  destruct (mk_seq _ K b p O) as (es & D). pose proof D as (q & junk & Eq & Ok & Eqb & Eqe).
  destruct (adjust_end_ok (m_table s) b W I (proj1 O) Sn ne F ltac:(page_lia) Hs) as (t & Et & R).
  unfold __mmap_allocator_notify_brk. rewrite (bind_Done _ _ s b s) by (by rewrite <- Eb).
  rewrite (proj2 (Z.eqb_neq b 0)) by (apply (used_nonzero (m_table s)); [done|apply O]).
  rewrite (bind_Done _ _ _ _ _ (on_bigallocs_read (rd id b) s (ba (m_table s) b) eq_refl)). cbv zeta. fold ne.
  pose proof O as (_ & _ & Ep). rewrite Ep.
  destruct (Z.ltb_spec (b_end (ba (m_table s) b)) ne) as [Hlt|Hge]; [|destruct (Z.ltb_spec ne (b_end (ba (m_table s) b))) as [Hlt|Hge']].
  - destruct (Hg Hlt) as (q0 & Eq0 & Hcg). rewrite Eq in Eq0. injection Eq0 as <-.
    destruct (grow_last_ok (B := release) q es junk ne Ok Hcg ltac:(lia)) as (q' & es' & junk' & Eg & Ok' & Eb' & Ee' & Ha).
    destruct (resize_same_outside s b p es q' es' junk' t ne) as [K' M]; try (done || congruence).
    { intros a Hax. apply Ha. lia. }
    exists (set_sequence p q' (set_m_table t s)). split_and!; [|done..].
    rewrite (bind_Done _ _ _ _ _ (on_bigallocs_Done _ _ _ _ Et)). by apply (on_seq_Done p _ _ q).
  - destruct (delete_suffix_ok (B := release) q es junk ne Ok ltac:(lia)) as (q' & es' & junk' & Ed & Ok' & Eb' & Ee' & _ & Ha).
    destruct (resize_same_outside s b p es q' es' junk' t ne) as [K' M]; try (done || congruence).
    { intros a Hax. rewrite Ha, decide_True by lia. done. }
    exists (set_sequence p q' (set_m_table t s)). split_and!; [|done..].
    rewrite (wrap_user (_ - ne)), <- Eqe by lia. rewrite (bind_Done _ _ _ _ _ (on_seq_Done p _ s q tt q' Eq Ed)).
    rewrite (bind_Done _ _ _ _ _ (on_bigallocs_Done _ (set_sequence p q' s) _ _ Et)).
    rewrite (on_seq_Done p _ (set_m_table t (set_sequence p q' s)) q' tt q'); [|simpl; by rewrite lookup_insert_eq|by apply (sanity_ok q' es' junk')].
    unfold set_sequence. simpl. by rewrite insert_insert_eq.
  - assert (ne = b_end (ba (m_table s) b)) as -> by lia. exists s. split_and!; [done|done| |done|done].
    split; [done..|]. split; [done| |done..]. by destruct (ba (m_table s) b).
Qed.

(** ** The brk area *)

(** The mapping that holds the break owns a sequence, and the brk area is
    directly inside it. *)
Record brk_shape (s : mstate) (bb p : Z) : Prop := {
  bs_mmap : mmap_ok s;
  bs_owner : owner s (brk_mapping_bigalloc s) p;
  bs_used : used (m_table s) bb;
  bs_parent : parent (ba (m_table s) bb) = brk_mapping_bigalloc s;
}.

(** Places the break may move to: the area's children stay below it, nothing
    in the mapping follows the area, and no other mapping is in the way. *)
Record break_fits (s : mstate) (bb new : Z) : Prop := {
  bf_range : b_begin (ba (m_table s) bb) < new /\ ROUND_UP new PAGE_SIZE <= MAXIMUM_USER_ADDRESS + 1;
  bf_size : ROUND_UP new PAGE_SIZE - b_begin (ba (m_table s) (brk_mapping_bigalloc s)) <= BIGGEST_SANE_USER_ALLOC;
  bf_pages : page_up (b_begin (ba (m_table s) bb)) <= page_down (Z.min new (b_end (ba (m_table s) bb)));
  bf_roots i : used (m_table s) i -> parent (ba (m_table s) i) = 0 -> i <> brk_mapping_bigalloc s ->
    ROUND_UP new PAGE_SIZE <= b_begin (ba (m_table s) i) \/
    b_end (ba (m_table s) i) <= b_begin (ba (m_table s) (brk_mapping_bigalloc s));
  bf_kids c : used (m_table s) c -> parent (ba (m_table s) c) = bb -> b_end (ba (m_table s) c) <= new;
  bf_last c : used (m_table s) c -> parent (ba (m_table s) c) = brk_mapping_bigalloc s -> c <> bb ->
    b_end (ba (m_table s) c) <= b_begin (ba (m_table s) bb);
}.

Lemma round_up_ge a : 0 <= a -> a <= ROUND_UP a PAGE_SIZE /\ ROUND_UP a PAGE_SIZE mod PAGE_SIZE = 0.
Proof.
  intros. rewrite ROUND_UP_spec by (done || lia). split; [page_lia|]. rewrite Z.mul_comm. apply Z.mod_mul. done.
Qed.

Section shape.
Context (s : mstate) (bb p new : Z) (S : brk_shape s bb p) (F : break_fits s bb new).
#[local] Abbreviation m := (brk_mapping_bigalloc s).
#[local] Abbreviation t := (m_table s).

Lemma shape_nested : m <> 0 /\ bb <> m /\ b_begin (ba t m) <= b_begin (ba t bb) /\ b_end (ba t bb) <= b_end (ba t m) /\
  0 < b_begin (ba t bb) < b_end (ba t bb) /\ b_end (ba t m) <= MAXIMUM_USER_ADDRESS + 1.
Proof.
  destruct (mk_table _ (bs_mmap _ _ _ S)) as [W _ _ _]. pose proof (wf_bounds _ W bb (bs_used _ _ _ S)).
  pose proof (wf_bounds _ W m (proj1 (bs_owner _ _ _ S))).
  assert (Nm : m <> 0) by (apply (used_nonzero t); [done|apply (bs_owner _ _ _ S)]).
  pose proof (bs_parent _ _ _ S) as Pb. pose proof (parent_not_self t bb W (bs_used _ _ _ S)) as Np.
  destruct (wf_parent _ W bb (bs_used _ _ _ S)) as (_ & ? & ?); rewrite Pb in *; [done|]. split_and!; (done || congruence || lia).
Qed.

Lemma map_fits : b_end (ba t bb) <= ROUND_UP new PAGE_SIZE -> fits_range t m (b_begin (ba t m)) (ROUND_UP new PAGE_SIZE).
Proof.
  intros He. destruct shape_nested as (Nm & Nbm & Hlo & Hhi & Hb & Hm). destruct F as [[Hr Hmx] _ _ Hro Hk Hl].
  destruct (mk_table _ (bs_mmap _ _ _ S)) as [W _ _ _]. pose proof (bs_owner _ _ _ S) as O. 
  pose proof (wf_bounds _ W m (proj1 O)). pose proof (mk_top _ (bs_mmap _ _ _ S) _ _ O) as Pm.
  destruct (round_up_ge new ltac:(lia)) as [Hge Hal]. destruct (wf_aligned _ W m (proj1 O) Pm) as [Ab _].
  split; [lia|lia|done|done| |].
  - intros c U P. destruct (wf_parent _ W c U) as (_ & ? & ?); [rewrite P; done|]. rewrite P in *.
    destruct (decide (c = bb)) as [->|N]; [lia|]. specialize (Hl c U P N). lia.
  - intros c U N P. rewrite Pm in P. destruct (Hro c U P N); [by left|by right].
Qed.

Lemma area_fits : new <= b_end (ba t m) -> fits_range t bb (b_begin (ba t bb)) new.
Proof.
  intros He. destruct shape_nested as (Nm & Nbm & Hlo & Hhi & Hb & Hm). destruct F as [[Hr Hmx] _ _ Hro Hk Hl].
  destruct (mk_table _ (bs_mmap _ _ _ S)) as [W _ _ _]. pose proof (bs_parent _ _ _ S) as Pb. 
  split; [lia|lia| | | |].
  - intros _. rewrite Pb. lia.
  - intros P0. congruence.
  - intros c U P. destruct (wf_parent _ W c U) as (_ & ? & ?).
    { rewrite P. apply (used_nonzero t); [done|apply (bs_used _ _ _ S)]. }
    rewrite P in *. specialize (Hk c U P). lia.
  - intros c U N P. rewrite Pb in P. right. by apply Hl.
Qed.
End shape.

(** The resized record aside, the conditions do not change. *)
Lemma phase_keeps s s' bb p b ne new :
  brk_shape s bb p -> break_fits s bb new -> mmap_ok s' -> b = bb \/ b = brk_mapping_bigalloc s ->
  fits_range (m_table s) b (b_begin (ba (m_table s) b)) ne ->
  resize_ok (m_table s) (m_table s') b (b_begin (ba (m_table s) b)) ne -> (b = bb -> ne = new) ->
  brk_mapping_bigalloc s' = brk_mapping_bigalloc s ->
  brk_shape s' bb p /\ break_fits s' bb new /\ b_end (ba (m_table s') b) = ne /\
  (forall i, i <> b -> ba (m_table s') i = ba (m_table s) i).
Proof.
  intros S F K' Hb Fr R Hn Em. destruct (shape_nested s bb p S) as (Nm & Nbm & _). pose proof (ro_resized _ _ _ _ _ R) as Rz.
  assert (Ub : used (m_table s) b) by (destruct Hb as [->| ->]; [apply S|apply (bs_owner _ _ _ S)]).
  assert (Hu : forall i, used (m_table s') i <-> used (m_table s) i) by (intros i; by apply (rz_used _ _ _ _ _ Ub Fr Rz)).
  assert (Hp : forall i, parent (ba (m_table s') i) = parent (ba (m_table s) i)) by (intros i; apply (rz_links _ _ _ _ _ Rz)).
  assert (Hx : forall i, b_begin (ba (m_table s') i) = b_begin (ba (m_table s) i) /\
    (i <> b -> b_end (ba (m_table s') i) = b_end (ba (m_table s) i)) /\
    allocated_by (ba (m_table s') i) = allocated_by (ba (m_table s) i) /\
    allocator_private (ba (m_table s') i) = allocator_private (ba (m_table s) i)).
  { intros i. destruct (decide (i = b)) as [->|N]; [|by rewrite (rz_other _ _ _ _ _ Rz)].
    rewrite (rz_self _ _ _ _ _ Rz). by destruct (ba (m_table s) b). }
  assert (Hne : b_end (ba (m_table s') b) = ne) by (rewrite (rz_self _ _ _ _ _ Rz); by destruct (ba (m_table s) b)).
  split_and!; [| |done|apply Rz].
  - split; [done| |by apply Hu, S|by rewrite Hp, Em; apply S]. rewrite Em. destruct (bs_owner _ _ _ S) as (? & ? & ?).
    destruct (Hx (brk_mapping_bigalloc s)) as (_ & _ & Ea & Ep). split_and!; [by apply Hu|congruence..].
  - destruct F as [Hr Hs Hpg Hro Hk Hl].
    assert (Hkeep : forall c q, used (m_table s) c -> parent (ba (m_table s) c) = q -> c <> b -> b_end (ba (m_table s') c) = b_end (ba (m_table s) c))
      by (intros c q U P N; by apply Hx).
    split; rewrite ?Em.
    + by destruct (Hx bb) as (-> & _).
    + by destruct (Hx (brk_mapping_bigalloc s)) as (-> & _).
    + destruct (Hx bb) as (-> & Hend & _). destruct (decide (bb = b)) as [Eb|N]; [|by rewrite Hend].
      rewrite Eb, Hne, (Hn (eq_sym Eb)). rewrite <- Eb. revert Hpg. page_lia.
    + intros i Ui Pi N. rewrite Hp in Pi. apply Hu in Ui. destruct (Hx i) as (-> & Hend & _), (Hx (brk_mapping_bigalloc s)) as (-> & _).
      rewrite Hend; [by apply Hro|]. destruct Hb as [->| ->]; [|done]. intros ->. rewrite (bs_parent _ _ _ S) in Pi. done.
    + intros c Uc Pc. rewrite Hp in Pc. apply Hu in Uc. destruct (Hx c) as (_ & Hend & _).
      assert (N : c <> b).
      { intros ->. destruct Hb as [->| ->]; [by apply (parent_not_self (m_table s) bb (tk_wf _ (mk_table _ (bs_mmap _ _ _ S))) (bs_used _ _ _ S))|].
        rewrite (mk_top _ (bs_mmap _ _ _ S) _ _ (bs_owner _ _ _ S)) in Pc.
        by apply (used_nonzero (m_table s) bb (tk_wf _ (mk_table _ (bs_mmap _ _ _ S))) (bs_used _ _ _ S)). }
      rewrite (Hend N). by apply Hk.
    + intros c Uc Pc N. rewrite Hp in Pc. apply Hu in Uc. destruct (Hx c) as (_ & Hend & _), (Hx bb) as (-> & _).
      rewrite Hend; [by apply Hl|]. destruct Hb as [->| ->]; [done|]. intros ->.
      by apply (parent_not_self (m_table s) (brk_mapping_bigalloc s) (tk_wf _ (mk_table _ (bs_mmap _ _ _ S))) (proj1 (bs_owner _ _ _ S))).
Qed.

(** ** The two phases *)

Lemma map_phase s bb p new :
  let m := brk_mapping_bigalloc s in let ne := ROUND_UP new PAGE_SIZE in
  brk_shape s bb p -> break_fits s bb new -> b_end (ba (m_table s) bb) <= ne ->
  (b_end (ba (m_table s) m) < ne -> exists q, sequences s !! p = Some q /\ can_grow q) ->
  exists s', __mmap_allocator_notify_brk (B := release) new s = Done (tt, s') /\ brk_shape s' bb p /\ break_fits s' bb new /\
    brk_mapping_bigalloc s' = m /\ b_end (ba (m_table s') m) = ne /\ ba (m_table s') bb = ba (m_table s) bb /\
    same_outside s s' (b_end (ba (m_table s) m)) ne.
Proof.
  intros m ne S F He Hg. destruct (shape_nested s bb p S) as (Nm & Nbm & _).
  pose proof (map_fits s bb p new S F He) as Fr.
  destruct (notify_brk_ok s m p new (bs_mmap _ _ _ S) eq_refl (bs_owner _ _ _ S) Fr (bf_size _ _ _ F) Hg) as (s' & E' & K' & R & Em & M).
  destruct (phase_keeps s s' bb p m ne new S F K' (or_intror eq_refl) Fr R) as (S' & F' & He' & Ho); [intros Eb; by destruct (Nbm (eq_sym Eb))|done|].
  exists s'. split_and!; [done..| |done]. by apply Ho.
Qed.

(** Resizing what is not a mapping bigalloc leaves the mappings alone. *)
Lemma resize_other_ok s b t nb ne :
  mmap_ok s -> used (m_table s) b -> allocated_by (ba (m_table s) b) <> mmap_allocator ->
  fits_range (m_table s) b nb ne -> resize_ok (m_table s) t b nb ne -> ne - nb <= BIGGEST_SANE_USER_ALLOC ->
  mmap_ok (set_m_table t s) /\ forall a x, maps_to (set_m_table t s) a x <-> maps_to s a x.
Proof.
  intros K U Na F R Hs. pose proof (ro_resized _ _ _ _ _ R) as Rz.
  assert (Ho : forall i r, owner (set_m_table t s) i r <-> owner s i r).
  { intros i r. unfold owner. simpl. rewrite (rz_used _ _ _ _ _ U F Rz i).
    destruct (decide (i = b)) as [->|N]; [|by rewrite (rz_other _ _ _ _ _ Rz)].
    rewrite (rz_self _ _ _ _ _ Rz). by destruct (ba (m_table s) b). }
  assert (Hn : forall i r, owner s i r -> ba t i = ba (m_table s) i).
  { intros i r (_ & Ea & _). apply (rz_other _ _ _ _ _ Rz). by intros ->. }
  assert (Hd : forall i r es, owner s i r -> described (set_m_table t s) i r es <-> described s i r es).
  { intros i r es O. apply described_ext; [done|..]; simpl; by rewrite (Hn i r O). }
  split; [split|].
  - by apply (resize_table_ok (m_table s) t b nb ne (mk_table _ K)).
  - intros i r O%Ho. simpl. rewrite (Hn i r O). by apply (mk_top _ K i r).
  - intros i r O%Ho. destruct (mk_seq _ K i r O) as (es & D). exists es. by apply Hd.
  - intros i i' r O%Ho O'%Ho. by apply (mk_distinct _ K i i' r).
  - intros i r O%Ho. by apply (mk_nonnull _ K i r).
  - intros a x. split.
    + intros (i & r & es & O%Ho & D & Ha). exists i, r, es. split_and!; [done|by apply Hd|done].
    + intros (i & r & es & O & D & Ha). exists i, r, es. split_and!; [by apply Ho|by apply Hd|done].
Qed.

Lemma area_phase s bb p new :
  let m := brk_mapping_bigalloc s in
  brk_shape s bb p -> break_fits s bb new -> new <= b_end (ba (m_table s) m) ->
  exists t, (if new <? b_end (ba (m_table s) bb)
      then __liballocs_truncate_bigalloc_at_end (B := release) bb new
      else __liballocs_extend_bigalloc (B := release) bb new) (m_table s) = Done (true, t) /\
    let s' := set_m_table t s in
    brk_shape s' bb p /\ break_fits s' bb new /\ b_end (ba t bb) = new /\
    b_end (ba t m) = b_end (ba (m_table s) m) /\ forall a x, maps_to s' a x <-> maps_to s a x.
Proof.
  intros m S F He. subst m. destruct (shape_nested s bb p S) as (Nm & Nbm & Hlo & Hhi & Hb & Hm).
  destruct (mk_table _ (bs_mmap _ _ _ S)) as [W I St Sn]. pose proof (area_fits s bb p new S F He) as Fr.
  destruct (round_up_ge new ltac:(destruct (bf_range _ _ _ F); lia)) as [Hru _].
  pose proof (bf_size _ _ _ F) as Hsz. pose proof (bf_pages _ _ _ F) as Hpg. pose proof (bs_used _ _ _ S) as U.
  assert (Hsize : new - b_begin (ba (m_table s) bb) <= BIGGEST_SANE_USER_ALLOC) by lia.
  assert (Na : allocated_by (ba (m_table s) bb) <> mmap_allocator).
  { intros Ea. assert (O : owner s bb (allocator_private (ba (m_table s) bb))) by done.
    pose proof (mk_top _ (bs_mmap _ _ _ S) _ _ O) as P0. rewrite (bs_parent _ _ _ S) in P0. done. }
  assert (Hrun : exists t, (if new <? b_end (ba (m_table s) bb) then __liballocs_truncate_bigalloc_at_end (B := release) bb new
      else __liballocs_extend_bigalloc (B := release) bb new) (m_table s) = Done (true, t) /\
    resize_ok (m_table s) t bb (b_begin (ba (m_table s) bb)) new).
  { destruct (Z.ltb_spec new (b_end (ba (m_table s) bb))).
    - apply truncate_end_ok; [done..|lia|]. by rewrite Z.min_l in Hpg by lia.
    - apply extend_ok; [done..|lia| |done]. by rewrite Z.min_r in Hpg by lia. }
  destruct Hrun as (t & Et & R). exists t. split; [done|].
  destruct (resize_other_ok s bb t _ new (bs_mmap _ _ _ S) U Na Fr R Hsize) as [K' M].
  destruct (phase_keeps s (set_m_table t s) bb p bb new new S F K' (or_introl eq_refl) Fr R) as (S' & F' & He' & Ho); [done..|].
  split_and!; [done..| |done]. simpl in Ho. by rewrite Ho.
Qed.

(** ** The brk allocator *)

Lemma on_mmap_Done {A} (x : M mstate A) (s : bstate) a t :
  x (b_mmap s) = Done (a, t) -> on_mmap x s = Done (a, set_b_mmap t s).
Proof. unfold on_mmap. by intros ->. Qed.

Lemma on_mmap_read {A} (x : M mstate A) (s : bstate) a :
  x (b_mmap s) = Done (a, b_mmap s) -> on_mmap x s = Done (a, s).
Proof. intros Ex. rewrite (on_mmap_Done _ _ _ _ Ex). by destruct s. Qed.

Lemma on_brk_table_read {A} (x : M state A) (s : bstate) a :
  x (m_table (b_mmap s)) = Done (a, m_table (b_mmap s)) -> on_brk_table x s = Done (a, s).
Proof. intros Ex. by apply on_mmap_read, on_bigallocs_read. Qed.

Lemma on_brk_table_Done {A} (x : M state A) (s : bstate) a t :
  x (m_table (b_mmap s)) = Done (a, t) -> on_brk_table x s = Done (a, set_b_mmap (set_m_table t (b_mmap s)) s).
Proof. intros Ex. by apply on_mmap_Done, on_bigallocs_Done. Qed.

(** The state between system calls: the mapping ends at the page boundary at
    or after the break. *)
Record brk_ok (s : bstate) (p : Z) : Prop := {
  bk_shape : brk_shape (b_mmap s) (__brk_bigalloc s) p;
  bk_end : b_end (ba (m_table (b_mmap s)) (brk_mapping_bigalloc (b_mmap s))) =
    ROUND_UP (b_end (ba (m_table (b_mmap s)) (__brk_bigalloc s))) PAGE_SIZE;
  bk_initialized : brk_initialized s = true;
}.

(** The break has moved from where [s] had it to [new]. *)
Record brk_moved (s : bstate) (s' : mstate) (p new : Z) : Prop := {
  bm_shape : brk_shape s' (__brk_bigalloc s) p;
  bm_fits : break_fits s' (__brk_bigalloc s) new;
  bm_mapping : brk_mapping_bigalloc s' = brk_mapping_bigalloc (b_mmap s);
  bm_area : b_end (ba (m_table s') (__brk_bigalloc s)) = new;
  bm_end : b_end (ba (m_table s') (brk_mapping_bigalloc s')) = ROUND_UP new PAGE_SIZE;
  bm_same : same_outside (b_mmap s) s' (b_end (ba (m_table (b_mmap s)) (brk_mapping_bigalloc (b_mmap s)))) (ROUND_UP new PAGE_SIZE);
}.

Lemma update_brk_ok s p new :
  let m := brk_mapping_bigalloc (b_mmap s) in let bb := __brk_bigalloc s in
  brk_shape (b_mmap s) bb p -> break_fits (b_mmap s) bb new ->
  (b_end (ba (m_table (b_mmap s)) bb) <= new -> b_end (ba (m_table (b_mmap s)) m) = ROUND_UP new PAGE_SIZE) ->
  (new < b_end (ba (m_table (b_mmap s)) bb) -> ROUND_UP new PAGE_SIZE <= b_end (ba (m_table (b_mmap s)) m)) ->
  exists s', update_brk (B := release) new s = Done (tt, set_b_mmap s' s) /\ brk_moved s s' p new.
Proof.
  intros m bb S F Hup Hdn. subst m bb. destruct (shape_nested _ _ _ S) as (Nm & Nbm & Hlo & Hhi & Hb & Hm).
  destruct (round_up_ge new ltac:(destruct (bf_range _ _ _ F); lia)) as [Hru _].
  unfold update_brk. rewrite (bind_Done _ _ _ _ _ (on_mmap_read (gets brk_mapping_bigalloc) s (brk_mapping_bigalloc (b_mmap s)) eq_refl)).
  rewrite (proj2 (Z.eqb_neq (brk_mapping_bigalloc (b_mmap s)) 0)) by done. rewrite (bind_Done _ _ s (__brk_bigalloc s) s), (bind_Done _ _ s tt s) by done.
  rewrite (bind_Done _ _ _ _ _ (on_brk_table_read (rd b_end (__brk_bigalloc s)) s (b_end (ba (m_table (b_mmap s)) (__brk_bigalloc s))) eq_refl)).
  pose proof (area_phase (b_mmap s) (__brk_bigalloc s) p new S F) as Ap.
  destruct (Z.ltb_spec new (b_end (ba (m_table (b_mmap s)) (__brk_bigalloc s)))) as [Hlt|Hge].
  - destruct Ap as (t & Et & S1 & F1 & He1 & Hm1 & M1); [specialize (Hdn Hlt); lia|].
    rewrite (bind_Done _ _ _ _ _ (on_brk_table_Done _ _ _ _ Et)).
    rewrite (bind_Done _ _ _ _ _ (on_brk_table_read (rd b_end (__brk_bigalloc s)) (set_b_mmap (set_m_table t (b_mmap s)) s) (b_end (ba t (__brk_bigalloc s))) eq_refl)).
    rewrite (bind_Done (assert _) _ _ tt (set_b_mmap (set_m_table t (b_mmap s)) s)) by done.
    destruct (map_phase (set_m_table t (b_mmap s)) (__brk_bigalloc s) p new S1 F1) as (s2 & E2 & S2 & F2 & Em2 & He2 & Hbb2 & M2).
    { simpl. lia. } { simpl. rewrite Hm1. specialize (Hdn Hlt). lia. }
    exists s2. split; [by rewrite (on_mmap_Done _ (set_b_mmap (set_m_table t (b_mmap s)) s) _ _ E2)|].
    split; [done|done|by rewrite Em2| |by rewrite Em2|].
    + by rewrite Hbb2.
    + intros a x Ha. rewrite (M2 a x), (M1 a x); [done|]. simpl. by rewrite Hm1.
  - specialize (Hup Hge). destruct (Z.ltb_spec (b_end (ba (m_table (b_mmap s)) (__brk_bigalloc s))) new) as [Hlt|Hge'].
    + destruct (map_phase (b_mmap s) (__brk_bigalloc s) p new S F) as (s1 & E1 & S1 & F1 & Em1 & He1 & Hbb1 & M1); [lia|lia|].
      rewrite (bind_Done _ _ _ _ _ (on_mmap_Done _ _ _ _ E1)).
      destruct (area_phase s1 (__brk_bigalloc s) p new S1 F1) as (t & Et & S2 & F2 & He2 & Hm2 & M2); [rewrite Em1; lia|].
      rewrite Hbb1, (proj2 (Z.ltb_ge _ _)) in Et by lia.
      rewrite (bind_Done _ _ _ _ _ (on_brk_table_Done _ (set_b_mmap s1 s) _ _ Et)).
      exists (set_m_table t s1). split; [done|]. split; [done|done|done|done| |].
      * simpl. by rewrite Hm2, Em1.
      * intros a x Ha. by rewrite (M2 a x), (M1 a x).
    + assert (new = b_end (ba (m_table (b_mmap s)) (__brk_bigalloc s))) as En by lia. exists (b_mmap s). split; [by destruct s|].
      by split.
Qed.

Lemma brk_notify_ok s p new caller :
  let m := brk_mapping_bigalloc (b_mmap s) in let bb := __brk_bigalloc s in
  brk_ok s p -> __curbrk s = b_end (ba (m_table (b_mmap s)) bb) -> break_fits (b_mmap s) bb new ->
  (b_end (ba (m_table (b_mmap s)) m) < ROUND_UP new PAGE_SIZE ->
     exists q, sequences (b_mmap s) !! p = Some q /\ can_grow q) ->
  exists s', __brk_allocator_notify_brk (B := release) new caller s = Done (tt, s') /\ brk_ok s' p /\
    brk_moved s (b_mmap s') p new /\ __brk_bigalloc s' = bb /\ last_caller s' = caller.
Proof.
  intros m bb [S Hend Hi] Hc F Hg. subst m bb. destruct (shape_nested _ _ _ S) as (Nm & Nbm & Hlo & Hhi & Hb & Hm).
  assert (Hmono : forall a a', 0 <= a <= a' -> ROUND_UP a PAGE_SIZE <= ROUND_UP a' PAGE_SIZE).
  { intros a a' Ha. rewrite !ROUND_UP_spec by (done || lia). page_lia. }
  destruct (round_up_ge new ltac:(destruct (bf_range _ _ _ F); lia)) as [Hru _].
  assert (Hnew : 0 <= new) by (destruct (bf_range _ _ _ F); lia).
  unfold __brk_allocator_notify_brk. rewrite (bind_Done _ _ s true s) by (by rewrite <- Hi). cbn [negb].
  set (s0 := set_last_caller caller s). rewrite (bind_Done _ _ s tt s0), (bind_Done _ _ s0 (__curbrk s) s0) by done. rewrite Hc.
  destruct (Z.ltb_spec (b_end (ba (m_table (b_mmap s)) (__brk_bigalloc s))) new) as [Hlt|Hge].
  - destruct (map_phase (b_mmap s) (__brk_bigalloc s) p new S F) as (s1 & E1 & S1 & F1 & Em1 & He1 & Hbb1 & M1); [lia|done|].
    rewrite (bind_Done _ _ _ _ _ (on_mmap_Done _ s0 _ _ E1)).
    destruct (update_brk_ok (set_b_mmap s1 s0) p new S1 F1) as (s2 & E2 & Mv).
    { intros _. simpl. by rewrite Em1. } { simpl. rewrite Hbb1. lia. }
    destruct Mv as [S2 F2 Em2 Ha2 He2 M2]. simpl in *. exists (set_b_mmap s2 s0). split; [done|].
    split; [split; simpl; [done|by rewrite Ha2|done]|]. split; [|done]. split; simpl; [done|done|congruence|done|done|].
    intros a x Ha. rewrite Em1, He1 in M2. rewrite (M2 a x), (M1 a x); [done|done|]. lia.
  - destruct (update_brk_ok s0 p new S F) as (s1 & E1 & Mv).
    { simpl. intros ?. replace new with (b_end (ba (m_table (b_mmap s)) (__brk_bigalloc s))) by lia. done. }
    { simpl. intros ?. rewrite Hend. apply Hmono. lia. }
    rewrite (bind_Done _ _ _ _ _ E1). destruct Mv as [S1 F1 Em1 Ha1 He1 M1]. simpl in *.
    destruct (map_phase s1 (__brk_bigalloc s) p new S1 F1) as (s2 & E2 & S2 & F2 & Em2 & He2 & Hbb2 & M2); [lia|lia|].
    exists (set_b_mmap s2 s0). split; [by rewrite (on_mmap_Done _ (set_b_mmap s1 s0) _ _ E2)|].
    assert (Ha2 : b_end (ba (m_table s2) (__brk_bigalloc s)) = new) by by rewrite Hbb2.
    split; [split; simpl; [done|by rewrite Em2, He2, Ha2|done]|]. split; [|done].
    split; simpl; [done|done|congruence|done|by rewrite Em2|].
    intros a x Ha. rewrite He1 in M2. rewrite (M2 a x), (M1 a x); [done|done|]. lia.
Qed.
End brk.
