(* ===== verification/MappingTheorems.v ===== *)
(** The contract of the mmap and brk allocators: system calls change what the
    library records about the address space as they change the address space
    itself. *)
From stdpp Require Import strings.
From S2P Require Import Prelude DList Vas BigAlloc PageIndex PageIndexQuery BigAllocFacts Forest Traversal.
From S2P Require Import Traversal Create Delete Resize QueryCorrect Reachable Demo.
From S2P Require Import MappingSeq MappingSeqFacts Mmap MmapFacts MapFacts Brk BrkFacts.

(** ** The abstract address space *)

(** What is mapped at each address: protection, flags, whether it is anonymous, and the caller. *)
Definition address_space : Type := Z -> option (Z * Z * bool * Z).

Inductive syscall :=
| Smmap (addr len prot flags fd offset caller : Z)
| Smunmap (addr len : Z).

Section theorems.
Context {V : Vas} {VL : VasLaws V} {H : Hooks} {E : MmapEnv} {EL : MmapLaws E} {BE : BrkEnv}.

Definition effect (c : syscall) (f : address_space) : address_space := fun a =>
  match c with
  | Smmap addr len prot flags fd offset caller =>
    if decide (addr <= a < addr + ROUND_UP len PAGE_SIZE)
    then Some (prot, flags, is_null (filename_for_fd fd), caller) else f a
  | Smunmap addr len => if decide (addr <= a < addr + ROUND_UP len PAGE_SIZE) then None else f a
  end.

(** The notification the library gets for a call. *)
Definition notified (c : syscall) : M mstate unit :=
  match c with
  | Smmap addr len prot flags fd offset caller => __mmap_allocator_notify_mmap (B := release) addr len prot flags fd offset caller
  | Smunmap addr len => __mmap_allocator_notify_munmap (B := release) addr len
  end.
Fixpoint notified_all (l : list syscall) : M mstate unit :=
  match l with
  | [] => mret tt
  | c :: l => notified c ;; notified_all l
  end.

Definition represents (s : mstate) (f : address_space) : Prop :=
  mmap_ok s /\ forall a x, maps_to s a x <-> f a = Some x.

(** The calls covered: mapping a free range, mapping over part of one bigalloc
    that no other one abuts there, unmapping what is not a hole in one. *)
Definition covered (s : mstate) (c : syscall) : Prop :=
  match c with
  | Smmap addr len prot flags fd offset caller =>
    let hi := addr + ROUND_UP len PAGE_SIZE in
    0 < len /\
    ((START (m_table s) <> 0 /\ (exists b, first_free (m_table s) b) /\ mappable s addr hi) \/
     (Z.land flags MAP_FIXED <> 0 /\ exists b p, owner s b p /\ replaceable s b p addr hi (filename_for_fd fd) caller))
  | Smunmap addr len => 0 < len /\ unmappable s addr (addr + ROUND_UP len PAGE_SIZE)
  end.
Fixpoint covered_all (s : mstate) (l : list syscall) : Prop :=
  match l with
  | [] => True
  | c :: l => covered s c /\ forall s', notified c s = Done (tt, s') -> covered_all s' l
  end.

Lemma covered_step s s1 c l : covered s c -> notified c s = Done (tt, s1) -> covered_all s1 l -> covered_all s (c :: l).
Proof. intros Hc Hs Hl. split; [done|]. intros s'. rewrite Hs. by intros [= <-]. Qed.

Lemma notified_ok s f c : systrap_is_initialized = true -> represents s f -> covered s c ->
  exists s', notified c s = Done (tt, s') /\ represents s' (effect c f).
Proof.
  intros Sys [K M] Hc. destruct c as [addr len prot flags fd offset caller|addr len]; simpl.
  - destruct Hc as (Hl & [(Nst & (b & Fr) & Mp)|(Hfx & b & p & O & Rp)]); unfold __mmap_allocator_notify_mmap.
    + destruct (do_mmap_ok Sys s b addr len prot flags offset (filename_for_fd fd) caller K Nst Fr Hl Mp) as (s' & E' & K' & M').
      exists s'. split; [done|]. split; [done|]. intros a x. unfold effect. rewrite (M' a x), (M a x). case_decide as Ha; [|naive_solver].
      split; [|naive_solver]. intros [Hf|[_ ->]]; [exfalso|done]. apply M in Hf as (b' & p' & es & O & D & Hx).
      by apply (fg_free _ _ _ (mp_free _ _ _ Mp) b' a (proj1 O) Ha), (described_attrs s b' p' es a x).
    + destruct (do_mmap_fixed_ok Sys s b p addr len prot flags offset (filename_for_fd fd) caller K O Hl Hfx Rp) as (s' & E' & K' & M').
      exists s'. split; [done|]. split; [done|]. intros a x. unfold effect. rewrite (M' a x). case_decide; [naive_solver|apply M].
  - destruct Hc as [Hl Hu]. destruct (do_munmap_ok Sys s addr len K Hl Hu) as (s' & E' & K' & G).
    exists s'. split; [done|]. split; [done|]. intros a x. unfold effect. rewrite (G a x), (M a x). case_decide; naive_solver.
Qed.

Lemma notified_represents s s1 f c : systrap_is_initialized = true -> represents s f -> covered s c ->
  notified c s = Done (tt, s1) -> represents s1 (effect c f).
Proof. intros Sys R Hc Hs. destruct (notified_ok s f c Sys R Hc) as (s' & E' & R'). rewrite Hs in E'. by injection E' as ->. Qed.

(** Unmapping a range of whole pages that does not punch a hole in one
    bigalloc nor cut through what is nested in one: the call returns, the
    bigallocs and their sequences still agree, and exactly the mappings in the
    range have gone. *)
Lemma munmap_range s addr len :
  systrap_is_initialized = true -> mmap_ok s -> 0 < len -> unmappable s addr (addr + ROUND_UP len PAGE_SIZE) ->
  exists s', __mmap_allocator_notify_munmap (B := release) addr len s = Done (tt, s') /\ mmap_ok s' /\
    gone s s' addr (addr + ROUND_UP len PAGE_SIZE).
Proof. intros Sys K Hl Hu. by apply do_munmap_ok. Qed.

(** C2.  The bigallocs and mapping sequences refine an abstract address space:
    over a list of mmap and munmap notifications each of which is [covered]
    when it arrives, the library returns, and what it then says of every
    address is what the abstract calls say.  Covered are three kinds of call:
    the mapping of a free range of whole pages, of sane size also when joined to
    the mapping that ends there, at whose ends no allocator claims the address,
    while a record is free; a MAP_FIXED mapping of whole pages inside one
    bigalloc, where no other bigalloc ends at its beginning and the sequence
    has room for two more entries and is anonymous like the mapping, or of the
    same file and mapped by the same object; and the unmapping of whole pages
    that are not a hole strictly inside one bigalloc, do not cut through what
    is nested in one, and do not remove the anchor of the top-level list.
    Unmapping that punches a hole is not covered, nor is MAP_FIXED over the
    beginning of a bigalloc that another one abuts, for which
    [fixed_over_abutting] shows that the statement fails. *)
Theorem calls_refine l s f :
  systrap_is_initialized = true -> represents s f -> covered_all s l ->
  exists s', notified_all l s = Done (tt, s') /\ represents s' (fold_left (fun f c => effect c f) l f).
Proof.
  intros Sys R Hc. induction l as [|c l IH] in s, f, R, Hc |- *; [by exists s|]. destruct Hc as [Hc Hl].
  destruct (notified_ok s f c Sys R Hc) as (s1 & E1 & R1). destruct (IH s1 _ R1 (Hl s1 E1)) as (s' & E' & R').
  exists s'. split; [|done]. cbn [notified_all]. by rewrite (bind_Done _ _ _ _ _ E1).
Qed.

(** With MAP_FIXED over the beginning of a bigalloc that another one
    abuts, the one below is extended, not the one mapped over: two top-level
    bigallocs then overlap and the table is not well formed. *)
Lemma fixed_over_abutting s b1 p1 b2 p2 lo len prot flags fd off caller :
  let hi := lo + ROUND_UP len PAGE_SIZE in
  mmap_ok s -> owner s b1 p1 -> owner s b2 p2 ->
  b_end (ba (m_table s) b1) = lo -> b_begin (ba (m_table s) b2) = lo ->
  0 < len -> hi <= b_end (ba (m_table s) b2) -> Z.land flags MAP_FIXED <> 0 ->
  hi - b_begin (ba (m_table s) b1) <= BIGGEST_SANE_USER_ALLOC ->
  (exists q es junk, sequences s !! p1 = Some q /\ seq_ok q es junk /\
     agrees get_highest_loaded_object_below q es (filename_for_fd fd) caller /\ (nused q < MAPPING_SEQUENCE_MAX_LEN)%nat) ->
  exists s', __mmap_allocator_notify_mmap (B := release) lo len prot flags fd off caller s = Done (tt, s') /\
    b_end (ba (m_table s') b1) = hi /\ b_begin (ba (m_table s') b2) = lo /\ ~ wf (m_table s').
Proof.
  intros hi K O1 O2 E1 E2 Hl Hhi Hfx Hs Hq. pose proof (wf_bounds _ (tk_wf _ (mk_table _ K)) b2 (proj1 O2)) as Hb.
  destruct (do_mmap_abutting s b1 p1 b2 p2 lo len prot flags off (filename_for_fd fd) caller K O1 O2 E1 E2 Hl Hhi Hfx Hs Hq)
    as (s' & E' & U1 & U2 & P1 & P2 & B1 & Ee1 & B2 & Ee2). fold hi in Ee1, Ee2.
  exists s'. split_and!; [done..|]. intros W. pose proof (wf_bounds _ W b2 U2).
  assert (Hr : 0 < ROUND_UP len PAGE_SIZE) by (rewrite ROUND_UP_spec by (done || lia); page_lia).
  destruct (wf_disjoint _ W b1 b2 U1 U2) as [D|D]; [intros ->; lia|congruence|..]; unfold precedes in D; lia.
Qed.

(** A mapping that begins inside a sequence and ends beyond it is not
    handled: a debug build stops at the sanity check that follows, because an
    entry is left whose end is before its beginning. *)
Lemma augment_overrun f s es junk b e prot flags off file caller :
  seq_ok s es junk -> seq_begin s <= b < seq_end s -> seq_end s < e ->
  agrees f s es file caller -> (nused s + 2 <= MAPPING_SEQUENCE_MAX_LEN)%nat ->
  augment_sequence (B := debug) f b e prot flags off file caller s = Abort.
Proof. apply augment_overrun_ok. Qed.

(** C4.  Moving the program break, up or down, to a place that is free: the
    mapping bigalloc ends at the page boundary at or after the new break, the
    brk area inside it at the break itself, the mapping's sequence follows,
    mappings elsewhere are as before, and the invariant holds again. *)
Theorem break_moves s p new caller :
  let m := brk_mapping_bigalloc (b_mmap s) in let bb := __brk_bigalloc s in
  brk_ok s p -> __curbrk s = b_end (ba (m_table (b_mmap s)) bb) -> break_fits (b_mmap s) bb new ->
  (b_end (ba (m_table (b_mmap s)) m) < ROUND_UP new PAGE_SIZE ->
     exists q, sequences (b_mmap s) !! p = Some q /\ can_grow q) ->
  exists s', __brk_allocator_notify_brk (B := release) new caller s = Done (tt, s') /\ brk_ok s' p /\
    brk_moved s (b_mmap s') p new /\ __brk_bigalloc s' = bb /\ last_caller s' = caller.
Proof. apply brk_notify_ok. Qed.
End theorems.

(** ** Tests for the conditions *)

Section tests.
Context {V : Vas} {H : Hooks} {E : MmapEnv}.

Definition every_live (s : mstate) (f : Z -> big_allocation -> bool) : bool :=
  forallb (fun i => f i (ba (m_table s) i)) (elements (live (m_table s))).
Definition of_mmap (r : big_allocation) : bool := allocated_by r =? mmap_allocator.

Definition free_test (s : mstate) (lo hi : Z) : bool :=
  (0 <? lo) && (lo <? hi) && (hi <=? MAXIMUM_USER_ADDRESS + 1) && (lo mod PAGE_SIZE =? 0) && (hi mod PAGE_SIZE =? 0) &&
  every_live s (fun _ r => (hi <=? b_begin r) || (b_end r <=? lo)).
Definition mappable_test (s : mstate) (lo hi : Z) : bool :=
  free_test s lo hi && (hi - lo <=? BIGGEST_SANE_USER_ALLOC) &&
  every_live s (fun _ r => implb (of_mmap r && (b_end r =? lo)) (hi - b_begin r <=? BIGGEST_SANE_USER_ALLOC)).
Definition unmappable_test (s : mstate) (lo hi : Z) : bool :=
  (0 <? lo) && (lo <=? hi) && (hi <=? MAXIMUM_USER_ADDRESS + 1) && (lo mod PAGE_SIZE =? 0) && (hi mod PAGE_SIZE =? 0) &&
  every_live s (fun b r => implb (of_mmap r)
    (((lo <=? b_begin r) || (b_end r <=? hi)) &&
     implb (b =? START (m_table s)) (negb ((lo <=? b_begin r) && (b_end r <=? hi))) &&
     every_live s (fun _ c => implb (parent c =? b) ((b_end c <=? lo) || (hi <=? b_begin c)
        || ((lo <=? b_begin r) && (b_end r <=? hi)))))).

Lemma every_live_spec s f i : every_live s f = true -> used (m_table s) i -> f i (ba (m_table s) i) = true.
Proof. intros Ht. by apply (live_all (m_table s) (fun i => f i (ba (m_table s) i))). Qed.

Lemma free_test_ok s lo hi : free_test s lo hi = true -> free_range s lo hi.
Proof.
  unfold free_test. rewrite !andb_true_iff, !Z.ltb_lt, Z.leb_le, !Z.eqb_eq. intros (((((? & ?) & ?) & ?) & ?) & Hf).
  split; [done|done|]. intros i a U Ha C. apply (every_live_spec _ _ i) in Hf; [|done]. cbv beta in Hf. unfold contains in C. lia.
Qed.

Lemma mappable_test_ok s lo hi : mappable_test s lo hi = true -> quiet lo (m_table s) -> quiet (hi - 1) (m_table s) -> mappable s lo hi.
Proof.
  unfold mappable_test. rewrite !andb_true_iff, Z.leb_le. intros ((Hf & Hs) & Hn) Q1 Q2.
  split; [by apply free_test_ok|done|done|]. intros b p (U & Ea & _) Ee. apply (every_live_spec _ _ b) in Hn; [|done]. cbv beta in Hn.
  unfold of_mmap in Hn. rewrite Ea, Ee, !Z.eqb_refl in Hn. by apply Z.leb_le.
Qed.

Lemma unmappable_test_ok s lo hi : unmappable_test s lo hi = true -> unmappable s lo hi.
Proof.
  unfold unmappable_test. rewrite !andb_true_iff, !Z.ltb_lt, !Z.leb_le, !Z.eqb_eq. intros (((((? & ?) & ?) & ?) & ?) & Hf).
  assert (Hb : forall b p, owner s b p -> let r := ba (m_table s) b in
    (lo <= b_begin r \/ b_end r <= hi) /\ (b = START (m_table s) -> ~ (lo <= b_begin r /\ b_end r <= hi)) /\
    forall c, used (m_table s) c -> parent (ba (m_table s) c) = b ->
      (b_end (ba (m_table s) c) <= lo \/ hi <= b_begin (ba (m_table s) c)) \/ (lo <= b_begin r /\ b_end r <= hi)).
  { intros b p (U & Ea & _) r. apply (every_live_spec _ _ b) in Hf; [|done]. cbv beta in Hf. unfold of_mmap in Hf. fold r in Hf, Ea.
    rewrite Ea, Z.eqb_refl in Hf. cbn [implb] in Hf. rewrite !andb_true_iff in Hf. destruct Hf as [[Ht1 Ht2] Ht3]. split_and!.
    - lia.
    - intros ->. rewrite Z.eqb_refl in Ht2. cbn [implb] in Ht2. lia.
    - intros c Uc Pc. apply (every_live_spec _ _ c) in Ht3; [|done]. cbv beta in Ht3. rewrite Pc, Z.eqb_refl in Ht3. cbn [implb] in Ht3. lia. }
  split; [lia|done| | |].
  - intros b p O. apply (Hb b p O).
  - intros b p c O Uc Pc Hov. destruct (Hb b p O) as (_ & _ & Hc). destruct (Hc c Uc Pc); lia.
  - intros p O. by apply (Hb _ p O).
Qed.
End tests.

(** ** Instances *)

#[local] Instance trapped_hooks : Hooks := {|
  min_alignment _ := 0;
  brk_allocator := 8;
  systrap_is_initialized := true;
  stack_notify_unindexed_address _ := mret false;
  mmap_notify_unindexed_address _ := mret false;
  brk_notify_brk := mret tt;
  mmap_allocator_init := mret tt;
|}.

(** Blocks are handed out above all those in use. *)
Definition top_block {A} (h : gmap Z A) : Z := map_fold (fun k _ m => Z.max k m) 0 h.

Lemma top_block_spec {A} (h : gmap Z A) : 0 <= top_block h /\ forall k q, h !! k = Some q -> k <= top_block h.
Proof.
  unfold top_block. apply (map_fold_weak_ind (fun m h => 0 <= m /\ forall k q, h !! k = Some q -> k <= m)).
  - split; [done|]. intros k q. by rewrite lookup_empty.
  - intros i x h' m Hi [Hm IH]. split; [lia|]. intros k q [[-> _]|[_ Hk]]%lookup_insert_Some; [lia|]. specialize (IH k q Hk). lia.
Qed.

#[local] Instance demo_mmap_env : MmapEnv := {|
  mmap_allocator := 5;
  auxv_allocator := 6;
  private_nommap_free := 99;
  private_nommap_malloc h := 1 + top_block h;
  get_highest_loaded_object_below _ := 0;
  filename_for_fd fd := if fd =? -1 then None else Some "/lib/libc.so"%string;
  auxv_notify_init_stack_mapping_sequence _ := mret tt;
  executable_data_segment_start_addr := 0;
|}.

#[local] Instance demo_mmap_laws : MmapLaws demo_mmap_env.
Proof.
  split; [done| |].
  - intros h. destruct (h !! _) as [q|] eqn:E; [|done]. apply top_block_spec in E. simpl in E. lia.
  - intros h. destruct (top_block_spec h). simpl. lia.
Qed.

Definition after {A} (m : M mstate A) (s : mstate) : mstate := match m s with Done (_, s') => s' | _ => s end.

(** No mapping is recorded; then two anonymous ones, the second right after the first. *)
Definition space0 : mstate := MState demo ∅ 0.
Definition call1 : syscall := Smmap 0x60000 0x2000 3 0x22 (-1) 0 0x5555.
Definition call2 : syscall := Smmap 0x62000 0x1000 1 0x22 (-1) 0 0x5555.
Definition call3 : syscall := Smmap 0x61000 0x1000 1 0x32 (-1) 0 0x5555.
Definition call4 : syscall := Smunmap 0x60000 0x1000.
Definition space1 : mstate := after (notified call1) space0.
Definition space2 : mstate := after (notified call2) space1.
Definition space3 : mstate := after (notified call3) space2.
Definition space4 : mstate := after (notified call4) space3.

Lemma spaces : notified call1 space0 = Done (tt, space1) /\ notified call2 space1 = Done (tt, space2) /\
  notified call3 space2 = Done (tt, space3) /\ notified call4 space3 = Done (tt, space4).
Proof. split_and!; by vm_compute. Qed.

Lemma space0_ok : represents space0 (fun _ => None).
Proof.
  assert (N : forall b p, ~ owner space0 b p).
  { intros b p (U & Ea & _). unfold space0 in U, Ea. cbn [m_table] in U, Ea.
    pose proof (live_all demo (fun b => negb (allocated_by (ba demo b) =? 5)) ltac:(by vm_compute) b U) as A.
    cbv beta in A. rewrite Ea in A. discriminate A. }
  split; [split|].
  - apply demo_ok.
  - intros b p O. by destruct (N b p).
  - intros b p O. by destruct (N b p).
  - intros b b' p O. by destruct (N b p).
  - intros b p O. by destruct (N b p).
  - intros a x. split; [|done]. intros (b & p & es & O & _). by destruct (N b p).
Qed.

Lemma quiet_trapped a t : quiet a t.
Proof. done. Qed.

Lemma space0_covered : covered space0 call1.
Proof.
  split; [done|]. left. split_and!; [by vm_compute| |apply mappable_test_ok; [by vm_compute|apply quiet_trapped..]].
  exists 5. split_and!; [done|done|by_eval; by intros [? ?]|]. intros j Hj. assert (j = 1 \/ j = 2 \/ j = 3 \/ j = 4) as [->|[->|[->| ->]]] by lia; by_eval.
Qed.

Lemma space1_free : exists b, first_free (m_table space1) b.
Proof.
  exists 6. split_and!; [done|done|by_eval; by intros [? ?]|]. intros j Hj.
  assert (j = 1 \/ j = 2 \/ j = 3 \/ j = 4 \/ j = 5) as [->|[->|[->|[->| ->]]]] by lia; by_eval.
Qed.

Lemma space1_covered : covered space1 call2.
Proof.
  split; [done|]. left. split_and!; [by vm_compute|apply space1_free|apply mappable_test_ok; [by vm_compute|apply quiet_trapped..]].
Qed.

(** The sequence of the bigalloc after the second call. *)
Definition seq2 : mapping_sequence := default zero_sequence (sequences space2 !! 1).

Lemma seq2_ok : seq_ok seq2 (take 2 (mappings seq2)) (drop 2 (mappings seq2)).
Proof.
  split; [by rewrite take_drop|by vm_compute|by vm_compute|by_eval| |by_eval].
  replace (drop 2 (mappings seq2)) with (replicate 6 zero_mapping) by (by vm_compute). apply Forall_replicate. by left.
Qed.

Lemma space2_covered : covered space2 call3.
Proof.
  split; [done|]. right. split; [by vm_compute|]. exists 5, 1. split; [by_eval|]. split; [by_eval|by_eval|by_eval|].
  exists seq2, (take 2 (mappings seq2)), (drop 2 (mappings seq2)).
  split_and!; [by vm_compute|apply seq2_ok|left; by_eval|by vm_compute; lia].
Qed.

Lemma space3_covered : covered space3 call4.
Proof. split; [done|]. apply unmappable_test_ok. by vm_compute. Qed.

Lemma calls_refine_witness :
  exists s', notified_all [call1; call2; call3; call4] space0 = Done (tt, s') /\
    represents s' (fold_left (fun f c => effect c f) [call1; call2; call3; call4] (fun _ => None)).
Proof.
  apply (calls_refine [call1; call2; call3; call4] space0 (fun _ => None)); [done|apply space0_ok|].
  apply (covered_step space0 space1); [apply space0_covered|apply spaces|].
  apply (covered_step space1 space2); [apply space1_covered|apply spaces|].
  apply (covered_step space2 space3); [apply space2_covered|apply spaces|].
  apply (covered_step space3 space4); [apply space3_covered|apply spaces|done].
Defined.

Lemma space3_ok : mmap_ok space3.
Proof.
  destruct spaces as (E1 & E2 & E3 & _). pose proof (notified_represents _ _ _ _ eq_refl space0_ok space0_covered E1) as R1.
  pose proof (notified_represents _ _ _ _ eq_refl R1 space1_covered E2) as R2.
  exact (proj1 (notified_represents _ _ _ _ eq_refl R2 space2_covered E3)).
Qed.

Lemma munmap_range_demo :
  exists s', __mmap_allocator_notify_munmap (B := release) 0x60000 0x1000 space3 = Done (tt, s') /\ mmap_ok s' /\
    gone space3 s' 0x60000 (0x60000 + ROUND_UP 0x1000 PAGE_SIZE).
Proof.
  apply (munmap_range space3 0x60000 0x1000); [done|apply space3_ok|done|]. apply unmappable_test_ok. by vm_compute.
Defined.

(** An anonymous mapping with a mapped file right after it. *)
Definition call_file : syscall := Smmap 0x62000 0x2000 5 2 3 0 0x5555.
Definition space_file : mstate := after (notified call_file) space1.

Lemma space_file_ok : mmap_ok space_file.
Proof.
  destruct spaces as (E1 & _). pose proof (notified_represents _ _ _ _ eq_refl space0_ok space0_covered E1) as R1.
  assert (C : covered space1 call_file).
  { split; [done|]. left. split_and!; [by vm_compute|apply space1_free|apply mappable_test_ok; [by vm_compute|apply quiet_trapped..]]. }
  assert (Ef : notified call_file space1 = Done (tt, space_file)) by by vm_compute.
  exact (proj1 (notified_represents _ _ _ _ eq_refl R1 C Ef)).
Qed.

(** The sequence of the anonymous mapping. *)
Definition seq1 : mapping_sequence := default zero_sequence (sequences space1 !! 1).
Lemma seq1_ok : seq_ok seq1 (take 1 (mappings seq1)) (drop 1 (mappings seq1)).
Proof.
  split; [by rewrite take_drop|by vm_compute|by vm_compute|by_eval| |by_eval].
  replace (drop 1 (mappings seq1)) with (replicate 7 zero_mapping) by (by vm_compute). apply Forall_replicate. by left.
Qed.

Lemma fixed_over_abutting_demo :
  exists s', __mmap_allocator_notify_mmap (B := release) 0x62000 0x1000 3 0x32 (-1) 0 0x5555 space_file = Done (tt, s') /\
    b_end (ba (m_table s') 5) = 0x62000 + ROUND_UP 0x1000 PAGE_SIZE /\ b_begin (ba (m_table s') 6) = 0x62000 /\ ~ wf (m_table s').
Proof.
  apply (fixed_over_abutting space_file 5 1 6 2 0x62000 0x1000 3 0x32 (-1) 0 0x5555); [apply space_file_ok|by_eval..|].
  exists seq1, (take 1 (mappings seq1)), (drop 1 (mappings seq1)).
  split_and!; [by vm_compute|apply seq1_ok|left; by_eval|by vm_compute; lia].
Defined.

Lemma augment_overrun_demo :
  augment_sequence (B := debug) (fun _ => 0) 0x61000 0x63000 1 0x32 0 None 0x5555 seq1 = Abort.
Proof.
  apply (augment_overrun (fun _ => 0) seq1 (take 1 (mappings seq1)) (drop 1 (mappings seq1)) 0x61000 0x63000 1 0x32 0 None 0x5555);
    [apply seq1_ok|by_eval|by_eval|left; by_eval|by vm_compute; lia].
Defined.

(** The break is at 0x61800, in the anonymous mapping; the brk area begins at 0x60800. *)
Definition brk_table : state := result (__liballocs_new_bigalloc (B := release) 0x60800 0x1000 0 0 5 8 (m_table space1)).
Definition brk_space : mstate := MState brk_table (sequences space1) 5.
Definition brk_state : bstate := BState brk_space 6 0x61800 0 true false.
#[local] Instance demo_brk_env : BrkEnv := {| sbrk _ := gets __curbrk; executable_end_addr := 0x60000 |}.

Lemma brk_table_ok : table_ok brk_table.
Proof.
  destruct spaces as (E1 & _). pose proof (notified_represents _ _ _ _ eq_refl space0_ok space0_covered E1) as [K1 _].
  apply (table_ok_step (m_table space1)); [apply K1|].
  eapply (step_new (m_table space1) brk_table 6 0x60800 0x1000 0 0 5 8 5).
  - by vm_compute.
  - unfold fits. rewrite decide_False by done. split_and!; [by_eval..|]. intros c U P.
    pose proof (live_all (m_table space1) (fun c => negb (parent (ba (m_table space1) c) =? 5)) ltac:(by vm_compute) c U) as A.
    cbv beta in A. rewrite P in A. discriminate A.
  - by_eval.
  - clear. by left.
  - by vm_compute.
Qed.

(** Record 5, with the block at 1, is the only mapping. *)
Lemma brk_owner b p : owner brk_space b p -> b = 5 /\ p = 1.
Proof.
  intros (U & Ea & Ep). unfold brk_space in U, Ea, Ep. cbn [m_table] in U, Ea, Ep.
  pose proof (live_all brk_table (fun b => implb (allocated_by (ba brk_table b) =? 5)
    ((b =? 5) && (allocator_private (ba brk_table b) =? 1))) ltac:(by vm_compute) b U) as A.
  cbv beta in A. rewrite Ea, Ep in A. cbn [demo_mmap_env mmap_allocator Z.eqb Pos.eqb implb] in A. lia.
Qed.

Lemma brk_space_shape : brk_shape brk_space 6 1.
Proof.
  split; [split|by_eval..].
  - apply brk_table_ok.
  - intros b p [-> ->]%brk_owner. by vm_compute.
  - intros b p [-> ->]%brk_owner. exists (take 1 (mappings seq1)), seq1, (drop 1 (mappings seq1)).
    split_and!; [by vm_compute|apply seq1_ok|by vm_compute|by vm_compute].
  - by intros b b' p [-> _]%brk_owner [-> _]%brk_owner.
  - by intros b p [_ ->]%brk_owner.
Qed.

Lemma brk_space_fits : break_fits brk_space 6 0x63400.
Proof.
  split; [by_eval|by_eval|by_eval| | |].
  - intros i U P N. unfold brk_space in *. cbn [m_table brk_mapping_bigalloc] in *.
    pose proof (live_all brk_table (fun i => implb (negb (i =? 5) && (parent (ba brk_table i) =? 0)) (b_end (ba brk_table i) <=? 0x60000))
      ltac:(by vm_compute) i U) as A.
    cbv beta in A. rewrite P, (proj2 (Z.eqb_neq i 5) N) in A. cbn [negb andb Z.eqb implb] in A. right.
    replace (b_begin (ba brk_table 5)) with 0x60000 by by vm_compute. lia.
  - intros c U P. unfold brk_space in *. cbn [m_table] in *.
    pose proof (live_all brk_table (fun i => negb (parent (ba brk_table i) =? 6)) ltac:(by vm_compute) c U) as A.
    cbv beta in A. rewrite P in A. discriminate A.
  - intros c U P N. unfold brk_space in *. cbn [m_table brk_mapping_bigalloc] in *.
    pose proof (live_all brk_table (fun i => implb (parent (ba brk_table i) =? 5) (i =? 6)) ltac:(by vm_compute) c U) as A.
    cbv beta in A. rewrite P in A. cbn [Z.eqb Pos.eqb implb] in A. lia.
Qed.

Lemma break_moves_witness :
  exists s', __brk_allocator_notify_brk (B := release) 0x63400 0x7777 brk_state = Done (tt, s') /\ brk_ok s' 1 /\
    brk_moved brk_state (b_mmap s') 1 0x63400 /\ __brk_bigalloc s' = 6 /\ last_caller s' = 0x7777.
Proof.
  apply (break_moves brk_state 1 0x63400 0x7777).
  - split; [apply brk_space_shape|by vm_compute|done].
  - by vm_compute.
  - apply brk_space_fits.
  - intros _. exists seq1. split; [by vm_compute|left; by vm_compute].
Defined.
