(* ===== verification/GenericSmall.v ===== *)
(** The rectangular index of small objects, src/src/allocators/generic_small.c.

    The metadata of an arena is an array of 8-byte entries in layers: the
    entries of one bucket (a [2^log_pitch]-byte slice of the arena) are one
    layer apart.  An entry is a word seen through bit-fields, least
    significant bit first: discr:48, bucket_offset:8, thisbucket_size:8; a
    [regular_initial] entry keeps the allocation site in the low 47 bits, a
    [continuation] the object size in the low 22.

    Entry pointers are indices into [metadata_recs], which starts zeroed.
    [next_power_of_two_ge], [integer_log2] (librunt's bitops.h) and the
    functions reached through [struct allocator] are parameters; [mmap] and
    [__private_malloc] are assumed to succeed. *)
From S2P Require Import Prelude Vas BigAlloc PageIndex PageIndexQuery MallocMeta AddrList.

Record chunk_rec := ChunkRec {
  metadata_recs : gmap Z Z;
  power_of_two_size : Z;
  log_pitch : Z;
  one_layer_nbytes : Z;
  biggest_object : Z;
}.
Definition zero_chunk_rec : chunk_rec := ChunkRec ∅ 0 0 0 0.

(** ** Entries *)

Definition discr (e : Z) : Z := field 0 48 e.
Definition bucket_offset (e : Z) : Z := field 48 8 e.
Definition thisbucket_size (e : Z) : Z := field 56 8 e.
Definition regular_alloc_site (e : Z) : Z := field 0 47 e.
Definition continuation_size (e : Z) : Z := field 0 22 e.

Definition mk_regular_initial (alloc_site off sz : Z) : Z :=
  set_field 56 8 sz (set_field 48 8 off (set_field 0 47 alloc_site 0)).
Definition mk_continuation (size sz : Z) : Z := set_field 56 8 sz (set_field 0 22 size 0).

Definition ENTRY_IS_NULL (e : Z) : bool := discr e =? 0.

(** ** Geometry *)

Definition memrect_nbucket_of (addr start log_bucket_pitch : Z) : Z :=
  Z.shiftr (wrap64 (addr - start)) log_bucket_pitch.
Definition memrect_bucket_offset_of_addr (addr start log_bucket_pitch : Z) : Z :=
  wrap64 (addr - start) mod 2 ^ log_bucket_pitch.
Definition memrect_entries_per_layer (po2_size log_bucket_pitch : Z) : Z :=
  wrap32 (Z.shiftr po2_size log_bucket_pitch).
(** Entry pointers are indices, so the entry size has been divided out. *)
Definition memrect_bucket_range_base (bucket start log_bucket_pitch : Z) : Z :=
  wrap64 (start + Z.shiftl bucket log_bucket_pitch).

Definition ENTRIES_PER_LAYER (c : chunk_rec) : Z := memrect_entries_per_layer (power_of_two_size c) (log_pitch c).
Definition NLAYERS (c : chunk_rec) : Z := Z.shiftl 1 (log_pitch c).
Definition BUCKET_RANGE_BASE (bucket : Z) (c : chunk_rec) (start : Z) : Z :=
  memrect_bucket_range_base bucket start (log_pitch c).
Definition BUCKET_RANGE_END (bucket : Z) (c : chunk_rec) (start : Z) : Z :=
  wrap64 (BUCKET_RANGE_BASE bucket c start + Z.shiftl 1 (log_pitch c)).
Definition BUCKET_PTR_FROM_ENTRY_PTR (ent : Z) (c : chunk_rec) : Z := ent mod ENTRIES_PER_LAYER c.

Definition MAX_PITCH : Z := 256.
Definition sizeof_entry : Z := 8.

Definition entry_at (c : chunk_rec) (i : Z) : Z := default 0 (metadata_recs c !! i).
Definition set_entry (i e : Z) (c : chunk_rec) : chunk_rec :=
  ChunkRec (<[i := e]> (metadata_recs c)) (power_of_two_size c) (log_pitch c)
    (one_layer_nbytes c) (biggest_object c).
Definition set_biggest (v : Z) (c : chunk_rec) : chunk_rec :=
  ChunkRec (metadata_recs c) (power_of_two_size c) (log_pitch c) (one_layer_nbytes c) v.

(** Fuel for a walk along the layers of one bucket: one more than there are. *)
Definition layers (c : chunk_rec) : nat := S (Z.to_nat (NLAYERS c)).

Class SmallEnv := {
  next_power_of_two_ge : Z -> Z;
  integer_log2 : Z -> Z;
  SMALL_MINIMUM_USER_ADDRESS : Z;
  ADDR_BITSIZE : Z;
  generic_small_allocator : Z;
  small_find_allocsite_entry_at : Z -> option Z;
  (** [a->get_info] for base and size; [None] is an error other than an
      unrecognised allocation site. *)
  allocator_get_info : Z -> Z -> M state (option (Z * Z));
  allocator_ensure_big : Z -> Z -> Z -> M state Z;
}.

Section chunk.
Context {B : Build} {SE : SmallEnv}.

Definition ENTRY_IS_CONTINUATION (e : Z) : bool :=
  negb (discr e =? 0) && (discr e <? SMALL_MINIMUM_USER_ADDRESS).

Definition is_power_of_two (n : Z) : bool := (0 <? n) && (Z.land n (n - 1) =? 0).

Definition make_suballocated_chunk (chunk_size guessed_average_size : Z) : M unit chunk_rec :=
  assert (negb (chunk_size =? 0)) ;;
  let po2 := next_power_of_two_ge chunk_size in
  let guessed := if MAX_PITCH <? guessed_average_size then MAX_PITCH else guessed_average_size in
  let lp := integer_log2 (next_power_of_two_ge guessed) in
  let layer := sizeof_entry * Z.shiftr po2 lp in
  assert (is_power_of_two layer) ;;
  r ← (if layer <? PAGE_SIZE then
         let pitch := wrap32 (Z.shiftr (sizeof_entry * po2) LOG_PAGE_SIZE) in
         assert (is_power_of_two pitch) ;;
         mret (PAGE_SIZE, integer_log2 pitch)
       else mret (layer, lp));
  assert (wrap32 (fst r / sizeof_entry) <? SMALL_MINIMUM_USER_ADDRESS) ;;
  mret (ChunkRec ∅ po2 (snd r) (fst r) 0).

Context (begin_ : Z).

(** The first layer of a bucket with a null entry. *)
Fixpoint free_slot_loop (fuel : nat) (p_ent layer_num : Z) : M chunk_rec (Z * Z) :=
  match fuel with
  | O => nofuel
  | S fuel =>
    c ← gets id;
    if ENTRY_IS_NULL (entry_at c p_ent) then mret (p_ent, layer_num)
    else free_slot_loop fuel (p_ent + ENTRIES_PER_LAYER c) (layer_num + 1)
  end.
Definition free_slot_in (p_bucket : Z) : M chunk_rec (Z * Z) :=
  c ← gets id; free_slot_loop (layers c) p_bucket 0.

(** The entry of the previous bucket with the biggest offset. *)
Fixpoint last_object_loop (fuel : nat) (i_layer : Z) (best : option Z) : M chunk_rec (option Z) :=
  match fuel with
  | O => nofuel
  | S fuel =>
    c ← gets id;
    let e := entry_at c i_layer in
    if ENTRY_IS_NULL e then mret best else
    let best :=
      if ENTRY_IS_CONTINUATION e then best else
      match best with
      | None => Some i_layer
      | Some b => if bucket_offset (entry_at c b) <? bucket_offset e then Some i_layer else best
      end in
    last_object_loop fuel (i_layer + ENTRIES_PER_LAYER c) best
  end.

(** Object start, size and entry; following a null entry pointer is a crash. *)
Definition get_start_from_continuation (p_ent p_bucket : Z) : M chunk_rec (Z * Z * Z) :=
  c ← gets id;
  best ← last_object_loop (layers c) (p_bucket - 1) None;
  match best with
  | None => abort
  | Some ent =>
    mret (wrap64 (BUCKET_RANGE_BASE (p_bucket - 1) c begin_ + bucket_offset (entry_at c ent)),
          continuation_size (entry_at c p_ent), ent)
  end.

Fixpoint check_earlier (fuel : nat) (i_earlier i_layer off our_end : Z) : M chunk_rec unit :=
  match fuel with
  | O => nofuel
  | S fuel =>
    if i_earlier =? i_layer then mret tt else
    c ← gets id;
    let e := entry_at c i_earlier in
    (if ENTRY_IS_CONTINUATION e then assert (negb (thisbucket_size e =? 0))
     else
       let earlier_end := bucket_offset e + thisbucket_size e in
       assert (negb ((off <? earlier_end) && (bucket_offset e <? our_end))) ;;
       assert (negb ((bucket_offset e <? our_end) && (off <? earlier_end)))) ;;
    check_earlier fuel (i_earlier + ENTRIES_PER_LAYER c) i_layer off our_end
  end.

Fixpoint check_bucket_loop (fuel : nat) (p_bucket i_layer layer_num : Z) : M chunk_rec unit :=
  match fuel with
  | O => nofuel
  | S fuel =>
    c ← gets id;
    let e := entry_at c i_layer in
    if ENTRY_IS_NULL e then mret tt else
    assert (layer_num <? NLAYERS c) ;;
    (if ENTRY_IS_CONTINUATION e then get_start_from_continuation i_layer p_bucket ;; mret tt
     else
       assert (bucket_offset e <? 2 ^ log_pitch c) ;;
       check_earlier (layers c) p_bucket i_layer (bucket_offset e) (bucket_offset e + thisbucket_size e)) ;;
    check_bucket_loop fuel p_bucket (i_layer + ENTRIES_PER_LAYER c) (layer_num + 1)
  end.
Definition check_bucket_sanity (p_bucket : Z) : M chunk_rec unit :=
  if NDEBUG then mret tt else
  c ← gets id; check_bucket_loop (layers c) p_bucket p_bucket 0.

(** ** Looking an address up *)

Inductive walk_result :=
| Hit (object_start : Z) (object_size : option Z) (ent : Z)
| Fail
| NextBucket.

Fixpoint lookup_layers (fuel : nat) (ptr p_bucket p_ent layer_num : Z) (must_see_continuation : bool)
    : M chunk_rec walk_result :=
  match fuel with
  | O => nofuel
  | S fuel =>
    c ← gets id;
    let e := entry_at c p_ent in
    if ENTRY_IS_NULL e then mret NextBucket else
    assert (layer_num <? NLAYERS c) ;;
    if ENTRY_IS_CONTINUATION e then
      r ← get_start_from_continuation p_ent p_bucket;
      let '(object_start, object_size, object_ent) := r in
      if ptr <? wrap64 (object_start + object_size) then mret (Hit object_start None object_ent)
      else if must_see_continuation then mret Fail
      else lookup_layers fuel ptr p_bucket (p_ent + ENTRIES_PER_LAYER c) (layer_num + 1) must_see_continuation
    else
      let object_start_addr := wrap64 (BUCKET_RANGE_BASE p_bucket c begin_ + bucket_offset e) in
      let object_end_addr := wrap64 (object_start_addr + thisbucket_size e) in
      if (object_start_addr <=? ptr) && (ptr <? object_end_addr)
      then mret (Hit object_start_addr (Some (thisbucket_size e)) p_ent)
      else lookup_layers fuel ptr p_bucket (p_ent + ENTRIES_PER_LAYER c) (layer_num + 1) must_see_continuation
  end.

Fixpoint lookup_buckets (fuel : nat) (ptr p_bucket earliest : Z) (must_see_continuation : bool)
    : M chunk_rec (option (Z * option Z * Z)) :=
  match fuel with
  | O => nofuel
  | S fuel =>
    check_bucket_sanity p_bucket ;;
    c ← gets id;
    w ← lookup_layers (layers c) ptr p_bucket p_bucket 0 must_see_continuation;
    match w with
    | Hit st sz ent => mret (Some (st, sz, ent))
    | Fail => mret None
    | NextBucket =>
      let p_bucket := p_bucket - 1 in
      if (0 <=? p_bucket) && (earliest <? BUCKET_RANGE_END p_bucket c begin_)
      then lookup_buckets fuel ptr p_bucket earliest true
      else mret None
    end
  end.

(** Object start, object size where the code sets it, and entry. *)
Definition lookup_small_alloc (ptr : Z) : M chunk_rec (option (Z * option Z * Z)) :=
  c ← gets id;
  let start_bucket_num := wrap32 (memrect_nbucket_of ptr begin_ (log_pitch c)) in
  lookup_buckets (S (Z.to_nat start_bucket_num)) ptr start_bucket_num (wrap64 (ptr - biggest_object c)) false.

(** ** Unindexing *)

Fixpoint remove_loop (fuel : nat) (replaced_ent : Z) : M chunk_rec unit :=
  match fuel with
  | O => nofuel
  | S fuel =>
    c ← gets id;
    let p_next_layer := replaced_ent + ENTRIES_PER_LAYER c in
    modify (set_entry replaced_ent (entry_at c p_next_layer)) ;;
    c ← gets id;
    if ENTRY_IS_NULL (entry_at c p_next_layer) then mret tt else remove_loop fuel p_next_layer
  end.
Definition remove_one_entry (p_ent : Z) : M chunk_rec unit :=
  c ← gets id; remove_loop (layers c) p_ent.

Fixpoint biggest_offset_loop (fuel : nat) (i_layer our_bucket_offset : Z) (acc : bool) : M chunk_rec bool :=
  match fuel with
  | O => nofuel
  | S fuel =>
    c ← gets id;
    let e := entry_at c i_layer in
    if acc && negb (ENTRY_IS_NULL e) then
      biggest_offset_loop fuel (i_layer + ENTRIES_PER_LAYER c) our_bucket_offset
        (bucket_offset e <=? our_bucket_offset)
    else mret acc
  end.

Fixpoint remove_continuation_loop (fuel : nat) (bucket i_layer : Z) : M chunk_rec unit :=
  match fuel with
  | O => nofuel
  | S fuel =>
    c ← gets id;
    let e := entry_at c i_layer in
    if ENTRY_IS_NULL e then mret tt else
    if ENTRY_IS_CONTINUATION e then remove_one_entry i_layer ;; check_bucket_sanity bucket
    else remove_continuation_loop fuel bucket (i_layer + ENTRIES_PER_LAYER c)
  end.

Definition unindex_small_alloc_internal_with_ent (p_ent : Z) : M chunk_rec unit :=
  c ← gets id;
  let p_bucket := BUCKET_PTR_FROM_ENTRY_PTR p_ent c in
  check_bucket_sanity p_bucket ;;
  let our_bucket_offset := bucket_offset (entry_at c p_ent) in
  we_are_biggest_offset ← biggest_offset_loop (layers c) p_bucket our_bucket_offset true;
  remove_one_entry p_ent ;;
  check_bucket_sanity p_bucket ;;
  when we_are_biggest_offset
    (c ← gets id; remove_continuation_loop (layers c) (p_bucket + 1) (p_bucket + 1)) ;;
  check_bucket_sanity p_bucket.

Definition unindex_small_alloc_internal (ptr : Z) : M chunk_rec unit :=
  r ← lookup_small_alloc ptr;
  match r with
  | None => abort
  | Some (_, _, p_ent) => unindex_small_alloc_internal_with_ent p_ent
  end.

(** ** Indexing *)

Definition index_small_alloc_internal (__current_allocsite ptr size_bytes : Z) : M chunk_rec Z :=
  c ← gets id;
  let end_addr := wrap64 (ptr + size_bytes) in
  let off := wrap16 (memrect_bucket_offset_of_addr ptr begin_ (log_pitch c)) in
  let bucket_num := memrect_nbucket_of ptr begin_ (log_pitch c) in
  check_bucket_sanity bucket_num ;;
  pl ← free_slot_in bucket_num;
  let p_ent := fst pl in
  assert (snd pl <? NLAYERS c) ;;
  let tsz := wrap16 (if memrect_nbucket_of end_addr begin_ (log_pitch c) =? bucket_num
                     then size_bytes else 2 ^ log_pitch c - off) in
  assert (negb (tsz =? 0)) ;;
  assert (tsz <=? 2 ^ log_pitch c) ;;
  modify (set_entry p_ent (mk_regular_initial __current_allocsite off tsz)) ;;
  check_bucket_sanity bucket_num ;;
  (if BUCKET_RANGE_END bucket_num c begin_ <? end_addr then
     assert (bucket_num + 1 <? SMALL_MINIMUM_USER_ADDRESS) ;;
     check_bucket_sanity (bucket_num + 1) ;;
     pl ← free_slot_in (bucket_num + 1);
     assert (snd pl <? NLAYERS c) ;;
     let size_after_first_bucket := wrap64 (size_bytes - tsz) in
     assert (negb (size_after_first_bucket =? 0)) ;;
     let size_in_continuation_bucket :=
       if 2 ^ log_pitch c <? size_after_first_bucket then 0 else size_after_first_bucket in
     assert (0 <? size_bytes) ;;
     assert (size_bytes <? SMALL_MINIMUM_USER_ADDRESS) ;;
     modify (set_entry (fst pl) (mk_continuation size_bytes size_in_continuation_bucket)) ;;
     c' ← gets id;
     assert (ENTRY_IS_CONTINUATION (entry_at c' (fst pl))) ;;
     check_bucket_sanity (bucket_num + 1)
   else mret tt) ;;
  check_bucket_sanity bucket_num ;;
  c' ← gets id;
  when (biggest_object c' <? size_bytes) (modify (set_biggest size_bytes)) ;;
  (if NDEBUG then mret tt else
     r1 ← lookup_small_alloc ptr;
     assert (bool_decide (snd <$> r1 = Some p_ent)) ;;
     r2 ← lookup_small_alloc (wrap64 (ptr + size_bytes - 1));
     assert (bool_decide (snd <$> r2 = Some p_ent))) ;;
  mret 2.

(** ** Removing everything in the way *)

Fixpoint overlap_layers (fuel : nat) (unindex_start unindex_end p_search_bucket i_layer : Z) : M chunk_rec unit :=
  match fuel with
  | O => nofuel
  | S fuel =>
    c ← gets id;
    let e := entry_at c i_layer in
    if ENTRY_IS_NULL e then mret tt else
    if ENTRY_IS_CONTINUATION e
    then overlap_layers fuel unindex_start unindex_end p_search_bucket (i_layer + ENTRIES_PER_LAYER c)
    else
      let this_object_start := wrap64 (BUCKET_RANGE_BASE p_search_bucket c begin_ + bucket_offset e) in
      let this_object_end_thisbucket := wrap64 (this_object_start + thisbucket_size e) in
      if (this_object_start <? unindex_end) && (unindex_start <? this_object_end_thisbucket)
      then unindex_small_alloc_internal_with_ent i_layer ;;
           overlap_layers fuel unindex_start unindex_end p_search_bucket i_layer
      else overlap_layers fuel unindex_start unindex_end p_search_bucket (i_layer + ENTRIES_PER_LAYER c)
  end.

Fixpoint overlap_buckets (fuel : nat) (unindex_start unindex_end p_search_bucket : Z) : M chunk_rec unit :=
  match fuel with
  | O => nofuel
  | S fuel =>
    c ← gets id;
    if BUCKET_RANGE_BASE p_search_bucket c begin_ <? unindex_end then
      overlap_layers (layers c) unindex_start unindex_end p_search_bucket p_search_bucket ;;
      overlap_buckets fuel unindex_start unindex_end (p_search_bucket + 1)
    else mret tt
  end.

Definition unindex_all_overlapping (unindex_start unindex_end : Z) : M chunk_rec unit :=
  c ← gets id;
  let bucket_num := memrect_nbucket_of unindex_start begin_ (log_pitch c) in
  r ← lookup_small_alloc unindex_start;
  match r with
  | Some (_, _, p_old_ent) => unindex_small_alloc_internal_with_ent p_old_ent
  | None => mret tt
  end ;;
  overlap_buckets (S (S (S (Z.to_nat (Z.shiftr (unindex_end - unindex_start) (log_pitch c))))))
    unindex_start unindex_end bucket_num.
End chunk.

(** ** The allocator's entry points

    The chunk records live in the private heap; [suballocator_private] of
    their arena points to them. *)
Record sstate := SState {
  s_table : state;
  chunks : gmap Z chunk_rec;
  s_current_allocsite : Z;
  s_unrecognised : addrlist;
}.

Definition set_s_table (t : state) (s : sstate) : sstate :=
  SState t (chunks s) (s_current_allocsite s) (s_unrecognised s).
Definition set_chunk (p : Z) (c : chunk_rec) (s : sstate) : sstate :=
  SState (s_table s) (<[p := c]> (chunks s)) (s_current_allocsite s) (s_unrecognised s).
Definition s_add_unrecognised (a : Z) (s : sstate) : sstate :=
  SState (s_table s) (chunks s) (s_current_allocsite s) (__liballocs_addrlist_add [] (s_unrecognised s) a).

Definition on_table {A} (m : M state A) : M sstate A := fun s =>
  match m (s_table s) with
  | Done (a, t) => Done (a, set_s_table t s)
  | Abort => Abort
  | NoFuel => NoFuel
  end.

(** Following a null or dangling chunk pointer is a crash. *)
Definition on_chunk {A} (p : Z) (m : M chunk_rec A) : M sstate A := fun s =>
  match chunks s !! p with
  | None => Abort
  | Some c =>
    match m c with
    | Done (a, c) => Done (a, set_chunk p c s)
    | Abort => Abort
    | NoFuel => NoFuel
    end
  end.

Inductive small_err := small_err_unindexed | small_err_unrecognised_site.

Section entry.
Context {V : Vas} {H : Hooks} {B : Build} {SE : SmallEnv}.
(** [__private_malloc]: the address of a new chunk record. *)
Context (small_private_malloc : gmap Z chunk_rec -> Z).

Definition __index_small_alloc (ptr size_bytes : Z) : M sstate Z :=
  assert (1 <=? size_bytes) ;;
  ab ← on_table (__liballocs_leaf_allocator_for ptr);
  let a := fst ab in
  if a =? 0 then abort else
  let b := default 0 (snd ab) in
  br ← on_table (rd id b);
  let container := if allocated_by br =? generic_small_allocator then parent br else b in
  if container =? 0 then abort else
  cr ← on_table (rd id container);
  container ←
    (if a =? generic_small_allocator then
       on_chunk (suballocator_private cr)
         (unindex_all_overlapping (b_begin cr) ptr (wrap64 (ptr + size_bytes))) ;;
       mret container
     else if negb (suballocator cr =? generic_small_allocator) then
       i ← on_table (allocator_get_info a ptr);
       match i with
       | None => abort
       | Some (base, sz) => on_table (allocator_ensure_big a base sz)
       end
     else mret container);
  cr ← on_table (rd id container);
  (if suballocator cr =? 0 then
     p ← gets (fun s => small_private_malloc (chunks s));
     on_table (wr container (set_suballocator generic_small_allocator)) ;;
     match make_suballocated_chunk (wrap64 (b_end cr - b_begin cr)) size_bytes tt with
     | Done (c, _) => modify (set_chunk p c)
     | Abort => abort
     | NoFuel => nofuel
     end ;;
     on_table (wr container (set_suballocator_private p (suballocator_private_free cr)))
   else if negb (suballocator cr =? generic_small_allocator) then abort else mret tt) ;;
  cr ← on_table (rd id container);
  site ← gets s_current_allocsite;
  on_chunk (suballocator_private cr) (index_small_alloc_internal (b_begin cr) site ptr size_bytes).

Fixpoint small_container_loop (fuel : nat) (b : Z) : M state Z :=
  match fuel with
  | O => nofuel
  | S fuel =>
    if b =? 0 then mret 0 else
    r ← rd id b;
    if suballocator r =? generic_small_allocator then mret b
    else small_container_loop fuel (parent r)
  end.

Definition __unindex_small_alloc (ptr : Z) : M sstate unit :=
  b ← on_table (__lookup_deepest_bigalloc ptr);
  b ← on_table (small_container_loop FUEL b);
  if b =? 0 then abort else
  r ← on_table (rd id b);
  if suballocator_private r =? 0 then abort else
  on_chunk (suballocator_private r) (unindex_small_alloc_internal (b_begin r) ptr).

(** With all out-parameters requested: the result, and the base, size and
    site that are set. *)
Definition small_get_info (obj b : Z)
    : M sstate ((small_err + Z) * option (Z * option Z * Z)) :=
  if b =? 0 then abort else
  br ← on_table (rd id b);
  container ← (if allocated_by br =? generic_small_allocator then mret (parent br)
               else on_table (__lookup_deepest_bigalloc obj));
  if container =? 0 then abort else
  cr ← on_table (rd id container);
  r ← on_chunk (suballocator_private cr) (lookup_small_alloc (b_begin cr) obj);
  match r with
  | None => mret (inl small_err_unindexed, None)
  | Some (base, size, p_ent) =>
    e ← on_chunk (suballocator_private cr) (gets (fun c => entry_at c p_ent));
    assert (negb (discr e =? 0)) ;;
    assert (SMALL_MINIMUM_USER_ADDRESS <=? discr e) ;;
    if discr e <? 2 ^ (ADDR_BITSIZE - 1) then
      let alloc_site := regular_alloc_site e in
      let alloc_uniqtype := default 0 (small_find_allocsite_entry_at alloc_site) in
      seen ← gets (fun s => negb (__liballocs_addrlist_contains (s_unrecognised s) alloc_site =? 0));
      when ((alloc_uniqtype =? 0) && negb (alloc_site =? 0) && negb seen)
        (modify (s_add_unrecognised alloc_site)) ;;
      mret ((if alloc_uniqtype =? 0 then inl small_err_unrecognised_site else inr alloc_uniqtype),
            Some (base, size, alloc_site))
    else assert false ;; mret (inl small_err_unrecognised_site, Some (base, size, 0))
  end.
End entry.
