(* ===== verification/GenericSmallFacts.v ===== *)
(** Correctness of the rectangular index: a bucket is a list of entries;
    indexing appends, unindexing deletes one and closes the gap, and lookup
    finds the object an address falls in. *)
From S2P Require Import Prelude Vas BigAlloc MallocMeta AddrList GenericSmall.

(** ** Entries *)

Lemma set_field_nonneg lo w v x : 0 <= x -> 0 <= lo -> 0 <= w -> 0 <= set_field lo w v x.
Proof.
  intros. unfold set_field. apply Z.lor_nonneg. split.
  - apply Z.ldiff_nonneg. by left.
  - apply Z.shiftl_nonneg, Z.land_nonneg. right. rewrite Z.ones_equiv.
    pose proof (Z.pow_pos_nonneg 2 w). lia.
Qed.

Section regular.
Context (site off sz : Z).
Hypothesis site_range : 0 <= site < 2 ^ 47.
Hypothesis off_range : 0 <= off < 256.
Hypothesis sz_range : 0 <= sz < 256.

Lemma regular_offset : bucket_offset (mk_regular_initial site off sz) = off.
Proof.
  unfold bucket_offset, mk_regular_initial. rewrite field_set_other by (done || lia).
  by apply field_set_same.
Qed.

Lemma regular_size : thisbucket_size (mk_regular_initial site off sz) = sz.
Proof. by apply field_set_same. Qed.

Lemma regular_discr : discr (mk_regular_initial site off sz) = site.
Proof.
  unfold discr, mk_regular_initial. rewrite !(field_set_other 0 48) by (done || lia).
  apply Z.bits_inj'. intros n Hn. rewrite field_testbit, set_field_testbit by (done || lia).
  change (0 + 47) with 47. rewrite Z.bits_0, Z.sub_0_r, Z.add_0_r. rewrite (proj2 (Z.leb_le 0 n)) by done. simpl.
  destruct (Z.ltb_spec n 47).
  - by rewrite (proj2 (Z.ltb_lt n 48)) by lia.
  - rewrite andb_false_r. destruct (decide (site = 0)) as [->|]; [by rewrite Z.bits_0|].
    symmetry. apply Z.bits_above_log2; [lia|]. apply Z.log2_lt_pow2; [lia|].
    eapply Z.lt_le_trans; [apply site_range|]. by apply Z.pow_le_mono_r.
Qed.
End regular.

(** ** Buckets as lists *)

Definition slot (c : chunk_rec) (b : Z) (k : nat) : Z := b + Z.of_nat k * ENTRIES_PER_LAYER c.

(** The entries of bucket [b], layer by layer. *)
Record bucket (c : chunk_rec) (b : Z) (l : list Z) : Prop := {
  bk_entry k e : l !! k = Some e -> entry_at c (slot c b k) = e /\ ENTRY_IS_NULL e = false;
  bk_end k : (length l <= k)%nat -> ENTRY_IS_NULL (entry_at c (slot c b k)) = true;
  bk_layers : Z.of_nat (length l) <= NLAYERS c;
  bk_epl : 0 < ENTRIES_PER_LAYER c;
}.

Lemma slot_next c b k : slot c b k + ENTRIES_PER_LAYER c = slot c b (S k).
Proof. unfold slot. lia. Qed.

Lemma slot_0 c b : slot c b 0 = b.
Proof. unfold slot. lia. Qed.

Lemma slot_inj c b k k' : 0 < ENTRIES_PER_LAYER c -> slot c b k = slot c b k' -> k = k'.
Proof. unfold slot. nia. Qed.

Lemma entry_set i e c j : entry_at (set_entry i e c) j = if decide (i = j) then e else entry_at c j.
Proof. unfold entry_at, set_entry; simpl. rewrite lookup_insert. by case_decide. Qed.

Lemma bucket_layers c b l : bucket c b l -> (length l < layers c)%nat.
Proof. intros [_ _ Hl _]. unfold layers. lia. Qed.

Section bucket.
Context {SE : SmallEnv}.

Lemma free_slot_loop_ok c b l k fuel n :
  bucket c b l -> (k <= length l)%nat -> (length l - k < fuel)%nat -> n = Z.of_nat k ->
  free_slot_loop fuel (slot c b k) n c = Done ((slot c b (length l), Z.of_nat (length l)), c).
Proof.
  intros Bk. revert k n. induction fuel as [|fuel IH]; intros k n Hk Hf ->; [lia|].
  cbn [free_slot_loop]. rewrite (bind_Done _ _ c c c) by done.
  destruct (decide (k = length l)) as [->|N].
  - by rewrite (bk_end _ _ _ Bk).
  - destruct (lookup_lt_is_Some_2 l k ltac:(lia)) as [e He].
    destruct (bk_entry _ _ _ Bk k e He) as [-> ->]. rewrite slot_next. apply IH; lia.
Qed.

(** The first free slot of a bucket is the one after its last entry. *)
Lemma free_slot_ok c b l :
  bucket c b l -> free_slot_in b c = Done ((slot c b (length l), Z.of_nat (length l)), c).
Proof.
  intros Bk. unfold free_slot_in. rewrite (bind_Done _ _ c c c) by done.
  rewrite <- (slot_0 c b) at 1. apply free_slot_loop_ok; [done|lia| |done].
  pose proof (bucket_layers _ _ _ Bk). lia.
Qed.

(** Writing the free slot appends to the bucket. *)
Lemma bucket_append c b l e :
  bucket c b l -> ENTRY_IS_NULL e = false -> Z.of_nat (length l) < NLAYERS c ->
  bucket (set_entry (slot c b (length l)) e c) b (l ++ [e]).
Proof.
  intros [He Hn Hl Hp] Ne Hlt. split; try done.
  - intros k x Hx. change (slot (set_entry (slot c b (length l)) e c) b k) with (slot c b k).
    rewrite entry_set. apply lookup_app_Some in Hx as [Hx|[Hge Hx]].
    + rewrite decide_False; [by apply He|]. intros E%slot_inj; [|done].
      apply lookup_lt_Some in Hx. lia.
    + apply list_lookup_singleton_Some in Hx as [Hk ->].
      replace k with (length l) by lia. by rewrite decide_True.
  - intros k. rewrite length_app. simpl. intros Hk.
    change (slot (set_entry (slot c b (length l)) e c) b k) with (slot c b k).
    rewrite entry_set, decide_False; [apply Hn; lia|]. intros E%slot_inj; [lia|done].
  - rewrite length_app. simpl. change (NLAYERS (set_entry (slot c b (length l)) e c)) with (NLAYERS c). lia.
Qed.

(** ** Removing an entry *)

(** What [remove_loop] has done when it returns. *)
Definition shifted (c c' : chunk_rec) (b : Z) (k n : nat) : Prop :=
  power_of_two_size c' = power_of_two_size c /\ log_pitch c' = log_pitch c /\
  biggest_object c' = biggest_object c /\
  (forall j, (k <= j < n)%nat -> entry_at c' (slot c b j) = entry_at c (slot c b (S j))) /\
  (forall i, (forall j, (k <= j < n)%nat -> i <> slot c b j) -> entry_at c' i = entry_at c i).

Lemma remove_loop_ok c b l k fuel :
  bucket c b l -> (k < length l)%nat -> (length l - k <= fuel)%nat ->
  exists c', remove_loop fuel (slot c b k) c = Done (tt, c') /\ shifted c c' b k (length l).
Proof.
  revert c l k. induction fuel as [|fuel IH]; intros c l k Bk Hk Hf; [lia|].
  cbn [remove_loop]. rewrite (bind_Done _ _ c c c) by done. rewrite slot_next.
  set (c1 := set_entry (slot c b k) (entry_at c (slot c b (S k))) c).
  rewrite (bind_Done _ _ c tt c1), (bind_Done _ _ c1 c1 c1) by done.
  pose proof (bk_epl _ _ _ Bk) as Hp.
  assert (E1 : forall j, entry_at c1 (slot c b j) = if decide (j = k) then entry_at c (slot c b (S k)) else entry_at c (slot c b j)).
  { intros j. unfold c1. rewrite entry_set. destruct (decide (j = k)) as [->|N]; [by rewrite decide_True|].
    rewrite decide_False; [done|]. intros E%slot_inj; [congruence|done]. }
  rewrite E1, decide_False by lia.
  destruct (decide (S k = length l)) as [E|N].
  - rewrite (bk_end _ _ _ Bk) by lia. exists c1. split; [done|]. split_and!; try done.
    + intros j Hj. assert (j = k) as -> by lia. by rewrite E1, decide_True.
    + intros i Hi. unfold c1. rewrite entry_set, decide_False; [done|]. intros <-. apply (Hi k); [lia|done].
  - destruct (lookup_lt_is_Some_2 l (S k) ltac:(lia)) as [e He].
    destruct (bk_entry _ _ _ Bk _ _ He) as [Ee Nn]. rewrite Ee, Nn.
    assert (Bk1 : bucket c1 b (<[k := e]> l)).
    { destruct Bk as [Hent Hend Hlay _]. split; try done; rewrite ?length_insert.
      - intros j x. change (slot c1 b j) with (slot c b j). rewrite E1.
        rewrite list_lookup_insert_Some. intros [(<- & -> & _)|[Nj Hx]].
        + by rewrite decide_True, Ee by done.
        + rewrite decide_False by done. by apply Hent.
      - intros j Hj. change (slot c1 b j) with (slot c b j). rewrite E1, decide_False by lia. by apply Hend.
      - done. }
    destruct (IH c1 _ (S k) Bk1) as (c' & Er & Hpo & Hlp & Hbg & Hs & Ho); rewrite ?length_insert in *; try lia.
    exists c'. split; [done|]. split_and!; [done..| |].
    + intros j Hj. destruct (decide (j = k)) as [->|Njk].
      * rewrite Ho; [by rewrite E1, decide_True|]. intros j' Hj' Eq.
        change (slot c1 b j') with (slot c b j') in Eq. apply slot_inj in Eq; [lia|done].
      * change (slot c b j) with (slot c1 b j). rewrite Hs by lia. change (slot c1 b (S j)) with (slot c b (S j)). by rewrite E1, decide_False by lia.
    + intros i Hi. rewrite Ho by (intros j Hj; apply Hi; lia). unfold c1.
      rewrite entry_set, decide_False; [done|]. intros <-. apply (Hi k); [lia|done].
Qed.

(** [remove_one_entry] deletes one entry of the bucket and closes the gap. *)
Lemma remove_one_entry_ok c b l k :
  bucket c b l -> (k < length l)%nat ->
  exists c', remove_one_entry (slot c b k) c = Done (tt, c') /\
    bucket c' b (delete k l) /\ shifted c c' b k (length l).
Proof.
  intros Bk Hk. unfold remove_one_entry. rewrite (bind_Done _ _ c c c) by done.
  pose proof (bucket_layers _ _ _ Bk).
  destruct (remove_loop_ok c b l k (layers c) Bk Hk ltac:(lia)) as (c' & E & Sh).
  exists c'. split; [done|]. split; [|done].
  destruct Sh as (Hpo & Hlp & _ & Hs & Ho), Bk as [Hent Hend Hlay Hp].
  assert (Ep : ENTRIES_PER_LAYER c' = ENTRIES_PER_LAYER c) by (unfold ENTRIES_PER_LAYER; by rewrite Hpo, Hlp).
  assert (Es : forall j, slot c' b j = slot c b j) by (intros j; unfold slot; by rewrite Ep).
  assert (Hlen : length (delete k l) = (length l - 1)%nat) by (apply length_delete; by apply lookup_lt_is_Some_2).
  split.
  - intros j x Hx. rewrite Es. destruct (decide (j < k)%nat).
    + rewrite list_lookup_delete_lt in Hx by done. rewrite Ho; [by apply Hent|].
      intros j' Hj' E'%slot_inj; [lia|done].
    + rewrite list_lookup_delete_ge in Hx by lia. pose proof (lookup_lt_Some _ _ _ Hx).
      rewrite Hs by lia. by apply Hent.
  - intros j Hj. rewrite Es. destruct (decide (j < length l)%nat).
    + rewrite Hs by lia. apply Hend. lia.
    + rewrite Ho; [apply Hend; lia|]. intros j' Hj' E'%slot_inj; [lia|done].
  - unfold NLAYERS. rewrite Hlp. rewrite Hlen. unfold NLAYERS in Hlay. lia.
  - by rewrite Ep.
Qed.
End bucket.

(** ** Lookup *)

Section lookup.
Context {SE : SmallEnv} (begin_ : Z).

Definition object_start (c : chunk_rec) (b e : Z) : Z :=
  wrap64 (BUCKET_RANGE_BASE b c begin_ + bucket_offset e).

(** The part of an object in its first bucket spans the address. *)
Definition entry_spans (c : chunk_rec) (b e ptr : Z) : bool :=
  (object_start c b e <=? ptr) && (ptr <? wrap64 (object_start c b e + thisbucket_size e)).

Lemma lookup_layers_hit c b l ptr k e must :
  bucket c b l -> l !! k = Some e -> ENTRY_IS_CONTINUATION e = false -> entry_spans c b e ptr = true ->
  (forall j x, (j < k)%nat -> l !! j = Some x -> ENTRY_IS_CONTINUATION x = false /\ entry_spans c b x ptr = false) ->
  forall fuel i n, (i <= k)%nat -> (k - i < fuel)%nat ->
  lookup_layers (B := release) begin_ fuel ptr b (slot c b i) n must c =
    Done (Hit (object_start c b e) (Some (thisbucket_size e)) (slot c b k), c).
Proof.
  intros Bk He Hc Hs Hbefore. induction fuel as [|fuel IH]; intros i n Hi Hf; [lia|].
  pose proof (lookup_lt_Some _ _ _ He) as Hlt.
  cbn [lookup_layers]. rewrite (bind_Done _ _ c c c) by done.
  destruct (lookup_lt_is_Some_2 l i ltac:(lia)) as [x Hx].
  destruct (bk_entry _ _ _ Bk i x Hx) as [-> ->]. rewrite (bind_Done _ _ c tt c) by done.
  fold (object_start c b x). destruct (decide (i = k)) as [->|N].
  - simplify_eq. rewrite Hc. unfold entry_spans in Hs. by rewrite Hs.
  - destruct (Hbefore i x ltac:(lia) Hx) as [-> Hsp]. unfold entry_spans in Hsp. rewrite Hsp, slot_next.
    apply IH; lia.
Qed.

(** Address [ptr] lies in bucket [b], at offset [r]. *)
Record in_bucket (c : chunk_rec) (b r ptr : Z) : Prop := {
  ib_ptr : ptr = begin_ + b * 2 ^ log_pitch c + r;
  ib_r : 0 <= r < 2 ^ log_pitch c;
  ib_b : 0 <= b < 2 ^ 32;
  ib_pitch : 0 <= log_pitch c <= 8;
  ib_begin : 0 <= begin_;
  ib_end : begin_ + (b + 1) * 2 ^ log_pitch c < 2 ^ 63;
}.

Lemma in_bucket_num c b r ptr : in_bucket c b r ptr -> memrect_nbucket_of ptr begin_ (log_pitch c) = b.
Proof.
  intros [-> Hr Hb Hp H0 He]. unfold memrect_nbucket_of. rewrite wrap_small by nia.
  rewrite Z.shiftr_div_pow2 by lia. replace (begin_ + b * 2 ^ log_pitch c + r - begin_) with (b * 2 ^ log_pitch c + r) by lia.
  rewrite Z.div_add_l, Z.div_small by lia. lia.
Qed.

Lemma in_bucket_base c b r ptr : in_bucket c b r ptr -> BUCKET_RANGE_BASE b c begin_ = begin_ + b * 2 ^ log_pitch c.
Proof.
  intros [-> Hr Hb Hp H0 He]. unfold BUCKET_RANGE_BASE, memrect_bucket_range_base.
  rewrite Z.shiftl_mul_pow2 by lia. apply wrap_small. nia.
Qed.

Lemma lookup_small_alloc_hit c b l r ptr k e :
  in_bucket c b r ptr -> bucket c b l -> l !! k = Some e ->
  ENTRY_IS_CONTINUATION e = false -> entry_spans c b e ptr = true ->
  (forall j x, (j < k)%nat -> l !! j = Some x -> ENTRY_IS_CONTINUATION x = false /\ entry_spans c b x ptr = false) ->
  lookup_small_alloc (B := release) begin_ ptr c =
    Done (Some (object_start c b e, Some (thisbucket_size e), slot c b k), c).
Proof.
  intros Ib Bk He Hc Hs Hbefore. unfold lookup_small_alloc. rewrite (bind_Done _ _ c c c) by done.
  rewrite (in_bucket_num _ _ _ _ Ib), (wrap_small 32) by apply Ib.
  cbn [lookup_buckets]. rewrite (bind_Done _ _ c tt c), (bind_Done _ _ c c c) by done.
  rewrite <- (slot_0 c b) at 2. pose proof (lookup_lt_Some _ _ _ He). pose proof (bucket_layers _ _ _ Bk).
  erewrite bind_Done; [|apply (lookup_layers_hit c b l ptr k e); try done; lia]. done.
Qed.

(** ** Indexing, then looking up *)

Definition fresh_entry (site r size : Z) : Z := mk_regular_initial site r size.

Lemma fresh_spans c b r size site ptr r' m :
  in_bucket c b r ptr -> in_bucket c b r' m -> 0 <= site < 2 ^ 47 -> 0 < size < 256 -> r + size <= 2 ^ log_pitch c ->
  object_start c b (fresh_entry site r size) = ptr /\
  (entry_spans c b (fresh_entry site r size) m = true <-> ptr <= m < ptr + size).
Proof.
  intros Ib Ib' Hs Hsz Hfit. assert (2 ^ log_pitch c <= 256).
  { change 256 with (2 ^ 8). apply Z.pow_le_mono_r; [lia|apply Ib]. }
  pose proof Ib as [Ep Hr Hb Hp H0 He]. pose proof (ib_ptr _ _ _ _ Ib').
  assert (Eo : object_start c b (fresh_entry site r size) = ptr).
  { unfold object_start, fresh_entry. rewrite (in_bucket_base _ _ _ _ Ib), regular_offset by lia.
    rewrite wrap_small by nia. lia. }
  split; [done|]. unfold entry_spans. rewrite Eo. unfold fresh_entry. rewrite regular_size by lia.
  rewrite wrap_small by nia. rewrite andb_true_iff, Z.leb_le, Z.ltb_lt. done.
Qed.

(** Indexing an object that stays within its bucket appends one entry. *)
Lemma index_small_ok c b l r site ptr size :
  in_bucket c b r ptr -> bucket c b l -> Z.of_nat (length l) < NLAYERS c ->
  0 < size < 256 -> r + size <= 2 ^ log_pitch c ->
  exists c', index_small_alloc_internal (B := release) begin_ site ptr size c = Done (2, c') /\
    c' = set_biggest (Z.max (biggest_object c) size) (set_entry (slot c b (length l)) (fresh_entry site r size) c).
Proof.
  intros Ib Bk Hl Hsz Hfit. pose proof Ib as [Ep Hr Hb Hp H0 He].
  assert (2 ^ log_pitch c <= 256) by (change 256 with (2 ^ 8); apply Z.pow_le_mono_r; lia).
  unfold index_small_alloc_internal. rewrite (bind_Done _ _ c c c) by done.
  rewrite (in_bucket_num _ _ _ _ Ib). rewrite (bind_Done _ _ c tt c) by done.
  rewrite (bind_Done _ _ _ _ _ (free_slot_ok c b l Bk)). cbn [fst snd].
  rewrite (bind_Done _ _ c tt c) by done.
  assert (Eoff : wrap16 (memrect_bucket_offset_of_addr ptr begin_ (log_pitch c)) = r).
  { unfold memrect_bucket_offset_of_addr. rewrite (wrap_small 64) by nia.
    replace (ptr - begin_) with (r + b * 2 ^ log_pitch c) by lia.
    rewrite Z.mod_add, Z.mod_small by lia. apply wrap_small. lia. }
  rewrite Eoff, (wrap_small 64 (ptr + size)) by nia.
  assert (Et : wrap16 (if memrect_nbucket_of (ptr + size) begin_ (log_pitch c) =? b then size
    else 2 ^ log_pitch c - r) = size).
  { destruct (decide (r + size = 2 ^ log_pitch c)).
    - replace (2 ^ log_pitch c - r) with size by lia. case_match; apply wrap_small; lia.
    - rewrite (in_bucket_num c b (r + size) (ptr + size)), Z.eqb_refl by (split; lia). apply wrap_small. lia. }
  rewrite Et. do 2 rewrite (bind_Done _ _ c tt c) by done.
  set (c1 := set_entry (slot c b (length l)) (mk_regular_initial site r size) c).
  rewrite (bind_Done _ _ c tt c1), (bind_Done _ _ c1 tt c1) by done.
  assert (Ee : BUCKET_RANGE_END b c begin_ = begin_ + (b + 1) * 2 ^ log_pitch c).
  { unfold BUCKET_RANGE_END. rewrite (in_bucket_base _ _ _ _ Ib), Z.shiftl_mul_pow2, Z.mul_1_l by lia.
    rewrite wrap_small by nia. lia. }
  rewrite Ee, (proj2 (Z.ltb_ge _ _)) by lia.
  do 2 rewrite (bind_Done _ _ c1 tt c1) by done. rewrite (bind_Done _ _ c1 c1 c1) by done.
  eexists. split; [|reflexivity]. fold (fresh_entry site r size) in c1. fold c1.
  change (biggest_object c1) with (biggest_object c).
  destruct (Z.ltb_spec (biggest_object c) size) as [Hlt|Hge].
  - rewrite Z.max_r by lia. done.
  - rewrite Z.max_l by lia. reflexivity.
Qed.

Lemma fresh_not_null site r size :
  0 <= r < 256 -> 0 < size < 256 -> 0 < site < 2 ^ 47 -> ENTRY_IS_NULL (fresh_entry site r size) = false.
Proof. intros. unfold ENTRY_IS_NULL, fresh_entry. rewrite regular_discr by lia. lia. Qed.

Lemma fresh_not_continuation site r size :
  0 <= r < 256 -> 0 < size < 256 -> SMALL_MINIMUM_USER_ADDRESS <= site < 2 ^ 47 -> 0 < site ->
  ENTRY_IS_CONTINUATION (fresh_entry site r size) = false.
Proof.
  intros. unfold ENTRY_IS_CONTINUATION, fresh_entry. rewrite regular_discr by lia.
  rewrite andb_false_iff, Z.ltb_ge. right. lia.
Qed.

(** The bucket after indexing. *)
Lemma index_small_bucket c b l r site ptr size :
  in_bucket c b r ptr -> bucket c b l -> Z.of_nat (length l) < NLAYERS c ->
  0 < size < 256 -> r + size <= 2 ^ log_pitch c -> 0 < site < 2 ^ 47 ->
  bucket (set_biggest (Z.max (biggest_object c) size) (set_entry (slot c b (length l)) (fresh_entry site r size) c))
    b (l ++ [fresh_entry site r size]).
Proof.
  intros Ib Bk Hl Hsz Hfit Hs.
  assert (2 ^ log_pitch c <= 256) by (change 256 with (2 ^ 8); apply Z.pow_le_mono_r; [lia|apply Ib]).
  pose proof (ib_r _ _ _ _ Ib).
  destruct (bucket_append c b l (fresh_entry site r size) Bk) as [He Hn Hlay Hp]; [apply fresh_not_null; lia|done|].
  by split.
Qed.

Lemma index_lookup_ok c b l r site ptr size r' m :
  in_bucket c b r ptr -> in_bucket c b r' m -> bucket c b l -> Z.of_nat (length l) < NLAYERS c ->
  0 < size < 256 -> r + size <= 2 ^ log_pitch c -> 0 < site -> SMALL_MINIMUM_USER_ADDRESS <= site < 2 ^ 47 ->
  ptr <= m < ptr + size ->
  (forall x, x ∈ l -> ENTRY_IS_CONTINUATION x = false /\ entry_spans c b x m = false) ->
  exists c', index_small_alloc_internal (B := release) begin_ site ptr size c = Done (2, c') /\
    lookup_small_alloc (B := release) begin_ m c' =
      Done (Some (ptr, Some size, slot c b (length l)), c').
Proof.
  intros Ib Ib' Bk Hl Hsz Hfit H0s Hsite Hm Hclear.
  assert (2 ^ log_pitch c <= 256) by (change 256 with (2 ^ 8); apply Z.pow_le_mono_r; [lia|apply Ib]).
  pose proof (ib_r _ _ _ _ Ib).
  destruct (index_small_ok c b l r site ptr size Ib Bk Hl Hsz Hfit) as (c' & E & Ec'). exists c'. split; [done|].
  pose proof (index_small_bucket c b l r site ptr size Ib Bk Hl Hsz Hfit ltac:(lia)) as Bk'. rewrite <- Ec' in Bk'.
  destruct (fresh_spans c b r size site ptr r' m Ib Ib' ltac:(lia) Hsz Hfit) as [Eo Hsp].
  assert (Hsame : forall e, object_start c' b e = object_start c b e /\ entry_spans c' b e m = entry_spans c b e m).
  { intros e. by rewrite Ec'. }
  rewrite (lookup_small_alloc_hit c' b (l ++ [fresh_entry site r size]) r' m (length l) (fresh_entry site r size)).
  - rewrite (proj1 (Hsame _)), Eo. unfold fresh_entry. rewrite regular_size by lia. by rewrite Ec'.
  - rewrite Ec'. destruct Ib'. by split.
  - done.
  - by rewrite lookup_app_r, Nat.sub_diag by lia.
  - apply fresh_not_continuation; lia.
  - rewrite (proj2 (Hsame _)). by apply Hsp.
  - intros j x Hj Hx. rewrite lookup_app_l in Hx by done. rewrite (proj2 (Hsame _)).
    apply Hclear. by eapply list_elem_of_lookup_2.
Qed.

(** ** Indexing, then unindexing *)

Lemma biggest_loop_total c b l off fuel k acc :
  bucket c b l -> (k <= length l)%nat -> (length l - k < fuel)%nat ->
  exists r, biggest_offset_loop fuel (slot c b k) off acc c = Done (r, c).
Proof.
  intros Bk. revert k acc. induction fuel as [|fuel IH]; intros k acc Hk Hf; [lia|].
  cbn [biggest_offset_loop]. rewrite (bind_Done _ _ c c c) by done.
  destruct (decide (k = length l)) as [->|N].
  - rewrite (bk_end _ _ _ Bk) by lia. rewrite andb_false_r. by exists acc.
  - destruct acc; simpl; [|by exists false]. case_match; [|by exists true].
    rewrite slot_next. apply IH; lia.
Qed.

(** No continuation in the bucket: the scan for one changes nothing. *)
Lemma remove_continuation_none c b l fuel k :
  bucket c b l -> (forall x, x ∈ l -> ENTRY_IS_CONTINUATION x = false) ->
  (k <= length l)%nat -> (length l - k < fuel)%nat ->
  remove_continuation_loop (B := release) begin_ fuel b (slot c b k) c = Done (tt, c).
Proof.
  intros Bk Hc. revert k. induction fuel as [|fuel IH]; intros k Hk Hf; [lia|].
  cbn [remove_continuation_loop]. rewrite (bind_Done _ _ c c c) by done.
  destruct (decide (k = length l)) as [->|N]; [by rewrite (bk_end _ _ _ Bk) by lia|].
  destruct (lookup_lt_is_Some_2 l k ltac:(lia)) as [x Hx].
  destruct (bk_entry _ _ _ Bk k x Hx) as [-> ->]. rewrite Hc by (by eapply list_elem_of_lookup_2).
  rewrite slot_next. apply IH; lia.
Qed.

Lemma slot_bucket c b k :
  0 <= b < ENTRIES_PER_LAYER c -> BUCKET_PTR_FROM_ENTRY_PTR (slot c b k) c = b.
Proof. intros Hb. unfold BUCKET_PTR_FROM_ENTRY_PTR, slot. rewrite Z.mod_add by lia. by apply Z.mod_small. Qed.

Lemma slots_differ c b b' j k :
  0 <= b < ENTRIES_PER_LAYER c -> 0 <= b' < ENTRIES_PER_LAYER c -> b <> b' -> slot c b j <> slot c b' k.
Proof.
  intros Hb Hb' N E. apply N. by rewrite <- (slot_bucket c b j), E, (slot_bucket c b' k).
Qed.

(** Unindexing the entry at layer [k] removes it from its bucket; the next
    bucket keeps its entries when none of them is a continuation. *)
Lemma unindex_ok c b l l' k :
  0 <= b -> b + 1 < ENTRIES_PER_LAYER c -> bucket c b l -> bucket c (b + 1) l' -> (k < length l)%nat ->
  (forall x, x ∈ l' -> ENTRY_IS_CONTINUATION x = false) ->
  exists c', unindex_small_alloc_internal_with_ent (B := release) begin_ (slot c b k) c = Done (tt, c') /\
    bucket c' b (delete k l) /\ bucket c' (b + 1) l'.
Proof.
  intros Hb0 Hb Bk Bk' Hk Hc. unfold unindex_small_alloc_internal_with_ent.
  rewrite (bind_Done _ _ c c c) by done. rewrite slot_bucket by lia.
  rewrite (bind_Done _ _ c tt c) by done.
  destruct (biggest_loop_total c b l (bucket_offset (entry_at c (slot c b k))) (layers c) 0 true Bk ltac:(lia)) as [big Eb].
  { pose proof (bucket_layers _ _ _ Bk). lia. }
  rewrite slot_0 in Eb. rewrite (bind_Done _ _ _ _ _ Eb).
  destruct (remove_one_entry_ok c b l k Bk Hk) as (c' & Er & Bk1 & (Hpo & Hlp & _ & _ & Ho)).
  rewrite (bind_Done _ _ _ _ _ Er), (bind_Done _ _ c' tt c') by done.
  assert (Ep : ENTRIES_PER_LAYER c' = ENTRIES_PER_LAYER c) by (unfold ENTRIES_PER_LAYER; by rewrite Hpo, Hlp).
  assert (Bk1' : bucket c' (b + 1) l').
  { assert (Es : forall j, slot c' (b + 1) j = slot c (b + 1) j) by (intros j; unfold slot; by rewrite Ep).
    assert (Ee : forall j, entry_at c' (slot c (b + 1) j) = entry_at c (slot c (b + 1) j)).
    { intros j. apply Ho. intros i Hi. apply slots_differ; lia. }
    destruct Bk' as [He Hn Hl Hp]. split.
    - intros j x Hx. rewrite Es, Ee. by apply He.
    - intros j Hj. rewrite Es, Ee. by apply Hn.
    - unfold NLAYERS in *. by rewrite Hlp.
    - by rewrite Ep. }
  exists c'. split; [|done]. rewrite (bind_Done _ _ c' tt c'); [done|].
  destruct big; [|done]. simpl. rewrite (bind_Done _ _ c' c' c') by done.
  pose proof (bucket_layers _ _ _ Bk1').
  pose proof (remove_continuation_none c' (b + 1) l' (layers c') 0 Bk1' Hc ltac:(lia) ltac:(lia)) as En.
  by rewrite slot_0 in En.
Qed.
End lookup.
