(* ===== verification/PackedSeq.v ===== *)
(** Packed sequences: src/src/allocators/packed-seq.c.

    A packed sequence is a region of memory that a family's [enumerate]
    function decodes, element after element.  The elements found so far are
    cached: a bitmap of their starts, and for families that have one a
    metavector of small bit-field records.  The state is the
    [packed_sequence] of allocmeta.h; the region is [b_begin, b_end).

    The family's functions are fields of [packed_sequence_family], as in the
    code; [__string8_nulterm_packed_sequence] is the repository's family.
    The uniqtype operations behind [FIXUP_T] and the success of [realloc] are
    parameters ([SeqEnv]). *)
From S2P Require Import Prelude Vas Bitmap.

(** ** Families *)

Record packed_sequence_family := PackedSequenceFamily {
  (** Position, end and argument; [None] is [(size_t) -1], otherwise the
      size, the type and the size delta. *)
  enumerate : Z -> Z -> Z -> option (Z * Z * Z);
  log2_align : Z;
  one_plus_log2_metavector_entry_size_bytes : Z;
  types_table : list Z;
}.

Definition ntypes (fam : packed_sequence_family) : Z := Z.of_nat (length (types_table fam)).

Section string8.
(** The contents of memory and the address of the array-of-char uniqtype. *)
Context (byte_at : Z -> Z) (ARR0_signed_char : Z).

(** [while (cpos != end && *cpos++);] with the address the loop leaves in [cpos]. *)
Fixpoint scan_nulterm (n : nat) (cpos end_ : Z) : Z :=
  match n with
  | O => cpos
  | S n =>
    if cpos =? end_ then cpos
    else if byte_at cpos =? 0 then wrap64 (cpos + 1)
    else scan_nulterm n (wrap64 (cpos + 1)) end_
  end.

Definition enumerate_string8_nulterm (pos end_ arg : Z) : option (Z * Z * Z) :=
  if pos =? end_ then None
  else
    let cpos := scan_nulterm (Z.to_nat (wrap64 (end_ - pos))) pos end_ in
    Some (wrap64 (cpos - pos), ARR0_signed_char, 0).

Definition __string8_nulterm_packed_sequence : packed_sequence_family :=
  PackedSequenceFamily enumerate_string8_nulterm 0 0 [ARR0_signed_char].
End string8.

(** ** Metavector records

    [packed_sequence_metavector_rec16] and [_rec32]: three bit fields, each
    keeping the low bits of what is stored. *)
Record metavector_rec := MetavectorRec { type_idx : Z; size_nalign : Z; size_delta_nbytes : Z }.

Definition rec16 (t n d : Z) : metavector_rec := MetavectorRec (wrap 4 t) (wrap 9 n) (wrap 3 d).
Definition rec32 (t n d : Z) : metavector_rec := MetavectorRec (wrap 10 t) (wrap 18 n) (wrap 4 d).

(** The record the [WITH_ENT] switch selects; [assert(0)] otherwise. *)
Inductive ent_kind := no_ent | ent16 | ent32 | bad_ent.
#[export] Instance ent_kind_eq_dec : EqDecision ent_kind.
Proof. solve_decision. Defined.
Definition WITH_ENT (fam : packed_sequence_family) : ent_kind :=
  if one_plus_log2_metavector_entry_size_bytes fam =? 0 then no_ent
  else if one_plus_log2_metavector_entry_size_bytes fam =? 2 then ent16
  else if one_plus_log2_metavector_entry_size_bytes fam =? 3 then ent32
  else bad_ent.

Definition METAVECTOR_ENTRY_SIZE_BYTES (fam : packed_sequence_family) : Z :=
  if negb (one_plus_log2_metavector_entry_size_bytes fam =? 0)
  then wrap32 (Z.shiftl 1 (one_plus_log2_metavector_entry_size_bytes fam - 1)) else 0.
Definition INITIAL_METAVECTOR_SIZE : Z := 8.

(** ** The sequence *)

Record packed_sequence := PackedSequence {
  enumerate_fn_arg : Z;
  metavector : gmap Z metavector_rec;
  metavector_nused : Z;
  metavector_size : Z;
  starts_bitmap : list Z;
  starts_bitmap_nwords : Z;
  offset_cached_up_to : Z;
}.

Definition set_metavector (v : gmap Z metavector_rec) (n : Z) (s : packed_sequence) : packed_sequence :=
  PackedSequence (enumerate_fn_arg s) v n (metavector_size s)
    (starts_bitmap s) (starts_bitmap_nwords s) (offset_cached_up_to s).
Definition set_metavector_size (n : Z) (s : packed_sequence) : packed_sequence :=
  PackedSequence (enumerate_fn_arg s) (metavector s) (metavector_nused s) n
    (starts_bitmap s) (starts_bitmap_nwords s) (offset_cached_up_to s).
Definition set_starts (w : list Z) (n : Z) (s : packed_sequence) : packed_sequence :=
  PackedSequence (enumerate_fn_arg s) (metavector s) (metavector_nused s) (metavector_size s)
    w n (offset_cached_up_to s).
Definition set_cached (o : Z) (s : packed_sequence) : packed_sequence :=
  PackedSequence (enumerate_fn_arg s) (metavector s) (metavector_nused s) (metavector_size s)
    (starts_bitmap s) (starts_bitmap_nwords s) o.

Class SeqEnv := {
  realloc_ok : Z -> bool;
  UNIQTYPE_IS_UNBOUNDED_ARRAY : Z -> bool;
  UNIQTYPE_ARRAY_ELEMENT_TYPE : Z -> Z;
  pos_maxoff : Z -> Z;
  get_or_create_array_type : Z -> Z -> Z;
}.

Definition FIXUP_T `{SeqEnv} (t sz : Z) : Z :=
  if negb (t =? 0) && UNIQTYPE_IS_UNBOUNDED_ARRAY t
  then get_or_create_array_type (UNIQTYPE_ARRAY_ELEMENT_TYPE t)
         (sz / pos_maxoff (UNIQTYPE_ARRAY_ELEMENT_TYPE t))
  else t.

Section ops.
Context {V : Vas} {B : Build} {BM : Bitmap} {E : SeqEnv}.
Context (fam : packed_sequence_family) (begin end_ : Z).

Definition align : Z := Z.shiftl 1 (log2_align fam).

Fixpoint find_idx_from (u i : Z) (table : list Z) : Z :=
  match table with
  | [] => 2 ^ 32 - 1
  | t :: table => if t =? u then i else find_idx_from u (i + 1) table
  end.
Definition find_idx (u : Z) : Z := find_idx_from u 0 (types_table fam).

Definition grow_starts (bitmap_nwords : Z) : M packed_sequence unit :=
  s ← gets id;
  if starts_bitmap_nwords s <? bitmap_nwords then
    if realloc_ok (wrap32 bitmap_nwords) then
      modify (set_starts
        (starts_bitmap s ++ replicate (Z.to_nat (bitmap_nwords - starts_bitmap_nwords s)) 0)
        (wrap32 bitmap_nwords))
    else abort
  else mret tt.

Definition grow_metavector : M packed_sequence unit :=
  s ← gets id;
  if negb (one_plus_log2_metavector_entry_size_bytes fam =? 0)
     && (metavector_nused s =? metavector_size s) then
    modify (set_metavector_size
      (if negb (metavector_size s =? 0) then wrap32 (2 * metavector_size s) else INITIAL_METAVECTOR_SIZE)) ;;
    s ← gets id;
    if realloc_ok (metavector_size s * METAVECTOR_ENTRY_SIZE_BYTES fam) then mret tt else abort
  else mret tt.

Definition write_ent (u cur cur_end cur_next_start : Z) : M packed_sequence unit :=
  if negb (one_plus_log2_metavector_entry_size_bytes fam =? 0) then
    s ← gets id;
    let n := metavector_nused s in
    let t := find_idx u in
    let na := Z.shiftr (wrap64 (cur_next_start - cur)) (log2_align fam) in
    let d := wrap64 (cur_next_start - cur_end) in
    match WITH_ENT fam with
    | ent16 => modify (set_metavector (<[n := rec16 t na d]> (metavector s)) (wrap32 (n + 1)))
    | ent32 => modify (set_metavector (<[n := rec32 t na d]> (metavector s)) (wrap32 (n + 1)))
    | no_ent => modify (set_metavector (metavector s) (wrap32 (n + 1)))
    | bad_ent => modify (set_metavector (metavector s) (wrap32 (n + 1))) ;; assert false
    end
  else mret tt.

(** Setting a bit past the end of the bitmap is undefined behaviour. *)
Definition set_start (idx : Z) : M packed_sequence unit :=
  s ← gets id;
  if idx <? BITMAP_WORD_NBITS * starts_bitmap_nwords s
  then modify (set_starts (bitmap_set_l (starts_bitmap s) idx) (starts_bitmap_nwords s))
  else abort.

Fixpoint cache_loop (fuel : nat) (bitmap_base_addr target_offset cur : Z) : M packed_sequence unit :=
  match fuel with
  | O => nofuel
  | S fuel =>
    arg ← gets enumerate_fn_arg;
    match enumerate fam cur end_ arg with
    | None => mret tt
    | Some (cur_sz, u, _) =>
      let cur_end := wrap64 (cur + cur_sz) in
      let cur_next_start := ROUND_UP cur_end align in
      grow_metavector ;;
      write_ent u cur cur_end cur_next_start ;;
      set_start (Z.shiftr (wrap64 (cur - bitmap_base_addr)) (log2_align fam)) ;;
      modify (set_cached (wrap32 (cur_next_start - begin))) ;;
      if cur_end =? wrap64 (begin + target_offset) then mret tt
      else if wrap64 (begin + target_offset) <? cur_end then mret tt
      else cache_loop fuel bitmap_base_addr target_offset cur_next_start
    end
  end.

Definition ensure_cached_up_to (offset : Z) : M packed_sequence unit :=
  s ← gets id;
  (if offset_cached_up_to s <? offset then
     let bitmap_base_addr := ROUND_DOWN begin align in
     let cur := wrap64 (begin + offset_cached_up_to s) in
     let target_offset := wrap32 (Z.min (wrap64 (end_ - begin))
       (Z.max (wrap32 (2 * offset_cached_up_to s)) offset)) in
     let target_addr := wrap64 (begin + target_offset) in
     let bitmap_naddrs := wrap64 (target_addr + 1 - bitmap_base_addr) in
     let bitmap_nbits := DIVIDE_ROUNDING_UP bitmap_naddrs align in
     let bitmap_nwords := DIVIDE_ROUNDING_UP bitmap_nbits BITMAP_WORD_NBITS in
     grow_starts bitmap_nwords ;;
     cache_loop (2 + Z.to_nat (target_addr - cur)) bitmap_base_addr target_offset cur
   else mret tt) ;;
  s ← gets id;
  assert (offset <=? offset_cached_up_to s).

(** What [get_info] stores through its out parameters. *)
Record seq_info := SeqInfo { out_type : Z; out_base : Z; out_size : Z }.

Definition read_ent (ent : metavector_rec) (bitmap_base found_idx : Z) : Z * Z * Z :=
  (default 0 (types_table fam !! Z.to_nat (type_idx ent)),
   wrap64 (Z.shiftl (size_nalign ent) (log2_align fam) - size_delta_nbytes ent),
   wrap64 (bitmap_base + Z.shiftl found_idx (log2_align fam))).

(** [None] is [__liballocs_err_unrecognised_static_object]. *)
Definition get_info (obj : Z) : M packed_sequence (option seq_info) :=
  let target_offset := wrap32 (obj - begin) in
  ensure_cached_up_to (wrap32 (target_offset + 1)) ;;
  s ← gets id;
  let bitmap_base := ROUND_DOWN begin align in
  let query_idx := Z.shiftr (wrap64 (wrap64 (begin + target_offset) - bitmap_base)) (log2_align fam) in
  let found_idx := bitmap_rfind_first_set_leq_l (starts_bitmap s) query_idx in
  if negb (found_idx =? 2 ^ 64 - 1) then
    let count_before := bitmap_count_set_l (starts_bitmap s) 0 found_idx in
    r ← match WITH_ENT fam with
        | no_ent => mret (0, 2 ^ 64 - 1, 0)
        | ent16 | ent32 =>
          mret (read_ent (default (MetavectorRec 0 0 0) (metavector s !! count_before)) bitmap_base found_idx)
        | bad_ent => assert false ;; mret (0, 2 ^ 64 - 1, 0)
        end;
    let '(found_t, sz, base) := r in
    mret (Some (SeqInfo (FIXUP_T found_t sz) base sz))
  else mret None.

(** A call of the walk's callback: object, type and 1-based coordinate. *)
Record walk_call := WalkCall { wc_obj : Z; wc_type : Z; wc_coord : Z }.

Context (cb : walk_call -> Z).

Definition actual_type_size (s : packed_sequence) (n padded_sz : Z) : M packed_sequence (Z * Z) :=
  if 0 <? METAVECTOR_ENTRY_SIZE_BYTES fam then
    match WITH_ENT fam with
    | no_ent => mret (0, 2 ^ 64 - 1)
    | ent16 | ent32 =>
      let ent := default (MetavectorRec 0 0 0) (metavector s !! n) in
      mret (default 0 (types_table fam !! Z.to_nat (type_idx ent)),
            wrap64 (padded_sz - size_delta_nbytes ent))
    | bad_ent => assert false ;; mret (0, 2 ^ 64 - 1)
    end
  else mret (default 0 (types_table fam !! 0%nat), padded_sz).

Fixpoint walk_loop (fuel : nat) (base n coord maybe_range_end cur_bit_idx : Z) (trace : list walk_call)
    : M packed_sequence (Z * list walk_call) :=
  match fuel with
  | O => nofuel
  | S fuel =>
    if cur_bit_idx =? 2 ^ 64 - 1 then mret (0, trace) else
    let coord := coord + 1 in
    let obj := wrap64 (base + Z.shiftl cur_bit_idx (log2_align fam)) in
    if negb (maybe_range_end =? 0) && (maybe_range_end <=? obj) then mret (0, trace) else
    s ← gets id;
    let next_bit_idx := bitmap_find_first_set1_geq_l (starts_bitmap s) (wrap64 (cur_bit_idx + 1)) in
    assert ((next_bit_idx =? 2 ^ 64 - 1) || (cur_bit_idx <? next_bit_idx)) ;;
    let padded_sz := if next_bit_idx =? 2 ^ 64 - 1 then wrap64 (end_ - obj)
      else wrap64 (Z.shiftl (next_bit_idx - cur_bit_idx) (log2_align fam)) in
    r ← actual_type_size s n padded_sz;
    let call := WalkCall obj (FIXUP_T (fst r) (snd r)) coord in
    if negb (cb call =? 0) then mret (cb call, trace ++ [call])
    else walk_loop fuel base n coord maybe_range_end next_bit_idx (trace ++ [call])
  end.

Definition walk_allocations (maybe_range_begin maybe_range_end : Z) : M packed_sequence (Z * list walk_call) :=
  ensure_cached_up_to
    (wrap32 ((if negb (maybe_range_end =? 0) then maybe_range_end else end_) - begin)) ;;
  s ← gets id;
  let bitmap_base_addr := ROUND_DOWN begin align in
  let bitmap_start_idx := wrap32 (Z.shiftr
    (wrap64 ((if negb (maybe_range_begin =? 0) then maybe_range_begin else begin) - bitmap_base_addr))
    (log2_align fam)) in
  let bitmap_pre_count := wrap32 (bitmap_count_set_l (starts_bitmap s) 0 bitmap_start_idx) in
  walk_loop (2 + Z.to_nat (BITMAP_WORD_NBITS * starts_bitmap_nwords s)) bitmap_base_addr
    bitmap_pre_count bitmap_pre_count maybe_range_end bitmap_start_idx [].
End ops.

(** ** A sequence being freed

    [__packed_seq_free]: the blocks it passes to [free], in order. *)
Definition __packed_seq_free (starts_bitmap_p metavector_p arg : Z) : list Z :=
  (if negb (starts_bitmap_p =? 0) then [starts_bitmap_p] else []) ++
  (if negb (metavector_p =? 0) then [metavector_p] else []) ++ [arg].
