(* ===== verification/PackedSeqFacts.v ===== *)
(** Correctness of packed sequences: the cache holds exactly the elements
    enumerated so far, queries find the element around an address, and a walk
    reports every element once. *)
From S2P Require Import Prelude Vas Bitmap PackedSeq.

(** What the cache asks of a family on the region [b, e): [enumerate]
    partitions it into non-empty, aligned elements and stops at its end. *)
Class SeqLaws (fam : packed_sequence_family) (b e arg : Z) : Prop := {
  sl_align : 0 <= log2_align fam < 8;
  sl_region : 0 <= b <= e /\ e - b < 2 ^ 31 /\ e < 2 ^ 47;
  sl_begin : b mod 2 ^ log2_align fam = 0;
  sl_kind : WITH_ENT fam <> bad_ent;
  sl_enum p : b <= p < e -> p mod 2 ^ log2_align fam = 0 ->
    exists sz u d, enumerate fam p e arg = Some (sz, u, d) /\
      0 < sz <= e - p /\ sz mod 2 ^ log2_align fam = 0;
}.

Section facts.
Context {V : Vas} {VL : VasLaws V} {B : Build} {BM : Bitmap} {BL : BitmapLaws BM} {E : SeqEnv}.
Context (realloc_succeeds : forall n, realloc_ok n = true).
Context (fam : packed_sequence_family) (b e arg : Z) {SL : SeqLaws fam b e arg}.

(** ** Elements *)

Definition size_at (p : Z) : Z := match enumerate fam p e arg with Some (sz, _, _) => sz | None => 0 end.
Definition type_at (p : Z) : Z := match enumerate fam p e arg with Some (_, u, _) => u | None => 0 end.

(** The starts of consecutive elements, from [p] up to [q]. *)
Fixpoint chain (p q : Z) (l : list Z) : Prop :=
  match l with
  | [] => p = q
  | x :: l => x = p /\ b <= p < e /\ p mod 2 ^ log2_align fam = 0 /\ chain (p + size_at p) q l
  end.

Lemma align_pow : align fam = 2 ^ log2_align fam.
Proof. unfold align. destruct SL. rewrite Z.shiftl_mul_pow2; lia. Qed.

Lemma align_pos : 0 < 2 ^ log2_align fam <= 128.
Proof.
  destruct SL as [Ha _ _ _ _]. split; [apply Z.pow_pos_nonneg; lia|].
  change 128 with (2 ^ 7). apply Z.pow_le_mono_r; lia.
Qed.

Lemma element p : b <= p < e -> p mod 2 ^ log2_align fam = 0 ->
  (exists d, enumerate fam p e arg = Some (size_at p, type_at p, d)) /\
  0 < size_at p <= e - p /\ (p + size_at p) mod 2 ^ log2_align fam = 0.
Proof.
  intros Hp Ha. pose proof align_pos. destruct (sl_enum p Hp Ha) as (sz & u & d & He & Hs & Hm).
  unfold size_at, type_at. rewrite He. split_and!; [eauto|lia..|].
  rewrite Z.add_mod, Ha, Hm by lia. apply Z.mod_0_l. lia.
Qed.

Lemma chain_app p q l l' :
  chain p q (l ++ l') <-> exists m, chain p m l /\ chain m q l'.
Proof.
  revert p. induction l as [|x l IH]; intros p; simpl.
  - split; [intros; eauto|]. by intros (m & -> & ?).
  - rewrite IH. naive_solver.
Qed.

Lemma chain_snoc p q l : chain p q l -> b <= q < e -> q mod 2 ^ log2_align fam = 0 ->
  chain p (q + size_at q) (l ++ [q]).
Proof. intros. apply chain_app. exists q. by simpl. Qed.

Lemma chain_le p q l : chain p q l -> p <= q /\ Z.of_nat (length l) <= q - p.
Proof.
  revert p. induction l as [|x l IH]; intros p; simpl; [lia|].
  intros (-> & Hp & Ha & Hc). destruct (element p Hp Ha) as (_ & ? & _).
  apply IH in Hc. lia.
Qed.

Lemma chain_end p q l : chain p q l -> l <> [] -> q <= e /\ q mod 2 ^ log2_align fam = 0.
Proof.
  revert p. induction l as [|x l IH]; intros p; [done|]. intros (-> & Hp & Ha & Hc) _.
  destruct (element p Hp Ha) as (_ & ? & ?).
  destruct l as [|y l]; [simpl in Hc; subst; split; [lia|done]|by apply (IH _ Hc)].
Qed.

Lemma chain_elem p q l x : chain p q l -> x ∈ l ->
  p <= x < q /\ b <= x < e /\ x mod 2 ^ log2_align fam = 0.
Proof.
  revert p. induction l as [|y l IH]; intros p; [intros _ Hx; by apply not_elem_of_nil in Hx|].
  intros (-> & Hp & Ha & Hc) Hx. destruct (element p Hp Ha) as (_ & ? & _).
  apply chain_le in Hc as Hle. apply elem_of_cons in Hx as [->|Hx]; [split_and!; [lia..|done]|].
  destruct (IH _ Hc Hx) as (? & ? & ?). split_and!; [lia..|done].
Qed.

(** Splitting a chain at one of its elements. *)
Lemma chain_split p q l1 x l2 : chain p q (l1 ++ x :: l2) ->
  chain p x l1 /\ b <= x < e /\ x mod 2 ^ log2_align fam = 0 /\ chain (x + size_at x) q l2.
Proof. intros (m & H1 & -> & ? & ? & ?)%chain_app. done. Qed.

Lemma chain_before p q l1 x l2 y : chain p q (l1 ++ x :: l2) ->
  y ∈ l1 <-> y ∈ l1 ++ x :: l2 /\ y < x.
Proof.
  intros Hc. destruct (chain_split _ _ _ _ _ Hc) as (H1 & Hx & Ha & H2).
  destruct (element x Hx Ha) as (_ & ? & _).
  rewrite elem_of_app, elem_of_cons. split.
  - intros Hy. pose proof (chain_elem _ _ _ _ H1 Hy). split; [by left|lia].
  - intros [[Hy|[->|Hy]] Hlt]; [done|lia|]. pose proof (chain_elem _ _ _ _ H2 Hy). lia.
Qed.

Lemma chain_NoDup p q l : chain p q l -> NoDup l.
Proof.
  revert p. induction l as [|x l IH]; intros p; [constructor|].
  intros (-> & Hp & Ha & Hc). destruct (element p Hp Ha) as (_ & ? & _). constructor; [|eauto].
  intros Hx. pose proof (chain_elem _ _ _ _ Hc Hx). lia.
Qed.

(** Every address below the end of a chain lies in one of its elements. *)
Lemma chain_cover p q l o : chain p q l -> p <= o < q ->
  exists l1 x l2, l = l1 ++ x :: l2 /\ x <= o < x + size_at x.
Proof.
  revert p. induction l as [|x l IH]; intros p; simpl; [lia|].
  intros (-> & Hp & Ha & Hc) Ho. destruct (decide (o < p + size_at p)).
  - exists [], p, l. split; [done|lia].
  - destruct (IH _ Hc) as (l1 & x & l2 & -> & ?); [lia|]. by exists (p :: l1), x, l2.
Qed.

(** ** The cache *)

Definition seq_slot (p : Z) : Z := Z.shiftr (p - b) (log2_align fam).

Definition ent_for (p : Z) : metavector_rec :=
  let na := Z.shiftr (size_at p) (log2_align fam) in
  match WITH_ENT fam with
  | ent16 => rec16 (find_idx fam (type_at p)) na 0
  | _ => rec32 (find_idx fam (type_at p)) na 0
  end.

Record cached (l : list Z) (s : packed_sequence) : Prop := {
  ca_arg : enumerate_fn_arg s = arg;
  ca_off : 0 <= offset_cached_up_to s /\ b + offset_cached_up_to s <= e;
  ca_next : (b + offset_cached_up_to s) mod 2 ^ log2_align fam = 0;
  ca_chain : chain b (b + offset_cached_up_to s) l;
  ca_words : starts_bitmap_nwords s = Z.of_nat (length (starts_bitmap s)) /\ starts_bitmap_nwords s < 2 ^ 32;
  ca_bits i : 0 <= i -> bitmap_get_l (starts_bitmap s) i = true <-> exists p, p ∈ l /\ i = seq_slot p;
  ca_meta : WITH_ENT fam <> no_ent ->
    metavector_nused s = Z.of_nat (length l) /\ metavector_nused s <= metavector_size s < 2 ^ 32 /\
    forall j p, l !! j = Some p -> metavector s !! Z.of_nat j = Some (ent_for p);
}.

Lemma seq_slot_mul p : b <= p -> p mod 2 ^ log2_align fam = 0 -> p = b + seq_slot p * 2 ^ log2_align fam.
Proof.
  intros Hp Ha. pose proof align_pos. destruct SL as [Hk _ Hb _ _]. unfold seq_slot.
  rewrite Z.shiftr_div_pow2 by lia.
  assert ((p - b) mod 2 ^ log2_align fam = 0) as H0.
  { rewrite Zminus_mod, Ha, Hb. apply Z.mod_0_l. lia. }
  pose proof (Z.div_mod (p - b) (2 ^ log2_align fam) ltac:(lia)). nia.
Qed.

Lemma seq_slot_nonneg p : b <= p -> 0 <= seq_slot p.
Proof. intros. apply Z.shiftr_nonneg. lia. Qed.

Lemma seq_slot_inj p q : b <= p -> b <= q ->
  p mod 2 ^ log2_align fam = 0 -> q mod 2 ^ log2_align fam = 0 -> seq_slot p = seq_slot q -> p = q.
Proof. intros. rewrite (seq_slot_mul p), (seq_slot_mul q) by done. congruence. Qed.

Lemma seq_slot_lt p q : b <= p -> b <= q ->
  p mod 2 ^ log2_align fam = 0 -> q mod 2 ^ log2_align fam = 0 -> seq_slot p < seq_slot q <-> p < q.
Proof.
  intros ? ? Hp Hq. pose proof align_pos. pose proof (seq_slot_mul p ltac:(done) Hp).
  pose proof (seq_slot_mul q ltac:(done) Hq). nia.
Qed.

(** ** Caching one element *)

Lemma kind_zero : (one_plus_log2_metavector_entry_size_bytes fam =? 0) = bool_decide (WITH_ENT fam = no_ent).
Proof. unfold WITH_ENT. repeat case_match; by case_bool_decide. Qed.

(** The metavector part of an iteration: room is made and the record written. *)
Lemma cache_meta_ok l s cur : cached l s -> cur = b + offset_cached_up_to s -> cur < e ->
  exists s1, (grow_metavector fam ;;
      write_ent fam (type_at cur) cur (cur + size_at cur) (cur + size_at cur)) s = Done (tt, s1) /\
    enumerate_fn_arg s1 = enumerate_fn_arg s /\
    starts_bitmap s1 = starts_bitmap s /\ starts_bitmap_nwords s1 = starts_bitmap_nwords s /\
    offset_cached_up_to s1 = offset_cached_up_to s /\
    (WITH_ENT fam <> no_ent ->
      metavector_nused s1 = Z.of_nat (length (l ++ [cur])) /\
      metavector_nused s1 <= metavector_size s1 < 2 ^ 32 /\
      forall j p, (l ++ [cur]) !! j = Some p -> metavector s1 !! Z.of_nat j = Some (ent_for p)).
Proof.
  intros C -> Hlt. pose proof (ca_chain _ _ C) as Hch. apply chain_le in Hch as [_ Hlen].
  destruct (ca_off _ _ C) as [? ?]. destruct (sl_region (fam := fam) (b := b) (e := e) (arg := arg)) as (? & ? & ?).
  destruct (element (b + offset_cached_up_to s)) as (_ & Hsz & _); [lia|by apply (ca_next _ _ C)|].
  set (cur := b + offset_cached_up_to s) in *.
  destruct (decide (WITH_ENT fam = no_ent)) as [Hk|Hk].
  { exists s. unfold grow_metavector, write_ent. rewrite kind_zero, bool_decide_eq_true_2 by done.
    split_and!; [done..|]. by intros []. }
  destruct (ca_meta _ _ C Hk) as (Hn & Hs & Hm).
  assert (exists s0, grow_metavector fam s = Done (tt, s0) /\
    enumerate_fn_arg s0 = enumerate_fn_arg s /\ metavector s0 = metavector s /\
    metavector_nused s0 = metavector_nused s /\
    starts_bitmap s0 = starts_bitmap s /\ starts_bitmap_nwords s0 = starts_bitmap_nwords s /\
    offset_cached_up_to s0 = offset_cached_up_to s /\
    metavector_nused s < metavector_size s0 < 2 ^ 32) as (s0 & Hg & Ea & Em & En & Eb & Ew & Eo & Hs0).
  { unfold grow_metavector. rewrite kind_zero, bool_decide_eq_false_2 by done. simpl.
    cbv [mbind M_bind gets id]. destruct (Z.eqb_spec (metavector_nused s) (metavector_size s)) as [Heq|Hne].
    - simpl. rewrite realloc_succeeds. eexists. split; [done|]. simpl. split_and!; try done.
      + case_match; [rewrite wrap_small by lia|unfold INITIAL_METAVECTOR_SIZE];
          destruct (Z.eqb_spec (metavector_size s) 0); simpl in *; try done; lia.
      + case_match; [apply wrap_range|unfold INITIAL_METAVECTOR_SIZE]; lia.
    - exists s. split_and!; try done; lia. }
  rewrite (bind_Done _ _ _ _ _ Hg).
  unfold write_ent. rewrite kind_zero, bool_decide_eq_false_2 by done. cbn [negb].
  cbv [mbind M_bind gets id].
  replace (cur + size_at cur - cur) with (size_at cur) by lia.
  replace (cur + size_at cur - (cur + size_at cur)) with 0 by lia. change (wrap64 0) with 0.
  rewrite (wrap_small 64 (size_at cur)) by lia.
  exists (set_metavector (<[metavector_nused s0 := ent_for cur]> (metavector s0)) (wrap32 (metavector_nused s0 + 1)) s0).
  split.
  { unfold ent_for. pose proof (sl_kind (fam := fam) (b := b) (e := e) (arg := arg)).
    by destruct (WITH_ENT fam) eqn:Ek. }
  cbn [set_metavector enumerate_fn_arg starts_bitmap starts_bitmap_nwords offset_cached_up_to
       metavector metavector_nused metavector_size].
  split_and!; [done..|]. intros _. rewrite wrap_small by lia. rewrite length_app. simpl.
  split_and!; [lia..|]. intros j p Hj. apply lookup_snoc_Some in Hj as [[? Hj]|[-> <-]].
  - rewrite lookup_insert_ne by lia. rewrite Em. by apply Hm.
  - rewrite En, Hn. apply lookup_insert_eq.
Qed.

Lemma ROUND_UP_aligned x : 0 <= x -> x mod 2 ^ log2_align fam = 0 -> ROUND_UP x (align fam) = x.
Proof.
  intros Hx Ha. pose proof align_pos. rewrite align_pow, ROUND_UP_spec by lia.
  apply Z.mod_divide in Ha as [q ->]; [|lia].
  rewrite <- Z.add_sub_assoc, Z.div_add_l, Z.div_small by lia. lia.
Qed.

Lemma ROUND_DOWN_begin : ROUND_DOWN b (align fam) = b.
Proof.
  pose proof align_pos. destruct SL as [_ (? & ? & ?) Hb _ _]. rewrite align_pow, ROUND_DOWN_spec by lia.
  apply Z.mod_divide in Hb as [q ->]; [|lia]. rewrite Z.div_mul by lia. lia.
Qed.

(** The bitmap reaches the bits of all element starts below [b + t]. *)
Definition reaches (t : Z) (s : packed_sequence) : Prop :=
  t < 2 ^ log2_align fam * (BITMAP_WORD_NBITS * starts_bitmap_nwords s).

Definition cache_one (cur : Z) : M packed_sequence unit :=
  grow_metavector fam ;;
  write_ent fam (type_at cur) cur (cur + size_at cur) (cur + size_at cur) ;;
  set_start (Z.shiftr (wrap64 (cur - b)) (log2_align fam)) ;;
  modify (set_cached (wrap32 (cur + size_at cur - b))).

Lemma cache_one_ok l s t cur : cached l s -> cur = b + offset_cached_up_to s -> cur < e ->
  cur < b + t -> reaches t s ->
  exists s', cache_one cur s = Done (tt, s') /\ cached (l ++ [cur]) s' /\
    offset_cached_up_to s' = offset_cached_up_to s + size_at cur /\ reaches t s'.
Proof.
  intros C Hcur Hlt Ht Hr.
  destruct (cache_meta_ok l s cur C Hcur Hlt) as (s1 & H1 & Ea & Eb & Ew & Eo & Hm).
  destruct (ca_off _ _ C) as [? ?]. destruct SL as [Hk (? & ? & ?) Hb _ _].
  destruct (element cur) as (_ & Hsz & Hnx); [lia|subst cur; by apply (ca_next _ _ C)|].
  pose proof (ca_next _ _ C) as Hal. rewrite <- Hcur in Hal. pose proof align_pos.
  destruct (ca_words _ _ C) as [Hw Hw32].
  assert (Hslot : Z.shiftr (wrap64 (cur - b)) (log2_align fam) = seq_slot cur).
  { unfold seq_slot. by rewrite wrap_small by lia. }
  pose proof (seq_slot_mul cur ltac:(lia) Hal). pose proof (seq_slot_nonneg cur ltac:(lia)).
  assert (Hin : 0 <= seq_slot cur < BITMAP_WORD_NBITS * starts_bitmap_nwords s) by (unfold reaches in Hr; nia).
  exists (set_cached (wrap32 (cur + size_at cur - b))
    (set_starts (bitmap_set_l (starts_bitmap s1) (seq_slot cur)) (starts_bitmap_nwords s1) s1)).
  split_and!.
  - revert H1. unfold cache_one. cbv [mbind M_bind].
    destruct (grow_metavector fam s) as [[[] s0]| |]; [|done..]. intros ->.
    rewrite Hslot. unfold set_start. cbv [mbind M_bind gets id].
    rewrite Ew. by destruct (Z.ltb_spec (seq_slot cur) (BITMAP_WORD_NBITS * starts_bitmap_nwords s)); [|lia].
  - split; cbn [set_cached set_starts enumerate_fn_arg starts_bitmap starts_bitmap_nwords offset_cached_up_to
      metavector metavector_nused metavector_size]; rewrite ?wrap_small by lia.
    + rewrite Ea. apply (ca_arg _ _ C).
    + lia.
    + by replace (b + (cur + size_at cur - b)) with (cur + size_at cur) by lia.
    + replace (b + (cur + size_at cur - b)) with (cur + size_at cur) by lia.
      apply chain_snoc; [rewrite Hcur; by apply (ca_chain _ _ C)|lia|done].
    + rewrite bitmap_set_length, Eb, Ew. done.
    + intros i Hi. rewrite bitmap_get_set by (rewrite ?Eb, <- ?Hw; lia).
      rewrite orb_true_iff, bool_decide_eq_true, Eb, (ca_bits _ _ C) by done.
      setoid_rewrite elem_of_app. setoid_rewrite list_elem_of_singleton. naive_solver.
    + exact Hm.
  - cbn [set_cached offset_cached_up_to]. rewrite wrap_small by lia. lia.
  - unfold reaches. cbn [set_cached set_starts starts_bitmap_nwords]. by rewrite Ew.
Qed.

(** ** The caching loop *)

Lemma cache_loop_ok fuel l s t cur :
  cached l s -> cur = b + offset_cached_up_to s -> cur < b + t -> t <= e - b -> reaches t s ->
  t - offset_cached_up_to s <= Z.of_nat fuel ->
  exists s' l', cache_loop fam b e fuel b t cur s = Done (tt, s') /\
    cached (l ++ l') s' /\ t <= offset_cached_up_to s'.
Proof.
  revert l s cur. induction fuel as [|fuel IH]; intros l s cur C Hcur Ht Hte Hr Hf; [lia|].
  destruct (ca_off _ _ C) as [? ?]. pose proof (sl_region (fam := fam) (arg := arg)) as (? & ? & ?).
  pose proof (ca_next _ _ C) as Hal. rewrite <- Hcur in Hal.
  destruct (element cur) as ([d He] & Hsz & Hnx); [lia|done|].
  destruct (cache_one_ok l s t cur C Hcur ltac:(lia) Ht Hr) as (s1 & Hone & C1 & Ho & Hr1).
  cbn [cache_loop]. cbv [mbind M_bind gets]. rewrite (ca_arg _ _ C), He.
  rewrite !(wrap_small 64 (cur + size_at cur)) by lia. rewrite ROUND_UP_aligned by (lia || done).
  rewrite (wrap_small 64 (b + t)) by lia.
  revert Hone. unfold cache_one. cbv [mbind M_bind].
  destruct (grow_metavector fam s) as [[[] s0]| |]; [|done..].
  destruct (write_ent _ _ _ _ _ s0) as [[[] s2]| |]; [|done..].
  destruct (set_start _ s2) as [[[] s3]| |]; [|done..].
  destruct (modify _ s3) as [[[] s4]| |]; [|done..]. intros [= <-].
  destruct (Z.eqb_spec (cur + size_at cur) (b + t)).
  { exists s4, [cur]. split_and!; [done..|lia]. }
  destruct (Z.ltb_spec (b + t) (cur + size_at cur)).
  { exists s4, [cur]. split_and!; [done..|lia]. }
  destruct (IH (l ++ [cur]) s4 (cur + size_at cur)) as (s' & l' & Hl & C' & Hc'); [done|lia..|done|lia|].
  exists s', (cur :: l'). split_and!; [exact Hl| |done]. by rewrite <- app_assoc in C'.
Qed.

(** ** Caching up to an offset *)

Lemma cached_offset_32 l s : cached l s -> 0 <= offset_cached_up_to s < 2 ^ 31.
Proof. intros C. destruct (ca_off _ _ C), SL as [_ (? & ? & ?) _ _ _]. lia. Qed.

Lemma grow_starts_ok l s t : cached l s -> 0 <= t < 2 ^ 31 ->
  let nb := DIVIDE_ROUNDING_UP (t + 1) (align fam) in
  exists s', grow_starts (DIVIDE_ROUNDING_UP nb BITMAP_WORD_NBITS) s = Done (tt, s') /\
    cached l s' /\ offset_cached_up_to s' = offset_cached_up_to s /\ reaches t s'.
Proof.
  intros C Ht nb. pose proof align_pos. pose proof bitmap_nbits_pos as Hn.
  destruct (ca_words _ _ C) as [Hw Hw32].
  assert (Hnb : nb = (t + 1 + 2 ^ log2_align fam - 1) / 2 ^ log2_align fam).
  { unfold nb. rewrite align_pow. by apply DIVIDE_ROUNDING_UP_spec; lia. }
  assert (Hnb1 : 0 <= nb <= t + 1 /\ t < 2 ^ log2_align fam * nb).
  { rewrite Hnb. clear -H Ht. set (A := 2 ^ log2_align fam) in *. clearbody A.
    pose proof (Z.div_mod (t + 1 + A - 1) A ltac:(lia)). pose proof (Z.mod_pos_bound (t + 1 + A - 1) A ltac:(lia)).
    nia. }
  set (nw := DIVIDE_ROUNDING_UP nb BITMAP_WORD_NBITS).
  assert (Hnw : 0 <= nw <= nb /\ nb <= BITMAP_WORD_NBITS * nw).
  { unfold nw. rewrite DIVIDE_ROUNDING_UP_spec by lia.
    set (N := BITMAP_WORD_NBITS) in *. clearbody N.
    pose proof (Z.div_mod (nb + N - 1) N ltac:(lia)). pose proof (Z.mod_pos_bound (nb + N - 1) N ltac:(lia)).
    nia. }
  assert (Hreach : forall n, nw <= n -> t < 2 ^ log2_align fam * (BITMAP_WORD_NBITS * n)).
  { intros n Hle. eapply Z.lt_le_trans; [apply Hnb1|]. apply Z.mul_le_mono_nonneg_l; [lia|].
    transitivity (BITMAP_WORD_NBITS * nw); [lia|]. apply Z.mul_le_mono_nonneg_l; lia. }
  unfold grow_starts. cbv [mbind M_bind gets id].
  destruct (Z.ltb_spec (starts_bitmap_nwords s) nw).
  - rewrite realloc_succeeds. eexists. split; [done|].
    rewrite wrap_small by lia. split_and!; [|done|by apply Hreach].
    split; cbn [set_starts enumerate_fn_arg starts_bitmap starts_bitmap_nwords offset_cached_up_to
      metavector metavector_nused metavector_size]; try apply C.
    + rewrite length_app, length_replicate. lia.
    + intros i Hi. rewrite <- (ca_bits _ _ C i Hi), bitmap_get_app by done.
      destruct (Z.ltb_spec i (BITMAP_WORD_NBITS * Z.of_nat (length (starts_bitmap s)))); [done|].
      rewrite bitmap_get_zeros, (bitmap_get_beyond (starts_bitmap s)) by lia. done.
  - exists s. split_and!; [done..|]. by apply Hreach.
Qed.

Lemma ensure_cached_ok l s off : cached l s -> 0 <= off <= e - b ->
  exists s' l', ensure_cached_up_to fam b e off s = Done (tt, s') /\
    cached (l ++ l') s' /\ off <= offset_cached_up_to s'.
Proof.
  intros C Hoff. pose proof (cached_offset_32 l s C). destruct (ca_off _ _ C) as [? ?].
  destruct (sl_region (fam := fam) (b := b) (e := e) (arg := arg)) as (? & ? & ?).
  unfold ensure_cached_up_to. cbv [mbind M_bind gets id].
  destruct (Z.ltb_spec (offset_cached_up_to s) off) as [Hlt|Hge].
  - rewrite (wrap_small 64 (e - b)), (wrap_small 32 (2 * _)), (wrap_small 64 (b + offset_cached_up_to s)) by lia.
    set (t := wrap32 (Z.min (e - b) (Z.max (2 * offset_cached_up_to s) off))).
    assert (Ht : off <= t <= e - b) by (unfold t; rewrite wrap_small; lia).
    rewrite ROUND_DOWN_begin, (wrap_small 64 (b + t)), (wrap_small 64 (b + t + 1 - b)) by lia.
    replace (b + t + 1 - b) with (t + 1) by lia.
    destruct (grow_starts_ok l s t C) as (s1 & -> & C1 & Ho & Hr); [lia|].
    destruct (cache_loop_ok (2 + Z.to_nat (b + t - (b + offset_cached_up_to s))) l s1 t
      (b + offset_cached_up_to s)) as (s2 & l' & -> & C2 & Ho2); [done|by rewrite Ho|lia..|done|lia|].
    exists s2, l'. unfold assert. destruct (Z.leb_spec off (offset_cached_up_to s2)); [|lia].
    split_and!; [by destruct NDEBUG|done..].
  - exists s, []. rewrite app_nil_r. cbv [mret M_ret]. unfold assert.
    destruct (Z.leb_spec off (offset_cached_up_to s)); [|lia].
    split_and!; [by destruct NDEBUG|done..].
Qed.

(** ** Finding the element around an address *)

(** The records hold what they are given: the fields are wide enough. *)
Definition fits_rec (p : Z) : Prop :=
  let na := Z.shiftr (size_at p) (log2_align fam) in
  types_table fam !! Z.to_nat (find_idx fam (type_at p)) = Some (type_at p) /\
  match WITH_ENT fam with
  | ent16 => 0 <= find_idx fam (type_at p) < 2 ^ 4 /\ na < 2 ^ 9
  | _ => 0 <= find_idx fam (type_at p) < 2 ^ 10 /\ na < 2 ^ 18
  end.

Lemma read_ent_ok p : b <= p < e -> p mod 2 ^ log2_align fam = 0 -> fits_rec p ->
  read_ent fam (ent_for p) b (seq_slot p) = (type_at p, size_at p, p).
Proof.
  intros Hp Ha [Ht Hf]. pose proof align_pos.
  destruct (sl_region (fam := fam) (b := b) (e := e) (arg := arg)) as (? & ? & ?).
  destruct (sl_enum p Hp Ha) as (sz & u & d & He & Hs & Hm).
  assert (Esz : size_at p = sz) by (unfold size_at; by rewrite He).
  pose proof (sl_align (fam := fam) (b := b) (e := e) (arg := arg)) as Hk.
  assert (Hn : Z.shiftl (Z.shiftr (size_at p) (log2_align fam)) (log2_align fam) = size_at p).
  { rewrite Z.shiftl_mul_pow2, Z.shiftr_div_pow2 by lia.
    apply Z.mod_divide in Hm as [q Hq]; [|lia]. rewrite Esz, Hq, Z.div_mul by lia. lia. }
  assert (0 <= Z.shiftr (size_at p) (log2_align fam)) by (apply Z.shiftr_nonneg; lia).
  pose proof (seq_slot_mul p ltac:(lia) Ha) as Hsl.
  unfold read_ent. rewrite (Z.shiftl_mul_pow2 (seq_slot p)) by lia. rewrite <- Hsl.
  rewrite (wrap_small 64 p) by lia.
  unfold ent_for. destruct (WITH_ENT fam); cbn [rec16 rec32 type_idx size_nalign size_delta_nbytes];
    change (wrap 3 0) with 0; change (wrap 4 0) with 0;
    rewrite (wrap_small _ (find_idx _ _)), (wrap_small _ (Z.shiftr _ _)), Ht, Hn by lia;
    simpl; do 2 f_equal; rewrite Z.sub_0_r; apply wrap_small; lia.
Qed.

(** The number of set bits below an element is its index. *)
Lemma count_before_ok l1 p l2 s : cached (l1 ++ p :: l2) s ->
  bitmap_count_set_l (starts_bitmap s) 0 (seq_slot p) = Z.of_nat (length l1).
Proof.
  intros C. pose proof (ca_chain _ _ C) as Hch. destruct (chain_split _ _ _ _ _ Hch) as (H1 & Hp & Ha & _).
  rewrite bitmap_count_spec by lia. f_equal. rewrite Z.sub_0_r, <- (length_fmap seq_slot l1).
  apply Permutation_length, NoDup_Permutation.
  - apply NoDup_filter, NoDup_seqZ.
  - apply NoDup_fmap_2_strong; [|by apply (chain_NoDup _ _ _ H1)].
    intros x y Hx Hy. pose proof (chain_elem _ _ _ _ H1 Hx). pose proof (chain_elem _ _ _ _ H1 Hy).
    apply seq_slot_inj; lia || tauto.
  - intros i. rewrite list_elem_of_filter, elem_of_seqZ, list_elem_of_fmap. split.
    + intros [Hb [Hi1 Hi2]]. apply (ca_bits _ _ C) in Hb as (y & Hy & ->); [|lia]. exists y. split; [done|].
      pose proof (chain_elem _ _ _ _ Hch Hy) as (? & ? & ?).
      apply (chain_before _ _ _ _ _ y Hch). split; [done|]. apply seq_slot_lt; (lia || done).
    + intros (y & -> & Hy). apply (chain_before _ _ _ _ _ y Hch) in Hy as [Hy Hlt].
      pose proof (chain_elem _ _ _ _ Hch Hy) as (? & ? & ?). pose proof (seq_slot_nonneg y ltac:(lia)).
      split; [apply (ca_bits _ _ C); [done|eauto]|]. split; [done|]. apply seq_slot_lt; (lia || done).
Qed.

(** The highest set bit at or below an address is the element around it. *)
Lemma rfind_element l1 p l2 s o : cached (l1 ++ p :: l2) s -> p <= o < p + size_at p ->
  bitmap_rfind_first_set_leq_l (starts_bitmap s) (Z.shiftr (o - b) (log2_align fam)) = seq_slot p.
Proof.
  intros C Ho. pose proof (ca_chain _ _ C) as Hch. destruct (chain_split _ _ _ _ _ Hch) as (H1 & Hp & Ha & H2).
  pose proof align_pos as HA. destruct (element p Hp Ha) as (_ & Hsz & _).
  pose proof (sl_align (fam := fam) (b := b) (e := e) (arg := arg)) as Hk.
  destruct (sl_region (fam := fam) (b := b) (e := e) (arg := arg)) as (? & ? & ?).
  destruct (ca_words _ _ C) as [Hw Hw32]. pose proof bitmap_nbits_pos.
  set (q := Z.shiftr (o - b) (log2_align fam)).
  assert (Hq : q = (o - b) / 2 ^ log2_align fam) by (unfold q; rewrite Z.shiftr_div_pow2; lia).
  pose proof (seq_slot_nonneg p ltac:(lia)) as Hsn. pose proof (seq_slot_mul p ltac:(lia) Ha) as Hsm.
  assert (Hpq : seq_slot p <= q) by (rewrite Hq; apply Z.div_le_lower_bound; nia).
  assert (Hset : bitmap_get_l (starts_bitmap s) (seq_slot p) = true).
  { apply (ca_bits _ _ C); [done|]. exists p. split; [|done]. apply elem_of_app. right. by left. }
  destruct (decide (bitmap_rfind_first_set_leq_l (starts_bitmap s) q = 2 ^ 64 - 1)) as [Hn|Hf].
  { rewrite (bitmap_rfind_none (starts_bitmap s) q) in Hset; [done|lia|nia|done|lia]. }
  destruct (bitmap_rfind_found (starts_bitmap s) q _ ltac:(lia) eq_refl Hf) as (Hi & Hg & Hmax).
  apply (ca_bits _ _ C) in Hg as (y & Hy & Hys); [|lia].
  pose proof (chain_elem _ _ _ _ Hch Hy) as (? & ? & Hya). pose proof (seq_slot_mul y ltac:(lia) Hya).
  destruct (decide (seq_slot p < seq_slot y)) as [Hlt|].
  - exfalso. assert (p < y) by (apply seq_slot_lt; (lia || done)).
    apply elem_of_app in Hy as [Hy|[->|Hy]%elem_of_cons].
    + pose proof (chain_elem _ _ _ _ H1 Hy). lia.
    + lia.
    + pose proof (chain_elem _ _ _ _ H2 Hy) as (? & _). rewrite Hys in Hi.
      assert (y - b <= o - b); [|lia]. pose proof (Z.mul_div_le (o - b) (2 ^ log2_align fam) ltac:(lia)). nia.
  - destruct (decide (seq_slot y = seq_slot p)); [congruence|].
    rewrite Hmax in Hset; [done|lia].
Qed.

Lemma get_info_found l s o : cached l s -> b <= o < e -> WITH_ENT fam <> no_ent ->
  (forall p, b <= p < e -> p mod 2 ^ log2_align fam = 0 -> fits_rec p) ->
  exists s' l' p, get_info fam b e o s =
      Done (Some (SeqInfo (FIXUP_T (type_at p) (size_at p)) p (size_at p)), s') /\
    cached (l ++ l') s' /\ p ∈ l ++ l' /\ p <= o < p + size_at p.
Proof.
  intros C Ho Hk Hfit. destruct (sl_region (fam := fam) (b := b) (e := e) (arg := arg)) as (? & ? & ?).
  unfold get_info. rewrite (wrap_small 32 (o - b)), (wrap_small 32 (o - b + 1)) by lia.
  destruct (ensure_cached_ok l s (o - b + 1) C) as (s' & l' & Hen & C' & Hoff); [lia|].
  rewrite (bind_Done _ _ _ _ _ Hen). cbv [mbind M_bind gets id].
  destruct (chain_cover b (b + offset_cached_up_to s') (l ++ l') o (ca_chain _ _ C')) as (l1 & p & l2 & El & Hp); [lia|].
  rewrite El in C'. pose proof (ca_chain _ _ C') as Hch. destruct (chain_split _ _ _ _ _ Hch) as (_ & Hpr & Ha & _).
  rewrite ROUND_DOWN_begin, (wrap_small 64 (b + (o - b))), (wrap_small 64 (b + (o - b) - b)) by lia.
  replace (b + (o - b) - b) with (o - b) by lia.
  rewrite (rfind_element l1 p l2 s' o C' Hp), (count_before_ok l1 p l2 s' C').
  pose proof (seq_slot_mul p ltac:(lia) Ha). pose proof align_pos. pose proof (seq_slot_nonneg p ltac:(lia)).
  destruct (Z.eqb_spec (seq_slot p) (2 ^ 64 - 1)) as [Hbig|_]; [nia|]. cbn [negb].
  destruct (ca_meta _ _ C' Hk) as (_ & _ & Hm).
  rewrite (Hm (length l1) p) by (by rewrite list_lookup_middle).
  exists s', l', p. rewrite El. split_and!; [|done|apply elem_of_app; right; by left|lia..].
  pose proof (sl_kind (fam := fam) (b := b) (e := e) (arg := arg)).
  destruct (WITH_ENT fam) eqn:Ek; try done; cbv [mret M_ret default];
    by rewrite read_ent_ok by (lia || auto).
Qed.

(** Without a metavector, [get_info] never gives a base or a size. *)
Lemma get_info_no_metavector l s o : cached l s -> b <= o < e -> WITH_ENT fam = no_ent ->
  exists s' l', get_info fam b e o s = Done (Some (SeqInfo (FIXUP_T 0 (2 ^ 64 - 1)) 0 (2 ^ 64 - 1)), s') /\
    cached (l ++ l') s'.
Proof.
  intros C Ho Hk. destruct (sl_region (fam := fam) (b := b) (e := e) (arg := arg)) as (? & ? & ?).
  unfold get_info. rewrite (wrap_small 32 (o - b)), (wrap_small 32 (o - b + 1)) by lia.
  destruct (ensure_cached_ok l s (o - b + 1) C) as (s' & l' & Hen & C' & Hoff); [lia|].
  rewrite (bind_Done _ _ _ _ _ Hen). cbv [mbind M_bind gets id].
  destruct (chain_cover b (b + offset_cached_up_to s') (l ++ l') o (ca_chain _ _ C')) as (l1 & p & l2 & El & Hp); [lia|].
  exists s', l'. split; [|done].
  rewrite El in C'. pose proof (ca_chain _ _ C') as Hch. destruct (chain_split _ _ _ _ _ Hch) as (_ & Hpr & Ha & _).
  rewrite ROUND_DOWN_begin, (wrap_small 64 (b + (o - b))), (wrap_small 64 (b + (o - b) - b)) by lia.
  replace (b + (o - b) - b) with (o - b) by lia.
  rewrite (rfind_element l1 p l2 s' o C' Hp).
  pose proof (seq_slot_mul p ltac:(lia) Ha). pose proof align_pos. pose proof (seq_slot_nonneg p ltac:(lia)).
  destruct (Z.eqb_spec (seq_slot p) (2 ^ 64 - 1)) as [Hbig|_]; [nia|]. by rewrite Hk.
Qed.

(** ** Walking the elements *)

(** The calls for the elements of [l], counted from [n + 1]. *)
Fixpoint walk_calls (n : Z) (l : list Z) : list walk_call :=
  match l with
  | [] => []
  | p :: l => WalkCall p (FIXUP_T (default 0 (types_table fam !! 0%nat)) (size_at p)) (n + 1) :: walk_calls (n + 1) l
  end.

Lemma find_next_none l1 p s : cached (l1 ++ [p]) s ->
  bitmap_find_first_set1_geq_l (starts_bitmap s) (seq_slot p + 1) = 2 ^ 64 - 1.
Proof.
  intros C. pose proof (ca_chain _ _ C) as Hch. destruct (chain_split _ _ _ _ _ Hch) as (H1 & Hp & Ha & H2).
  pose proof (seq_slot_nonneg p ltac:(lia)).
  destruct (decide (bitmap_find_first_set1_geq_l (starts_bitmap s) (seq_slot p + 1) = 2 ^ 64 - 1)) as [|Hf]; [done|].
  destruct (bitmap_find_found (starts_bitmap s) (seq_slot p + 1) _ ltac:(lia) eq_refl Hf) as (Hi & Hg & _). exfalso.
  apply (ca_bits _ _ C) in Hg as (y & Hy & Hys); [|lia]. rewrite Hys in Hi.
  assert (seq_slot p < seq_slot y) as Hlt by lia. pose proof (chain_elem _ _ _ _ Hch Hy) as (? & ? & ?).
  assert (p < y) by (apply seq_slot_lt; (lia || done)).
  apply elem_of_app in Hy as [Hy|Hy%list_elem_of_singleton]; [pose proof (chain_elem _ _ _ _ H1 Hy)|]; lia.
Qed.

Lemma find_next_some l1 p p2 l2 s : cached (l1 ++ p :: p2 :: l2) s ->
  p2 = p + size_at p /\ bitmap_find_first_set1_geq_l (starts_bitmap s) (seq_slot p + 1) = seq_slot p2.
Proof.
  intros C. pose proof (ca_chain _ _ C) as Hch. destruct (chain_split _ _ _ _ _ Hch) as (H1 & Hp & Ha & H2).
  destruct H2 as (-> & Hp2 & Ha2 & H2). split; [done|]. destruct (element p Hp Ha) as (_ & Hsz & _).
  destruct (element _ Hp2 Ha2) as (_ & Hsz2 & _). set (p2 := p + size_at p) in *.
  destruct (ca_words _ _ C) as [Hw Hw32]. pose proof bitmap_nbits_pos. pose proof (seq_slot_nonneg p ltac:(lia)).
  assert (Hlt : seq_slot p < seq_slot p2) by (apply seq_slot_lt; (lia || done)).
  assert (Hset : bitmap_get_l (starts_bitmap s) (seq_slot p2) = true).
  { apply (ca_bits _ _ C); [lia|]. exists p2. split; [|done]. apply elem_of_app. right. right. by left. }
  destruct (decide (bitmap_find_first_set1_geq_l (starts_bitmap s) (seq_slot p + 1) = 2 ^ 64 - 1)) as [Hn|Hf].
  { rewrite (bitmap_find_none (starts_bitmap s) (seq_slot p + 1)) in Hset; [done|lia|nia|done|lia]. }
  destruct (bitmap_find_found (starts_bitmap s) (seq_slot p + 1) _ ltac:(lia) eq_refl Hf) as (Hi & Hg & Hmin).
  apply (ca_bits _ _ C) in Hg as (y & Hy & Hys); [|lia]. rewrite Hys in *.
  pose proof (chain_elem _ _ _ _ Hch Hy) as (? & ? & Hya).
  assert (Hpy : p < y) by (apply seq_slot_lt; (lia || done)).
  destruct (decide (y < p2)) as [Hy2|].
  - apply elem_of_app in Hy as [Hy|[->|[->|Hy]%elem_of_cons]%elem_of_cons]; try lia.
    + pose proof (chain_elem _ _ _ _ H1 Hy). lia.
    + pose proof (chain_elem _ _ _ _ H2 Hy). lia.
  - destruct (decide (y = p2)) as [->|]; [done|].
    rewrite Hmin in Hset; [done|]. split; [lia|]. apply seq_slot_lt; (lia || done).
Qed.

Lemma walk_loop_ok cb n s l2 fuel l1 p coord trace :
  (forall c, cb c = 0) -> WITH_ENT fam = no_ent ->
  cached (l1 ++ p :: l2) s -> b + offset_cached_up_to s = e -> (length l2 + 1 < fuel)%nat ->
  walk_loop fam e cb fuel b n coord 0 (seq_slot p) trace s = Done ((0, trace ++ walk_calls coord (p :: l2)), s).
Proof.
  intros Hcb Hk. revert fuel l1 p coord trace. induction l2 as [|p2 l2 IH]; intros fuel l1 p coord trace C Hall Hf;
    (destruct fuel as [|fuel]; [simpl in Hf; lia|]).
  all: pose proof (ca_chain _ _ C) as Hch; destruct (chain_split _ _ _ _ _ Hch) as (H1 & Hp & Ha & H2).
  all: destruct (sl_region (fam := fam) (b := b) (e := e) (arg := arg)) as (? & ? & ?).
  all: pose proof (sl_align (fam := fam) (b := b) (e := e) (arg := arg)) as Hal.
  all: pose proof (seq_slot_mul p ltac:(lia) Ha) as Hsm; pose proof (seq_slot_nonneg p ltac:(lia)); pose proof align_pos.
  all: destruct (element p Hp Ha) as (_ & Hsz & _).
  all: assert (seq_slot p < 2 ^ 47) by nia.
  all: cbn [walk_loop]; destruct (Z.eqb_spec (seq_slot p) (2 ^ 64 - 1)) as [?|_]; [lia|].
  all: rewrite Z.shiftl_mul_pow2, <- Hsm, (wrap_small 64 p), (wrap_small 64 (seq_slot p + 1)) by lia.
  all: rewrite Z.eqb_refl; cbn [negb andb]; cbv [mbind M_bind gets id].
  all: unfold actual_type_size, METAVECTOR_ENTRY_SIZE_BYTES; rewrite kind_zero, (bool_decide_eq_true_2 _ Hk);
    cbn [negb]; rewrite Z.ltb_irrefl.
  - rewrite (find_next_none l1 p s C), Z.eqb_refl, orb_true_l.
    replace (assert true s) with (Done (tt, s)) by (unfold assert; by destruct NDEBUG).
    rewrite (wrap_small 64 (e - p)) by lia. cbv [mret M_ret fst snd]. rewrite Hcb.
    replace (e - p) with (size_at p) by (simpl in H2; lia). cbn [Z.eqb negb].
    destruct fuel; [simpl in Hf; lia|]. by cbn [walk_loop].
  - destruct (find_next_some l1 p p2 l2 s C) as [Hp2 ->].
    destruct H2 as (_ & Hp2r & Hp2a & _).
    rewrite <- Hp2 in Hp2r, Hp2a.
    assert (Hlt : seq_slot p < seq_slot p2) by (apply seq_slot_lt; (lia || done)).
    pose proof (seq_slot_mul p2 ltac:(lia) Hp2a) as Hsm2.
    destruct (Z.eqb_spec (seq_slot p2) (2 ^ 64 - 1)) as [?|_]; [nia|].
    destruct (Z.ltb_spec (seq_slot p) (seq_slot p2)); [|lia]. rewrite orb_true_r.
    replace (assert true s) with (Done (tt, s)) by (unfold assert; by destruct NDEBUG).
    rewrite Z.shiftl_mul_pow2 by lia.
    replace ((seq_slot p2 - seq_slot p) * 2 ^ log2_align fam) with (size_at p) by lia.
    rewrite (wrap_small 64 (size_at p)) by lia. cbv [mret M_ret fst snd]. rewrite Hcb. cbn [Z.eqb negb].
    rewrite (IH fuel (l1 ++ [p])); [by rewrite <- app_assoc|by rewrite <- app_assoc|done|simpl in Hf; lia].
Qed.

Lemma cached_length l s : cached l s -> Z.of_nat (length l) <= BITMAP_WORD_NBITS * starts_bitmap_nwords s.
Proof.
  intros C. pose proof (ca_chain _ _ C) as Hch. destruct (ca_words _ _ C) as [Hw _]. pose proof bitmap_nbits_pos.
  assert (length (seq_slot <$> l) <= length (seqZ 0 (BITMAP_WORD_NBITS * starts_bitmap_nwords s)))%nat as Hle.
  { apply NoDup_incl_length.
    - apply NoDup_ListNoDup, NoDup_fmap_2_strong; [|by apply (chain_NoDup _ _ _ Hch)].
      intros x y Hx Hy. pose proof (chain_elem _ _ _ _ Hch Hx). pose proof (chain_elem _ _ _ _ Hch Hy).
      apply seq_slot_inj; lia || tauto.
    - intros i. rewrite <- !list_elem_of_In, list_elem_of_fmap. intros (y & -> & Hy).
      pose proof (chain_elem _ _ _ _ Hch Hy) as (? & ? & ?). pose proof (seq_slot_nonneg y ltac:(lia)).
      apply elem_of_seqZ. destruct (decide (seq_slot y < BITMAP_WORD_NBITS * starts_bitmap_nwords s)); [lia|].
      assert (bitmap_get_l (starts_bitmap s) (seq_slot y) = true) as Hset by (apply (ca_bits _ _ C); eauto).
      rewrite bitmap_get_beyond in Hset by lia. done. }
  rewrite length_fmap, length_seqZ in Hle. nia.
Qed.

Lemma walk_all_ok cb l s : (forall c, cb c = 0) -> WITH_ENT fam = no_ent -> b < e -> cached l s ->
  exists s' l', walk_allocations fam b e cb 0 0 s = Done ((0, walk_calls 0 (l ++ l')), s') /\
    cached (l ++ l') s' /\ chain b e (l ++ l').
Proof.
  intros Hcb Hk Hbe C. destruct (sl_region (fam := fam) (b := b) (e := e) (arg := arg)) as (? & ? & ?).
  unfold walk_allocations. rewrite Z.eqb_refl. cbn [negb]. rewrite (wrap_small 32 (e - b)) by lia.
  destruct (ensure_cached_ok l s (e - b) C) as (s' & l' & Hen & C' & Hoff); [lia|].
  rewrite (bind_Done _ _ _ _ _ Hen). cbv [mbind M_bind gets id].
  destruct (ca_off _ _ C') as [_ Hle]. assert (Hall : b + offset_cached_up_to s' = e) by lia.
  pose proof (ca_chain _ _ C') as Hch. rewrite Hall in Hch.
  exists s', l'. split_and!; [|done..]. pose proof (cached_length _ _ C') as Hlen.
  destruct (l ++ l') as [|p l2] eqn:El; [simpl in Hch; lia|]. destruct Hch as (-> & Hr & Ha & Hch).
  rewrite ROUND_DOWN_begin, Z.sub_diag. change (wrap64 0) with 0. rewrite Z.shiftr_0_l. change (wrap32 0) with 0.
  assert (Hs0 : seq_slot b = 0) by (unfold seq_slot; by rewrite Z.sub_diag, Z.shiftr_0_l).
  pose proof (count_before_ok [] b l2 s' C') as Hc. rewrite Hs0 in Hc. rewrite Hc.
  change (wrap32 (Z.of_nat (length []))) with 0. rewrite <- Hs0 at 4.
  rewrite (walk_loop_ok cb 0 s' l2 _ [] b 0 []); [done|done|done|done|done|].
  simpl length in Hlen. lia.
Qed.
End facts.

(** ** Sequences of null-terminated strings *)

Section string8.
Context (byte_at : Z -> Z) (ARR0 : Z).

(** The scan stops just after the first null byte, or at the end. *)
Lemma scan_nulterm_ok n p e : 0 <= p -> e < 2 ^ 64 -> Z.of_nat n = e - p ->
  let q := scan_nulterm byte_at n p e in
  p <= q <= e /\ (0 < e - p -> p < q) /\
  (forall a, p <= a < q - 1 -> byte_at a <> 0) /\ (q < e -> byte_at (q - 1) = 0).
Proof.
  revert p. induction n as [|n IH]; intros p Hp He Hn; cbn [scan_nulterm]; [split_and!; lia|].
  destruct (Z.eqb_spec p e); [lia|]. rewrite wrap_small by lia. destruct (Z.eqb_spec (byte_at p) 0) as [Hz|Hz].
  - split_and!; try lia. intros. by replace (p + 1 - 1) with p by lia.
  - destruct (IH (p + 1)) as (? & Hlt & Ha & Hq); [lia..|].
    split_and!; [lia..| |done]. intros a Hr. destruct (decide (a = p)) as [->|]; [done|]. apply Ha. lia.
Qed.

Lemma string8_element p e arg : 0 <= p < e -> e < 2 ^ 64 ->
  exists sz, enumerate_string8_nulterm byte_at ARR0 p e arg = Some (sz, ARR0, 0) /\
    0 < sz <= e - p /\ (forall a, p <= a < p + sz - 1 -> byte_at a <> 0) /\
    (p + sz < e -> byte_at (p + sz - 1) = 0).
Proof.
  intros Hp He. unfold enumerate_string8_nulterm. destruct (Z.eqb_spec p e); [lia|].
  rewrite (wrap_small 64 (e - p)) by lia.
  destruct (scan_nulterm_ok (Z.to_nat (e - p)) p e) as (Hr & Hlt & Ha & Hq); [lia..|].
  eexists. split; [done|]. rewrite wrap_small by lia.
  replace (p + (scan_nulterm byte_at (Z.to_nat (e - p)) p e - p)) with
    (scan_nulterm byte_at (Z.to_nat (e - p)) p e) by lia. split_and!; try done; lia.
Qed.

#[export] Instance string8_laws b e arg :
  0 <= b <= e -> e - b < 2 ^ 31 -> e < 2 ^ 47 ->
  SeqLaws (__string8_nulterm_packed_sequence byte_at ARR0) b e arg.
Proof.
  intros. split; cbn [__string8_nulterm_packed_sequence log2_align]; [lia..|apply Z.mod_1_r|done|].
  intros p Hp _. destruct (string8_element p e arg) as (sz & He & Hs & _); [lia..|].
  exists sz, ARR0, 0. split_and!; [done|lia..|apply Z.mod_1_r].
Qed.
End string8.

(** A sequence of which nothing is cached yet. *)
Definition fresh_seq (arg : Z) : packed_sequence := PackedSequence arg ∅ 0 0 [] 0 0.

Lemma fresh_cached {BM : Bitmap} {BL : BitmapLaws BM} fam b e arg {SL : SeqLaws fam b e arg} :
  cached fam b e arg [] (fresh_seq arg).
Proof.
  destruct SL as [? (? & ? & ?) Hb _ _]. split; cbn [fresh_seq enumerate_fn_arg offset_cached_up_to
    starts_bitmap starts_bitmap_nwords metavector metavector_nused metavector_size]; try done.
  - lia.
  - by rewrite Z.add_0_r.
  - simpl. lia.
  - intros i Hi. rewrite bitmap_get_beyond by (simpl; lia). split; [done|].
    intros (p & Hp & _). by apply not_elem_of_nil in Hp.
Qed.
