(* ===== verification/AllocSites.v ===== *)
(** Allocation sites: src/src/allocsites.c.

    Every loaded object with allocation-site metadata has a sorted vector of
    sites; a spine of at most [ALLOCSITES_INDEX_SIZE] vectors gives each site
    a 16-bit identifier, the index in its vector plus the vector's start.

    The dynamic symbol of an object's vector, the contents of the vectors and
    the file metadata an address belongs to come from the loader and the
    static-file allocator; [bsearch_leq_generic] is a macro of the librunt
    submodule.  They are the class [SiteEnv]. *)
From S2P Require Import Prelude.

Definition ALLOCSITES_INDEX_SIZE : Z := 256.

Record vector_entry := VectorEntry { start_id : Z; count : Z; file_base_addr : Z; ptr : Z }.
Definition zero_vector : vector_entry := VectorEntry 0 0 0 0.

(** A symbol: the vector it names and its size in bytes. *)
Record site_symbol := SiteSymbol { sym_addr : Z; st_size : Z }.

Record file_metadata := FileMetadata {
  allocsites_symbol : option site_symbol;
  l_addr : Z;
}.

Class SiteEnv := {
  sizeof_allocsite_entry : Z;
  (** The site addresses of a vector, relative to the object's load address. *)
  allocsite_vaddrs : Z -> list Z;
  (** The file whose mapping holds an address. *)
  get_file : Z -> option Z;
  file_of : Z -> file_metadata;
  (** Index of the last key not above the target. *)
  bsearch_leq : list Z -> Z -> option nat;
}.

Definition increasing (keys : list Z) : Prop :=
  forall i j a b, (i < j)%nat -> keys !! i = Some a -> keys !! j = Some b -> a < b.

Class SiteLaws (E : SiteEnv) : Prop := {
  sizeof_entry_pos : 0 < sizeof_allocsite_entry;
  bsearch_leq_found keys t i : increasing keys ->
    bsearch_leq keys t = Some i <->
    (exists k, keys !! i = Some k /\ k <= t) /\ (forall k, keys !! S i = Some k -> t < k);
}.

(** [allocsites_vectors_by_base_id], [allocsites_id_entry_slot_next_free] and
    the [allocsites_info] of each file: the slot it points to. *)
Record sites := Sites {
  vectors : gmap Z vector_entry;
  slot_next_free : Z;
  allocsites_info : gmap Z Z;
}.

Definition vec (s : sites) (i : Z) : vector_entry := default zero_vector (vectors s !! i).

Section ops.
Context {B : Build} {E : SiteEnv}.

Definition init_allocsites_info (file : Z) : M sites unit :=
  match allocsites_symbol (file_of file) with
  | None => mret tt
  | Some found =>
    s ← gets id;
    let slot_pos := slot_next_free s in
    modify (fun s => Sites (vectors s) (wrap16 (slot_next_free s + 1)) (allocsites_info s)) ;;
    if ALLOCSITES_INDEX_SIZE <? slot_pos then abort else
    let prev := vec s (slot_pos - 1) in
    let start := if slot_pos =? 0 then 0 else wrap16 (start_id prev + count prev) in
    if negb (slot_pos =? 0) && (start <? start_id prev) then abort else
    modify (fun s => Sites
      (<[slot_pos := VectorEntry start (wrap16 (st_size found / sizeof_allocsite_entry))
                       (l_addr (file_of file)) (sym_addr found)]> (vectors s))
      (slot_next_free s) (<[file := slot_pos]> (allocsites_info s)))
  end.

(** An entry is named by its vector and its index in it. *)
Definition __liballocs_find_allocsite_entry_at (allocsite : Z) : M sites (option (Z * Z)) :=
  match get_file allocsite with
  | None => mret None
  | Some file =>
    s ← gets id;
    let allocsite_vaddr := wrap64 (allocsite - l_addr (file_of file)) in
    match allocsites_info s !! file with
    | None => mret None
    | Some slot =>
      let v := vec s slot in
      mret (match bsearch_leq (take (Z.to_nat (count v)) (allocsite_vaddrs (ptr v))) allocsite_vaddr with
            | Some i => Some (ptr v, Z.of_nat i)
            | None => None
            end)
    end
  end.

Definition __liballocs_allocsite_id (allocsite : Z) : M sites Z :=
  match get_file allocsite with
  | None => mret 0
  | Some file =>
    found_entry ← __liballocs_find_allocsite_entry_at allocsite;
    match found_entry with
    | None => mret (wrap16 (-1))
    | Some (_, i) =>
      s ← gets id;
      let v := vec s (default 0 (allocsites_info s !! file)) in
      mret (wrap16 (start_id v + i))
    end
  end.

Definition spine (s : sites) : list Z :=
  (fun i => start_id (vec s i)) <$> seqZ 0 (slot_next_free s).

(** The entry and the base address of its file. *)
Definition __liballocs_allocsite_entry_by_id (i : Z) : M sites (option (Z * Z * Z)) :=
  s ← gets id;
  match bsearch_leq (spine s) i with
  | None => mret None
  | Some slot =>
    let v := vec s (Z.of_nat slot) in
    assert (start_id v <=? i) ;;
    mret (Some (ptr v, i - start_id v, file_base_addr v))
  end.

Definition __liballocs_allocsite_by_id (i : Z) : M sites Z :=
  entry ← __liballocs_allocsite_entry_by_id i;
  match entry with
  | None => mret 0
  | Some (p, j, base) => mret (wrap64 (base + default 0 (allocsite_vaddrs p !! Z.to_nat j)))
  end.
End ops.

(** ** Correctness *)

Section facts.
Context {B : Build} {E : SiteEnv} {SL : SiteLaws E}.

(** The spine is a partition of the identifiers issued so far, and every file
    with metadata owns the slot it points to. *)
Record spine_ok (s : sites) : Prop := {
  so_next : 0 <= slot_next_free s <= ALLOCSITES_INDEX_SIZE;
  so_zero : 0 < slot_next_free s -> start_id (vec s 0) = 0;
  so_count i : 0 <= i < slot_next_free s -> 0 <= start_id (vec s i) < 2 ^ 16 /\ 0 < count (vec s i) < 2 ^ 16;
  so_sum i : 0 <= i -> i + 1 < slot_next_free s ->
    start_id (vec s (i + 1)) = start_id (vec s i) + count (vec s i);
  so_info f k : allocsites_info s !! f = Some k ->
    0 <= k < slot_next_free s /\ file_base_addr (vec s k) = l_addr (file_of f);
}.

Lemma spine_start_lt s i d : spine_ok s -> 0 <= i -> i + 1 + Z.of_nat d < slot_next_free s ->
  start_id (vec s i) + count (vec s i) <= start_id (vec s (i + 1 + Z.of_nat d)).
Proof.
  intros O Hi. induction d as [|d IH]; intros Hd.
  - rewrite Z.add_0_r in *. by rewrite (so_sum s O i).
  - replace (i + 1 + Z.of_nat (S d)) with (i + 1 + Z.of_nat d + 1) in * by lia.
    rewrite (so_sum s O (i + 1 + Z.of_nat d)) by lia.
    pose proof (so_count s O (i + 1 + Z.of_nat d) ltac:(lia)). specialize (IH ltac:(lia)). lia.
Qed.

Lemma spine_lookup s i : 0 <= i < slot_next_free s ->
  spine s !! Z.to_nat i = Some (start_id (vec s i)).
Proof.
  intros Hi. unfold spine. rewrite list_lookup_fmap, lookup_seqZ_lt by lia. simpl. do 3 f_equal. lia.
Qed.

Lemma spine_lookup_inv s i a : spine s !! i = Some a ->
  a = start_id (vec s (Z.of_nat i)) /\ Z.of_nat i < slot_next_free s.
Proof.
  unfold spine. rewrite list_lookup_fmap, fmap_Some. intros (j & Hj & ->).
  apply lookup_seqZ in Hj as [-> ?]. by rewrite Z.add_0_l.
Qed.

Lemma spine_increasing s : spine_ok s -> increasing (spine s).
Proof.
  intros O i j a b Hij [-> Hi]%spine_lookup_inv [-> Hj]%spine_lookup_inv.
  pose proof (so_count s O (Z.of_nat i) ltac:(lia)).
  pose proof (spine_start_lt s (Z.of_nat i) (j - i - 1) O ltac:(lia) ltac:(lia)) as Hlt.
  replace (Z.of_nat i + 1 + Z.of_nat (j - i - 1)) with (Z.of_nat j) in Hlt by lia. lia.
Qed.

(** ** Registering an object *)

Definition nsites (sym : site_symbol) : Z := st_size sym / sizeof_allocsite_entry.
Definition next_start (s : sites) : Z :=
  if slot_next_free s =? 0 then 0
  else start_id (vec s (slot_next_free s - 1)) + count (vec s (slot_next_free s - 1)).

Definition registered (s : sites) (file : Z) (sym : site_symbol) : sites :=
  Sites (<[slot_next_free s := VectorEntry (next_start s) (nsites sym) (l_addr (file_of file)) (sym_addr sym)]>
           (vectors s))
    (slot_next_free s + 1) (<[file := slot_next_free s]> (allocsites_info s)).

Lemma init_registers s file sym : spine_ok s -> slot_next_free s < ALLOCSITES_INDEX_SIZE ->
  allocsites_symbol (file_of file) = Some sym -> 0 < nsites sym < 2 ^ 16 -> next_start s < 2 ^ 16 ->
  init_allocsites_info file s = Done (tt, registered s file sym).
Proof.
  intros O Hn Hsym Hc Hs. unfold init_allocsites_info. rewrite Hsym. cbv [mbind M_bind gets id modify].
  pose proof (so_next s O). unfold ALLOCSITES_INDEX_SIZE in *. destruct (Z.ltb_spec 256 (slot_next_free s)); [lia|].
  unfold registered. rewrite (wrap_small 16 (slot_next_free s + 1)), (wrap_small 16 (_ / _)) by (unfold nsites in *; lia).
  unfold next_start in *. destruct (Z.eqb_spec (slot_next_free s) 0) as [Hz|Hz]; [done|].
  pose proof (so_count s O (slot_next_free s - 1) ltac:(lia)).
  rewrite wrap_small by lia. cbn [negb andb].
  match goal with |- context [?x <? ?y] => destruct (Z.ltb_spec x y); [lia|done] end.
Qed.

Lemma registered_ok s file sym : spine_ok s -> slot_next_free s < ALLOCSITES_INDEX_SIZE ->
  0 < nsites sym < 2 ^ 16 -> next_start s < 2 ^ 16 -> spine_ok (registered s file sym).
Proof.
  intros O Hn Hc Hs. pose proof (so_next s O) as Hnx.
  assert (Hold : forall i, i <> slot_next_free s -> vec (registered s file sym) i = vec s i).
  { intros i Hi. unfold vec, registered. cbn [vectors]. by rewrite lookup_insert_ne. }
  assert (Hnew : vec (registered s file sym) (slot_next_free s) =
    VectorEntry (next_start s) (nsites sym) (l_addr (file_of file)) (sym_addr sym)).
  { unfold vec, registered. cbn [vectors]. by rewrite lookup_insert_eq. }
  assert (Hst : 0 <= next_start s).
  { unfold next_start. destruct (Z.eqb_spec (slot_next_free s) 0); [lia|].
    pose proof (so_count s O (slot_next_free s - 1) ltac:(lia)). lia. }
  split; cbn [registered slot_next_free allocsites_info].
  - lia.
  - intros _. destruct (decide (slot_next_free s = 0)) as [Hz|Hz].
    + rewrite <- Hz, Hnew. unfold next_start. by rewrite (proj2 (Z.eqb_eq _ _) Hz).
    + rewrite Hold by lia. apply (so_zero s O). lia.
  - intros i Hi. destruct (decide (i = slot_next_free s)) as [->|Hne]; [rewrite Hnew; simpl; lia|].
    rewrite Hold by done. apply (so_count s O). lia.
  - intros i Hi Hlt. rewrite (Hold i) by lia. destruct (decide (i + 1 = slot_next_free s)) as [Heq|Hne].
    + rewrite Heq, Hnew. simpl. unfold next_start. destruct (Z.eqb_spec (slot_next_free s) 0); [lia|].
      by replace (slot_next_free s - 1) with i by lia.
    + rewrite Hold by done. apply (so_sum s O); lia.
  - intros f k. destruct (decide (f = file)) as [->|Hf].
    + rewrite lookup_insert_eq. intros [= <-]. rewrite Hnew. simpl. split; [lia|done].
    + rewrite lookup_insert_ne by done. intros Hk. destruct (so_info s O f k Hk) as [? Hb].
      rewrite Hold by lia. split; [lia|done].
Qed.

(** Running out of identifiers ends the program. *)
Lemma init_overflow s file sym : spine_ok s ->
  allocsites_symbol (file_of file) = Some sym -> 2 ^ 16 <= next_start s ->
  init_allocsites_info file s = Abort.
Proof.
  intros O Hsym Hs. unfold init_allocsites_info. rewrite Hsym. cbv [mbind M_bind gets id modify].
  pose proof (so_next s O). unfold ALLOCSITES_INDEX_SIZE in *. destruct (Z.ltb_spec 256 (slot_next_free s)); [lia|].
  unfold next_start in *. destruct (Z.eqb_spec (slot_next_free s) 0) as [Hz|Hz]; [lia|].
  pose proof (so_count s O (slot_next_free s - 1) ltac:(lia)). cbn [negb andb].
  set (x := start_id (vec s (slot_next_free s - 1)) + count (vec s (slot_next_free s - 1))) in *.
  assert (wrap16 x = x - 2 ^ 16) as ->.
  { unfold wrap. rewrite (Z.mod_unique x (2 ^ 16) 1 (x - 2 ^ 16)); lia. }
  match goal with |- context [?x <? ?y] => destruct (Z.ltb_spec x y); [done|lia] end.
Qed.

Lemma next_start_nonneg s : spine_ok s -> 0 <= next_start s.
Proof.
  intros O. pose proof (so_next s O). unfold next_start. destruct (Z.eqb_spec (slot_next_free s) 0); [lia|].
  pose proof (so_count s O (slot_next_free s - 1) ltac:(lia)). lia.
Qed.

(** ** Identifiers and sites *)

Lemma bsearch_increasing keys i k : increasing keys -> keys !! i = Some k -> bsearch_leq keys k = Some i.
Proof.
  intros Hinc Hi. apply bsearch_leq_found; [done|]. split; [eauto with lia|].
  intros k' Hk'. by apply (Hinc i (S i)); [lia|..].
Qed.

Lemma allocsite_id_ok s site file slot i va : spine_ok s ->
  get_file site = Some file -> allocsites_info s !! file = Some slot ->
  increasing (allocsite_vaddrs (ptr (vec s slot))) ->
  allocsite_vaddrs (ptr (vec s slot)) !! i = Some va -> Z.of_nat i < count (vec s slot) ->
  site = l_addr (file_of file) + va -> 0 <= va < 2 ^ 64 ->
  __liballocs_allocsite_id site s = Done (wrap16 (start_id (vec s slot) + Z.of_nat i), s).
Proof.
  intros O Hf Hinfo Hinc Hi Hic -> Hva. destruct (so_info s O _ _ Hinfo) as [Hslot _].
  pose proof (so_count s O slot Hslot).
  unfold __liballocs_allocsite_id, __liballocs_find_allocsite_entry_at. rewrite Hf.
  cbv [mbind M_bind gets id]. rewrite Hinfo.
  replace (l_addr (file_of file) + va - l_addr (file_of file)) with va by lia.
  rewrite wrap_small by lia. rewrite (bsearch_increasing _ i va).
  - cbv [mret M_ret default]. rewrite Hinfo. done.
  - intros a b' x y Hab Hx Hy. apply lookup_take_Some in Hx as [Hx _], Hy as [Hy _]. by apply (Hinc a b').
  - apply lookup_take_Some. split; [done|lia].
Qed.

(** The [i]th site of an object whose vector is [sym]. *)
Record nth_site (file : Z) (sym : site_symbol) (i : nat) (site : Z) : Prop := {
  ns_file : get_file site = Some file;
  ns_sorted : increasing (allocsite_vaddrs (sym_addr sym));
  ns_index : Z.of_nat i < nsites sym;
  ns_vaddr : exists va, allocsite_vaddrs (sym_addr sym) !! i = Some va /\ site = l_addr (file_of file) + va /\ 0 <= va < 2 ^ 64;
}.

(** The identifiers of the object registered last, those past [2^16] cut to 16 bits. *)
Lemma registered_id s file sym i site : spine_ok (registered s file sym) -> nth_site file sym i site ->
  __liballocs_allocsite_id site (registered s file sym) = Done (wrap16 (next_start s + Z.of_nat i), registered s file sym).
Proof.
  intros O [Hf Hinc Hi (va & Hva & Es & Hr)].
  assert (Hnew : vec (registered s file sym) (slot_next_free s) =
    VectorEntry (next_start s) (nsites sym) (l_addr (file_of file)) (sym_addr sym)).
  { unfold vec, registered. cbn [vectors]. by rewrite lookup_insert_eq. }
  rewrite (allocsite_id_ok _ site file (slot_next_free s) i va); rewrite ?Hnew; try done.
  unfold registered. cbn [allocsites_info]. apply lookup_insert_eq.
Qed.

Lemma next_start_registered s file sym : spine_ok s -> next_start (registered s file sym) = next_start s + nsites sym.
Proof.
  intros O. pose proof (so_next s O). unfold next_start at 1. cbn [registered slot_next_free].
  rewrite (proj2 (Z.eqb_neq _ _)) by lia. replace (slot_next_free s + 1 - 1) with (slot_next_free s) by lia.
  unfold vec, registered. cbn [vectors]. by rewrite lookup_insert_eq.
Qed.

Lemma allocsite_by_id_ok s slot i va : spine_ok s -> 0 <= slot < slot_next_free s ->
  allocsite_vaddrs (ptr (vec s slot)) !! i = Some va -> Z.of_nat i < count (vec s slot) ->
  0 <= file_base_addr (vec s slot) + va < 2 ^ 64 ->
  __liballocs_allocsite_by_id (start_id (vec s slot) + Z.of_nat i) s =
    Done (file_base_addr (vec s slot) + va, s).
Proof.
  intros O Hslot Hi Hic Hr. unfold __liballocs_allocsite_by_id, __liballocs_allocsite_entry_by_id.
  cbv [mbind M_bind gets id].
  assert (bsearch_leq (spine s) (start_id (vec s slot) + Z.of_nat i) = Some (Z.to_nat slot)) as ->.
  { apply bsearch_leq_found; [by apply spine_increasing|]. split.
    - exists (start_id (vec s slot)). split; [by apply spine_lookup|lia].
    - intros k [-> Hk]%spine_lookup_inv. replace (Z.of_nat (S (Z.to_nat slot))) with (slot + 1) in * by lia.
      rewrite (so_sum s O slot); lia. }
  rewrite Z2Nat.id by lia. destruct (Z.leb_spec (start_id (vec s slot)) (start_id (vec s slot) + Z.of_nat i)); [|lia].
  replace (assert true s) with (Done (tt, s)) by (unfold assert; by destruct NDEBUG).
  cbv [mret M_ret]. replace (start_id (vec s slot) + Z.of_nat i - start_id (vec s slot)) with (Z.of_nat i) by lia.
  rewrite Nat2Z.id, Hi. cbv [default from_option id]. by rewrite wrap_small.
Qed.
End facts.

(** ** A concrete environment *)

(** The last index whose key is at most the target, by linear search. *)
Fixpoint linear_leq (keys : list Z) (t : Z) (i : nat) (best : option nat) : option nat :=
  match keys with
  | [] => best
  | k :: keys => if k <=? t then linear_leq keys t (S i) (Some i) else best
  end.

Lemma linear_leq_ok keys t i best : increasing keys ->
  match linear_leq keys t i best with r =>
    (r = best /\ (forall k, keys !! 0%nat = Some k -> t < k)) \/
    exists j, r = Some (i + j)%nat /\
      (exists k, keys !! j = Some k /\ k <= t) /\ (forall k, keys !! S j = Some k -> t < k)
  end.
Proof.
  revert i best. induction keys as [|k keys IH]; intros i best Hinc; cbn [linear_leq]; [by left|].
  destruct (Z.leb_spec k t) as [Hk|Hk]; [right|left; split; [done|by intros ? [= <-]]].
  assert (Hinc' : increasing keys) by (intros a b x y Hab Hx Hy; apply (Hinc (S a) (S b)); [lia|done..]).
  destruct (IH (S i) (Some i) Hinc') as [[-> Hn]|(j & -> & Hj & Hn)].
  - exists 0%nat. split_and!; [by rewrite Nat.add_0_r|by exists k|done].
  - exists (S j). split_and!; [f_equal; lia|done..].
Qed.

Lemma linear_leq_found keys t i : increasing keys ->
  linear_leq keys t 0 None = Some i <->
  (exists k, keys !! i = Some k /\ k <= t) /\ (forall k, keys !! S i = Some k -> t < k).
Proof.
  intros Hinc. destruct (linear_leq_ok keys t 0 None Hinc) as [[-> Hn]|(j & -> & (kj & Hj & Hle) & Hn)].
  - split; [done|]. intros [(k & Hk & Hle) _]. destruct keys as [|k0 keys]; [by rewrite lookup_nil in Hk|].
    specialize (Hn k0 eq_refl). destruct i as [|i]; [simpl in Hk; simplify_eq; lia|].
    pose proof (Hinc 0%nat (S i) k0 k ltac:(lia) eq_refl Hk). lia.
  - simpl. split; [intros [= <-]; eauto|]. intros [(k & Hk & Hkt) Hn']. f_equal.
    destruct (Nat.lt_trichotomy i j) as [Hlt|[->|Hlt]]; [|done|].
    + destruct (keys !! S i) as [k'|] eqn:E'; [|apply lookup_ge_None in E'; apply lookup_lt_Some in Hj; lia].
      specialize (Hn' k' eq_refl). destruct (decide (S i = j)) as [<-|]; [simplify_eq; lia|].
      pose proof (Hinc (S i) j k' kj ltac:(lia) E' Hj). lia.
    + destruct (keys !! S j) as [k'|] eqn:E'; [|apply lookup_ge_None in E'; apply lookup_lt_Some in Hk; lia].
      specialize (Hn k' eq_refl). destruct (decide (S j = i)) as [<-|]; [simplify_eq; lia|].
      pose proof (Hinc (S j) i k' k ltac:(lia) E' Hk). lia.
Qed.
