(* ===== verification/MemTable.v ===== *)
(** Memtables, src/include/memtable.h: flat arrays keyed on addresses.

    Table and entry pointers are addresses.  [integer_log2] (librunt's
    bitops.h), [mmap] and [munmap] are parameters.  Pointer differences are
    signed 64-bit values, entry sizes and coverages are unsigned 32-bit ones. *)
From S2P Require Import Prelude.

(** C's signed 64-bit view of a word, and its truncating division. *)
Definition to_signed64 (x : Z) : Z := if wrap64 x <? 2 ^ 63 then wrap64 x else wrap64 x - 2 ^ 64.

Definition BIGGEST_MMAP_ALLOWED : Z := 2 ^ 46.

Class MemtableEnv := {
  mt_integer_log2 : Z -> Z;
  mt_is_power_of_two : Z -> bool;
  (** The address [mmap] returns for a hint (0 for none) and a length. *)
  mt_mmap : Z -> Z -> Z;
  mt_munmap : Z -> Z -> Z;
}.

Section memtable.
Context {ME : MemtableEnv} {B : Build}.

Definition memtable_mapping_size (entry_size_in_bytes entry_coverage_in_bytes addr_begin addr_end : Z)
    : M unit Z :=
  assert (mt_is_power_of_two entry_coverage_in_bytes) ;;
  let log2_coverage := mt_integer_log2 entry_coverage_in_bytes in
  let range_size := wrap64 (addr_end - addr_begin) in
  let full_as_size_shift := Z.shiftl 8 3 in
  let full_as_nentries_shift := wrap32 (full_as_size_shift - log2_coverage) in
  nentries ← (if range_size =? 0 then mret (wrap64 (Z.shiftl 1 full_as_nentries_shift))
              else assert (range_size mod entry_coverage_in_bytes =? 0) ;;
                   mret (range_size / entry_coverage_in_bytes));
  assert (negb (nentries =? 0)) ;;
  mret (wrap64 (nentries * entry_size_in_bytes)).

Definition memtable_new_at_addr (entry_size entry_coverage addr_begin addr_end placement_addr : Z) : M unit Z :=
  mapping_size ← memtable_mapping_size entry_size entry_coverage addr_begin addr_end;
  assert (mapping_size <=? BIGGEST_MMAP_ALLOWED) ;;
  mret (mt_mmap placement_addr mapping_size).

Definition memtable_new (entry_size entry_coverage addr_begin addr_end : Z) : M unit Z :=
  memtable_new_at_addr entry_size entry_coverage addr_begin addr_end 0.

Definition memtable_index (memtable entry_size index : Z) : Z :=
  wrap64 (memtable + wrap64 (entry_size * index)).

Definition memtable_addr (memtable entry_size entry_coverage addr_begin addr_end addr : Z) : M unit Z :=
  assert ((addr_begin <=? addr) && ((addr_end =? 0) || (addr <? addr_end))) ;;
  mret (memtable_index memtable entry_size
          (wrap64 (Z.quot (to_signed64 (addr - addr_begin)) entry_coverage))).

Definition memtable_entry_range_base (memtable entry_size entry_coverage addr_begin memtable_entry_ptr : Z) : Z :=
  wrap64 (to_signed64 (Z.quot (to_signed64 (memtable_entry_ptr - memtable)) entry_size * entry_coverage)
          + addr_begin).

Definition memtable_addr_range_base (memtable entry_size entry_coverage addr_begin addr_end addr : Z) : M unit Z :=
  p ← memtable_addr memtable entry_size entry_coverage addr_begin addr_end addr;
  mret (memtable_entry_range_base memtable entry_size entry_coverage addr_begin p).

Definition memtable_addr_range_offset (memtable entry_size entry_coverage addr_begin addr_end addr : Z) : M unit Z :=
  b ← memtable_addr_range_base memtable entry_size entry_coverage addr_begin addr_end addr;
  mret (to_signed64 (addr - b)).

Definition memtable_free (memtable entry_size entry_coverage addr_begin addr_end : Z) : M unit Z :=
  mapping_size ← memtable_mapping_size entry_size entry_coverage addr_begin addr_end;
  mret (mt_munmap memtable mapping_size).

(** ** What an entry covers *)

(** A table whose entries and whose covered range fit the address space. *)
Record memtable_ok (memtable entry_size entry_coverage addr_begin addr_end : Z) : Prop := {
  mt_size : 0 < entry_size < 2 ^ 32;
  mt_cov : 0 < entry_coverage < 2 ^ 32;
  mt_begin : 0 <= addr_begin < addr_end;
  mt_end : addr_end < 2 ^ 63;
  mt_whole : (addr_end - addr_begin) mod entry_coverage = 0;
  mt_table : 0 <= memtable /\ memtable + (addr_end - addr_begin) / entry_coverage * entry_size < 2 ^ 63;
}.

Lemma to_signed64_small x : 0 <= x < 2 ^ 63 -> to_signed64 x = x.
Proof. intros. unfold to_signed64. rewrite wrap_small by lia. destruct (Z.ltb_spec x (2 ^ 63)); lia. Qed.

Section ok.
Context (memtable sz cov b e addr : Z) (Ok : memtable_ok memtable sz cov b e) (Ha : b <= addr < e).

Let idx : Z := (addr - b) / cov.

Lemma memtable_index_range : 0 <= idx < (e - b) / cov.
Proof.
  destruct Ok. unfold idx. split; [apply Z.div_pos; lia|].
  apply Z.div_lt_upper_bound; [lia|].
  assert (e - b = cov * ((e - b) / cov)) as <-; [|lia].
  pose proof (Z.div_mod (e - b) cov ltac:(lia)). lia.
Qed.

Lemma memtable_addr_ok :
  memtable_addr memtable sz cov b e addr tt = Done (memtable + sz * idx, tt).
Proof.
  pose proof memtable_index_range as Hi. destruct Ok as [Hs Hc Hb He Hw [Ht Ht']].
  unfold memtable_addr, memtable_index.
  rewrite (bind_Done _ _ _ tt tt).
  2:{ unfold assert. destruct NDEBUG; [done|].
      rewrite (proj2 (Z.leb_le b addr)), (proj2 (Z.ltb_lt addr e)), orb_true_r by lia. done. }
  rewrite to_signed64_small, Z.quot_div_nonneg by lia. fold idx.
  rewrite (wrap_small 64 idx), (wrap_small 64 (sz * idx)), wrap_small by nia. done.
Qed.

Lemma memtable_entry_range_base_ok :
  memtable_entry_range_base memtable sz cov b (memtable + sz * idx) = b + cov * idx.
Proof.
  pose proof memtable_index_range as Hi. destruct Ok as [Hs Hc Hb He Hw [Ht Ht']].
  unfold memtable_entry_range_base.
  replace (memtable + sz * idx - memtable) with (idx * sz) by lia.
  assert (cov * idx <= addr - b) by (apply Z.mul_div_le; lia).
  rewrite (to_signed64_small (idx * sz)) by nia. rewrite Z.quot_mul by lia.
  rewrite to_signed64_small by nia. rewrite wrap_small by nia. lia.
Qed.
End ok.
End memtable.
