(* ===== verification/MemrangeCache.v ===== *)
(** The most-recently-used cache of typed memory ranges:
    src/include/liballocs_cil_inlines.h and src/src/cache.c.

    Entries live in an array; index 0 means "none".  The valid entries are
    those whose bit is set in [validity], and they form a doubly linked list
    from [head_mru] to [tail_mru].  The default (not FIFO, not linear)
    configuration is modelled.  The sanity check is compiled into debug
    builds only. *)
From S2P Require Import Prelude DList.

Record cache_entry := CacheEntry {
  obj_base : Z;
  obj_limit : Z;
  uniqtype : Z;
  period : Z;
  depth : Z;
  prev_mru : Z;
  next_mru : Z;
}.
Definition zero_entry : cache_entry := CacheEntry 0 0 0 0 0 0 0.

Record cache := Cache {
  validity : Z;
  size_plus_one : Z;
  next_victim : Z;
  head_mru : Z;
  tail_mru : Z;
  entries : gmap Z cache_entry;
}.

Definition LIBALLOCS_MEMRANGE_CACHE_MAX_SIZE : Z := 8.
Definition __liballocs_ool_cache : cache := Cache 0 (1 + LIBALLOCS_MEMRANGE_CACHE_MAX_SIZE) 1 0 0 ∅.

Definition ent (c : cache) (i : Z) : cache_entry := default zero_entry (entries c !! i).

Definition set_validity (v : Z) (c : cache) : cache :=
  Cache v (size_plus_one c) (next_victim c) (head_mru c) (tail_mru c) (entries c).
Definition set_victim (v : Z) (c : cache) : cache :=
  Cache (validity c) (size_plus_one c) v (head_mru c) (tail_mru c) (entries c).
Definition set_head (v : Z) (c : cache) : cache :=
  Cache (validity c) (size_plus_one c) (next_victim c) v (tail_mru c) (entries c).
Definition set_tail (v : Z) (c : cache) : cache :=
  Cache (validity c) (size_plus_one c) (next_victim c) (head_mru c) v (entries c).
Definition upd_ent (i : Z) (f : cache_entry -> cache_entry) (c : cache) : cache :=
  Cache (validity c) (size_plus_one c) (next_victim c) (head_mru c) (tail_mru c)
    (<[i := f (ent c i)]> (entries c)).
Definition set_prev (v : Z) (e : cache_entry) : cache_entry :=
  CacheEntry (obj_base e) (obj_limit e) (uniqtype e) (period e) (depth e) v (next_mru e).
Definition set_next (v : Z) (e : cache_entry) : cache_entry :=
  CacheEntry (obj_base e) (obj_limit e) (uniqtype e) (period e) (depth e) (prev_mru e) v.

(** The depth is kept in a signed short. *)
Definition int16 (x : Z) : Z := let y := wrap16 x in if y <? 2 ^ 15 then y else y - 2 ^ 16.

Definition valid (c : cache) (i : Z) : bool := Z.testbit (validity c) (i - 1).

(** ** Sanity check *)

Section ops.
Context {B : Build}.

Fixpoint visit_linear (k : nat) (i : Z) (c : cache) (visited : Z) : Z :=
  match k with
  | O => visited
  | S k => visit_linear k (i + 1) c (if valid c i then Z.lor visited (Z.shiftl 1 (i - 1)) else visited)
  end.

Fixpoint visit_list (fuel : nat) (dir : cache_entry -> Z) (i visited : Z) : M cache Z :=
  match fuel with
  | O => nofuel
  | S fuel =>
    if i =? 0 then mret visited else
    c ← gets id;
    assert (valid c i) ;;
    assert (negb (Z.testbit visited (i - 1))) ;;
    visit_list fuel dir (dir (ent c i)) (Z.lor visited (Z.shiftl 1 (i - 1)))
  end.

Definition __liballocs_check_cache_sanity : M cache unit :=
  if NDEBUG then mret tt else
  c ← gets id;
  let visited_linear := visit_linear (Z.to_nat (size_plus_one c - 1)) 1 c 0 in
  visited_mru ← visit_list 256 next_mru (head_mru c) 0;
  assert (visited_linear =? visited_mru) ;;
  visited_lru ← visit_list 256 prev_mru (tail_mru c) 0;
  assert (visited_linear =? visited_lru).

(** ** The list operations *)

Definition __liballocs_cache_unlink (i : Z) : M cache unit :=
  __liballocs_check_cache_sanity ;;
  modify (fun c => set_validity (Z.clearbit (validity c) (i - 1)) c) ;;
  modify (set_victim i) ;;
  our_next ← gets (fun c => next_mru (ent c i));
  our_prev ← gets (fun c => prev_mru (ent c i));
  when (negb (our_prev =? 0)) (modify (upd_ent our_prev (set_next our_next))) ;;
  when (negb (our_next =? 0)) (modify (upd_ent our_next (set_prev our_prev))) ;;
  h ← gets head_mru;
  when (h =? i) (modify (set_head our_next)) ;;
  t ← gets tail_mru;
  when (t =? i) (modify (set_tail our_prev)) ;;
  modify (fun c => set_validity (Z.clearbit (validity c) (i - 1)) c) ;;
  __liballocs_check_cache_sanity.

Definition __liballocs_cache_push_head_mru (i : Z) : M cache unit :=
  __liballocs_check_cache_sanity ;;
  modify (upd_ent i (set_prev 0)) ;;
  h ← gets head_mru;
  modify (upd_ent i (set_next h)) ;;
  when (negb (h =? 0)) (modify (upd_ent h (set_prev i))) ;;
  modify (set_head i) ;;
  t ← gets tail_mru;
  when (t =? 0) (modify (set_tail i)) ;;
  modify (fun c => set_validity (Z.setbit (validity c) (i - 1)) c) ;;
  __liballocs_check_cache_sanity.

Definition __liballocs_cache_bump_victim (i : Z) : M cache unit :=
  __liballocs_check_cache_sanity ;;
  c ← gets id;
  when ((next_victim c =? i) && (1 <? size_plus_one c))
    (modify (set_victim (1 + (i + 1 - 1) mod (size_plus_one c - 1)))) ;;
  __liballocs_check_cache_sanity.

Definition __liballocs_cache_bump_mru (i : Z) : M cache unit :=
  __liballocs_check_cache_sanity ;;
  c ← gets id;
  (if negb (head_mru c =? i) then
     when (valid c i) (__liballocs_cache_unlink i) ;;
     __liballocs_cache_push_head_mru i
   else mret tt) ;;
  __liballocs_check_cache_sanity.

(** ** Lookup *)

Definition in_range (obj : Z) (e : cache_entry) : bool := (obj_base e <=? obj) && (obj <? obj_limit e).
Definition period_hit (obj require_period : Z) (e : cache_entry) : bool :=
  negb (period e =? 0) && ((require_period =? 0) || (period e =? require_period)) &&
  ((obj - obj_base e) mod period e =? 0).

Definition typed_hit (obj t require_period : Z) (e : cache_entry) : bool :=
  (uniqtype e =? t) && in_range obj e && ((obj - obj_base e =? 0) || period_hit obj require_period e).
Definition notype_hit (obj require_period : Z) (e : cache_entry) : bool :=
  in_range obj e && (((obj - obj_base e =? 0) && (require_period =? 0)) || period_hit obj require_period e).

(** Returns the index of the entry, 0 for a miss. *)
Fixpoint lookup_loop (fuel : nat) (hit : cache_entry -> bool) (i : Z) : M cache Z :=
  match fuel with
  | O => nofuel
  | S fuel =>
    if i =? 0 then __liballocs_check_cache_sanity ;; mret 0 else
    c ← gets id;
    if valid c i && hit (ent c i) then __liballocs_cache_bump_mru i ;; mret i
    else lookup_loop fuel hit (next_mru (ent c i))
  end.

Definition __liballocs_memrange_cache_lookup (obj t require_period : Z) : M cache Z :=
  __liballocs_check_cache_sanity ;;
  h ← gets head_mru;
  lookup_loop 256 (typed_hit obj t require_period) h.

Definition __liballocs_memrange_cache_lookup_notype (obj require_period : Z) : M cache Z :=
  __liballocs_check_cache_sanity ;;
  h ← gets head_mru;
  lookup_loop 256 (notype_hit obj require_period) h.

Definition __liballocs_get_cached_object_type (addr : Z) : M cache Z :=
  found ← __liballocs_memrange_cache_lookup_notype addr 0;
  if negb (found =? 0) then gets (fun c => uniqtype (ent c found)) else mret 0.

(** ** Filling and flushing *)

(** [__builtin_ffs] of the 32-bit complement. *)
Fixpoint ffs_from (k : nat) (i x : Z) : Z :=
  match k with
  | O => 0
  | S k => if Z.testbit x i then i + 1 else ffs_from k (i + 1) x
  end.
Definition ffs32 (x : Z) : Z := ffs_from 32 0 x.

Definition __liballocs_cache_with_type (base limit t dep per : Z) : M cache unit :=
  __liballocs_check_cache_sanity ;;
  c ← gets id;
  let pos := ffs32 (Z.lnot (validity c)) in
  assert (pos <=? size_plus_one c) ;;
  pos ← (if pos =? size_plus_one c then
           assert (negb (tail_mru c =? 0)) ;; mret (tail_mru c)
         else mret pos);
  modify (upd_ent pos (fun e => CacheEntry base limit t (wrap16 per) (int16 dep) (prev_mru e) (next_mru e))) ;;
  __liballocs_cache_bump_mru pos ;;
  __liballocs_cache_bump_victim pos ;;
  __liballocs_check_cache_sanity.

Fixpoint uncache_loop (k : nat) (i allocptr size : Z) : M cache unit :=
  match k with
  | O => mret tt
  | S k =>
    c ← gets id;
    (if valid c i then
       __liballocs_check_cache_sanity ;;
       when ((allocptr <=? obj_base (ent c i)) && (obj_base (ent c i) <? wrap64 (allocptr + size)))
         (__liballocs_cache_unlink i ;; modify (set_victim i)) ;;
       __liballocs_check_cache_sanity
     else mret tt) ;;
    uncache_loop k (i + 1) allocptr size
  end.
Definition __liballocs_uncache_all (allocptr size : Z) : M cache unit :=
  __liballocs_check_cache_sanity ;;
  c ← gets id;
  uncache_loop (Z.to_nat (size_plus_one c - 1)) 1 allocptr size ;;
  __liballocs_check_cache_sanity.
End ops.

(** ** The invariant: the valid entries, most recently used first *)

Definition mru_seg (c : cache) (pp p q qn : Z) (l : list Z) : Prop :=
  seg (fun i => prev_mru (ent c i)) (fun i => next_mru (ent c i)) pp p q qn l.

Record mru (c : cache) (l : list Z) : Prop := {
  mru_nodup : NoDup l;
  mru_links : mru_seg c 0 (head_mru c) (tail_mru c) 0 l;
  mru_range i : i ∈ l -> 1 <= i < size_plus_one c;
  mru_valid i : 1 <= i -> valid c i = bool_decide (i ∈ l);
  mru_size : 1 < size_plus_one c <= 32;
}.

Lemma ent_upd i f c j : ent (upd_ent i f c) j = if decide (i = j) then f (ent c i) else ent c j.
Proof. unfold ent, upd_ent; simpl. rewrite lookup_insert. by case_decide. Qed.

Lemma mru_empty : mru __liballocs_ool_cache [].
Proof.
  split; [constructor|done|set_solver| |done]. intros i Hi. unfold valid; simpl.
  by rewrite Z.bits_0.
Qed.

(** ** Unlinking and pushing *)

Definition unlink_cache (i : Z) (c : cache) : cache :=
  let n := next_mru (ent c i) in
  let p := prev_mru (ent c i) in
  let c1 := if p =? 0 then c else upd_ent p (set_next n) c in
  let c2 := if n =? 0 then c1 else upd_ent n (set_prev p) c1 in
  Cache (Z.clearbit (Z.clearbit (validity c) (i - 1)) (i - 1)) (size_plus_one c) i
    (if head_mru c =? i then n else head_mru c)
    (if tail_mru c =? i then p else tail_mru c) (entries c2).

Lemma unlink_eq i c : __liballocs_cache_unlink (B := release) i c = Done (tt, unlink_cache i c).
Proof.
  unfold __liballocs_cache_unlink, unlink_cache.
  cbv [__liballocs_check_cache_sanity NDEBUG release gets modify mbind M_bind mret M_ret when].
  unfold set_validity, set_victim; cbn. unfold ent; cbn. fold (ent c i).
  destruct (prev_mru (ent c i) =? 0), (next_mru (ent c i) =? 0); cbn;
    destruct (head_mru c =? i); cbn; destruct (tail_mru c =? i); cbn; reflexivity.
Qed.
