(* ===== verification/MemrangeCacheFacts.v ===== *)
(** Correctness of the lookup cache: every operation keeps the list of valid
    entries well formed, lookup finds the most recently used hit and moves it
    to the front, filling evicts the least recently used entry, and flushing
    drops exactly the entries that begin in the flushed range. *)
From S2P Require Import Prelude DList MemrangeCache.

(** The fields of an entry other than its links. *)
Definition payload (e : cache_entry) := (obj_base e, obj_limit e, uniqtype e, period e, depth e).

Definition same_payload (c c' : cache) : Prop :=
  size_plus_one c' = size_plus_one c /\ forall i, payload (ent c' i) = payload (ent c i).

Lemma valid_clear c c' i j :
  validity c' = Z.clearbit (Z.clearbit (validity c) (i - 1)) (i - 1) ->
  valid c' j = valid c j && negb (bool_decide (i = j)).
Proof.
  intros E. unfold valid. rewrite E, !Z.clearbit_eqb, <- andb_assoc, andb_diag. f_equal. f_equal.
  destruct (Z.eqb_spec (i - 1) (j - 1)); case_bool_decide; lia || done.
Qed.

Lemma unlink_ent c i j :
  i <> j -> prev_mru (ent c i) <> i -> next_mru (ent c i) <> i ->
  (prev_mru (ent c i) <> 0 -> prev_mru (ent c i) <> next_mru (ent c i)) -> j <> 0 ->
  next_mru (ent (unlink_cache i c) j) =
    (if decide (j = prev_mru (ent c i)) then next_mru (ent c i) else next_mru (ent c j)) /\
  prev_mru (ent (unlink_cache i c) j) =
    (if decide (j = next_mru (ent c i)) then prev_mru (ent c i) else prev_mru (ent c j)).
Proof.
  intros Nij Np Nn Npn Nj. unfold unlink_cache. cbn [ent entries].
  change (ent (Cache _ _ _ _ _ (entries ?x)) j) with (ent x j).
  destruct (Z.eqb_spec (prev_mru (ent c i)) 0) as [E|E], (Z.eqb_spec (next_mru (ent c i)) 0) as [E'|E'];
    rewrite ?ent_upd; repeat case_decide; subst; cbn; try done; try congruence; try tauto.
Qed.

Lemma payload_upd i f c j :
  (forall e, payload (f e) = payload e) -> payload (ent (upd_ent i f c) j) = payload (ent c j).
Proof. intros Hf. rewrite ent_upd. case_decide; [by subst|done]. Qed.

Lemma unlink_payload c i : same_payload c (unlink_cache i c).
Proof.
  split; [done|]. intros j. unfold unlink_cache.
  change (ent (Cache _ _ _ _ _ (entries ?x)) j) with (ent x j).
  destruct (prev_mru (ent c i) =? 0), (next_mru (ent c i) =? 0); by rewrite ?payload_upd.
Qed.

Lemma same_payload_trans c1 c2 c3 : same_payload c1 c2 -> same_payload c2 c3 -> same_payload c1 c3.
Proof. intros [E P] [E' P']. split; [congruence|]. intros i. by rewrite P'. Qed.

(** The neighbours of a member. *)
Lemma seg_neighbours pv nx f q l1 i l2 :
  seg pv nx 0 f q 0 (l1 ++ i :: l2) -> pv i = last_of 0 l1 /\ nx i = first_of l2.
Proof.
  intros (j & jn & D1 & (-> & Ep & D2))%seg_app. split.
  - rewrite Ep. by apply seg_last in D1.
  - apply seg_first in D2. by destruct l2.
Qed.

Lemma last_of_mem (l : list Z) : last_of 0 l = 0 \/ last_of 0 l ∈ l.
Proof. destruct l as [|x l _] using rev_ind; [by left|]. rewrite last_of_snoc. right. set_solver. Qed.
Lemma first_of_mem (l : list Z) : first_of l = 0 \/ first_of l ∈ l.
Proof. destruct l; [by left|]. right. by left. Qed.

(** Unlinking removes the entry from the list. *)
Lemma mru_unlink c l1 i l2 : mru c (l1 ++ i :: l2) -> mru (unlink_cache i c) (l1 ++ l2).
Proof.
  intros [ND L R Va Sz]. pose proof ND as (ND1 & Hd & [Ni ND2]%NoDup_cons)%NoDup_app.
  destruct (seg_neighbours _ _ _ _ _ _ _ L) as [Ep En].
  assert (Nz : 0 ∉ l1 ++ i :: l2) by (intros H0%R; lia).
  assert (Ni1 : i ∉ l1) by (intros Hi; apply (Hd i Hi); by left).
  assert (Hp : last_of 0 l1 <> i) by (destruct (last_of_mem l1) as [->|?]; set_solver).
  assert (Hn : first_of l2 <> i) by (destruct (first_of_mem l2) as [->|?]; set_solver).
  assert (Hpn : last_of 0 l1 <> 0 -> last_of 0 l1 <> first_of l2).
  { intros N E. destruct (last_of_mem l1) as [?|H1]; [done|].
    destruct (first_of_mem l2) as [?|H2]; [congruence|]. rewrite E in H1. apply (Hd _ H1). by right. }
  assert (Hent : forall y, y ∈ l1 ++ l2 ->
    next_mru (ent (unlink_cache i c) y) = (if decide (y = prev_mru (ent c i)) then next_mru (ent c i) else next_mru (ent c y)) /\
    prev_mru (ent (unlink_cache i c) y) = (if decide (y = next_mru (ent c i)) then prev_mru (ent c i) else prev_mru (ent c y))).
  { intros y Hy. apply unlink_ent; rewrite ?Ep, ?En; try done; set_solver. }
  destruct (seg_remove (fun j => prev_mru (ent c j)) (fun j => next_mru (ent c j))
    (fun j => prev_mru (ent (unlink_cache i c) j)) (fun j => next_mru (ent (unlink_cache i c) j))
    0 (head_mru c) (tail_mru c) 0 l1 i l2) as [q' D]; try done; [by intros y Hy; apply Hent..|].
  pose proof (seg_last _ _ _ _ _ _ _ D) as Eq. pose proof (seg_last _ _ _ _ _ _ _ L) as Et.
  pose proof (seg_first _ _ _ _ _ _ _ L) as Eh. simpl in Ep, En, D.
  split; [apply NoDup_app; set_solver| | | |done].
  - unfold mru_seg. replace (head_mru (unlink_cache i c)) with (match l1 with [] => next_mru (ent c i) | _ => head_mru c end).
    2:{ simpl. rewrite Eh. destruct l1 as [|x l1]; simpl; [by rewrite Z.eqb_refl|].
        rewrite (proj2 (Z.eqb_neq x i)); [done|]. set_solver. }
    replace (tail_mru (unlink_cache i c)) with q'; [done|]. simpl. rewrite Eq, Et, Ep.
    destruct l2 as [|x l2 _] using rev_ind.
    + by rewrite app_nil_r, last_of_snoc, Z.eqb_refl.
    + rewrite app_comm_cons, !app_assoc, !last_of_snoc. rewrite (proj2 (Z.eqb_neq x i)); [done|]. set_solver.
  - intros j Hj. apply R. set_solver.
  - intros j Hj. rewrite (valid_clear c _ i) by done. rewrite Va by done.
    destruct (decide (i = j)) as [<-|N].
    + rewrite (bool_decide_eq_true_2 (i = i)), andb_false_r by done.
      symmetry. apply bool_decide_eq_false_2. set_solver.
    + rewrite (bool_decide_eq_false_2 (i = j)), andb_true_r by done. apply bool_decide_ext. set_solver.
Qed.

(** ** Pushing at the head *)

Definition push_cache (i : Z) (c : cache) : cache :=
  let c1 := upd_ent i (set_next (head_mru c)) (upd_ent i (set_prev 0) c) in
  let c2 := if head_mru c =? 0 then c1 else upd_ent (head_mru c) (set_prev i) c1 in
  Cache (Z.setbit (validity c) (i - 1)) (size_plus_one c) (next_victim c) i
    (if tail_mru c =? 0 then i else tail_mru c) (entries c2).

Lemma push_eq i c : __liballocs_cache_push_head_mru (B := release) i c = Done (tt, push_cache i c).
Proof.
  unfold __liballocs_cache_push_head_mru, push_cache.
  cbv [__liballocs_check_cache_sanity NDEBUG release gets modify mbind M_bind mret M_ret when].
  cbn. destruct (head_mru c =? 0); cbn; destruct (tail_mru c =? 0); reflexivity.
Qed.

Lemma push_payload c i : same_payload c (push_cache i c).
Proof.
  split; [done|]. intros j. unfold push_cache.
  change (ent (Cache _ _ _ _ _ (entries ?x)) j) with (ent x j).
  destruct (head_mru c =? 0); by rewrite !payload_upd.
Qed.

Lemma mru_push c l i : mru c l -> i ∉ l -> 1 <= i < size_plus_one c -> mru (push_cache i c) (i :: l).
Proof.
  intros [ND L R Va Sz] Ni Hi. assert (Nz : 0 ∉ l) by (intros H0%R; lia).
  pose proof (seg_first _ _ _ _ _ _ _ L) as Eh. pose proof (seg_last _ _ _ _ _ _ _ L) as Et.
  assert (Hhi : head_mru c <> i).
  { rewrite Eh. destruct l; simpl; [lia|]. set_solver. }
  assert (He : forall j, ent (push_cache i c) j =
    if decide (j = i) then set_next (head_mru c) (set_prev 0 (ent c i))
    else if decide (j = head_mru c /\ j <> 0) then set_prev i (ent c j) else ent c j).
  { intros j. unfold push_cache. change (ent (Cache _ _ _ _ _ (entries ?x)) j) with (ent x j).
    destruct (Z.eqb_spec (head_mru c) 0) as [E0|N0]; rewrite !ent_upd; repeat case_decide; subst;
      try done; try tauto; try congruence; exfalso; naive_solver congruence. }
  split; [by apply NoDup_cons| | | |done].
  - unfold mru_seg. simpl. split_and!; [done|by rewrite He, decide_True|].
    rewrite He, decide_True by done. cbn [next_mru set_next].
    destruct l as [|x l]; simpl in *.
    { destruct L as [-> <-]. simpl. done. }
    destruct L as (-> & _ & L). assert (x <> i) by set_solver. assert (x <> 0) by set_solver.
    apply NoDup_cons in ND as [Nx ND].
    split_and!; [done| |].
    { rewrite He, decide_False, decide_True; done. }
    replace (if tail_mru c =? 0 then i else tail_mru c) with (tail_mru c).
    2:{ destruct (Z.eqb_spec (tail_mru c) 0) as [E0|]; [|done]. exfalso.
        rewrite Et in E0. destruct l as [|y l _] using rev_ind; [by rewrite E0 in *|].
        rewrite app_comm_cons, last_of_snoc in E0. set_solver. }
    rewrite He, decide_False, decide_True by done. cbn [next_mru set_prev].
    eapply seg_ext; [|exact L]. intros y Hy. simpl.
    assert (y <> i) by set_solver. assert (y <> x) by (by intros ->).
    rewrite He, decide_False, decide_False; [done|naive_solver|done].
  - intros j [->|Hj]%elem_of_cons; [done|by apply R].
  - intros j Hj. unfold valid, push_cache. cbn [validity]. rewrite Z.setbit_eqb by lia.
    destruct (decide (i = j)) as [<-|N].
    + rewrite Z.eqb_refl. symmetry. apply bool_decide_eq_true_2. by left.
    + rewrite (proj2 (Z.eqb_neq _ _)) by lia. simpl. fold (valid c j). rewrite Va by done.
      apply bool_decide_ext. set_solver.
Qed.

(** ** Bumping to the front *)

(** [l] with [i] moved to, or put at, the front. *)
Definition to_front (i : Z) (l : list Z) : list Z := i :: filter (fun j => j <> i) l.

Lemma to_front_split i (l1 l2 : list Z) :
  NoDup (l1 ++ i :: l2) -> to_front i (l1 ++ i :: l2) = i :: l1 ++ l2.
Proof.
  intros (_ & Hd & [Ni _]%NoDup_cons)%NoDup_app. unfold to_front. f_equal.
  rewrite filter_app, filter_cons_False by naive_solver.
  rewrite !filter_id; [done| |]; intros x Hx; intros ->; [done|]. apply (Hd i Hx). by left.
Qed.

Lemma to_front_fresh i (l : list Z) : i ∉ l -> to_front i l = i :: l.
Proof. intros Ni. unfold to_front. rewrite filter_id; [done|]. by intros x Hx ->. Qed.

Lemma mru_in_valid c l i : mru c l -> 1 <= i -> valid c i = true <-> i ∈ l.
Proof. intros M Hi. rewrite (mru_valid _ _ M) by done. apply bool_decide_eq_true. Qed.

Lemma bump_ok c l i :
  mru c l -> 1 <= i < size_plus_one c ->
  exists c', __liballocs_cache_bump_mru (B := release) i c = Done (tt, c') /\
    mru c' (to_front i l) /\ same_payload c c'.
Proof.
  intros M Hi. unfold __liballocs_cache_bump_mru.
  rewrite (bind_Done _ _ c tt c), (bind_Done _ _ c c c) by done.
  pose proof (seg_first _ _ _ _ _ _ _ (mru_links _ _ M)) as Eh.
  destruct (Z.eqb_spec (head_mru c) i) as [E|N]; simpl.
  - exists c. split; [done|]. split; [|by split]. rewrite E in Eh.
    destruct l as [|x l]; simpl in Eh; [lia|]. subst x.
    pose proof (to_front_split i [] l (mru_nodup _ _ M)) as Ef. simpl in Ef. by rewrite Ef.
  - destruct (decide (i ∈ l)) as [Hl|Hl].
    + rewrite (proj2 (mru_in_valid c l i M ltac:(lia))) by done.
      apply list_elem_of_split in Hl as (l1 & l2 & ->).
      exists (push_cache i (unlink_cache i c)). split_and!.
      * unfold mbind, M_bind. simpl. by rewrite unlink_eq, push_eq.
      * rewrite to_front_split by apply M. apply mru_push; [by apply mru_unlink| |done].
        pose proof (mru_nodup _ _ M) as (_ & Hd & [Ni _]%NoDup_cons)%NoDup_app.
        intros [H1|H2]%elem_of_app; [|done]. apply (Hd i H1). by left.
      * eapply same_payload_trans; [apply unlink_payload|apply push_payload].
    + assert (valid c i = false) as ->.
      { apply not_true_is_false. by rewrite (mru_in_valid c l i M) by lia. }
      exists (push_cache i c). split_and!.
      * unfold mbind, M_bind. simpl. by rewrite push_eq.
      * rewrite to_front_fresh by done. by apply mru_push.
      * apply push_payload.
Qed.

(** ** Lookup *)

Lemma lookup_loop_ok c l hit fuel l0 l1 i pp :
  mru c l -> l = l0 ++ l1 -> mru_seg c pp i (tail_mru c) 0 l1 -> (length l1 < fuel)%nat ->
  Forall (fun j => hit (ent c j) = false) l0 ->
  (Forall (fun j => hit (ent c j) = false) l /\ lookup_loop (B := release) fuel hit i c = Done (0, c)) \/
  (exists k la lb c', l = la ++ k :: lb /\ Forall (fun j => hit (ent c j) = false) la /\ hit (ent c k) = true /\
     lookup_loop (B := release) fuel hit i c = Done (k, c') /\ mru c' (k :: la ++ lb) /\ same_payload c c').
Proof.
  intros M. revert l0 l1 i pp. induction fuel as [|fuel IH]; intros l0 l1 i pp El D Hf F0; [lia|].
  destruct l1 as [|x l1]; simpl in D.
  - destruct D as [-> _]. left. split; [by rewrite El, app_nil_r|done].
  - destruct D as (-> & _ & D). assert (Hx : x ∈ l) by (rewrite El; set_solver).
    pose proof (mru_range _ _ M x Hx) as Hr. cbn [lookup_loop].
    rewrite (proj2 (Z.eqb_neq x 0)), (bind_Done _ _ c c c) by (done || lia).
    rewrite (proj2 (mru_in_valid c l x M ltac:(lia)) Hx). simpl.
    destruct (hit (ent c x)) eqn:Eh.
    + right. destruct (bump_ok c l x M Hr) as (c' & E & M' & P). exists x, l0, l1, c'.
      split_and!; [done|done|done| |by rewrite El, to_front_split in M' by (rewrite <- El; apply M)|done].
      by rewrite (bind_Done _ _ _ _ _ E).
    + apply (IH (l0 ++ [x]) l1 _ x); [by rewrite <- app_assoc|done|simpl in Hf; lia|].
      apply Forall_app. split; [done|]. by constructor.
Qed.

Lemma mru_length c l : mru c l -> (length l < 256)%nat.
Proof.
  intros M. assert (length l <= length (seqZ 1 31))%nat as Hle.
  { apply submseteq_length, NoDup_submseteq; [apply M|]. intros x Hx. rewrite elem_of_seqZ.
    pose proof (mru_range _ _ M x Hx). pose proof (mru_size _ _ M). lia. }
  rewrite length_seqZ in Hle. lia.
Qed.

(** The first valid entry, in order of use, that satisfies the test. *)
Lemma cache_search c l hit :
  mru c l ->
  (Forall (fun j => hit (ent c j) = false) l /\
   lookup_loop (B := release) 256 hit (head_mru c) c = Done (0, c)) \/
  (exists k la lb c', l = la ++ k :: lb /\ Forall (fun j => hit (ent c j) = false) la /\ hit (ent c k) = true /\
     lookup_loop (B := release) 256 hit (head_mru c) c = Done (k, c') /\
     mru c' (k :: la ++ lb) /\ same_payload c c').
Proof.
  intros M. apply (lookup_loop_ok c l hit 256 [] l (head_mru c) 0); [done|done|apply M| |constructor].
  by apply (mru_length c).
Qed.

(** ** Filling *)

Lemma ffs_from_spec k i x :
  (ffs_from k i x = 0 /\ forall j, i <= j < i + Z.of_nat k -> Z.testbit x j = false) \/
  (i < ffs_from k i x <= i + Z.of_nat k /\ Z.testbit x (ffs_from k i x - 1) = true /\
   forall j, i <= j < ffs_from k i x - 1 -> Z.testbit x j = false).
Proof.
  revert i. induction k as [|k IH]; intros i; cbn [ffs_from]; [left; split; [done|lia]|].
  destruct (Z.testbit x i) eqn:E.
  - right. split_and!; [lia..|by replace (i + 1 - 1) with i by lia|lia].
  - destruct (IH (i + 1)) as [[-> Hn]|(Hr & Ht & Hn)]; [left|right].
    + split; [done|]. intros j Hj. destruct (decide (j = i)) as [->|]; [done|]. apply Hn. lia.
    + split_and!; [lia..|done|]. intros j Hj. destruct (decide (j = i)) as [->|]; [done|]. apply Hn. lia.
Qed.

(** The slot chosen: a free one if there is one, else the least recently used. *)
Definition chosen_slot (c : cache) (l : list Z) (pos : Z) : Prop :=
  1 <= pos < size_plus_one c /\
  ((pos ∉ l) \/ ((forall i, 1 <= i < size_plus_one c -> i ∈ l) /\ l <> [] /\ last_of 0 l = pos)).

Lemma slot_choice c l :
  mru c l ->
  let pos := ffs32 (Z.lnot (validity c)) in
  chosen_slot c l (if pos =? size_plus_one c then tail_mru c else pos).
Proof.
  intros M pos. pose proof (mru_size _ _ M) as Sz.
  assert (Hv : forall j, 0 <= j -> Z.testbit (Z.lnot (validity c)) j = negb (bool_decide (j + 1 ∈ l))).
  { intros j Hj. rewrite Z.lnot_spec by done. f_equal.
    pose proof (mru_valid _ _ M (j + 1) ltac:(lia)) as E. unfold valid in E.
    by replace (j + 1 - 1) with j in E by lia. }
  destruct (ffs_from_spec 32 0 (Z.lnot (validity c))) as [[E Hn]|(Hr & Ht & Hn)]; fold (ffs32 (Z.lnot (validity c))) in *; fold pos in E || idtac.
  - exfalso. specialize (Hn 31 ltac:(lia)). rewrite Hv in Hn by lia.
    apply negb_false_iff, bool_decide_eq_true in Hn. pose proof (mru_range _ _ M _ Hn). lia.
  - fold pos in Hr, Ht, Hn. rewrite Hv in Ht by lia. replace (pos - 1 + 1) with pos in Ht by lia.
    apply negb_true_iff, bool_decide_eq_false in Ht.
    assert (Hall : forall i, 1 <= i < pos -> i ∈ l).
    { intros i Hi. specialize (Hn (i - 1) ltac:(lia)). rewrite Hv in Hn by lia.
      replace (i - 1 + 1) with i in Hn by lia. by apply negb_false_iff, bool_decide_eq_true in Hn. }
    destruct (Z.eqb_spec pos (size_plus_one c)) as [Ep|Np].
    + pose proof (seg_last _ _ _ _ _ _ _ (mru_links _ _ M)) as Et.
      assert (Nl : l <> []). { intros ->. apply (not_elem_of_nil 1). apply Hall. lia. }
      assert (Hin : tail_mru c ∈ l).
      { rewrite Et. destruct l as [|x l _] using rev_ind; [done|]. rewrite last_of_snoc. set_solver. }
      split; [by apply (mru_range _ _ M)|]. right. split_and!; [|done|done]. intros i Hi. apply Hall. lia.
    + destruct (decide (pos < size_plus_one c)); [split; [lia|by left]|]. exfalso.
      pose proof (mru_range _ _ M (size_plus_one c) (Hall (size_plus_one c) ltac:(lia))). lia.
Qed.

(** Overwriting the contents of a slot keeps the list. *)
Lemma mru_overwrite c l pos f :
  (forall e, prev_mru (f e) = prev_mru e /\ next_mru (f e) = next_mru e) -> mru c l -> mru (upd_ent pos f c) l.
Proof.
  intros Hf [ND L R Va Sz]. split; try done. unfold mru_seg in *.
  eapply seg_ext; [|exact L]. intros x Hx. simpl. rewrite ent_upd.
  case_decide; [subst; destruct (Hf (ent c x)); done|done].
Qed.

Lemma cache_with_type_ok c l base limit t dep per :
  mru c l ->
  exists pos c', __liballocs_cache_with_type (B := release) base limit t dep per c = Done (tt, c') /\
    chosen_slot c l pos /\ mru c' (to_front pos l) /\
    payload (ent c' pos) = (base, limit, t, wrap16 per, int16 dep) /\
    (forall i, i <> pos -> payload (ent c' i) = payload (ent c i)).
Proof.
  intros M. pose proof (slot_choice c l M) as Hsl. cbv zeta in Hsl.
  set (p0 := ffs32 (Z.lnot (validity c))) in *. set (pos := if p0 =? size_plus_one c then tail_mru c else p0) in *.
  exists pos. set (f := fun e => CacheEntry base limit t (wrap16 per) (int16 dep) (prev_mru e) (next_mru e)).
  pose proof (mru_overwrite c l pos f ltac:(done) M) as M1. set (c1 := upd_ent pos f c) in *.
  destruct (bump_ok c1 l pos M1 (proj1 Hsl)) as (c2 & E2 & M2 & S2 & P2).
  set (c3 := if (next_victim c2 =? pos) && (1 <? size_plus_one c2)
             then set_victim (1 + (pos + 1 - 1) mod (size_plus_one c2 - 1)) c2 else c2).
  exists c3. assert (He : forall i, ent c3 i = ent c2 i) by (intros i; unfold c3; by case_match).
  split_and!; [|done| | |].
  - unfold __liballocs_cache_with_type. rewrite (bind_Done _ _ c tt c), (bind_Done _ _ c c c), (bind_Done _ _ c tt c) by done.
    fold p0. rewrite (bind_Done _ _ c pos c) by (unfold pos; by case_match).
    rewrite (bind_Done _ _ c tt c1), (bind_Done _ _ _ _ _ E2) by done.
    rewrite (bind_Done _ _ c2 tt c3); [done|].
    unfold __liballocs_cache_bump_victim, c3. rewrite (bind_Done _ _ c2 tt c2), (bind_Done _ _ c2 c2 c2) by done.
    by case_match.
  - destruct M2 as [ND L R Va Sz]. unfold c3. case_match; by split.
  - rewrite He, P2. unfold c1. rewrite ent_upd, decide_True; done.
  - intros i Hi. rewrite He, P2. unfold c1. rewrite ent_upd, decide_False; congruence.
Qed.

(** ** Flushing *)

Definition begins_in (allocptr size : Z) (e : cache_entry) : bool :=
  (allocptr <=? obj_base e) && (obj_base e <? wrap64 (allocptr + size)).

Lemma uncache_loop_ok allocptr size k i c l :
  mru c l -> 1 <= i -> i + Z.of_nat k = size_plus_one c ->
  exists c' l', uncache_loop (B := release) k i allocptr size c = Done (tt, c') /\ mru c' l' /\
    l' = filter (fun j => ~ (i <= j /\ begins_in allocptr size (ent c j) = true)) l /\ same_payload c c'.
Proof.
  revert i c l. induction k as [|k IH]; intros i c l M Hi Hk.
  - exists c, l. split_and!; [done|done| |by split]. symmetry. apply filter_id. intros x Hx [Hge _].
    pose proof (mru_range _ _ M x Hx). lia.
  - cbn [uncache_loop]. rewrite (bind_Done _ _ c c c) by done.
    assert (Hstep : exists c1 l1, (if valid c i then
        __liballocs_check_cache_sanity (B := release) ;;
        when ((allocptr <=? obj_base (ent c i)) && (obj_base (ent c i) <? wrap64 (allocptr + size)))
          (__liballocs_cache_unlink (B := release) i ;; modify (set_victim i)) ;;
        __liballocs_check_cache_sanity (B := release)
      else mret tt) c = Done (tt, c1) /\ mru c1 l1 /\
      l1 = filter (fun j => ~ (j = i /\ begins_in allocptr size (ent c j) = true)) l /\ same_payload c c1).
    { destruct (decide (i ∈ l)) as [Hl|Hl].
      - rewrite (proj2 (mru_in_valid c l i M Hi) Hl). rewrite (bind_Done _ _ c tt c) by done.
        fold (begins_in allocptr size (ent c i)). destruct (begins_in allocptr size (ent c i)) eqn:Eb.
        + apply list_elem_of_split in Hl as (la & lb & ->).
          exists (set_victim i (unlink_cache i c)), (la ++ lb). split_and!.
          * rewrite (bind_Done _ _ c tt (set_victim i (unlink_cache i c))); [done|].
            simpl. unfold mbind, M_bind. by rewrite unlink_eq.
          * destruct (mru_unlink _ _ _ _ M). by split.
          * rewrite filter_app, filter_cons_False by naive_solver.
            pose proof (mru_nodup _ _ M) as (_ & Hd & [Ni _]%NoDup_cons)%NoDup_app.
            rewrite !filter_id; [done| |]; intros x Hx [-> _]; [done|]. apply (Hd i Hx). by left.
          * destruct (unlink_payload c i). by split.
        + exists c, l. split_and!; [done|done| |by split]. symmetry. apply filter_id.
          intros x Hx [-> ?]. congruence.
      - assert (valid c i = false) as -> by (apply not_true_is_false; by rewrite (mru_in_valid c l i M)).
        exists c, l. split_and!; [done|done| |by split]. symmetry. apply filter_id. by intros x Hx [-> _]. }
    destruct Hstep as (c1 & l1 & E1 & M1 & El1 & [S1 P1]). rewrite (bind_Done _ _ _ _ _ E1).
    destruct (IH (i + 1) c1 l1 M1 ltac:(lia) ltac:(rewrite S1; lia)) as (c' & l' & E' & M' & El' & SP').
    exists c', l'. split_and!; [done|done| |by eapply same_payload_trans; [split|]].
    assert (Hbi : forall j, begins_in allocptr size (ent c1 j) = begins_in allocptr size (ent c j)).
    { intros j. unfold begins_in. specialize (P1 j). unfold payload in P1. by injection P1 as -> _ _ _ _. }
    rewrite El', El1, list_filter_filter. apply list_filter_iff. intros j.
    destruct (decide (j = i)) as [->|N]; rewrite Hbi; [|].
    + split; [intros [_ A] [_ B]; naive_solver|]. intros A. split; [lia|]. naive_solver lia.
    + split; [intros [A _] [? ?]; apply A; split; [lia|done]|]. intros A. split; [|naive_solver]. intros [? ?]. apply A. split; [lia|done].
Qed.
