(* ===== verification/TableTheorems.v ===== *)
(** The contract of the tables keyed on addresses: the index of small
    objects, memtables, and the cache of recently used ranges. *)
From S2P Require Import Prelude DList Vas BigAlloc MallocMeta GenericSmall GenericSmallFacts MemTable.
From S2P Require Import MemrangeCache MemrangeCacheFacts.

(** ** The index of small objects *)

Section small.
Context {SE : SmallEnv} (begin_ : Z).

(** C13.  Indexing a small object that stays within its bucket and then
    looking up any of its bytes in the same bucket finds the object's start,
    its size and the entry appended to the bucket.  The object has from 1 to
    255 bytes, its site is a user address below [2^47], the bucket has a free
    layer, and of the entries already there none continues an object of an
    earlier bucket and none spans the address. *)
Theorem small_index_then_lookup c b l r site ptr size r' m :
  in_bucket begin_ c b r ptr -> in_bucket begin_ c b r' m -> bucket c b l -> Z.of_nat (length l) < NLAYERS c ->
  0 < size < 256 -> r + size <= 2 ^ log_pitch c -> 0 < site -> SMALL_MINIMUM_USER_ADDRESS <= site < 2 ^ 47 ->
  ptr <= m < ptr + size ->
  (forall x, x ∈ l -> ENTRY_IS_CONTINUATION x = false /\ entry_spans begin_ c b x m = false) ->
  exists c', index_small_alloc_internal (B := release) begin_ site ptr size c = Done (2, c') /\
    lookup_small_alloc (B := release) begin_ m c' = Done (Some (ptr, Some size, slot c b (length l)), c').
Proof. apply index_lookup_ok. Qed.

(** Unindexing removes exactly one entry of the object's bucket, closes
    the gap it leaves in the layers above, and leaves the next bucket alone
    when it holds no continuation. *)
Lemma small_unindex_closes_gap c b l l' k :
  0 <= b -> b + 1 < ENTRIES_PER_LAYER c -> bucket c b l -> bucket c (b + 1) l' -> (k < length l)%nat ->
  (forall x, x ∈ l' -> ENTRY_IS_CONTINUATION x = false) ->
  exists c', unindex_small_alloc_internal_with_ent (B := release) begin_ (slot c b k) c = Done (tt, c') /\
    bucket c' b (delete k l) /\ bucket c' (b + 1) l'.
Proof. apply unindex_ok. Qed.
End small.

(** ** Memtables *)

Section memtable.
Context {ME : MemtableEnv} {B : Build}.

(** The entry of an address lies in the table, and the range the entry
    stands for holds the address: going from address to entry and back rounds
    down to the entry's coverage, and the offset is the remainder. *)
Lemma memtable_round_trip memtable sz cov b e addr :
  memtable_ok memtable sz cov b e -> b <= addr < e ->
  exists p base, memtable_addr memtable sz cov b e addr tt = Done (p, tt) /\
    memtable <= p <= memtable + ((e - b) / cov - 1) * sz /\
    memtable_addr_range_base memtable sz cov b e addr tt = Done (base, tt) /\
    base <= addr < base + cov /\ (base - b) mod cov = 0 /\
    memtable_addr_range_offset memtable sz cov b e addr tt = Done ((addr - b) mod cov, tt).
Proof.
  intros Ok Ha. pose proof (memtable_addr_ok memtable sz cov b e addr Ok Ha) as E1.
  pose proof (memtable_entry_range_base_ok memtable sz cov b e addr Ok Ha) as E2.
  pose proof (memtable_index_range memtable sz cov b e addr Ok Ha) as Hi.
  set (i := (addr - b) / cov) in *. pose proof Ok as [Hs Hc Hb He _ _].
  pose proof (Z.div_mod (addr - b) cov ltac:(lia)) as D. fold i in D.
  pose proof (Z.mod_pos_bound (addr - b) cov ltac:(lia)).
  exists (memtable + sz * i), (b + cov * i).
  assert (E3 : memtable_addr_range_base memtable sz cov b e addr tt = Done (b + cov * i, tt)).
  { unfold memtable_addr_range_base. rewrite (bind_Done _ _ _ _ _ E1). by rewrite E2. }
  split_and!; [done|nia|nia|done|lia|lia| |].
  - replace (b + cov * i - b) with (i * cov) by lia. apply Z.mod_mul. lia.
  - unfold memtable_addr_range_offset. rewrite (bind_Done _ _ _ _ _ E3).
    replace (addr - (b + cov * i)) with ((addr - b) mod cov) by lia. rewrite to_signed64_small by lia. done.
Qed.
End memtable.

(** ** The cache of recently used ranges *)

(** C14.  Filling the cache overwrites a free slot, or the least recently used
    one when all are taken; the slot becomes the most recently used, the list
    stays well formed, and no other entry's contents change. *)
Theorem cache_fill c l base limit t dep per :
  mru c l ->
  exists pos c', __liballocs_cache_with_type (B := release) base limit t dep per c = Done (tt, c') /\
    chosen_slot c l pos /\ mru c' (to_front pos l) /\
    payload (ent c' pos) = (base, limit, t, wrap16 per, int16 dep) /\
    (forall i, i <> pos -> payload (ent c' i) = payload (ent c i)).
Proof. apply cache_with_type_ok. Qed.

(** A cached range answers for the type of its base address at once. *)
Lemma cached_type_found c l base limit t dep per :
  mru c l -> base < limit ->
  exists c' c'', __liballocs_cache_with_type (B := release) base limit t dep per c = Done (tt, c') /\
    __liballocs_get_cached_object_type (B := release) base c' = Done (t, c'').
Proof.
  intros M Hb. destruct (cache_with_type_ok c l base limit t dep per M) as (pos & c' & E & _ & M' & P & _).
  assert (Hhit : notype_hit base 0 (ent c' pos) = true).
  { unfold payload in P. injection P as P1 P2 _ _ _. unfold notype_hit, in_range. rewrite P1, P2, Z.sub_diag.
    rewrite Z.leb_refl, (proj2 (Z.ltb_lt _ _)) by done. done. }
  destruct (cache_search c' _ (notype_hit base 0) M') as [[F _]|(k & la & lb & c'' & El & F & _ & El' & _ & [_ P'])].
  - apply Forall_cons in F as [F _]. congruence.
  - destruct la as [|x la]; simpl in El; injection El as <- _; [|apply Forall_cons in F as [F _]; congruence].
    exists c', c''. split; [done|]. unfold __liballocs_get_cached_object_type, __liballocs_memrange_cache_lookup_notype.
    assert (Hpos : 1 <= pos) by (apply (mru_range _ _ M'); by left).
    erewrite bind_Done; [|by rewrite (bind_Done _ _ c' tt c'), (bind_Done _ _ c' (head_mru c') c') by done].
    rewrite (proj2 (Z.eqb_neq pos 0)) by lia. cbn [negb]. unfold gets.
    specialize (P' pos). rewrite P in P'. injection P' as _ _ -> _ _. done.
Qed.

(** C8.  A typed lookup returns the most recently used entry that spans the
    address with the right type and phase, and moves it to the front of the
    list with no entry's contents changed; it returns 0 and changes nothing
    when there is no such entry. *)
Theorem cache_lookup c l obj t per :
  mru c l ->
  (Forall (fun j => typed_hit obj t per (ent c j) = false) l /\
   __liballocs_memrange_cache_lookup (B := release) obj t per c = Done (0, c)) \/
  (exists k la lb c', l = la ++ k :: lb /\ Forall (fun j => typed_hit obj t per (ent c j) = false) la /\
     typed_hit obj t per (ent c k) = true /\
     __liballocs_memrange_cache_lookup (B := release) obj t per c = Done (k, c') /\
     mru c' (k :: la ++ lb) /\ same_payload c c').
Proof. intros M. apply (cache_search c l (typed_hit obj t per) M). Qed.

(** Flushing a range drops exactly the entries that begin in it and
    keeps the others in their order of use. *)
Lemma cache_flush c l allocptr size :
  mru c l ->
  exists c', __liballocs_uncache_all (B := release) allocptr size c = Done (tt, c') /\
    mru c' (filter (fun j => begins_in allocptr size (ent c j) <> true) l) /\ same_payload c c'.
Proof.
  intros M. pose proof (mru_size _ _ M).
  destruct (uncache_loop_ok allocptr size (Z.to_nat (size_plus_one c - 1)) 1 c l M ltac:(lia) ltac:(lia))
    as (c' & l' & E & M' & El & P). exists c'. split_and!; [| |done].
  - unfold __liballocs_uncache_all. rewrite (bind_Done _ _ c tt c), (bind_Done _ _ c c c) by done.
    by rewrite (bind_Done _ _ _ _ _ E).
  - replace (filter _ l) with l'; [done|]. rewrite El. apply filter_ext_in. intros j Hj.
    pose proof (mru_range _ _ M j Hj). naive_solver lia.
Qed.

(** ** The theorems at concrete inputs *)

#[export] Instance demo_small_env : SmallEnv := {|
  next_power_of_two_ge n := 2 ^ Z.log2_up n;
  integer_log2 := Z.log2;
  SMALL_MINIMUM_USER_ADDRESS := 0x400000;
  ADDR_BITSIZE := 48;
  generic_small_allocator := 99;
  small_find_allocsite_entry_at _ := None;
  allocator_get_info _ _ := mret None;
  allocator_ensure_big _ _ _ := mret 0;
|}.

(** The record made for a 64 KiB arena of 64-byte objects: 1024 buckets, 64 layers. *)
Definition demo_chunk : chunk_rec :=
  match make_suballocated_chunk (B := debug) 0x10000 64 tt with Done (c, _) => c | _ => zero_chunk_rec end.

Lemma demo_chunk_eq : demo_chunk = ChunkRec ∅ 0x10000 6 8192 0.
Proof. reflexivity. Qed.

Lemma demo_bucket_nil b : bucket demo_chunk b [].
Proof. rewrite demo_chunk_eq. by split. Qed.

Lemma demo_in_bucket c b r : log_pitch c = 6 -> 0 <= r < 64 -> 0 <= b < 1024 ->
  in_bucket 0x10000 c b r (0x10000 + b * 64 + r).
Proof. intros E Hr Hb. split; rewrite ?E; change (2 ^ 6) with 64; lia. Qed.

(** One object at 0x100c0, in the bucket the second one goes to. *)
Definition demo_chunk1 : chunk_rec :=
  set_biggest (Z.max 0 16) (set_entry (slot demo_chunk 3 0) (fresh_entry 0x401234 0 16) demo_chunk).

Lemma demo_bucket1 : bucket demo_chunk1 3 ([] ++ [fresh_entry 0x401234 0 16]).
Proof.
  apply (index_small_bucket 0x10000 demo_chunk 3 [] 0 0x401234 0x100c0 16);
    [by apply (demo_in_bucket demo_chunk 3 0)|apply demo_bucket_nil|by vm_compute..].
Qed.

Lemma demo_bucket1_next : bucket demo_chunk1 4 [].
Proof.
  split; [done| |done|done]. intros k _. unfold entry_at. change (ENTRIES_PER_LAYER demo_chunk1) with 1024.
  unfold demo_chunk1, slot. cbn [set_biggest set_entry metadata_recs]. rewrite lookup_insert_ne.
  - rewrite demo_chunk_eq. cbn [metadata_recs]. by rewrite lookup_empty.
  - change (ENTRIES_PER_LAYER (set_biggest _ _)) with 1024. change (ENTRIES_PER_LAYER demo_chunk) with 1024. lia.
Qed.

Lemma small_index_then_lookup_witness :
  exists c', index_small_alloc_internal (B := release) 0x10000 0x405678 0x100d0 20 demo_chunk1 = Done (2, c') /\
    lookup_small_alloc (B := release) 0x10000 0x100d7 c' = Done (Some (0x100d0, Some 20, slot demo_chunk1 3 1), c').
Proof.
  apply (small_index_then_lookup 0x10000 demo_chunk1 3 [fresh_entry 0x401234 0 16] 16 0x405678 0x100d0 20 23 0x100d7).
  - by apply (demo_in_bucket demo_chunk1 3 16).
  - by apply (demo_in_bucket demo_chunk1 3 23).
  - apply demo_bucket1.
  - reflexivity.
  - split; reflexivity.
  - discriminate.
  - reflexivity.
  - split; [discriminate|reflexivity].
  - split; [discriminate|reflexivity].
  - intros x ->%list_elem_of_singleton. split; reflexivity.
Defined.

Lemma small_unindex_closes_gap_demo :
  exists c', unindex_small_alloc_internal_with_ent (B := release) 0x10000 (slot demo_chunk1 3 0) demo_chunk1 = Done (tt, c') /\
    bucket c' 3 (delete 0%nat [fresh_entry 0x401234 0 16]) /\ bucket c' (3 + 1) [].
Proof.
  apply (small_unindex_closes_gap 0x10000 demo_chunk1 3 [fresh_entry 0x401234 0 16] [] 0).
  - discriminate.
  - reflexivity.
  - apply demo_bucket1.
  - apply demo_bucket1_next.
  - apply Nat.lt_0_1.
  - intros x Hx. destruct (not_elem_of_nil x Hx).
Defined.

#[export] Instance demo_memtable_env : MemtableEnv := {|
  mt_integer_log2 := Z.log2;
  mt_is_power_of_two n := (0 <? n) && (Z.land n (n - 1) =? 0);
  mt_mmap hint _ := if hint =? 0 then 0x7000000 else hint;
  mt_munmap _ _ := 0;
|}.

Lemma memtable_round_trip_demo :
  exists p base, memtable_addr (B := debug) 0x7000000 2 4096 0x10000 0x90000 0x12345 tt = Done (p, tt) /\
    0x7000000 <= p <= 0x7000000 + ((0x90000 - 0x10000) / 4096 - 1) * 2 /\
    memtable_addr_range_base (B := debug) 0x7000000 2 4096 0x10000 0x90000 0x12345 tt = Done (base, tt) /\
    base <= 0x12345 < base + 4096 /\ (base - 0x10000) mod 4096 = 0 /\
    memtable_addr_range_offset (B := debug) 0x7000000 2 4096 0x10000 0x90000 0x12345 tt =
      Done ((0x12345 - 0x10000) mod 4096, tt).
Proof. apply (memtable_round_trip 0x7000000 2 4096 0x10000 0x90000 0x12345); [split; by vm_compute|by vm_compute]. Defined.

(** A cache with two entries. *)
Definition demo_cache : cache :=
  match (__liballocs_cache_with_type (B := release) 0x1000 0x2000 5 0 8 ;;
         __liballocs_cache_with_type (B := release) 0x3000 0x4000 6 0 16) __liballocs_ool_cache with
  | Done (_, c) => c
  | _ => __liballocs_ool_cache
  end.

Lemma demo_cache_mru : mru demo_cache [2; 1].
Proof.
  split.
  - by apply (bool_decide_unpack _).
  - by vm_compute.
  - intros i Hi. repeat (apply elem_of_cons in Hi as [->|Hi]; [by vm_compute|]). destruct (not_elem_of_nil i Hi).
  - intros i Hi. destruct (decide (i <= 2)).
    + assert (i = 1 \/ i = 2) as [->| ->] by lia; reflexivity.
    + rewrite bool_decide_eq_false_2 by set_solver by lia. unfold valid. change (validity demo_cache) with 3.
      apply Z.bits_above_log2; [lia|]. change (Z.log2 3) with 1. lia.
  - by vm_compute.
Qed.

Lemma cache_fill_witness :
  exists pos c', __liballocs_cache_with_type (B := release) 0x5000 0x6000 7 0 4 demo_cache = Done (tt, c') /\
    chosen_slot demo_cache [2; 1] pos /\ mru c' (to_front pos [2; 1]) /\
    payload (ent c' pos) = (0x5000, 0x6000, 7, wrap16 4, int16 0) /\
    (forall i, i <> pos -> payload (ent c' i) = payload (ent demo_cache i)).
Proof. apply (cache_fill demo_cache [2; 1] 0x5000 0x6000 7 0 4), demo_cache_mru. Defined.

Lemma cached_type_found_demo :
  exists c' c'', __liballocs_cache_with_type (B := release) 0x5000 0x6000 7 0 4 demo_cache = Done (tt, c') /\
    __liballocs_get_cached_object_type (B := release) 0x5000 c' = Done (7, c'').
Proof. apply (cached_type_found demo_cache [2; 1] 0x5000 0x6000 7 0 4); [apply demo_cache_mru|reflexivity]. Defined.

Lemma cache_lookup_witness :
  (Forall (fun j => typed_hit 0x1008 5 8 (ent demo_cache j) = false) [2; 1] /\
   __liballocs_memrange_cache_lookup (B := release) 0x1008 5 8 demo_cache = Done (0, demo_cache)) \/
  (exists k la lb c', [2; 1] = la ++ k :: lb /\ Forall (fun j => typed_hit 0x1008 5 8 (ent demo_cache j) = false) la /\
     typed_hit 0x1008 5 8 (ent demo_cache k) = true /\
     __liballocs_memrange_cache_lookup (B := release) 0x1008 5 8 demo_cache = Done (k, c') /\
     mru c' (k :: la ++ lb) /\ same_payload demo_cache c').
Proof. apply (cache_lookup demo_cache [2; 1] 0x1008 5 8), demo_cache_mru. Defined.

Lemma cache_flush_demo :
  exists c', __liballocs_uncache_all (B := release) 0x1000 0x800 demo_cache = Done (tt, c') /\
    mru c' (filter (fun j => begins_in 0x1000 0x800 (ent demo_cache j) <> true) [2; 1]) /\ same_payload demo_cache c'.
Proof. apply (cache_flush demo_cache [2; 1] 0x1000 0x800), demo_cache_mru. Defined.
