(* ===== verification/SequenceTheorems.v ===== *)
(** The contract of the indexes over static data: packed sequences and the
    identifiers of allocation sites. *)
From S2P Require Import Prelude Vas Bitmap PackedSeq PackedSeqFacts AllocSites.

(** ** Packed sequences *)

Section sequences.
Context {V : Vas} {VL : VasLaws V} {B : Build} {BM : Bitmap} {BL : BitmapLaws BM} {E : SeqEnv}.
Context (fam : packed_sequence_family) (b e arg : Z) {SL : SeqLaws fam b e arg}.

(** C15.  Caching up to an offset terminates without a failed assertion, keeps
    what was cached, and leaves the bitmap and the metavector describing
    exactly the elements enumerated so far, up to the offset or beyond. *)
Theorem sequence_cache l s off :
  (forall n, realloc_ok n = true) -> cached fam b e arg l s -> 0 <= off <= e - b ->
  exists s' l', ensure_cached_up_to fam b e off s = Done (tt, s') /\
    cached fam b e arg (l ++ l') s' /\ off <= offset_cached_up_to s'.
Proof. intros R. by apply ensure_cached_ok. Qed.

(** A query for any address of the region, in a family with a
    metavector, finds the element around it: its base, its type and its size
    as the family's enumeration gives them.  In a family without a metavector,
    such as the null-terminated strings, the same query succeeds with a null
    base and a size of [(unsigned long) -1], wherever the element around the
    address begins. *)
Lemma sequence_get_info l s o :
  (forall n, realloc_ok n = true) -> cached fam b e arg l s -> b <= o < e ->
  (WITH_ENT fam <> no_ent ->
   (forall p, b <= p < e -> p mod 2 ^ log2_align fam = 0 -> fits_rec fam e arg p) ->
   exists s' l' p, get_info fam b e o s =
       Done (Some (SeqInfo (FIXUP_T (type_at fam e arg p) (size_at fam e arg p)) p (size_at fam e arg p)), s') /\
     cached fam b e arg (l ++ l') s' /\ p ∈ l ++ l' /\ p <= o < p + size_at fam e arg p) /\
  (WITH_ENT fam = no_ent ->
   exists s' l', get_info fam b e o s = Done (Some (SeqInfo (FIXUP_T 0 (2 ^ 64 - 1)) 0 (2 ^ 64 - 1)), s') /\
     cached fam b e arg (l ++ l') s').
Proof. intros R C Ho. split; intros; [by apply get_info_found|by apply get_info_no_metavector]. Qed.
End sequences.

(** The [sz] bytes at [p] are one string of a region that ends at [e]. *)
Definition is_string (byte_at : Z -> Z) (e p sz : Z) : Prop :=
  0 < sz <= e - p /\ (forall a, p <= a < p + sz - 1 -> byte_at a <> 0) /\
  (p + sz < e -> byte_at (p + sz - 1) = 0).

Section strings.
Context {V : Vas} {VL : VasLaws V} {B : Build} {BM : Bitmap} {BL : BitmapLaws BM} {E : SeqEnv}.
Context (byte_at : Z -> Z) (ARR0 : Z).

Abbreviation strings := (__string8_nulterm_packed_sequence byte_at ARR0).

(** C16.  A walk over a section of null-terminated strings reports every
    string once, in order and counted from 1, with the array type made for its
    size; the strings reported are the partition of the section at its null
    bytes. *)
Theorem walk_reports_strings b e arg cb l s :
  0 <= b < e -> e - b < 2 ^ 31 -> e < 2 ^ 47 -> (forall n, realloc_ok n = true) -> (forall c, cb c = 0) ->
  cached strings b e arg l s ->
  exists s' l', walk_allocations strings b e cb 0 0 s = Done ((0, walk_calls strings e arg 0 l'), s') /\
    chain strings b e arg b e l' /\ Forall (fun p => is_string byte_at e p (size_at strings e arg p)) l'.
Proof.
  intros Hb Hsz He R Hcb C. pose proof (string8_laws byte_at ARR0 b e arg ltac:(lia) Hsz He) as SL.
  destruct (walk_all_ok R strings b e arg cb l s Hcb eq_refl ltac:(lia) C) as (s' & l' & Ew & C' & Hch).
  exists s', (l ++ l'). split_and!; [done..|]. apply Forall_forall. intros p Hp.
  destruct (chain_elem _ _ _ _ _ _ _ _ Hch Hp) as (_ & Hr & _).
  destruct (string8_element byte_at ARR0 p e arg) as (sz & Ee & Hs); [lia..|].
  unfold size_at. cbn [enumerate __string8_nulterm_packed_sequence]. by rewrite Ee.
Qed.
End strings.

(** ** Allocation sites *)

Section sites.
Context {B : Build} {E : SiteEnv} {SL : SiteLaws E}.

(** C17.  Registering an object with allocation sites gives it the next slot
    and the identifiers from [next_start] on, after the last ones issued, so
    that the spine stays sorted and contiguous.  While the identifiers reach at
    most 2^16 the [i]th site gets [next_start + i], which no earlier site has.
    The registration that crosses 2^16 is not refused: its sites past that get
    identifiers from 0 on, which earlier sites have.  Only a registration after
    2^16 identifiers were issued or passed ends the program.  The object has a
    vector of 1 to 2^16 - 1 sites, and a slot is free. *)
Theorem register_sites s file sym :
  spine_ok s -> allocsites_symbol (file_of file) = Some sym ->
  slot_next_free s < ALLOCSITES_INDEX_SIZE -> 0 < nsites sym < 2 ^ 16 ->
  (next_start s < 2 ^ 16 ->
   let s' := registered s file sym in
   init_allocsites_info file s = Done (tt, s') /\ spine_ok s' /\ next_start s' = next_start s + nsites sym /\
   (forall i site, nth_site file sym i site ->
      (next_start s + Z.of_nat i < 2 ^ 16 -> __liballocs_allocsite_id site s' = Done (next_start s + Z.of_nat i, s')) /\
      (2 ^ 16 <= next_start s + Z.of_nat i ->
       __liballocs_allocsite_id site s' = Done (next_start s + Z.of_nat i - 2 ^ 16, s') /\
       0 <= next_start s + Z.of_nat i - 2 ^ 16 < next_start s))) /\
  (2 ^ 16 <= next_start s -> init_allocsites_info file s = Abort).
Proof.
  intros O Hs Hn Hc. split; [|by apply (init_overflow s file sym)].
  intros Hl s'. pose proof (registered_ok s file sym O Hn Hc Hl) as O'. pose proof (next_start_nonneg s O).
  split_and!; [by apply init_registers|done|by apply next_start_registered|].
  intros i site Hi. pose proof (registered_id s file sym i site O' Hi) as Ei. pose proof (ns_index _ _ _ _ Hi).
  unfold s'. rewrite Ei. split.
  - intros Hlt. by rewrite wrap_small by lia.
  - intros Hge. split; [|lia]. rewrite wrap_once by lia. done.
Qed.


End sites.

(** ** The theorems at concrete inputs *)

#[local] Existing Instance words64.

#[local] Instance demo_seq_env : SeqEnv := {|
  realloc_ok _ := true;
  UNIQTYPE_IS_UNBOUNDED_ARRAY t := t =? 100;
  UNIQTYPE_ARRAY_ELEMENT_TYPE _ := 101;
  pos_maxoff _ := 1;
  get_or_create_array_type t n := 1000 + n;
|}.

(** Four-byte records of type 77, described by 16-bit metavector records. *)
Definition words_family : packed_sequence_family :=
  PackedSequenceFamily (fun pos end_ _ => if pos =? end_ then None else Some (4, 77, 0)) 2 2 [76; 77].

Lemma words_laws : SeqLaws words_family 0x1000 0x1040 0.
Proof.
  split; [by vm_compute|by vm_compute|done|done|]. intros p Hp Ha. exists 4, 77, 0.
  cbn [words_family enumerate log2_align] in *. rewrite (proj2 (Z.eqb_neq _ _)) by lia.
  split_and!; [done|done| |done]. change (2 ^ 2) with 4 in Ha.
  pose proof (Z.div_mod p 4 ltac:(done)). lia.
Qed.

Lemma words_fit p : 0x1000 <= p < 0x1040 -> fits_rec words_family 0x1040 0 p.
Proof.
  intros Hp. unfold fits_rec, size_at, type_at, words_family. cbn [enumerate log2_align types_table].
  rewrite (proj2 (Z.eqb_neq _ _)) by lia. by vm_compute.
Qed.

Lemma sequence_cache_witness :
  exists s' l', ensure_cached_up_to (B := debug) words_family 0x1000 0x1040 0x15 (fresh_seq 0) = Done (tt, s') /\
    cached words_family 0x1000 0x1040 0 ([] ++ l') s' /\ 0x15 <= offset_cached_up_to s'.
Proof.
  apply (sequence_cache (SL := words_laws) (B := debug) words_family 0x1000 0x1040 0 [] (fresh_seq 0) 0x15).
  - reflexivity.
  - apply fresh_cached, words_laws.
  - split; discriminate.
Defined.

(** A section that holds three strings, the second of them empty. *)
Definition demo_bytes (a : Z) : Z := default 0 ([104; 105; 0; 0; 120; 121; 122; 0] !! Z.to_nat (a - 0x2000)).
Definition demo_strings : packed_sequence_family := __string8_nulterm_packed_sequence demo_bytes 100.

Lemma demo_strings_laws : SeqLaws demo_strings 0x2000 0x2008 0.
Proof. by apply string8_laws. Qed.

Lemma walk_reports_strings_witness :
  exists s' l', walk_allocations (B := debug) demo_strings 0x2000 0x2008 (fun _ => 0) 0 0 (fresh_seq 0) =
      Done ((0, walk_calls demo_strings 0x2008 0 0 l'), s') /\
    chain demo_strings 0x2000 0x2008 0 0x2000 0x2008 l' /\
    Forall (fun p => is_string demo_bytes 0x2008 p (size_at demo_strings 0x2008 0 p)) l'.
Proof.
  apply (walk_reports_strings (B := debug) demo_bytes 100 0x2000 0x2008 0 (fun _ => 0) [] (fresh_seq 0));
    [split; [discriminate|reflexivity]|reflexivity..|]. apply fresh_cached, demo_strings_laws.
Defined.

Lemma sequence_get_info_demo :
  (exists s' l' p, get_info (B := debug) words_family 0x1000 0x1040 0x1015 (fresh_seq 0) =
      Done (Some (SeqInfo (FIXUP_T (type_at words_family 0x1040 0 p) (size_at words_family 0x1040 0 p)) p
        (size_at words_family 0x1040 0 p)), s') /\
    cached words_family 0x1000 0x1040 0 ([] ++ l') s' /\ p ∈ [] ++ l' /\
    p <= 0x1015 < p + size_at words_family 0x1040 0 p) /\
  (exists s' l', get_info (B := debug) demo_strings 0x2000 0x2008 0x2005 (fresh_seq 0) =
      Done (Some (SeqInfo (FIXUP_T 0 (2 ^ 64 - 1)) 0 (2 ^ 64 - 1)), s') /\
    cached demo_strings 0x2000 0x2008 0 ([] ++ l') s').
Proof.
  split.
  - apply (sequence_get_info (SL := words_laws) (B := debug) words_family 0x1000 0x1040 0 [] (fresh_seq 0) 0x1015).
    + reflexivity.
    + apply fresh_cached, words_laws.
    + split; [discriminate|reflexivity].
    + discriminate.
    + intros p Hp _. by apply words_fit.
  - apply (sequence_get_info (SL := demo_strings_laws) (B := debug) demo_strings 0x2000 0x2008 0 [] (fresh_seq 0) 0x2005).
    + reflexivity.
    + apply fresh_cached, demo_strings_laws.
    + split; [discriminate|reflexivity].
    + reflexivity.
Defined.

(** File 1 has two sites and file 2, loaded at 0x500000, three. *)
#[local] Instance demo_site_env : SiteEnv := {|
  sizeof_allocsite_entry := 24;
  allocsite_vaddrs v := if v =? 11 then [0x100; 0x180] else [0x40; 0x80; 0xc0];
  get_file a := if a <? 0x500000 then Some 1 else Some 2;
  file_of f := if f =? 1 then FileMetadata (Some (SiteSymbol 11 48)) 0x400000
               else FileMetadata (Some (SiteSymbol 22 72)) 0x500000;
  bsearch_leq keys t := linear_leq keys t 0 None;
|}.

#[local] Instance demo_site_laws : SiteLaws demo_site_env.
Proof. split; [done|]. intros keys t i. apply linear_leq_found. Qed.

Definition no_sites : sites := Sites ∅ 0 ∅.
Definition one_file : sites := registered no_sites 1 (SiteSymbol 11 48).
Definition two_files : sites := registered one_file 2 (SiteSymbol 22 72).

Lemma no_sites_ok : spine_ok no_sites.
Proof. split; [by vm_compute|done|simpl; lia..|done]. Qed.

Lemma one_file_ok : spine_ok one_file.
Proof. apply registered_ok; [apply no_sites_ok|by vm_compute..]. Qed.



(** An object that leaves two identifiers. *)
Definition nearly_full : sites := Sites {[0 := VectorEntry 0 (2 ^ 16 - 2) 0x400000 11]} 1 {[1 := 0]}.

Lemma nearly_full_ok : spine_ok nearly_full.
Proof.
  split; [by vm_compute|done| | |].
  - intros i Hi. simpl in Hi. assert (i = 0) as -> by lia. by vm_compute.
  - intros i Hi Hi'. simpl in Hi'. lia.
  - intros f k Hk. unfold nearly_full in Hk. cbn [allocsites_info] in Hk. apply lookup_singleton_Some in Hk as [<- <-]. by vm_compute.
Qed.

Lemma demo_nth_site i va : [0x40; 0x80; 0xc0] !! i = Some va -> nth_site 2 (SiteSymbol 22 72) i (0x500000 + va).
Proof.
  intros Hi. assert (i < 3)%nat by (by apply lookup_lt_Some in Hi).
  split.
  - do 3 (destruct i as [|i]; [by injection Hi as <-|]). lia.
  - intros a b x y Hab Hx Hy. change (allocsite_vaddrs _) with [0x40; 0x80; 0xc0] in Hx, Hy.
    destruct a as [|[|[|a]]], b as [|[|[|b]]]; simpl in *; simplify_eq; lia.
  - change (nsites (SiteSymbol 22 72)) with 3. lia.
  - exists va. split_and!; [done|done| |]; do 3 (destruct i as [|i]; [by injection Hi as <-|]); lia.
Qed.

(** One object that takes all the identifiers but the first. *)
Definition full_sites : sites :=
  Sites {[0 := VectorEntry 0 1 0x400000 11; 1 := VectorEntry 1 (2 ^ 16 - 1) 0x500000 22]} 2 {[1 := 0; 2 := 1]}.

Lemma full_sites_ok : spine_ok full_sites.
Proof.
  split; [by vm_compute|done| | |].
  - intros i Hi. simpl in Hi. assert (i = 0 \/ i = 1) as [->| ->] by lia; by vm_compute.
  - intros i Hi Hi'. simpl in Hi'. assert (i = 0) as -> by lia. by vm_compute.
  - intros f k Hk. unfold full_sites in Hk; cbn [allocsites_info] in Hk.
    rewrite lookup_insert in Hk. case_decide; [simplify_eq; by vm_compute|].
    apply lookup_singleton_Some in Hk as [<- <-]. by vm_compute.
Qed.

Lemma register_sites_witness :
  (init_allocsites_info 2 one_file = Done (tt, registered one_file 2 (SiteSymbol 22 72)) /\
   __liballocs_allocsite_id 0x500080 two_files = Done (2 + 1, two_files)) /\
  (init_allocsites_info 2 nearly_full = Done (tt, registered nearly_full 2 (SiteSymbol 22 72)) /\
   __liballocs_allocsite_id 0x5000c0 (registered nearly_full 2 (SiteSymbol 22 72)) =
     Done (65534 + 2 - 2 ^ 16, registered nearly_full 2 (SiteSymbol 22 72))) /\
  init_allocsites_info 1 full_sites = Abort.
Proof.
  split_and!.
  - apply (register_sites one_file 2 (SiteSymbol 22 72)); [apply one_file_ok|by vm_compute..].
  - apply (register_sites one_file 2 (SiteSymbol 22 72)) with (i := 1%nat); [apply one_file_ok|by vm_compute..| |by vm_compute].
    by apply (demo_nth_site 1 0x80).
  - apply (register_sites nearly_full 2 (SiteSymbol 22 72)); [apply nearly_full_ok|by vm_compute..].
  - apply (register_sites nearly_full 2 (SiteSymbol 22 72)) with (i := 2%nat); [apply nearly_full_ok|by vm_compute..| |by vm_compute].
    by apply (demo_nth_site 2 0xc0).
  - apply (register_sites full_sites 1 (SiteSymbol 11 48)); [apply full_sites_ok|reflexivity|reflexivity|split; reflexivity|discriminate].
Defined.
