(* ===== verification/Uniqtype.v ===== *)
(** Run-time types as the library reads them.

    A uniqtype is a record the compiler or [dlbind] lays out; its layout is
    declared outside the repository (liballocstool's uniqtype-defs.h), so the
    accessors the code uses are parameters.  A type is named by the address of
    its record, 0 for none. *)
From S2P Require Import Prelude.

Class UniqtypeEnv := {
  UNIQTYPE_IS_ARRAY_TYPE : Z -> bool;
  UNIQTYPE_IS_COMPOSITE_TYPE : Z -> bool;
  UNIQTYPE_IS_POINTER_TYPE : Z -> bool;
  UNIQTYPE_ARRAY_LENGTH : Z -> Z;
  UNIQTYPE_COMPOSITE_MEMBER_COUNT : Z -> Z;
  (** the field [pos_maxoff]: the size in bytes *)
  pos_maxoff : Z -> Z;
  (** [related[i].un.t.ptr] and [related[i].un.memb.ptr] *)
  related_ptr : Z -> Z -> Z;
  (** [related[i].un.memb.off] *)
  related_off : Z -> Z -> Z;
}.

(** [nested n u]: the subobjects of [u] are laid out as the code expects, and
    nest at most [n] deep.  An array holds its elements; the members of a
    composite are sorted by offset. *)
Inductive nested {U : UniqtypeEnv} : nat -> Z -> Prop :=
| nested_array n u :
    UNIQTYPE_IS_ARRAY_TYPE u = true ->
    UNIQTYPE_COMPOSITE_MEMBER_COUNT u = 0 ->
    0 <= UNIQTYPE_ARRAY_LENGTH u ->
    0 < pos_maxoff (related_ptr u 0) < 2 ^ 32 ->
    UNIQTYPE_ARRAY_LENGTH u * pos_maxoff (related_ptr u 0) <= pos_maxoff u ->
    nested n (related_ptr u 0) ->
    nested (S n) u
| nested_composite n u :
    UNIQTYPE_IS_ARRAY_TYPE u = false ->
    0 <= UNIQTYPE_COMPOSITE_MEMBER_COUNT u < 2 ^ 30 ->
    (forall i, 0 <= i < UNIQTYPE_COMPOSITE_MEMBER_COUNT u -> 0 <= related_off u i < 2 ^ 32) ->
    (forall i j, 0 <= i <= j -> j < UNIQTYPE_COMPOSITE_MEMBER_COUNT u -> related_off u i <= related_off u j) ->
    (forall i, 0 <= i < UNIQTYPE_COMPOSITE_MEMBER_COUNT u -> nested n (related_ptr u i)) ->
    nested (S n) u.
