(* ===== verification/Subobject.v ===== *)
(** Descending into the subobjects of a typed object: the inlines of
    src/include/liballocs.h that walk down the subobjects spanning an offset.

    [unsigned] values are 32 bits wide.  A position [&u->related[i]] is the
    pair of [u] and [i].  The callback of a walk is any stateful function. *)
From S2P Require Import Prelude Uniqtype.

(** An [int] holding the value of an [unsigned]. *)
Definition int32 (x : Z) : Z := let y := wrap32 x in if y <? 2 ^ 31 then y else y - 2 ^ 32.

(** The arguments of a callback. *)
Record visit := Visit {
  v_spans : Z;
  v_start : Z;
  v_depth : Z;
  v_containing : Z;
  v_pos : Z;
  v_containing_start : Z;
}.

Section ops.
Context {U : UniqtypeEnv} {B : Build} {S : Type}.

(** Reading a member of a composite. *)
Definition member_off (u i : Z) : M S Z :=
  if (0 <=? i) && (i <? UNIQTYPE_COMPOSITE_MEMBER_COUNT u) then mret (related_off u i) else abort.

(** The bisection of both functions; [w] is the arithmetic of the indices,
    [unsigned] in one and [int] in the other. *)
Fixpoint bisect (fuel : nat) (w : Z -> Z) (u target lower_ind upper_ind : Z) : M S (Z * Z) :=
  match fuel with
  | O => nofuel
  | Datatypes.S fuel =>
    if w (lower_ind + 1) <? upper_ind then
      let bisect_ind := w (upper_ind + lower_ind) / 2 in
      assert (lower_ind <? bisect_ind) ;;
      off ← member_off u bisect_ind;
      if target <? off then bisect fuel w u target lower_ind bisect_ind
      else bisect fuel w u target bisect_ind upper_ind
    else mret (lower_ind, upper_ind)
  end.

(** The lowest index with the same offset. *)
Fixpoint scan_back (fuel : nat) (u offset lower_ind : Z) : M S Z :=
  match fuel with
  | O => nofuel
  | Datatypes.S fuel =>
    if 0 <? lower_ind then
      off ← member_off u (lower_ind - 1);
      if off =? offset then scan_back fuel u offset (lower_ind - 1) else mret lower_ind
    else mret lower_ind
  end.

Definition bisect_fuel (u : Z) : nat := Datatypes.S (Z.to_nat (UNIQTYPE_COMPOSITE_MEMBER_COUNT u)).

(** ** Walking all the subobjects that span an offset *)

Context (cb : visit -> M S Z).

(** The members from [i_ind] on at the same offset: the callback, and then the
    walk below the member. *)
Fixpoint scan_forwards (k : nat) (rec : Z -> Z -> Z -> Z -> M S Z)
    (accum_offset accum_depth target u offset i_ind : Z) : M S Z :=
  match k with
  | O => mret 0
  | Datatypes.S k =>
    if i_ind <? UNIQTYPE_COMPOSITE_MEMBER_COUNT u then
      off ← member_off u i_ind;
      if off =? offset then
        let next := scan_forwards k rec accum_offset accum_depth target u offset (wrap32 (i_ind + 1)) in
        if target <? pos_maxoff u then
          ret ← cb (Visit (related_ptr u i_ind) (wrap32 (accum_offset + offset)) (wrap32 (accum_depth + 1))
                      u i_ind accum_offset);
          if negb (ret =? 0) then mret ret else
          ret ← rec (wrap32 (accum_offset + offset)) (wrap32 (accum_depth + 1))
                  (wrap32 (target - offset)) (related_ptr u i_ind);
          if negb (ret =? 0) then mret ret else next
        else next
      else mret 0
    else mret 0
  end.

Fixpoint __liballocs_walk_subobjects_spanning_rec (fuel : nat) (accum_offset accum_depth target u : Z) : M S Z :=
  match fuel with
  | O => nofuel
  | Datatypes.S fuel =>
    if UNIQTYPE_IS_ARRAY_TYPE u then
      let element := related_ptr u 0 in
      if pos_maxoff element =? 0 then abort (* division by zero *) else
      let div := target / pos_maxoff element in
      let mod_ := target mod pos_maxoff element in
      if div <? UNIQTYPE_ARRAY_LENGTH u then
        let skip_sz := wrap32 (div * pos_maxoff element) in
        assert (target <? pos_maxoff u) ;;
        ret ← cb (Visit element (wrap32 (accum_offset + skip_sz)) (wrap32 (accum_depth + 1)) u 0 accum_offset);
        if negb (ret =? 0) then mret ret else
        __liballocs_walk_subobjects_spanning_rec fuel
          (wrap32 (accum_offset + wrap32 (div * pos_maxoff element))) (wrap32 (accum_depth + 1)) mod_ element
      else mret 0
    else
      let num_contained := UNIQTYPE_COMPOSITE_MEMBER_COUNT u in
      r ← bisect (bisect_fuel u) wrap32 u target 0 num_contained;
      let '(lower_ind, upper_ind) := r in
      if wrap32 (lower_ind + 1) =? upper_ind then
        off ← member_off u lower_ind;
        if target <? off then mret 0 else
        let offset := wrap32 off in
        lower_ind ← scan_back (bisect_fuel u) u offset lower_ind;
        scan_forwards (bisect_fuel u) (__liballocs_walk_subobjects_spanning_rec fuel)
          accum_offset accum_depth target u offset lower_ind
      else assert (num_contained =? 0) ;; mret 0
  end.

Definition __liballocs_walk_subobjects_spanning (fuel : nat) (target u : Z) : M S Z :=
  __liballocs_walk_subobjects_spanning_rec fuel 0 0 target u.
End ops.

(** ** Finding one *)

Section find.
Context {U : UniqtypeEnv} {B : Build}.

(** The offset, the type, the containing type and the position: what the four
    pointers refer to. *)
Record cursor := Cursor {
  c_offset : Z;
  c_type : Z;
  c_containing : Z;
  c_pos : Z * Z;
}.

Definition __liballocs_first_subobject_spanning : M cursor bool :=
  c ← gets id;
  let u := c_type c in
  let target := c_offset c in
  if UNIQTYPE_IS_ARRAY_TYPE u then
    let num_contained := UNIQTYPE_ARRAY_LENGTH u in
    let element := related_ptr u 0 in
    if negb (pos_maxoff element =? 0) && (target / pos_maxoff element <? num_contained) then
      modify (fun _ => Cursor (target mod pos_maxoff element) element u (u, 0)) ;;
      mret true
    else mret false
  else
    let num_contained := UNIQTYPE_COMPOSITE_MEMBER_COUNT u in
    r ← bisect (bisect_fuel u) int32 u target 0 (int32 num_contained);
    let '(lower_ind, upper_ind) := r in
    if int32 (lower_ind + 1) =? upper_ind then
      off ← member_off u lower_ind;
      if target <? off then mret false else
      assert (off <=? target) ;;
      lower_ind ← scan_back (bisect_fuel u) u off lower_ind;
      off ← member_off u lower_ind;
      modify (fun _ => Cursor (wrap32 (target - off)) (related_ptr u lower_ind) u (u, lower_ind)) ;;
      mret true
    else assert (num_contained =? 0) ;; mret false.

(** What the search reports besides its result. *)
Record report := Report {
  last_attempted_uniqtype : Z;
  last_uniqtype_offset : Z;
  cumulative_offset_searched : Z;
  cur_containing_uniqtype : Z;
  cur_contained_pos : Z * Z;
}.
Definition set_attempt (t off : Z) (r : report) : report :=
  Report t off (cumulative_offset_searched r) (cur_containing_uniqtype r) (cur_contained_pos r).
Definition add_cumulative (off : Z) (r : report) : report :=
  Report (last_attempted_uniqtype r) (last_uniqtype_offset r) (wrap32 (cumulative_offset_searched r + off))
    (cur_containing_uniqtype r) (cur_contained_pos r).
Definition set_container (t : Z) (pos : Z * Z) (r : report) : report :=
  Report (last_attempted_uniqtype r) (last_uniqtype_offset r) (cumulative_offset_searched r) t pos.

(** The [do] loop: try the member at [subobj_ind], then the later ones at the
    same offset. *)
Fixpoint try_subobjects (k : nat) (rec : Z -> Z -> M report bool) (sub_target containing subobj_ind : Z)
    : M report bool :=
  match k with
  | O => nofuel
  | Datatypes.S k =>
    recursive_test ← rec sub_target (related_ptr containing subobj_ind);
    if (recursive_test : bool) then
      modify (set_container containing (containing, subobj_ind)) ;;
      mret true
    else
      let count := UNIQTYPE_COMPOSITE_MEMBER_COUNT containing in
      assert ((subobj_ind =? 0) || (subobj_ind <? count)) ;;
      if (count <=? wrap32 (subobj_ind + 1))
         || negb (related_off containing (wrap32 (subobj_ind + 1)) =? related_off containing subobj_ind)
      then mret false
      else try_subobjects k rec sub_target containing (wrap32 (subobj_ind + 1))
  end.

Fixpoint __liballocs_find_matching_subobject (fuel : nat) (target u test_uniqtype : Z) : M report bool :=
  match fuel with
  | O => nofuel
  | Datatypes.S fuel =>
    if (target =? 0) && ((test_uniqtype =? 0) || (u =? test_uniqtype)) then
      modify (set_container 0 (0, 0)) ;;
      mret true
    else
      fun r =>
      match __liballocs_first_subobject_spanning (Cursor target u 0 (0, 0)) with
      | Done (success, c) =>
        if negb success then Done (false, r) else
        (modify (add_cumulative (related_off (fst (c_pos c)) (snd (c_pos c)))) ;;
         modify (set_attempt (c_type c) (c_offset c)) ;;
         assert (c_containing c =? u) ;;
         try_subobjects (bisect_fuel u) (fun t v => __liballocs_find_matching_subobject fuel t v test_uniqtype)
           (c_offset c) (c_containing c) (snd (c_pos c))) r
      | Abort => Abort
      | NoFuel => NoFuel
      end
  end.

(** [__liballocs_get_inner_type]: descend until there is no subobject. *)
Fixpoint descend (fuel : nat) : M cursor unit :=
  match fuel with
  | O => nofuel
  | Datatypes.S fuel =>
    success ← __liballocs_first_subobject_spanning;
    if (success : bool) then descend fuel else mret tt
  end.
End find.
