(* ===== verification/SubobjectFacts.v ===== *)
(** The subobjects that span an offset, defined by a linear scan, and the
    proof that the bisecting walks of [Subobject] find them. *)
From S2P Require Import Prelude Uniqtype Subobject.

Section facts.
Context {U : UniqtypeEnv}.

(** ** The reference *)

Abbreviation count := UNIQTYPE_COMPOSITE_MEMBER_COUNT.

(** Member [i] begins at or before the offset, and no member begins between. *)
Definition spans_at (u target i : Z) : Prop :=
  related_off u i <= target /\
  Forall (fun j => related_off u j <= related_off u i \/ target < related_off u j) (seqZ 0 (count u)).
#[export] Instance spans_at_dec u target i : Decision (spans_at u target i).
Proof. apply _. Defined.

(** The subobjects that span an offset: their positions and offsets. *)
Definition members (u target : Z) : list (Z * Z) :=
  if UNIQTYPE_IS_ARRAY_TYPE u then
    let size := pos_maxoff (related_ptr u 0) in
    if target / size <? UNIQTYPE_ARRAY_LENGTH u then [(0, target / size * size)] else []
  else (fun i => (i, related_off u i)) <$> filter (spans_at u target) (seqZ 0 (count u)).

(** A composite has nothing beyond its size. *)
Definition spanned (u target : Z) : list (Z * Z) :=
  if UNIQTYPE_IS_ARRAY_TYPE u || (target <? pos_maxoff u) then members u target else [].

(** The walk: each subobject, then the subobjects in it. *)
Fixpoint spanning (n : nat) (accum depth target u : Z) : list visit :=
  match n with
  | O => []
  | S n =>
    spanned u target ≫= fun io =>
      Visit (related_ptr u (fst io)) (accum + snd io) (depth + 1) u (fst io) accum ::
      spanning n (accum + snd io) (depth + 1) (target - snd io) (related_ptr u (fst io))
  end.

(** Is there a subobject of the type that begins exactly at the offset? *)
Fixpoint matches (n : nat) (target u test : Z) : bool :=
  match n with
  | O => false
  | S n =>
    ((target =? 0) && ((test =? 0) || (u =? test))) ||
    existsb (fun io => matches n (target - snd io) (related_ptr u (fst io)) test) (members u target)
  end.

(** ** Bisection *)

Record composite (u : Z) : Prop := {
  comp_count : 0 <= count u < 2 ^ 30;
  comp_off i : 0 <= i < count u -> 0 <= related_off u i < 2 ^ 32;
  comp_sorted i j : 0 <= i <= j -> j < count u -> related_off u i <= related_off u j;
}.

Section composite.
Context {B : Build} {S : Type} (u : Z) (C : composite u).

Lemma member_off_ok (s : S) i : 0 <= i < count u -> member_off u i s = Done (related_off u i, s).
Proof. intros Hi. unfold member_off. by rewrite (proj2 (Z.leb_le _ _)), (proj2 (Z.ltb_lt _ _)) by lia. Qed.

(** What bisection has found: [lo] is the last member at or before the target,
    or the first member of all. *)
Definition bracket (target lo hi : Z) : Prop :=
  0 <= lo < hi /\ hi <= count u /\ (lo = 0 \/ related_off u lo <= target) /\
  (hi = count u \/ target < related_off u hi).

(** The arithmetic of the indices does not overflow. *)
Definition index_arith (w : Z -> Z) : Prop := forall x, 0 <= x < 2 ^ 31 -> w x = x.

Lemma bisect_ok (w : Z -> Z) target (s : S) fuel lo hi :
  index_arith w -> bracket target lo hi -> (Z.to_nat (hi - lo) <= fuel)%nat ->
  exists r, bisect fuel w u target lo hi s = Done ((r, r + 1), s) /\ bracket target r (r + 1).
Proof.
  intros Hw. pose proof (comp_count u C) as Hc. revert lo hi.
  induction fuel as [|fuel IH]; intros lo hi K Hf; pose proof K as ((Hl & Hlh) & Hh & K1 & K2); [lia|].
  cbn [bisect]. rewrite Hw by lia. destruct (Z.ltb_spec (lo + 1) hi) as [H1|H1].
  - rewrite Hw by lia. set (m := (hi + lo) / 2).
    assert (Hm : lo < m < hi) by (subst m; Z.to_euclidean_division_equations; lia).
    rewrite (bind_Done _ _ _ tt s) by (apply assert_true, Z.ltb_lt; lia).
    rewrite (bind_Done _ _ _ (related_off u m) s) by (apply member_off_ok; lia).
    destruct (Z.ltb_spec target (related_off u m)).
    + apply IH; [|lia]. split_and!; [lia..| |by right]. destruct K1; [by left|by right].
    + apply IH; [|lia]. split_and!; [lia..|by right|done].
  - assert (hi = lo + 1) as -> by lia. by exists lo.
Qed.

(** Scanning back finds the first member at the offset. *)
Lemma scan_back_ok offset (s : S) fuel i :
  0 <= i < count u -> related_off u i = offset -> (Z.to_nat i < fuel)%nat ->
  exists k, scan_back fuel u offset i s = Done (k, s) /\ 0 <= k <= i /\ related_off u k = offset /\
    (forall j, 0 <= j < k -> related_off u j < offset).
Proof.
  revert i. induction fuel as [|fuel IH]; intros i Hi Ho Hf; [lia|]. cbn [scan_back].
  destruct (Z.ltb_spec 0 i) as [H0|H0]; [|exists i; split_and!; [done|lia..|done|intros; lia]].
  rewrite (bind_Done _ _ _ (related_off u (i - 1)) s) by (apply member_off_ok; lia).
  destruct (Z.eqb_spec (related_off u (i - 1)) offset) as [E|E].
  - destruct (IH (i - 1)) as (k & -> & Hk & Ek & Hj); [lia|done|lia|]. exists k. split_and!; [done|lia..|done|done].
  - exists i. split_and!; [done|lia..|done|]. intros j Hj.
    pose proof (comp_sorted u C j (i - 1) ltac:(lia) ltac:(lia)).
    pose proof (comp_sorted u C (i - 1) i ltac:(lia) ltac:(lia)). lia.
Qed.

(** The members that span the target are the run at the offset found. *)
Lemma members_run target r k :
  UNIQTYPE_IS_ARRAY_TYPE u = false -> bracket target r (r + 1) -> related_off u r <= target ->
  0 <= k <= r -> related_off u k = related_off u r -> (forall j, 0 <= j < k -> related_off u j < related_off u r) ->
  members u target = (fun i => (i, related_off u i)) <$>
    filter (fun i => related_off u i = related_off u r) (seqZ k (count u - k)).
Proof.
  intros Ha (Hr & Hc & _ & Hn) Hle Hk Ek Hj. unfold members. rewrite Ha. f_equal.
  replace (count u) with (k + (count u - k)) at 1 by lia. rewrite seqZ_app by lia. rewrite filter_app.
  assert (Hmax : forall j, 0 <= j < count u -> related_off u j <= related_off u r \/ target < related_off u j).
  { intros j Hjc. destruct (Z.le_gt_cases j r); [left; by apply (comp_sorted u C); lia|].
    destruct Hn as [Hn|Hn]; [lia|]. right. pose proof (comp_sorted u C (r + 1) j). lia. }
  rewrite filter_none; cbn [app].
  - apply filter_ext_in. intros i Hi%elem_of_seqZ. unfold spans_at. rewrite Forall_seqZ. split.
    + intros [H1 H2]. destruct (Hmax i ltac:(lia)); destruct (H2 r ltac:(lia)); lia.
    + intros ->. split; [done|]. intros j Hjr. apply Hmax. lia.
  - intros i Hi%elem_of_seqZ [_ Hs]. rewrite Forall_seqZ in Hs. specialize (Hj i). destruct (Hs r ltac:(lia)); lia.
Qed.

Lemma members_none target :
  UNIQTYPE_IS_ARRAY_TYPE u = false -> (count u = 0 \/ target < related_off u 0) -> members u target = [].
Proof.
  intros Ha Hn. unfold members. rewrite Ha. rewrite filter_none; [done|].
  intros i Hi%elem_of_seqZ [Hs _]. destruct Hn as [|Hn]; [lia|]. pose proof (comp_sorted u C 0 i). lia.
Qed.

(** The whole search of a composite with members. *)
Lemma search_ok (w : Z -> Z) target (s : S) :
  index_arith w -> UNIQTYPE_IS_ARRAY_TYPE u = false -> 0 < count u ->
  exists r, bisect (bisect_fuel u) w u target 0 (count u) s = Done ((r, r + 1), s) /\ 0 <= r < count u /\
    ((target < related_off u r /\ members u target = []) \/
     (related_off u r <= target /\
      exists k, scan_back (bisect_fuel u) u (related_off u r) r s = Done (k, s) /\ 0 <= k < count u /\
        related_off u k = related_off u r /\ (forall j, k <= j < count u -> related_off u r <= related_off u j) /\
        members u target = (fun i => (i, related_off u i)) <$>
          filter (fun i => related_off u i = related_off u r) (seqZ k (count u - k)))).
Proof.
  intros Hw Ha Hc. destruct (bisect_ok w target s (bisect_fuel u) 0 (count u)) as (r & Eb & K); [done| |unfold bisect_fuel; lia|].
  { split_and!; [lia..|by left|by left]. }
  pose proof K as (Hr & Hrc & K1 & K2). exists r. split_and!; [done|lia..|].
  destruct (Z.lt_ge_cases target (related_off u r)) as [Hlt|Hge].
  - left. split; [done|]. apply members_none; [done|]. right. destruct K1 as [->|]; lia.
  - right. split; [done|].
    destruct (scan_back_ok (related_off u r) s (bisect_fuel u) r) as (k & Es & Hk & Ek & Hj); [lia|done|unfold bisect_fuel; lia|].
    exists k. split_and!; [done|lia..|done| |by apply members_run].
    intros j Hjk. rewrite <- Ek. apply (comp_sorted u C); lia.
Qed.
End composite.

Lemma wrap32_index : index_arith wrap32.
Proof. intros x Hx. apply wrap_small. lia. Qed.
Lemma int32_index : index_arith int32.
Proof. intros x Hx. unfold int32. rewrite wrap_small by lia. by rewrite (proj2 (Z.ltb_lt _ _)) by lia. Qed.

Lemma nested_inv n u : nested n u ->
  exists m, n = S m /\
    ((UNIQTYPE_IS_ARRAY_TYPE u = true /\ count u = 0 /\ 0 <= UNIQTYPE_ARRAY_LENGTH u /\
      0 < pos_maxoff (related_ptr u 0) < 2 ^ 32 /\
      UNIQTYPE_ARRAY_LENGTH u * pos_maxoff (related_ptr u 0) <= pos_maxoff u /\ nested m (related_ptr u 0)) \/
     (UNIQTYPE_IS_ARRAY_TYPE u = false /\ composite u /\ forall i, 0 <= i < count u -> nested m (related_ptr u i))).
Proof.
  intros H. destruct H as [n u|n u]; exists n; (split; [done|]); [by left|right].
  split_and!; [done|by split|done].
Qed.

(** ** The walk *)

Section walk.
Context {B : Build} {S : Type} (cb : visit -> M S Z).

Definition below (n : nat) (accum depth target u : Z) (io : Z * Z) : list visit :=
  Visit (related_ptr u (fst io)) (accum + snd io) (depth + 1) u (fst io) accum ::
  spanning n (accum + snd io) (depth + 1) (target - snd io) (related_ptr u (fst io)).

(** The arguments of a call stay within 32 bits. *)
Definition small (n : nat) (accum depth target : Z) : Prop :=
  0 <= accum /\ 0 <= target /\ accum + target < 2 ^ 32 /\ 0 <= depth /\ depth + Z.of_nat n < 2 ^ 32.

Lemma small_below n accum depth target off :
  small (Datatypes.S n) accum depth target -> 0 <= off <= target -> small n (accum + off) (depth + 1) (target - off).
Proof. unfold small. lia. Qed.

Definition walks (n : nat) (rec : Z -> Z -> Z -> Z -> M S Z) : Prop := forall accum depth target u s,
  nested n u -> small n accum depth target -> rec accum depth target u s = run_until cb (spanning n accum depth target u) s.

Lemma scan_forwards_ok n rec accum depth target u offset s k i :
  composite u -> (forall i, 0 <= i < count u -> nested n (related_ptr u i)) -> walks n rec ->
  small (Datatypes.S n) accum depth target -> 0 <= offset <= target ->
  0 <= i -> (forall j, i <= j < count u -> offset <= related_off u j) -> (Z.to_nat (count u - i) < k)%nat ->
  scan_forwards cb k rec accum depth target u offset i s =
  run_until cb ((if target <? pos_maxoff u
              then (fun i => (i, related_off u i)) <$> filter (fun i => related_off u i = offset) (seqZ i (count u - i))
              else []) ≫= below n accum depth target u) s.
Proof.
  intros C N W Sm Ho. pose proof (comp_count u C). revert i s.
  induction k as [|k IH]; intros i s Hi Hj Hk; [lia|]. cbn [scan_forwards].
  destruct (Z.ltb_spec i (count u)) as [H1|H1]; [|rewrite seqZ_nil by lia; by destruct (target <? pos_maxoff u)].
  rewrite (bind_Done _ _ _ (related_off u i) s) by (apply member_off_ok; lia).
  rewrite seqZ_cons, filter_cons by lia.
  replace (Z.succ i) with (i + 1) by lia. replace (Z.pred (count u - i)) with (count u - (i + 1)) by lia.
  rewrite (wrap_small 32 (i + 1)) by lia.
  destruct (Z.eqb_spec (related_off u i) offset) as [E|E].
  - rewrite decide_True by done. destruct (Z.ltb_spec target (pos_maxoff u)) as [Hp|Hp].
    + pose proof Sm as (S1 & S2 & S3 & S4 & S5).
      rewrite fmap_cons, bind_cons, run_until_app. unfold below at 2; cbn [fst snd run_until]. rewrite E.
      rewrite !wrap_small by lia. rewrite bind_bind. apply bind_ext. intros r s' _.
      destruct (Z.eqb_spec r 0) as [->|Nr]; simpl.
      * unfold mbind, M_bind. rewrite W by (try apply small_below; auto; lia).
        destruct (run_until _ _ s') as [[r' s'']| |]; [|done..]. destruct (r' =? 0); [|done]. simpl.
        apply IH; [lia|intros; apply Hj; lia|lia].
      * unfold mbind, M_bind; simpl. by rewrite (proj2 (Z.eqb_neq _ _) Nr).
    + apply IH; [lia|intros; apply Hj; lia|lia].
  - rewrite decide_False by done. rewrite filter_none; [by destruct (target <? pos_maxoff u)|].
    intros j Hjj%elem_of_seqZ Ej. pose proof (comp_sorted u C i j). specialize (Hj i). lia.
Qed.
Lemma spanning_S n accum depth target u :
  spanning (Datatypes.S n) accum depth target u = spanned u target ≫= below n accum depth target u.
Proof. done. Qed.

Lemma walk_array n accum depth target u s :
  UNIQTYPE_IS_ARRAY_TYPE u = true -> 0 <= UNIQTYPE_ARRAY_LENGTH u -> 0 < pos_maxoff (related_ptr u 0) < 2 ^ 32 ->
  UNIQTYPE_ARRAY_LENGTH u * pos_maxoff (related_ptr u 0) <= pos_maxoff u -> nested n (related_ptr u 0) ->
  walks n (__liballocs_walk_subobjects_spanning_rec cb n) -> small (Datatypes.S n) accum depth target ->
  __liballocs_walk_subobjects_spanning_rec cb (Datatypes.S n) accum depth target u s =
  run_until cb (spanning (Datatypes.S n) accum depth target u) s.
Proof.
  intros Ha Hl Hp Hs Hn W Sm. cbn [__liballocs_walk_subobjects_spanning_rec].
  rewrite spanning_S. unfold spanned, members. rewrite Ha. cbn [orb].
  rewrite (proj2 (Z.eqb_neq _ _)) by lia. set (e := related_ptr u 0) in *. set (p := pos_maxoff e) in *.
  destruct (Z.ltb_spec (target / p) (UNIQTYPE_ARRAY_LENGTH u)) as [Hd|Hd]; [|done].
  pose proof Sm as (S1 & S2 & S3 & S4 & S5).
  pose proof (Z.div_mod target p ltac:(lia)) as Ed. pose proof (Z.mod_pos_bound target p ltac:(lia)) as Hm.
  pose proof (Z.div_pos target p ltac:(lia) ltac:(lia)).
  assert (0 <= target / p * p <= target) by nia.
  rewrite (bind_Done _ _ _ tt s) by (apply assert_true, Z.ltb_lt; nia).
  rewrite bind_singleton. unfold below; cbn [fst snd run_until].
  rewrite (wrap_small 32 (target / p * p)) by lia. rewrite !(wrap_small 32) by lia.
  apply bind_ext. intros r s' _. destruct (negb (r =? 0)); [done|]. fold e.
  rewrite W by (try (replace (target mod p) with (target - target / p * p) by lia; apply small_below); auto; lia).
  do 2 f_equal; lia.
Qed.

Lemma walk_composite n accum depth target u s :
  UNIQTYPE_IS_ARRAY_TYPE u = false -> composite u -> (forall i, 0 <= i < count u -> nested n (related_ptr u i)) ->
  walks n (__liballocs_walk_subobjects_spanning_rec cb n) -> small (Datatypes.S n) accum depth target ->
  __liballocs_walk_subobjects_spanning_rec cb (Datatypes.S n) accum depth target u s =
  run_until cb (spanning (Datatypes.S n) accum depth target u) s.
Proof.
  intros Ha C Hn W Sm. cbn [__liballocs_walk_subobjects_spanning_rec]. rewrite spanning_S. unfold spanned. rewrite Ha.
  cbn [orb]. pose proof (comp_count u C) as Hc. destruct (decide (count u = 0)) as [E0|N0].
  - rewrite members_none by auto. unfold bisect_fuel. rewrite E0. rewrite (bind_Done _ _ _ (0, 0) s) by done.
    change (wrap32 (0 + 1) =? 0) with false. cbn [Z.eqb]. rewrite (bind_Done _ _ _ tt s) by (by apply assert_true).
    by destruct (target <? pos_maxoff u).
  - destruct (search_ok u C wrap32 target s) as (r & Eb & Hr & Hcase); [apply wrap32_index|done|lia|].
    rewrite (bind_Done _ _ _ _ _ Eb). rewrite wrap_small, Z.eqb_refl by lia.
    rewrite (bind_Done _ _ _ (related_off u r) s) by (apply member_off_ok; lia).
    destruct Hcase as [[Hlt ->]|[Hle (k & Es & Hk & Ek & Hj & ->)]].
    + rewrite (proj2 (Z.ltb_lt _ _) Hlt). by destruct (target <? pos_maxoff u).
    + rewrite (proj2 (Z.ltb_ge _ _) Hle). pose proof (comp_off u C r ltac:(lia)).
      rewrite (wrap_small 32 (related_off u r)) by lia. rewrite (bind_Done _ _ _ k s) by done.
      apply scan_forwards_ok; auto; [lia..|]. unfold bisect_fuel. lia.
Qed.

Lemma walk_rec_ok n : walks n (__liballocs_walk_subobjects_spanning_rec cb n).
Proof.
  induction n as [|n IH]; intros accum depth target u s N Sm; destruct (nested_inv _ _ N) as (m & Em & Hm); [done|].
  injection Em as <-. destruct Hm as [(Ha & Hc & Hl & Hp & Hs & Hn)|(Ha & C & Hn)].
  - by apply walk_array.
  - by apply walk_composite.
Qed.
End walk.

(** ** The first subobject *)

Lemma first_subobject_ok {B : Build} n u target c p :
  nested n u -> 0 <= target < 2 ^ 32 ->
  __liballocs_first_subobject_spanning (Cursor target u c p) =
    match members u target with
    | [] => Done (false, Cursor target u c p)
    | (i, off) :: _ => Done (true, Cursor (target - off) (related_ptr u i) u (u, i))
    end.
Proof.
  intros N Ht. destruct (nested_inv _ _ N) as (m & -> & Hm). unfold __liballocs_first_subobject_spanning.
  cbn [gets]. rewrite (bind_Done _ _ _ (Cursor target u c p) (Cursor target u c p)) by done. cbn [c_type c_offset].
  destruct Hm as [(Ha & Hc & Hl & Hp & Hs & Hn)|(Ha & C & Hn)]; rewrite Ha.
  - unfold members. rewrite Ha, (proj2 (Z.eqb_neq _ _)) by lia. cbn [negb andb].
    destruct (_ <? _); [|done]. rewrite Z.mod_eq, (Z.mul_comm (pos_maxoff _)) by lia. done.
  - pose proof (comp_count u C) as Hc. rewrite int32_index by lia. destruct (decide (count u = 0)) as [E0|N0].
    + rewrite members_none by auto. unfold bisect_fuel. rewrite E0.
      rewrite (bind_Done _ _ _ (0, 0) (Cursor target u c p)) by done. change (int32 (0 + 1) =? 0) with false. cbv iota.
      by rewrite (bind_Done _ _ _ tt (Cursor target u c p)) by (by apply assert_true).
    + destruct (search_ok u C int32 target (Cursor target u c p)) as (r & Eb & Hr & Hcase); [apply int32_index|done|lia|].
      rewrite (bind_Done _ _ _ _ _ Eb). rewrite int32_index, Z.eqb_refl by lia.
      rewrite (bind_Done _ _ _ (related_off u r) (Cursor target u c p)) by (apply member_off_ok; lia).
      destruct Hcase as [[Hlt ->]|[Hle (k & Es & Hk & Ek & Hj & ->)]]; [by rewrite (proj2 (Z.ltb_lt _ _) Hlt)|].
      rewrite (proj2 (Z.ltb_ge _ _) Hle). pose proof (comp_off u C r ltac:(lia)).
      rewrite (bind_Done _ _ _ tt (Cursor target u c p)) by (apply assert_true, Z.leb_le; lia).
      rewrite (bind_Done _ _ _ _ _ Es), (bind_Done _ _ _ (related_off u k) (Cursor target u c p))
        by (apply member_off_ok; lia).
      rewrite seqZ_cons, filter_cons_True by (done || lia). cbn. by rewrite wrap_small by lia.
Qed.
(** ** The search for a type *)

Lemma members_cases u target : UNIQTYPE_IS_ARRAY_TYPE u = false -> composite u ->
  members u target = [] \/
  exists k, 0 <= k < count u /\ related_off u k <= target /\
    (forall j, k <= j < count u -> related_off u k <= related_off u j) /\
    members u target = (fun i => (i, related_off u i)) <$>
      filter (fun i => related_off u i = related_off u k) (seqZ k (count u - k)).
Proof.
  intros Ha C. pose proof (comp_count u C). destruct (decide (count u = 0)) as [E0|N0]; [left; by apply members_none; auto|].
  destruct (search_ok (B := release) u C wrap32 target tt) as (r & _ & Hr & [[_ ->]|[Hle (k & _ & Hk & Ek & Hj & ->)]]);
    [apply wrap32_index|done|lia|by left|].
  right. exists k. rewrite Ek. split_and!; [lia..|done|done].
Qed.

(** On success the position reported is that of a member that matches. *)
Definition located (u : Z) (good : Z -> Prop) (r : report) : Prop :=
  exists i, good i /\ cur_containing_uniqtype r = u /\ cur_contained_pos r = (u, i).

Section try.
Context {B : Build} (rec : Z -> Z -> M report bool) (f : Z -> bool) (sub u : Z).

Lemma try_composite k i r :
  composite u -> 0 <= i < count u -> (forall j, i <= j < count u -> related_off u i <= related_off u j) ->
  (forall j r, i <= j < count u -> exists r', rec sub (related_ptr u j) r = Done (f j, r')) ->
  (Z.to_nat (count u - i) <= k)%nat ->
  exists r', try_subobjects k rec sub u i r =
      Done (existsb f (filter (fun j => related_off u j = related_off u i) (seqZ i (count u - i))), r') /\
    (existsb f (filter (fun j => related_off u j = related_off u i) (seqZ i (count u - i))) = true ->
     located u (fun j => i <= j < count u /\ related_off u j = related_off u i /\ f j = true) r').
Proof.
  intros C. pose proof (comp_count u C). revert i r.
  induction k as [|k IH]; intros i r Hi Ho Hrec Hk; [lia|]. cbn [try_subobjects].
  destruct (Hrec i r) as (r1 & E1); [lia|]. rewrite (bind_Done _ _ _ _ _ E1).
  rewrite seqZ_cons, filter_cons_True by (done || lia). cbn [existsb].
  replace (Z.succ i) with (i + 1) by lia. replace (Z.pred (count u - i)) with (count u - (i + 1)) by lia.
  destruct (f i) eqn:Ef; cbn [orb].
  { eexists. split; [done|]. intros _. exists i. split_and!; [lia..|done|done|done|done]. }
  rewrite (bind_Done _ _ _ tt r1) by (apply assert_true; rewrite (proj2 (Z.ltb_lt i _)) by lia; apply orb_true_r).
  rewrite !(wrap_small 32) by lia.
  destruct (Z.leb_spec (count u) (i + 1)); cbn [orb].
  { rewrite seqZ_nil by lia. by exists r1. }
  destruct (Z.eqb_spec (related_off u (i + 1)) (related_off u i)) as [E|N]; cbn [negb].
  - rewrite <- E. destruct (IH (i + 1) r1) as (r' & E' & L); [lia| | |lia|].
    + intros j Hj. rewrite E. apply Ho. lia.
    + intros j r0 Hj. apply Hrec. lia.
    + exists r'. split; [done|]. intros Hex. destruct (L Hex) as (j & (? & ? & ?) & ?). exists j. split; [|done].
      split_and!; [lia..|done|done].
  - rewrite filter_none; [by exists r1|]. intros j Hj%elem_of_seqZ Ej.
    pose proof (comp_sorted u C (i + 1) j). specialize (Ho (i + 1)). lia.
Qed.

Lemma try_array k r : count u = 0 -> (0 < k)%nat -> (forall r, exists r', rec sub (related_ptr u 0) r = Done (f 0, r')) ->
  exists r', try_subobjects k rec sub u 0 r = Done (f 0, r') /\ (f 0 = true -> located u (fun j => j = 0) r').
Proof.
  intros Hc Hk Hrec. destruct k as [|k]; [lia|]. cbn [try_subobjects]. destruct (Hrec r) as (r1 & E1).
  rewrite (bind_Done _ _ _ _ _ E1). destruct (f 0).
  - eexists. split; [done|]. intros _. by exists 0.
  - rewrite (bind_Done _ _ _ tt r1) by (by apply assert_true). rewrite Hc. by exists r1.
Qed.
End try.

Lemma existsb_run (g : Z -> Z -> bool) u o l :
  existsb (fun io => g (snd io) (fst io)) ((fun i => (i, related_off u i)) <$> filter (fun i => related_off u i = o) l) =
  existsb (g o) (filter (fun i => related_off u i = o) l).
Proof.
  induction l as [|i l IH]; [done|]. rewrite filter_cons. case_decide as E; [|done]. cbn. by rewrite E, <- IH.
Qed.

Section find_matching.
Context {B : Build} (test : Z).
Abbreviation find n := (fun t v => __liballocs_find_matching_subobject n t v test).

(** The object itself matches. *)
Definition at_once (target u : Z) : bool := (target =? 0) && ((test =? 0) || (u =? test)).

Lemma find_step n u target r : nested (S n) u -> 0 <= target < 2 ^ 32 -> at_once target u = false ->
  find (S n) target u r =
  match members u target with
  | [] => Done (false, r)
  | (i, off) :: _ => try_subobjects (bisect_fuel u) (find n) (target - off) u i
      (set_attempt (related_ptr u i) (target - off) (add_cumulative (related_off u i) r))
  end.
Proof.
  intros N Ht E0. cbn [__liballocs_find_matching_subobject]. fold (at_once target u). rewrite E0.
  rewrite (first_subobject_ok (S n) u target 0 (0, 0) N Ht). destruct (members u target) as [|[i off] l]; [done|].
  cbn [negb c_pos c_type c_offset c_containing fst snd].
  do 2 erewrite (bind_Done _ _ _ tt) by done. by erewrite (bind_Done _ _ _ tt) by (apply assert_true, Z.eqb_refl).
Qed.

(** What the search returns. *)
Definition found (n : nat) (u target : Z) (r : report) : Prop :=
  exists r', find n target u r = Done (matches n target u test, r') /\
    (matches n target u test = true ->
     (at_once target u = true /\ cur_containing_uniqtype r' = 0) \/
     located u (fun i => exists off, (i, off) ∈ members u target /\
       matches (pred n) (target - off) (related_ptr u i) test = true) r').

Lemma find_array n u target r :
  nested (S n) u -> UNIQTYPE_IS_ARRAY_TYPE u = true -> count u = 0 -> 0 < pos_maxoff (related_ptr u 0) ->
  0 <= target < 2 ^ 32 -> at_once target u = false ->
  (forall t r, 0 <= t < 2 ^ 32 -> found n (related_ptr u 0) t r) -> found (S n) u target r.
Proof.
  intros N Ha Hc Hp Ht E0 IH. unfold found. rewrite (find_step n u target r N Ht E0). cbn [matches pred].
  fold (at_once target u). rewrite E0. unfold members. rewrite Ha. set (p := pos_maxoff (related_ptr u 0)) in *.
  destruct (_ <? _) eqn:El; [|by exists r].
  assert (0 <= target - target / p * p < 2 ^ 32) as Hr.
  { pose proof (Z.div_mod target p ltac:(lia)). pose proof (Z.mod_pos_bound target p ltac:(lia)).
    pose proof (Z.mod_le target p ltac:(lia) ltac:(lia)). lia. }
  cbn [existsb fst snd]. rewrite orb_false_r. cbn [orb].
  set (r0 := set_attempt _ _ _).
  destruct (try_array (find n) (fun j => matches n (target - target / p * p) (related_ptr u j) test)
    (target - target / p * p) u (bisect_fuel u) r0) as (r' & E' & L); [done|unfold bisect_fuel; lia| |].
  - intros r1. destruct (IH _ r1 Hr) as (r2 & E2 & _). by exists r2.
  - exists r'. split; [done|]. intros Hx. right. destruct (L Hx) as (i & -> & Hi). exists 0. split; [|done].
    eexists. split; [by left|done].
Qed.

Lemma find_composite n u target r :
  nested (S n) u -> UNIQTYPE_IS_ARRAY_TYPE u = false -> composite u -> 0 <= target < 2 ^ 32 ->
  at_once target u = false ->
  (forall i t r, 0 <= i < count u -> 0 <= t < 2 ^ 32 -> found n (related_ptr u i) t r) -> found (S n) u target r.
Proof.
  intros N Ha C Ht E0 IH. pose proof (find_step n u target r N Ht E0) as Ef. unfold found. cbn [matches pred].
  fold (at_once target u). rewrite E0. cbn [orb].
  destruct (members_cases u target Ha C) as [Em|(k & Hk & Hle & Hj & Em)]; rewrite Em in Ef |- *; [by exists r|].
  rewrite (existsb_run (fun o i => matches n (target - o) (related_ptr u i) test)).
  rewrite (seqZ_cons k), filter_cons_True, fmap_cons in Ef by (done || lia).
  pose proof (comp_off u C k Hk). set (r0 := set_attempt _ _ _) in Ef.
  destruct (try_composite (find n) (fun j => matches n (target - related_off u k) (related_ptr u j) test)
    (target - related_off u k) u (bisect_fuel u) k r0) as (r' & E' & L); [done..| |unfold bisect_fuel; lia|].
  - intros j r1 Hjc. destruct (IH j (target - related_off u k) r1) as (r2 & E2 & _); [lia..|]. by exists r2.
  - exists r'. split; [by rewrite Ef|]. intros Hx. right. destruct (L Hx) as (i & (Hi & Eo & Hmi) & Hloc).
    exists i. split; [|done]. exists (related_off u i). split; [|by rewrite Eo]. apply list_elem_of_fmap.
    exists i. split; [done|]. apply list_elem_of_filter. split; [done|]. apply elem_of_seqZ. lia.
Qed.

Lemma find_matching_ok n : forall u target r, nested n u -> 0 <= target < 2 ^ 32 -> found n u target r.
Proof.
  induction n as [|n IH]; intros u target r N Ht; pose proof (nested_inv _ _ N) as (m & Em & Hm); [done|].
  injection Em as <-. destruct (at_once target u) eqn:E0.
  { unfold found. cbn [__liballocs_find_matching_subobject matches pred]. fold (at_once target u). rewrite E0. cbn [orb].
    eexists. split; [done|]. intros _. by left. }
  destruct Hm as [(Ha & Hc & Hl & Hp & Hs & Hn)|(Ha & C & Hn)].
  - apply find_array; auto; lia.
  - apply find_composite; auto.
Qed.
End find_matching.
End facts.
