(* ===== verification/Query.v ===== *)
(** The query interface: [__liballocs_get_alloc_info] of
    src/include/liballocs.h and the functions of src/src/query.c.

    A query asks the page index for the leaf allocator of an address and then
    that allocator, through a pointer to a function.  The allocators' functions
    and the types' [make_precise] are the parameters of [QueryEnv]; an absent
    function is a null pointer, a type that is absent is 0. *)
From S2P Require Import Prelude Vas BigAlloc PageIndex PageIndexQuery MappingSeq Mmap MemrangeCache.
From S2P Require Import Uniqtype Subobject.

Record qstate := QState {
  q_mmap : mstate;
  q_cache : cache;
  __liballocs_aborted_unknown_storage : Z;
}.

(** What [get_info] writes through its out-parameters. *)
Record alloc_info := AllocInfo {
  i_type : Z;
  i_start : Z;
  i_size : Z;
  i_site : Z;
}.
Definition no_info : alloc_info := AllocInfo 0 0 0 0.

Class QueryEnv := {
  is_cacheable : Z -> bool;
  (** allocator, object, bigalloc *)
  get_info : Z -> Z -> Z -> M qstate (Z * alloc_info);
  has_set_type : Z -> bool;
  (** allocator, bigalloc or null, object, type *)
  set_type : Z -> Z -> Z -> Z -> M qstate Z;
  has_make_precise : Z -> bool;
  (** type, object, start, size *)
  make_precise : Z -> Z -> Z -> Z -> M qstate Z;
  pointer_to___uniqtype____uninterpreted_byte : Z;
  err_object_of_unknown_storage : Z;
  err_unrecognised_alloc_site : Z;
  err_unrecognised_static_object : Z;
  (** the deepest nesting of the types in use *)
  type_depth : nat;
}.

Definition on_qmmap {A} (m : M mstate A) : M qstate A := fun s =>
  match m (q_mmap s) with
  | Done (a, t) => Done (a, QState t (q_cache s) (__liballocs_aborted_unknown_storage s))
  | Abort => Abort
  | NoFuel => NoFuel
  end.
Definition on_qtable {A} (m : M state A) : M qstate A := on_qmmap (on_bigallocs m).
Definition on_qcache {A} (m : M cache A) : M qstate A := fun s =>
  match m (q_cache s) with
  | Done (a, c) => Done (a, QState (q_mmap s) c (__liballocs_aborted_unknown_storage s))
  | Abort => Abort
  | NoFuel => NoFuel
  end.

Section ops.
Context {V : Vas} {H : Hooks} {B : Build} {E : MmapEnv} {U : UniqtypeEnv} {Q : QueryEnv}.

Definition aborted_unknown_storage : M qstate unit :=
  modify (fun s => QState (q_mmap s) (q_cache s) (wrap64 (__liballocs_aborted_unknown_storage s + 1))).

(** The error, the allocator if it is written, and the information. *)
Definition __liballocs_get_alloc_info (obj : Z) : M qstate (Z * Z * alloc_info) :=
  ab ← on_qtable (__liballocs_leaf_allocator_for obj);
  ab ← (if fst ab =? 0 then
          fixed ← on_qtable (__liballocs_notify_unindexed_address obj);
          if (fixed : bool) then
            ab ← on_qtable (__liballocs_leaf_allocator_for obj);
            if fst ab =? 0 then abort else mret (Some ab)
          else aborted_unknown_storage ;; mret None
        else mret (Some ab));
  match ab with
  | None => mret (err_object_of_unknown_storage, 0, no_info)
  | Some ab =>
    ei ← get_info (fst ab) obj (default 0 (snd ab));
    mret (fst ei, fst ab, snd ei)
  end.

Definition __liballocs_get_base (obj : Z) : M qstate Z :=
  hit ← on_qcache (__liballocs_memrange_cache_lookup_notype obj 0);
  d ← on_qcache (gets (fun c => depth (ent c hit)));
  if negb (hit =? 0) && (d =? 0) then on_qcache (gets (fun c => obj_base (ent c hit))) else
  r ← __liballocs_get_alloc_info obj;
  let '(err, a, i) := r in
  if negb (err =? 0) && negb (err =? err_unrecognised_alloc_site) then mret 0 else
  when (negb (a =? 0) && is_cacheable a)
    (on_qcache (__liballocs_cache_with_type (i_start i) (wrap64 (i_start i + i_size i))
                  pointer_to___uniqtype____uninterpreted_byte 0 1)) ;;
  mret (i_start i).
Definition __liballocs_get_alloc_base := __liballocs_get_base.

(** The result and what is written to [*out_a] and [*out_num]. *)
Definition __liballocs_get_alloc_base_with_fill (obj : Z) : M qstate (Z * Z * option Z) :=
  r ← __liballocs_get_alloc_info obj;
  let '(err, a, i) := r in
  if negb (err =? 0) then mret (0, a, None) else
  n ← on_qtable (pi_get (PAGENUM obj));
  mret (i_start i, a, Some n).

Definition __liballocs_get_type (obj : Z) : M qstate Z :=
  r ← __liballocs_get_alloc_info obj;
  let '(err, _, i) := r in
  if negb (err =? 0) then mret 0 else mret (i_type i).
Definition __liballocs_get_alloc_type := __liballocs_get_type.

Definition __liballocs_get_alloc_type_with_fill (obj : Z) : M qstate (Z * Z * option Z) :=
  r ← __liballocs_get_alloc_info obj;
  let '(err, a, i) := r in
  if negb (err =? 0) then mret (0, a, None) else
  n ← on_qtable (pi_get (PAGENUM obj));
  mret (i_type i, a, Some n).

Definition __liballocs_get_outermost_type (obj : Z) : M qstate Z := __liballocs_get_alloc_type obj.

(** The loop over subobjects changes the locals only. *)
Definition run_cursor {A} (m : M cursor A) (c : cursor) : M qstate cursor := fun s =>
  match m c with
  | Done (_, c) => Done (c, s)
  | Abort => Abort
  | NoFuel => NoFuel
  end.

Definition __liballocs_get_inner_type (obj skip_at_bottom : Z) : M qstate Z :=
  r ← __liballocs_get_alloc_info obj;
  let '(err, _, i) := r in
  if negb (err =? 0) then mret 0 else
  let target := wrap32 (obj - i_start i) in
  if i_type i =? 0 then abort else
  u ← (if has_make_precise (i_type i) then make_precise (i_type i) obj (i_start i) (i_size i)
       else mret (i_type i));
  c ← run_cursor (descend (S type_depth)) (Cursor target u 0 (0, 0));
  mret (if skip_at_bottom =? 0 then c_type c else if skip_at_bottom =? 1 then c_containing c else 0).

Definition __liballocs_set_alloc_type (obj type : Z) : M qstate unit :=
  ab ← on_qtable (__liballocs_leaf_allocator_for obj);
  let '(a, b) := ab in
  if (a =? 0) || negb (has_set_type a) then mret tt else
  set_type a (default 0 b) obj type ;;
  if NDEBUG then mret tt else
  t ← __liballocs_get_alloc_type obj;
  assert (t =? type).

Definition __liballocs_get_alloc_site (obj : Z) : M qstate Z :=
  r ← __liballocs_get_alloc_info obj; mret (i_site (snd r)).

Definition __liballocs_get_alloc_size (obj : Z) : M qstate Z :=
  r ← __liballocs_get_alloc_info obj;
  let '(err, _, i) := r in
  if negb (err =? 0) && negb (err =? err_unrecognised_alloc_site) then mret 0 else mret (i_size i).

Definition __liballocs_get_leaf_allocator (obj : Z) : M qstate Z :=
  r ← __liballocs_get_alloc_info obj;
  let '(err, a, _) := r in
  if negb (err =? 0) && negb (err =? err_unrecognised_alloc_site) && negb (err =? err_unrecognised_static_object)
  then mret 0 else mret a.

(** The bigalloc and the index of the entry in its sequence. *)
Definition __liballocs_get_memory_mapping (obj : Z) : M mstate (option (Z * nat)) :=
  b ← on_bigallocs (__lookup_bigalloc_top_level obj);
  if b =? 0 then mret None else
  r ← on_bigallocs (rd id b);
  assert (allocated_by r =? mmap_allocator) ;;
  if allocator_private r =? 0 then mret None else
  found ← on_seq (allocator_private r) (gets (__mmap_allocator_find_entry obj));
  mret ((fun i => (b, i)) <$> found).

Definition __liballocs_get_specific_by_allocator (obj a : Z) : M qstate Z :=
  b ← on_qtable (__lookup_bigalloc_from_root obj a);
  if negb (b =? 0) then on_qtable (rd allocator_private b) else mret 0.
End ops.
