(* ===== verification/QueryFacts.v ===== *)
(** Correctness of the queries: the innermost type, the cached base address
    and the memory mapping of an address. *)
From S2P Require Import Prelude Vas BigAlloc PageIndex PageIndexQuery BigAllocFacts Forest QueryCorrect.
From S2P Require Import MappingSeq MappingSeqFacts Mmap MmapFacts MemrangeCache MemrangeCacheFacts.
From S2P Require Import Reachable Uniqtype Subobject SubobjectFacts Query.

(** ** Descending to the innermost subobject *)

Section inner.
Context {U : UniqtypeEnv} {B : Build}.

(** Always into the first subobject that spans the offset: the last type and
    the one that contains it. *)
Fixpoint innermost (n : nat) (u target containing : Z) : Z * Z :=
  match n with
  | O => (u, containing)
  | S n =>
    match members u target with
    | [] => (u, containing)
    | (i, off) :: _ => innermost n (related_ptr u i) (target - off) u
    end
  end.

Lemma members_child n u target i off :
  nested (S n) u -> 0 <= target < 2 ^ 32 -> (i, off) ∈ members u target ->
  nested n (related_ptr u i) /\ 0 <= target - off < 2 ^ 32.
Proof.
  intros N Ht Hi. destruct (nested_inv _ _ N) as (m & [= <-] & [(Ha & _ & _ & Hp & _ & Hn)|(Ha & C & Hn)]);
    unfold members in Hi; rewrite Ha in Hi.
  - destruct (_ <? _); [|by apply not_elem_of_nil in Hi]. apply list_elem_of_singleton in Hi as [= -> ->].
    split; [done|]. set (p := pos_maxoff _) in *. pose proof (Z.div_mod target p ltac:(lia)).
    pose proof (Z.mod_pos_bound target p ltac:(lia)). pose proof (Z.mod_le target p ltac:(lia) ltac:(lia)). lia.
  - apply list_elem_of_fmap in Hi as (j & [= -> ->] & Hj). apply list_elem_of_filter in Hj as [[Hle _] Hj%elem_of_seqZ].
    split; [apply Hn; lia|]. pose proof (comp_off u C j). lia.
Qed.

Lemma descend_ok n k u target c p :
  nested n u -> 0 <= target < 2 ^ 32 -> (n <= k)%nat ->
  exists c', descend k (Cursor target u c p) = Done (tt, c') /\ (c_type c', c_containing c') = innermost n u target c.
Proof.
  intros N. revert k u target c p N. induction n as [|n IH]; intros k u target c p N Ht Hk.
  { by destruct (nested_inv _ _ N) as (? & ? & _). }
  destruct k as [|k]; [lia|]. cbn [descend innermost].
  pose proof (first_subobject_ok (S n) u target c p N Ht) as Ef.
  pose proof (members_child n u target) as Hc.
  destruct (members u target) as [|[i off] l]; rewrite (bind_Done _ _ _ _ _ Ef).
  - by exists (Cursor target u c p).
  - destruct (Hc i off N Ht ltac:(by left)) as [Hn Hr]. apply IH; [done|done|lia].
Qed.
End inner.

(** ** The cached base *)

(** An allocator's [get_info] is a query: what it answers for an object is
    settled, and it leaves the table and the cache alone. *)
Class QueryLaws `{Q : QueryEnv} := {
  describe : Z -> Z -> Z -> Z * alloc_info;
  get_info_ok a obj b s : exists s', get_info a obj b s = Done (describe a obj b, s') /\
    q_mmap s' = q_mmap s /\ q_cache s' = q_cache s;
}.

Section base.
Context {V : Vas} {VL : VasLaws V} {H : Hooks} {E : MmapEnv} {U : UniqtypeEnv} {Q : QueryEnv} {QL : QueryLaws}.

Definition q_table (s : qstate) : state := m_table (q_mmap s).
Definition leaf (t : state) (d : Z) : Z :=
  if decide (suballocator (ba t d) = 0) then allocated_by (ba t d) else suballocator (ba t d).

(** The full query finds the object at [start]. *)
Definition based (t : state) (obj start : Z) : Prop :=
  exists d, deepest_at t obj d /\
    (fst (describe (leaf t d) obj d) = 0 \/ fst (describe (leaf t d) obj d) = err_unrecognised_alloc_site) /\
    i_start (snd (describe (leaf t d) obj d)) = start.

(** Every leaf-level entry of the cache agrees with the full query. *)
Definition coherent (s : qstate) (l : list Z) : Prop :=
  mru (q_cache s) l /\
  forall k obj, k ∈ l -> depth (ent (q_cache s) k) = 0 -> notype_hit obj 0 (ent (q_cache s) k) = true ->
    based (q_table s) obj (obj_base (ent (q_cache s) k)).

(** Objects that may be cached are whole: each of their addresses has the same
    base. *)
Definition whole (t : state) : Prop := forall obj d,
  deepest_at t obj d -> is_cacheable (leaf t d) = true ->
  let i := snd (describe (leaf t d) obj d) in
  0 <= i_start i /\ 0 <= i_size i /\ i_start i + i_size i < 2 ^ 64 /\
  forall obj', i_start i <= obj' < i_start i + i_size i -> based t obj' (i_start i).

Lemma notype_hit_payload e e' obj per : payload e = payload e' -> notype_hit obj per e = notype_hit obj per e'.
Proof. unfold payload. intros [= E1 E2 E3 E4 E5]. unfold notype_hit, in_range, period_hit. by rewrite E1, E2, E4. Qed.

Lemma based_payload t e e' obj : payload e = payload e' -> based t obj (obj_base e) -> based t obj (obj_base e').
Proof. unfold payload. by intros [= -> _ _ _ _]. Qed.

Lemma coherent_touch s l l' c' :
  coherent s l -> mru c' l' -> (forall k, k ∈ l' -> k ∈ l) -> same_payload (q_cache s) c' ->
  coherent (QState (q_mmap s) c' (__liballocs_aborted_unknown_storage s)) l'.
Proof.
  intros [M C] M' Hl [_ P]. split; [done|]. cbn. intros k obj Hk Hd Hh. specialize (P k).
  apply (based_payload _ (ent (q_cache s) k)); [done|]. apply C; [by apply Hl| |].
  - unfold payload in P. injection P as _ _ _ _ E5. congruence.
  - by rewrite <- (notype_hit_payload _ _ _ _ P).
Qed.

Lemma coherent_fill s l obj d :
  coherent s l -> whole (q_table s) -> deepest_at (q_table s) obj d -> is_cacheable (leaf (q_table s) d) = true ->
  let i := snd (describe (leaf (q_table s) d) obj d) in
  exists c' l', __liballocs_cache_with_type (B := release) (i_start i) (wrap64 (i_start i + i_size i))
      pointer_to___uniqtype____uninterpreted_byte 0 1 (q_cache s) = Done (tt, c') /\
    coherent (QState (q_mmap s) c' (__liballocs_aborted_unknown_storage s)) l'.
Proof.
  intros [M C] W D Hc i. destruct (W obj d D Hc) as (H1 & H2 & H3 & Hw). fold i in H1, H2, H3, Hw.
  destruct (cache_with_type_ok (q_cache s) l (i_start i) (wrap64 (i_start i + i_size i))
    pointer_to___uniqtype____uninterpreted_byte 0 1 M) as (pos & c' & E' & _ & M' & P & P').
  exists c', (to_front pos l). split; [done|]. split; [done|]. cbn. intros k o Hk Hd Hh.
  destruct (decide (k = pos)) as [->|N].
  - unfold payload in P. injection P as E1 E2 _ _ _. rewrite E1. apply Hw.
    unfold notype_hit in Hh. apply andb_true_iff in Hh as [Hr _]. unfold in_range in Hr. rewrite E1, E2 in Hr.
    rewrite wrap_small in Hr by lia. lia.
  - specialize (P' k N). apply (based_payload _ (ent (q_cache s) k)); [done|]. apply C.
    + apply elem_of_cons in Hk as [->|Hk]; [done|]. by apply list_elem_of_filter in Hk as [_ Hk].
    + unfold payload in P'. injection P' as _ _ _ _ E5. congruence.
    + by rewrite <- (notype_hit_payload _ _ _ _ P').
Qed.

Lemma on_qtable_read {A} (m : M state A) s a : m (q_table s) = Done (a, q_table s) -> on_qtable m s = Done (a, s).
Proof. intros Em. unfold on_qtable, on_qmmap. rewrite (on_bigallocs_read _ _ _ Em). by destruct s. Qed.

(** The full query of an indexed address. *)
Lemma get_alloc_info_ok s obj d :
  wf (q_table s) -> index_ok (q_table s) -> user_address obj -> deepest_at (q_table s) obj d ->
  leaf (q_table s) d <> 0 ->
  exists s', __liballocs_get_alloc_info obj s =
      Done ((fst (describe (leaf (q_table s) d) obj d), leaf (q_table s) d, snd (describe (leaf (q_table s) d) obj d)), s') /\
    q_mmap s' = q_mmap s /\ q_cache s' = q_cache s.
Proof.
  intros W I Ha D Nz. destruct (get_info_ok (leaf (q_table s) d) obj d s) as (s' & Eg & E1 & E2).
  exists s'. split; [|done]. unfold __liballocs_get_alloc_info.
  rewrite (bind_Done _ _ _ _ _ (on_qtable_read _ s _ (leaf_allocator_ok (q_table s) obj d W I Ha D))).
  cbn [fst snd]. fold (leaf (q_table s) d). rewrite (proj2 (Z.eqb_neq _ _)) by done.
  rewrite (bind_Done _ _ _ (Some (leaf (q_table s) d, Some d)) s) by done. cbn [fst snd default].
  by rewrite (bind_Done _ _ _ _ _ Eg).
Qed.

(** A leaf-level hit, or the cache as good as before. *)
Lemma cache_hit s l obj : coherent s l ->
  exists hit s' l', on_qcache (__liballocs_memrange_cache_lookup_notype (B := release) obj 0) s = Done (hit, s') /\
    coherent s' l' /\ q_mmap s' = q_mmap s /\
    (hit <> 0 -> depth (ent (q_cache s') hit) = 0 -> based (q_table s) obj (obj_base (ent (q_cache s') hit))).
Proof.
  intros K. pose proof K as [M C].
  assert (El : __liballocs_memrange_cache_lookup_notype (B := release) obj 0 (q_cache s) =
    lookup_loop (B := release) 256 (notype_hit obj 0) (head_mru (q_cache s)) (q_cache s)) by done.
  unfold on_qcache. rewrite El.
  destruct (cache_search (q_cache s) l (notype_hit obj 0) M)
    as [[_ ->]|(k & la & lb & c' & -> & _ & Hh & -> & M' & P)].
  - exists 0, s, l. split_and!; [by destruct s|done..].
  - exists k, (QState (q_mmap s) c' (__liballocs_aborted_unknown_storage s)), (k :: la ++ lb).
    assert (K' : coherent (QState (q_mmap s) c' (__liballocs_aborted_unknown_storage s)) (k :: la ++ lb)).
    { apply (coherent_touch s (la ++ k :: lb)); [exact K|exact M'| |exact P]. clear. intros j.
      rewrite elem_of_cons, !elem_of_app, elem_of_cons. tauto. }
    split_and!; [done..|]. intros _ Hd. apply (proj2 K' k obj); [by left|done|]. cbn.
    by rewrite (notype_hit_payload _ _ _ _ (proj2 P k)).
Qed.

Lemma get_base_ok s l obj d :
  wf (q_table s) -> index_ok (q_table s) -> user_address obj -> deepest_at (q_table s) obj d ->
  leaf (q_table s) d <> 0 -> whole (q_table s) -> coherent s l ->
  let '(err, i) := describe (leaf (q_table s) d) obj d in
  exists s' l', __liballocs_get_base (B := release) obj s =
      Done (if decide (err = 0 \/ err = err_unrecognised_alloc_site) then i_start i else 0, s') /\
    coherent s' l' /\ q_mmap s' = q_mmap s.
Proof.
  intros W I Ha D Nz Wh K. destruct (describe (leaf (q_table s) d) obj d) as [err i] eqn:Ed.
  destruct (cache_hit s l obj K) as (hit & s1 & l1 & E1 & K1 & Em1 & Hb). unfold __liballocs_get_base.
  rewrite (bind_Done _ _ _ _ _ E1).
  rewrite (bind_Done _ _ _ (depth (ent (q_cache s1) hit)) s1) by (by destruct s1).
  destruct (negb (hit =? 0) && (depth (ent (q_cache s1) hit) =? 0)) eqn:Eh.
  - apply andb_true_iff in Eh as [Nh Hd]. apply negb_true_iff, Z.eqb_neq in Nh. apply Z.eqb_eq in Hd.
    destruct (Hb Nh Hd) as (d' & D' & He & Hs). rewrite <- (deepest_at_unique _ _ _ _ W D D'), Ed in He, Hs.
    exists s1, l1. rewrite decide_True by done. split_and!; [|done..]. cbn in Hs. rewrite Hs. by destruct s1.
  - assert (Et : q_table s1 = q_table s) by (unfold q_table; by rewrite Em1). rewrite <- Et in W, I, D, Nz, Ed, Wh.
    destruct (get_alloc_info_ok s1 obj d W I Ha D Nz) as (s2 & E2 & Em2 & Ec2).
    rewrite (bind_Done _ _ _ _ _ E2), Ed. cbn [fst snd].
    destruct (decide (err = 0 \/ err = err_unrecognised_alloc_site)) as [Hok|Hko].
    + replace (negb (err =? 0) && negb (err =? err_unrecognised_alloc_site)) with false
        by (destruct Hok as [->| ->]; by rewrite Z.eqb_refl, ?andb_false_r).
      rewrite (proj2 (Z.eqb_neq _ _)) by done. cbn [negb andb].
      assert (K2 : coherent s2 l1) by (unfold coherent, q_table; rewrite Em2, Ec2; exact K1).
      destruct (is_cacheable (leaf (q_table s1) d)) eqn:Hca; cbn [when].
      * assert (Et2 : q_table s2 = q_table s1) by (unfold q_table; by rewrite Em2). rewrite <- Et2 in D, Hca, Ed, Wh.
        destruct (coherent_fill s2 l1 obj d K2 Wh D Hca) as (c' & l' & E' & K'). rewrite Ed in E'. cbn [snd] in E'.
        exists (QState (q_mmap s2) c' (__liballocs_aborted_unknown_storage s2)), l'.
        split_and!; [|done|by rewrite <- Em1, <- Em2].
        erewrite (bind_Done _ _ _ tt); [done|]. unfold when, on_qcache. by rewrite E'.
      * exists s2, l1. split_and!; [done..|by rewrite Em2].
    + apply Decidable.not_or in Hko as [N1 N2]. rewrite !(proj2 (Z.eqb_neq _ _)) by done.
      exists s2, l1. split_and!; [done| |by rewrite Em2]. unfold coherent, q_table. rewrite Em2, Ec2. exact K1.
Qed.
End base.

(** ** The mapping at an address *)

Lemma find_entry_ok p q l a i0 : contig p q l -> p <= a < q ->
  exists i e, find_entry_from l i0 a = Some (i0 + i)%nat /\ l !! i = Some e /\ e_begin e <= a < e_end e.
Proof.
  induction l as [|e l IH] in p, i0 |- *; [simpl; lia|]. intros (<- & He & C) Ha. cbn [find_entry_from].
  destruct (Z.ltb_spec a (e_end e)).
  - rewrite (proj2 (Z.leb_le _ _)) by lia. exists 0%nat, e. split_and!; [f_equal; lia|done|lia..].
  - rewrite andb_false_r. destruct (IH (e_end e) (S i0) C ltac:(lia)) as (i & x & -> & Ei & Hx).
    exists (S i), x. split_and!; [f_equal; lia|done|lia..].
Qed.

Section mapping.
Context {V : Vas} {VL : VasLaws V} {H : Hooks} {B : Build} {E : MmapEnv}.

Lemma get_memory_mapping_ok s obj b p :
  mmap_ok s -> user_address obj -> owner s b p -> contains (m_table s) b obj ->
  exists es i e, described s b p es /\ es !! i = Some e /\ e_begin e <= obj < e_end e /\
    __liballocs_get_memory_mapping obj s = Done (Some (b, i), s).
Proof.
  intros K Ha O C. pose proof (mk_table _ K) as T. destruct (mk_seq _ K b p O) as (es & Ds).
  pose proof Ds as (q & j & Eq & Ok & Eb & Ee). pose proof O as (Ub & Eal & Epr).
  assert (Hr : seq_begin q <= obj < seq_end q) by (rewrite Eb, Ee; exact C).
  destruct (find_entry_ok _ _ _ _ 0 (sq_contig _ _ _ Ok) Hr) as (i & e & Ef & Ei & He).
  exists es, i, e. split_and!; [done..|lia|lia|].
  destruct (index_spans (m_table s) obj (tk_wf _ T) (tk_index _ T) Ha ltac:(by exists b)) as [Un Cn].
  destruct (root_loop_ok (m_table s) (tk_wf _ T) _ Un) as (r & Er & Ar & Ur & Pr).
  assert (r = b) as ->.
  { apply (siblings_same (m_table s) r b obj (tk_wf _ T) Ur Ub); [rewrite Pr; symmetry; exact (mk_top _ K b p O)| |done].
    by apply (ancestor_contains (m_table s) r _ obj (tk_wf _ T) Un Ar Cn). }
  unfold __liballocs_get_memory_mapping.
  rewrite (bind_Done _ _ _ b s).
  2: { apply on_bigallocs_read. unfold __lookup_bigalloc_top_level. rewrite (bind_Done _ _ _ _ _ (eq_refl : pi_get _ _ = _)).
       by rewrite (proj2 (Z.eqb_neq _ _) (used_nonzero _ _ (tk_wf _ T) Un)). }
  rewrite (proj2 (Z.eqb_neq _ _) (used_nonzero _ _ (tk_wf _ T) Ub)).
  rewrite (bind_Done _ _ _ (ba (m_table s) b) s) by (by apply on_bigallocs_read).
  rewrite (bind_Done _ _ _ tt s) by (apply assert_true; rewrite Eal; apply Z.eqb_refl).
  rewrite (proj2 (Z.eqb_neq _ _)) by (rewrite Epr; apply (mk_nonnull _ K b p O)).
  rewrite (bind_Done _ _ _ (Some i) s); [done|]. rewrite Epr.
  apply (on_seq_read p _ s q (Some i)); [done|]. unfold gets. do 2 f_equal.
  unfold __mmap_allocator_find_entry. rewrite (sq_nused _ _ _ Ok), (sq_maps _ _ _ Ok), take_app_length. exact Ef.
Qed.

Lemma get_memory_mapping_none s obj :
  mmap_ok s -> user_address obj -> (forall i, used (m_table s) i -> ~ contains (m_table s) i obj) ->
  __liballocs_get_memory_mapping obj s = Done (None, s).
Proof.
  intros K Ha Hu. pose proof (mk_table _ K) as T. unfold __liballocs_get_memory_mapping.
  rewrite (bind_Done _ _ _ 0 s); [done|]. apply on_bigallocs_read. unfold __lookup_bigalloc_top_level.
  rewrite (bind_Done _ _ _ _ _ (eq_refl : pi_get _ _ = _)).
  by rewrite (index_none (m_table s) obj (tk_wf _ T) (tk_index _ T) Ha Hu).
Qed.
End mapping.
