(* ===== verification/QueryTheorems.v ===== *)
(** The contract of the query interface: subobjects, types, base addresses and
    mappings, with instances on concrete types and tables. *)
From S2P Require Import Prelude Vas BigAlloc PageIndex PageIndexQuery BigAllocFacts Forest QueryCorrect Reachable.
From S2P Require Import MappingSeq MappingSeqFacts Mmap MmapFacts MemrangeCache MemrangeCacheFacts Reachable.
From S2P Require Import Uniqtype Subobject SubobjectFacts Query QueryFacts Demo MappingTheorems.

Section subobjects.
Context {U : UniqtypeEnv} {B : Build}.

(** C19.  The walk over the subobjects spanning an offset, which bisects the
    members of each composite, makes the same calls in the same order as the
    linear definition: each subobject that spans the offset, from the outside
    in, every member of a union at the offset, up to the first call that does
    not return 0. *)
Theorem walk_spans {S : Type} (cb : visit -> M S Z) n target u s :
  nested n u -> 0 <= target < 2 ^ 32 -> Z.of_nat n < 2 ^ 32 ->
  __liballocs_walk_subobjects_spanning cb n target u s = run_until cb (spanning n 0 0 target u) s.
Proof. intros N Ht Hn. apply walk_rec_ok; [done|]. unfold small. lia. Qed.

(** C20.  The search for a subobject of a type returns, and succeeds exactly
    when a subobject of that type begins at the offset; it then reports the
    position of the member, in the outermost object, that leads to it. *)
Theorem find_matching n u target test r :
  nested n u -> 0 <= target < 2 ^ 32 -> found test n u target r.
Proof. intros N Ht. by apply find_matching_ok. Qed.
End subobjects.

Section queries.
Context {V : Vas} {VL : VasLaws V} {H : Hooks} {E : MmapEnv} {U : UniqtypeEnv} {Q : QueryEnv} {QL : QueryLaws}.

(** C21.  The inner type of an address inside an object with a known type is
    the type at the end of the descent into the first subobject that spans the
    address, or the type that contains that one. *)
Theorem inner_type s obj d skip :
  wf (q_table s) -> index_ok (q_table s) -> user_address obj -> deepest_at (q_table s) obj d ->
  leaf (q_table s) d <> 0 -> fst (describe (leaf (q_table s) d) obj d) = 0 ->
  let i := snd (describe (leaf (q_table s) d) obj d) in
  nested type_depth (i_type i) -> i_type i <> 0 -> has_make_precise (i_type i) = false ->
  i_start i <= obj < i_start i + 2 ^ 32 -> skip = 0 \/ skip = 1 ->
  exists s', __liballocs_get_inner_type (B := release) obj skip s =
    Done ((if decide (skip = 0) then fst else snd) (innermost type_depth (i_type i) (obj - i_start i) 0), s').
Proof.
  intros W I Ha D Nz He i N Nt Hp Hr Hs. destruct (get_alloc_info_ok s obj d W I Ha D Nz) as (s' & Ei & _).
  exists s'. unfold __liballocs_get_inner_type. rewrite (bind_Done _ _ _ _ _ Ei), He. fold i. cbn [Z.eqb negb].
  rewrite (proj2 (Z.eqb_neq _ _) Nt), Hp. rewrite (bind_Done _ _ _ (i_type i) s') by done.
  rewrite (wrap_small 32) by lia.
  destruct (descend_ok (B := release) type_depth (S type_depth) (i_type i) (obj - i_start i) 0 (0, 0) N ltac:(lia) ltac:(lia))
    as (c & Ed & Ec).
  rewrite (bind_Done _ _ _ c s') by (unfold run_cursor; by rewrite Ed). rewrite <- Ec.
  by destruct Hs as [-> | ->].
Qed.

(** C22.  The base of an object is the same whether it comes from the cache or
    from the allocator: while the leaf-level entries of the cache agree with
    the allocators, a query returns what the allocator of the address answers,
    and the cache still agrees afterwards, the new entry included. *)
Theorem base_is_cached s l obj d :
  wf (q_table s) -> index_ok (q_table s) -> user_address obj -> deepest_at (q_table s) obj d ->
  leaf (q_table s) d <> 0 -> whole (q_table s) -> coherent s l ->
  let '(err, i) := describe (leaf (q_table s) d) obj d in
  exists s' l', __liballocs_get_base (B := release) obj s =
      Done (if decide (err = 0 \/ err = err_unrecognised_alloc_site) then i_start i else 0, s') /\
    coherent s' l' /\ q_mmap s' = q_mmap s.
Proof. apply get_base_ok. Qed.

(** The memory mapping of an address is the entry of its bigalloc's
    sequence that holds the address, and there is none exactly when no
    bigalloc covers the address. *)
Lemma memory_mapping_at {B : Build} s obj b p :
  mmap_ok s -> user_address obj -> owner s b p ->
  (contains (m_table s) b obj ->
   exists es i e, described s b p es /\ es !! i = Some e /\ e_begin e <= obj < e_end e /\
     __liballocs_get_memory_mapping obj s = Done (Some (b, i), s)) /\
  (uncovered (m_table s) obj -> __liballocs_get_memory_mapping obj s = Done (None, s)).
Proof.
  intros K Ha O. split.
  - by apply get_memory_mapping_ok.
  - by apply get_memory_mapping_none.
Qed.
End queries.

(** ** Instances *)

(** An int (1), an array of four (2), a struct of an int, an int and the array
    (3), and a union of an int and the struct (4). *)
#[local] Instance demo_types : UniqtypeEnv := {|
  UNIQTYPE_IS_ARRAY_TYPE u := u =? 2;
  UNIQTYPE_IS_COMPOSITE_TYPE u := (u =? 3) || (u =? 4);
  UNIQTYPE_IS_POINTER_TYPE _ := false;
  UNIQTYPE_ARRAY_LENGTH u := if u =? 2 then 4 else 0;
  UNIQTYPE_COMPOSITE_MEMBER_COUNT u := if u =? 3 then 3 else if u =? 4 then 2 else 0;
  pos_maxoff u := if u =? 1 then 4 else if u =? 2 then 16 else if (u =? 3) || (u =? 4) then 24 else 0;
  related_ptr u i := if u =? 4 then (if i =? 0 then 1 else 3) else if (u =? 3) && (i =? 2) then 2 else 1;
  related_off u i := if u =? 3 then 4 * i else 0;
|}.

Lemma int_nested n : nested (S n) 1.
Proof. apply nested_composite; [done|by_eval|intros; cbn in *; lia..]. Qed.

Lemma array_nested : nested 2 2.
Proof. apply nested_array; [done|done|by_eval..|apply int_nested]. Qed.

Lemma struct_nested : nested 3 3.
Proof.
  apply nested_composite; [done|by_eval| | |].
  - intros i Hi. cbn in *. lia.
  - intros i j Hi Hj. cbn in *. lia.
  - intros i Hi. cbn in Hi. assert (i = 0 \/ i = 1 \/ i = 2) as [->|[->| ->]] by lia; [apply int_nested..|apply array_nested].
Qed.

Lemma union_nested : nested 4 4.
Proof.
  apply nested_composite; [done|by_eval| | |].
  - intros i Hi. cbn in *. lia.
  - intros i j Hi Hj. cbn in *. lia.
  - intros i Hi. cbn in Hi. assert (i = 0 \/ i = 1) as [->| ->] by lia; [apply int_nested|apply struct_nested].
Qed.

(** A callback that records its arguments. *)
Definition record_visit (v : visit) : M (list visit) Z := modify (fun l => l ++ [v]) ;; mret 0.

Lemma walk_spans_witness :
  __liballocs_walk_subobjects_spanning (B := debug) record_visit 4 13 4 [] =
    run_until record_visit (spanning 4 0 0 13 4) [] /\
  spanning 4 0 0 13 4 = [Visit 1 0 1 4 0 0; Visit 3 0 1 4 1 0; Visit 2 8 2 3 2 0; Visit 1 12 3 2 0 8].
Proof.
  split; [|by vm_compute]. apply (walk_spans (B := debug) record_visit 4 13 4 []); [apply union_nested|by_eval..].
Defined.

Lemma find_matching_witness : found (B := debug) 2 4 4 8 (Report 0 0 0 0 (0, 0)) /\ matches 4 8 4 2 = true.
Proof. split; [|by vm_compute]. apply (find_matching 4 4 8 2); [apply union_nested|by_eval]. Defined.

(** Record 4 of [demo] holds one object, of the struct type. *)
#[local] Instance demo_queries : QueryEnv := {|
  is_cacheable a := a =? 79;
  get_info a obj b := mret (if a =? 79 then (0, AllocInfo 3 0x12800 24 0x5555) else (7, no_info));
  has_set_type _ := false;
  set_type _ _ _ _ := mret 0;
  has_make_precise _ := false;
  make_precise u _ _ _ := mret u;
  pointer_to___uniqtype____uninterpreted_byte := 1;
  err_object_of_unknown_storage := 7;
  err_unrecognised_alloc_site := 8;
  err_unrecognised_static_object := 9;
  type_depth := 3;
|}.
#[local] Instance demo_query_laws : QueryLaws.
Proof.
  refine {| describe a obj b := if a =? 79 then (0, AllocInfo 3 0x12800 24 0x5555) else (7, no_info) |}.
  intros a obj b s. by exists s.
Defined.

Definition demo_q : qstate := QState (MState demo ∅ 0) __liballocs_ool_cache 0.

Lemma demo_leaf : leaf demo 4 = 79.
Proof. by vm_compute. Qed.

Lemma inner_type_witness :
  exists s', __liballocs_get_inner_type (B := release) 0x1280c 1 demo_q =
    Done (snd (innermost 3 3 (0x1280c - 0x12800) 0), s').
Proof.
  pose proof (inner_type demo_q 0x1280c 4 1) as Hi. change (q_table demo_q) with demo in Hi. rewrite demo_leaf in Hi.
  apply Hi; [apply demo_ok..|by_eval|apply demo_deepest; lia|done|done|apply struct_nested|done|done|by_eval|by right].
Defined.

Lemma demo_whole : whole demo.
Proof.
  intros obj d (U & _) Hc. assert (leaf demo d = 79) as El by (apply Z.eqb_eq; exact Hc).
  rewrite El. split_and!; [done..|]. intros obj' Ho. cbn in Ho. exists 4.
  rewrite demo_leaf. split_and!; [apply demo_deepest; lia|by left|done].
Qed.

Lemma demo_coherent : coherent demo_q [].
Proof. split; [apply mru_empty|]. intros k obj Hk. by apply not_elem_of_nil in Hk. Qed.

Lemma base_is_cached_witness :
  exists s' l', __liballocs_get_base (B := release) 0x12810 demo_q = Done (0x12800, s') /\
    coherent s' l' /\ q_mmap s' = q_mmap demo_q.
Proof.
  pose proof (base_is_cached demo_q [] 0x12810 4) as Hb. change (q_table demo_q) with demo in Hb.
  rewrite demo_leaf in Hb. apply Hb; [apply demo_ok..|by_eval|apply demo_deepest; lia|done|apply demo_whole|apply demo_coherent].
Defined.

#[local] Existing Instance trapped_hooks.
#[local] Existing Instance demo_mmap_env.
#[local] Existing Instance demo_mmap_laws.

Lemma memory_mapping_at_demo :
  exists es i e, described space1 5 1 es /\ es !! i = Some e /\ e_begin e <= 0x60800 < e_end e /\
    __liballocs_get_memory_mapping (B := release) 0x60800 space1 = Done (Some (5, i), space1).
Proof.
  apply (memory_mapping_at space1 0x60800 5 1); [|by_eval..].
  exact (proj1 (notified_represents space0 space1 _ call1 eq_refl space0_ok space0_covered (proj1 spaces))).
Defined.
