(* ===== verification/UniqtypeBfs.v ===== *)
(** Breadth-first search of the object graph: src/src/uniqtype-bfs.c and the
    node queue of src/include/uniqtype-bfs.h.

    Nodes are heap records linked by [next]; a queue is the pair of its head
    and tail pointers, 0 for none.  The maps from objects to colours, distances
    and predecessors are trees of <search.h>, whose interface compares keys by
    [compar]; they are modelled as search trees that are not rebalanced.
    Memory, [follow_ptr] and the macros of uniqtype-defs.h are parameters; the
    calls of [on_blacken] are logged.  Messages are dropped. *)
From S2P Require Import Prelude Uniqtype Subobject.

Class BfsEnv := {
  UNIQTYPE_HAS_SUBOBJECTS : Z -> bool;
  UNIQTYPE_POINTEE_TYPE : Z -> Z;
  (** [UNIQTYPE_FOR_EACH_SUBOBJECT]: types and offsets, in order *)
  subobjects : Z -> list (Z * Z);
  type_is_imprecise : Z -> bool;
  pointer_to___uniqtype__void : Z;
  (** the word of memory at an address *)
  load : Z -> Z;
  follow_ptr : Z * Z -> Z * Z;
}.

(** ** Nodes and trees *)

Record node_rec := NodeRec {
  n_obj : Z;
  n_t : Z;
  n_info : Z;
  n_next : Z;
}.
Definition set_n_next (p : Z) (n : node_rec) : node_rec := NodeRec (n_obj n) (n_t n) (n_info n) p.

Inductive tree :=
| Leaf
| Node (l : tree) (k v : Z) (r : tree).

Record bfs_state := BfsState {
  nodes : gmap Z node_rec;
  next_node : Z;
  colours : tree;
  distances : tree;
  predecessors : tree;
  blackened : list (Z * Z);
}.
Definition set_nodes (h : gmap Z node_rec) (s : bfs_state) : bfs_state :=
  BfsState h (next_node s) (colours s) (distances s) (predecessors s) (blackened s).
Definition set_colours (t : tree) (s : bfs_state) : bfs_state :=
  BfsState (nodes s) (next_node s) t (distances s) (predecessors s) (blackened s).
Definition set_distances (t : tree) (s : bfs_state) : bfs_state :=
  BfsState (nodes s) (next_node s) (colours s) t (predecessors s) (blackened s).
Definition set_predecessors (t : tree) (s : bfs_state) : bfs_state :=
  BfsState (nodes s) (next_node s) (colours s) (distances s) t (blackened s).

Definition WHITE : Z := 0.
Definition GREY : Z := 1.
Definition BLACK : Z := 2.

(** The 64-bit difference, returned as an [int]. *)
Definition compar (k1 k2 : Z) : Z := int32 (wrap64 (k1 - k2)).

Fixpoint tfind (key : Z) (t : tree) : option Z :=
  match t with
  | Leaf => None
  | Node l k v r =>
    let c := compar key k in
    if c =? 0 then Some v else if c <? 0 then tfind key l else tfind key r
  end.
(** Insertion by [tsearch]; a pair that is there is kept. *)
Fixpoint tsearch (key value : Z) (t : tree) : tree :=
  match t with
  | Leaf => Node Leaf key value Leaf
  | Node l k v r =>
    let c := compar key k in
    if c =? 0 then t else if c <? 0 then Node (tsearch key value l) k v r else Node l k v (tsearch key value r)
  end.
(** Writing through the pair that [tfind] returned. *)
Fixpoint tupdate (key value : Z) (t : tree) : tree :=
  match t with
  | Leaf => Leaf
  | Node l k v r =>
    let c := compar key k in
    if c =? 0 then Node l k value r
    else if c <? 0 then Node (tupdate key value l) k v r else Node l k v (tupdate key value r)
  end.

Definition treemap_delete (t : tree) : tree := Leaf.

Section ops.
Context {U : UniqtypeEnv} {E : BfsEnv} {B : Build}.

Definition treemap_get (key : Z) (t : tree) : M bfs_state Z :=
  match tfind key t with
  | Some v => assert (negb (v =? 0)) ;; mret v
  | None => mret 0
  end.

(** The new tree. *)
Definition treemap_set (key value : Z) (t : tree) : M bfs_state tree :=
  match tfind key t with
  | Some _ => mret (tupdate key value t)
  | None =>
    let t' := tsearch key value t in
    (if NDEBUG then mret tt else v ← treemap_get key t'; assert (v =? value)) ;;
    mret t'
  end.

Definition rd_node (p : Z) : M bfs_state node_rec :=
  h ← gets nodes; match h !! p with Some n => mret n | None => abort end.
Definition wr_node (p : Z) (f : node_rec -> node_rec) : M bfs_state unit :=
  n ← rd_node p; modify (fun s => set_nodes (<[p := f n]> (nodes s)) s).
Definition free_node (p : Z) : M bfs_state unit :=
  _ ← rd_node p; modify (fun s => set_nodes (delete p (nodes s)) s).

Definition make_node (obj t : Z) : M bfs_state Z :=
  p ← gets next_node;
  modify (fun s => BfsState (<[p := NodeRec obj t 0 0]> (nodes s)) (p + 1) (colours s) (distances s)
                     (predecessors s) (blackened s)) ;;
  mret p.

(** ** The queue *)

Definition __uniqtype_node_queue_push_tail (q : Z * Z) (to_enqueue : Z) : M bfs_state (Z * Z) :=
  let '(old_head, old_tail) := q in
  n ← rd_node to_enqueue;
  assert (n_next n =? 0) ;;
  if negb (old_tail =? 0) then
    wr_node old_tail (set_n_next to_enqueue) ;; mret (old_head, to_enqueue)
  else
    assert (old_head =? 0) ;; mret (to_enqueue, to_enqueue).

(** The node popped, 0 for none, and the queue. *)
Definition __uniqtype_node_queue_pop_head (q : Z * Z) : M bfs_state (Z * (Z * Z)) :=
  let '(old_head, tail) := q in
  if negb (old_head =? 0) then
    n ← rd_node old_head;
    wr_node old_head (set_n_next 0) ;;
    mret (old_head, (n_next n, if n_next n =? 0 then 0 else tail))
  else mret (0, q).

Definition __uniqtype_node_queue_empty (q : Z * Z) : bool := fst q =? 0.

(** ** The adjacency list of an object *)

Definition IS_PLAUSIBLE_POINTER (p : Z) : bool :=
  (p =? 0) || (p =? 2 ^ 64 - 1) || ((4194304 <=? p) && (p <? 0x800000000000)).

(** [rec] is the descent into a composite at an offset. *)
Definition visit_one_subobject (rec : Z * Z -> Z -> Z -> M bfs_state (Z * Z)) (obj_start start_offset : Z)
    (q : Z * Z) (element_type memb_offset : Z) : M bfs_state (Z * Z) :=
  if UNIQTYPE_IS_POINTER_TYPE element_type then
    let pointed_to_object := load (wrap64 (obj_start + start_offset + memb_offset)) in
    if negb (pointed_to_object =? 0) && IS_PLAUSIBLE_POINTER pointed_to_object then
      let '(ptr, t) := follow_ptr (pointed_to_object, UNIQTYPE_POINTEE_TYPE element_type) in
      if negb (ptr =? 0) then
        to_enqueue ← make_node ptr t;
        __uniqtype_node_queue_push_tail q to_enqueue
      else mret q
    else mret q
  else if UNIQTYPE_IS_COMPOSITE_TYPE element_type then
    rec q (wrap64 (start_offset + memb_offset)) element_type
  else mret q.

Fixpoint for_each_subobject (f : Z * Z -> Z -> Z -> M bfs_state (Z * Z)) (l : list (Z * Z)) (q : Z * Z)
    : M bfs_state (Z * Z) :=
  match l with
  | [] => mret q
  | (t, off) :: l => q ← f q t off; for_each_subobject f l q
  end.

Fixpoint build_adjacency_list_recursive (fuel : nat) (obj_start : Z) (q : Z * Z) (start_offset t_at_offset : Z)
    : M bfs_state (Z * Z) :=
  match fuel with
  | O => nofuel
  | S fuel =>
    if t_at_offset =? pointer_to___uniqtype__void then mret q else
    (if NDEBUG then mret tt else
     if t_at_offset =? 0 then abort else assert (negb (type_is_imprecise t_at_offset))) ;;
    if t_at_offset =? 0 then mret q else
    if negb (UNIQTYPE_HAS_SUBOBJECTS t_at_offset) then mret q else
    for_each_subobject
      (visit_one_subobject (build_adjacency_list_recursive fuel obj_start) obj_start start_offset)
      (subobjects t_at_offset) q
  end.

(** ** The search *)

Definition colour_of (obj : Z) : M bfs_state Z := t ← gets colours; treemap_get obj t.
Definition set_colour (obj c : Z) : M bfs_state unit :=
  t ← gets colours; t ← treemap_set obj c t; modify (set_colours t).

(** Enqueue the white ones. *)
Fixpoint enqueue_adjacent (fuel : nat) (q adj : Z * Z) : M bfs_state (Z * Z) :=
  match fuel with
  | O => nofuel
  | S fuel =>
    va ← __uniqtype_node_queue_pop_head adj;
    let '(v, adj) := va in
    if v =? 0 then mret q else
    n ← rd_node v;
    colour ← colour_of (n_obj n);
    q ← (if colour =? WHITE then
           set_colour (n_obj n) GREY ;;
           d ← gets distances;
           dv ← treemap_get (n_obj n) d;
           d ← treemap_set (n_obj n) (dv + 1) d;
           modify (set_distances d) ;;
           p ← gets predecessors;
           p ← treemap_set (n_obj n) (n_obj n) p;
           modify (set_predecessors p) ;;
           __uniqtype_node_queue_push_tail q v
         else free_node v ;; mret q);
    enqueue_adjacent fuel q adj
  end.

Fixpoint process_bfs_queue_and_maps (fuel depth : nat) (q : Z * Z) : M bfs_state (Z * Z) :=
  match fuel with
  | O => nofuel
  | S fuel =>
    if __uniqtype_node_queue_empty q then mret q else
    uq ← __uniqtype_node_queue_pop_head q;
    let '(u, q) := uq in
    n ← rd_node u;
    set_colour (n_obj n) GREY ;;
    adj ← build_adjacency_list_recursive depth (n_obj n) (0, 0) 0 (n_t n);
    h ← gets nodes;
    q ← enqueue_adjacent (S (size h)) q adj;
    set_colour (n_obj n) BLACK ;;
    modify (fun s => BfsState (nodes s) (next_node s) (colours s) (distances s) (predecessors s)
                       (blackened s ++ [(n_obj n, n_t n)])) ;;
    free_node u ;;
    process_bfs_queue_and_maps fuel depth q
  end.

Definition __uniqtype_process_bfs_queue (fuel depth : nat) (q : Z * Z) : M bfs_state (Z * Z) :=
  modify (fun s => set_predecessors Leaf (set_distances Leaf (set_colours Leaf s))) ;;
  q ← process_bfs_queue_and_maps fuel depth q;
  modify (fun s => set_colours (treemap_delete (colours s)) s) ;;
  modify (fun s => set_distances (treemap_delete (distances s)) s) ;;
  modify (fun s => set_predecessors (treemap_delete (predecessors s)) s) ;;
  mret q.

Definition __uniqtype_walk_bfs_from_object (fuel depth : nat) (object t : Z) : M bfs_state unit :=
  if object =? 0 then mret tt else
  to_enqueue ← make_node object t;
  q ← __uniqtype_node_queue_push_tail (0, 0) to_enqueue;
  assertM (n ← rd_node to_enqueue; mret ((n_obj n <=? object) && (wrap64 (object - n_obj n) <? 2 ^ 27))) ;;
  __uniqtype_process_bfs_queue fuel depth q ;;
  mret tt.
End ops.

Definition __uniqtype_default_follow_ptr (p : Z * Z) : Z * Z := p.
