(* ===== verification/UniqtypeBfsFacts.v ===== *)
(** Correctness of the breadth-first search: trees and queues first, then the
    adjacency list of an object, then the search. *)
From S2P Require Import Prelude DList Uniqtype Subobject UniqtypeBfs.

(** ** Trees

    [compar] orders keys that lie within 2^31 of one another. *)

Section trees.
Context (wlo : Z).

Definition window (k : Z) : Prop := wlo <= k < wlo + 2 ^ 31.

Lemma compar_window a b : window a -> window b -> compar a b = a - b.
Proof.
  unfold window, compar, int32, wrap. intros Ha Hb.
  rewrite Z.mod_mod_divide by (by exists (2 ^ 32)).
  destruct (Z.ltb_spec ((a - b) mod 2 ^ 32) (2 ^ 31)); Z.to_euclidean_division_equations; lia.
Qed.

Fixpoint bst (lo hi : Z) (t : tree) : Prop :=
  match t with
  | Leaf => True
  | Node l k v r => lo <= k < hi /\ v <> 0 /\ bst lo k l /\ bst (k + 1) hi r
  end.
Definition tree_ok (t : tree) : Prop := bst wlo (wlo + 2 ^ 31) t.
Definition tget (k : Z) (t : tree) : Z := default 0 (tfind k t).

Lemma bst_mono lo hi lo' hi' t : bst lo hi t -> lo' <= lo -> hi <= hi' -> bst lo' hi' t.
Proof.
  revert lo hi lo' hi'. induction t as [|l IHl k v r IHr]; intros lo hi lo' hi'; simpl; [done|].
  intros (? & ? & ? & ?) ? ?. split_and!; [lia..|done| |]; [eapply IHl|eapply IHr]; (done || lia).
Qed.

Ltac tree_case key k :=
  rewrite (compar_window key k) by (unfold window in *; lia);
  destruct (Z.eqb_spec (key - k) 0); [|destruct (Z.ltb_spec (key - k) 0)].

Lemma tfind_outside lo hi t k : bst lo hi t -> wlo <= lo -> hi <= wlo + 2 ^ 31 -> window k -> ~ lo <= k < hi ->
  tfind k t = None.
Proof.
  revert lo hi. induction t as [|l IHl x v r IHr]; intros lo hi; simpl; [done|]. intros (Hx & Nv & Bl & Br) Hlo Hhi Hk Hn.
  tree_case k x; [lia|by eapply IHl; eauto; lia|by eapply IHr; eauto; lia].
Qed.

Lemma tfind_nonzero lo hi t k v : bst lo hi t -> tfind k t = Some v -> v <> 0.
Proof.
  revert lo hi. induction t as [|l IHl x w r IHr]; intros lo hi; simpl; [done|]. intros (Hx & Nv & Bl & Br).
  destruct (_ =? 0); [by intros [= <-]|]. destruct (_ <? 0); eauto.
Qed.

Lemma tsearch_ok lo hi t key value : bst lo hi t -> wlo <= lo -> hi <= wlo + 2 ^ 31 -> lo <= key < hi -> value <> 0 ->
  tfind key t = None ->
  bst lo hi (tsearch key value t) /\
  forall k, window k -> tfind k (tsearch key value t) = if decide (k = key) then Some value else tfind k t.
Proof.
  revert lo hi. induction t as [|l IHl x w r IHr]; intros lo hi; simpl.
  - intros _ Hlo Hhi Hk Hv _. split; [split_and!; (done || lia)|]. intros k Wk.
    tree_case k key; case_decide; (done || lia).
  - intros (Hx & Nv & Bl & Br) Hlo Hhi Hk Hv. tree_case key x; [done| |]; intros Hf.
    + destruct (IHl lo x Bl) as [B' F]; [lia..|done|done|]. split; [simpl; split_and!; (done || lia)|].
      intros k Wk. simpl. tree_case k x; [by rewrite decide_False by lia|by apply F|by rewrite decide_False by lia].
    + destruct (IHr (x + 1) hi Br) as [B' F]; [lia..|done|done|]. split; [simpl; split_and!; (done || lia)|].
      intros k Wk. simpl. tree_case k x; [by rewrite decide_False by lia|by rewrite decide_False by lia|by apply F].
Qed.

Lemma tupdate_ok lo hi t key value v : bst lo hi t -> wlo <= lo -> hi <= wlo + 2 ^ 31 -> window key -> value <> 0 ->
  tfind key t = Some v ->
  bst lo hi (tupdate key value t) /\
  forall k, window k -> tfind k (tupdate key value t) = if decide (k = key) then Some value else tfind k t.
Proof.
  revert lo hi. induction t as [|l IHl x w r IHr]; intros lo hi; simpl; [done|].
  intros (Hx & Nv & Bl & Br) Hlo Hhi Hk Hv. tree_case key x; intros Hf.
  - split; [simpl; split_and!; (done || lia)|]. intros k Wk. simpl.
    tree_case k x; case_decide; (done || lia).
  - destruct (IHl lo x Bl) as [B' F]; [lia..|done|done|done|]. split; [simpl; split_and!; (done || lia)|].
    intros k Wk. simpl. tree_case k x; [by rewrite decide_False by lia|by apply F|by rewrite decide_False by lia].
  - destruct (IHr (x + 1) hi Br) as [B' F]; [lia..|done|done|done|]. split; [simpl; split_and!; (done || lia)|].
    intros k Wk. simpl. tree_case k x; [by rewrite decide_False by lia|by rewrite decide_False by lia|by apply F].
Qed.

Context {B : Build}.

Lemma treemap_get_ok k t s : tree_ok t -> treemap_get k t s = Done (tget k t, s).
Proof.
  intros T. unfold treemap_get, tget. destruct (tfind k t) as [v|] eqn:Ef; [|done].
  rewrite (bind_Done _ _ _ tt s); [done|]. apply assert_true, negb_true_iff, Z.eqb_neq.
  by apply (tfind_nonzero _ _ _ _ _ T Ef).
Qed.

Lemma treemap_set_ok key value t s : tree_ok t -> window key -> value <> 0 ->
  exists t', treemap_set key value t s = Done (t', s) /\ tree_ok t' /\
    forall k, window k -> tget k t' = if decide (k = key) then value else tget k t.
Proof.
  intros T Wk Hv. unfold treemap_set. destruct (tfind key t) as [v|] eqn:Ef.
  - destruct (tupdate_ok _ _ t key value v T) as [T' F]; [lia..|done|done|done|].
    eexists. split_and!; [done..|]. intros k Hk. unfold tget. rewrite F by done. by case_decide.
  - destruct (tsearch_ok _ _ t key value T) as [T' F]; [lia..|done|done|done|].
    eexists. split_and!; [|exact T'|].
    + destruct NDEBUG eqn:Nd; [done|]. rewrite (bind_Done _ _ _ tt s); [done|].
      rewrite (bind_Done _ _ _ _ _ (treemap_get_ok key _ s T')). apply assert_true, Z.eqb_eq. unfold tget.
      by rewrite F, decide_True by done.
    + intros k Hk. unfold tget. rewrite F by done. by case_decide.
Qed.
End trees.

(** ** Queues

    The list of nodes from a pointer, with what they hold. *)

Fixpoint qlist (h : gmap Z node_rec) (p : Z) (ids : list Z) (L : list (Z * Z)) : Prop :=
  match ids, L with
  | [], [] => p = 0
  | i :: ids, (o, t) :: L =>
    p = i /\ i <> 0 /\ exists info nx, h !! i = Some (NodeRec o t info nx) /\ qlist h nx ids L
  | _, _ => False
  end.

Definition queue (h : gmap Z node_rec) (q : Z * Z) (ids : list Z) (L : list (Z * Z)) : Prop :=
  NoDup ids /\ qlist h (fst q) ids L /\ snd q = last_of 0 ids.

(** Every node was allocated. *)
Definition heap_ok (s : bfs_state) : Prop :=
  0 < next_node s /\ forall i, is_Some (nodes s !! i) -> 0 < i < next_node s.

(** All but the nodes stays. *)
Definition same_maps (s s' : bfs_state) : Prop :=
  colours s' = colours s /\ distances s' = distances s /\ predecessors s' = predecessors s /\ blackened s' = blackened s.

Lemma qlist_ext h h' p ids L : (forall i, i ∈ ids -> h' !! i = h !! i) -> qlist h p ids L -> qlist h' p ids L.
Proof.
  revert p L. induction ids as [|i ids IH]; intros p [|[o t] L] He; simpl; try done.
  intros (-> & Ni & info & nx & Ei & Q). split_and!; [done..|]. exists info, nx. split; [by rewrite He by by left|].
  apply IH; [|done]. intros j Hj. apply He. by right.
Qed.

Lemma queue_ext h h' q ids L : (forall i, i ∈ ids -> h' !! i = h !! i) -> queue h q ids L -> queue h' q ids L.
Proof. intros He (N & Q & T). split_and!; [done|by eapply qlist_ext|done]. Qed.

Lemma qlist_in h p ids L i : qlist h p ids L -> i ∈ ids -> is_Some (h !! i) /\ i <> 0.
Proof.
  revert p L. induction ids as [|x ids IH]; intros p [|[o t] L]; simpl; try done.
  - intros _ Hi. by apply not_elem_of_nil in Hi.
  - intros (-> & Ni & info & nx & Ei & Q) [->|Hi]%elem_of_cons; [by rewrite Ei|by eapply IH].
Qed.

Lemma qlist_length h p ids L : qlist h p ids L -> length ids = length L.
Proof.
  revert p L. induction ids as [|x ids IH]; intros p [|[o t] L]; simpl; try done.
  intros (_ & _ & info & nx & _ & Q). f_equal. by eapply IH.
Qed.

(** Linking a node behind the last. *)
Lemma qlist_snoc h p ids z L n o t info :
  NoDup (ids ++ [z]) -> n ∉ ids ++ [z] -> n <> 0 -> h !! n = Some (NodeRec o t info 0) -> qlist h p (ids ++ [z]) L ->
  exists x, h !! z = Some x /\ qlist (<[z := set_n_next n x]> h) p (ids ++ [z] ++ [n]) (L ++ [(o, t)]).
Proof.
  intros Nd Nn Nz En. revert p L. induction ids as [|x ids IH]; intros p [|[o' t'] L]; simpl; try done.
  - intros (-> & Ni & info' & nx & Ei & Q). destruct L as [|? ?]; [|done].
    exists (NodeRec o' t' info' nx). split; [done|]. split_and!; [done..|].
    exists info', n. rewrite lookup_insert_eq. split; [done|]. simpl. split_and!; [done..|]. exists info, 0.
    rewrite lookup_insert_ne by set_solver. done.
  - apply NoDup_cons in Nd as [Nx Nd].
    intros (-> & Ni & info' & nx & Ei & Q). destruct (IH Nd ltac:(set_solver) nx L Q) as (y & Ey & Q').
    exists y. split; [done|]. split_and!; [done..|]. exists info', nx.
    rewrite lookup_insert_ne by (intros ->; apply Nx, elem_of_app; right; by left). done.
Qed.

(** A step that leaves every node alone but those in [touched], and allocates
    none. *)
Record local_step (s s' : bfs_state) (touched : list Z) : Prop := {
  ls_maps : same_maps s s';
  ls_next : next_node s' = next_node s;
  ls_frame i : i ∉ touched -> nodes s' !! i = nodes s !! i;
  ls_dom i : is_Some (nodes s' !! i) -> is_Some (nodes s !! i);
}.

Lemma heap_ok_step s s' l : heap_ok s -> local_step s s' l -> heap_ok s'.
Proof. intros [H1 H2] [_ En _ Hd]. unfold heap_ok. rewrite En. split; [done|]. intros i Hi. by apply H2, Hd. Qed.

Section queues.
Context {B : Build}.

Lemma wr_node_ok p f n s : nodes s !! p = Some n ->
  wr_node p f s = Done (tt, set_nodes (<[p := f n]> (nodes s)) s) /\
  local_step s (set_nodes (<[p := f n]> (nodes s)) s) [p].
Proof.
  intros Ep. split.
  - unfold wr_node, rd_node. rewrite bind_bind. rewrite (bind_Done _ _ _ _ _ (eq_refl : gets nodes s = _)). by rewrite Ep.
  - split; [done|done| |].
    + intros i Hi. simpl. rewrite lookup_insert_ne; [done|]. intros ->. apply Hi. by left.
    + intros i [x Hx]. simpl in Hx. apply lookup_insert_Some in Hx as [[<- _]|[_ Hx]]; by eauto.
Qed.

Lemma rd_node_ok p n s : nodes s !! p = Some n -> rd_node p s = Done (n, s).
Proof. intros Ep. unfold rd_node. rewrite (bind_Done _ _ _ _ _ (eq_refl : gets nodes s = _)). by rewrite Ep. Qed.

Lemma push_tail_ok s q ids L n o t info :
  queue (nodes s) q ids L -> n ∉ ids -> n <> 0 -> nodes s !! n = Some (NodeRec o t info 0) ->
  exists s' q', __uniqtype_node_queue_push_tail q n s = Done (q', s') /\
    queue (nodes s') q' (ids ++ [n]) (L ++ [(o, t)]) /\ local_step s s' ids.
Proof.
  intros (Nd & Q & T) Nn Nz En. destruct q as [h tl]. unfold __uniqtype_node_queue_push_tail. simpl in Q, T.
  rewrite (bind_Done _ _ _ _ _ (rd_node_ok _ _ _ En)). rewrite (bind_Done _ _ _ tt s) by (by apply assert_true).
  destruct ids as [|z ids0 _] using rev_ind.
  - destruct L; [|done]. simpl in Q, T. subst h tl. change (negb (last_of 0 [] =? 0)) with false. cbv iota.
    rewrite (bind_Done _ _ _ tt s) by (by apply assert_true). exists s, (n, n).
    split_and!; [done| |by split]. split_and!; [apply NoDup_singleton| |done]. simpl. split_and!; [done..|]. by exists info, 0.
  - rewrite last_of_snoc in T. subst tl. destruct (qlist_in _ _ _ _ z Q) as [[x Hz] Nz']; [set_solver|].
    rewrite (proj2 (Z.eqb_neq z 0)) by done. cbn [negb].
    destruct (qlist_snoc _ _ _ _ _ n o t info Nd Nn Nz En Q) as (y & Ey & Q').
    destruct (wr_node_ok z (set_n_next n) y s Ey) as [Ew Lw].
    eexists _, (h, n). split_and!; [by rewrite (bind_Done _ _ _ _ _ Ew)| |].
    + split_and!; [|by rewrite <- app_assoc|by rewrite last_of_snoc]. apply NoDup_app. split_and!; [done| |apply NoDup_singleton].
      intros i Hi ->%list_elem_of_singleton. done.
    + destruct Lw as [? ? Hf ?]. split; [done..| |done]. intros i Hi. apply Hf. set_solver.
Qed.

Lemma pop_head_ok s q i ids o t L :
  queue (nodes s) q (i :: ids) ((o, t) :: L) ->
  exists s' q' info, __uniqtype_node_queue_pop_head q s = Done ((i, q'), s') /\ i <> 0 /\
    queue (nodes s') q' ids L /\ nodes s' !! i = Some (NodeRec o t info 0) /\ local_step s s' [i].
Proof.
  intros (Nd & Q & T). destruct q as [h tl]. simpl in Q, T. destruct Q as (-> & Ni & info & nx & Ei & Q).
  apply NoDup_cons in Nd as [Nx Nd]. unfold __uniqtype_node_queue_pop_head.
  rewrite (proj2 (Z.eqb_neq i 0)) by done. cbn [negb]. rewrite (bind_Done _ _ _ _ _ (rd_node_ok _ _ _ Ei)).
  destruct (wr_node_ok i (set_n_next 0) _ s Ei) as [Ew Lw]. rewrite (bind_Done _ _ _ _ _ Ew).
  eexists _, (nx, if nx =? 0 then 0 else tl), info. split_and!; [done|done| |by apply lookup_insert_eq|done].
  assert (Q' : qlist (nodes (set_nodes (<[i:=set_n_next 0 (NodeRec o t info nx)]> (nodes s)) s)) nx ids L).
  { eapply qlist_ext; [|done]. intros j Hj. apply (ls_frame _ _ _ Lw). set_solver. }
  split_and!; [done|done|]. simpl. rewrite T. destruct ids as [|j ids].
  - destruct L; [|done]. simpl in Q. by subst nx.
  - destruct L as [|[o' t'] L]; [done|]. destruct Q as (-> & Nj & _). by rewrite (proj2 (Z.eqb_neq j 0)) by done.
Qed.

Lemma pop_head_empty s q L : queue (nodes s) q [] L -> __uniqtype_node_queue_pop_head q s = Done ((0, q), s) /\ L = [].
Proof. destruct q as [h tl], L; intros (_ & Q & _); simpl in Q; by subst. Qed.

Lemma make_node_ok s o t : heap_ok s ->
  exists s', make_node o t s = Done (next_node s, s') /\ heap_ok s' /\ next_node s' = next_node s + 1 /\
    nodes s' = <[next_node s := NodeRec o t 0 0]> (nodes s) /\ nodes s !! next_node s = None /\ same_maps s s'.
Proof.
  intros [H1 H2]. eexists. split; [done|].
  assert (nodes s !! next_node s = None).
  { destruct (nodes s !! next_node s) eqn:E; [|done]. specialize (H2 (next_node s) ltac:(by rewrite E)). lia. }
  split_and!; [|done..]. split; [simpl; lia|]. intros i [x Hx]. simpl in *.
  apply lookup_insert_Some in Hx as [[<- _]|[_ Hx]]; [lia|]. specialize (H2 i ltac:(by eauto)). lia.
Qed.
End queues.

(** ** The adjacency list *)

(** From [s] to [s'] the nodes [new], which hold [add], were allocated and put
    at the end of a queue. *)
Record grown (s s' : bfs_state) (q' : Z * Z) (ids new : list Z) (L add : list (Z * Z)) : Prop := {
  gr_heap : heap_ok s';
  gr_maps : same_maps s s';
  gr_next : next_node s <= next_node s';
  gr_queue : queue (nodes s') q' (ids ++ new) (L ++ add);
  gr_ids i : i ∈ ids -> i < next_node s;
  gr_new i : i ∈ new -> next_node s <= i < next_node s';
  gr_frame i : i < next_node s -> i ∉ ids -> nodes s' !! i = nodes s !! i;
  gr_only i : next_node s <= i -> is_Some (nodes s' !! i) -> i ∈ new;
}.

Lemma heap_fresh s i : heap_ok s -> next_node s <= i -> nodes s !! i = None.
Proof. intros [_ H2] Hi. destruct (nodes s !! i) eqn:E; [|done]. specialize (H2 i ltac:(by rewrite E)). lia. Qed.

Lemma queue_ids s q ids L i : heap_ok s -> queue (nodes s) q ids L -> i ∈ ids -> 0 < i < next_node s.
Proof. intros [_ K] (_ & Q & _) Hi. by apply K, (qlist_in _ _ _ _ i Q). Qed.

Lemma grown_refl s q ids L : heap_ok s -> queue (nodes s) q ids L -> grown s s q ids [] L [].
Proof.
  intros K Q. split; [done|done|lia|by rewrite !app_nil_r| |by intros i Hi%not_elem_of_nil|done|].
  - intros i Hi. by apply (queue_ids s q ids L).
  - intros i Hi. rewrite (heap_fresh s i K Hi). by intros [? ?].
Qed.

Lemma grown_trans s s1 s2 q1 q2 ids new1 new2 L add1 add2 :
  grown s s1 q1 ids new1 L add1 -> grown s1 s2 q2 (ids ++ new1) new2 (L ++ add1) add2 ->
  grown s s2 q2 ids (new1 ++ new2) L (add1 ++ add2).
Proof.
  intros [K1 M1 N1 Q1 I1 W1 F1 O1] [K2 M2 N2 Q2 I2 W2 F2 O2]. split.
  - done.
  - destruct M1 as (? & ? & ? & ?), M2 as (? & ? & ? & ?). split_and!; congruence.
  - lia.
  - by rewrite !app_assoc.
  - done.
  - intros i [Hi|Hi]%elem_of_app; [specialize (W1 i Hi)|specialize (W2 i Hi)]; lia.
  - intros i Hi Ni. rewrite F2, F1; [done..|lia|]. intros [Hx|Hx]%elem_of_app; [done|]. specialize (W1 i Hx). lia.
  - intros i Hi Hs. apply elem_of_app. destruct (Z.lt_ge_cases i (next_node s1)); [left|right; by apply O2].
    destruct (decide (i ∈ ids ++ new1)) as [[Hx|Hx]%elem_of_app|Nx]; [specialize (I1 i Hx); lia|done|].
    apply O1; [done|]. by rewrite <- F2.
Qed.

Section adjacency.
Context {U : UniqtypeEnv} {E : BfsEnv} {B : Build}.

Lemma add_node_ok s q ids L o t : heap_ok s -> queue (nodes s) q ids L ->
  exists s' q', (n ← make_node o t; __uniqtype_node_queue_push_tail q n) s = Done (q', s') /\
    grown s s' q' ids [next_node s] L [(o, t)].
Proof.
  intros K Q. destruct (make_node_ok s o t K) as (s1 & E1 & K1 & N1 & H1 & Hf & M1). rewrite (bind_Done _ _ _ _ _ E1).
  assert (Nn : next_node s ∉ ids) by (intros Hi; pose proof (queue_ids s q ids L _ K Q Hi); lia).
  assert (Q1 : queue (nodes s1) q ids L).
  { eapply queue_ext; [|done]. intros i Hi. rewrite H1, lookup_insert_ne; [done|]. intros <-. done. }
  destruct (push_tail_ok s1 q ids L (next_node s) o t 0 Q1 Nn) as (s' & q' & E' & Q' & L').
  { pose proof (proj1 K). lia. }
  { rewrite H1. apply lookup_insert_eq. }
  exists s', q'. split; [done|]. pose proof L' as [M' N' F' D']. split.
  - by eapply heap_ok_step.
  - destruct M1 as (? & ? & ? & ?), M' as (? & ? & ? & ?). split_and!; congruence.
  - lia.
  - done.
  - intros i Hi. by apply (queue_ids s q ids L).
  - intros i ->%list_elem_of_singleton. lia.
  - intros i Hi Ni. rewrite F' by done. rewrite H1, lookup_insert_ne by lia. done.
  - intros i Hi Hs. apply D' in Hs. rewrite H1 in Hs. destruct (decide (i = next_node s)) as [->|Ne]; [by left|].
    rewrite lookup_insert_ne, (heap_fresh s i K Hi) in Hs by done. by destruct Hs.
Qed.

(** The object a pointer field refers to. *)
Definition pointer_target (obj start t off : Z) : list (Z * Z) :=
  let p := load (wrap64 (obj + start + off)) in
  if negb (p =? 0) && IS_PLAUSIBLE_POINTER p then
    let '(ptr, t') := follow_ptr (p, UNIQTYPE_POINTEE_TYPE t) in
    if negb (ptr =? 0) then [(ptr, t')] else []
  else [].

(** The objects that the pointers in an object refer to, in order. *)
Fixpoint edges (n : nat) (obj start t : Z) : list (Z * Z) :=
  match n with
  | O => []
  | S n =>
    if (t =? pointer_to___uniqtype__void) || negb (UNIQTYPE_HAS_SUBOBJECTS t) then [] else
    subobjects t ≫= fun to =>
      if UNIQTYPE_IS_POINTER_TYPE (fst to) then pointer_target obj start (fst to) (snd to)
      else if UNIQTYPE_IS_COMPOSITE_TYPE (fst to) then edges n obj (wrap64 (start + snd to)) (fst to)
      else []
  end.

(** Composites nest at most [n] deep, and are precise. *)
Inductive finite_type : nat -> Z -> Prop :=
| finite_void n : finite_type (S n) pointer_to___uniqtype__void
| finite_composite n t :
    t <> 0 -> type_is_imprecise t = false ->
    (forall t' off, (t', off) ∈ subobjects t -> UNIQTYPE_IS_POINTER_TYPE t' = false ->
       UNIQTYPE_IS_COMPOSITE_TYPE t' = true -> finite_type n t') ->
    finite_type (S n) t.

Definition builds (n : nat) : Prop := forall obj start t s q ids L,
  finite_type n t -> heap_ok s -> queue (nodes s) q ids L ->
  exists s' q' new, build_adjacency_list_recursive n obj q start t s = Done (q', s') /\
    grown s s' q' ids new L (edges n obj start t).

Lemma visit_one_ok n obj start t off s q ids L :
  builds n -> (UNIQTYPE_IS_POINTER_TYPE t = false -> UNIQTYPE_IS_COMPOSITE_TYPE t = true -> finite_type n t) ->
  heap_ok s -> queue (nodes s) q ids L ->
  exists s' q' new, visit_one_subobject (build_adjacency_list_recursive n obj) obj start q t off s = Done (q', s') /\
    grown s s' q' ids new L
      (if UNIQTYPE_IS_POINTER_TYPE t then pointer_target obj start t off
       else if UNIQTYPE_IS_COMPOSITE_TYPE t then edges n obj (wrap64 (start + off)) t else []).
Proof.
  intros IH Hf K Q. unfold visit_one_subobject, pointer_target.
  destruct (UNIQTYPE_IS_POINTER_TYPE t); [|destruct (UNIQTYPE_IS_COMPOSITE_TYPE t)].
  - destruct (negb _ && _); [|exists s, q, []; split; [done|by apply grown_refl]].
    destruct (follow_ptr _) as [ptr t']. destruct (negb (ptr =? 0)); [|exists s, q, []; split; [done|by apply grown_refl]].
    destruct (add_node_ok s q ids L ptr t' K Q) as (s' & q' & E' & G). by exists s', q', [next_node s].
  - apply IH; auto.
  - exists s, q, []. split; [done|by apply grown_refl].
Qed.

Lemma build_adjacency_ok n : builds n.
Proof.
  induction n as [|n IH]; intros obj start t s q ids L Ft K Q; [inversion Ft|]. cbn [build_adjacency_list_recursive edges].
  destruct (Z.eqb_spec t pointer_to___uniqtype__void) as [_|Nv].
  { exists s, q, []. split; [done|by apply grown_refl]. }
  inversion Ft as [|n' t0 Nz Hp Hs]; subst; [done|]. cbn [orb].
  rewrite (bind_Done _ _ _ tt s).
  2: { destruct NDEBUG; [done|]. rewrite (proj2 (Z.eqb_neq t 0)) by done. apply assert_true. by rewrite Hp. }
  rewrite (proj2 (Z.eqb_neq t 0)) by done.
  destruct (UNIQTYPE_HAS_SUBOBJECTS t); cbn [negb]; [|exists s, q, []; split; [done|by apply grown_refl]].
  clear Ft Nz Nv Hp. revert s q ids L K Q Hs. generalize (subobjects t) as l.
  induction l as [|[t' off] l IHl]; intros s q ids L K Q Hs.
  { exists s, q, []. split; [done|by apply grown_refl]. }
  destruct (visit_one_ok n obj start t' off s q ids L IH) as (s1 & q1 & new1 & E1 & G1); [|done..|].
  { intros. by apply (Hs t' off); [left|..]. }
  destruct (IHl s1 q1 (ids ++ new1) (L ++ _) (gr_heap _ _ _ _ _ _ _ G1) (gr_queue _ _ _ _ _ _ _ G1)) as (s' & q' & new2 & E2 & G2).
  { intros t2 o2 H2. apply (Hs t2 o2). by right. }
  exists s', q', (new1 ++ new2). split; [|by apply (grown_trans s s1 s' q1)]. cbn [for_each_subobject].
  by rewrite (bind_Done _ _ _ _ _ E1).
Qed.
End adjacency.

(** ** Colours *)

Section colours.
Context (wlo : Z) {U : UniqtypeEnv} {E : BfsEnv} {B : Build}.

(** The trees are in order, and exactly the objects in [seen] are not white. *)
Record maps_ok (s : bfs_state) (seen : list Z) : Prop := {
  mp_colours : tree_ok wlo (colours s);
  mp_distances : tree_ok wlo (distances s);
  mp_predecessors : tree_ok wlo (predecessors s);
  mp_dist k : window wlo k -> 0 <= tget k (distances s);
  mp_seen k : window wlo k -> tget k (colours s) <> 0 <-> k ∈ seen;
}.

(** A step on the trees only. *)
Definition same_nodes (s s' : bfs_state) : Prop :=
  nodes s' = nodes s /\ next_node s' = next_node s /\ blackened s' = blackened s.

Lemma same_nodes_trans s1 s2 s3 : same_nodes s1 s2 -> same_nodes s2 s3 -> same_nodes s1 s3.
Proof. intros (? & ? & ?) (? & ? & ?). split_and!; congruence. Qed.

Lemma same_nodes_heap s s' : heap_ok s -> same_nodes s s' -> heap_ok s'.
Proof. intros K (En & Ex & _). unfold heap_ok. by rewrite En, Ex. Qed.

Lemma maps_ok_ext s s' seen : same_maps s s' -> maps_ok s seen -> maps_ok s' seen.
Proof. intros (E1 & E2 & E3 & _) [? ? ? ? ?]. split; by rewrite ?E1, ?E2, ?E3. Qed.

Lemma colour_of_ok s seen o : maps_ok s seen -> colour_of o s = Done (tget o (colours s), s).
Proof.
  intros K. unfold colour_of. rewrite (bind_Done _ _ _ _ _ (eq_refl : gets colours s = _)).
  by apply (treemap_get_ok wlo), K.
Qed.

Lemma set_colour_ok s seen o c : maps_ok s seen -> window wlo o -> c <> 0 ->
  exists s', set_colour o c s = Done (tt, s') /\ same_nodes s s' /\ maps_ok s' (o :: seen).
Proof.
  intros K Wo Nc. destruct (treemap_set_ok wlo o c (colours s) s (mp_colours _ _ K) Wo Nc) as (t' & Et & T' & F).
  exists (set_colours t' s). split_and!; [|done|].
  - unfold set_colour. rewrite (bind_Done _ _ _ _ _ (eq_refl : gets colours s = _)), (bind_Done _ _ _ _ _ Et). done.
  - destruct K as [? ? ? ? Ks]. split; [done..|]. intros k Wk. simpl. rewrite F, elem_of_cons by done.
    case_decide as Ek; [by split; auto|]. rewrite Ks by done. naive_solver.
Qed.

(** The distance and the predecessor of an object found. *)
Lemma note_found_ok {A} s seen o (k : M bfs_state A) : maps_ok s seen -> window wlo o -> o <> 0 ->
  exists s', (d ← gets distances; dv ← treemap_get o d; d ← treemap_set o (dv + 1) d; modify (set_distances d) ;;
              p ← gets predecessors; p ← treemap_set o o p; modify (set_predecessors p) ;; k) s = k s' /\
    same_nodes s s' /\ maps_ok s' seen.
Proof.
  intros K Wo No. pose proof (mp_dist _ _ K o Wo) as Hd.
  destruct (treemap_set_ok wlo o (tget o (distances s) + 1) (distances s) s (mp_distances _ _ K) Wo ltac:(lia))
    as (d' & Ed & Td & Fd).
  set (s1 := set_distances d' s).
  destruct (treemap_set_ok wlo o o (predecessors s) s1 (mp_predecessors _ _ K) Wo No) as (p' & Ep & Tp & Fp).
  exists (set_predecessors p' s1). split_and!; [|done|].
  - rewrite (bind_Done _ _ _ _ _ (eq_refl : gets distances s = _)).
    rewrite (bind_Done _ _ _ _ _ (treemap_get_ok wlo o _ s (mp_distances _ _ K))), (bind_Done _ _ _ _ _ Ed).
    rewrite (bind_Done _ _ _ tt s1) by done. rewrite (bind_Done _ _ _ (predecessors s) s1) by done.
    by rewrite (bind_Done _ _ _ _ _ Ep).
  - destruct K as [? ? ? Kd ?]. split; [done..| |done]. intros k' Wk. simpl. rewrite Fd by done.
    case_decide; [lia|by apply Kd].
Qed.

(** ** Enqueueing the white ones *)

(** The nodes whose object is not seen yet, each object once. *)
Fixpoint fresh (seen : list Z) (L : list (Z * Z)) : list (Z * Z) :=
  match L with
  | [] => []
  | (o, t) :: L => if decide (o ∈ seen) then fresh seen L else (o, t) :: fresh (o :: seen) L
  end.

(** What [enqueue_adjacent] does to the main queue and the nodes. *)
Record enqueued (s s' : bfs_state) (q' : Z * Z) (ids aids new : list Z) (L add : list (Z * Z)) (seen : list Z) : Prop := {
  eq_heap : heap_ok s';
  eq_next : next_node s' = next_node s;
  eq_black : blackened s' = blackened s;
  eq_queue : queue (nodes s') q' (ids ++ new) (L ++ add);
  eq_maps : maps_ok s' seen;
  eq_new i : i ∈ new -> i ∈ aids;
  eq_frame i : i ∉ ids -> i ∉ aids -> nodes s' !! i = nodes s !! i;
  eq_freed i : i ∈ aids -> i ∉ new -> nodes s' !! i = None;
}.

Lemma free_node_ok p n s : nodes s !! p = Some n -> free_node p s = Done (tt, set_nodes (delete p (nodes s)) s).
Proof. intros Ep. unfold free_node. by rewrite (bind_Done _ _ _ _ _ (rd_node_ok _ _ _ Ep)). Qed.

(** Dropping a node that is in no queue. *)
Lemma free_step s p : local_step s (set_nodes (delete p (nodes s)) s) [p].
Proof.
  split; [done|done| |].
  - intros i Hi. simpl. apply lookup_delete_ne. intros ->. apply Hi. by left.
  - intros i [x Hx]. simpl in Hx. apply lookup_delete_Some in Hx as [_ Hx]. by eauto.
Qed.

Lemma queue_step s s' q ids L l : queue (nodes s) q ids L -> local_step s s' l -> (forall i, i ∈ ids -> i ∉ l) ->
  queue (nodes s') q ids L.
Proof. intros Q Ls Hd. eapply queue_ext; [|done]. intros i Hi. by apply (ls_frame _ _ _ Ls), Hd. Qed.

(** One white node: it is coloured and moved to the main queue. *)
Lemma enqueue_white s q ids L seen v o t info :
  heap_ok s -> queue (nodes s) q ids L -> v ∉ ids -> v <> 0 -> nodes s !! v = Some (NodeRec o t info 0) ->
  maps_ok s seen -> window wlo o -> o <> 0 ->
  exists s' q', (set_colour o GREY ;;
      d ← gets distances; dv ← treemap_get o d; d ← treemap_set o (dv + 1) d; modify (set_distances d) ;;
      p ← gets predecessors; p ← treemap_set o o p; modify (set_predecessors p) ;;
      __uniqtype_node_queue_push_tail q v) s = Done (q', s') /\
    heap_ok s' /\ next_node s' = next_node s /\ blackened s' = blackened s /\
    queue (nodes s') q' (ids ++ [v]) (L ++ [(o, t)]) /\ maps_ok s' (o :: seen) /\
    (forall i, i ∉ ids -> nodes s' !! i = nodes s !! i).
Proof.
  intros K Q Nv Nz Ev Mp Wo No. destruct (set_colour_ok s seen o GREY Mp Wo ltac:(done)) as (s1 & E1 & S1 & M1).
  rewrite (bind_Done _ _ _ _ _ E1).
  destruct (note_found_ok s1 (o :: seen) o (__uniqtype_node_queue_push_tail q v) M1 Wo No) as (s2 & -> & S2 & M2).
  destruct (same_nodes_trans _ _ _ S1 S2) as (En & Ex & Eb).
  destruct (push_tail_ok s2 q ids L v o t info) as (s' & q' & E' & Q' & Ls); [by rewrite En|done..|by rewrite En|].
  exists s', q'. pose proof Ls as [Mm Nx Fr Dm]. split_and!.
  - done.
  - eapply heap_ok_step; [|done]. apply (same_nodes_heap s); [done|]. by apply (same_nodes_trans _ s1).
  - congruence.
  - destruct Mm as (_ & _ & _ & ->). done.
  - done.
  - by apply (maps_ok_ext s2).
  - intros i Hi. by rewrite Fr, En.
Qed.

(** A first node, moved to the main queue or freed, and then the others. *)
Lemma enqueued_cons s s2 s' q' ids v nv aids new L add1 add2 seen' :
  next_node s2 = next_node s -> blackened s2 = blackened s ->
  (forall i, i ∉ ids -> i <> v -> nodes s2 !! i = nodes s !! i) ->
  v ∉ aids -> nv = [v] \/ nv = [] /\ nodes s2 !! v = None /\ v ∉ ids ->
  enqueued s2 s' q' (ids ++ nv) aids new (L ++ add1) add2 seen' ->
  enqueued s s' q' ids (v :: aids) (nv ++ new) L (add1 ++ add2) seen'.
Proof.
  intros En Eb Hf Nv Hv [K' N' B' Q' M' W' F' R'].
  assert (Hnv : forall i, i ∈ nv -> i = v) by (destruct Hv as [->|[-> _]]; set_solver). split.
  - done.
  - congruence.
  - congruence.
  - by rewrite !app_assoc.
  - done.
  - intros i [->%Hnv|Hi]%elem_of_app; [by left|right; by apply W'].
  - intros i Ni [N1 N2]%not_elem_of_cons. rewrite F'; [by apply Hf| |done].
    intros [?|?%Hnv]%elem_of_app; done.
  - intros i [->|Hi]%elem_of_cons [N1 N2]%not_elem_of_app.
    + destruct Hv as [->|(-> & Hn & Ni)]; [by destruct N1; left|]. rewrite F'; [done| |done]. by rewrite app_nil_r.
    + by apply R'.
Qed.

Lemma enqueue_adjacent_ok fuel s q ids L a aids AL seen :
  heap_ok s -> queue (nodes s) q ids L -> queue (nodes s) a aids AL -> (forall i, i ∈ ids -> i ∉ aids) ->
  maps_ok s seen -> Forall (fun ot => window wlo (fst ot) /\ fst ot <> 0) AL -> (length AL < fuel)%nat ->
  exists s' q' new, enqueue_adjacent fuel q a s = Done (q', s') /\
    enqueued s s' q' ids aids new L (fresh seen AL) ((fresh seen AL).*1 ++ seen).
Proof.
  revert s q ids L a aids AL seen. induction fuel as [|fuel IH]; intros s q ids L a aids AL seen K Q A Hd Mp F Hf; [lia|].
  cbn [enqueue_adjacent]. destruct AL as [|[o t] AL].
  { destruct aids as [|v aids]; [|by destruct A as (_ & A & _)]. destruct (pop_head_empty s a [] A) as [Ep _].
    rewrite (bind_Done _ _ _ _ _ Ep). exists s, q, []. split; [done|]. split; [done..|by rewrite !app_nil_r|done| |done|].
    - intros i Hi. by apply not_elem_of_nil in Hi.
    - intros i Hi. by apply not_elem_of_nil in Hi. }
  destruct aids as [|v aids]; [by destruct A as (_ & A & _)|].
  apply Forall_cons in F as [[Wo No] F]. simpl in Wo, No.
  destruct (pop_head_ok s a v aids o t AL A) as (s1 & a1 & info & Ep & Nv & A1 & Ev & Ls).
  rewrite (bind_Done _ _ _ _ _ Ep), (proj2 (Z.eqb_neq v 0)) by done.
  rewrite (bind_Done _ _ _ _ _ (rd_node_ok _ _ _ Ev)). cbn [n_obj].
  pose proof (heap_ok_step _ _ _ K Ls) as K1. pose proof (maps_ok_ext _ _ _ (ls_maps _ _ _ Ls) Mp) as Mp1.
  rewrite (bind_Done _ _ _ _ _ (colour_of_ok s1 seen o Mp1)).
  assert (Nd : v ∉ aids) by (destruct A as (Nd & _); by apply NoDup_cons in Nd as [? _]).
  assert (Q1 : queue (nodes s1) q ids L).
  { apply (queue_step _ _ _ _ _ _ Q Ls). intros i Hi ->%list_elem_of_singleton. apply (Hd v Hi). by left. }
  destruct (ls_maps _ _ _ Ls) as (_ & _ & _ & Eb1). cbn [fresh].
  destruct (decide (o ∈ seen)) as [Ho|Ho].
  - rewrite (proj2 (Z.eqb_neq _ _)) by by apply (mp_seen _ _ Mp1 o Wo).
    rewrite (bind_Done _ _ _ q (set_nodes (delete v (nodes s1)) s1)) by (by rewrite (bind_Done _ _ _ _ _ (free_node_ok _ _ _ Ev))).
    set (s2 := set_nodes (delete v (nodes s1)) s1). pose proof (free_step s1 v) as L2. fold s2 in L2.
    destruct (IH s2 q ids L a1 aids AL seen) as (s' & q' & new & E' & Eq).
    + by eapply heap_ok_step.
    + apply (queue_step _ _ _ _ _ _ Q1 L2). intros i Hi ->%list_elem_of_singleton. apply (Hd v Hi). by left.
    + apply (queue_step _ _ _ _ _ _ A1 L2). intros i Hi ->%list_elem_of_singleton. done.
    + intros i Hi Hi'. apply (Hd i Hi). by right.
    + by apply (maps_ok_ext s1).
    + done.
    + simpl in Hf. lia.
    + exists s', q', new. split; [done|].
      apply (enqueued_cons s s2 s' q' ids v [] aids new L [] _ _ (ls_next _ _ _ Ls) Eb1); [|done| |by rewrite !app_nil_r].
      * intros i Hi Ni. rewrite (ls_frame _ _ _ L2), (ls_frame _ _ _ Ls) by (by intros ->%list_elem_of_singleton). done.
      * right. split_and!; [done|by apply lookup_delete_eq|]. intros Hi. apply (Hd v Hi). by left.
  - assert (tget o (colours s1) = 0) as ->.
    { destruct (decide (tget o (colours s1) = 0)) as [|N]; [done|]. by apply (mp_seen _ _ Mp1 o Wo) in N. }
    cbn [Z.eqb WHITE].
    destruct (enqueue_white s1 q ids L seen v o t info K1 Q1) as (s2 & q2 & E2 & K2 & N2 & B2 & Q2 & M2 & F2); [|done..|].
    { intros Hi. apply (Hd v Hi). by left. }
    rewrite (bind_Done _ _ _ _ _ E2).
    destruct (IH s2 q2 (ids ++ [v]) (L ++ [(o, t)]) a1 aids AL (o :: seen)) as (s' & q' & new & E' & Eq); [done|done| | |done|done| |].
    + eapply queue_ext; [|done]. intros i Hi. apply F2. intros Hi'. apply (Hd i Hi'). by right.
    + intros i [Hi|Hi%list_elem_of_singleton]%elem_of_app; [|by subst i]. intros Hi'. apply (Hd i Hi). by right.
    + simpl in Hf. lia.
    + exists s', q', (v :: new). split; [done|].
      apply (enqueued_cons s s2 s' q' ids v [v] aids new L [(o, t)] (fresh (o :: seen) AL)).
      * rewrite N2. apply Ls.
      * congruence.
      * intros i Hi Ni. rewrite F2, (ls_frame _ _ _ Ls) by (done || by intros ->%list_elem_of_singleton). done.
      * done.
      * by left.
      * destruct Eq as [Eq1 Eq2 Eq3 Eq4 [Ea Ed Ee Eg Eh] Eq6 Eq7 Eq8]. split; [done..| |done|done|done].
        split; [done..|]. intros k Wk. rewrite Eh by done. simpl. set_solver.
Qed.
End colours.

(** ** The search *)

Lemma fresh_spec seen L :
  NoDup (fresh seen L).*1 /\ (forall o, o ∈ (fresh seen L).*1 -> o ∉ seen) /\
  (forall x, x ∈ fresh seen L -> x ∈ L) /\ (forall o, o ∈ L.*1 -> o ∈ seen \/ o ∈ (fresh seen L).*1).
Proof.
  revert seen. induction L as [|[o t] L IH]; intros seen; cbn [fresh].
  - split_and!; [constructor|by intros o Ho%not_elem_of_nil|done|by intros o Ho%not_elem_of_nil].
  - case_decide as Ho.
    + destruct (IH seen) as (N & D & I & C). split_and!; [done|done|intros x Hx; right; by apply I|].
      intros o' [->|Ho']%elem_of_cons; [by left|by apply C].
    + destruct (IH (o :: seen)) as (N & D & I & C). split_and!.
      * apply NoDup_cons. split; [|done]. intros Hx. apply (D o Hx). by left.
      * intros o' [->|Ho']%elem_of_cons; [done|]. intros Hs. apply (D o' Ho'). by right.
      * intros x [->|Hx]%elem_of_cons; [by left|right; by apply I].
      * intros o' [->|Ho']%elem_of_cons; [right; by left|]. destruct (C o' Ho') as [[->|Hs]%elem_of_cons|Hf];
          [right; by left|by left|right; by right].
Qed.

Section search.
Context (wlo : Z) {U : UniqtypeEnv} {E : BfsEnv} {B : Build}.
Context (depth : nat) (typed : Z -> Z -> Prop) (objs : list Z).

(** The objects to search: finitely many, in a window of 2 GB, with types that
    nest finitely, and closed under following pointers. *)
Record graph_ok : Prop := {
  go_window o t : typed o t -> window wlo o;
  go_nonnull o t : typed o t -> o <> 0;
  go_type o t : typed o t -> finite_type depth t;
  go_objs o t : typed o t -> o ∈ objs;
  go_closed o t o' t' : typed o t -> (o', t') ∈ edges depth o 0 t -> typed o' t';
}.

Definition points_to (x y : Z * Z) : Prop := y ∈ edges depth (fst x) 0 (snd x).

(** Between two turns of the loop: [L] is queued and [D] is black. *)
Record searching (base : gmap Z node_rec) (black0 : list (Z * Z)) (root : Z * Z)
    (s : bfs_state) (q : Z * Z) (ids : list Z) (L D : list (Z * Z)) : Prop := {
  se_heap : heap_ok s;
  se_queue : queue (nodes s) q ids L;
  se_frame i : i ∉ ids -> nodes s !! i = base !! i;
  se_base i : i ∈ ids -> base !! i = None;
  se_black : blackened s = black0 ++ D;
  se_seen : exists seen, maps_ok wlo s seen /\ (forall o, o ∈ seen -> o ∈ (D ++ L).*1) /\
    (forall o, o ∈ (D ++ tail L).*1 -> o ∈ seen);
  se_nodup : NoDup (D ++ L).*1;
  se_typed x : x ∈ D ++ L -> typed (fst x) (snd x);
  se_reach x : x ∈ D ++ L -> rtc points_to root x;
  se_closed x y : x ∈ D -> points_to x y -> fst y ∈ (D ++ L).*1;
  se_first : head (D ++ L) = Some root;
}.

Context (G : graph_ok).

(** The start node alone in the queue. *)
Lemma searching_start s s1 p object t :
  typed object t -> heap_ok s1 -> nodes s1 = <[p := NodeRec object t 0 0]> (nodes s) -> nodes s !! p = None -> p <> 0 ->
  blackened s1 = blackened s ->
  searching (nodes s) (blackened s) (object, t) (set_predecessors Leaf (set_distances Leaf (set_colours Leaf s1)))
    (p, p) [p] [(object, t)] [].
Proof.
  intros Ty K1 H1 Hn Hp Eb. split.
  - done.
  - split_and!; [apply NoDup_singleton| |done]. simpl. split_and!; [done..|]. exists 0, 0.
    split; [rewrite H1; apply lookup_insert_eq|done].
  - intros i Hi. simpl. rewrite H1, lookup_insert_ne; [done|]. intros <-. apply Hi. by left.
  - by intros i ->%list_elem_of_singleton.
  - simpl. by rewrite Eb, app_nil_r.
  - exists []. split_and!; [|by intros o Ho%not_elem_of_nil|by intros o Ho%not_elem_of_nil].
    split; [done..|]. intros k Wk. simpl. rewrite elem_of_nil. done.
  - apply NoDup_singleton.
  - by intros x ->%list_elem_of_singleton.
  - by intros x ->%list_elem_of_singleton.
  - by intros x y Hx%not_elem_of_nil.
  - done.
Qed.

Lemma nodup_size (h : gmap Z node_rec) (l : list Z) : NoDup l -> (forall i, i ∈ l -> is_Some (h !! i)) -> (length l <= size h)%nat.
Proof.
  intros Nd Hl. rewrite <- size_dom, <- (size_list_to_set (C := gset Z) l) by done. apply subseteq_size.
  intros i Hi%elem_of_list_to_set. by apply elem_of_dom, Hl.
Qed.

Lemma typed_ok L : (forall x, x ∈ L -> typed (fst x) (snd x)) -> Forall (fun ot => window wlo (fst ot) /\ fst ot <> 0) L.
Proof.
  intros Hl. apply Forall_forall. intros x Hx. specialize (Hl x Hx).
  split; [by eapply go_window|by eapply go_nonnull].
Qed.

Lemma maps_ok_equiv s l l' : (forall k, k ∈ l <-> k ∈ l') -> maps_ok wlo s l -> maps_ok wlo s l'.
Proof. intros El [? ? ? ? Hs]. split; [done..|]. intros k Wk. by rewrite Hs, El. Qed.

(** Colouring an object and enqueueing what it points to. *)
Lemma explore_ok s q ids o t L seen :
  heap_ok s -> queue (nodes s) q ids L -> maps_ok wlo s seen -> typed o t ->
  let F := fresh (o :: seen) (edges depth o 0 t) in
  exists s' q' new,
    (forall A (k : Z * Z -> M bfs_state A),
       (set_colour o GREY ;; adj ← build_adjacency_list_recursive depth o (0, 0) 0 t;
        h ← gets nodes; q ← enqueue_adjacent (S (size h)) q adj; k q) s = k q' s') /\
    heap_ok s' /\ queue (nodes s') q' (ids ++ new) (L ++ F) /\ blackened s' = blackened s /\
    (forall i, i ∉ ids -> i ∉ new -> nodes s' !! i = nodes s !! i) /\
    (forall i, i ∈ new -> nodes s !! i = None) /\ maps_ok wlo s' (F.*1 ++ o :: seen).
Proof.
  intros K Q Mp Ty F.
  destruct (set_colour_ok wlo s seen o GREY Mp (go_window G o t Ty) ltac:(done)) as (s2 & E2 & S2 & Mp2).
  pose proof S2 as (En2 & Ex2 & Eb2). pose proof (same_nodes_heap _ _ K S2) as K2.
  destruct (build_adjacency_ok depth o 0 t s2 (0, 0) [] [] (go_type G o t Ty) K2) as (s3 & a & new & E3 & G3).
  { split_and!; [constructor|done|done]. }
  destruct G3 as [K3 M3 N3 Q3 _ W3 F3 O3]. simpl in Q3.
  assert (Hids : forall i, i ∈ ids -> i < next_node s2) by (intros i Hi; rewrite Ex2; by apply (queue_ids _ _ _ _ _ K Q)).
  assert (Q1 : queue (nodes s3) q ids L).
  { eapply queue_ext; [|exact Q]. intros i Hi. rewrite F3, En2; [done|by apply Hids|by apply not_elem_of_nil]. }
  assert (Hlen : (length (edges depth o 0 t) < S (size (nodes s3)))%nat).
  { destruct Q3 as (Nd3 & Ql3 & _). rewrite <- (qlist_length _ _ _ _ Ql3). apply Nat.lt_succ_r, nodup_size; [done|].
    intros i Hi. by apply (qlist_in _ _ _ _ i Ql3). }
  destruct (enqueue_adjacent_ok wlo (S (size (nodes s3))) s3 q ids L a new _ (o :: seen) K3 Q1 Q3)
    as (s4 & q4 & new4 & E4 & [K4 N4 B4 Q4 M4 W4 F4 R4]); [|by apply (maps_ok_ext wlo s2)| |done|].
  { intros i Hi Hi'. specialize (W3 i Hi'). specialize (Hids i Hi). lia. }
  { apply typed_ok. intros [o' t'] Hx. by eapply go_closed. }
  exists s4, q4, new4. split_and!; [|done|done| | | |done].
  - intros A k. rewrite (bind_Done _ _ _ _ _ E2), (bind_Done _ _ _ _ _ E3).
    rewrite (bind_Done _ _ _ _ _ (eq_refl : gets nodes s3 = _)). by rewrite (bind_Done _ _ _ _ _ E4).
  - destruct M3 as (_ & _ & _ & Eb3). congruence.
  - intros i Ni Nn. rewrite <- En2. destruct (Z.lt_ge_cases i (next_node s2)) as [Hi|Hi].
    + rewrite F4, F3; [done..|by apply not_elem_of_nil|done|]. intros Hx. specialize (W3 i Hx). lia.
    + rewrite (heap_fresh s2 i K2 Hi). destruct (decide (i ∈ new)) as [Hx|Hx]; [by apply R4|].
      rewrite F4 by done. destruct (nodes s3 !! i) eqn:Ei; [|done]. destruct Hx. apply O3; [done|by rewrite Ei].
  - intros i Hi. rewrite <- En2. apply (heap_fresh s2 i K2), W3, W4, Hi.
Qed.

(** One turn of the loop, on nodes and trees. *)
Lemma turn_ok fuel s q u ids o t L seen :
  heap_ok s -> queue (nodes s) q (u :: ids) ((o, t) :: L) -> maps_ok wlo s seen -> typed o t ->
  let F := fresh (o :: seen) (edges depth o 0 t) in
  exists s' q' new, process_bfs_queue_and_maps (S fuel) depth q s = process_bfs_queue_and_maps fuel depth q' s' /\
    heap_ok s' /\ queue (nodes s') q' (ids ++ new) (L ++ F) /\
    (forall i, i ∉ u :: ids -> i ∉ new -> nodes s' !! i = nodes s !! i) /\ nodes s' !! u = None /\
    (forall i, i ∈ new -> nodes s !! i = None) /\ blackened s' = blackened s ++ [(o, t)] /\
    maps_ok wlo s' (F.*1 ++ o :: seen).
Proof.
  intros K Q Mp Ty F. cbn [process_bfs_queue_and_maps]. assert (Hq : __uniqtype_node_queue_empty q = false).
  { destruct Q as (_ & (Eh & Nu & _) & _). unfold __uniqtype_node_queue_empty. rewrite Eh. by apply Z.eqb_neq. }
  rewrite Hq. destruct (pop_head_ok s q u ids o t L Q) as (s1 & q1 & info & Ep & Nu & Q1 & Eu & L1).
  assert (Hu : u ∉ ids) by (destruct Q as (Nd & _); by apply NoDup_cons in Nd as [? _]).
  rewrite (bind_Done _ _ _ _ _ Ep), (bind_Done _ _ _ _ _ (rd_node_ok _ _ _ Eu)). cbn [n_obj n_t].
  destruct (explore_ok s1 q1 ids o t L seen (heap_ok_step _ _ _ K L1) Q1 (maps_ok_ext wlo _ _ _ (ls_maps _ _ _ L1) Mp) Ty)
    as (s4 & q4 & new & Hrun & K4 & Q4 & B4 & F4 & N4 & M4). rewrite Hrun. fold F in Q4, M4.
  destruct (set_colour_ok wlo s4 _ o BLACK M4 (go_window G o t Ty) ltac:(done)) as (s5 & E5 & S5 & Mp5).
  rewrite (bind_Done _ _ _ _ _ E5). pose proof S5 as (En5 & Ex5 & Eb5).
  set (s6 := BfsState (nodes s5) (next_node s5) (colours s5) (distances s5) (predecessors s5) (blackened s5 ++ [(o, t)])).
  rewrite (bind_Done _ _ _ tt s6) by done.
  assert (Nun : u ∉ new) by (intros Hx; specialize (N4 u Hx); congruence).
  assert (Eu4 : nodes s4 !! u = Some (NodeRec o t info 0)) by (by rewrite F4).
  erewrite (bind_Done _ _ _ tt) by (apply (free_node_ok u (NodeRec o t info 0)); simpl; by rewrite En5).
  pose proof (free_step s6 u) as L6. eexists _, q4, new. split; [reflexivity|]. split_and!.
  - apply (heap_ok_step s6 _ [u]); [|done]. apply (same_nodes_heap s4 s5 K4 S5).
  - apply (queue_step s6 _ _ _ _ [u]); [simpl; by rewrite En5|done|].
    intros i [Hi|Hi]%elem_of_app ->%list_elem_of_singleton; done.
  - intros i Hi Ni. apply not_elem_of_cons in Hi as [Ne Hi]. rewrite (ls_frame _ _ _ L6) by (by intros ->%list_elem_of_singleton).
    simpl. rewrite En5, F4 by done. apply (ls_frame _ _ _ L1). by intros ->%list_elem_of_singleton.
  - simpl. apply lookup_delete_eq.
  - intros i Hi. specialize (N4 i Hi). rewrite <- (ls_frame _ _ _ L1); [done|]. intros ->%list_elem_of_singleton. done.
  - simpl. rewrite Eb5, B4. by destruct (ls_maps _ _ _ L1) as (_ & _ & _ & ->).
  - apply (maps_ok_equiv _ (o :: F.*1 ++ o :: seen)); [set_solver|]. destruct Mp5 as [? ? ? ? ?]. by split.
Qed.

(** One turn keeps the invariant. *)
Lemma search_turn fuel base black0 root s q u ids o t L D :
  searching base black0 root s q (u :: ids) ((o, t) :: L) D ->
  exists s' q' ids' L', process_bfs_queue_and_maps (S fuel) depth q s = process_bfs_queue_and_maps fuel depth q' s' /\
    searching base black0 root s' q' ids' L' (D ++ [(o, t)]).
Proof.
  intros [K Q Fr Ba Bk (seen & Mp & S1 & S2) Nd Ty Re Cl Fi].
  assert (Ht : typed o t) by (apply (Ty (o, t)), elem_of_app; right; by left).
  destruct (turn_ok fuel s q u ids o t L seen K Q Mp Ht) as (s' & q' & new & Ep & K' & Q' & F' & Nu & New & B' & M').
  destruct (fresh_spec (o :: seen) (edges depth o 0 t)) as (FN & FD & FI & FC).
  set (F := fresh (o :: seen) (edges depth o 0 t)) in *.
  assert (EL : (D ++ [(o, t)]) ++ L ++ F = (D ++ (o, t) :: L) ++ F) by (by rewrite <- !app_assoc).
  assert (Hseen : forall x, x ∈ (D ++ (o, t) :: L).*1 -> x ∈ o :: seen).
  { intros x. rewrite fmap_app, fmap_cons, elem_of_app, !elem_of_cons. intros [Hx|[->|Hx]]; [right|by left|right]; apply S2;
      rewrite fmap_app, elem_of_app; [by left|by right]. }
  exists s', q', (ids ++ new), (L ++ F). split; [done|]. split; rewrite ?EL.
  - done.
  - done.
  - intros i [N1 N2]%not_elem_of_app. destruct (decide (i = u)) as [->|Ne]; [rewrite Nu; symmetry; apply Ba; by left|].
    rewrite F' by (rewrite ?not_elem_of_cons; done). apply Fr. by rewrite not_elem_of_cons.
  - intros i [Hi|Hi]%elem_of_app; [apply Ba; by right|]. rewrite <- Fr; [by apply New|]. intros Hx.
    destruct (qlist_in _ _ _ _ i (proj1 (proj2 Q)) Hx) as [Hs _]. rewrite (New i Hi) in Hs. by destruct Hs.
  - by rewrite B', Bk, app_assoc.
  - exists (F.*1 ++ o :: seen). split_and!; [done| |].
    + intros x [Hx|[->|Hx]%elem_of_cons]%elem_of_app; rewrite fmap_app, elem_of_app; [by right|left|left; by apply S1].
      rewrite fmap_app, fmap_cons, elem_of_app. right. by left.
    + intros x Hx. apply elem_of_app.
      assert (x ∈ ((D ++ (o, t) :: L) ++ F).*1) as Hx'.
      { rewrite <- EL. rewrite fmap_app, elem_of_app in Hx |- *. destruct Hx as [Hx|Hx]; [by left|right].
        apply list_elem_of_fmap in Hx as (y & -> & Hy). apply list_elem_of_fmap. exists y. split; [done|]. by destruct (L ++ F); [|right]. }
      rewrite fmap_app, elem_of_app in Hx'. destruct Hx' as [Hx'|Hx']; [right; by apply Hseen|by left].
  - rewrite fmap_app. apply NoDup_app. split_and!; [done| |done]. intros x Hx Hf. by apply (FD x Hf), Hseen.
  - intros x [Hx|Hx]%elem_of_app; [by apply Ty|]. destruct x as [o' t']. by eapply go_closed, FI.
  - intros x [Hx|Hx]%elem_of_app; [by apply Re|]. apply rtc_r with (o, t); [|by apply FI].
    apply Re, elem_of_app. right. by left.
  - intros x y [Hx|Hx]%elem_of_app Hp; rewrite fmap_app, elem_of_app; [left; by apply (Cl x)|].
    apply list_elem_of_singleton in Hx as ->. destruct (FC (fst y)) as [Hs|Hs]; [|left|by right].
    + apply list_elem_of_fmap. by exists y.
    + apply elem_of_cons in Hs as [->|Hs]; [|by apply S1]. rewrite fmap_app, fmap_cons, elem_of_app. right. by left.
  - destruct (D ++ (o, t) :: L) eqn:ED; [by destruct D|]. done.
Qed.

Lemma bfs_search_ok fuel base black0 root s q ids L D :
  searching base black0 root s q ids L D -> (length objs < fuel + length D)%nat ->
  exists s' D', process_bfs_queue_and_maps fuel depth q s = Done ((0, 0), s') /\
    searching base black0 root s' (0, 0) [] [] D'.
Proof.
  revert s q ids L D. induction fuel as [|fuel IH]; intros s q ids L D S Hf.
  - exfalso. assert (length (D ++ L).*1 <= length objs)%nat; [|rewrite length_fmap, length_app in *; lia].
    apply submseteq_length, NoDup_submseteq; [by apply S|].
    intros x Hx. apply list_elem_of_fmap in Hx as (y & -> & Hy). eapply go_objs; [done|]. by apply (se_typed _ _ _ _ _ _ _ _ S).
  - destruct ids as [|u ids], L as [|[o t] L]; pose proof (se_queue _ _ _ _ _ _ _ _ S) as (_ & Ql & Tl); try done.
    + simpl in Ql, Tl. destruct q as [h tl]. simpl in Ql, Tl. subst. exists s, D. by split.
    + destruct (search_turn fuel _ _ _ _ _ _ _ _ _ _ _ S) as (s1 & q1 & ids1 & L1 & -> & S1).
      apply (IH _ _ _ _ _ S1). rewrite length_app. simpl. lia.
Qed.
End search.
