(* ===== verification/UniqtypeTheorems.v ===== *)
(** The contract of the walks over typed memory, with instances on a concrete
    object graph. *)
From S2P Require Import Prelude DList Uniqtype Subobject UniqtypeBfs UniqtypeBfsFacts Demo.

Section bfs.
Context {U : UniqtypeEnv} {E : BfsEnv} {B : Build}.

(** C23.  A breadth-first walk of a finite object graph whose objects all lie
    in one window of 2 GB and have types that nest finitely ([graph_ok])
    returns; [far_object_missed] shows what happens outside the window.  It
    reports each object at most once, the start first; every object it reports
    is reached from the start by following pointers; what a reported object
    points to is reported; if each object is always seen at one type, exactly
    the reachable objects are reported; and every node it allocated has been
    freed. *)
Theorem bfs_visits_once wlo depth typed objs fuel object t s :
  graph_ok wlo depth typed objs -> typed object t -> heap_ok s -> (length objs < fuel)%nat ->
  exists s' D, __uniqtype_walk_bfs_from_object fuel depth object t s = Done (tt, s') /\
    blackened s' = blackened s ++ D /\ NoDup D.*1 /\ head D = Some (object, t) /\
    (forall x, x ∈ D -> rtc (points_to depth) (object, t) x) /\
    (forall x y, x ∈ D -> points_to depth x y -> fst y ∈ D.*1) /\
    ((forall o t1 t2, typed o t1 -> typed o t2 -> t1 = t2) ->
     forall x, rtc (points_to depth) (object, t) x -> x ∈ D) /\
    nodes s' = nodes s.
Proof.
  intros G Ty K Hf. unfold __uniqtype_walk_bfs_from_object.
  rewrite (proj2 (Z.eqb_neq object 0)) by (by eapply go_nonnull).
  destruct (make_node_ok s object t K) as (s1 & E1 & K1 & N1 & H1 & Hn & M1). rewrite (bind_Done _ _ _ _ _ E1).
  set (p := next_node s) in *. assert (Hp : p <> 0) by (pose proof (proj1 K); lia).
  assert (Ep : nodes s1 !! p = Some (NodeRec object t 0 0)) by (rewrite H1; apply lookup_insert_eq).
  assert (Epush : __uniqtype_node_queue_push_tail (0, 0) p s1 = Done ((p, p), s1)).
  { unfold __uniqtype_node_queue_push_tail. rewrite (bind_Done _ _ _ _ _ (rd_node_ok _ _ _ Ep)).
    rewrite (bind_Done _ _ _ tt s1) by (by apply assert_true). change (negb (0 =? 0)) with false. cbv iota.
    by rewrite (bind_Done _ _ _ tt s1) by (by apply assert_true). }
  rewrite (bind_Done _ _ _ _ _ Epush).
  rewrite (bind_Done _ _ _ tt s1).
  2: { unfold assertM. destruct NDEBUG; [done|]. rewrite bind_bind, (bind_Done _ _ _ _ _ (rd_node_ok _ _ _ Ep)). cbn.
       rewrite Z.leb_refl, Z.sub_diag. done. }
  unfold __uniqtype_process_bfs_queue.
  set (s2 := set_predecessors Leaf (set_distances Leaf (set_colours Leaf s1))).
  destruct (bfs_search_ok wlo depth typed objs G fuel (nodes s) (blackened s) (object, t) s2 (p, p) [p] [(object, t)] [])
    as (s' & D & E' & S'); [|simpl; lia|].
  - apply searching_start; [done..|]. by destruct M1 as (_ & _ & _ & ->).
  - destruct S' as [K' Q' Fr _ Bk (seen & _) Nd Tp Re Cl Fi]. rewrite app_nil_r in Nd, Tp, Re, Cl, Fi.
    rewrite bind_bind, (bind_Done _ _ _ tt s2) by done. rewrite bind_bind, (bind_Done _ _ _ _ _ E').
    eexists _, D. split; [reflexivity|]. split_and!; [done..| |].
    + intros Hu x Hx. apply (rtc_ind_r (fun x => x ∈ D) (object, t)) with (3 := Hx).
      * destruct D as [|d D]; [done|]. injection Fi as ->. by left.
      * intros y z _ Hyz Hy. pose proof (Cl y z Hy Hyz) as Hz. apply list_elem_of_fmap in Hz as ([o' t'] & Ho & Hz).
        destruct z as [o'' t'']. simpl in Ho. subst o''. replace t'' with t'; [done|]. apply (Hu o'); [by apply (Tp (o', t'))|].
        destruct y as [oy ty]. by eapply (go_closed _ _ _ _ G oy ty), Hyz; apply (Tp (oy, ty)).
    + apply map_eq. intros i. apply Fr, not_elem_of_nil.
Qed.
End bfs.

(** ** Instances *)

(** Type 10 is a struct of two pointers (11) to itself. *)
#[local] Instance pair_types : UniqtypeEnv := {|
  UNIQTYPE_IS_ARRAY_TYPE _ := false;
  UNIQTYPE_IS_COMPOSITE_TYPE u := u =? 10;
  UNIQTYPE_IS_POINTER_TYPE u := u =? 11;
  UNIQTYPE_ARRAY_LENGTH _ := 0;
  UNIQTYPE_COMPOSITE_MEMBER_COUNT u := if u =? 10 then 2 else 0;
  pos_maxoff u := if u =? 10 then 16 else 8;
  related_ptr u i := if u =? 10 then 11 else 10;
  related_off u i := 8 * i;
|}.

(** Three objects in a cycle, the first with a pointer to itself. *)
#[local] Instance cycle : BfsEnv := {|
  UNIQTYPE_HAS_SUBOBJECTS u := u =? 10;
  UNIQTYPE_POINTEE_TYPE _ := 10;
  subobjects u := if u =? 10 then [(11, 0); (11, 8)] else [];
  type_is_imprecise _ := false;
  pointer_to___uniqtype__void := 1;
  load a := if a =? 0x400000 then 0x400100 else if a =? 0x400008 then 0x400000 else
            if a =? 0x400100 then 0x400200 else if a =? 0x400200 then 0x400000 else 0;
  follow_ptr := __uniqtype_default_follow_ptr;
|}.
Definition cycle_objects : list Z := [0x400000; 0x400100; 0x400200].

Lemma cycle_ok : graph_ok 0x400000 2 (fun o t => o ∈ cycle_objects /\ t = 10) cycle_objects.
Proof.
  assert (F : finite_type 2 10).
  { apply finite_composite; [done..|]. intros t' off Hs Hp.
    apply elem_of_cons in Hs as [[= -> ->]|Hs]; [done|]. by apply list_elem_of_singleton in Hs as [= -> ->]. }
  assert (Hc : forall o, o ∈ cycle_objects -> o = 0x400000 \/ o = 0x400100 \/ o = 0x400200).
  { intros o. unfold cycle_objects. rewrite !elem_of_cons, elem_of_nil. tauto. }
  split.
  - intros o t [Ho _]. unfold window. destruct (Hc o Ho) as [->|[->| ->]]; lia.
  - intros o t [Ho _]. by destruct (Hc o Ho) as [->|[->| ->]].
  - by intros o t [_ ->].
  - by intros o t [Ho _].
  - intros o t o' t' [Ho ->] He.
    assert (Hf : Forall (fun x => fst x ∈ cycle_objects /\ snd x = 10) (edges 2 o 0 10)).
    { destruct (Hc o Ho) as [->|[->| ->]]; repeat constructor. }
    rewrite Forall_forall in Hf. by apply (Hf _ He).
Qed.

Definition no_nodes : bfs_state := BfsState ∅ 1 Leaf Leaf Leaf [].

Lemma bfs_visits_once_witness :
  exists s' D, __uniqtype_walk_bfs_from_object (B := debug) 4 2 0x400100 10 no_nodes = Done (tt, s') /\
    blackened s' = blackened no_nodes ++ D /\ NoDup D.*1 /\ head D = Some (0x400100, 10) /\
    (forall x, x ∈ D -> rtc (points_to 2) (0x400100, 10) x) /\
    (forall x y, x ∈ D -> points_to 2 x y -> fst y ∈ D.*1) /\
    ((forall o t1 t2, o ∈ cycle_objects /\ t1 = 10 -> o ∈ cycle_objects /\ t2 = 10 -> t1 = t2) ->
     forall x, rtc (points_to 2) (0x400100, 10) x -> x ∈ D) /\
    nodes s' = nodes no_nodes.
Proof.
  apply (bfs_visits_once (B := debug) 0x400000 2 (fun o t => o ∈ cycle_objects /\ t = 10) cycle_objects 4 0x400100 10 no_nodes).
  - apply cycle_ok.
  - split; [right; by left|done].
  - split; [done|]. intros i [x Hx]. cbn in Hx. by rewrite lookup_empty in Hx.
  - cbn. lia.
Defined.

(** Two objects that lie 2^32 apart have equal keys: the second is taken for
    the first and is not reported. *)
Definition far_memory : BfsEnv := {|
  UNIQTYPE_HAS_SUBOBJECTS u := u =? 10;
  UNIQTYPE_POINTEE_TYPE _ := 10;
  subobjects u := if u =? 10 then [(11, 0); (11, 8)] else [];
  type_is_imprecise _ := false;
  pointer_to___uniqtype__void := 1;
  load a := if a =? 0x400000 then 0x100400000 else 0;
  follow_ptr := __uniqtype_default_follow_ptr;
|}.
Lemma far_object_missed :
  edges (E := far_memory) 2 0x400000 0 10 = [(0x100400000, 10)] /\
  exists s', __uniqtype_walk_bfs_from_object (E := far_memory) (B := debug) 4 2 0x400000 10 no_nodes = Done (tt, s') /\
    blackened s' = [(0x400000, 10)].
Proof. split; [by vm_compute|]. eexists. split; by vm_compute. Qed.
