(* ===== verification/Walk.v ===== *)
(** Walks over the tree of allocations: src/src/walk.c, with the positions,
    links and paths of src/include/allocmeta.h.

    The word [bigalloc_or_uniqtype] is a pointer to a bigalloc or to a uniqtype
    with flags in its low bits; the code tells the two apart by comparing the
    address with the array [big_allocations], the model by a constructor.  The
    flag argument aside, a callback gets one record [call].  The callbacks run
    on a state [S] of the client's, of which the walk reads the bigalloc table.
    [UNIQTYPE_FOR_EACH_SUBOBJECT] (uniqtype-defs.h) and the functions
    [walk_allocations] reached through [struct allocator] are parameters. *)
From S2P Require Import Prelude Vas BigAlloc.

(** ** Positions in the tree *)

Inductive bigalloc_or_uniqtype_ptr := Big (b : Z) | Typ (u : Z).

Record bou := Bou { bou_ptr : bigalloc_or_uniqtype_ptr; bou_flags : Z }.

Record alloc_tree_pos := Pos { base : Z; bigalloc_or_uniqtype : bou }.

Record alloc_tree_link := Link { container : alloc_tree_pos; containee_coord : Z }.

Inductive alloc_tree_path := Path (to_here : alloc_tree_link) (encl_depth : Z) (encl : option alloc_tree_path).
Definition to_here (p : alloc_tree_path) : alloc_tree_link := let 'Path l _ _ := p in l.
Definition encl_depth (p : alloc_tree_path) : Z := let 'Path _ d _ := p in d.

Definition BOU_IS_BIGALLOC (p : bou) : bool :=
  match bou_ptr p with Big b => (1 <=? b) && (b <? NBIGALLOCS) | Typ _ => false end.

Definition ALLOC_WALK_BIGALLOC_IMPOSED_CHILDREN : Z := 1.

(** The arguments of a [walk_alloc_cb_t]. *)
Record call := Call {
  maybe_the_allocation : Z;
  c_obj : Z;
  c_type : Z;
  c_site : Z;
  c_link : alloc_tree_link;
}.
Definition set_allocation (b : Z) (c : call) : call := Call b (c_obj c) (c_type c) (c_site c) (c_link c).

Class WalkEnv (S : Type) := {
  table_of : S -> state;
  (** the field [walk_allocations] of an allocator, if it is not null *)
  walk_allocations : Z -> option (alloc_tree_pos -> (call -> M S Z) -> Z -> Z -> M S Z);
  UNIQTYPE_HAS_SUBOBJECTS : Z -> bool;
  (** [UNIQTYPE_FOR_EACH_SUBOBJECT]: types and offsets, in order *)
  subobjects : Z -> list (Z * Z);
}.

Section walk.
Context {S : Type} {W : WalkEnv S} {B : Build}.

Definition rdw {A} (f : big_allocation -> A) (b : Z) : M S A := gets (fun s => f (ba (table_of s) b)).

(** [b->suballocator->walk_allocations(...)] *)
Definition suballocator_walk (b : Z) (pos : alloc_tree_pos) (cb : call -> M S Z) (lo hi : Z) : M S Z :=
  a ← rdw suballocator b;
  if a =? 0 then abort else
  match walk_allocations a with
  | None => abort
  | Some w => w pos cb lo hi
  end.

(** The loop over the children: what the walk returned and how far it got. *)
Fixpoint walk_imposed (fuel : nat) (b : Z) (pos : alloc_tree_pos) (cb : call -> M S Z)
    (child coord walked_up_to maybe_range_end : Z) : M S (Z * Z) :=
  match fuel with
  | O => nofuel
  | Datatypes.S fuel =>
    if child =? 0 then mret (0, walked_up_to) else
    r ← rdw id child;
    let next :=
      walked_up_to ← rdw b_end child;
      child ← rdw next_sib child;
      walk_imposed fuel b pos cb child (wrap32 (coord + 1)) walked_up_to maybe_range_end in
    if b_end r <=? walked_up_to then next else
    if negb (maybe_range_end =? 0) && (maybe_range_end <? b_begin r) then next else
    a ← rdw suballocator b;
    if (a =? 0) || negb (allocated_by r =? a) then
      begin_ ← rdw b_begin child;
      ret ← suballocator_walk b pos cb walked_up_to begin_;
      if negb (ret =? 0) then mret (ret, walked_up_to) else
      begin_ ← rdw b_begin b;
      ret ← cb (Call b begin_ 0 0 (Link pos coord));
      if negb (ret =? 0) then mret (ret, walked_up_to) else next
    else next
  end.

(** The subobjects of a type, numbered from [i]. *)
Fixpoint walk_subobjects (pos : alloc_tree_pos) (cb : call -> M S Z) (i : Z) (l : list (Z * Z)) : M S Z :=
  match l with
  | [] => mret 0
  | (ty, offs) :: l =>
    ret ← cb (Call 0 (wrap64 (base pos + offs)) ty 0 (Link pos (wrap32 (i + 1))));
    if negb (ret =? 0) then mret ret else walk_subobjects pos cb (i + 1) l
  end.

Definition __liballocs_walk_allocations (scope : alloc_tree_pos) (cb : call -> M S Z)
    (maybe_range_begin maybe_range_end : Z) : M S Z :=
  let flags := bou_flags (bigalloc_or_uniqtype scope) in
  let walked_up_to := if maybe_range_begin =? 0 then base scope else maybe_range_begin in
  if BOU_IS_BIGALLOC (bigalloc_or_uniqtype scope) then
    match bou_ptr (bigalloc_or_uniqtype scope) with
    | Big b =>
      begin_ ← rdw b_begin b;
      assert (begin_ =? base scope) ;;
      let new_cont := Pos begin_ (Bou (Big b) 0) in
      x ← (if negb (Z.land flags ALLOC_WALK_BIGALLOC_IMPOSED_CHILDREN =? 0) then
             child ← rdw first_child b;
             walk_imposed FUEL b new_cont cb child 1 walked_up_to maybe_range_end
           else mret (0, walked_up_to));
      let '(ret, walked_up_to) := x in
      if negb (ret =? 0) then mret ret else
      end_ ← rdw b_end b;
      suballocator_walk b new_cont cb walked_up_to (if maybe_range_end =? 0 then end_ else maybe_range_end)
    | Typ _ => abort
    end
  else
    match bou_ptr (bigalloc_or_uniqtype scope) with
    | Typ u => if UNIQTYPE_HAS_SUBOBJECTS u then walk_subobjects scope cb 0 (subobjects u) else mret 0
    | Big _ => abort
    end.

(** ** The depth-first walk *)

(** The first child, from [child] on, that begins at [o]. *)
Fixpoint child_at (fuel : nat) (child o : Z) : M S Z :=
  match fuel with
  | O => nofuel
  | Datatypes.S fuel =>
    if child =? 0 then mret 0 else
    begin_ ← rdw b_begin child;
    if begin_ =? o then mret child else
    child ← rdw next_sib child;
    child_at fuel child o
  end.

Definition find_allocation (c : call) : M S call :=
  let p := bigalloc_or_uniqtype (container (c_link c)) in
  if negb (c_type c =? 0) && BOU_IS_BIGALLOC p then
    match bou_ptr p with
    | Big b =>
      child ← rdw first_child b;
      child ← child_at FUEL child (c_obj c);
      mret (if child =? 0 then c else set_allocation child c)
    | Typ _ => abort
    end
  else mret c.

(** [fuel] bounds the depth of the walk; the user's callback gets the path. *)
Fixpoint walk_one_df_cb (fuel : nat) (cb : call -> alloc_tree_path -> M S Z) (path_to_container : alloc_tree_path)
    (c : call) : M S Z :=
  c ← find_allocation c;
  let path_to_here := Path (c_link c) (wrap32 (1 + encl_depth path_to_container)) (Some path_to_container) in
  ret ← cb c path_to_here;
  if ret =? -1 then mret 0 else
  if negb (ret =? 0) then mret ret else
  if (maybe_the_allocation c =? 0) && (c_type c =? 0) then mret 0 else
  match fuel with
  | O => nofuel
  | Datatypes.S fuel =>
    let new_pos := Pos (c_obj c)
      (Bou (if maybe_the_allocation c =? 0 then Typ (c_type c) else Big (maybe_the_allocation c)) 0) in
    __liballocs_walk_allocations new_pos (walk_one_df_cb fuel cb path_to_here) 0 0
  end.

Definition empty_path : alloc_tree_path := Path (Link (Pos 0 (Bou (Typ 0) 0)) 0) 0 None.

Definition __liballocs_walk_allocations_df (fuel : nat) (under_here : alloc_tree_pos)
    (cb : call -> alloc_tree_path -> M S Z) : M S Z :=
  __liballocs_walk_allocations under_here (walk_one_df_cb fuel cb empty_path) 0 0.
End walk.

(** ** References and environment elements *)

(** The functions of [struct interpreter] that the walks use. *)
Class Interpreter := {
  can_interp : Z -> Z -> alloc_tree_link -> Z;
  may_contain : Z -> Z -> alloc_tree_link -> bool;
  is_environ : Z -> Z -> alloc_tree_link -> Z;
}.

Section callbacks.
Context {S : Type} {I : Interpreter}.

(** [set_seen_how] writes the field [seen_how] of the [walk_refs_state] in the client's state. *)
Definition __liballocs_walk_refs_cb (set_seen_how : Z -> S -> S) (ref_cb : call -> alloc_tree_path -> M S Z)
    (c : call) (p : alloc_tree_path) : M S Z :=
  let how := can_interp (c_obj c) (c_type c) (c_link c) in
  if negb (how =? 0) then
    modify (set_seen_how how) ;;
    ret ← ref_cb c p;
    modify (set_seen_how 0) ;;
    if negb (ret =? 0) then mret ret else mret (-1)
  else if negb (may_contain (c_obj c) (c_type c) (c_link c)) then mret (-1)
  else mret 0.

(** [environ_cb] gets the key of the element along with the state. *)
Definition __liballocs_walk_environ_cb (environ_cb : Z -> call -> alloc_tree_path -> M S Z)
    (c : call) (p : alloc_tree_path) : M S Z :=
  let maybe_environ_key := is_environ (c_obj c) (c_type c) (c_link c) in
  if negb (maybe_environ_key =? 0) then
    ret ← environ_cb maybe_environ_key c p;
    if negb (ret =? 0) then mret ret else mret (-1)
  else mret 0.
End callbacks.
