(* ===== verification/WalkFacts.v ===== *)
(** The tree of allocations that a depth-first walk visits, and that the walk
    visits it in order. *)
From S2P Require Import Prelude DList Vas BigAlloc BigAllocFacts Forest Traversal Walk.

(** ** The tree *)

(** An allocation, the path to it, and what is below it: [Abort] when it
    cannot be walked, [NoFuel] when it lies deeper than the model follows. *)
Inductive alloc_tree := AllocTree (c : call) (p : alloc_tree_path) (below : outcome (list alloc_tree)).

Section tree_ind.
Variable P : alloc_tree -> Prop.
Hypothesis step : forall c p below, (forall l, below = Done l -> Forall P l) -> P (AllocTree c p below).
Fixpoint alloc_tree_rect' (tr : alloc_tree) : P tr.
Proof.
  destruct tr as [c p below]. apply step. intros l El. destruct below as [l'| |]; [|discriminate El..].
  injection El as <-. induction l' as [|x l' IH]; constructor; [apply alloc_tree_rect'|exact IH].
Qed.
End tree_ind.

(** Every allocation of the tree can be walked. *)
Fixpoint complete (tr : alloc_tree) : bool :=
  match tr with
  | AllocTree _ _ (Done l) => forallb complete l
  | _ => false
  end.

Fixpoint preorder (tr : alloc_tree) : list (call * alloc_tree_path) :=
  match tr with AllocTree c p below => (c, p) :: match below with Done l => l ≫= preorder | _ => [] end end.

(** What the depth-first walk promises: the callback on the allocation, and then
    the trees below it unless the callback returned something else than 0; -1
    skips the subtree, another value ends the walk. *)
Fixpoint visit {S} (cb : call -> alloc_tree_path -> M S Z) (tr : alloc_tree) : M S Z :=
  match tr with
  | AllocTree c p below =>
    ret ← cb c p;
    if ret =? -1 then mret 0 else
    if negb (ret =? 0) then mret ret else
    match below with
    | Done l => run_until (visit cb) l
    | Abort => abort
    | NoFuel => nofuel
    end
  end.

Lemma complete_elem l x : forallb complete l = true -> x ∈ l -> complete x = true.
Proof. rewrite forallb_forall. intros F Hx. by apply F, list_elem_of_In. Qed.

Lemma visit_preorder {S} (cb : call -> alloc_tree_path -> M S Z) tr s :
  complete tr = true -> (forall c p s s', cb c p s <> Done (-1, s')) ->
  visit cb tr s = run_until (uncurry cb) (preorder tr) s.
Proof.
  intros C Hcb. revert C s. induction tr as [c p below IH] using alloc_tree_rect'. intros C s.
  destruct below as [l| |]; [|done..]. cbn [visit preorder run_until uncurry]. specialize (IH l eq_refl). simpl in C.
  apply bind_ext. intros r s1 E1. rewrite (proj2 (Z.eqb_neq r (-1))) by (intros ->; by eapply Hcb).
  destruct (Z.eqb_spec r 0) as [->|]; [|done]. cbn [negb]. apply run_until_bind.
  rewrite !Forall_forall in *. intros x Hx. apply IH; [done|]. by apply (complete_elem l).
Qed.

Lemma visit_ext {S} (f g : call -> alloc_tree_path -> M S Z) tr s :
  (forall c p s, f c p s = g c p s) -> visit f tr s = visit g tr s.
Proof.
  intros E. revert s. induction tr as [c p below IH] using alloc_tree_rect'. intros s. cbn [visit].
  unfold mbind, M_bind. rewrite E. destruct (g c p s) as [[r s1]| |]; [|done..].
  destruct (r =? -1); [done|]. destruct (negb (r =? 0)); [done|]. destruct below as [l| |]; [|done..].
  specialize (IH l eq_refl). apply (run_until_ext (fun _ => True)); [done| |done].
  intros x s2 Hx _. rewrite Forall_forall in IH. by apply IH.
Qed.

(** ** Callbacks that act on some allocations and do not look inside those *)

Section prune.
Context {S : Type} (chosen enter : call -> bool) (act : call -> alloc_tree_path -> M S Z).

Definition pruning (c : call) (p : alloc_tree_path) : M S Z :=
  if chosen c then ret ← act c p; if negb (ret =? 0) then mret ret else mret (-1)
  else if negb (enter c) then mret (-1)
  else mret 0.

(** The outermost chosen allocations, entering only those that may hold some. *)
Fixpoint selected (tr : alloc_tree) : list (call * alloc_tree_path) :=
  match tr with
  | AllocTree c p below =>
    if chosen c then [(c, p)] else
    if enter c then match below with Done l => l ≫= selected | _ => [] end else []
  end.

(** To the walk, -1 from the action is as good as 0. *)
Definition act_on (x : call * alloc_tree_path) : M S Z := ret ← act (fst x) (snd x); mret (if ret =? -1 then 0 else ret).

Lemma visit_pruning tr s : complete tr = true -> visit pruning tr s = run_until act_on (selected tr) s.
Proof.
  intros C. revert C s. induction tr as [c p below IH] using alloc_tree_rect'. intros C s.
  destruct below as [l| |]; [|done..]. cbn [visit selected]. specialize (IH l eq_refl). simpl in C. unfold pruning.
  destruct (chosen c).
  - cbn [run_until]. unfold act_on, mbind, M_bind. cbn [fst snd]. destruct (act c p s) as [[r s1]| |]; [|done..].
    destruct (Z.eqb_spec r 0) as [->|N]; [done|]. cbn [negb]. unfold mret at 1, M_ret. cbv beta iota.
    destruct (Z.eqb_spec r (-1)) as [->|]; [done|]. rewrite (proj2 (Z.eqb_neq r 0)) by done. cbn [negb].
    unfold mret, M_ret. by rewrite (proj2 (Z.eqb_neq r 0)).
  - destruct (enter c); [|done]. cbn [negb]. rewrite (bind_Done _ _ s 0 s) by done. cbn [Z.eqb negb]. apply run_until_bind.
    rewrite !Forall_forall in *. intros x Hx. apply IH; [done|]. by apply (complete_elem l).
Qed.

Lemma visit_all_pruning ts s : forallb complete ts = true ->
  run_until (visit pruning) ts s = run_until act_on (ts ≫= selected) s.
Proof.
  intros C. apply run_until_bind, Forall_forall. intros tr Htr s1. apply visit_pruning. by apply (complete_elem ts).
Qed.
End prune.

Lemma visit_all_preorder {S} (cb : call -> alloc_tree_path -> M S Z) ts s :
  forallb complete ts = true -> (forall c p s s', cb c p s <> Done (-1, s')) ->
  run_until (visit cb) ts s = run_until (uncurry cb) (ts ≫= preorder) s.
Proof.
  intros C Hcb. apply run_until_bind, Forall_forall. intros tr Htr s1. apply visit_preorder; [|done].
  by apply (complete_elem ts).
Qed.

Section facts.
Context {V : Vas} {S : Type} {W : WalkEnv S} {B : Build}.

(** A callback that leaves the bigalloc table alone. *)
Definition keeps {A R} (cb : A -> M S R) : Prop :=
  forall c s r s', cb c s = Done (r, s') -> table_of s' = table_of s.

(** The contract of [walk_allocations]: an allocator calls back for each of its
    allocations in the range, in order, up to the first callback that does not
    return 0. *)
Class WalkLaws := {
  allocations : Z -> state -> alloc_tree_pos -> Z -> Z -> list call;
  walk_allocations_ok a w pos cb lo hi s :
    walk_allocations a = Some w -> keeps cb ->
    w pos cb lo hi s = run_until cb (allocations a (table_of s) pos lo hi) s;
  allocations_container a tb pos lo hi c :
    c ∈ allocations a tb pos lo hi -> container (c_link c) = pos;
  allocations_used a tb pos lo hi c :
    c ∈ allocations a tb pos lo hi -> maybe_the_allocation c = 0 \/ used tb (maybe_the_allocation c);
}.
Context {L : WalkLaws}.

(** The calls of a walk under one position. *)
Definition subobject_calls (pos : alloc_tree_pos) (i : Z) (l : list (Z * Z)) : list call :=
  imap (fun k x => Call 0 (wrap64 (base pos + snd x)) (fst x) 0 (Link pos (wrap32 (i + Z.of_nat k + 1)))) l.

Definition under (tb : state) (pos : alloc_tree_pos) : outcome (list call) :=
  match bou_ptr (bigalloc_or_uniqtype pos) with
  | Big b =>
    if negb ((1 <=? b) && (b <? NBIGALLOCS)) then Abort else
    if negb NDEBUG && negb (b_begin (ba tb b) =? base pos) then Abort else
    let a := suballocator (ba tb b) in
    if a =? 0 then Abort else
    match walk_allocations a with
    | None => Abort
    | Some _ => Done (allocations a tb (Pos (b_begin (ba tb b)) (Bou (Big b) 0)) (base pos) (b_end (ba tb b)))
    end
  | Typ u => Done (if UNIQTYPE_HAS_SUBOBJECTS u then subobject_calls pos 0 (subobjects u) else [])
  end.

(** The children of a bigalloc, along the links. *)
Fixpoint chain_list (n : nat) (tb : state) (child : Z) : list Z :=
  match n with
  | O => []
  | Datatypes.S n => if child =? 0 then [] else child :: chain_list n tb (next_sib (ba tb child))
  end.

Definition resolve (tb : state) (c : call) : call :=
  let p := bigalloc_or_uniqtype (container (c_link c)) in
  if negb (c_type c =? 0) && BOU_IS_BIGALLOC p then
    match bou_ptr p with
    | Big b =>
      match List.find (fun k => b_begin (ba tb k) =? c_obj c) (chain_list NB tb (first_child (ba tb b))) with
      | Some child => set_allocation child c
      | None => c
      end
    | Typ _ => c
    end
  else c.

Definition pos_of (c : call) : alloc_tree_pos :=
  Pos (c_obj c) (Bou (if maybe_the_allocation c =? 0 then Typ (c_type c) else Big (maybe_the_allocation c)) 0).

Fixpoint tree (n : nat) (tb : state) (path : alloc_tree_path) (c : call) : alloc_tree :=
  let c := resolve tb c in
  let here := Path (c_link c) (wrap32 (1 + encl_depth path)) (Some path) in
  AllocTree c here
    (if (maybe_the_allocation c =? 0) && (c_type c =? 0) then Done [] else
     match n with
     | O => NoFuel
     | Datatypes.S n =>
       match under tb (pos_of c) with
       | Done l => Done (tree n tb here <$> l)
       | Abort => Abort
       | NoFuel => NoFuel
       end
     end).

Definition forest (n : nat) (tb : state) (pos : alloc_tree_pos) : outcome (list alloc_tree) :=
  match under tb pos with
  | Done l => Done (tree n tb empty_path <$> l)
  | Abort => Abort
  | NoFuel => NoFuel
  end.

(** ** Walking under one position *)

Lemma run_until_keeps (cb : call -> M S Z) l : keeps cb -> keeps (fun _ : unit => run_until cb l).
Proof.
  intros K [] s r s'. revert s. induction l as [|c l IH]; intros s; [by intros [= _ <-]|].
  cbn [run_until]. unfold mbind, M_bind. destruct (cb c s) as [[r1 s1]| |] eqn:E1; [|done..].
  destruct (negb (r1 =? 0)); [intros [= _ <-]; by eapply K|]. intros E2. rewrite (IH s1 E2). by eapply K.
Qed.

Lemma walk_subobjects_run pos (cb : call -> M S Z) l i s :
  walk_subobjects pos cb i l s = run_until cb (subobject_calls pos i l) s.
Proof.
  revert i s. induction l as [|[ty off] l IH]; intros i s; [done|]. cbn [walk_subobjects].
  unfold subobject_calls. cbn [imap run_until fst snd]. rewrite Z.add_0_r. apply bind_ext. intros r s' _.
  destruct (negb (r =? 0)); [done|]. rewrite (IH (i + 1)). unfold subobject_calls. f_equal.
  apply imap_ext. intros k x _. simpl. do 4 f_equal. lia.
Qed.

Definition follow {A R} (m : A -> M S R) (o : outcome A) : M S R :=
  match o with Done a => m a | Abort => abort | NoFuel => nofuel end.

Lemma walk_under pos (cb : call -> M S Z) s :
  bou_flags (bigalloc_or_uniqtype pos) = 0 -> keeps cb ->
  __liballocs_walk_allocations pos cb 0 0 s = follow (run_until cb) (under (table_of s) pos) s.
Proof.
  intros Hf K. unfold __liballocs_walk_allocations, under, BOU_IS_BIGALLOC. rewrite Hf.
  destruct (bou_ptr (bigalloc_or_uniqtype pos)) as [b|u].
  - destruct ((1 <=? b) && (b <? NBIGALLOCS)); [|done]. cbn [negb]. rewrite (bind_Done _ _ s (b_begin (ba (table_of s) b)) s) by done.
    change (Z.land 0 ALLOC_WALK_BIGALLOC_IMPOSED_CHILDREN) with 0. cbn [Z.eqb negb].
    unfold assert. destruct NDEBUG; cbn [negb andb].
    2: destruct (Z.eqb_spec (b_begin (ba (table_of s) b)) (base pos)) as [E|]; cbn [negb andb]; [|done].
    all: rewrite (bind_Done _ _ s tt s), (bind_Done _ _ s (0, base pos) s) by done; cbn [negb Z.eqb].
    all: rewrite (bind_Done _ _ s (b_end (ba (table_of s) b)) s) by done.
    all: unfold suballocator_walk; rewrite (bind_Done _ _ s (suballocator (ba (table_of s) b)) s) by done.
    all: destruct (_ =? 0); [done|]; destruct (walk_allocations _) as [w|] eqn:Ew; [|done].
    all: by rewrite (walk_allocations_ok _ _ _ _ _ _ _ Ew K).
  - destruct (UNIQTYPE_HAS_SUBOBJECTS u); [|done]. apply walk_subobjects_run.
Qed.

Lemma follow_keeps {A R} (m : A -> M S R) o : (forall a, keeps (fun _ : unit => m a)) -> keeps (fun _ : unit => follow m o).
Proof. intros K. destruct o as [a| |]; [apply K|by intros [] s r s'..]. Qed.

(** ** Finding the bigalloc of an allocation *)

Lemma chain_list_ok n tb pp child q l :
  0 ∉ l -> dseg tb pp child q 0 l -> (length l < n)%nat -> chain_list n tb child = l.
Proof.
  revert pp child l. induction n as [|n IH]; intros pp child l Hz D Hn; [lia|].
  destruct l as [|x l]; [destruct D as [-> _]; done|]. destruct D as (-> & _ & D). apply not_elem_of_cons in Hz as [Nz Hz].
  cbn [chain_list]. rewrite (proj2 (Z.eqb_neq x 0)) by done. f_equal. eapply IH; [done..|simpl in Hn; lia].
Qed.

Lemma child_at_chain n s pp child q l o :
  0 ∉ l -> dseg (table_of s) pp child q 0 l -> (length l < n)%nat ->
  child_at n child o s = Done (default 0 (List.find (fun k => b_begin (ba (table_of s) k) =? o) l), s).
Proof.
  revert pp child l. induction n as [|n IH]; intros pp child l Hz D Hn; [lia|].
  destruct l as [|x l]; [destruct D as [-> _]; done|]. destruct D as (-> & _ & D). apply not_elem_of_cons in Hz as [Nz Hz].
  cbn [child_at List.find]. rewrite (proj2 (Z.eqb_neq x 0)) by done.
  rewrite (bind_Done _ _ s (b_begin (ba (table_of s) x)) s) by done. destruct (_ =? o); [done|].
  eapply (IH x); [done..|simpl in Hn; lia].
Qed.

(** The containers of a walk are types or records in use. *)
Definition placed (tb : state) (pos : alloc_tree_pos) : Prop :=
  bou_flags (bigalloc_or_uniqtype pos) = 0 /\
  match bou_ptr (bigalloc_or_uniqtype pos) with Big b => used tb b | Typ _ => True end.

Context {VL : VasLaws V}.

Lemma kids_chain tb b : wf tb -> used tb b ->
  exists l, kids tb b l /\ (0 ∉ l) /\ (length l < NB)%nat /\ chain_list NB tb (first_child (ba tb b)) = l.
Proof.
  intros Wf U. destruct (wf_kids _ Wf b U) as (l & K). pose proof (kids_nonzero _ _ _ Wf K) as Nz.
  exists l. split; [done|]. destruct K as (ND & [q D] & Hl).
  assert (Hlen : (length l < NB)%nat) by (apply (used_nodup_length _ Wf); [done|]; apply Forall_forall; intros x Hx; by apply Hl).
  split_and!; [done..|]. by eapply chain_list_ok.
Qed.

Lemma find_allocation_ok c s :
  wf (table_of s) -> placed (table_of s) (container (c_link c)) ->
  find_allocation c s = Done (resolve (table_of s) c, s).
Proof.
  intros Wf [_ P]. unfold find_allocation, resolve, BOU_IS_BIGALLOC.
  destruct (bou_ptr _) as [b|u]; [|by rewrite andb_false_r].
  destruct (negb (c_type c =? 0) && _); [|done].
  rewrite (bind_Done _ _ s (first_child (ba (table_of s) b)) s) by done.
  destruct (kids_chain _ b Wf P) as (l & (ND & [q D] & _) & Nz & Hlen & ->).
  pose proof (child_at_chain FUEL s 0 _ q l (c_obj c) Nz D ltac:(rewrite FUEL_eq; lia)) as E.
  rewrite (bind_Done _ _ _ _ _ E). destruct (List.find _ l) as [k|] eqn:F; [|done]. simpl.
  apply find_some in F as [Hk _]. apply list_elem_of_In in Hk. rewrite (proj2 (Z.eqb_neq k 0)); [done|]. by intros ->.
Qed.

Lemma resolve_ok tb c : wf tb -> placed tb (container (c_link c)) ->
  maybe_the_allocation c = 0 \/ used tb (maybe_the_allocation c) ->
  c_link (resolve tb c) = c_link c /\
  (maybe_the_allocation (resolve tb c) = 0 \/ used tb (maybe_the_allocation (resolve tb c))).
Proof.
  intros Wf [_ P] Hc. unfold resolve. destruct (_ && _); [|done]. destruct (bou_ptr _) as [b|u]; [|done].
  destruct (List.find _ _) as [k|] eqn:F; [|done]. split; [done|]. right. simpl.
  destruct (kids_chain _ b Wf P) as (l & (_ & _ & Hl) & _ & _ & E). rewrite E in F.
  apply find_some in F as [Hk _]. apply list_elem_of_In in Hk. by apply Hl.
Qed.

(** ** The depth-first walk *)

Lemma find_allocation_keeps : keeps (fun c : call => find_allocation c).
Proof.
  intros c s r s'. unfold find_allocation. destruct (_ && _); [|by intros [= _ <-]]. destruct (bou_ptr _); [|done].
  rewrite (bind_Done _ _ s (first_child (ba (table_of s) b)) s) by done.
  assert (E : forall n child s1 r1, child_at n child (c_obj c) s = Done (r1, s1) -> s1 = s).
  { clear. induction n as [|n IH]; intros child s1 r1; [done|]. cbn [child_at]. destruct (child =? 0); [by intros [= _ <-]|].
    rewrite (bind_Done _ _ s (b_begin (ba (table_of s) child)) s) by done. destruct (_ =? c_obj c); [by intros [= _ <-]|]. apply IH. }
  unfold mbind, M_bind. destruct (child_at _ _ _ s) as [[r1 s1]| |] eqn:E1; [|done..].
  apply E in E1 as ->. by intros [= _ <-].
Qed.

Lemma df_keeps n (cb : call -> alloc_tree_path -> M S Z) path : keeps (uncurry cb) -> keeps (walk_one_df_cb n cb path).
Proof.
  intros K. revert path. induction n as [|n IH]; intros path c s r s'; cbn [walk_one_df_cb]; unfold mbind, M_bind;
    destruct (find_allocation c s) as [[c' s1]| |] eqn:E1; try done; apply find_allocation_keeps in E1;
    destruct (cb c' _ s1) as [[r2 s2]| |] eqn:E2; try done; apply (K (_, _)) in E2; rewrite E1 in E2;
    destruct (r2 =? -1); try (intros [= _ <-]; done); destruct (negb (r2 =? 0)); try (intros [= _ <-]; done);
    destruct (_ && _); try (intros [= _ <-]; done); try done.
  rewrite walk_under by (done || apply IH). intros E3. rewrite <- E2.
  by eapply (follow_keeps _ _ (fun l => run_until_keeps _ l (IH _)) tt).
Qed.

Lemma under_placed tb pos l c : placed tb pos -> under tb pos = Done l -> c ∈ l ->
  placed tb (container (c_link c)) /\ (maybe_the_allocation c = 0 \/ used tb (maybe_the_allocation c)).
Proof.
  intros [Hf P]. unfold under. destruct (bou_ptr (bigalloc_or_uniqtype pos)) as [b|u] eqn:Eb.
  - repeat case_match; try done. intros [= <-] Hc. rewrite (allocations_container _ _ _ _ _ _ Hc).
    split; [done|by eapply allocations_used].
  - intros [= <-] Hc. destruct (UNIQTYPE_HAS_SUBOBJECTS u); [|by apply not_elem_of_nil in Hc].
    apply elem_of_lookup_imap in Hc as (k & x & -> & _). split; [|by left]. simpl. split; [done|]. by rewrite Eb.
Qed.

Lemma df_visits n (cb : call -> alloc_tree_path -> M S Z) path c s :
  wf (table_of s) -> keeps (uncurry cb) -> placed (table_of s) (container (c_link c)) ->
  maybe_the_allocation c = 0 \/ used (table_of s) (maybe_the_allocation c) ->
  walk_one_df_cb n cb path c s = visit cb (tree n (table_of s) path c) s.
Proof.
  intros Wf K. revert path c s Wf. induction n as [|n IH]; intros path c s Wf P Hc; cbn [walk_one_df_cb tree visit].
  all: rewrite (bind_Done _ _ _ _ _ (find_allocation_ok c s Wf P)); apply bind_ext; intros r s1 E1;
    apply (K (_, _)) in E1; destruct (r =? -1); [done|]; destruct (negb (r =? 0)); [done|].
  all: destruct (_ && _) eqn:El; [done|].
  { done. }
  destruct (resolve_ok _ c Wf P Hc) as [Elink Hr]. set (c' := resolve (table_of s) c) in *.
  rewrite walk_under by (done || by apply df_keeps). change (Pos (c_obj c') _) with (pos_of c'). rewrite E1.
  destruct (under (table_of s) (pos_of c')) as [l| |] eqn:Eu; [|done..]. cbn [follow].
  assert (Pp : placed (table_of s) (pos_of c')).
  { split; [done|]. unfold pos_of. cbn [bigalloc_or_uniqtype bou_ptr]. destruct (Z.eqb_spec (maybe_the_allocation c') 0); [done|].
    by destruct Hr. }
  assert (Hu : forall x, x ∈ l -> placed (table_of s) (container (c_link x)) /\
    (maybe_the_allocation x = 0 \/ used (table_of s) (maybe_the_allocation x))) by (intros; by eapply under_placed).
  rewrite run_until_fmap. apply (run_until_ext (fun s2 => table_of s2 = table_of s)); [done| |].
  - intros x s2 Hx E2. destruct (Hu x Hx). rewrite <- E2. apply IH; by rewrite ?E2.
  - intros x s2 r2 s2' Hx E2 E3. destruct (Hu x Hx). rewrite <- E2, <- IH in E3 by (by rewrite ?E2).
    rewrite <- E2. by eapply df_keeps.
Qed.

Lemma df_forest n (cb : call -> alloc_tree_path -> M S Z) pos s :
  wf (table_of s) -> keeps (uncurry cb) -> placed (table_of s) pos ->
  __liballocs_walk_allocations_df n pos cb s = follow (run_until (visit cb)) (forest n (table_of s) pos) s.
Proof.
  intros Wf K P. unfold __liballocs_walk_allocations_df, forest. rewrite walk_under by (apply P || by apply df_keeps).
  destruct (under (table_of s) pos) as [l| |] eqn:Eu; [|done..]. cbn [follow].
  rewrite run_until_fmap. apply (run_until_ext (fun s2 => table_of s2 = table_of s)); [done| |].
  - intros x s2 Hx E2. destruct (under_placed _ _ _ _ P Eu Hx). rewrite <- E2. apply df_visits; by rewrite ?E2.
  - intros x s2 r2 s2' Hx E2 E3. destruct (under_placed _ _ _ _ P Eu Hx). rewrite <- E2, <- df_visits in E3 by (by rewrite ?E2).
    rewrite <- E2. by eapply df_keeps.
Qed.

(** ** Imposed children *)

(** The calls of a walk that reports imposed children: the suballocations up to
    a child, the child, and so on. *)
Fixpoint imposed_calls (a : Z) (tb : state) (b : Z) (pos : alloc_tree_pos) (coord walked_up_to : Z) (l : list Z) : list call :=
  match l with
  | [] => allocations a tb pos walked_up_to (b_end (ba tb b))
  | c :: l =>
    allocations a tb pos walked_up_to (b_begin (ba tb c)) ++
    Call b (b_begin (ba tb b)) 0 0 (Link pos coord) ::
    imposed_calls a tb b pos (wrap32 (coord + 1)) (b_end (ba tb c)) l
  end.

Lemma walk_imposed_ok w n b pos (cb : call -> M S Z) pp child q l coord walked tb s :
  keeps cb -> table_of s = tb -> walk_allocations (suballocator (ba tb b)) = Some w -> suballocator (ba tb b) <> 0 ->
  dseg tb pp child q 0 l -> 0 ∉ l -> (length l < n)%nat ->
  (forall c, c ∈ l -> allocated_by (ba tb c) <> suballocator (ba tb b) /\ walked < b_end (ba tb c) /\
     b_begin (ba tb c) < b_end (ba tb c)) ->
  StronglySorted (precedes tb) l ->
  (x ← walk_imposed n b pos cb child coord walked 0;
   let '(ret, walked_up_to) := x in
   if negb (ret =? 0) then mret ret else
   end_ ← rdw b_end b;
   suballocator_walk b pos cb walked_up_to end_) s =
  run_until cb (imposed_calls (suballocator (ba tb b)) tb b pos coord walked l) s.
Proof.
  intros K Et Ew Na. set (a := suballocator (ba tb b)) in *.
  assert (Hw : forall lo hi s, table_of s = tb -> suballocator_walk b pos cb lo hi s = run_until cb (allocations a tb pos lo hi) s).
  { intros lo hi s1 E1. unfold suballocator_walk, rdw. rewrite (bind_Done _ _ s1 a s1) by (unfold gets; by rewrite E1).
    rewrite (proj2 (Z.eqb_neq a 0)) by done. rewrite Ew, (walk_allocations_ok _ _ _ _ _ _ _ Ew K). by rewrite E1. }
  revert pp child l coord walked s Et. induction n as [|n IH]; intros pp child l coord walked s Et D Nz Hn Hl Ss; [lia|].
  cbn [walk_imposed]. destruct l as [|x l].
  { destruct D as [-> _]. cbn [Z.eqb]. rewrite (bind_Done _ _ s (0, walked) s) by done. cbn [Z.eqb negb].
    rewrite (bind_Done _ _ s (b_end (ba tb b)) s) by (unfold rdw, gets; by rewrite Et). by apply Hw. }
  destruct D as (-> & _ & D). apply not_elem_of_cons in Nz as [Nx Nz]. apply StronglySorted_inv in Ss as [Ss Sx].
  destruct (Hl x ltac:(by left)) as (Hal & Hlt & Hbe). rewrite (proj2 (Z.eqb_neq x 0)) by done.
  rewrite bind_bind, (bind_Done _ _ s (ba tb x) s) by (unfold rdw, gets; by rewrite Et).
  rewrite (proj2 (Z.leb_gt _ _)) by done. cbn [Z.eqb negb andb].
  rewrite bind_bind, (bind_Done _ _ s a s) by (unfold rdw, gets; by rewrite Et).
  rewrite (proj2 (Z.eqb_neq a 0)), (proj2 (Z.eqb_neq _ a)) by done. cbn [orb negb].
  rewrite bind_bind, (bind_Done _ _ s (b_begin (ba tb x)) s) by (unfold rdw, gets; by rewrite Et).
  cbn [imposed_calls]. rewrite run_until_app, bind_bind, (bind_cong _ _ _ s (Hw _ _ s Et)). apply bind_ext. intros r s1 E1.
  apply (run_until_keeps cb _ K tt) in E1. rewrite Et in E1.
  destruct (r =? 0) eqn:Er; cbn [negb].
  2: { rewrite (bind_Done _ _ s1 (r, walked) s1) by done. by rewrite Er. }
  rewrite bind_bind, (bind_Done _ _ s1 (b_begin (ba tb b)) s1) by (unfold rdw, gets; by rewrite E1).
  cbn [run_until]. rewrite bind_bind. apply bind_ext. intros r2 s2 E2. apply K in E2. rewrite E1 in E2.
  destruct (r2 =? 0) eqn:Er2; cbn [negb].
  2: { rewrite (bind_Done _ _ s2 (r2, walked) s2) by done. by rewrite Er2. }
  rewrite bind_bind, (bind_Done _ _ s2 (b_end (ba tb x)) s2) by (unfold rdw, gets; by rewrite E2).
  rewrite bind_bind, (bind_Done _ _ s2 (next_sib (ba tb x)) s2) by (unfold rdw, gets; by rewrite E2).
  apply (IH x); [done..|simpl in Hn; lia| |done].
  intros c Hc. destruct (Hl c ltac:(by right)) as (? & ? & ?). split_and!; [done| |done].
  rewrite Forall_forall in Sx. specialize (Sx c Hc). unfold precedes in Sx. lia.
Qed.
End facts.
