(* ===== verification/WalkTheorems.v ===== *)
(** The contract of the walks over the tree of allocations, with instances on
    a concrete table. *)
From S2P Require Import Prelude DList Vas BigAlloc PageIndex PageIndexQuery BigAllocFacts Forest Traversal Reachable Demo.
From S2P Require Import Walk WalkFacts.

Section theorems.
Context {V : Vas} {VL : VasLaws V} {S : Type} {W : WalkEnv S} {L : WalkLaws} {B : Build}.

(** C24.  The depth-first walk under a position whose tree of allocations can
    be walked: the callback is made on every allocation of the tree, from the
    outside in and in order, with the path that leads to it; -1 skips what is
    below an allocation, another value ends the walk and is returned.  If the
    callback never returns -1 the calls are those on the tree in preorder. *)
Theorem walk_df_preorder (cb : call -> alloc_tree_path -> M S Z) n pos s ts :
  wf (table_of s) -> keeps (uncurry cb) -> placed (table_of s) pos ->
  forest n (table_of s) pos = Done ts -> forallb complete ts = true ->
  __liballocs_walk_allocations_df n pos cb s = run_until (visit cb) ts s /\
  ((forall c p s s', cb c p s <> Done (-1, s')) ->
   __liballocs_walk_allocations_df n pos cb s = run_until (uncurry cb) (ts ≫= preorder) s).
Proof.
  intros Wf K P Ef C. rewrite df_forest, Ef by done. split; [done|]. intros Hcb. by apply visit_all_preorder.
Qed.

(** A depth-first walk with the reference callback: the client is called
    on the outermost allocations that can be interpreted as references, in
    order, with [seen_how] set to the interpretation during the call and reset
    after it; what is inside a reference, or cannot contain one, is not looked
    at.  A result of 0 or -1 continues the walk, another ends it. *)
Lemma walk_finds_references {I : Interpreter} (set_seen_how : Z -> S -> S) ref_cb n pos s ts :
  wf (table_of s) -> keeps (uncurry ref_cb) -> (forall h s, table_of (set_seen_how h s) = table_of s) ->
  placed (table_of s) pos -> forest n (table_of s) pos = Done ts -> forallb complete ts = true ->
  let how c := can_interp (c_obj c) (c_type c) (c_link c) in
  let enter c := may_contain (c_obj c) (c_type c) (c_link c) in
  __liballocs_walk_allocations_df n pos (__liballocs_walk_refs_cb set_seen_how ref_cb) s =
  run_until (fun '(c, p) => modify (set_seen_how (how c)) ;; ret ← ref_cb c p; modify (set_seen_how 0) ;;
                            mret (if ret =? -1 then 0 else ret))
    (ts ≫= selected (fun c => negb (how c =? 0)) enter) s.
Proof.
  intros Wf K Kset P Ef C how enter.
  set (act c p := modify (set_seen_how (how c)) ;; ret ← ref_cb c p; modify (set_seen_how 0) ;; mret ret).
  assert (E : forall c p s, __liballocs_walk_refs_cb set_seen_how ref_cb c p s =
    pruning (fun c => negb (how c =? 0)) enter act c p s).
  { intros c p s1. unfold __liballocs_walk_refs_cb, pruning, act. fold (how c) (enter c). destruct (negb (how c =? 0)); [|done].
    rewrite !bind_bind. apply bind_ext. intros [] s2 _. rewrite !bind_bind. apply bind_ext. intros r s3 _.
    rewrite !bind_bind. apply bind_ext. by intros [] s4 _. }
  assert (Kr : keeps (uncurry (__liballocs_walk_refs_cb set_seen_how ref_cb))).
  { intros [c p] s1 r s2. cbn [uncurry]. rewrite E. unfold pruning, act. destruct (negb (how c =? 0)).
    - unfold mbind, M_bind. cbn. destruct (ref_cb c p _) as [[r1 s3]| |] eqn:E1; [|done..].
      apply (K (_, _)) in E1. rewrite Kset in E1. unfold mret at 1, M_ret. cbv beta iota. destruct (negb (r1 =? 0)); (intros Er; injection Er as _ <-; by rewrite Kset).
    - destruct (negb (enter c)); by intros [= _ <-]. }
  rewrite df_forest, Ef by done. cbn [follow].
  transitivity (run_until (visit (pruning (fun c => negb (how c =? 0)) enter act)) ts s).
  - apply (run_until_ext (fun _ => True)); [done| |done]. intros. by apply visit_ext.
  - rewrite visit_all_pruning by done. apply (run_until_ext (fun _ => True)); [done| |done].
    intros [c p] s1 _ _. unfold act_on, act. cbn [fst snd]. rewrite !bind_bind. apply bind_ext. intros [] s2 _.
    rewrite !bind_bind. apply bind_ext. intros r s3 _. rewrite !bind_bind. apply bind_ext. by intros [] s4 _.
Qed.

(** Asked for imposed children, the walk under a bigalloc whose children
    are all imposed and listed in address order makes the calls for the
    suballocations before the first child, one call for the child, the calls
    for the suballocations up to the next one, and so on to the end.  The call
    for a child passes the bigalloc it lies in and its index among the
    children. *)
Lemma walk_reports_imposed (cb : call -> M S Z) b flags w l s :
  let tb := table_of s in let a := suballocator (ba tb b) in
  let pos := Pos (b_begin (ba tb b)) (Bou (Big b) 0) in
  wf tb -> used tb b -> keeps cb -> Z.land flags ALLOC_WALK_BIGALLOC_IMPOSED_CHILDREN <> 0 ->
  a <> 0 -> walk_allocations a = Some w -> kids tb b l -> StronglySorted (precedes tb) l ->
  (forall c, c ∈ l -> allocated_by (ba tb c) <> a) ->
  __liballocs_walk_allocations (Pos (b_begin (ba tb b)) (Bou (Big b) flags)) cb 0 0 s =
  run_until cb (imposed_calls a tb b pos 1 (b_begin (ba tb b)) l) s.
Proof.
  intros tb a pos Wf U K Hf Na Ew Kd Ss Him. pose proof (wf_range _ Wf b U) as Hr. pose proof (kids_nonzero _ _ _ Wf Kd) as Nz.
  destruct Kd as (ND & [q D] & Hl).
  assert (Hlen : (length l < NB)%nat) by (apply (used_nodup_length _ Wf); [done|]; apply Forall_forall; intros x Hx; by apply Hl).
  unfold __liballocs_walk_allocations, BOU_IS_BIGALLOC. cbn [bigalloc_or_uniqtype bou_ptr bou_flags base].
  rewrite (proj2 (Z.leb_le 1 b)), (proj2 (Z.ltb_lt b NBIGALLOCS)) by lia. cbn [andb].
  rewrite (bind_Done _ _ s (b_begin (ba tb b)) s) by done. rewrite (bind_Done _ _ s tt s) by (apply assert_true, Z.eqb_refl).
  rewrite (proj2 (Z.eqb_neq (Z.land flags ALLOC_WALK_BIGALLOC_IMPOSED_CHILDREN) 0)) by done. cbn [negb Z.eqb]. rewrite bind_bind, (bind_Done _ _ s (first_child (ba tb b)) s) by done.
  apply (walk_imposed_ok w FUEL b pos cb 0 _ q l 1 _ tb s); [done..|rewrite FUEL_eq; lia| |done].
  intros c Hc. destruct (proj1 (Hl c) Hc) as [Uc Pc]. pose proof (wf_bounds _ Wf c Uc). pose proof (wf_parent _ Wf c Uc) as Hp.
  rewrite Pc in Hp. destruct Hp as (_ & Hp & _); [intros ->; by apply (not_used_0 _ Wf)|]. split_and!; [by apply Him|lia|lia].
Qed.
End theorems.

(** ** Instances *)

(** Allocator 90 has a typed chunk in record 1 that is record 3, and one of the
    composite type 8; allocator 91 has an untyped chunk in record 3. *)
Definition demo_walk_table : state := upd 3 (set_suballocator 91) (upd 1 (set_suballocator 90) demo).
Definition demo_chunks (a : Z) : list (Z * Z) :=
  if a =? 90 then [(0x11000, 7); (0x19000, 8)] else if a =? 91 then [(0x12800, 0)] else [].
Definition demo_allocations (a : Z) (pos : alloc_tree_pos) (lo hi : Z) : list call :=
  (fun x => Call 0 (fst x) (snd x) 0x5555 (Link pos 0)) <$> filter (fun x => lo <= fst x < hi) (demo_chunks a).

(** The client's state: the table, a log of objects, and the field [seen_how]. *)
Record client := Client { cl_table : state; cl_log : list (Z * Z); seen_how : Z }.
Definition note (x : Z * Z) (s : client) : client := Client (cl_table s) (cl_log s ++ [x]) (seen_how s).
Definition set_how (h : Z) (s : client) : client := Client (cl_table s) (cl_log s) h.

#[local] Instance demo_walk : WalkEnv client := {|
  table_of := cl_table;
  walk_allocations a :=
    if (a =? 90) || (a =? 91) then Some (fun pos cb lo hi => run_until cb (demo_allocations a pos lo hi)) else None;
  UNIQTYPE_HAS_SUBOBJECTS u := u =? 8;
  subobjects u := if u =? 8 then [(9, 0); (10, 8)] else [];
|}.
#[local] Instance demo_walk_laws : WalkLaws.
Proof.
  refine {| allocations a tb pos lo hi := demo_allocations a pos lo hi |}.
  - intros a w pos cb lo hi s. cbn. destruct (_ || _); [|done]. by intros [= <-].
  - intros a tb pos lo hi c. unfold demo_allocations. rewrite list_elem_of_fmap. by intros (x & -> & _).
  - intros a tb pos lo hi c. unfold demo_allocations. rewrite list_elem_of_fmap. intros (x & -> & _). by left.
Defined.

Definition demo_client : client := Client demo_walk_table [] 0.
Definition demo_root : alloc_tree_pos := Pos 0x10000 (Bou (Big 1) 0).
Definition demo_trees : list alloc_tree :=
  match forest (B := debug) 3 demo_walk_table demo_root with Done ts => ts | _ => [] end.
(** Logs the address and the path's depth. *)
Definition log_call (c : call) (p : alloc_tree_path) : M client Z := modify (note (c_obj c, encl_depth p)) ;; mret 0.

Lemma demo_walk_wf : wf demo_walk_table.
Proof.
  assert (Sh : forall i, shape (ba demo_walk_table i) = shape (ba demo i)).
  { intros i. unfold demo_walk_table. rewrite !ba_upd. repeat case_decide; by subst. }
  eapply wf_shape; [apply Sh|done|apply demo_ok].
Qed.

Lemma log_keeps : keeps (uncurry log_call).
Proof. intros [c p] s r s'. by intros [= _ <-]. Qed.

Lemma walk_df_preorder_witness :
  __liballocs_walk_allocations_df (B := debug) 3 demo_root log_call demo_client = run_until (visit log_call) demo_trees demo_client /\
  (fun x => (c_obj (fst x), maybe_the_allocation (fst x))) <$> (demo_trees ≫= preorder) =
    [(0x11000, 3); (0x12800, 0); (0x19000, 0); (0x19000, 0); (0x19008, 0)].
Proof.
  split; [|by vm_compute].
  refine (proj1 (walk_df_preorder (B := debug) log_call 3 demo_root demo_client demo_trees _ _ _ _ _)).
  - apply demo_walk_wf.
  - apply log_keeps.
  - by_eval.
  - by vm_compute.
  - by vm_compute.
Defined.

(** Type 10 is a reference; untyped memory cannot contain one. *)
#[local] Instance demo_interp : Interpreter := {|
  can_interp _ u _ := if u =? 10 then 1 else 0;
  may_contain _ u _ := negb (u =? 0);
  is_environ _ _ _ := 0;
|}.
(** Logs the address and [seen_how]. *)
Definition log_ref (c : call) (p : alloc_tree_path) : M client Z := fun s => Done (0, note (c_obj c, seen_how s) s).

Lemma walk_finds_references_demo :
  __liballocs_walk_allocations_df (B := debug) 3 demo_root (__liballocs_walk_refs_cb set_how log_ref) demo_client =
    Done (0, Client demo_walk_table [(0x19008, 1)] 0).
Proof.
  etransitivity.
  - apply (walk_finds_references (B := debug) set_how log_ref 3 demo_root demo_client demo_trees).
    + apply demo_walk_wf.
    + intros [c p] s r s'. by intros [= _ <-].
    + done.
    + by_eval.
    + by vm_compute.
    + by vm_compute.
  - by vm_compute.
Defined.

Definition log_plain (c : call) : M client Z := modify (note (c_obj c, maybe_the_allocation c)) ;; mret 0.

Lemma walk_reports_imposed_demo :
  __liballocs_walk_allocations (B := debug) (Pos 0x10000 (Bou (Big 1) 1)) log_plain 0 0 demo_client =
    Done (0, Client demo_walk_table [(0x10000, 1); (0x19000, 0)] 0).
Proof.
  pose proof (walk_reports_imposed (B := debug) log_plain 1 1
    (fun pos cb lo hi => run_until cb (demo_allocations 90 pos lo hi)) [3] demo_client) as Hw.
  cbv zeta in Hw. change (table_of demo_client) with demo_walk_table in Hw.
  replace (b_begin (ba demo_walk_table 1)) with 0x10000 in Hw by by_eval.
  replace (suballocator (ba demo_walk_table 1)) with 90 in Hw by by_eval.
  etransitivity.
  - apply Hw; clear Hw.
    + apply demo_walk_wf.
    + by_eval.
    + intros c s r s'. by intros [= _ <-].
    + by_eval.
    + by_eval.
    + reflexivity.
    + split_and!; [apply NoDup_singleton|exists 3; by_eval|]. intros c. rewrite list_elem_of_singleton. split; [intros ->; by_eval|].
      intros [U P]. pose proof (live_all demo_walk_table (fun c => implb (parent (ba demo_walk_table c) =? 1) (c =? 3)) ltac:(by vm_compute) c U) as A.
      cbv beta in A. rewrite P in A. cbn [Z.eqb Pos.eqb implb] in A. lia.
    + repeat constructor.
    + intros c ->%list_elem_of_singleton. by_eval.
  - by vm_compute.
Defined.

(** Children are linked in the order of creation, the last first.  With two
    imposed children made in address order, the walk skips the lower one, and
    walks the memory between the two a second time. *)
Definition two_children : state :=
  upd 1 (set_suballocator 90)
    (result (__liballocs_new_bigalloc (B := release) 0x15000 0x1000 0 0 1 78
      (result (__liballocs_new_bigalloc (B := release) 0x10800 0x800 0 0 1 78 demo1)))).
Lemma imposed_child_skipped :
  __liballocs_walk_allocations (B := debug) (Pos 0x10000 (Bou (Big 1) 1)) log_plain 0 0 (Client two_children [] 0) =
    Done (0, Client two_children [(0x11000, 0); (0x10000, 1); (0x11000, 0); (0x19000, 0)] 0).
Proof. by vm_compute. Qed.
