(* ===== verification/RtTypes.v ===== *)
(** Types made at run time: src/src/uniqtype-util.c and src/src/rt-uniqtypes.c.

    A [struct uniqtype] lives in memory at an address; it is laid out by
    liballocstool's uniqtype-defs.h, and the record here has the fields that the
    code writes.  New types are written into the dlbind object and bound to a
    symbol, which is how they are found again.  libdlbind, [dlsym], the macros
    of uniqtype-defs.h and [UNIQTYPE_NAME] are parameters.  The variable
    [__liballocs_rt_uniqtypes_gnu_hash], set only by [update_rt_uniqtypes_obj],
    which nothing calls, stays null, so that the hash lookup is never made. *)
From stdpp Require Import strings pretty.
From S2P Require Import Prelude Subobject.

Inductive uniqtype_kind :=
| Kvoid
| Kbase (enc : Z)
| Karray (nelems : Z)
| Kaddress (indir_level genericity : Z)
| Ksubprogram (narg nret is_va cc : Z)
| Kcomposite (nmemb not_simultaneous : Z).

(** One [struct uniqtype_rel_info]: [un.t.ptr] or [un.memb.ptr], and [un.memb.off]. *)
Record uniqtype_rel_info := RelInfo { rel_ptr : Z; rel_off : Z }.

Record uniqtype := Uniqtype {
  t_pos_maxoff : Z;
  t_un : uniqtype_kind;
  t_make_precise : Z;
  t_related : list uniqtype_rel_info;
}.

(** The memory of types and the symbols bound in the dlbind object. *)
Record tstate := TState { types : gmap Z uniqtype; bound : gmap string Z }.

Class DlEnv := {
  (** [dlsym(NULL, name)], 0 when there is no such symbol *)
  dlsym : gmap string Z -> string -> Z;
  dlalloc : gmap Z uniqtype -> Z -> Z;
  (** whether [dlbind] gives a handle back *)
  dlbind_ok : gmap string Z -> string -> bool;
  UNIQTYPE_NAME : gmap string Z -> Z -> string;
  NAME_FOR_UNIQTYPE : gmap string Z -> Z -> string;
  UNIQTYPE_ARRAY_LENGTH_UNBOUNDED : Z;
  UNIQTYPE_POS_MAXOFF_UNBOUNDED : Z;
  rec_is_pointer : uniqtype -> bool;
  ULTIMATE_POINTEE_TYPE : uniqtype -> Z;
  offsetof_related : Z;
  sizeof_rel_info : Z;
  (** the address of [__liballocs_make_array_precise_with_memory_bounds] *)
  make_array_precise_with_memory_bounds_ptr : Z;
  (** [dladdr_with_cache(u + 1)], when the symbol found begins at [u] *)
  dladdr_name : gmap string Z -> Z -> option string;
  (** whether [dlcreate] gives a handle back *)
  dlcreate_ok : bool;
}.

Section rt_types.
Context {E : DlEnv} {B : Build}.

(** ** Names *)

(** What [snprintf] leaves in a buffer of [n] bytes. *)
Definition snprintf (n : nat) (text : string) : string := String.substring 0 (n - 1) text.
Definition NAME_BUF : nat := Z.to_nat 4096.
Lemma NAME_BUF_eq : Z.of_nat NAME_BUF = 4096.
Proof. done. Qed.
#[global] Opaque NAME_BUF.

Definition array_symbol (array_len : Z) (element_name : string) : string :=
  if array_len =? UNIQTYPE_ARRAY_LENGTH_UNBOUNDED then "__uniqtype____ARR_" +:+ element_name
  else "__uniqtype____ARR" +:+ pretty (int32 array_len) +:+ "_" +:+ element_name.

(** ** Reading and making types *)

(** An access through a pointer to a type. *)
Definition rd_type (u : Z) : M tstate uniqtype := fun s =>
  match types s !! u with Some t => Done (t, s) | None => Abort end.
Definition wr_type (u : Z) (t : uniqtype) : M tstate unit :=
  if u =? 0 then abort else modify (fun s => TState (<[u := t]> (types s)) (bound s)).
Definition name_of (u : Z) : M tstate string := gets (fun s => UNIQTYPE_NAME (bound s) u).

Definition get_type_from_symname (precise_uniqtype_name : string) : M tstate Z :=
  gets (fun s => dlsym (bound s) precise_uniqtype_name).

Definition do_dlalloc (sz : Z) : M tstate Z := gets (fun s => dlalloc (types s) sz).
Definition do_dlbind (name : string) (a : Z) : M tstate bool := fun s =>
  if dlbind_ok (bound s) name then Done (true, TState (types s) (<[name := a]> (bound s))) else Done (false, s).

Definition type_size (nrelated : Z) : Z := wrap64 (offsetof_related + nrelated * sizeof_rel_info).

Definition get_or_create_array (element_t array_len : Z) : M tstate Z :=
  element_name ← name_of element_t;
  let precise_uniqtype_name := snprintf NAME_BUF (array_symbol array_len element_name) in
  found ← get_type_from_symname precise_uniqtype_name;
  if negb (found =? 0) then mret found else
  allocated ← do_dlalloc (type_size 1);
  maxoff ← (if array_len =? UNIQTYPE_ARRAY_LENGTH_UNBOUNDED then mret UNIQTYPE_POS_MAXOFF_UNBOUNDED
            else e ← rd_type element_t; mret (wrap32 (array_len * t_pos_maxoff e)));
  wr_type allocated (Uniqtype maxoff (Karray array_len) 0 [RelInfo element_t 0]) ;;
  reloaded ← do_dlbind precise_uniqtype_name allocated;
  assert reloaded ;;
  mret allocated.

(** [(void* ) -1] *)
Definition MINUS_ONE : Z := 2 ^ 64 - 1.

Definition __liballocs_get_or_create_array_type (element_t array_len : Z) : M tstate Z :=
  if (element_t =? 0) || (element_t =? MINUS_ONE) then mret 0 else
  assert (array_len <? UNIQTYPE_ARRAY_LENGTH_UNBOUNDED) ;;
  e ← rd_type element_t;
  if t_pos_maxoff e =? 0 then mret 0 else
  if t_pos_maxoff e =? UNIQTYPE_POS_MAXOFF_UNBOUNDED then mret 0 else
  get_or_create_array element_t array_len.

Definition __liballocs_get_or_create_unbounded_array_type (element_t : Z) : M tstate Z :=
  if (element_t =? 0) || (element_t =? MINUS_ONE) then mret 0 else
  e ← rd_type element_t;
  if t_pos_maxoff e =? 0 then mret 0 else
  if t_pos_maxoff e =? UNIQTYPE_POS_MAXOFF_UNBOUNDED then mret 0 else
  get_or_create_array element_t UNIQTYPE_ARRAY_LENGTH_UNBOUNDED.

Definition __liballocs_get_or_create_flexible_array_type (element_t : Z) : M tstate Z :=
  assert (negb (element_t =? 0)) ;;
  e ← rd_type element_t;
  if t_pos_maxoff e =? 0 then mret 0 else
  if t_pos_maxoff e =? UNIQTYPE_POS_MAXOFF_UNBOUNDED then mret 0 else
  element_name ← name_of element_t;
  let precise_uniqtype_name := snprintf NAME_BUF ("__uniqtype____ARR_" +:+ element_name) in
  found ← get_type_from_symname precise_uniqtype_name;
  if negb (found =? 0) then mret found else
  allocated ← do_dlalloc (type_size 1);
  wr_type allocated (Uniqtype UNIQTYPE_POS_MAXOFF_UNBOUNDED (Karray UNIQTYPE_ARRAY_LENGTH_UNBOUNDED)
    make_array_precise_with_memory_bounds_ptr [RelInfo element_t 0]) ;;
  reloaded ← do_dlbind precise_uniqtype_name allocated;
  assert reloaded ;;
  mret allocated.

Definition __liballocs_get_or_create_address_type (pointee_t : Z) : M tstate Z :=
  assert (negb (pointee_t =? 0)) ;;
  pointee_name ← name_of pointee_t;
  let precise_uniqtype_name := snprintf NAME_BUF ("__uniqtype____PTR_" +:+ pointee_name) in
  found ← get_type_from_symname precise_uniqtype_name;
  if negb (found =? 0) then mret found else
  p ← rd_type pointee_t;
  let '(indir_level, ultimate_pointee_t) :=
    if rec_is_pointer p then
      (match t_un p with Kaddress l _ => 1 + l | _ => 1 end, ULTIMATE_POINTEE_TYPE p)
    else (1, pointee_t) in
  allocated ← do_dlalloc (type_size 2);
  wr_type allocated (Uniqtype 8 (Kaddress indir_level 0) 0 [RelInfo pointee_t 0; RelInfo ultimate_pointee_t 0]) ;;
  reloaded ← do_dlbind precise_uniqtype_name allocated;
  assert reloaded ;;
  mret allocated.

(** One [snprintf] at position [pos] of the name buffer; the position moves by
    the length of the text, whether or not it fits.  Beyond the end of the
    buffer the size passed is that of an unsigned underflow and the write goes
    out of bounds. *)
Definition print_at (buf : string) (pos : Z) (text : string) : M tstate (string * Z) :=
  let bufsz := Z.of_nat NAME_BUF - pos in
  if bufsz <? 0 then abort else
  mret (if bufsz =? 0 then buf else String.substring 0 (Z.to_nat pos) buf +:+ snprintf (Z.to_nat bufsz) text,
        wrap32 (pos + Z.of_nat (String.length text))).

Fixpoint print_args (buf : string) (pos i : Z) (arg_types : list Z) : M tstate (string * Z) :=
  match arg_types with
  | [] => mret (buf, pos)
  | a :: arg_types =>
    n ← name_of a;
    r ← print_at buf pos ("__ARG" +:+ pretty (int32 i) +:+ "_" +:+ n);
    let '(buf, pos) := r in
    print_args buf pos (wrap32 (i + 1)) arg_types
  end.

Definition FUN_FROM : string := "__uniqtype____FUN_FROM_".

Definition __liballocs_get_or_create_subprogram_type (return_type : Z) (arg_types : list Z) : M tstate Z :=
  assert (negb (return_type =? 0)) ;;
  r ← print_args FUN_FROM (Z.of_nat (String.length FUN_FROM)) 0 arg_types;
  let '(buf, pos) := r in
  n ← name_of return_type;
  r ← print_at buf pos ("__FUN_TO_" +:+ n);
  let precise_uniqtype_name := fst r in
  found ← get_type_from_symname precise_uniqtype_name;
  if negb (found =? 0) then mret found else
  let narg := Z.of_nat (length arg_types) in
  allocated ← do_dlalloc (type_size (1 + narg));
  wr_type allocated (Uniqtype UNIQTYPE_POS_MAXOFF_UNBOUNDED (Ksubprogram narg 1 0 0) 0
    (RelInfo return_type 0 :: ((fun a => RelInfo a 0) <$> arg_types))) ;;
  reloaded ← do_dlbind precise_uniqtype_name allocated;
  assert reloaded ;;
  mret allocated.

(** The members of a union, from the variable argument list: the name so far and
    the largest size, or nothing when a name is too long.  [cur_len] stays 0. *)
Fixpoint union_members (union_raw_name : string) (max_len : Z) (membs : list Z) : M tstate (option (string * Z)) :=
  match membs with
  | [] => mret (Some (union_raw_name, max_len))
  | m :: membs =>
    assert (negb (m =? 0)) ;;
    t ← rd_type m;
    assert (0 <? t_pos_maxoff t) ;;
    assert (negb (t_pos_maxoff t =? UNIQTYPE_POS_MAXOFF_UNBOUNDED)) ;;
    n ← gets (fun s => NAME_FOR_UNIQTYPE (bound s) m);
    if Z.of_nat NAME_BUF <=? Z.of_nat (String.length n) then mret None else
    (* strcat past the end of the buffer *)
    if (NAME_BUF <=? String.length (union_raw_name +:+ n))%nat then abort else
    union_members (union_raw_name +:+ n) (if max_len <? t_pos_maxoff t then t_pos_maxoff t else max_len) membs
  end.

Definition __liballocs_get_or_create_union_type (membs : list Z) : M tstate Z :=
  match membs with
  | [] => mret 0
  | _ =>
    r ← union_members "" 0 membs;
    match r with
    | None => mret 0
    | Some (union_raw_name, max_len) =>
      let union_uniqtype_name := "__uniqtype____SYNTHUNION_" +:+ union_raw_name in
      found ← get_type_from_symname union_uniqtype_name;
      if negb (found =? 0) then mret found else
      let n := Z.of_nat (length membs) in
      allocated ← do_dlalloc (type_size n);
      wr_type allocated (Uniqtype max_len (Kcomposite n 0) 0 ((fun m => RelInfo m 0) <$> membs)) ;;
      reloaded ← do_dlbind union_uniqtype_name allocated;
      assert reloaded ;;
      mret allocated
    end
  end.

(** ** Making a type precise *)

Definition __liballocs_make_array_precise_with_memory_bounds (in_ obj memrange_base memrange_sz : Z) : M tstate Z :=
  let precise_size := wrap64 (memrange_base + memrange_sz - obj) in
  t ← rd_type in_;
  let element_t := match t_related t with r :: _ => rel_ptr r | [] => 0 end in
  assert (negb (element_t =? 0)) ;;
  e ← rd_type element_t;
  assert (0 <? t_pos_maxoff e) ;;
  assert (negb (t_pos_maxoff e =? UNIQTYPE_POS_MAXOFF_UNBOUNDED)) ;;
  if t_pos_maxoff e =? 0 then abort (* division by zero *) else
  __liballocs_get_or_create_array_type element_t (wrap32 (precise_size / t_pos_maxoff e)).

Definition __liballocs_make_precise_identity (in_ : Z) : M tstate Z := mret in_.

(** ** The name of a type *)

Definition __liballocs_uniqtype_symbol_name (u : Z) : M tstate (option string) :=
  if u =? 0 then mret None else gets (fun s => dladdr_name (bound s) u).

Definition drop_chars (n : nat) (s : string) : string := String.substring n (String.length s - n) s.

Definition __liballocs_uniqtype_name (u : Z) : M tstate string :=
  if u =? 0 then mret "(no type)" else
  symbol_name ← __liballocs_uniqtype_symbol_name u;
  mret (match symbol_name with
        | Some n =>
          if String.prefix "__uniqtype__" n then drop_chars (String.length "__uniqtype__") n
          else if String.prefix "__uniqtype_" n then drop_chars (String.length "__uniqtype_" + 9) n
          else n
        | None => "(unnamed type)"
        end).

(** ** The types the library needs itself *)

(** DWARF's encodings of base types. *)
Definition DW_ATE_signed : Z := 5.
Definition DW_ATE_signed_char : Z := 6.
Definition DW_ATE_unsigned : Z := 7.
Definition DW_ATE_unsigned_char : Z := 8.

(** The variables [pointer_to___uniqtype__...]. *)
Record rt_vars := RtVars {
  p_void : Z;
  p_uninterpreted_byte : Z;
  p_signed_char : Z;
  p_unsigned_char : Z;
  p_long_unsigned_int : Z;
  p_long_int : Z;
  p_PTR_signed_char : Z;
  p_PTR_PTR_signed_char : Z;
  p_Elf64_auxv_t : Z;
  p_ARR0_signed_char : Z;
  p_intptr_t : Z;
}.

(** The type bound to one symbol, or else a new one bound to the other.  The
    entries of [related] that are not set are zero. *)
Definition lookup_or_CREATE (lookup symstr : string) (nrelated maxoff : Z) (un : uniqtype_kind) (related : list Z) : M tstate Z :=
  found ← get_type_from_symname lookup;
  if negb (found =? 0) then mret found else
  p ← do_dlalloc (type_size nrelated);
  if p =? 0 then abort else
  wr_type p (Uniqtype maxoff un 0
    (((fun r => RelInfo r 0) <$> related) ++ replicate (Z.to_nat nrelated - length related) (RelInfo 0 0))) ;;
  do_dlbind symstr p ;;
  mret p.

(** Sets the first related type if there is none yet. *)
Definition set_counterpart (u v : Z) : M tstate unit :=
  t ← rd_type u;
  match t_related t with
  | [] => abort
  | r :: rest =>
    if rel_ptr r =? 0 then wr_type u (Uniqtype (t_pos_maxoff t) (t_un t) (t_make_precise t) (RelInfo v 0 :: rest))
    else mret tt
  end.

Definition init_rt_uniqtypes_obj : M tstate rt_vars :=
  if negb dlcreate_ok then abort else
  void ← lookup_or_CREATE "__uniqtype__void" "__uniqtype__void" 1 0 Kvoid [];
  lookup_or_CREATE "__uniqtype____uninterpreted_byte" "__uniqtype____uninterpreted_byte" 1 1 (Kbase 0) [] ;;
  signed_char ← lookup_or_CREATE "__uniqtype__signed_char$$8" "__uniqtype__signed_char$$8" 1 1 (Kbase DW_ATE_signed_char) [];
  unsigned_char ← lookup_or_CREATE "__uniqtype__unsigned_char$$8" "__uniqtype__unsigned_char$$8" 1 1 (Kbase DW_ATE_unsigned_char) [];
  byte ← lookup_or_CREATE "__uniqtype____uninterpreted_byte" "__uniqtype____uninterpreted_byte" 1 1 (Kbase 0) [];
  set_counterpart unsigned_char signed_char ;;
  set_counterpart signed_char unsigned_char ;;
  long_unsigned_int ← lookup_or_CREATE "__uniqtype__uint$$64" "__uniqtype__uint$$64" 1 8 (Kbase DW_ATE_unsigned) [];
  long_int ← lookup_or_CREATE "__uniqtype__int$$64" "__uniqtype__int$$64" 1 8 (Kbase DW_ATE_signed) [];
  set_counterpart long_unsigned_int long_int ;;
  set_counterpart long_int long_unsigned_int ;;
  PTR ← lookup_or_CREATE "__uniqtype____PTR_signed_char$$8" "__uniqtype____PTR_signed_char$$8" 1 8 (Kaddress 1 0) [signed_char];
  PTR_PTR ← lookup_or_CREATE "__uniqtype____PTR___PTR_signed_char$$8" "__uniqtype____PTR___PTR_signed_char$$8" 1 8 (Kaddress 2 0) [PTR];
  auxv ← lookup_or_CREATE "__uniqtype__Elf64_auxv_t" "__uniqtype__Elf64_auxv_t" 2 16 (Kcomposite 2 0) [long_unsigned_int; long_unsigned_int];
  ARR0 ← lookup_or_CREATE "__uniqtype____ARR0_signed_char$$8" "__uniqtype____ARR0_signed_char" 2
           UNIQTYPE_POS_MAXOFF_UNBOUNDED (Karray UNIQTYPE_ARRAY_LENGTH_UNBOUNDED) [signed_char];
  intptr ← get_type_from_symname "__uniqtype__intptr_t";
  mret (RtVars void byte signed_char unsigned_char long_unsigned_int long_int PTR PTR_PTR auxv ARR0 intptr).
End rt_types.
