(* ===== verification/RtTypesFacts.v ===== *)
(** Every type made at run time is made once, and describes what was asked for. *)
From Stdlib Require Import Ascii.
From stdpp Require Import strings pretty.
From S2P Require Import Prelude Uniqtype Subobject RtTypes.

(** ** Strings *)

Lemma substring_all s n : (String.length s <= n)%nat -> String.substring 0 n s = s.
Proof. revert n. induction s as [|c s IH]; intros [|n] Hn; simpl in *; try done; [lia|]. by rewrite IH by lia. Qed.

Lemma substring_app_l s1 s2 : String.substring 0 (String.length s1) (s1 +:+ s2) = s1.
Proof. unfold String.app. induction s1 as [|c s1 IH]; simpl; [by destruct s2|]. by rewrite IH. Qed.

Lemma snprintf_short n text : (String.length text < n)%nat -> snprintf n text = text.
Proof. intros Hn. apply substring_all. lia. Qed.

(** ** Decimal numbers hold no underscore *)

Fixpoint plain (s : string) : Prop :=
  match s with EmptyString => True | String c s => c <> "_"%char /\ plain s end.

Lemma plain_split s1 s2 t1 t2 : plain s1 -> plain s2 -> s1 +:+ "_" +:+ t1 = s2 +:+ "_" +:+ t2 -> s1 = s2 /\ t1 = t2.
Proof.
  unfold String.app. revert s2. induction s1 as [|c1 s1 IH]; intros [|c2 s2] P1 P2; simpl in *.
  - by intros [= ->].
  - intros [= <- _]. by destruct P2.
  - intros [= -> _]. by destruct P1.
  - intros [= -> Et]. destruct (IH s2) as [-> ->]; tauto.
Qed.

Lemma pretty_N_plain x s : plain s -> plain (pretty_N_go x s).
Proof.
  revert s. induction (N.lt_wf_0 x) as [x _ IH]; intros s P. destruct (decide (0 < x)%N) as [Hx|Hx].
  - rewrite pretty_N_go_step by done. apply IH; [by apply N.div_lt|]. split; [|done].
    unfold pretty_N_char. by repeat case_match.
  - assert (x = 0%N) as -> by lia. by rewrite pretty_N_go_0.
Qed.

Lemma pretty_plain n : 0 <= n -> plain (pretty n).
Proof.
  intros Hn. destruct n as [|p|p]; [done| |lia]. unfold pretty, pretty_Z, pretty, pretty_N.
  by apply pretty_N_plain.
Qed.

(** ** Laws of libdlbind and of names *)

Class DlLaws (E : DlEnv) : Prop := {
  dlsym_bound b n a : b !! n = Some a -> dlsym b n = a;
  dlsym_other b n m a : n <> m -> dlsym (<[m := a]> b) n = dlsym b n;
  dlalloc_fresh h sz : h !! dlalloc h sz = None;
  dlalloc_nonnull h sz : dlalloc h sz <> 0;
  dlbind_always b n : dlbind_ok b n = true;
  (** binding a new symbol names that address and no other *)
  name_stable b n a u : dlsym b n = 0 -> u <> a -> UNIQTYPE_NAME (<[n := a]> b) u = UNIQTYPE_NAME b u;
  union_name_stable b n a u : dlsym b n = 0 -> u <> a -> NAME_FOR_UNIQTYPE (<[n := a]> b) u = NAME_FOR_UNIQTYPE b u;
}.

(** ** Requests *)

Inductive request :=
| Rarray (element_t array_len : Z)
| Runbounded (element_t : Z)
| Rflexible (element_t : Z)
| Raddress (pointee_t : Z)
| Rsubprogram (return_type : Z) (arg_types : list Z)
| Runion (membs : list Z).

Section facts.
Context {E : DlEnv} {L : DlLaws E}.

Definition make {B : Build} (r : request) : M tstate Z :=
  match r with
  | Rarray t n => __liballocs_get_or_create_array_type t n
  | Runbounded t => __liballocs_get_or_create_unbounded_array_type t
  | Rflexible t => __liballocs_get_or_create_flexible_array_type t
  | Raddress t => __liballocs_get_or_create_address_type t
  | Rsubprogram t l => __liballocs_get_or_create_subprogram_type t l
  | Runion l => __liballocs_get_or_create_union_type l
  end.

(** The symbol of the type asked for. *)
Fixpoint args_text (s : tstate) (i : Z) (l : list Z) : string :=
  match l with
  | [] => ""
  | a :: l => "__ARG" +:+ pretty (int32 i) +:+ "_" +:+ UNIQTYPE_NAME (bound s) a +:+ args_text s (wrap32 (i + 1)) l
  end.
Fixpoint union_text (s : tstate) (l : list Z) : string :=
  match l with [] => "" | m :: l => NAME_FOR_UNIQTYPE (bound s) m +:+ union_text s l end.

Definition symbol (s : tstate) (r : request) : string :=
  match r with
  | Rarray t n => array_symbol n (UNIQTYPE_NAME (bound s) t)
  | Runbounded t | Rflexible t => "__uniqtype____ARR_" +:+ UNIQTYPE_NAME (bound s) t
  | Raddress t => "__uniqtype____PTR_" +:+ UNIQTYPE_NAME (bound s) t
  | Rsubprogram t l => FUN_FROM +:+ args_text s 0 l +:+ "__FUN_TO_" +:+ UNIQTYPE_NAME (bound s) t
  | Runion l => "__uniqtype____SYNTHUNION_" +:+ union_text s l
  end.

(** The type itself. *)
Definition size_of (s : tstate) (t : Z) : Z := match types s !! t with Some x => t_pos_maxoff x | None => 0 end.
Definition max_size (s : tstate) (l : list Z) : Z := foldr Z.max 0 (size_of s <$> l).

Definition record (s : tstate) (r : request) : uniqtype :=
  match r with
  | Rarray t n => Uniqtype (wrap32 (n * size_of s t)) (Karray n) 0 [RelInfo t 0]
  | Runbounded t => Uniqtype UNIQTYPE_POS_MAXOFF_UNBOUNDED (Karray UNIQTYPE_ARRAY_LENGTH_UNBOUNDED) 0 [RelInfo t 0]
  | Rflexible t => Uniqtype UNIQTYPE_POS_MAXOFF_UNBOUNDED (Karray UNIQTYPE_ARRAY_LENGTH_UNBOUNDED)
                     make_array_precise_with_memory_bounds_ptr [RelInfo t 0]
  | Raddress t =>
    match types s !! t with
    | Some p =>
      if rec_is_pointer p
      then Uniqtype 8 (Kaddress (match t_un p with Kaddress l _ => 1 + l | _ => 1 end) 0) 0
             [RelInfo t 0; RelInfo (ULTIMATE_POINTEE_TYPE p) 0]
      else Uniqtype 8 (Kaddress 1 0) 0 [RelInfo t 0; RelInfo t 0]
    | None => Uniqtype 0 Kvoid 0 []
    end
  | Rsubprogram t l => Uniqtype UNIQTYPE_POS_MAXOFF_UNBOUNDED (Ksubprogram (Z.of_nat (length l)) 1 0 0) 0
                         (RelInfo t 0 :: ((fun a => RelInfo a 0) <$> l))
  | Runion l => Uniqtype (max_size s l) (Kcomposite (Z.of_nat (length l)) 0) 0 ((fun m => RelInfo m 0) <$> l)
  end.

(** The types a request mentions. *)
Definition parts (r : request) : list Z :=
  match r with
  | Rarray t _ | Runbounded t | Rflexible t | Raddress t => [t]
  | Rsubprogram t l => t :: l
  | Runion l => l
  end.

(** A type with a size. *)
Definition sized (s : tstate) (t : Z) : Prop :=
  t <> 0 /\ t <> MINUS_ONE /\ 0 < size_of s t /\ size_of s t <> UNIQTYPE_POS_MAXOFF_UNBOUNDED.

Definition request_ok (s : tstate) (r : request) : Prop :=
  (forall t, t ∈ parts r -> t <> 0 /\ is_Some (types s !! t)) /\ (String.length (symbol s r) < NAME_BUF)%nat /\
  match r with
  | Rarray t n => sized s t /\ n < UNIQTYPE_ARRAY_LENGTH_UNBOUNDED
  | Runbounded t | Rflexible t => sized s t
  | Runion l => l <> [] /\ (forall m, m ∈ l -> sized s m)
  | Rsubprogram _ l => True
  | Raddress _ => True
  end.

(** The state after a new type has been made at the address of the next allocation. *)
Definition nrelated (r : request) : Z :=
  match r with
  | Raddress _ => 2
  | Rsubprogram _ l => 1 + Z.of_nat (length l)
  | Runion l => Z.of_nat (length l)
  | _ => 1
  end.
Definition new_type (s : tstate) (r : request) : Z := dlalloc (types s) (type_size (nrelated r)).
Definition with_type (s : tstate) (r : request) : tstate :=
  TState (<[new_type s r := record s r]> (types s)) (<[symbol s r := new_type s r]> (bound s)).

Definition made (s : tstate) (r : request) : outcome (Z * tstate) :=
  if dlsym (bound s) (symbol s r) =? 0 then Done (new_type s r, with_type s r) else Done (dlsym (bound s) (symbol s r), s).

(** ** Making a type *)

Context {B : Build}.

Lemma rd_type_ok t x s : types s !! t = Some x -> rd_type t s = Done (x, s).
Proof. unfold rd_type. by intros ->. Qed.

Lemma size_of_ok t x s : types s !! t = Some x -> size_of s t = t_pos_maxoff x.
Proof. unfold size_of. by intros ->. Qed.

(** The common tail: allocate, write, bind. *)
Lemma write_and_bind_ok x name a s : a <> 0 ->
  (wr_type a x ;; reloaded ← do_dlbind name a; assert reloaded ;; mret a) s =
  Done (a, TState (<[a := x]> (types s)) (<[name := a]> (bound s))).
Proof.
  intros Na. unfold wr_type. rewrite (proj2 (Z.eqb_neq a 0)) by done.
  rewrite (bind_Done _ _ s tt (TState (<[a := x]> (types s)) (bound s))) by done.
  erewrite bind_Done. 2: { unfold do_dlbind. rewrite dlbind_always. reflexivity. }
  by rewrite (bind_Done _ _ _ tt _) by (by apply assert_true).
Qed.

Lemma create_ok sz x name s :
  (a ← do_dlalloc sz; wr_type a x ;; reloaded ← do_dlbind name a; assert reloaded ;; mret a) s =
  Done (dlalloc (types s) sz, TState (<[dlalloc (types s) sz := x]> (types s)) (<[name := dlalloc (types s) sz]> (bound s))).
Proof. rewrite (bind_Done _ _ s (dlalloc (types s) sz) s) by done. apply write_and_bind_ok, dlalloc_nonnull. Qed.

Lemma array_core_ok t n x s r :
  types s !! t = Some x -> nrelated r = 1 ->
  symbol s r = array_symbol n (UNIQTYPE_NAME (bound s) t) -> (String.length (symbol s r) < NAME_BUF)%nat ->
  record s r = Uniqtype (if n =? UNIQTYPE_ARRAY_LENGTH_UNBOUNDED then UNIQTYPE_POS_MAXOFF_UNBOUNDED else wrap32 (n * t_pos_maxoff x))
                 (Karray n) 0 [RelInfo t 0] ->
  get_or_create_array t n s = made s r.
Proof.
  intros Hx Hn Es Hlen Er. unfold get_or_create_array, made, new_type, with_type, new_type. rewrite Hn.
  rewrite (bind_Done _ _ s (UNIQTYPE_NAME (bound s) t) s) by done. rewrite <- Es, snprintf_short by done.
  rewrite (bind_Done _ _ s (dlsym (bound s) (symbol s r)) s) by done.
  destruct (dlsym _ _ =? 0); [|done]. cbn [negb]. rewrite (bind_Done _ _ s (dlalloc (types s) (type_size 1)) s) by done.
  erewrite (bind_Done _ _ s (if n =? UNIQTYPE_ARRAY_LENGTH_UNBOUNDED then _ else _) s).
  2: { destruct (n =? _); [done|]. by rewrite (bind_Done _ _ _ _ _ (rd_type_ok t x s Hx)). }
  rewrite write_and_bind_ok by apply dlalloc_nonnull. by rewrite Er.
Qed.

Lemma sized_tests s t x : types s !! t = Some x -> sized s t ->
  (t =? 0) || (t =? MINUS_ONE) = false /\ (t_pos_maxoff x =? 0) = false /\
  (t_pos_maxoff x =? UNIQTYPE_POS_MAXOFF_UNBOUNDED) = false /\ 0 < t_pos_maxoff x.
Proof.
  intros Hx (? & ? & Hs & ?). rewrite (size_of_ok t x s Hx) in *.
  rewrite (proj2 (Z.eqb_neq t 0)), (proj2 (Z.eqb_neq t MINUS_ONE)) by done.
  rewrite (proj2 (Z.eqb_neq _ 0)), (proj2 (Z.eqb_neq _ UNIQTYPE_POS_MAXOFF_UNBOUNDED)) by (done || lia). done.
Qed.

(** ** Subprogram names *)

Lemma print_at_ok buf text s :
  (String.length buf + String.length text < NAME_BUF)%nat ->
  print_at buf (Z.of_nat (String.length buf)) text s =
  Done ((buf +:+ text, Z.of_nat (String.length (buf +:+ text))), s).
Proof.
  intros Hl. unfold print_at. pose proof NAME_BUF_eq as Hz.
  assert (Hb : Z.of_nat (String.length buf) + Z.of_nat (String.length text) < 4096) by lia.
  rewrite (proj2 (Z.ltb_ge _ 0)) by lia. rewrite (proj2 (Z.eqb_neq _ 0)) by lia.
  rewrite Nat2Z.id, substring_all by done. rewrite snprintf_short by lia.
  rewrite (wrap_small 32) by lia. by rewrite string_length_app, Nat2Z.inj_add.
Qed.

Lemma print_args_ok buf l i s :
  (String.length buf + String.length (args_text s i l) < NAME_BUF)%nat ->
  print_args buf (Z.of_nat (String.length buf)) i l s =
  Done ((buf +:+ args_text s i l, Z.of_nat (String.length (buf +:+ args_text s i l))), s).
Proof.
  revert buf i. induction l as [|a l IH]; intros buf i Hl; cbn [print_args args_text] in *.
  { assert (E0 : buf +:+ "" = buf) by (unfold String.app; clear; induction buf as [|c b IHb]; simpl; by f_equal). by rewrite E0. }
  rewrite (bind_Done _ _ s (UNIQTYPE_NAME (bound s) a) s) by done. rewrite !string_length_app in Hl.
  erewrite bind_Done; [|apply print_at_ok; rewrite !string_length_app; lia]. cbv beta iota.
  rewrite IH by (rewrite !string_length_app; lia). by rewrite !string_app_assoc.
Qed.

(** ** Union members *)

Lemma union_members_ok name m l s :
  (forall x, x ∈ l -> sized s x /\ is_Some (types s !! x)) -> 0 <= m ->
  (String.length name + String.length (union_text s l) < NAME_BUF)%nat ->
  union_members name m l s = Done (Some (name +:+ union_text s l, Z.max m (max_size s l)), s).
Proof.
  revert name m. induction l as [|x l IH]; intros name m Hp Hm Hl; cbn [union_members union_text] in *.
  { assert (E0 : name +:+ "" = name) by (unfold String.app; clear; induction name as [|c b IHb]; simpl; by f_equal).
    rewrite E0. unfold max_size. simpl. by rewrite Z.max_l. }
  destruct (Hp x ltac:(by left)) as [Sx [y Hy]]. destruct (sized_tests s x y Hy Sx) as (_ & E1 & E2 & Hpos).
  rewrite (bind_Done _ _ s tt s) by (apply assert_true; destruct Sx; by rewrite (proj2 (Z.eqb_neq x 0))).
  rewrite (bind_Done _ _ _ _ _ (rd_type_ok x y s Hy)).
  rewrite (bind_Done _ _ s tt s) by (apply assert_true; by apply Z.ltb_lt).
  rewrite (bind_Done _ _ s tt s) by (apply assert_true; by rewrite E2).
  rewrite (bind_Done _ _ s (NAME_FOR_UNIQTYPE (bound s) x) s) by done. rewrite !string_length_app in Hl.
  rewrite (proj2 (Z.leb_gt _ _)) by lia. rewrite (proj2 (Nat.leb_gt _ _)) by (rewrite string_length_app; lia).
  rewrite IH; [|intros z Hz; apply Hp; by right|destruct (m <? _); lia|rewrite string_length_app; lia].
  rewrite string_app_assoc. do 3 f_equal. unfold max_size. rewrite fmap_cons. cbn [foldr]. rewrite (size_of_ok x y s Hy).
  f_equal. destruct (Z.ltb_spec m (t_pos_maxoff y)); lia.
Qed.

(** ** Every request *)

Lemma make_ok r s : request_ok s r -> make r s = made s r.
Proof.
  intros (Hp & Hlen & Hr). destruct r as [t n|t|t|t|t l|l]; cbn [make parts] in *.
  - destruct (Hp t ltac:(by left)) as [_ [x Hx]]. destruct Hr as [Sz Hn]. destruct (sized_tests s t x Hx Sz) as (E1 & E2 & E3 & _).
    unfold __liballocs_get_or_create_array_type. rewrite E1.
    rewrite (bind_Done _ _ s tt s) by (apply assert_true; by apply Z.ltb_lt).
    rewrite (bind_Done _ _ _ _ _ (rd_type_ok t x s Hx)), E2, E3.
    apply (array_core_ok t n x s (Rarray t n)); [done..|]. simpl. rewrite (size_of_ok t x s Hx).
    by rewrite (proj2 (Z.eqb_neq n _)) by lia.
  - destruct (Hp t ltac:(by left)) as [_ [x Hx]]. destruct (sized_tests s t x Hx Hr) as (E1 & E2 & E3 & _).
    unfold __liballocs_get_or_create_unbounded_array_type. rewrite E1.
    rewrite (bind_Done _ _ _ _ _ (rd_type_ok t x s Hx)), E2, E3.
    apply (array_core_ok t _ x s (Runbounded t)); [done|done| |done|]; simpl; unfold array_symbol; by rewrite Z.eqb_refl.
  - destruct (Hp t ltac:(by left)) as [Nt [x Hx]]. destruct (sized_tests s t x Hx Hr) as (E1 & E2 & E3 & _).
    unfold __liballocs_get_or_create_flexible_array_type, made.
    rewrite (bind_Done _ _ s tt s) by (apply assert_true; by rewrite (proj2 (Z.eqb_neq t 0))).
    rewrite (bind_Done _ _ _ _ _ (rd_type_ok t x s Hx)), E2, E3.
    rewrite (bind_Done _ _ s (UNIQTYPE_NAME (bound s) t) s) by done. cbn [symbol] in *. rewrite snprintf_short by done.
    rewrite (bind_Done _ _ s (dlsym (bound s) _) s) by done. destruct (dlsym _ _ =? 0); [|done]. apply create_ok.
  - destruct (Hp t ltac:(by left)) as [Nt [x Hx]]. unfold __liballocs_get_or_create_address_type, made.
    rewrite (bind_Done _ _ s tt s) by (apply assert_true; by rewrite (proj2 (Z.eqb_neq t 0))).
    rewrite (bind_Done _ _ s (UNIQTYPE_NAME (bound s) t) s) by done. cbn [symbol] in *. rewrite snprintf_short by done.
    rewrite (bind_Done _ _ s (dlsym (bound s) _) s) by done. destruct (dlsym _ _ =? 0); [|done]. cbn [negb].
    rewrite (bind_Done _ _ _ _ _ (rd_type_ok t x s Hx)). unfold with_type, new_type. cbn [record nrelated symbol]. rewrite Hx.
    destruct (rec_is_pointer x); apply create_ok.
  - destruct (Hp t ltac:(by left)) as [Nt _]. unfold __liballocs_get_or_create_subprogram_type, made.
    rewrite (bind_Done _ _ s tt s) by (apply assert_true; by rewrite (proj2 (Z.eqb_neq t 0))).
    cbn [symbol] in *. rewrite !string_length_app in Hlen.
    rewrite (bind_Done _ _ _ _ _ (print_args_ok FUN_FROM l 0 s ltac:(lia))).
    rewrite (bind_Done _ _ s (UNIQTYPE_NAME (bound s) t) s) by done.
    erewrite bind_Done; [|apply print_at_ok; rewrite !string_length_app; lia]. cbn [fst].
    rewrite string_app_assoc. rewrite (bind_Done _ _ s (dlsym (bound s) _) s) by done. destruct (dlsym _ _ =? 0); [|done]. apply create_ok.
  - destruct Hr as [Nl Hs]. unfold __liballocs_get_or_create_union_type, made. cbn [symbol] in *. rewrite string_length_app in Hlen.
    destruct l as [|x l']; [done|]. set (l := x :: l') in *.
    rewrite (bind_Done _ _ _ _ _ (union_members_ok "" 0 l s
      ltac:(intros z Hz; split; [by apply Hs|by apply Hp]) ltac:(lia) ltac:(change (String.length "") with 0%nat; lia))).
    rewrite Z.max_r.
    2: { unfold max_size. clear. induction (size_of s <$> l); simpl; lia. }
    rewrite (bind_Done _ _ s (dlsym (bound s) _) s) by done. destruct (dlsym _ _ =? 0); [|done]. apply create_ok.
Qed.

(** ** Asking again *)

Lemma symbol_stable r s : request_ok s r -> dlsym (bound s) (symbol s r) = 0 -> symbol (with_type s r) r = symbol s r.
Proof.
  intros (Hp & _ & _) Hd.
  assert (Hn : forall t, t ∈ parts r -> t <> new_type s r).
  { intros t Ht ->. destruct (Hp _ Ht) as [_ [x Hx]]. unfold new_type in Hx. by rewrite dlalloc_fresh in Hx. }
  assert (E1 : forall t, t ∈ parts r -> UNIQTYPE_NAME (bound (with_type s r)) t = UNIQTYPE_NAME (bound s) t)
    by (intros t Ht; apply name_stable; [done|by apply Hn]).
  assert (E2 : forall t, t ∈ parts r -> NAME_FOR_UNIQTYPE (bound (with_type s r)) t = NAME_FOR_UNIQTYPE (bound s) t)
    by (intros t Ht; apply union_name_stable; [done|by apply Hn]).
  revert E1 E2. generalize (with_type s r) as s'. intros s' E1 E2. clear Hp Hn Hd.
  destruct r as [t n|t|t|t|t l|l]; cbn [symbol parts] in *; try (by rewrite E1 by by left).
  - rewrite E1 by by left. do 2 f_equal. generalize 0 as i. assert (E3 := fun x Hx => E1 x (list_elem_of_further _ _ _ Hx)).
    clear - E3. induction l as [|a l IH]; intros i; [done|]. cbn [args_text]. rewrite E3 by by left.
    rewrite IH; [done|]. intros x Hx. apply E3. by right.
  - f_equal. clear - E2. induction l as [|a l IH]; [done|]. cbn [union_text]. rewrite E2 by by left.
    rewrite IH; [done|]. intros x Hx. apply E2. by right.
Qed.

(** ** Array types describe arrays *)

Definition is_len (k : Z) : Prop := 0 <= k < 2 ^ 31 /\ k <> UNIQTYPE_ARRAY_LENGTH_UNBOUNDED.

Lemma array_symbol_inj k k' n n' : is_len k -> is_len k' -> array_symbol k n = array_symbol k' n' -> k = k' /\ n = n'.
Proof.
  intros [Hk Nk] [Hk' Nk']. unfold array_symbol. rewrite (proj2 (Z.eqb_neq k _)), (proj2 (Z.eqb_neq k' _)) by done.
  assert (Ei : forall i, 0 <= i < 2 ^ 31 -> int32 i = i).
  { intros i Hi. unfold int32. rewrite (wrap_small 32) by lia. by rewrite (proj2 (Z.ltb_lt _ _)) by lia. }
  rewrite !Ei by done. intros Es. apply (inj (String.app _)) in Es.
  apply plain_split in Es as [Ep ->]; [|(apply pretty_plain; lia)..]. split; [|done]. by apply (inj pretty) in Ep.
Qed.

(** A symbol for an array of [k] elements of a type named [n] is bound to such a type. *)
Definition arrays_ok (s : tstate) : Prop :=
  forall k n b, is_len k -> dlsym (bound s) (array_symbol k n) = b -> b <> 0 ->
  exists e x, types s !! e = Some x /\ UNIQTYPE_NAME (bound s) e = n /\
    types s !! b = Some (Uniqtype (wrap32 (k * t_pos_maxoff x)) (Karray k) 0 [RelInfo e 0]).

Definition distinct_names (s : tstate) : Prop :=
  forall u v, is_Some (types s !! u) -> is_Some (types s !! v) -> UNIQTYPE_NAME (bound s) u = UNIQTYPE_NAME (bound s) v -> u = v.

Lemma with_type_old r s u x : types s !! u = Some x -> types (with_type s r) !! u = Some x.
Proof.
  intros Hu. unfold with_type. cbn [types]. rewrite lookup_insert_ne; [done|]. intros <-. unfold new_type in Hu.
  by rewrite dlalloc_fresh in Hu.
Qed.

Lemma with_type_name r s u : dlsym (bound s) (symbol s r) = 0 -> is_Some (types s !! u) -> UNIQTYPE_NAME (bound (with_type s r)) u = UNIQTYPE_NAME (bound s) u.
Proof. intros Hd [x Hu]. apply name_stable; [done|]. intros ->. unfold new_type in Hu. by rewrite dlalloc_fresh in Hu. Qed.

Lemma with_array_ok s t n : arrays_ok s -> request_ok s (Rarray t n) -> is_len n ->
  dlsym (bound s) (symbol s (Rarray t n)) = 0 -> arrays_ok (with_type s (Rarray t n)).
Proof.
  intros A (Hp & _) Hn Hd k m b Hk Hb Nb. destruct (Hp t ltac:(by left)) as [_ [x Hx]]. set (r := Rarray t n) in *.
  destruct (decide (array_symbol k m = symbol s r)) as [Es|Ns].
  - apply array_symbol_inj in Es as [-> ->]; [|done..]. exists t, x.
    split_and!; [by apply with_type_old|by apply with_type_name|]. subst b. unfold with_type. cbn [bound types].
    rewrite (dlsym_bound _ _ (new_type s r)) by apply lookup_insert_eq. rewrite lookup_insert_eq. simpl.
    by rewrite (size_of_ok t x s Hx).
  - unfold with_type in Hb. cbn [bound] in Hb. rewrite dlsym_other in Hb by done.
    destruct (A k m b Hk Hb Nb) as (e & y & He & Hname & Hy). exists e, y.
    split_and!; [by apply with_type_old|rewrite with_type_name; [done|done|by exists y]|by apply with_type_old].
Qed.

Lemma array_made s t n : arrays_ok s -> distinct_names s -> request_ok s (Rarray t n) -> is_len n ->
  exists a s', make (Rarray t n) s = Done (a, s') /\ types s' !! a = Some (record s (Rarray t n)) /\ arrays_ok s' /\
    (s' = s \/ s' = with_type s (Rarray t n)).
Proof.
  intros A D R Hn. rewrite make_ok by done. unfold made. destruct (Z.eqb_spec (dlsym (bound s) (symbol s (Rarray t n))) 0) as [|Nz].
  - do 2 eexists. split_and!; [reflexivity|apply lookup_insert_eq|by apply with_array_ok|by right].
  - do 2 eexists. split_and!; [reflexivity| |done|by left].
    destruct (A n _ _ Hn eq_refl Nz) as (e & x & He & Hname & Hx). destruct R as (Hp & _).
    destruct (Hp t ltac:(by left)) as [_ Ht]. pose proof (D e t ltac:(by exists x) Ht Hname) as Eet. subst e.
    cbn [symbol]. rewrite Hx. simpl.
    by rewrite (size_of_ok t x s He).
Qed.

(** ** The types as the subobject search reads them *)

Definition env_of (s : tstate) : UniqtypeEnv := {|
  UNIQTYPE_IS_ARRAY_TYPE u := match types s !! u with Some (Uniqtype _ (Karray _) _ _) => true | _ => false end;
  UNIQTYPE_IS_COMPOSITE_TYPE u := match types s !! u with Some (Uniqtype _ (Kcomposite _ _) _ _) => true | _ => false end;
  UNIQTYPE_IS_POINTER_TYPE u := match types s !! u with Some (Uniqtype _ (Kaddress _ _) _ _) => true | _ => false end;
  UNIQTYPE_ARRAY_LENGTH u := match types s !! u with Some (Uniqtype _ (Karray n) _ _) => n | _ => 0 end;
  UNIQTYPE_COMPOSITE_MEMBER_COUNT u := match types s !! u with Some (Uniqtype _ (Kcomposite n _) _ _) => n | _ => 0 end;
  pos_maxoff u := size_of s u;
  related_ptr u i := match types s !! u with
    | Some x => match t_related x !! Z.to_nat i with Some r => rel_ptr r | None => 0 end
    | None => 0 end;
  related_off u i := match types s !! u with
    | Some x => match t_related x !! Z.to_nat i with Some r => rel_off r | None => 0 end
    | None => 0 end;
|}.

(** Types refer to types. *)
Definition closed (s : tstate) : Prop :=
  forall u x r, types s !! u = Some x -> r ∈ t_related x -> is_Some (types s !! rel_ptr r).

Lemma nested_extend s s' d u :
  closed s -> (forall v, is_Some (types s !! v) \/ v = 0 -> types s' !! v = types s !! v) ->
  is_Some (types s !! u) \/ u = 0 -> @nested (env_of s) d u -> @nested (env_of s') d u.
Proof.
  intros C Eq. revert u.
  assert (Hrel : forall u i, is_Some (types s !! u) \/ u = 0 ->
    is_Some (types s !! @related_ptr (env_of s) u i) \/ @related_ptr (env_of s) u i = 0).
  { intros u i _. cbn. destruct (types s !! u) as [x|] eqn:Hx; [|by right].
    destruct (t_related x !! Z.to_nat i) as [r|] eqn:Hr; [|by right]. left. eapply C; [done|]. by apply list_elem_of_lookup_2 in Hr. }
  assert (Hsz : forall u, is_Some (types s !! u) \/ u = 0 -> size_of s' u = size_of s u)
    by (intros u Hu; unfold size_of; by rewrite Eq).
  intros u Hu N. induction N as [d u Ha Hc Hl Hs Hm N IH|d u Ha Hc Ho Hsort N IH].
  - pose proof (Hrel u 0 Hu) as H0. apply nested_array; cbn in *; rewrite ?Eq, ?Hsz by done; try done.
    by apply IH.
  - apply nested_composite; cbn in *; rewrite ?Eq by done; try done.
    intros i Hi. apply IH; [done|]. by apply (Hrel u i).
Qed.

Lemma request_ok_stable r s : request_ok s r -> dlsym (bound s) (symbol s r) = 0 -> request_ok (with_type s r) r.
Proof.
  intros R Hd. pose proof (symbol_stable r s R Hd) as Es. destruct R as (Hp & Hl & Hr).
  assert (Hz : forall t, t ∈ parts r -> sized s t -> sized (with_type s r) t).
  { intros t Ht. destruct (Hp t Ht) as [_ [x Hx]]. unfold sized.
    by rewrite (size_of_ok t x s Hx), (size_of_ok t x _ (with_type_old r s t x Hx)). }
  split_and!; [|by rewrite Es|].
  - intros t Ht. destruct (Hp t Ht) as [Nt [x Hx]]. split; [done|]. exists x. by apply with_type_old.
  - revert Hz Hr. generalize (with_type s r) as s'. intros s' Hz Hr. destruct r; cbn [parts] in *; try done.
    + destruct Hr. split; [|done]. apply Hz; [by left|done].
    + apply Hz; [by left|done].
    + apply Hz; [by left|done].
    + destruct Hr as [? Hr]. split; [done|]. intros m Hm. by apply Hz, Hr.
Qed.

(** ** Start-up *)

(** One of the types that start-up finds or makes: the symbol it looks for, the
    one it binds, the variable's value, and the type it makes. *)
Record rt_entry := RtEntry {
  e_lookup : string;
  e_bind : string;
  e_addr : Z;
  e_maxoff : Z;
  e_un : uniqtype_kind;
  e_related : list Z;
}.
Definition set_related (l : list Z) (e : rt_entry) : rt_entry :=
  RtEntry (e_lookup e) (e_bind e) (e_addr e) (e_maxoff e) (e_un e) l.

(** Whether the objects loaded so far define the symbol. *)
Definition found (s : tstate) (e : rt_entry) : Prop := dlsym (bound s) (e_lookup e) <> 0.
#[local] Instance found_dec s e : Decision (found s e).
Proof. unfold found. apply _. Defined.

Definition made_as (e : rt_entry) : uniqtype :=
  Uniqtype (e_maxoff e) (e_un e) 0 ((fun r => RelInfo r 0) <$> e_related e).

(** [x'] is [x], but for a null first related type that has been set. *)
Definition completed (x x' : uniqtype) : Prop :=
  t_pos_maxoff x' = t_pos_maxoff x /\ t_un x' = t_un x /\ t_make_precise x' = t_make_precise x /\
  (t_related x' = t_related x \/
   exists r l v, t_related x = r :: l /\ rel_ptr r = 0 /\ v <> 0 /\ t_related x' = RelInfo v 0 :: l).

Lemma completed_refl x : completed x x.
Proof. split_and!; [done..|by left]. Qed.

(** Between [s] and [s'] the entry was found where [s] has its symbol, or
    else made at an address where no type was, and bound. *)
Definition described (s s' : tstate) (e : rt_entry) : Prop :=
  if decide (found s e) then e_addr e = dlsym (bound s) (e_lookup e)
  else e_addr e <> 0 /\ types s !! e_addr e = None /\ types s' !! e_addr e = Some (made_as e) /\
    dlsym (bound s') (e_bind e) = e_addr e.

(** What start-up has done when the entries [D] are through. *)
Record started (s s' : tstate) (D : list rt_entry) : Prop := {
  sd_described e : e ∈ D -> described s s' e;
  sd_kept u x : types s !! u = Some x -> exists x', types s' !! u = Some x' /\ completed x x';
  sd_names n : n ∉ e_bind <$> D -> dlsym (bound s') n = dlsym (bound s) n;
  sd_resolved e : e ∈ D -> e_lookup e = e_bind e -> dlsym (bound s') (e_lookup e) = e_addr e;
  sd_distinct i j e e' : D !! i = Some e -> D !! j = Some e' -> ~ found s e -> ~ found s e' -> e_addr e = e_addr e' -> i = j;
}.

Lemma started_nil s : started s s [].
Proof.
  split; [by intros e ?%elem_of_nil| |done|by intros e ?%elem_of_nil|by intros i j e e' Hi].
  intros u x Hx. exists x. split; [done|apply completed_refl].
Qed.

Lemma entry_nonnull s s' D e : started s s' D -> e ∈ D -> e_addr e <> 0.
Proof.
  intros St He. pose proof (sd_described _ _ _ St e He) as Hd. unfold described in Hd. case_decide as Hf; [|by destruct Hd].
  rewrite Hd. exact Hf.
Qed.

(** The list of what is made: the related types given, the rest null. *)
Definition padded (n : Z) (related : list Z) : list Z := related ++ replicate (Z.to_nat n - length related) 0.

(** An entry that is found is added to those that are through. *)
Lemma started_found s s' D e : started s s' D -> found s e -> e_addr e = dlsym (bound s) (e_lookup e) ->
  e_lookup e ∉ e_bind <$> D -> started s s' (D ++ [e]).
Proof.
  intros St Hf Ea Hl. split.
  - intros e' [He|He]%elem_of_app; [by apply (sd_described _ _ _ St)|]. apply list_elem_of_singleton in He as ->.
    unfold described. by rewrite decide_True.
  - apply (sd_kept _ _ _ St).
  - intros m Hm. apply (sd_names _ _ _ St). intros Hm'. apply Hm. rewrite fmap_app. apply elem_of_app. by left.
  - intros e' [He|He]%elem_of_app; [by apply (sd_resolved _ _ _ St)|]. apply list_elem_of_singleton in He as ->.
    intros _. rewrite Ea. by apply (sd_names _ _ _ St).
  - intros i j e1 e2 Hi Hj N1 N2. apply lookup_snoc_Some in Hi as [[_ Hi]|[_ <-]]; [|by destruct N1].
    apply lookup_snoc_Some in Hj as [[_ Hj]|[_ <-]]; [|by destruct N2]. by apply (sd_distinct _ _ _ St i j e1 e2).
Qed.

(** An entry that is made is added. *)
Lemma started_made s s' D e : started s s' D -> ~ found s e -> e_addr e <> 0 -> types s' !! e_addr e = None ->
  e_bind e ∉ (e_lookup <$> D) ++ (e_bind <$> D) ->
  started s (TState (<[e_addr e := made_as e]> (types s')) (<[e_bind e := e_addr e]> (bound s'))) (D ++ [e]).
Proof.
  intros St Nf Na Hfr Hb. rewrite elem_of_app in Hb.
  assert (Hne : forall u x, types s' !! u = Some x -> e_addr e <> u) by (intros u x Hx Eu; rewrite Eu in Hfr; congruence).
  assert (Hold : forall u x, types s' !! u = Some x -> <[e_addr e := made_as e]> (types s') !! u = Some x)
    by (intros u x Hx; by rewrite lookup_insert_ne by by eapply Hne).
  split; cbn [types bound].
  - intros e' [He|He]%elem_of_app.
    + pose proof (sd_described _ _ _ St e' He) as Hd. unfold described in *. case_decide as Hf; [done|]. cbn [types bound].
      destruct Hd as (H1 & H2 & H3 & H4). split_and!; [done|done|by apply Hold|]. rewrite dlsym_other; [done|].
      intros Eb. apply Hb. right. apply list_elem_of_fmap. exists e'. by rewrite Eb.
    + apply list_elem_of_singleton in He as ->. unfold described. rewrite decide_False by done. cbn [types bound].
      split_and!; [done| |apply lookup_insert_eq|apply dlsym_bound, lookup_insert_eq].
      destruct (types s !! e_addr e) as [x|] eqn:Hx; [|done]. destruct (sd_kept _ _ _ St _ _ Hx) as (x' & Hx' & _). congruence.
  - intros u x Hx. destruct (sd_kept _ _ _ St u x Hx) as (x' & Hx' & Hc). exists x'. split; [by apply Hold|done].
  - intros m Hm. rewrite fmap_app, elem_of_app in Hm. rewrite dlsym_other; [apply (sd_names _ _ _ St); tauto|].
    intros ->. apply Hm. right. by left.
  - intros e' [He|He]%elem_of_app Elb.
    + rewrite dlsym_other; [by apply (sd_resolved _ _ _ St)|]. intros Eb. apply Hb. left. apply list_elem_of_fmap. exists e'. by rewrite Eb.
    + apply list_elem_of_singleton in He as ->. rewrite Elb. apply dlsym_bound, lookup_insert_eq.
  - assert (Hd : forall k e', D !! k = Some e' -> ~ found s e' -> e_addr e' <> e_addr e).
    { intros k e' Hk Ne Eq. pose proof (sd_described _ _ _ St e' (list_elem_of_lookup_2 _ _ _ Hk)) as Hd.
      unfold described in Hd. rewrite decide_False in Hd by done. destruct Hd as (_ & _ & Ht & _). by apply (Hne _ _ Ht). }
    intros i j e1 e2 Hi Hj N1 N2 Eq. apply lookup_snoc_Some in Hi as [[_ Hi]|[-> <-]], Hj as [[_ Hj]|[-> <-]]; [|..|done].
    + by apply (sd_distinct _ _ _ St i j e1 e2).
    + by destruct (Hd i e1 Hi N1).
    + by destruct (Hd j e2 Hj N2).
Qed.

(** The next entry, whose names do not clash with those before. *)
Lemma start_next s s' D lookup symstr n maxoff un related :
  started s s' D -> lookup ∉ e_bind <$> D -> symstr ∉ (e_lookup <$> D) ++ (e_bind <$> D) ->
  wp (lookup_or_CREATE lookup symstr n maxoff un related)
    (fun a s1 => a <> 0 /\ started s s1 (D ++ [RtEntry lookup symstr a maxoff un (padded n related)])) s'.
Proof.
  intros St Hl Hb. unfold lookup_or_CREATE. apply wp_bind, wp_gets.
  pose proof (sd_names _ _ _ St lookup Hl) as El. rewrite El.
  destruct (Z.eqb_spec (dlsym (bound s) lookup) 0) as [Ez|Nz]; cbn [negb].
  2: { apply wp_ret. split; [done|]. by apply started_found. }
  apply wp_bind, wp_gets. set (a := dlalloc (types s') (type_size n)). assert (Na : a <> 0) by apply dlalloc_nonnull.
  rewrite (proj2 (Z.eqb_neq a 0)) by done. unfold wr_type. rewrite (proj2 (Z.eqb_neq a 0)) by done.
  apply wp_bind, wp_modify, wp_bind. unfold do_dlbind. eapply wp_intro; [cbn [bound types]; rewrite dlbind_always; reflexivity|]. apply wp_ret.
  split; [done|]. set (e := RtEntry _ _ _ _ _ _).
  replace (Uniqtype maxoff un 0 _) with (made_as e).
  2: { unfold made_as, e, padded. cbn. by rewrite fmap_app, fmap_replicate. }
  apply (started_made s s' D e); [done| |done|apply dlalloc_fresh|done]. intros Hf. by apply Hf.
Qed.

(** Looking for an entry that is through gives its type. *)
Lemma start_again s s' D e lookup symstr n maxoff un related :
  started s s' D -> e ∈ D -> e_lookup e = lookup -> e_bind e = lookup ->
  wp (lookup_or_CREATE lookup symstr n maxoff un related) (fun a s1 => a = e_addr e /\ s1 = s') s'.
Proof.
  intros St He El Eb. unfold lookup_or_CREATE. apply wp_bind, wp_gets. rewrite <- El, (sd_resolved _ _ _ St e He) by congruence.
  rewrite (proj2 (Z.eqb_neq _ _)) by by apply (entry_nonnull s s' D). by apply wp_ret.
Qed.

(** Replacing the related types of one entry. *)
Section relabel.
Context (s s' : tstate) (D : list rt_entry) (i : nat) (e : rt_entry) (l : list Z).
Context (St : started s s' D) (Hi : D !! i = Some e).

Lemma relabelled_back j e' : <[i := set_related l e]> D !! j = Some e' ->
  exists e0, D !! j = Some e0 /\ e_lookup e' = e_lookup e0 /\ e_bind e' = e_bind e0 /\ e_addr e' = e_addr e0.
Proof. intros [(<- & <- & _)|[_ Hj]]%list_lookup_insert_Some; [by exists e|by exists e']. Qed.

(** If the entries are still described and the types kept, the rest follows. *)
Lemma relabelled t :
  (forall e', e' ∈ <[i := set_related l e]> D -> described s (TState t (bound s')) e') ->
  (forall u x, types s !! u = Some x -> exists x', t !! u = Some x' /\ completed x x') ->
  started s (TState t (bound s')) (<[i := set_related l e]> D).
Proof.
  intros Hd Hk. split; [done|done|..]; cbn [types bound].
  - intros n Hn. apply (sd_names _ _ _ St). intros Hn'. apply Hn. rewrite list_fmap_insert. cbn [set_related e_bind].
    rewrite list_insert_id; [done|]. by rewrite list_lookup_fmap, Hi.
  - intros e' [j Hj]%list_elem_of_lookup Elb. destruct (relabelled_back j e' Hj) as (e0 & Hj0 & E1 & E2 & E3). rewrite E1, E3.
    apply (sd_resolved _ _ _ St); [by eapply list_elem_of_lookup_2|congruence].
  - intros j k e1 e2 Hj Hk' N1 N2 Eq. destruct (relabelled_back j e1 Hj) as (e1' & Hj1 & E1 & _ & E3), (relabelled_back k e2 Hk') as (e2' & Hk2 & F1 & _ & F3).
    apply (sd_distinct _ _ _ St j k e1' e2'); [done..| | |congruence]; unfold found in *; by rewrite <- ?E1, <- ?F1.
Qed.

(** What is related to an entry that was found is not start-up's affair. *)
Lemma relabelled_found : found s e -> started s s' (<[i := set_related l e]> D).
Proof.
  intros Hf. assert (Es : s' = TState (types s') (bound s')) by by destruct s'. rewrite Es. apply relabelled.
  - intros e' [j Hj]%list_elem_of_lookup. rewrite <- Es.
    apply list_lookup_insert_Some in Hj as [(<- & <- & _)|[Nj Hj]]; [|apply (sd_described _ _ _ St); by eapply list_elem_of_lookup_2].
    pose proof (sd_described _ _ _ St e (list_elem_of_lookup_2 _ _ _ Hi)) as Hd. unfold described in *.
    by rewrite decide_True in * by done.
  - apply (sd_kept _ _ _ St).
Qed.
End relabel.

(** Writing one type changes the account of the entry there, if it was made, and of no other. *)
Lemma started_write s s' D i e v x r l : started s s' D -> D !! i = Some e -> e_related e = [0] -> v <> 0 ->
  (found s e -> is_Some (types s !! e_addr e)) -> types s' !! e_addr e = Some x -> t_related x = r :: l -> rel_ptr r = 0 ->
  started s (TState (<[e_addr e := Uniqtype (t_pos_maxoff x) (t_un x) (t_make_precise x) (RelInfo v 0 :: l)]> (types s')) (bound s'))
    (<[i := set_related [v] e]> D).
Proof.
  intros St Hi Er Nv Hin Hx El Hr. set (x' := Uniqtype _ _ _ _). apply relabelled; [done|done|..].
  - intros e' [j Hj]%list_elem_of_lookup. apply list_lookup_insert_Some in Hj as [(<- & <- & _)|[Nj Hj]].
    + pose proof (sd_described _ _ _ St e (list_elem_of_lookup_2 _ _ _ Hi)) as Hd. unfold described in *. cbn [types bound].
      destruct (decide (found s e)) as [Hf|Hf]; [by rewrite decide_True by done|]. rewrite decide_False by done.
      destruct Hd as (H1 & H2 & H3 & H4). split_and!; [done|done| |done]. cbn [e_addr set_related]. rewrite lookup_insert_eq.
      rewrite Hx in H3. injection H3 as ->. unfold x', made_as in *. cbn in El |- *. rewrite Er in El. cbn in El. by injection El as _ <-.
    + pose proof (sd_described _ _ _ St e' (list_elem_of_lookup_2 _ _ _ Hj)) as Hd. unfold described in *. cbn [types bound].
      case_decide as Hf; [done|]. destruct Hd as (H1 & H2 & H3 & H4). split_and!; [done|done| |done].
      rewrite lookup_insert_ne; [done|]. intros Eq. destruct (decide (found s e)) as [Hf'|Nf].
      * destruct (Hin Hf') as [y Hy]. congruence.
      * by apply Nj, (sd_distinct _ _ _ St i j e e').
  - intros u y Hy. destruct (sd_kept _ _ _ St u y Hy) as (y' & Hy' & Hc). destruct (decide (u = e_addr e)) as [->|Nu].
    + exists x'. split; [apply lookup_insert_eq|]. rewrite Hx in Hy'. injection Hy' as <-.
      destruct Hc as (C1 & C2 & C3 & C4). split_and!; [done..|]. right. exists r, l, v. split_and!; [|done..].
      destruct C4 as [<-|(r0 & l0 & v0 & _ & _ & Nv0 & E0)]; [done|]. rewrite El in E0. injection E0 as -> _. done.
    + exists y'. split; [by rewrite lookup_insert_ne|done].
Qed.

(** Start-up writes through this symbol: a loaded object that defines it has a
    type there, with a first related entry. *)
Definition usable_if_found (s : tstate) (n : string) : Prop :=
  dlsym (bound s) n <> 0 -> exists x r l, types s !! dlsym (bound s) n = Some x /\ t_related x = r :: l.

(** Setting the counterpart of an entry: an entry that was made has it afterwards. *)
Lemma start_counterpart s s' D i e v : started s s' D -> D !! i = Some e -> e_related e = [0] -> v <> 0 ->
  usable_if_found s (e_lookup e) ->
  wp (set_counterpart (e_addr e) v) (fun _ s1 => started s s1 (<[i := set_related [v] e]> D)) s'.
Proof.
  intros St Hi Er Nv Hu. pose proof (list_elem_of_lookup_2 _ _ _ Hi) as He. pose proof (sd_described _ _ _ St e He) as Hd.
  assert (Hin : found s e -> exists y r0 l0, types s !! e_addr e = Some y /\ t_related y = r0 :: l0).
  { intros Hf. unfold described in Hd. rewrite decide_True in Hd by done. rewrite Hd. by apply Hu. }
  assert (Hx : exists x r l, types s' !! e_addr e = Some x /\ t_related x = r :: l /\ (~ found s e -> rel_ptr r = 0)).
  { unfold described in Hd. case_decide as Hf.
    - destruct (Hin Hf) as (y & r0 & l0 & Hy & Hl). destruct (sd_kept _ _ _ St _ _ Hy) as (y' & Hy' & _ & _ & _ & [E0|(r1 & l1 & v1 & _ & _ & _ & E0)]).
      + exists y', r0, l0. split_and!; [done|congruence|done].
      + by exists y', (RelInfo v1 0), l1.
    - destruct Hd as (_ & _ & Ht & _). exists (made_as e), (RelInfo 0 0), []. split_and!; [done| |done]. unfold made_as. cbn. by rewrite Er. }
  destruct Hx as (x & r & l & Hx & El & Hm). unfold set_counterpart. apply wp_bind. eapply wp_intro; [by apply rd_type_ok|]. rewrite El.
  destruct (Z.eqb_spec (rel_ptr r) 0) as [Ez|Nz].
  - unfold wr_type. rewrite (proj2 (Z.eqb_neq (e_addr e) 0)) by by apply (entry_nonnull s s' D). apply wp_modify.
    apply (started_write s s' D i e v x r l); try done. intros Hf. destruct (Hin Hf) as (y & _ & _ & Hy & _). by exists y.
  - apply wp_ret, relabelled_found; [done|done|]. destruct (decide (found s e)) as [|Nf]; [done|]. by destruct (Nz (Hm Nf)).
Qed.
End facts.
