(* ===== verification/RtTypesTheorems.v ===== *)
(** The contract of the types made at run time, with instances. *)
From stdpp Require Import strings pretty.
From S2P Require Import Prelude Uniqtype Subobject RtTypes RtTypesFacts Demo.

(** ** Steps of start-up *)

Ltac names_differ := apply (bool_decide_unpack _); vm_compute; exact I.
Ltac start_entry St a N :=
  apply wp_bind; eapply wp_mono; [apply (start_next _ _ _ _ _ _ _ _ _ St); names_differ|];
  clear St; intros a ? [N St]; unfold padded in St; simpl in St.
Ltac start_pair St i v N Hu :=
  apply wp_bind; eapply wp_mono;
    [eapply (start_counterpart _ _ _ i _ v St eq_refl eq_refl N); apply Hu; cbn [e_lookup]; names_differ|];
  clear St; intros ? ? St; cbn in St.

Section theorems.
Context {E : DlEnv} {L : DlLaws E}.

(** C25.  Asking for a type (an array, an unbounded or flexible array, a
    pointer, a subprogram or a union) whose symbol fits the name buffer returns
    a type; asking again returns the same one and makes nothing; and every type
    that was there is as it was. *)
Theorem types_made_once {B : Build} r s :
  request_ok s r ->
  exists a s', make r s = Done (a, s') /\ a <> 0 /\ make r s' = Done (a, s') /\
    (forall u x, types s !! u = Some x -> types s' !! u = Some x) /\
    (dlsym (bound s) (symbol s r) = 0 -> types s' !! a = Some (record s r)).
Proof.
  intros R. rewrite make_ok by done. unfold made.
  destruct (Z.eqb_spec (dlsym (bound s) (symbol s r)) 0) as [Ez|Nz].
  - exists (new_type s r), (with_type s r). split_and!; [done|apply dlalloc_nonnull| | |].
    + rewrite make_ok by by apply request_ok_stable. unfold made. rewrite symbol_stable by done.
      assert (Eb : dlsym (bound (with_type s r)) (symbol s r) = new_type s r) by apply dlsym_bound, lookup_insert_eq.
      rewrite Eb, (proj2 (Z.eqb_neq _ 0)); [done|apply dlalloc_nonnull].
    + intros u x. apply with_type_old.
    + intros _. apply lookup_insert_eq.
  - exists (dlsym (bound s) (symbol s r)), s. split_and!; [done|done| |done|done].
    rewrite make_ok by done. unfold made. by rewrite (proj2 (Z.eqb_neq _ 0)).
Qed.

(** C26.  While types have distinct names and every symbol for an array is
    bound to such an array, the array type returned has the length asked for,
    the element type asked for and their product as its size; symbols are
    still bound to what they say.  If the size does not overflow 32 bits and the element
    type is laid out as the subobject search expects, so is the array. *)
Theorem array_types_describe {B : Build} s t n d :
  arrays_ok s -> distinct_names s -> closed s -> request_ok s (Rarray t n) -> is_len n ->
  exists a s', make (Rarray t n) s = Done (a, s') /\ arrays_ok s' /\
    types s' !! a = Some (Uniqtype (wrap32 (n * size_of s t)) (Karray n) 0 [RelInfo t 0]) /\
    (size_of s t < 2 ^ 32 -> n * size_of s t < 2 ^ 32 -> @nested (env_of s) d t -> @nested (env_of s') (S d) a).
Proof.
  intros A D C R Hn. destruct (array_made s t n A D R Hn) as (a & s' & Em & Ha & A' & Hs').
  exists a, s'. split_and!; [done..|]. intros H32 Ho N. destruct R as (Hp & _ & Sz & _).
  destruct (Hp t ltac:(by left)) as [Nt [x Hx]]. destruct Sz as (_ & _ & Hpos & _). destruct Hn as [Hn _].
  assert (Hold : forall v, is_Some (types s !! v) \/ v = 0 -> types s' !! v = types s !! v).
  { intros v Hv. destruct Hs' as [-> | ->]; [done|]. destruct Hv as [[y Hy]| ->].
    - rewrite Hy. by apply with_type_old.
    - unfold with_type. cbn [types]. rewrite lookup_insert_ne; [done|apply dlalloc_nonnull]. }
  assert (Et : size_of s' t = size_of s t) by (unfold size_of; by rewrite Hold by (left; by exists x)).
  assert (Eo : wrap32 (n * size_of s t) = n * size_of s t) by (apply wrap_small; nia).
  assert (Ea : size_of s' a = n * size_of s t) by (unfold size_of at 1; rewrite Ha; exact Eo).
  assert (Er : match [RelInfo t 0] !! Z.to_nat 0 with Some r => rel_ptr r | None => 0 end = t) by done.
  apply nested_array; cbn -[size_of]; rewrite ?Ha; cbn -[size_of]; rewrite ?Er.
  - done.
  - done.
  - lia.
  - rewrite Et. lia.
  - rewrite Et, Ea. lia.
  - apply (nested_extend s); [done|done|left; by exists x|done].
Qed.

(** The types start-up provides, with the values [v] of the variables: symbol
    looked for, symbol bound, address, size, kind and related types of the one
    made when the symbol is not found. *)
Definition rt_entries (v : rt_vars) : list rt_entry :=
  [ RtEntry "__uniqtype__void" "__uniqtype__void" (p_void v) 0 Kvoid [0];
    RtEntry "__uniqtype____uninterpreted_byte" "__uniqtype____uninterpreted_byte" (p_uninterpreted_byte v) 1 (Kbase 0) [0];
    RtEntry "__uniqtype__signed_char$$8" "__uniqtype__signed_char$$8" (p_signed_char v) 1 (Kbase DW_ATE_signed_char) [p_unsigned_char v];
    RtEntry "__uniqtype__unsigned_char$$8" "__uniqtype__unsigned_char$$8" (p_unsigned_char v) 1 (Kbase DW_ATE_unsigned_char) [p_signed_char v];
    RtEntry "__uniqtype__uint$$64" "__uniqtype__uint$$64" (p_long_unsigned_int v) 8 (Kbase DW_ATE_unsigned) [p_long_int v];
    RtEntry "__uniqtype__int$$64" "__uniqtype__int$$64" (p_long_int v) 8 (Kbase DW_ATE_signed) [p_long_unsigned_int v];
    RtEntry "__uniqtype____PTR_signed_char$$8" "__uniqtype____PTR_signed_char$$8" (p_PTR_signed_char v) 8 (Kaddress 1 0) [p_signed_char v];
    RtEntry "__uniqtype____PTR___PTR_signed_char$$8" "__uniqtype____PTR___PTR_signed_char$$8" (p_PTR_PTR_signed_char v) 8 (Kaddress 2 0) [p_PTR_signed_char v];
    RtEntry "__uniqtype__Elf64_auxv_t" "__uniqtype__Elf64_auxv_t" (p_Elf64_auxv_t v) 16 (Kcomposite 2 0) [p_long_unsigned_int v; p_long_unsigned_int v];
    RtEntry "__uniqtype____ARR0_signed_char$$8" "__uniqtype____ARR0_signed_char" (p_ARR0_signed_char v) UNIQTYPE_POS_MAXOFF_UNBOUNDED
      (Karray UNIQTYPE_ARRAY_LENGTH_UNBOUNDED) [p_signed_char v; 0] ].

(** The symbols whose types start-up may complete. *)
Definition completed_names : list string :=
  ["__uniqtype__signed_char$$8"; "__uniqtype__unsigned_char$$8"; "__uniqtype__uint$$64"; "__uniqtype__int$$64"].

(** C27.  Start-up provides the ten types the library uses itself
    ([rt_entries]).  A symbol that the loaded objects define gives the variable
    its address.  For one they do not define a type of the right size, kind and
    related types is made at a fresh address and bound (the array type under a
    symbol other than the one looked for), no two at the same address.  Every
    type that was there stays as it was, but for a null first related type that
    may have been set; looking for one of the symbols afterwards gives the variable's
    value, the array apart; [intptr_t] is only looked for.  All that is asked of
    the loaded objects is that where they define one of the four integer types
    there is a type with a first related entry. *)
Theorem rt_types_ready {B : Build} s :
  (forall n, n ∈ completed_names -> usable_if_found s n) -> dlcreate_ok = true ->
  exists v s', init_rt_uniqtypes_obj s = Done (v, s') /\ started s s' (rt_entries v) /\
    p_intptr_t v = dlsym (bound s) "__uniqtype__intptr_t".
Proof.
  intros Hu Hd. apply wp_Done. unfold init_rt_uniqtypes_obj. rewrite Hd. cbn [negb].
  pose proof (started_nil s) as St.
  start_entry St void N1. start_entry St byte N2. start_entry St schar N3. start_entry St uchar N4.
  apply wp_bind. eapply wp_mono; [eapply (start_again _ _ _ _ _ _ _ _ _ _ St); [by right; left|done|done]|]. intros ? ? [-> ->]. cbn [e_addr].
  start_pair St 3%nat schar N3 Hu. start_pair St 2%nat uchar N4 Hu.
  start_entry St ulong N5. start_entry St long N6.
  start_pair St 4%nat long N6 Hu. start_pair St 5%nat ulong N5 Hu.
  start_entry St ptr N7. start_entry St ptrptr N8. start_entry St auxv N9. start_entry St arr0 N10.
  apply wp_bind, wp_gets, wp_ret. split; [exact St|]. cbn [p_intptr_t]. apply (sd_names _ _ _ St). names_differ.
Qed.
End theorems.

(** The name alone decides.  A flexible array asked for after an unbounded one
    of the same element type is the unbounded one, without the function that
    makes it precise. *)
Lemma flexible_is_unbounded {E : DlEnv} {L : DlLaws E} {B : Build} s t :
  request_ok s (Runbounded t) -> dlsym (bound s) (symbol s (Runbounded t)) = 0 ->
  exists a s', make (Runbounded t) s = Done (a, s') /\ make (Rflexible t) s' = Done (a, s') /\
    exists x, types s' !! a = Some x /\ t_make_precise x = 0.
Proof.
  intros R Ez. exists (new_type s (Runbounded t)), (with_type s (Runbounded t)). split_and!.
  - rewrite make_ok by done. unfold made. by rewrite Ez.
  - pose proof (request_ok_stable _ _ R Ez) as R'. rewrite make_ok by exact R'. unfold made.
    assert (Eb : dlsym (bound (with_type s (Runbounded t))) (symbol (with_type s (Runbounded t)) (Rflexible t)) =
      new_type s (Runbounded t)).
    { change (symbol (with_type s (Runbounded t)) (Rflexible t)) with (symbol (with_type s (Runbounded t)) (Runbounded t)).
      rewrite symbol_stable by done. apply dlsym_bound, lookup_insert_eq. }
    rewrite Eb, (proj2 (Z.eqb_neq _ 0)); [done|apply dlalloc_nonnull].
  - eexists. split; [apply lookup_insert_eq|done].
Qed.

(** Names leave out the summary code of a type: arrays of two types with the
    same simple name share one array type. *)
Lemma same_name_same_array {E : DlEnv} {L : DlLaws E} {B : Build} s t u n :
  request_ok s (Rarray t n) -> request_ok (with_type s (Rarray t n)) (Rarray u n) -> is_Some (types s !! u) ->
  dlsym (bound s) (symbol s (Rarray t n)) = 0 -> UNIQTYPE_NAME (bound s) u = UNIQTYPE_NAME (bound s) t ->
  exists a s', make (Rarray t n) s = Done (a, s') /\ make (Rarray u n) s' = Done (a, s') /\
    exists x, types s' !! a = Some x /\ t_related x = [RelInfo t 0].
Proof.
  intros R R' Hu Ez En. exists (new_type s (Rarray t n)), (with_type s (Rarray t n)). split_and!.
  - rewrite make_ok by done. unfold made. by rewrite Ez.
  - rewrite make_ok by exact R'. unfold made.
    assert (Es : symbol (with_type s (Rarray t n)) (Rarray u n) = symbol s (Rarray t n)).
    { cbn [symbol]. by rewrite with_type_name, En. }
    assert (Eb : dlsym (bound (with_type s (Rarray t n))) (symbol s (Rarray t n)) = new_type s (Rarray t n))
      by apply dlsym_bound, lookup_insert_eq.
    rewrite Es, Eb, (proj2 (Z.eqb_neq _ 0)); [done|apply dlalloc_nonnull].
  - eexists. split; [apply lookup_insert_eq|done].
Qed.

(** ** Instances *)

Definition top_type (h : gmap Z uniqtype) : Z := map_fold (fun k _ m => Z.max k m) 0x5000 h.

Lemma top_type_spec h : 0x5000 <= top_type h /\ forall k q, h !! k = Some q -> k <= top_type h.
Proof.
  unfold top_type. apply (map_fold_weak_ind (fun m h => 0x5000 <= m /\ forall k q, h !! k = Some q -> k <= m)).
  - split; [done|]. intros k q. by rewrite lookup_empty.
  - intros i x h' m Hi [Hm IH]. split; [lia|]. intros k q [[-> _]|[_ Hk]]%lookup_insert_Some; [lia|]. specialize (IH k q Hk). lia.
Qed.

(** The program defines a 4-byte integer type at 0x1000. *)
#[local] Instance demo_dl : DlEnv := {|
  dlsym b n := default (if bool_decide (n = "__uniqtype__int$$32") then 0x1000 else 0) (b !! n);
  dlalloc h sz := top_type h + 8;
  dlbind_ok _ _ := true;
  UNIQTYPE_NAME _ u := if u =? 0x1000 then "int$$32" else "t" +:+ pretty u;
  NAME_FOR_UNIQTYPE _ u := if u =? 0x1000 then "int$$32" else "t" +:+ pretty u;
  UNIQTYPE_ARRAY_LENGTH_UNBOUNDED := 2 ^ 31 - 1;
  UNIQTYPE_POS_MAXOFF_UNBOUNDED := 2 ^ 32 - 1;
  rec_is_pointer x := match t_un x with Kaddress _ _ => true | _ => false end;
  ULTIMATE_POINTEE_TYPE x := match t_related x with [_; r] => rel_ptr r | _ => 0 end;
  offsetof_related := 32;
  sizeof_rel_info := 16;
  make_array_precise_with_memory_bounds_ptr := 0x4000;
  dladdr_name _ _ := None;
  dlcreate_ok := true;
|}.
#[local] Instance demo_dl_laws : DlLaws demo_dl.
Proof.
  split; cbn.
  - by intros b n a ->.
  - intros b n m a Hn. by rewrite lookup_insert_ne.
  - intros h sz. destruct (h !! (top_type h + 8)) as [x|] eqn:Hx; [|done]. apply top_type_spec in Hx. lia.
  - intros h sz. pose proof (top_type_spec h). lia.
  - done.
  - done.
  - done.
Qed.

Definition int_only : tstate := TState {[0x1000 := Uniqtype 4 (Kbase DW_ATE_signed) 0 [RelInfo 0x1000 0]]} ∅.

Lemma int_lookup u x : types int_only !! u = Some x -> u = 0x1000 /\ x = Uniqtype 4 (Kbase DW_ATE_signed) 0 [RelInfo 0x1000 0].
Proof. unfold int_only. cbn [types]. intros [<- <-]%lookup_singleton_Some. done. Qed.

Lemma int_array_ok : request_ok int_only (Rarray 0x1000 10).
Proof.
  split_and!.
  - intros t ->%list_elem_of_singleton. split; [done|]. by eexists.
  - apply Nat2Z.inj_lt. rewrite NAME_BUF_eq. by vm_compute.
  - unfold sized. split_and!; by vm_compute.
  - by vm_compute.
Qed.

Lemma types_made_once_witness :
  exists a s', make (B := debug) (Rarray 0x1000 10) int_only = Done (a, s') /\ a <> 0 /\
    make (B := debug) (Rarray 0x1000 10) s' = Done (a, s') /\
    (forall u x, types int_only !! u = Some x -> types s' !! u = Some x) /\
    (dlsym (bound int_only) (symbol int_only (Rarray 0x1000 10)) = 0 ->
     types s' !! a = Some (record int_only (Rarray 0x1000 10))).
Proof. apply (types_made_once (B := debug) (Rarray 0x1000 10) int_only), int_array_ok. Defined.

Lemma array_types_describe_witness :
  exists a s', make (B := debug) (Rarray 0x1000 10) int_only = Done (a, s') /\ arrays_ok s' /\
    types s' !! a = Some (Uniqtype (wrap32 (10 * size_of int_only 0x1000)) (Karray 10) 0 [RelInfo 0x1000 0]) /\
    (size_of int_only 0x1000 < 2 ^ 32 -> 10 * size_of int_only 0x1000 < 2 ^ 32 -> @nested (env_of int_only) 1 0x1000 -> @nested (env_of s') 2 a).
Proof.
  apply (array_types_describe (B := debug) int_only 0x1000 10 1).
  - intros k n b _ Hb Nb. exfalso. apply Nb. rewrite <- Hb. cbn. rewrite lookup_empty. cbn.
    rewrite bool_decide_eq_false_2; [done|]. unfold array_symbol. destruct (_ =? _); discriminate.
  - intros u v [x [-> _]%int_lookup] [y [-> _]%int_lookup]. done.
  - intros u x r [-> ->]%int_lookup ->%list_elem_of_singleton. by eexists.
  - apply int_array_ok.
  - split; by vm_compute.
Defined.

(** The program also defines the signed character type, without its counterpart. *)
Definition with_char : tstate :=
  TState {[0x1000 := Uniqtype 4 (Kbase DW_ATE_signed) 0 [RelInfo 0x1000 0];
           0x2000 := Uniqtype 1 (Kbase DW_ATE_signed_char) 0 [RelInfo 0 0]]} {["__uniqtype__signed_char$$8" := 0x2000]}.

Lemma rt_types_ready_witness :
  exists v s', init_rt_uniqtypes_obj with_char = Done (v, s') /\ started with_char s' (rt_entries v) /\
    p_intptr_t v = dlsym (bound with_char) "__uniqtype__intptr_t".
Proof.
  apply (rt_types_ready (B := debug) with_char); [|reflexivity]. intros n Hn Nn.
  repeat (apply elem_of_cons in Hn as [->|Hn]); [|by destruct Nn..|by apply not_elem_of_nil in Hn].
  eexists _, _, _. split; reflexivity.
Defined.

(** The type found is completed with the one made. *)
Example char_completed :
  match init_rt_uniqtypes_obj with_char with
  | Done (v, s') => p_signed_char v = 0x2000 /\ t_related <$> types s' !! 0x2000 = Some [RelInfo (p_unsigned_char v) 0]
  | _ => False
  end.
Proof. by vm_compute. Qed.
