(* ===== verification/MetaDso.v ===== *)
(** Finding the meta-object of a loaded object: src/src/meta-dso.c.

    A meta-object is looked for below [META_BASE], first by the build ID of the
    object and then by its path.  Path names are put together in a buffer of
    4096 bytes with [strncat] and a count of the bytes left; a write beyond the
    buffer is [None].  The environment variable and the files are parameters:
    [META_BASE] has the value of the first call, which the code keeps; opening,
    [fstat] and [stat] answer by path or descriptor.  Descriptors that are
    closed again are not tracked, and debugging output is dropped. *)
From Stdlib Require Import Ascii.
From stdpp Require Import strings.
From S2P Require Import Prelude.

Class MetaFiles := {
  getenv_META_BASE : option string;
  (** [open(path, O_RDONLY)], -1 when it fails *)
  open_rdonly : string -> Z;
  (** the modification time, when the call succeeds *)
  fstat_mtime : Z -> option Z;
  stat_mtime : string -> option Z;
  (** what the variable for the base object's times holds before it is written *)
  stale_mtime : Z;
}.

Definition META_OBJ_SUFFIX : string := "-meta.so".
Definition PATH_BUFFER_SIZE : Z := 4096.
Definition BUILD_ID_INFIX : string := "/.build-id/".

Section ops.
Context {MF : MetaFiles}.

Definition ensure_meta_base : string := default "/usr/lib/meta" getenv_META_BASE.

Definition strlen (s : string) : Z := Z.of_nat (String.length s).
(** At most [n] characters of [src] are appended; the terminator must fit, too. *)
Definition strncat (outbuf src : string) (n : Z) : option string :=
  let part := if strlen src <=? n then src else String.substring 0 (Z.to_nat n) src in
  let r := (outbuf +:+ part)%string in
  if strlen r <? PATH_BUFFER_SIZE then Some r else None.
(** [snprintf] at the end of the buffer, told that [n] bytes are left. *)
Definition snprintf_at_end (outbuf text : string) (n : Z) : option string :=
  if n =? 0 then Some outbuf else strncat outbuf text (n - 1).
Definition consume (bytes_left len : Z) : Z := bytes_left - (if bytes_left <? len then bytes_left else len).

(** What is in the buffer; nothing is written for a name that is not absolute. *)
Definition meta_libfile_name_by_path (objname : string) : option string :=
  match objname with
  | String "/" _ =>
    let bytes_left := PATH_BUFFER_SIZE - 1 - 1 in
    outbuf ← strncat "" ensure_meta_base bytes_left;
    let bytes_left := consume bytes_left (strlen ensure_meta_base) in
    outbuf ← strncat outbuf objname bytes_left;
    let bytes_left := consume bytes_left (strlen objname) in
    strncat outbuf META_OBJ_SUFFIX bytes_left
  | _ => Some ""
  end.

(** [%02hhx] *)
Definition hex_digit (d : Z) : ascii := ascii_of_nat (Z.to_nat (if d <? 10 then 48 + d else 87 + d)).
Definition hex_byte (b : Z) : string :=
  String (hex_digit ((b mod 256) / 16)) (String (hex_digit (b mod 16)) "").
Definition hex_bytes (l : list Z) : string := foldr (fun b s => hex_byte b +:+ s)%string "" l.
Definition build_id_path (build_id : list Z) : string :=
  (hex_bytes (take 1 build_id) +:+ "/" +:+ hex_bytes (drop 1 build_id))%string.

Definition meta_libfile_name_by_build_id (build_id : list Z) : option string :=
  let bytes_left := PATH_BUFFER_SIZE - 1 - 1 in
  outbuf ← strncat "" ensure_meta_base bytes_left;
  let bytes_left := consume bytes_left (strlen ensure_meta_base) in
  outbuf ← strncat outbuf BUILD_ID_INFIX bytes_left;
  let bytes_left := consume bytes_left (strlen BUILD_ID_INFIX) in
  outbuf ← snprintf_at_end outbuf (build_id_path build_id) bytes_left;
  let bytes_left := wrap32 (bytes_left - 40) in
  strncat outbuf META_OBJ_SUFFIX bytes_left.

(** One turn of the loop over the candidates: the descriptor, if this one is taken. *)
Definition try_candidate (objname candidate : string) : option Z :=
  let fd_meta := open_rdonly candidate in
  if fd_meta =? -1 then None else
  meta_time ← fstat_mtime fd_meta;
  if meta_time <? default stale_mtime (stat_mtime objname) then None else Some fd_meta.

Fixpoint first_candidate (objname : string) (candidates : list string) : Z :=
  match candidates with
  | [] => -1
  | c :: candidates => match try_candidate objname c with Some fd => fd | None => first_candidate objname candidates end
  end.

Definition have_build_id (build_id : list Z) : bool := negb (forallb (Z.eqb 0) build_id).

Definition find_and_open_meta_libfile (objname : string) (build_id : list Z) : option Z :=
  by_build_id ← (if have_build_id build_id then meta_libfile_name_by_build_id build_id else Some ""%string);
  by_path ← meta_libfile_name_by_path objname;
  Some (first_candidate objname (if have_build_id build_id then [by_build_id; by_path] else [by_path])).
End ops.

(** ** Names and candidates *)

Section facts.
Context {MF : MetaFiles}.

Lemma strlen_app s t : strlen (s +:+ t) = strlen s + strlen t.
Proof.
  unfold strlen. induction s as [|c s IH]; [done|]. change (String c s +:+ t)%string with (String c (s +:+ t)).
  cbn [String.length]. rewrite !Nat2Z.inj_succ, IH. lia.
Qed.

Lemma strncat_fits outbuf src n : strlen src <= n -> strlen outbuf + strlen src < PATH_BUFFER_SIZE ->
  strncat outbuf src n = Some (outbuf +:+ src)%string.
Proof.
  intros Hn Hl. unfold strncat. rewrite (proj2 (Z.leb_le _ _) Hn), strlen_app.
  by rewrite (proj2 (Z.ltb_lt _ _)).
Qed.

(** A path that fits the buffer is base, object name and suffix. *)
Lemma name_by_path rest : let objname := String "/" rest in
  strlen ensure_meta_base + strlen objname + strlen META_OBJ_SUFFIX <= PATH_BUFFER_SIZE - 2 ->
  meta_libfile_name_by_path objname = Some (ensure_meta_base +:+ objname +:+ META_OBJ_SUFFIX)%string.
Proof.
  intros objname Hl. assert (0 <= strlen ensure_meta_base /\ 0 <= strlen objname) by (unfold strlen; lia).
  assert (Es : strlen META_OBJ_SUFFIX = 8) by done. assert (E0 : strlen "" = 0) by done. unfold PATH_BUFFER_SIZE in *.
  unfold meta_libfile_name_by_path. subst objname. set (objname := String "/" rest) in *. unfold PATH_BUFFER_SIZE.
  rewrite strncat_fits by (unfold PATH_BUFFER_SIZE; lia). cbn [mbind option_bind]. change ("" +:+ ensure_meta_base)%string with ensure_meta_base.
  unfold consume. rewrite (proj2 (Z.ltb_ge _ (strlen ensure_meta_base))) by lia.
  rewrite strncat_fits by (unfold PATH_BUFFER_SIZE; lia). cbn [mbind option_bind].
  rewrite (proj2 (Z.ltb_ge _ (strlen objname))) by lia. rewrite strncat_fits by (rewrite ?strlen_app; unfold PATH_BUFFER_SIZE; lia).
  by rewrite string_app_assoc.
Qed.

(** The first candidate that opens, can be examined and is not older than the
    object is taken; -1 means that there is none. *)
Lemma first_candidate_ok objname l :
  (exists l1 c l2 fd, l = l1 ++ c :: l2 /\ Forall (fun c => try_candidate objname c = None) l1 /\
     try_candidate objname c = Some fd /\ first_candidate objname l = fd) \/
  (Forall (fun c => try_candidate objname c = None) l /\ first_candidate objname l = -1).
Proof.
  induction l as [|c l IH]; [by right|]. cbn [first_candidate]. destruct (try_candidate objname c) as [fd|] eqn:Ec.
  - left. exists [], c, l, fd. by split_and!.
  - destruct IH as [(l1 & c' & l2 & fd & -> & F & Et & Ef)|[F Ef]]; [left|right].
    + exists (c :: l1), c', l2, fd. split_and!; [done|by constructor|done..].
    + split; [by constructor|done].
Qed.
End facts.

(** After a base directory of 4044 characters the count of bytes left goes
    below zero, and the suffix is written beyond the buffer. *)
Lemma build_id_name_overflows :
  let long := {| getenv_META_BASE := Some (String.concat "" (replicate 4044 "x")%string); open_rdonly _ := -1; fstat_mtime _ := None;
                 stat_mtime _ := None; stale_mtime := 0 |} in
  @meta_libfile_name_by_build_id long (replicate 20 1) = None.
Proof. by vm_compute. Qed.

Example names_of_ls :
  let unset := {| getenv_META_BASE := None; open_rdonly _ := -1; fstat_mtime _ := None; stat_mtime _ := None; stale_mtime := 0 |} in
  @meta_libfile_name_by_build_id unset (0x2f :: replicate 19 0xa0) =
    Some "/usr/lib/meta/.build-id/2f/a0a0a0a0a0a0a0a0a0a0a0a0a0a0a0a0a0a0a0-meta.so"%string /\
  @meta_libfile_name_by_path unset "/bin/ls" = Some "/usr/lib/meta/bin/ls-meta.so"%string.
Proof. by vm_compute. Qed.
