(* ===== verification/StaticData.v ===== *)
(** Static data: src/src/allocators/static-file.c, static-segment.c,
    static-section.c and static-symbol.c, with the opening of an object's
    meta-object from src/src/meta-dso-util.c.

    A loaded object is a bigalloc for the file inside the mapping that holds
    it, with bigallocs for its segments inside it and for its sections inside
    the segments.  Below that, a segment's sorted metavector, made ahead of
    time and found in a meta-object, names the symbols and relocation targets.

    The files' metadata are a map from addresses; a pointer to librunt's
    [struct file_metadata] and one to the [struct allocs_file_metadata] around
    it are the same key, and reading the former's fields through the latter
    gives what the environment says.  librunt, the loader, libdl and the contents of ELF
    tables are the parameters of [StaticEnv]; librunt calls back into the
    functions here when it sets up a file.  The names of mappings come from the
    kernel.  Debugging output is dropped. *)
From stdpp Require Import strings.
From Stdlib Require Import Strings.HexString.
From S2P Require Import Prelude Vas BigAlloc PageIndex PageIndexQuery MappingSeq Mmap Brk AllocSites.
From S2P Require Import Uniqtype Subobject Query MetaDso.

(** ** ELF data *)

Record Elf_Phdr := Phdr { p_type : Z; p_vaddr : Z; p_memsz : Z }.
Definition PT_LOAD : Z := 1.

(** A section header, with its address. *)
Record Elf_Shdr := Shdr { sh_self : Z; sh_flags : Z; sh_addr : Z; sh_size : Z }.
Definition SHF_ALLOC : Z := 2.

Record Elf_Sym := Sym { sy_value : Z; sy_size : Z }.

(** [union sym_or_reloc_rec]; the last kind stands for the values that are not one of the enumeration's. *)
Inductive sym_kind := REC_DYNSYM | REC_SYMTAB | REC_EXTRASYM | REC_UNKNOWN.
Inductive sym_or_reloc_rec :=
| RelocRec (base_vaddr size : Z)
| SymRec (kind : sym_kind) (idx uniqtype_ptr_bits_no_lowbits : Z).
Definition sizeof_rec : Z := 8.

Record segment_metadata := SegmentMetadata { phdr_idx : Z; metavector : Z; metavector_size : Z }.

Record allocs_file_metadata := AllocsFile {
  meta_obj_handle : Z;
  extrasym : Z;
  extrastr : Z;
  frames_info : Z;
  nframes : Z;
  m_l_addr : Z;
  m_filename : string;
  m_load_site : Z;
  m_phdrs : list Elf_Phdr;
  m_shdrs : list Elf_Shdr;
  m_dynsym : Z;
  m_symtab : Z;
  m_build_id : list Z;
}.

Definition set_meta (h x y : Z) (f : allocs_file_metadata) : allocs_file_metadata :=
  AllocsFile h x y (frames_info f) (nframes f) (m_l_addr f) (m_filename f) (m_load_site f) (m_phdrs f) (m_shdrs f)
    (m_dynsym f) (m_symtab f) (m_build_id f).
Definition set_frames (p n : Z) (f : allocs_file_metadata) : allocs_file_metadata :=
  AllocsFile (meta_obj_handle f) (extrasym f) (extrastr f) p n (m_l_addr f) (m_filename f) (m_load_site f) (m_phdrs f) (m_shdrs f)
    (m_dynsym f) (m_symtab f) (m_build_id f).

Record sstate := SState {
  s_brk : bstate;
  s_sites : sites;
  afiles : gmap Z allocs_file_metadata;
  (** [m.segments] of the files, by address *)
  segments : gmap Z segment_metadata;
  executable_file_bigalloc : Z;
  executable_data_segment_bigalloc : Z;
  ld_so_malloc_index_info : Z;
  __liballocs_hit_static_case : Z;
  __liballocs_aborted_static : Z;
}.

Definition set_s_brk (b : bstate) (s : sstate) : sstate :=
  SState b (s_sites s) (afiles s) (segments s) (executable_file_bigalloc s) (executable_data_segment_bigalloc s)
    (ld_so_malloc_index_info s) (__liballocs_hit_static_case s) (__liballocs_aborted_static s).
Definition set_s_sites (x : sites) (s : sstate) : sstate :=
  SState (s_brk s) x (afiles s) (segments s) (executable_file_bigalloc s) (executable_data_segment_bigalloc s)
    (ld_so_malloc_index_info s) (__liballocs_hit_static_case s) (__liballocs_aborted_static s).
Definition set_afile (p : Z) (f : allocs_file_metadata) (s : sstate) : sstate :=
  SState (s_brk s) (s_sites s) (<[p := f]> (afiles s)) (segments s) (executable_file_bigalloc s)
    (executable_data_segment_bigalloc s) (ld_so_malloc_index_info s) (__liballocs_hit_static_case s)
    (__liballocs_aborted_static s).
Definition set_segment (p : Z) (g : segment_metadata) (s : sstate) : sstate :=
  SState (s_brk s) (s_sites s) (afiles s) (<[p := g]> (segments s)) (executable_file_bigalloc s)
    (executable_data_segment_bigalloc s) (ld_so_malloc_index_info s) (__liballocs_hit_static_case s)
    (__liballocs_aborted_static s).
Definition set_executable_file (b : Z) (s : sstate) : sstate :=
  SState (s_brk s) (s_sites s) (afiles s) (segments s) b (executable_data_segment_bigalloc s)
    (ld_so_malloc_index_info s) (__liballocs_hit_static_case s) (__liballocs_aborted_static s).
Definition set_executable_data_segment (b : Z) (s : sstate) : sstate :=
  SState (s_brk s) (s_sites s) (afiles s) (segments s) (executable_file_bigalloc s) b
    (ld_so_malloc_index_info s) (__liballocs_hit_static_case s) (__liballocs_aborted_static s).
Definition set_ld_so_info (p : Z) (s : sstate) : sstate :=
  SState (s_brk s) (s_sites s) (afiles s) (segments s) (executable_file_bigalloc s) (executable_data_segment_bigalloc s)
    p (__liballocs_hit_static_case s) (__liballocs_aborted_static s).
Definition count_static (hit aborted : Z) (s : sstate) : sstate :=
  SState (s_brk s) (s_sites s) (afiles s) (segments s) (executable_file_bigalloc s) (executable_data_segment_bigalloc s)
    (ld_so_malloc_index_info s) (wrap64 (__liballocs_hit_static_case s + hit)) (wrap64 (__liballocs_aborted_static s + aborted)).

Definition on_brk {A} (m : M bstate A) : M sstate A := fun s =>
  match m (s_brk s) with
  | Done (a, t) => Done (a, set_s_brk t s)
  | Abort => Abort
  | NoFuel => NoFuel
  end.
Definition on_smmap {A} (m : M mstate A) : M sstate A := on_brk (on_mmap m).
Definition on_stable {A} (m : M state A) : M sstate A := on_brk (on_brk_table m).
Definition on_sites {A} (m : M sites A) : M sstate A := fun s =>
  match m (s_sites s) with
  | Done (a, t) => Done (a, set_s_sites t s)
  | Abort => Abort
  | NoFuel => NoFuel
  end.

Class StaticEnv := {
  static_file_allocator : Z;
  static_segment_allocator : Z;
  static_section_allocator : Z;
  static_symbol_allocator : Z;
  (** the address of [free_file_metadata] *)
  free_file_metadata_ptr : Z;
  (** fields of a [struct link_map] *)
  lm_addr : Z -> Z;
  lm_name : Z -> string;
  SYSTEM_LDSO_PATH : string;
  __ldso_name : string;
  realpath_quick : string -> string;
  (** what [dl_for_one_object_phdrs] shows of a handle *)
  dlpi_phdr : Z -> list Elf_Phdr;
  early_lib_handles : list Z;
  (** the address of [m.segments[i]] of a file *)
  segment_ptr : Z -> Z -> Z;
  (** tables of the loaded objects *)
  metavector_at : Z -> list sym_or_reloc_rec;
  symtab_at : Z -> Z -> Elf_Sym;
  fake_dlsym : Z -> string -> Z;
  (** the address and the size of a symbol that [gnu_hash_lookup] finds in an object *)
  gnu_hash_sym : Z -> string -> option (Z * Z);
  sizeof_frame_entry : Z;
  dlsym_in : Z -> string -> Z;
  FILE_META_DESCRIBES_EXECUTABLE : allocs_file_metadata -> bool;
  (** fields of a [struct file_metadata] as they are read through a pointer to
      the [struct allocs_file_metadata] around it, which begins earlier;
      [None] where the read faults *)
  base_load_site : allocs_file_metadata -> Z;
  base_l_addr : allocs_file_metadata -> Z;
  base_shdrs : allocs_file_metadata -> option (list Elf_Shdr);
  (** whether the kernel maps memory at an address *)
  raw_mmap : Z -> Z -> Z;
  plug_hole_caller : Z;
  (** librunt's functions of these names, and libdl *)
  runt_segments_notify_define_segment : Z -> Z -> Z -> M sstate unit;
  runt_sections_notify_define_section : Z -> Elf_Shdr -> M sstate unit;
  runt_files_notify_load : Z -> Z -> M sstate Z;
  do_dlclose : Z -> M sstate unit;
  (** [dlopen] with [RTLD_NOLOAD], which only asks, and without *)
  do_dlopen_noload : string -> Z;
  do_dlopen : string -> M sstate Z;
  (** what [dynobj_name_from_dlpi_name] makes of an object's name and address *)
  dynobj_name : Z -> option string;
  (** the copy of what [realpath_quick] makes of a descriptor's link under /proc,
      where all steps succeed *)
  fd_realpath : Z -> option string;
  meta_files :: MetaFiles;
  (** the two weak functions, where they are defined *)
  __libcrunch_scan_lazy_typenames : option (Z -> M sstate unit);
  __hook_loaded_one_object_meta : option (Z -> Z -> M sstate unit);
}.

Section ops.
Context {V : Vas} {H : Hooks} {B : Build} {E : MmapEnv} {U : UniqtypeEnv} {Q : QueryEnv} {SE : SiteEnv} {St : StaticEnv}.

(** An access through a pointer: to a file's metadata, to a bigalloc, to a segment's metadata. *)
Definition rd_file (p : Z) : M sstate allocs_file_metadata := fun s =>
  match afiles s !! p with Some f => Done (f, s) | None => Abort end.
Definition rd_bigalloc (b : Z) : M sstate big_allocation := if b =? 0 then abort else on_stable (rd id b).
Definition rd_segment (p : Z) : M sstate segment_metadata := fun s =>
  match segments s !! p with Some g => Done (g, s) | None => Abort end.

(** ** Symbols *)

Definition symtab_of (k : sym_kind) (file : allocs_file_metadata) : option Z :=
  match k with
  | REC_DYNSYM => Some (m_dynsym file)
  | REC_SYMTAB => Some (m_symtab file)
  | REC_EXTRASYM => Some (extrasym file)
  | REC_UNKNOWN => None
  end.

(** [None] where the code aborts. *)
Definition vaddr_from_rec (p : sym_or_reloc_rec) (file : allocs_file_metadata) : option Z :=
  match p with
  | RelocRec base_vaddr _ => Some base_vaddr
  | SymRec k idx _ => (fun t => sy_value (symtab_at t idx)) <$> symtab_of k file
  end.

Definition found_limit_vaddr (p : sym_or_reloc_rec) (file : allocs_file_metadata) : option Z :=
  match p with
  | RelocRec base_vaddr size => Some (wrap64 (base_vaddr + size))
  | SymRec k idx _ => (fun t => wrap64 (sy_value (symtab_at t idx) + sy_size (symtab_at t idx))) <$> symtab_of k file
  end.

Definition or_abort {A} (x : option A) : M sstate A := match x with Some a => mret a | None => abort end.

(** The segment's bigalloc and the record found.  The binary search looks at
    the address of some of the records, the model at all of them. *)
Definition do_lookup (obj maybe_bigalloc : Z) : M sstate (option (Z * sym_or_reloc_rec)) :=
  modify (count_static 1 0) ;;
  maybe_bigalloc ← (if negb (maybe_bigalloc =? 0) then mret maybe_bigalloc
                    else if PAGENUM obj <? NBIGALLOCS then mret (PAGENUM obj) else abort);
  m ← rd_bigalloc maybe_bigalloc;
  let b := if allocated_by m =? static_symbol_allocator then parent m else maybe_bigalloc in
  r ← rd_bigalloc b;
  assert ((allocated_by r =? static_section_allocator) || (allocated_by r =? static_segment_allocator)) ;;
  let segment_bigalloc := if allocated_by r =? static_section_allocator then parent r else b in
  sr ← rd_bigalloc segment_bigalloc;
  assert (allocated_by sr =? static_segment_allocator) ;;
  segment ← rd_segment (allocator_private sr);
  fr ← rd_bigalloc (parent sr);
  file ← rd_file (allocator_private fr);
  let target_vaddr := wrap64 (obj - m_l_addr file) in
  let metavector_nrecs := wrap32 (metavector_size segment / sizeof_rec) in
  found ← (if metavector_nrecs =? 0 then mret None else
             let recs := take (Z.to_nat metavector_nrecs) (metavector_at (metavector segment)) in
             keys ← or_abort (mapM (fun p => vaddr_from_rec p file) recs);
             mret (bsearch_leq keys target_vaddr ≫= fun i => recs !! i));
  match (found : option sym_or_reloc_rec) with
  | Some found =>
    limit ← or_abort (found_limit_vaddr found file);
    if limit <? target_vaddr then modify (count_static 0 1) ;; mret None
    else mret (Some (segment_bigalloc, found))
  | None => modify (count_static 0 1) ;; mret None
  end.

Definition rec_size (p : sym_or_reloc_rec) (file : allocs_file_metadata) : option Z :=
  match p with
  | RelocRec base_vaddr size => Some (wrap64 (base_vaddr + size))
  | SymRec k idx _ => (fun t => sy_size (symtab_at t idx)) <$> symtab_of k file
  end.

Definition rec_type (p : sym_or_reloc_rec) : Z :=
  match p with
  | RelocRec _ _ => pointer_to___uniqtype____uninterpreted_byte
  | SymRec _ _ bits => Z.shiftl bits 3
  end.

Definition static_symbol_get_info (obj maybe_bigalloc : Z) : M sstate (Z * alloc_info) :=
  result ← do_lookup obj maybe_bigalloc;
  match result with
  | Some (segment, found) =>
    sr ← rd_bigalloc segment;
    fr ← rd_bigalloc (parent sr);
    file ← rd_file (allocator_private fr);
    found_base_vaddr ← or_abort (vaddr_from_rec found file);
    size ← or_abort (rec_size found file);
    mret (0, AllocInfo (rec_type found) (wrap64 (m_l_addr file + found_base_vaddr)) size (m_load_site file))
  | None => mret (err_unrecognised_static_object, no_info)
  end.

Definition __static_symbol_allocator_get_info (obj maybe_bigalloc : Z) : M sstate (Z * alloc_info) :=
  static_symbol_get_info obj maybe_bigalloc.

(** ** Sections *)

Definition __static_section_allocator_ensure_big (file_meta : Z) (shdr : Elf_Shdr) : M sstate Z :=
  if sh_size shdr =? 0 then mret 0 else
  file ← rd_file file_meta;
  let section_start_addr := wrap64 (m_l_addr file + sh_addr shdr) in
  section_already ← on_stable (__lookup_bigalloc_from_root section_start_addr static_section_allocator);
  if negb (section_already =? 0) then mret section_already else
  containing_segment ← on_stable (__lookup_bigalloc_from_root section_start_addr static_segment_allocator);
  if containing_segment =? 0 then abort else
  b ← on_stable (__liballocs_new_bigalloc section_start_addr (sh_size shdr) (sh_self shdr) 0 containing_segment
                   static_section_allocator);
  on_stable (wr b (set_suballocator static_symbol_allocator)) ;;
  mret b.

Definition __static_section_allocator_notify_define_section (meta : Z) (shdr : Elf_Shdr) : M sstate unit :=
  runt_sections_notify_define_section meta shdr ;;
  if 0 <? sh_size shdr then __static_section_allocator_ensure_big meta shdr ;; mret tt else mret tt.

(** The bigalloc of the file around a bigalloc. *)
Fixpoint containing_file_loop (fuel : nat) (b : Z) : M sstate Z :=
  match fuel with
  | O => nofuel
  | S fuel =>
    r ← rd_bigalloc b;
    if negb (allocated_by r =? static_file_allocator) then containing_file_loop fuel (parent r) else mret b
  end.

Definition section_hit (l_addr obj : Z) (shdr : Elf_Shdr) : bool :=
  negb (Z.land (sh_flags shdr) SHF_ALLOC =? 0) &&
  ((wrap64 (l_addr + sh_addr shdr) <=? obj) && (obj <? wrap64 (l_addr + sh_addr shdr + sh_size shdr))).

(** The file's bigalloc holds a pointer to the [struct allocs_file_metadata];
    here it is read as one to a [struct file_metadata]. *)
Definition static_section_get_info (obj b : Z) : M sstate (Z * alloc_info) :=
  r ← rd_bigalloc b;
  if allocated_by r =? static_section_allocator then
    sr ← rd_bigalloc (parent r);
    fr ← rd_bigalloc (parent sr);
    fm ← rd_file (allocator_private fr);
    mret (0, AllocInfo pointer_to___uniqtype____uninterpreted_byte (b_begin r) (wrap64 (b_end r - b_begin r)) (base_load_site fm))
  else
    f ← containing_file_loop FUEL b;
    fr ← rd_bigalloc f;
    fm ← rd_file (allocator_private fr);
    shdrs ← or_abort (base_shdrs fm);
    mret (match List.find (section_hit (base_l_addr fm) obj) shdrs with
          | Some shdr => (0, AllocInfo 0 (wrap64 (base_l_addr fm + sh_addr shdr)) (sh_size shdr) (base_load_site fm))
          | None => (err_unrecognised_static_object, no_info)
          end).

(** ** Segments *)

Definition MINUS_ONE_PTR : Z := 2 ^ 64 - 1.

Definition metavec_name (phdr : Elf_Phdr) : string :=
  ("metavec_" +:+ HexString.of_N (Z.to_N (wrap32 (p_vaddr phdr))))%string.

Definition __static_segment_setup_metavector (afile phndx loadndx : Z) : M sstate unit :=
  a ← rd_file afile;
  phdr ← or_abort (m_phdrs a !! Z.to_nat phndx);
  mv ← (if negb (meta_obj_handle a =? 0) then
          let found := fake_dlsym (meta_obj_handle a) (metavec_name phdr) in
          if negb (found =? 0) && negb (found =? MINUS_ONE_PTR) then
            found_sym ← or_abort (gnu_hash_sym (meta_obj_handle a) (metavec_name phdr));
            mret (found, snd found_sym)
          else mret (0, 0)
        else mret (0, 0));
  g ← rd_segment (segment_ptr afile loadndx);
  assert (phdr_idx g =? phndx) ;;
  modify (set_segment (segment_ptr afile loadndx) (SegmentMetadata (phdr_idx g) (fst mv) (snd mv))).

Definition __static_segment_allocator_notify_define_segment (file phndx loadndx : Z) : M sstate unit :=
  a ← rd_file file;
  phdr ← or_abort (m_phdrs a !! Z.to_nat phndx);
  let segment_start_addr := wrap64 (m_l_addr a + p_vaddr phdr) in
  let segment_size := p_memsz phdr in
  runt_segments_notify_define_segment file phndx loadndx ;;
  containing_file ← on_stable (__lookup_bigalloc_from_root segment_start_addr static_file_allocator);
  if containing_file =? 0 then abort else
  b ← on_stable (__liballocs_new_bigalloc segment_start_addr segment_size (segment_ptr file loadndx) 0 containing_file
                   static_segment_allocator);
  (if segment_start_addr =? executable_data_segment_start_addr then
     modify (set_executable_data_segment b) ;;
     r ← rd_bigalloc b;
     fr ← rd_bigalloc (parent r);
     mr ← on_stable (rd id (parent fr));
     assert (negb (parent r =? 0)) ;;
     assert (negb (parent fr =? 0)) ;;
     assert (b_end fr <=? b_end mr) ;;
     on_stable (__adjust_bigalloc_end b (b_end fr)) ;;
     on_stable (wr b (set_suballocator static_symbol_allocator))
   else mret tt) ;;
  __static_segment_setup_metavector file phndx loadndx.

(** As for sections, the file's metadata are read through a pointer of the wrong type. *)
Definition static_segment_get_info (b : Z) : M sstate (Z * alloc_info) :=
  assert (negb (b =? 0)) ;;
  r ← rd_bigalloc b;
  fr ← rd_bigalloc (parent r);
  fm ← rd_file (allocator_private fr);
  mret (0, AllocInfo pointer_to___uniqtype____uninterpreted_byte (b_begin r) (wrap64 (b_end r - b_begin r)) (base_load_site fm)).

(** ** Files *)

Record dso_vaddr_bounds := Bounds { lowest_mapped_vaddr : Z; limit_vaddr : Z }.

Definition vaddr_bounds_step (bounds : dso_vaddr_bounds) (p : Elf_Phdr) : dso_vaddr_bounds :=
  if p_type p =? PT_LOAD then
    let max_plus_one := wrap64 (p_vaddr p + p_memsz p) in
    Bounds (if p_vaddr p <? lowest_mapped_vaddr bounds then p_vaddr p else lowest_mapped_vaddr bounds)
      (if limit_vaddr bounds <? max_plus_one then max_plus_one else limit_vaddr bounds)
  else bounds.
Definition vaddr_bounds_cb (phdrs : list Elf_Phdr) : dso_vaddr_bounds :=
  foldl vaddr_bounds_step (Bounds MINUS_ONE_PTR 0) phdrs.
Definition get_dso_vaddr_bounds (handle : Z) : dso_vaddr_bounds := vaddr_bounds_cb (dlpi_phdr handle).

(** The metadata of the file around an address. *)
Definition __static_file_allocator_metadata_by_addr (addr : Z) : M sstate Z :=
  found ← on_stable (__lookup_bigalloc_from_root addr static_file_allocator);
  if found =? 0 then mret 0 else
  meta ← on_stable (rd allocator_private found);
  assert (negb (meta =? 0)) ;;
  mret meta.

Definition init_frames_info (file : Z) : M sstate unit :=
  f ← rd_file file;
  if meta_obj_handle f =? 0 then mret tt else
  match gnu_hash_sym (meta_obj_handle f) "frame_vaddrs" with
  | Some (first_entry, size) => modify (set_afile file (set_frames first_entry (wrap32 (size / sizeof_frame_entry)) f))
  | None => mret tt
  end.

(** *** Opening the meta-object *)

(** The name is compared from its eighth last character on, which a shorter
    name does not have. *)
Definition ends_in_meta_suffix (canon_objname : string) : option bool :=
  let n := String.length META_OBJ_SUFFIX in
  if (String.length canon_objname <? n)%nat then None else
  Some (bool_decide (META_OBJ_SUFFIX = String.substring (String.length canon_objname - n) n canon_objname)).

Definition call_if (f : option (M sstate unit)) : M sstate unit := default (mret tt) f.

(** [out_handle]; 0 where the code leaves it alone. *)
Definition load_and_init_all_metadata_for_one_object (meta handle : Z) : M sstate Z :=
  match dynobj_name handle with
  | None => mret 0
  | Some canon_objname =>
    if bool_decide (canon_objname = ensure_meta_base) then mret 0 else
    is_meta ← or_abort (ends_in_meta_suffix canon_objname);
    if (is_meta : bool) then mret 0 else
    f ← rd_file meta;
    fd ← or_abort (find_and_open_meta_libfile (m_filename f) (m_build_id f));
    if fd =? -1 then mret 0 else
    match fd_realpath fd with
    | None => mret 0
    | Some libfile_name =>
      let meta_handle := do_dlopen_noload libfile_name in
      if negb (meta_handle =? 0) then do_dlclose meta_handle ;; mret meta_handle else
      meta_handle ← do_dlopen libfile_name;
      if meta_handle =? 0 then mret 0 else
      call_if ((fun scan => scan meta_handle) <$> __libcrunch_scan_lazy_typenames) ;;
      call_if ((fun hook => hook handle meta_handle) <$> __hook_loaded_one_object_meta) ;;
      mret meta_handle
    end
  end.

Definition load_metadata (meta handle : Z) : M sstate unit :=
  assert (negb (meta =? 0)) ;;
  out_handle ← load_and_init_all_metadata_for_one_object meta handle;
  f ← rd_file meta;
  let sym n := if negb (out_handle =? 0) then dlsym_in out_handle n else 0 in
  modify (set_afile meta (set_meta out_handle (sym "extrasym") (sym "extrastr") f)) ;;
  on_sites (init_allocsites_info meta) ;;
  init_frames_info meta.

(** Sets up the metavectors of the loaded segments from program header [i] on. *)
Fixpoint setup_metavectors (ameta i nload : Z) (phdrs : list Elf_Phdr) : M sstate unit :=
  match phdrs with
  | [] => mret tt
  | p :: phdrs =>
    if p_type p =? PT_LOAD then
      __static_segment_setup_metavector ameta i nload ;; setup_metavectors ameta (i + 1) (nload + 1) phdrs
    else setup_metavectors ameta (i + 1) nload phdrs
  end.

(** [l_ld] gives the address of an object's dynamic section. *)
Fixpoint load_meta_objects (l_ld : Z -> Z) (handles : list Z) : M sstate unit :=
  match handles with
  | [] => mret tt
  | h :: handles =>
    meta ← __static_file_allocator_metadata_by_addr (l_ld h);
    load_metadata meta h ;;
    f ← rd_file meta;
    setup_metavectors meta 0 0 (m_phdrs f) ;;
    load_meta_objects l_ld handles
  end.
Definition load_meta_objects_for_early_libs (l_ld : Z -> Z) : M sstate unit :=
  assert (negb (bool_decide (early_lib_handles = []))) ;;
  load_meta_objects l_ld early_lib_handles.

(** *** Plugging a hole between the mappings of a file *)

Fixpoint hole_free (n : nat) (i : Z) : M state bool :=
  match n with
  | O => mret true
  | S n => v ← pi_get i; r ← hole_free n (i + 1); mret ((v =? 0) && r)
  end.

Fixpoint augment_from (seq : Z) (es : list mapping_entry) : M mstate unit :=
  match es with
  | [] => mret tt
  | e :: es =>
    q ← on_seq seq (gets id);
    did_augment ← on_seq seq (__augment_mapping_sequence get_highest_loaded_object_below (e_begin e) (e_end e)
                                (e_prot e) (e_flags e) (e_offset e) (seq_filename q) (e_caller e));
    assert did_augment ;;
    augment_from seq es
  end.

Definition name_is (f : option string) (n : string) : bool := bool_decide (f = Some n).

Definition plug_hole_or_abort (lowest highest : Z) : M sstate Z :=
  lr ← rd_bigalloc lowest;
  hr ← rd_bigalloc highest;
  assert (b_end lr <? b_begin hr) ;;
  let hole_size := wrap64 (b_begin hr - b_end lr) in
  if BIGGEST_SANE_USER_ALLOC <? hole_size then abort else
  free ← on_stable (hole_free (Z.to_nat (PAGENUM (b_begin hr) - PAGENUM (b_end lr))) (PAGENUM (b_end lr)));
  if negb free then abort else
  if MMAP_RETURN_IS_ERROR (raw_mmap (b_end lr) hole_size) then abort else
  let lower_seq := allocator_private lr in
  lq ← on_smmap (on_seq lower_seq (gets id));
  did_augment ← on_smmap (on_seq lower_seq (__augment_mapping_sequence get_highest_loaded_object_below
                  (b_end lr) (b_begin hr) PROT_NONE (Z.lor (Z.lor MAP_FIXED MAP_PRIVATE) MAP_ANONYMOUS) 0
                  (seq_filename lq) plug_hole_caller));
  if negb did_augment then abort else
  let upper_seq := allocator_private hr in
  assert (negb (upper_seq =? 0)) ;;
  upper_seq_copy ← on_smmap (on_seq upper_seq (gets id));
  assert (0 <? Z.of_nat (nused upper_seq_copy)) ;;
  let upper_end := b_end hr in
  lq ← on_smmap (on_seq lower_seq (gets id));
  assert (2 <=? Z.of_nat (nused lq)) ;;
  assert (name_is (seq_filename lq) __ldso_name || name_is (seq_filename lq) (realpath_quick __ldso_name)) ;;
  assert (negb (e_is_anon (mapping_at lq (nused lq - 1)))) ;;
  success ← on_stable (__liballocs_delete_bigalloc_at (b_begin hr) mmap_allocator);
  assert success ;;
  on_stable (__adjust_bigalloc_end lowest upper_end) ;;
  on_smmap (augment_from lower_seq (take (nused upper_seq_copy) (mappings upper_seq_copy))) ;;
  lq ← on_smmap (on_seq lower_seq (gets id));
  assert (seq_end lq =? upper_end) ;;
  mret lowest.

(** *** Loading and unloading *)

Definition __static_file_allocator_notify_load (handle load_site : Z) : M sstate Z :=
  let bounds := get_dso_vaddr_bounds handle in
  let l_addr := lm_addr handle in
  assert (negb (lowest_mapped_vaddr bounds =? MINUS_ONE_PTR)) ;;
  lo ← on_smmap (__liballocs_get_memory_mapping (wrap64 (l_addr + lowest_mapped_vaddr bounds)));
  hi ← on_smmap (__liballocs_get_memory_mapping (wrap64 (l_addr + limit_vaddr bounds - 1)));
  match lo, hi with
  | Some (lowest, _), Some (highest, _) =>
    containing_mapping_bigalloc ← (if highest =? lowest then mret lowest else plug_hole_or_abort lowest highest);
    lbegin ← on_stable (rd b_begin lowest);
    let file_bigalloc_size := wrap64 (wrap64 (l_addr + limit_vaddr bounds) - lbegin) in
    b ← on_stable (__liballocs_new_bigalloc lbegin file_bigalloc_size 0 free_file_metadata_ptr
                     containing_mapping_bigalloc static_file_allocator);
    on_stable (wr b (set_suballocator static_segment_allocator)) ;;
    meta ← runt_files_notify_load handle load_site;
    assert (negb (meta =? 0)) ;;
    fm ← rd_file meta;
    (if FILE_META_DESCRIBES_EXECUTABLE fm then
       x ← gets executable_file_bigalloc;
       assert (x =? 0) ;;
       modify (set_executable_file b)
     else mret tt) ;;
    on_stable (wr b (set_private meta free_file_metadata_ptr)) ;;
    assert (negb (bool_decide (early_lib_handles = []))) ;;
    (if bool_decide (handle ∈ early_lib_handles) then mret tt else load_metadata meta handle) ;;
    brk_mapping ← on_smmap (gets brk_mapping_bigalloc);
    (if containing_mapping_bigalloc =? brk_mapping then
       brk_b ← on_brk (gets __brk_bigalloc);
       br ← rd_bigalloc brk_b;
       mbegin ← on_stable (rd b_begin brk_mapping);
       assert (wrap64 (mbegin + file_bigalloc_size) <? b_begin br) ;;
       on_stable (__liballocs_pre_extend_bigalloc brk_b (wrap64 (mbegin + file_bigalloc_size))) ;;
       mret tt
     else mret tt) ;;
    (if bool_decide (lm_name handle = SYSTEM_LDSO_PATH) then
       let candidate_addr := wrap64 (l_addr - 4096) in
       candidate_b ← on_stable (__lookup_bigalloc_from_root candidate_addr mmap_allocator);
       child ← on_stable (rd first_child candidate_b);
       modify (set_ld_so_info (if (candidate_b =? 0) || (child =? 0) then candidate_addr else 0))
     else mret tt) ;;
    mret meta
  | _, _ => abort
  end.

(** What the loop over the bigallocs does at [b]. *)
Definition unload_at (b : Z) (copied_filename : string) : M sstate unit :=
  r ← on_stable (rd id b);
  if BIGALLOC_IN_USE r && (allocated_by r =? static_file_allocator) then
    afm ← rd_file (allocator_private r);
    if bool_decide (copied_filename = m_filename afm) then
      do_dlclose (meta_obj_handle afm) ;;
      begin_ ← on_stable (rd b_begin b);
      on_stable (__liballocs_delete_bigalloc_at begin_ static_file_allocator) ;;
      mret tt
    else mret tt
  else mret tt.

Fixpoint unload_loop (n : nat) (b : Z) (copied_filename : string) : M sstate unit :=
  match n with
  | O => mret tt
  | S n => unload_at b copied_filename ;; unload_loop n (b + 1) copied_filename
  end.

Definition __static_file_allocator_notify_unload (initialized : bool) (copied_filename : string) : M sstate unit :=
  if initialized then unload_loop NB 0 copied_filename else mret tt.

Definition static_file_get_info (b : Z) : M sstate (Z * alloc_info) :=
  assert (negb (b =? 0)) ;;
  r ← rd_bigalloc b;
  fm ← rd_file (allocator_private r);
  mret (0, AllocInfo pointer_to___uniqtype____uninterpreted_byte (b_begin r) (wrap64 (b_end r - b_begin r)) (m_load_site fm)).
End ops.
