(* ===== verification/StaticFacts.v ===== *)
(** Facts about static data: lookups in a segment's metavector, and what
    defining segments and sections and unloading a file do to the tree of
    bigallocs. *)
From stdpp Require Import strings.
From S2P Require Import Prelude DList Vas BigAlloc PageIndex PageIndexQuery BigAllocFacts Forest Traversal.
From S2P Require Import Traversal Create Delete Resize QueryCorrect Reachable.
From S2P Require Import MappingSeq MappingSeqFacts Mmap MmapFacts Brk BrkFacts AllocSites Uniqtype Subobject Query QueryFacts StaticData.

Definition s_table (s : sstate) : state := m_table (b_mmap (s_brk s)).
Definition s_mmap (s : sstate) : mstate := b_mmap (s_brk s).
Definition set_s_table (t : state) (s : sstate) : sstate :=
  set_s_brk (set_b_mmap (set_m_table t (s_mmap s)) (s_brk s)) s.

Lemma on_brk_Done {A} (x : M bstate A) (s : sstate) a t :
  x (s_brk s) = Done (a, t) -> on_brk x s = Done (a, set_s_brk t s).
Proof. unfold on_brk. by intros ->. Qed.
Lemma on_stable_Done {A} (x : M state A) (s : sstate) a t :
  x (s_table s) = Done (a, t) -> on_stable x s = Done (a, set_s_table t s).
Proof. intros Ex. by apply on_brk_Done, on_brk_table_Done. Qed.
Lemma on_stable_read {A} (x : M state A) (s : sstate) a :
  x (s_table s) = Done (a, s_table s) -> on_stable x s = Done (a, s).
Proof. intros Ex. rewrite (on_stable_Done _ _ _ _ Ex). by destruct s as [[[] ? ? ? ? ?] ? ? ? ? ? ? ? ?]. Qed.
Lemma on_smmap_read {A} (x : M mstate A) (s : sstate) a :
  x (s_mmap s) = Done (a, s_mmap s) -> on_smmap x s = Done (a, s).
Proof.
  intros Ex. unfold on_smmap. rewrite (on_brk_Done _ s a (s_brk s)); [by destruct s|]. by apply on_mmap_read.
Qed.
Lemma rd_bigalloc_ok b (s : sstate) : b <> 0 -> rd_bigalloc b s = Done (ba (s_table s) b, s).
Proof. intros N. unfold rd_bigalloc. rewrite (proj2 (Z.eqb_neq b 0)) by done. by apply on_stable_read. Qed.
Lemma rd_file_ok p f (s : sstate) : afiles s !! p = Some f -> rd_file p s = Done (f, s).
Proof. unfold rd_file. by intros ->. Qed.
Lemma rd_segment_ok p g (s : sstate) : segments s !! p = Some g -> rd_segment p s = Done (g, s).
Proof. unfold rd_segment. by intros ->. Qed.

(** ** Lookups in a metavector *)

Section symbols.
Context {V : Vas} {B : Build} {Q : QueryEnv} {SE : SiteEnv} {SL : SiteLaws SE} {St : StaticEnv}.

(** The virtual address and the size of what a record describes. *)
Definition span (fm : allocs_file_metadata) (p : sym_or_reloc_rec) : option (Z * Z) :=
  match p with
  | RelocRec v n => Some (v, n)
  | SymRec k idx _ => (fun t => (sy_value (symtab_at t idx), sy_size (symtab_at t idx))) <$> symtab_of k fm
  end.

Definition recs_of (g : segment_metadata) : list sym_or_reloc_rec :=
  take (Z.to_nat (wrap32 (metavector_size g / sizeof_rec))) (metavector_at (metavector g)).

(** The records are in the order of their addresses and do not overlap. *)
Record sorted_spans (fm : allocs_file_metadata) (recs : list sym_or_reloc_rec) (l : list (Z * Z)) : Prop := {
  ss_spans : mapM (span fm) recs = Some l;
  ss_bounds x : x ∈ l -> 0 <= fst x /\ 0 <= snd x /\ fst x + snd x < 2 ^ 64;
  ss_order i j x y : (i < j)%nat -> l !! i = Some x -> l !! j = Some y -> fst x < fst y /\ fst x + snd x <= fst y;
}.

(** The segment around a section, segment or promoted symbol, and its file. *)
Definition section_or_segment (t : state) (b : Z) : Z :=
  if allocated_by (ba t b) =? static_symbol_allocator then parent (ba t b) else b.
Definition segment_around (t : state) (b : Z) : Z :=
  let b' := section_or_segment t b in
  if allocated_by (ba t b') =? static_section_allocator then parent (ba t b') else b'.

Record in_segment (s : sstate) (b : Z) (g : segment_metadata) (fm : allocs_file_metadata) : Prop := {
  is_nonnull : b <> 0 /\ section_or_segment (s_table s) b <> 0 /\ segment_around (s_table s) b <> 0 /\
    parent (ba (s_table s) (segment_around (s_table s) b)) <> 0;
  is_kind : allocated_by (ba (s_table s) (section_or_segment (s_table s) b)) = static_section_allocator \/
    allocated_by (ba (s_table s) (section_or_segment (s_table s) b)) = static_segment_allocator;
  is_segment_of : allocated_by (ba (s_table s) (segment_around (s_table s) b)) = static_segment_allocator;
  is_metadata : segments s !! allocator_private (ba (s_table s) (segment_around (s_table s) b)) = Some g;
  is_file : afiles s !! allocator_private (ba (s_table s) (parent (ba (s_table s) (segment_around (s_table s) b)))) = Some fm;
}.

Lemma span_vaddr fm p x : span fm p = Some x -> vaddr_from_rec p fm = Some (fst x).
Proof. destruct p as [v n|k i bits]; simpl; [by intros [= <-]|]. destruct (symtab_of k fm); simpl; [by intros [= <-]|done]. Qed.
Lemma span_limit fm p x : span fm p = Some x -> found_limit_vaddr p fm = Some (wrap64 (fst x + snd x)).
Proof. destruct p as [v n|k i bits]; simpl; [by intros [= <-]|]. destruct (symtab_of k fm); simpl; [by intros [= <-]|done]. Qed.

(** The size reported: for a relocation target it is the end of the span. *)
Definition reported_size (p : sym_or_reloc_rec) (x : Z * Z) : Z :=
  match p with RelocRec _ _ => fst x + snd x | SymRec _ _ _ => snd x end.
Lemma span_size fm p x : span fm p = Some x -> 0 <= fst x + snd x < 2 ^ 64 -> rec_size p fm = Some (reported_size p x).
Proof.
  destruct p as [v n|k i bits]; simpl.
  - intros [= <-] Hx. simpl in *. by rewrite wrap_small.
  - destruct (symtab_of k fm); simpl; [by intros [= <-]|done].
Qed.

Lemma mapM_vaddr fm recs l : mapM (span fm) recs = Some l -> mapM (fun p => vaddr_from_rec p fm) recs = Some (l.*1).
Proof.
  rewrite !mapM_Some. intros F. induction F as [|p x recs l Hx _ IH]; constructor; [by apply span_vaddr|done].
Qed.

Lemma sorted_increasing fm recs l : sorted_spans fm recs l -> increasing (l.*1).
Proof.
  intros S i j a b Hij. rewrite !list_lookup_fmap, !fmap_Some. intros (x & Ex & ->) (y & Ey & ->).
  by apply (ss_order _ _ _ S i j).
Qed.

(** The record the search stops at: the last one that does not begin above the target. *)
Lemma search_found fm recs l t i p x :
  sorted_spans fm recs l -> recs !! i = Some p -> l !! i = Some x -> fst x <= t ->
  (forall y, l !! S i = Some y -> t < fst y) ->
  bsearch_leq (l.*1) t ≫= (fun i => recs !! i) = Some p.
Proof.
  intros S Ep Ex Hx Hn. rewrite (proj2 (bsearch_leq_found (l.*1) t i (sorted_increasing _ _ _ S))); [done|]. split.
  - exists (fst x). by rewrite list_lookup_fmap, Ex.
  - intros k. rewrite list_lookup_fmap, fmap_Some. intros (y & Ey & ->). by apply Hn.
Qed.

Lemma search_some fm recs l t p :
  sorted_spans fm recs l -> bsearch_leq (l.*1) t ≫= (fun i => recs !! i) = Some p ->
  exists i x, recs !! i = Some p /\ l !! i = Some x /\ fst x <= t /\ span fm p = Some x.
Proof.
  intros S. destruct (bsearch_leq (l.*1) t) as [i|] eqn:Eb; [|done]. simpl. intros Ep.
  apply bsearch_leq_found in Eb as [(k & Ek & Hk) _]; [|by eapply sorted_increasing].
  rewrite list_lookup_fmap, fmap_Some in Ek. destruct Ek as (x & Ex & ->). exists i, x. split_and!; [done..|].
  pose proof (ss_spans _ _ _ S) as F. rewrite mapM_Some in F. by apply (Forall2_lookup_lr _ _ _ i p x F).
Qed.

(** What the lookup does, in terms of the record found. *)
Lemma do_lookup_run s obj b g fm l :
  in_segment s b g fm -> sorted_spans fm (recs_of g) l ->
  let t := wrap64 (obj - m_l_addr fm) in
  let missed := Done (None, count_static 0 1 (count_static 1 0 s)) in
  do_lookup obj b s =
    match bsearch_leq (l.*1) t ≫= (fun i => recs_of g !! i) with
    | Some p =>
      match span fm p with
      | Some x => if fst x + snd x <? t then missed else Done (Some (segment_around (s_table s) b, p), count_static 1 0 s)
      | None => Abort
      end
    | None => missed
    end.
Proof.
  intros I S t missed. destruct I as [(N1 & N2 & N3 & N4) K Ks Em Ef]. set (s1 := count_static 1 0 s).
  assert (Et : s_table s1 = s_table s) by done.
  unfold do_lookup. rewrite (bind_Done _ _ s tt s1) by done. rewrite (proj2 (Z.eqb_neq b 0)) by done. cbn [negb].
  rewrite (bind_Done _ _ s1 b s1), (bind_Done _ _ s1 _ s1 (rd_bigalloc_ok b s1 N1)) by done. rewrite Et. fold (section_or_segment (s_table s) b).
  rewrite (bind_Done _ _ s1 _ s1 (rd_bigalloc_ok _ s1 N2)), Et.
  rewrite (bind_Done _ _ s1 tt s1).
  2: { apply assert_true. destruct K as [-> | ->]; rewrite Z.eqb_refl; [done|apply orb_true_r]. }
  change (if allocated_by (ba (s_table s) (section_or_segment (s_table s) b)) =? static_section_allocator
          then parent (ba (s_table s) (section_or_segment (s_table s) b)) else section_or_segment (s_table s) b)
    with (segment_around (s_table s) b).
  rewrite (bind_Done _ _ s1 _ s1 (rd_bigalloc_ok _ s1 N3)), Et.
  rewrite (bind_Done _ _ s1 tt s1) by (apply assert_true; rewrite Ks; apply Z.eqb_refl).
  rewrite (bind_Done _ _ s1 _ s1 (rd_segment_ok _ _ s1 Em)), (bind_Done _ _ s1 _ s1 (rd_bigalloc_ok _ s1 N4)), Et.
  rewrite (bind_Done _ _ s1 _ s1 (rd_file_ok _ _ s1 Ef)). cbv zeta. fold (recs_of g) t.
  rewrite (bind_Done _ _ s1 (bsearch_leq (l.*1) t ≫= (fun i => recs_of g !! i)) s1).
  - destruct (bsearch_leq (l.*1) t ≫= _) as [p|] eqn:Eb; [|done].
    destruct (search_some _ _ _ _ _ S Eb) as (i & x & Ep & Ex & Hx & Esp). rewrite Esp, (span_limit _ _ _ Esp).
    pose proof (ss_bounds _ _ _ S x (list_elem_of_lookup_2 _ _ _ Ex)). rewrite wrap_small by lia.
    rewrite (bind_Done _ _ s1 (fst x + snd x) s1) by done. by destruct (_ <? t).
  - destruct (Z.eqb_spec (wrap32 (metavector_size g / sizeof_rec)) 0) as [E0|N0].
    + pose proof (ss_spans _ _ _ S) as F. unfold recs_of in F |- *. rewrite E0 in F |- *. simpl in F. injection F as <-. simpl.
      by destruct (bsearch_leq [] t).
    + rewrite (mapM_vaddr _ _ _ (ss_spans _ _ _ S)). by rewrite (bind_Done _ _ s1 (l.*1) s1) by done.
Qed.

(** The address of the target in the file. *)
Definition vaddr_of (fm : allocs_file_metadata) (obj : Z) : Z := wrap64 (obj - m_l_addr fm).

Definition described_as (fm : allocs_file_metadata) (p : sym_or_reloc_rec) (x : Z * Z) : alloc_info :=
  AllocInfo (rec_type p) (wrap64 (m_l_addr fm + fst x)) (reported_size p x) (m_load_site fm).

Lemma symbol_info_found s obj b g fm l i p x :
  in_segment s b g fm -> sorted_spans fm (recs_of g) l -> recs_of g !! i = Some p -> l !! i = Some x ->
  fst x <= vaddr_of fm obj <= fst x + snd x -> (forall y, l !! S i = Some y -> vaddr_of fm obj < fst y) ->
  static_symbol_get_info obj b s = Done ((0, described_as fm p x), count_static 1 0 s).
Proof.
  intros I S Ep Ex Hx Hn. unfold static_symbol_get_info.
  pose proof (do_lookup_run s obj b g fm l I S) as El. cbv zeta in El. fold (vaddr_of fm obj) in El.
  rewrite (search_found fm _ l _ i p x S Ep Ex (proj1 Hx) Hn) in El.
  assert (Esp : span fm p = Some x).
  { pose proof (ss_spans _ _ _ S) as F. rewrite mapM_Some in F. by apply (Forall2_lookup_lr _ _ _ i p x F). }
  rewrite Esp, (proj2 (Z.ltb_ge _ _)) in El by lia. rewrite (bind_Done _ _ _ _ _ El).
  destruct I as [(N1 & N2 & N3 & N4) _ _ _ Ef]. set (s1 := count_static 1 0 s).
  rewrite (bind_Done _ _ _ _ _ (rd_bigalloc_ok _ s1 N3)), (bind_Done _ _ _ _ _ (rd_bigalloc_ok _ s1 N4)).
  rewrite (bind_Done _ _ _ _ _ (rd_file_ok _ _ s1 Ef)), (span_vaddr _ _ _ Esp), (bind_Done _ _ s1 (fst x) s1) by done.
  pose proof (ss_bounds _ _ _ S x (list_elem_of_lookup_2 _ _ _ Ex)). rewrite (span_size _ _ _ Esp) by lia.
  by rewrite (bind_Done _ _ s1 (reported_size p x) s1) by done.
Qed.

Lemma symbol_info_none s obj b g fm l :
  in_segment s b g fm -> sorted_spans fm (recs_of g) l ->
  (forall x, x ∈ l -> ~ fst x <= vaddr_of fm obj <= fst x + snd x) ->
  static_symbol_get_info obj b s = Done ((err_unrecognised_static_object, no_info), count_static 0 1 (count_static 1 0 s)).
Proof.
  intros I S Hn. unfold static_symbol_get_info.
  pose proof (do_lookup_run s obj b g fm l I S) as El. cbv zeta in El. fold (vaddr_of fm obj) in El.
  destruct (bsearch_leq (l.*1) (vaddr_of fm obj) ≫= _) as [p|] eqn:Eb; [|by rewrite (bind_Done _ _ _ _ _ El)].
  destruct (search_some _ _ _ _ _ S Eb) as (i & x & Ep & Ex & Hx & Esp). rewrite Esp in El.
  specialize (Hn x (list_elem_of_lookup_2 _ _ _ Ex)). rewrite (proj2 (Z.ltb_lt _ _)) in El by lia. by rewrite (bind_Done _ _ _ _ _ El).
Qed.

Lemma no_records g : metavector_size g = 0 -> recs_of g = [].
Proof. unfold recs_of. by intros ->. Qed.
End symbols.
