(* ===== verification/StaticLoad.v ===== *)
(** What loading and unloading a file do to the tree of bigallocs. *)
From stdpp Require Import strings.
From S2P Require Import Prelude DList Vas BigAlloc PageIndex PageIndexQuery BigAllocFacts Forest Traversal.
From S2P Require Import Attach Traversal Create Delete Resize QueryCorrect Reachable.
From S2P Require Import MappingSeq MappingSeqFacts Mmap MmapFacts MapFacts Brk BrkFacts AllocSites Uniqtype Subobject Query QueryFacts.
From S2P Require Import MetaDso StaticData StaticFacts.

(** ** Adding one bigalloc below another *)

Section adding.
Context {V : Vas} {VL : VasLaws V} {H : Hooks} {E : MmapEnv} {EL : MmapLaws E}.

Record adds (t t' : state) (b : Z) (m : Z * Z * Z * Z * Z * Z * Z * Z * Z) : Prop := {
  ad_table : table_ok t';
  ad_new : ~ used t b;
  ad_used i : used t' i <-> i = b \/ used t i;
  ad_meta i : i <> b -> meta (ba t' i) = meta (ba t i);
  ad_self : meta (ba t' b) = m;
}.

(** At least [n] records are free. *)
Definition room (t : state) (n : nat) : Prop :=
  exists l : list Z, NoDup l /\ (n <= length l)%nat /\ forall i, i ∈ l -> 1 <= i < NBIGALLOCS /\ ~ used t i.

Lemma room_first t n : room t (S n) -> exists b, first_free t b.
Proof.
  intros ([|i l] & _ & Hl & Hi); [simpl in Hl; lia|]. destruct (Hi i) as [Hr Nu]; [by left|].
  destruct (find_free_bigalloc_ok t) as [(b & Fr & _)|[Hall _]]; [by exists b|]. by destruct Nu; apply Hall.
Qed.

Lemma filter_absent (b : Z) (l : list Z) : b ∉ l -> filter (fun i => i <> b) l = l.
Proof.
  induction l as [|i l IH]; [done|]. rewrite not_elem_of_cons. intros [N Hb]. rewrite filter_cons_True by done. by rewrite IH.
Qed.

Lemma room_adds t t' b m n : adds t t' b m -> room t (S n) -> room t' n.
Proof.
  intros A (l & ND & Hl & Hi). exists (filter (fun i => i <> b) l). split_and!; [by apply NoDup_filter| |].
  - clear Hi. revert n Hl. induction ND as [|i l Ni ND IH]; intros n Hl; [simpl in Hl; lia|]. rewrite filter_cons. case_decide as Hd.
    + simpl in *. destruct n as [|n]; [lia|]. specialize (IH n ltac:(lia)). lia.
    + subst i. rewrite filter_absent by done. simpl in Hl. lia.
  - intros i [Nb Hl']%list_elem_of_filter. destruct (Hi i Hl') as [Hr Nu]. split; [done|]. rewrite (ad_used _ _ _ _ A). naive_solver.
Qed.

Lemma add_below_ok t ptr size P ap apf ab mp :
  table_ok t -> room t 1 -> P <> 0 -> 0 < size <= BIGGEST_SANE_USER_ALLOC -> fits t P ptr (ptr + size) -> parent_for t ptr size mp P ->
  exists b t', __liballocs_new_bigalloc (B := release) ptr size ap apf mp ab t = Done (b, t') /\
    adds t t' b (ptr, ptr + size, P, ab, 0, ap, apf, 0, 0).
Proof.
  intros [W I Hst Sn] (b & Fr)%room_first NP Hs Fit Pf.
  destruct (new_bigalloc_with_parent t b ptr size P ap apf ab mp W I Fr Hs Fit Pf) as (t' & Et & C & M).
  exists b, t'. split; [done|]. split; [|apply Fr|apply (cr_used _ _ _ C)|apply (cr_meta _ _ _ C)|done].
  split; [apply C..| |by apply (sane_created t t' b ptr size P ab ap apf Sn C M ltac:(lia))].
  destruct Hst as [[U0 P0]|[_ N0]].
  - left. rewrite (cr_start _ _ _ C). assert (START t <> b) by (intros Eb; rewrite Eb in U0; by apply Fr).
    pose proof (cr_meta _ _ _ C _ ltac:(done)) as [= _ _ -> _ _ _ _ _ _]. split; [apply (cr_used _ _ _ C); by right|done].
  - unfold fits in Fit. rewrite decide_False in Fit by done. destruct Fit as [U _]. by destruct (N0 P).
Qed.

Lemma add_child_ok t ptr size P ap apf ab :
  table_ok t -> room t 1 -> P <> 0 -> 0 < size <= BIGGEST_SANE_USER_ALLOC -> fits t P ptr (ptr + size) ->
  exists b t', __liballocs_new_bigalloc (B := release) ptr size ap apf P ab t = Done (b, t') /\
    adds t t' b (ptr, ptr + size, P, ab, 0, ap, apf, 0, 0).
Proof. intros K R NP Hs Fit. apply (add_below_ok t ptr size P); [done..|by left]. Qed.

(** Writing fields other than the range and the links. *)
Lemma table_upd t b f : table_ok t -> b <> 0 -> (forall r, shape (f r) = shape r) -> table_ok (upd b f t).
Proof.
  intros [W I Hst Sn] Nb Hf.
  assert (Hsh : forall i, shape (ba (upd b f t) i) = shape (ba t i)).
  { intros i. rewrite ba_upd. case_decide; [by subst|done]. }
  assert (Hu : forall i, used (upd b f t) i <-> used t i).
  { intros i. unfold used. by pose proof (Hsh i) as [= -> -> _ _ _ _]. }
  split.
  - apply (wf_shape t); [done| |done]. by rewrite ba_upd_ne.
  - by apply (index_shape t).
  - destruct Hst as [[U0 P0]|[E0 N0]]; [left|right].
    + change (START (upd b f t)) with (START t). split; [by apply Hu|]. by pose proof (Hsh (START t)) as [= _ _ _ _ -> _].
    + split; [done|]. intros i U%Hu. by apply (N0 i).
  - intros i U%Hu. pose proof (Hsh i) as [= -> -> _ _ _ _]. by apply Sn.
Qed.

Lemma adds_upd t t' b m m' f :
  adds t t' b m -> (forall r, shape (f r) = shape r) -> meta (f (ba t' b)) = m' -> adds t (upd b f t') b m'.
Proof.
  intros [T Nu Hu Hm Hb] Hf Em.
  assert (Nb : b <> 0) by (apply (used_nonzero t' b (tk_wf _ T)), Hu; by left).
  split; [by apply table_upd|done| | |by rewrite ba_upd_eq].
  - intros i. rewrite <- Hu. unfold used. rewrite ba_upd. case_decide as Hd; [subst i|done].
    by pose proof (Hf (ba t' b)) as [= -> -> _ _ _ _].
  - intros i N. rewrite ba_upd_ne by done. by apply Hm.
Qed.

(** A change of the table that leaves the mappings' bigallocs alone. *)
Lemma same_owners_ok s t :
  mmap_ok s -> table_ok t -> (forall i r, owner (set_m_table t s) i r <-> owner s i r) ->
  (forall i r, owner s i r -> b_begin (ba t i) = b_begin (ba (m_table s) i) /\ b_end (ba t i) = b_end (ba (m_table s) i) /\
     parent (ba t i) = parent (ba (m_table s) i)) ->
  mmap_ok (set_m_table t s) /\ forall a x, maps_to (set_m_table t s) a x <-> maps_to s a x.
Proof.
  intros K Tk Ho Hn.
  assert (Hd : forall i r es, owner s i r -> described (set_m_table t s) i r es <-> described s i r es).
  { intros i r es O. destruct (Hn i r O) as (E1 & E2 & _). by apply described_ext. }
  split; [split|].
  - exact Tk.
  - intros i r O%Ho. simpl. destruct (Hn i r O) as (_ & _ & ->). by apply (mk_top _ K i r).
  - intros i r O%Ho. destruct (mk_seq _ K i r O) as (es & D). exists es. by apply Hd.
  - intros i i' r O%Ho O'%Ho. by apply (mk_distinct _ K i i' r).
  - intros i r O%Ho. by apply (mk_nonnull _ K i r).
  - intros a x. split; intros (i & r & es & O & D & Ha).
    + apply Ho in O. exists i, r, es. split_and!; [done|by apply Hd|done].
    + exists i, r, es. split_and!; [by apply Ho|by apply Hd|done].
Qed.

(** A new bigalloc that is no mapping leaves the mappings alone. *)
Lemma adds_mmap_ok s t b m :
  mmap_ok s -> adds (m_table s) t b m -> allocated_by (ba t b) <> mmap_allocator ->
  mmap_ok (set_m_table t s) /\ forall a x, maps_to (set_m_table t s) a x <-> maps_to s a x.
Proof.
  intros K A Na. apply same_owners_ok; [done|apply A| |].
  - intros i r. unfold owner. simpl. rewrite (ad_used _ _ _ _ A). destruct (decide (i = b)) as [->|N].
    + pose proof (ad_new _ _ _ _ A). naive_solver.
    + pose proof (ad_meta _ _ _ _ A i N) as [= _ _ _ -> _ -> _ _ _]. naive_solver.
  - intros i r (Ui & _). assert (N : i <> b) by (intros ->; by apply (ad_new _ _ _ _ A)).
    by pose proof (ad_meta _ _ _ _ A i N) as [= -> -> -> _ _ _ _ _ _].
Qed.

Lemma set_private_ok s b v f : mmap_ok s -> used (m_table s) b -> allocated_by (ba (m_table s) b) <> mmap_allocator ->
  mmap_ok (set_m_table (upd b (set_private v f) (m_table s)) s).
Proof.
  intros K Ub Na. pose proof (mk_table _ K) as Tk. apply same_owners_ok; [done| | |].
  - apply table_upd; [done|by apply (used_nonzero (m_table s) b (tk_wf _ Tk))|by intros []].
  - intros i r. unfold owner, used. simpl. rewrite ba_upd. case_decide as Hd; [subst i|done]. simpl. naive_solver.
  - intros i r (_ & Ei & _). rewrite ba_upd. case_decide as Hd; [subst i|done]. by destruct (ba (m_table s) b).
Qed.
End adding.

(** ** The tree of files, segments and sections *)

Class StaticLaws (E : MmapEnv) (St : StaticEnv) : Prop := {
  static_nonnull : static_file_allocator <> 0 /\ static_segment_allocator <> 0 /\ static_section_allocator <> 0;
  static_distinct : NoDup [mmap_allocator; static_file_allocator; static_segment_allocator; static_section_allocator];
}.

Section tree.
Context {V : Vas} {VL : VasLaws V} {H : Hooks} {E : MmapEnv} {EL : MmapLaws E} {St : StaticEnv} {StL : StaticLaws E St}.

(** Files are below top-level mappings, segments below files, sections below segments. *)
Record static_tree (t : state) : Prop := {
  st_file f : used t f -> allocated_by (ba t f) = static_file_allocator ->
    parent (ba t f) <> 0 /\ allocated_by (ba t (parent (ba t f))) = mmap_allocator /\ parent (ba t (parent (ba t f))) = 0;
  st_segment g : used t g -> allocated_by (ba t g) = static_segment_allocator ->
    parent (ba t g) <> 0 /\ allocated_by (ba t (parent (ba t g))) = static_file_allocator;
  st_section c : used t c -> allocated_by (ba t c) = static_section_allocator ->
    parent (ba t c) <> 0 /\ allocated_by (ba t (parent (ba t c))) = static_segment_allocator;
}.

Lemma distinct_allocators :
  mmap_allocator <> static_file_allocator /\ mmap_allocator <> static_segment_allocator /\
  mmap_allocator <> static_section_allocator /\ static_file_allocator <> static_segment_allocator /\
  static_file_allocator <> static_section_allocator /\ static_segment_allocator <> static_section_allocator.
Proof. pose proof static_distinct as D. rewrite !NoDup_cons, !not_elem_of_cons in D. naive_solver. Qed.

Lemma ancestor_inv t i j : ancestor t i j -> i = j \/ (used t j /\ parent (ba t j) <> 0 /\ ancestor t i (parent (ba t j))).
Proof. intros A. apply rtc_inv in A as [->|(k & (U & <- & N) & A)]; [by left|right]. by split_and!. Qed.

(** Around an address there is at most one file, one segment, one section. *)
Definition at_most_one (t : state) (a : Z) : Prop := forall i j x,
  used t i -> used t j -> allocated_by (ba t i) = a -> allocated_by (ba t j) = a -> contains t i x -> contains t j x -> i = j.

Lemma parent_contains t i x : wf t -> used t i -> parent (ba t i) <> 0 -> contains t i x ->
  used t (parent (ba t i)) /\ contains t (parent (ba t i)) x.
Proof. intros W U N C. destruct (wf_parent _ W i U N) as (Up & ? & ?). split; [done|]. unfold contains in *. lia. Qed.

Lemma one_file t : wf t -> static_tree t -> at_most_one t static_file_allocator.
Proof.
  intros W T i j x Ui Uj Ai Aj Ci Cj. destruct (st_file _ T i Ui Ai) as (Ni & _ & Ti), (st_file _ T j Uj Aj) as (Nj & _ & Tj).
  destruct (parent_contains t i x W Ui Ni Ci) as [Upi Cpi], (parent_contains t j x W Uj Nj Cj) as [Upj Cpj].
  assert (parent (ba t i) = parent (ba t j)) by (apply (siblings_same t _ _ x W); [done..|congruence|done|done]).
  by apply (siblings_same t i j x W).
Qed.
Lemma one_segment t : wf t -> static_tree t -> at_most_one t static_segment_allocator.
Proof.
  intros W T i j x Ui Uj Ai Aj Ci Cj. destruct (st_segment _ T i Ui Ai) as (Ni & Fi), (st_segment _ T j Uj Aj) as (Nj & Fj).
  destruct (parent_contains t i x W Ui Ni Ci) as [Upi Cpi], (parent_contains t j x W Uj Nj Cj) as [Upj Cpj].
  apply (siblings_same t i j x W); [done..| |done|done]. by apply (one_file t W T _ _ x).
Qed.
Lemma one_section t : wf t -> static_tree t -> at_most_one t static_section_allocator.
Proof.
  intros W T i j x Ui Uj Ai Aj Ci Cj. destruct (st_section _ T i Ui Ai) as (Ni & Fi), (st_section _ T j Uj Aj) as (Nj & Fj).
  destruct (parent_contains t i x W Ui Ni Ci) as [Upi Cpi], (parent_contains t j x W Uj Nj Cj) as [Upj Cpj].
  apply (siblings_same t i j x W); [done..| |done|done]. by apply (one_segment t W T _ _ x).
Qed.

Lemma contains_user t i x : wf t -> used t i -> contains t i x -> user_address x.
Proof. intros W U C. pose proof (wf_bounds _ W i U). unfold contains, user_address in *. lia. Qed.

Lemma lookup_one {B : Build} t a i x :
  wf t -> index_ok t -> a <> 0 -> at_most_one t a -> used t i -> allocated_by (ba t i) = a -> contains t i x ->
  find_bigalloc_from_root x a t = Done (i, t) /\ __lookup_bigalloc_from_root x a t = Done (i, t).
Proof.
  intros W I Na O U Ai C. pose proof (contains_user t i x W U C) as Hx.
  destruct (find_from_root_ok t x a false W I Hx Na) as (r & Er & [[-> Hn]|[(Ur & Cr & Ar) _]]); [left; by exists i| |].
  - by destruct (Hn i).
  - assert (r = i) as -> by by apply (O r i x). split; [done|]. unfold __lookup_bigalloc_from_root.
    rewrite (bind_Done _ _ t tt t); [done|]. apply assert_true. by rewrite (proj2 (Z.eqb_neq a 0)).
Qed.

Lemma lookup_nothing {B : Build} t a i x :
  wf t -> index_ok t -> a <> 0 -> used t i -> contains t i x ->
  (forall j, used t j -> allocated_by (ba t j) = a -> ~ contains t j x) ->
  __lookup_bigalloc_from_root x a t = Done (0, t).
Proof.
  intros W I Na U C Hn. pose proof (contains_user t i x W U C) as Hx.
  destruct (find_from_root_ok t x a false W I Hx Na) as (r & Er & [[-> _]|[(Ur & Cr & Ar) _]]); [left; by exists i| |by destruct (Hn r)].
  unfold __lookup_bigalloc_from_root. rewrite (bind_Done _ _ t tt t); [done|]. apply assert_true. by rewrite (proj2 (Z.eqb_neq a 0)).
Qed.

(** Where a bigalloc of a static allocator may be added. *)
Definition static_place (t : state) (P ab : Z) : Prop :=
  used t P /\
  ((ab = static_file_allocator /\ allocated_by (ba t P) = mmap_allocator /\ parent (ba t P) = 0) \/
   (ab = static_segment_allocator /\ allocated_by (ba t P) = static_file_allocator) \/
   (ab = static_section_allocator /\ allocated_by (ba t P) = static_segment_allocator)).

Lemma adds_tree t t' b m :
  wf t -> static_tree t -> adds t t' b m -> static_place t (parent (ba t' b)) (allocated_by (ba t' b)) -> static_tree t'.
Proof.
  intros W T A [UP Pl]. destruct distinct_allocators as (D1 & D2 & D3 & D4 & D5 & D6).
  assert (NP : parent (ba t' b) <> b) by (intros EP; rewrite EP in UP; by apply (ad_new _ _ _ _ A)).
  assert (NzP : parent (ba t' b) <> 0) by by apply (used_nonzero t).
  pose proof (ad_meta _ _ _ _ A _ NP) as [= _ _ EpP EaP _ _ _ _ _].
  assert (Hold : forall i, used t' i -> i <> b -> used t i /\ parent (ba t' i) = parent (ba t i) /\ allocated_by (ba t' i) = allocated_by (ba t i)).
  { intros i Ui N. apply (ad_used _ _ _ _ A) in Ui as [->|Ui]; [done|]. by pose proof (ad_meta _ _ _ _ A i N) as [= _ _ -> -> _ _ _ _ _]. }
  assert (Hpar : forall i, used t i -> parent (ba t i) <> 0 -> parent (ba t i) <> b).
  { intros i Ui N Eb. destruct (wf_parent _ W i Ui N) as (Up & _). rewrite Eb in Up. by apply (ad_new _ _ _ _ A). }
  assert (Hget : forall i, i <> b -> parent (ba t' i) = parent (ba t i) /\ allocated_by (ba t' i) = allocated_by (ba t i)).
  { intros i N. by pose proof (ad_meta _ _ _ _ A i N) as [= _ _ -> -> _ _ _ _ _]. }
  split.
  - intros f U Af. destruct (decide (f = b)) as [->|N].
    + destruct Pl as [(_ & ? & ?)|[(? & _)|(? & _)]]; [|congruence..]. split_and!; [done|congruence|congruence].
    + destruct (Hold f U N) as (U0 & Ep & Ea). rewrite Ea in Af. destruct (st_file _ T f U0 Af) as (Nf & Am & Tm).
      rewrite Ep. destruct (Hget _ (Hpar f U0 Nf)) as [-> ->]. done.
  - intros f U Af. destruct (decide (f = b)) as [->|N].
    + destruct Pl as [(? & _)|[(_ & ?)|(? & _)]]; [congruence| |congruence]. split; [done|congruence].
    + destruct (Hold f U N) as (U0 & Ep & Ea). rewrite Ea in Af. destruct (st_segment _ T f U0 Af) as (Nf & Am).
      rewrite Ep. destruct (Hget _ (Hpar f U0 Nf)) as [_ ->]. done.
  - intros f U Af. destruct (decide (f = b)) as [->|N].
    + destruct Pl as [(? & _)|[(? & _)|(_ & ?)]]; [congruence..|]. split; [done|congruence].
    + destruct (Hold f U N) as (U0 & Ep & Ea). rewrite Ea in Af. destruct (st_section _ T f U0 Af) as (Nf & Am).
      rewrite Ep. destruct (Hget _ (Hpar f U0 Nf)) as [_ ->]. done.
Qed.
End tree.

(** ** Defining the segments and sections of a file *)

(** The calls librunt makes while it sets up a file. *)
Inductive callback := DefineSegment (phndx loadndx : Z) | DefineSection (shdr : Elf_Shdr).

(** A segment for each loadable program header from number [i] on, [ld] of them
    before it, and a section for each section header that is reported. *)
Fixpoint load_callbacks (i ld : Z) (phdrs : list Elf_Phdr) : list callback :=
  match phdrs with
  | [] => []
  | p :: phdrs => if p_type p =? PT_LOAD then DefineSegment i ld :: load_callbacks (i + 1) (ld + 1) phdrs
                  else load_callbacks (i + 1) ld phdrs
  end.
Definition header_callbacks (phdrs : list Elf_Phdr) (shdrs : list Elf_Shdr) : list callback :=
  load_callbacks 0 0 phdrs ++ (DefineSection <$> shdrs).

(** How many loadable headers there are before number [i]. *)
Definition load_index (phdrs : list Elf_Phdr) (i : nat) : Z :=
  Z.of_nat (length (filter (fun p => p_type p = PT_LOAD) (take i phdrs))).

(** A range and the private data of its bigalloc. *)
Definition extent : Type := Z * Z * Z.
Definition x_begin (x : extent) : Z := x.1.1.
Definition x_end (x : extent) : Z := x.1.2.
Definition extent_at (t : state) (b : Z) : extent := (b_begin (ba t b), b_end (ba t b), allocator_private (ba t b)).
Definition apart (x y : extent) : Prop := x_end x <= x_begin y \/ x_end y <= x_begin x.
Definition within (x y : extent) : Prop := x_begin y <= x_begin x /\ x_end x <= x_end y.

Section define.
Context {V : Vas} {VL : VasLaws V} {H : Hooks} {E : MmapEnv} {EL : MmapLaws E} {St : StaticEnv} {StL : StaticLaws E St}.

(** Below the file [F] there are exactly these segments and these sections. *)
Record file_tree (t : state) (F : Z) (segs secs : list extent) : Prop := {
  ft_file : used t F /\ allocated_by (ba t F) = static_file_allocator;
  ft_seg c : used t c -> parent (ba t c) = F -> allocated_by (ba t c) = static_segment_allocator /\ extent_at t c ∈ segs;
  ft_segs x : x ∈ segs -> exists c, used t c /\ parent (ba t c) = F /\ extent_at t c = x;
  ft_sec c : used t c -> parent (ba t c) <> 0 -> parent (ba t (parent (ba t c))) = F ->
    allocated_by (ba t c) = static_section_allocator /\ suballocator (ba t c) = static_symbol_allocator /\ extent_at t c ∈ secs;
  ft_secs x : x ∈ secs -> exists c, used t c /\ parent (ba t c) <> 0 /\ parent (ba t (parent (ba t c))) = F /\ extent_at t c = x;
}.

(** What defining a segment or section needs of the ranges defined so far. *)
Definition segment_extent (fm : allocs_file_metadata) (meta ld : Z) (p : Elf_Phdr) : extent :=
  (m_l_addr fm + p_vaddr p, m_l_addr fm + p_vaddr p + p_memsz p, segment_ptr meta ld).
Definition section_extent (fm : allocs_file_metadata) (sh : Elf_Shdr) : extent :=
  (m_l_addr fm + sh_addr sh, m_l_addr fm + sh_addr sh + sh_size sh, sh_self sh).

Fixpoint layout (fm : allocs_file_metadata) (meta : Z) (whole : extent) (segs secs : list extent) (cbs : list callback) : Prop :=
  match cbs with
  | [] => True
  | DefineSegment ph ld :: cbs => exists p, m_phdrs fm !! Z.to_nat ph = Some p /\
      let x := segment_extent fm meta ld p in
      0 < p_memsz p <= BIGGEST_SANE_USER_ALLOC /\ within x whole /\ x_begin x <> executable_data_segment_start_addr /\
      (forall y, y ∈ segs -> apart x y) /\ layout fm meta whole (x :: segs) secs cbs
  | DefineSection sh :: cbs => 0 <= sh_size sh <= BIGGEST_SANE_USER_ALLOC /\
      if sh_size sh =? 0 then layout fm meta whole segs secs cbs else
      let x := section_extent fm sh in
      (exists y, y ∈ segs /\ within x y) /\ (forall y, y ∈ secs -> apart x y) /\ layout fm meta whole segs (x :: secs) cbs
  end.

(** The segments and sections a list of calls defines. *)
Fixpoint defined_segments (fm : allocs_file_metadata) (meta : Z) (cbs : list callback) : list extent :=
  match cbs with
  | [] => []
  | DefineSegment ph ld :: cbs =>
    match m_phdrs fm !! Z.to_nat ph with Some p => [segment_extent fm meta ld p] | None => [] end ++ defined_segments fm meta cbs
  | DefineSection _ :: cbs => defined_segments fm meta cbs
  end.
Fixpoint defined_sections (fm : allocs_file_metadata) (cbs : list callback) : list extent :=
  match cbs with
  | [] => []
  | DefineSegment _ _ :: cbs => defined_sections fm cbs
  | DefineSection sh :: cbs => (if sh_size sh =? 0 then [] else [section_extent fm sh]) ++ defined_sections fm cbs
  end.

Lemma defined_segments_app fm meta l l' : defined_segments fm meta (l ++ l') = defined_segments fm meta l ++ defined_segments fm meta l'.
Proof. induction l as [|[ph ld|sh] l IH]; simpl; [done| |done]. by rewrite IH, app_assoc. Qed.
Lemma defined_sections_app fm l l' : defined_sections fm (l ++ l') = defined_sections fm l ++ defined_sections fm l'.
Proof. induction l as [|[ph ld|sh] l IH]; simpl; [done|done|]. by rewrite IH, app_assoc. Qed.

Lemma load_index_app pre phdrs k : load_index (pre ++ phdrs) (length pre + k) = load_index pre (length pre) + load_index phdrs k.
Proof. unfold load_index. rewrite take_app_add, filter_app, length_app, firstn_all. lia. Qed.

Lemma load_callbacks_segments fm meta phdrs : forall pre x, m_phdrs fm = pre ++ phdrs ->
  x ∈ defined_segments fm meta (load_callbacks (Z.of_nat (length pre)) (load_index pre (length pre)) phdrs) <->
  exists k p, phdrs !! k = Some p /\ p_type p = PT_LOAD /\ x = segment_extent fm meta (load_index (pre ++ phdrs) (length pre + k)) p.
Proof.
  induction phdrs as [|p phdrs IH]; intros pre x Em; [simpl; set_solver|].
  assert (Ep : m_phdrs fm = (pre ++ [p]) ++ phdrs) by by rewrite <- app_assoc.
  specialize (IH (pre ++ [p]) x Ep). rewrite <- Ep, Em in IH. rewrite length_app in IH. cbn [length] in IH.
  assert (Ei : load_index (pre ++ [p]) (length pre + 1) = load_index pre (length pre) + (if p_type p =? PT_LOAD then 1 else 0)).
  { rewrite load_index_app. f_equal. unfold load_index. cbn [take]. rewrite filter_cons. by case_decide; destruct (Z.eqb_spec (p_type p) PT_LOAD). }
  rewrite Ei in IH. replace (Z.of_nat (length pre + 1)) with (Z.of_nat (length pre) + 1) in IH by lia.
  assert (E0 : load_index (pre ++ p :: phdrs) (length pre + 0) = load_index pre (length pre)).
  { rewrite load_index_app. unfold load_index at 2. simpl. lia. }
  assert (Hs : forall P : nat -> Elf_Phdr -> Prop, (exists k q, (p :: phdrs) !! k = Some q /\ P k q) <-> P 0%nat p \/ exists k q, phdrs !! k = Some q /\ P (S k) q).
  { intros P. split; [intros ([|k] & q & Ek & HP)|intros [HP|(k & q & Ek & HP)]].
    - simpl in Ek. simplify_eq. by left.
    - right. by exists k, q.
    - by exists 0%nat, p.
    - by exists (S k), q. }
  rewrite Hs. cbn [load_callbacks]. destruct (Z.eqb_spec (p_type p) PT_LOAD) as [Et|Nt].
  - cbn [defined_segments]. rewrite Nat2Z.id, Em, list_lookup_middle by done. rewrite elem_of_app, list_elem_of_singleton, IH, E0.
    setoid_rewrite <- Nat.add_assoc. naive_solver.
  - rewrite Z.add_0_r in IH. rewrite IH. setoid_rewrite <- Nat.add_assoc. naive_solver.
Qed.

Lemma header_segments fm meta shdrs x :
  x ∈ defined_segments fm meta (header_callbacks (m_phdrs fm) shdrs) <->
  exists i p, m_phdrs fm !! i = Some p /\ p_type p = PT_LOAD /\ x = segment_extent fm meta (load_index (m_phdrs fm) i) p.
Proof.
  unfold header_callbacks. rewrite defined_segments_app, elem_of_app. rewrite (load_callbacks_segments fm meta (m_phdrs fm) [] x eq_refl).
  assert (En : defined_segments fm meta (DefineSection <$> shdrs) = []) by by induction shdrs.
  rewrite En, elem_of_nil. simpl. tauto.
Qed.

Lemma header_sections fm phdrs shdrs x :
  x ∈ defined_sections fm (header_callbacks phdrs shdrs) <-> exists sh, sh ∈ shdrs /\ sh_size sh <> 0 /\ x = section_extent fm sh.
Proof.
  assert (En : forall i ld, defined_sections fm (load_callbacks i ld phdrs) = []).
  { induction phdrs as [|p phdrs IH]; intros i ld; [done|]. cbn [load_callbacks]. by destruct (p_type p =? PT_LOAD); apply IH. }
  unfold header_callbacks. rewrite defined_sections_app, En. clear En. induction shdrs as [|sh shdrs IH]; [simpl; set_solver|].
  cbn [fmap list_fmap defined_sections app]. rewrite elem_of_app. cbn [app] in IH. rewrite IH. setoid_rewrite elem_of_cons.
  destruct (Z.eqb_spec (sh_size sh) 0) as [E0|N0]; [rewrite elem_of_nil|rewrite list_elem_of_singleton]; naive_solver.
Qed.

(** The other records keep their place when one is added. *)
Lemma adds_extent t t' b m i : adds t t' b m -> i <> b -> extent_at t' i = extent_at t i /\
  parent (ba t' i) = parent (ba t i) /\ allocated_by (ba t' i) = allocated_by (ba t i) /\ suballocator (ba t' i) = suballocator (ba t i).
Proof. intros A N. unfold extent_at. by pose proof (ad_meta _ _ _ _ A i N) as [= -> -> -> -> -> -> _ _ _]. Qed.

Lemma adds_parent t t' b m i : wf t -> adds t t' b m -> used t i -> parent (ba t i) <> b.
Proof.
  intros W A U Eb. assert (Nz : b <> 0) by (apply (used_nonzero t'); [apply A|apply (ad_used _ _ _ _ A); by left]).
  destruct (wf_parent _ W i U) as (Up & _); [congruence|]. rewrite Eb in Up. by apply (ad_new _ _ _ _ A).
Qed.

Lemma adds_leaf t t' b m i : wf t -> adds t t' b m -> used t' i -> i <> b -> used t i /\ parent (ba t' i) = parent (ba t i) /\
  parent (ba t i) <> b /\ (parent (ba t i) <> 0 -> parent (ba t' (parent (ba t i))) = parent (ba t (parent (ba t i)))).
Proof.
  intros W A U N. apply (ad_used _ _ _ _ A) in U as [->|U]; [done|]. destruct (adds_extent t t' b m i A N) as (_ & -> & _).
  pose proof (adds_parent t t' b m i W A U) as Np. split_and!; [done..|]. intros _. by apply (adds_extent t t' b m _ A Np).
Qed.

Lemma adds_segment_tree t t' b F segs secs x sub apf :
  wf t -> file_tree t F segs secs ->
  adds t t' b (x_begin x, x_end x, F, static_segment_allocator, sub, x.2, apf, 0, 0) -> file_tree t' F (x :: segs) secs.
Proof.
  intros W T A. destruct (ft_file _ _ _ _ T) as [UF AF]. pose proof (ad_self _ _ _ _ A) as [= E1 E2 E3 E4 E5 E6 _ _ _].
  assert (NF : F <> b) by (intros ->; by apply (ad_new _ _ _ _ A)).
  assert (Ub : used t' b) by (apply (ad_used _ _ _ _ A); by left).
  assert (Ux : extent_at t' b = x) by (unfold extent_at; rewrite E1, E2, E6; by destruct x as [[? ?] ?]).
  destruct (adds_extent _ _ _ _ F A NF) as (_ & EpF & EaF & _).
  assert (NFz : F <> 0) by by apply (used_nonzero t).
  split.
  - split; [apply (ad_used _ _ _ _ A); by right|congruence].
  - intros c Uc Pc. destruct (decide (c = b)) as [->|N]; [rewrite Ux; split; [done|by left]|].
    destruct (adds_leaf _ _ _ _ c W A Uc N) as (U0 & Ep & _). destruct (adds_extent _ _ _ _ c A N) as (-> & _ & -> & _).
    destruct (ft_seg _ _ _ _ T c U0) as [? ?]; [congruence|]. split; [done|by right].
  - intros y [->|Hy]%elem_of_cons; [by exists b|]. destruct (ft_segs _ _ _ _ T y Hy) as (c & Uc & Pc & Ec).
    assert (N : c <> b) by (intros ->; by apply (ad_new _ _ _ _ A)). exists c.
    destruct (adds_extent _ _ _ _ c A N) as (-> & -> & _). split_and!; [apply (ad_used _ _ _ _ A); by right|done..].
  - intros c Uc Nc Pc. destruct (decide (c = b)) as [->|N].
    + exfalso. rewrite E3 in Pc. rewrite EpF in Pc. by apply (parent_not_self t F W UF).
    + destruct (adds_leaf _ _ _ _ c W A Uc N) as (U0 & Ep & Nb & Hpp). rewrite Ep in Nc, Pc. rewrite Hpp in Pc by done.
      destruct (adds_extent _ _ _ _ c A N) as (-> & _ & -> & ->). by apply (ft_sec _ _ _ _ T c U0).
  - intros y Hy. destruct (ft_secs _ _ _ _ T y Hy) as (c & Uc & Nc & Pc & Ec).
    assert (N : c <> b) by (intros ->; by apply (ad_new _ _ _ _ A)). exists c.
    destruct (adds_extent _ _ _ _ c A N) as (-> & -> & _).
    pose proof (adds_parent _ _ _ _ c W A Uc) as Np. destruct (adds_extent _ _ _ _ _ A Np) as (_ & -> & _).
    split_and!; [apply (ad_used _ _ _ _ A); by right|done..].
Qed.

Lemma adds_section_tree t t' b F g segs secs x apf :
  wf t -> file_tree t F segs secs -> used t g -> parent (ba t g) = F ->
  adds t t' b (x_begin x, x_end x, g, static_section_allocator, static_symbol_allocator, x.2, apf, 0, 0) ->
  file_tree t' F segs (x :: secs).
Proof.
  intros W T Ug Pg A. destruct (ft_file _ _ _ _ T) as [UF AF]. pose proof (ad_self _ _ _ _ A) as [= E1 E2 E3 E4 E5 E6 _ _ _].
  assert (NF : F <> b) by (intros ->; by apply (ad_new _ _ _ _ A)).
  assert (Ng : g <> b) by (intros ->; by apply (ad_new _ _ _ _ A)).
  assert (Ub : used t' b) by (apply (ad_used _ _ _ _ A); by left).
  assert (Ux : extent_at t' b = x) by (unfold extent_at; rewrite E1, E2, E6; by destruct x as [[? ?] ?]).
  destruct (adds_extent _ _ _ _ F A NF) as (_ & EpF & EaF & _). destruct (adds_extent _ _ _ _ g A Ng) as (_ & Epg & _).
  assert (NFz : F <> 0) by by apply (used_nonzero t). assert (Ngz : g <> 0) by by apply (used_nonzero t).
  split.
  - split; [apply (ad_used _ _ _ _ A); by right|congruence].
  - intros c Uc Pc. destruct (decide (c = b)) as [->|N].
    { exfalso. rewrite E3 in Pc. subst F. by apply (parent_not_self t g W Ug). }
    destruct (adds_leaf _ _ _ _ c W A Uc N) as (U0 & Ep & _). destruct (adds_extent _ _ _ _ c A N) as (-> & _ & -> & _).
    apply (ft_seg _ _ _ _ T c U0). congruence.
  - intros y Hy. destruct (ft_segs _ _ _ _ T y Hy) as (c & Uc & Pc & Ec).
    assert (N : c <> b) by (intros ->; by apply (ad_new _ _ _ _ A)). exists c.
    destruct (adds_extent _ _ _ _ c A N) as (-> & -> & _). split_and!; [apply (ad_used _ _ _ _ A); by right|done..].
  - intros c Uc Nc Pc. destruct (decide (c = b)) as [->|N]; [rewrite Ux; split_and!; [done..|by left]|].
    destruct (adds_leaf _ _ _ _ c W A Uc N) as (U0 & Ep & Nb & Hpp). rewrite Ep in Nc, Pc. rewrite Hpp in Pc by done.
    destruct (adds_extent _ _ _ _ c A N) as (-> & _ & -> & ->).
    destruct (ft_sec _ _ _ _ T c U0 Nc Pc) as (? & ? & ?). split_and!; [done..|by right].
  - intros y [->|Hy]%elem_of_cons.
    { exists b. rewrite E3, Epg. by split_and!. }
    destruct (ft_secs _ _ _ _ T y Hy) as (c & Uc & Nc & Pc & Ec).
    assert (N : c <> b) by (intros ->; by apply (ad_new _ _ _ _ A)). exists c.
    destruct (adds_extent _ _ _ _ c A N) as (-> & -> & _).
    pose proof (adds_parent _ _ _ _ c W A Uc) as Np. destruct (adds_extent _ _ _ _ _ A Np) as (_ & -> & _).
    split_and!; [apply (ad_used _ _ _ _ A); by right|done..].
Qed.
End define.

Section callbacks.
Context {V : Vas} {VL : VasLaws V} {H : Hooks} {E : MmapEnv} {EL : MmapLaws E} {U : UniqtypeEnv} {Q : QueryEnv}.
Context {SE : SiteEnv} {St : StaticEnv} {StL : StaticLaws E St}.

Definition make_callback (meta : Z) (c : callback) : M sstate unit :=
  match c with
  | DefineSegment ph ld => __static_segment_allocator_notify_define_segment (B := release) meta ph ld
  | DefineSection sh => __static_section_allocator_notify_define_section (B := release) meta sh
  end.
Fixpoint make_callbacks (meta : Z) (cbs : list callback) : M sstate unit :=
  match cbs with [] => mret tt | c :: cbs => make_callback meta c ;; make_callbacks meta cbs end.

(** What is relied on of librunt: it records a segment without a metavector,
    keeps its own notes on sections, and to set up a file it allocates its
    metadata, with the headers of the object, and then defines the segment of
    each loadable program header and the section of each section header that
    it reports, at least those that are allocated in memory. *)
Class RuntLaws : Type := {
  runt_defines_segment file ph ld s :
    runt_segments_notify_define_segment file ph ld s = Done (tt, set_segment (segment_ptr file ld) (SegmentMetadata ph 0 0) s);
  runt_defines_section meta sh s : runt_sections_notify_define_section meta sh s = Done (tt, s);
  runt_shdrs : Z -> list Elf_Shdr;
  runt_reports : Elf_Shdr -> bool;
  runt_allocated sh : Z.land (sh_flags sh) SHF_ALLOC <> 0 -> runt_reports sh = true;
  runt_name : Z -> string;
  runt_build_id : Z -> list Z;
  runt_new_file : sstate -> Z -> Z -> Z * allocs_file_metadata;
  runt_loads h site s : runt_files_notify_load h site s =
    (modify (set_afile (runt_new_file s h site).1 (runt_new_file s h site).2) ;;
     make_callbacks (runt_new_file s h site).1 (header_callbacks (dlpi_phdr h) (filter runt_reports (runt_shdrs h))) ;; mret (runt_new_file s h site).1) s;
  runt_new_fresh s h site : (runt_new_file s h site).1 <> 0 /\ afiles s !! (runt_new_file s h site).1 = None /\
    forall ld, segments s !! segment_ptr (runt_new_file s h site).1 ld = None;
  runt_new_fields s h site : let f := (runt_new_file s h site).2 in
    m_l_addr f = lm_addr h /\ m_phdrs f = dlpi_phdr h /\ m_shdrs f = runt_shdrs h /\ meta_obj_handle f = 0 /\ m_load_site f = site /\
    m_filename f = runt_name h /\ m_build_id f = runt_build_id h;
}.
Context {RL : RuntLaws}.

Definition runt_callbacks (h : Z) : list callback := header_callbacks (dlpi_phdr h) (filter runt_reports (runt_shdrs h)).

(** The state with another bigalloc table and other segments. *)
Definition at_load (t : state) (gs : gmap Z segment_metadata) (s : sstate) : sstate :=
  SState (set_b_mmap (set_m_table t (s_mmap s)) (s_brk s)) (s_sites s) (afiles s) gs (executable_file_bigalloc s)
    (executable_data_segment_bigalloc s) (ld_so_malloc_index_info s) (__liballocs_hit_static_case s) (__liballocs_aborted_static s).

Lemma at_load_same s : at_load (s_table s) (segments s) s = s.
Proof. by destruct s as [[[] ? ? ? ? ?] ? ? ? ? ? ? ? ?]. Qed.

(** The part of the invariant about bigallocs. *)
Record loading (s : sstate) (F : Z) (segs secs : list extent) : Prop := {
  ld_mmap : mmap_ok (s_mmap s);
  ld_static : static_tree (s_table s);
  ld_tree : file_tree (s_table s) F segs secs;
}.

Lemma loading_table s F segs secs : loading s F segs secs -> wf (s_table s) /\ index_ok (s_table s) /\ table_ok (s_table s).
Proof. intros [K _ _]. pose proof (mk_table _ K) as T. by split_and!; [apply T|apply T|]. Qed.

Lemma contains_begin t i : wf t -> used t i -> contains t i (b_begin (ba t i)).
Proof. intros W Ui. pose proof (wf_bounds _ W i Ui). unfold contains. lia. Qed.

Lemma define_segment_ok s F segs secs meta fm ph ld p :
  let x := segment_extent fm meta ld p in
  loading s F segs secs -> room (s_table s) 1 -> afiles s !! meta = Some fm -> meta_obj_handle fm = 0 ->
  m_phdrs fm !! Z.to_nat ph = Some p -> 0 < p_memsz p <= BIGGEST_SANE_USER_ALLOC -> within x (extent_at (s_table s) F) ->
  x_begin x <> executable_data_segment_start_addr -> (forall y, y ∈ segs -> apart x y) ->
  exists b t', let s' := at_load t' (<[segment_ptr meta ld := SegmentMetadata ph 0 0]> (segments s)) s in
    __static_segment_allocator_notify_define_segment (B := release) meta ph ld s = Done (tt, s') /\
    loading s' F (x :: segs) secs /\ adds (s_table s) t' b (x_begin x, x_end x, F, static_segment_allocator, 0, segment_ptr meta ld, 0, 0, 0).
Proof.
  intros x Ld R Em Hh Ep Hsz Hw Hne Hap. destruct (loading_table _ _ _ _ Ld) as (W & I & Tk). destruct Ld as [K T Tf].
  destruct (ft_file _ _ _ _ Tf) as [UF AF]. pose proof (wf_bounds _ W F UF) as HF. destruct max_user_address_spec as [[_ Hmax] _].
  unfold within, x_begin, x_end in Hw. cbn in Hw. set (lo := m_l_addr fm + p_vaddr p) in *.
  assert (CF : contains (s_table s) F lo) by (unfold contains; lia).
  assert (NF : F <> 0) by by apply (used_nonzero (s_table s)).
  destruct static_nonnull as (Nf & _). destruct distinct_allocators as (_ & D2 & _).
  set (g0 := SegmentMetadata ph 0 0). set (s1 := set_segment (segment_ptr meta ld) g0 s).
  destruct (add_child_ok (s_table s) lo (p_memsz p) F (segment_ptr meta ld) 0 static_segment_allocator Tk R NF Hsz) as (b & t' & Et & A).
  { unfold fits. rewrite decide_False by done. split_and!; [done|lia|lia|lia|lia|].
    intros c Uc Pc. destruct (ft_seg _ _ _ _ Tf c Uc Pc) as [_ Hc%Hap]. unfold apart, x_begin, x_end in Hc. cbn in Hc. lia. }
  exists b, t'. unfold __static_segment_allocator_notify_define_segment.
  rewrite (bind_Done _ _ _ _ _ (rd_file_ok _ _ _ Em)), (bind_Done _ _ s p s) by (by rewrite Ep).
  fold lo. rewrite (wrap_small 64 lo) by lia. rewrite (bind_Done _ _ s tt s1) by apply runt_defines_segment.
  rewrite (bind_Done _ _ s1 F s1) by (apply on_stable_read, (lookup_one (s_table s) static_file_allocator F lo); first [done|by apply one_file]).
  rewrite (proj2 (Z.eqb_neq F 0)), (bind_Done _ _ s1 b (set_s_table t' s1)) by (done || by apply on_stable_Done).
  rewrite (proj2 (Z.eqb_neq lo _)), (bind_Done _ _ _ tt (set_s_table t' s1)) by done.
  split_and!; [|split|exact A].
  - unfold __static_segment_setup_metavector. rewrite (bind_Done _ _ _ fm (set_s_table t' s1)) by by apply rd_file_ok.
    rewrite (bind_Done _ _ _ p (set_s_table t' s1)), Hh by (by rewrite Ep). cbn [negb Z.eqb].
    rewrite (bind_Done _ _ _ (0, 0) (set_s_table t' s1)), (bind_Done _ _ _ g0 (set_s_table t' s1)) by (done || by apply rd_segment_ok, lookup_insert_eq).
    rewrite (bind_Done _ _ _ tt (set_s_table t' s1)) by done. unfold modify. do 3 f_equal.
    unfold set_segment, at_load. cbn. by rewrite insert_insert_eq.
  - apply (adds_mmap_ok _ t' b _ K A). pose proof (ad_self _ _ _ _ A) as [= _ _ _ -> _ _ _ _ _]. congruence.
  - apply (adds_tree (s_table s) t' b _ W T A). pose proof (ad_self _ _ _ _ A) as [= _ _ -> -> _ _ _ _ _]. split; [done|right; by left].
  - by apply (adds_segment_tree (s_table s) t' b F segs secs x 0 0 W Tf).
Qed.

Lemma define_section_ok s F segs secs meta fm sh :
  let x := section_extent fm sh in
  loading s F segs secs -> room (s_table s) 1 -> afiles s !! meta = Some fm -> 0 < sh_size sh <= BIGGEST_SANE_USER_ALLOC ->
  (exists y, y ∈ segs /\ within x y) -> (forall y, y ∈ secs -> apart x y) ->
  exists b g t', let s' := at_load t' (segments s) s in
    __static_section_allocator_notify_define_section (B := release) meta sh s = Done (tt, s') /\
    loading s' F segs (x :: secs) /\
    adds (s_table s) t' b (x_begin x, x_end x, g, static_section_allocator, static_symbol_allocator, sh_self sh, 0, 0, 0).
Proof.
  intros x Ld R Em Hsz (y & Hy & Hw) Hap. destruct (loading_table _ _ _ _ Ld) as (W & I & Tk). destruct Ld as [K T Tf].
  destruct (ft_segs _ _ _ _ Tf y Hy) as (g & Ug & Pg & <-). destruct (ft_seg _ _ _ _ Tf g Ug Pg) as [Ag _].
  destruct (ft_file _ _ _ _ Tf) as [UF AF]. pose proof (wf_bounds _ W g Ug) as Hg. destruct max_user_address_spec as [[_ Hmax] _].
  unfold within, x_begin, x_end in Hw. cbn in Hw. set (lo := m_l_addr fm + sh_addr sh) in *.
  assert (Cg : contains (s_table s) g lo) by (unfold contains; lia).
  assert (Ng : g <> 0) by by apply (used_nonzero (s_table s)).
  destruct static_nonnull as (_ & Ns & Nc). destruct distinct_allocators as (_ & _ & D3 & _).
  assert (Hsib : forall c, used (s_table s) c -> parent (ba (s_table s) c) = g ->
    lo + sh_size sh <= b_begin (ba (s_table s) c) \/ b_end (ba (s_table s) c) <= lo).
  { intros c Uc Pc. destruct (ft_sec _ _ _ _ Tf c Uc) as (_ & _ & Hc%Hap); [congruence..|].
    unfold apart, x_begin, x_end in Hc. cbn in Hc. lia. }
  destruct (add_child_ok (s_table s) lo (sh_size sh) g (sh_self sh) 0 static_section_allocator Tk R Ng Hsz) as (b & t1 & Et & A1).
  { unfold fits. rewrite decide_False by done. split_and!; [done|lia|lia|lia|lia|done]. }
  set (t' := upd b (set_suballocator static_symbol_allocator) t1).
  assert (A : adds (s_table s) t' b (lo, lo + sh_size sh, g, static_section_allocator, static_symbol_allocator, sh_self sh, 0, 0, 0)).
  { eapply adds_upd; [exact A1|by intros []|]. pose proof (ad_self _ _ _ _ A1) as Es. destruct (ba t1 b). unfold Forest.meta in *. cbn in *. by simplify_eq. }
  exists b, g, t'. unfold __static_section_allocator_notify_define_section.
  rewrite (bind_Done _ _ s tt s) by apply runt_defines_section. rewrite (proj2 (Z.ltb_lt _ _)) by lia.
  split_and!; [|split|exact A].
  - unfold __static_section_allocator_ensure_big. rewrite (proj2 (Z.eqb_neq _ _)), (bind_bind _ _ _) by lia.
    rewrite (bind_Done _ _ _ _ _ (rd_file_ok _ _ _ Em)). fold lo. rewrite (wrap_small 64 lo), bind_bind by lia.
    rewrite (bind_Done _ _ s 0 s).
    2: { apply on_stable_read, (lookup_nothing (s_table s) static_section_allocator g lo); [done..|].
         intros j Uj Aj Cj. destruct (st_section _ T j Uj Aj) as (Nj & Asj).
         destruct (parent_contains _ j lo W Uj Nj Cj) as [Upj Cpj].
         assert (Epj : parent (ba (s_table s) j) = g) by by apply (one_segment _ W T _ _ lo).
         pose proof (Hsib j Uj Epj). unfold contains in Cj. lia. }
    cbn [Z.eqb negb]. rewrite bind_bind.
    rewrite (bind_Done _ _ s g s) by (apply on_stable_read, (lookup_one (s_table s) static_segment_allocator g lo); first [done|by apply one_segment]).
    rewrite (proj2 (Z.eqb_neq g 0)), bind_bind by done. rewrite (bind_Done _ _ s b (set_s_table t1 s)) by by apply on_stable_Done.
    rewrite bind_bind, (bind_Done _ _ (set_s_table t1 s) tt (set_s_table t' s)) by done. done.
  - apply (adds_mmap_ok _ t' b _ K A). pose proof (ad_self _ _ _ _ A) as [= _ _ _ -> _ _ _ _ _]. congruence.
  - apply (adds_tree (s_table s) t' b _ W T A). pose proof (ad_self _ _ _ _ A) as [= _ _ -> -> _ _ _ _ _]. split; [done|right; by right].
  - by apply (adds_section_tree (s_table s) t' b F g segs secs x 0 W Tf Ug Pg).
Qed.

(** What was there stays. *)
Definition kept (t t' : state) : Prop := forall i, used t i -> used t' i /\ Forest.meta (ba t' i) = Forest.meta (ba t i).
Lemma kept_refl t : kept t t.
Proof. done. Qed.
Lemma kept_trans t1 t2 t3 : kept t1 t2 -> kept t2 t3 -> kept t1 t3.
Proof. intros K1 K2 i U1. destruct (K1 i U1) as [U2 E2], (K2 i U2) as [U3 E3]. split; [done|congruence]. Qed.
Lemma adds_kept t t' b m : adds t t' b m -> kept t t'.
Proof.
  intros A i Ui. split; [apply (ad_used _ _ _ _ A); by right|]. apply (ad_meta _ _ _ _ A). intros ->. by apply (ad_new _ _ _ _ A).
Qed.
Lemma kept_extent t t' i : kept t t' -> used t i -> extent_at t' i = extent_at t i /\ parent (ba t' i) = parent (ba t i) /\
  allocated_by (ba t' i) = allocated_by (ba t i) /\ suballocator (ba t' i) = suballocator (ba t i).
Proof. intros K Ui. destruct (K i Ui) as [_ Em]. unfold extent_at. by injection Em as -> -> -> -> -> -> _ _ _. Qed.

(** New segments have no metavector. *)
Record bare (gs gs' : gmap Z segment_metadata) (xs : list extent) : Prop := {
  ba_new p g : gs' !! p = Some g -> gs !! p = Some g \/ metavector_size g = 0;
  ba_old p : is_Some (gs !! p) -> is_Some (gs' !! p);
  ba_all x : x ∈ xs -> is_Some (gs' !! x.2);
}.
Lemma bare_refl gs : bare gs gs [].
Proof. split; [by left|done|]. intros x. by rewrite elem_of_nil. Qed.
Lemma bare_insert gs gs' x xs ph : bare (<[x.2 := SegmentMetadata ph 0 0]> gs) gs' xs -> bare gs gs' (x :: xs).
Proof.
  intros [Hn Ho Ha]. split.
  - intros p g Hg%Hn. destruct Hg as [Hg|]; [|by right]. apply lookup_insert_Some in Hg as [[_ <-]|[_ ?]]; [by right|by left].
  - intros p Hp. apply Ho. destruct (decide (p = x.2)) as [->|N]; [by rewrite lookup_insert_eq|by rewrite lookup_insert_ne].
  - intros y [->|Hy]%elem_of_cons; [|by apply Ha]. apply Ho. by rewrite lookup_insert_eq.
Qed.

Lemma make_callbacks_ok cbs : forall s F segs secs meta fm,
  loading s F segs secs -> room (s_table s) (length cbs) -> afiles s !! meta = Some fm -> meta_obj_handle fm = 0 ->
  layout fm meta (extent_at (s_table s) F) segs secs cbs ->
  exists t' gs' segs' secs', let s' := at_load t' gs' s in
    make_callbacks meta cbs s = Done (tt, s') /\ loading s' F segs' secs' /\
    (forall x, x ∈ segs' <-> x ∈ segs \/ x ∈ defined_segments fm meta cbs) /\
    (forall x, x ∈ secs' <-> x ∈ secs \/ x ∈ defined_sections fm cbs) /\
    kept (s_table s) t' /\ bare (segments s) gs' (defined_segments fm meta cbs).
Proof.
  induction cbs as [|c cbs IH]; intros s F segs secs meta fm Ld R Em Hh Ly.
  - exists (s_table s), (segments s), segs, secs. cbv zeta. rewrite at_load_same. split_and!; [done|done|..|apply kept_refl|apply bare_refl]; set_solver.
  - assert (Hgo : forall s1 t1 b m, s1 = at_load t1 (segments s1) s -> s_table s1 = t1 -> adds (s_table s) t1 b m -> room (s_table s1) (length cbs) /\
      extent_at (s_table s1) F = extent_at (s_table s) F /\ afiles s1 !! meta = Some fm).
    { intros s1 t1 b m -> _ A. change (s_table (at_load t1 _ s)) with t1. split_and!.
      - by apply (room_adds (s_table s) t1 b m).
      - apply (kept_extent (s_table s)); [by apply (adds_kept _ _ b m)|]. by destruct (ft_file _ _ _ _ (ld_tree _ _ _ _ Ld)).
      - done. }
    assert (R1 : room (s_table s) 1).
    { destruct R as (l & ND & Hl & Hi). exists l. split_and!; [done|simpl in Hl; lia|done]. }
    destruct c as [ph ld|sh]; cbn [make_callbacks make_callback layout defined_segments defined_sections] in Ly |- *.
    + destruct Ly as (p & Ep & Hsz & Hw & Hne & Hap & Ly). rewrite Ep. cbn [app]. set (x := segment_extent fm meta ld p) in *.
      destruct (define_segment_ok s F segs secs meta fm ph ld p Ld R1 Em Hh Ep Hsz Hw Hne Hap) as (b & t1 & E1 & Ld1 & A). fold x in Ld1, A.
      set (s1 := at_load t1 _ s) in *. destruct (Hgo s1 t1 b _ eq_refl eq_refl A) as (R2 & Ex & Ef).
      rewrite <- Ex in Ly. destruct (IH s1 F (x :: segs) secs meta fm Ld1 R2 Ef Hh Ly) as (t' & gs' & segs' & secs' & E2 & Ld2 & Hs & Hc & Kp & Br).
      exists t', gs', segs', secs'. cbv zeta. rewrite (bind_Done _ _ _ _ _ E1). split_and!; [done|done| |done| |].
      * intros y. rewrite Hs, !elem_of_cons. tauto.
      * eapply kept_trans; [by apply (adds_kept _ _ b _ A)|done].
      * by apply (bare_insert _ _ x _ ph).
    + destruct Ly as (Hsz & Ly). destruct (Z.eqb_spec (sh_size sh) 0) as [E0|N0].
      * destruct (IH s F segs secs meta fm Ld) as (t' & gs' & segs' & secs' & E2 & Hrest); [|done..|].
        { destruct R as (l & ND & Hl & Hi). exists l. split_and!; [done|simpl in Hl; lia|done]. }
        exists t', gs', segs', secs'. cbv zeta. split; [|exact Hrest].
        rewrite (bind_Done _ _ s tt s); [done|]. unfold __static_section_allocator_notify_define_section.
        by rewrite (bind_Done _ _ s tt s), E0 by apply runt_defines_section.
      * destruct Ly as (Hin & Hap & Ly). cbn [app]. set (x := section_extent fm sh) in *.
        destruct (define_section_ok s F segs secs meta fm sh Ld R1 Em ltac:(lia) Hin Hap) as (b & g & t1 & E1 & Ld1 & A). fold x in Ld1, A.
        set (s1 := at_load t1 _ s) in *. destruct (Hgo s1 t1 b _ eq_refl eq_refl A) as (R2 & Ex & Ef).
        rewrite <- Ex in Ly. destruct (IH s1 F segs (x :: secs) meta fm Ld1 R2 Ef Hh Ly) as (t' & gs' & segs' & secs' & E2 & Ld2 & Hs & Hc & Kp & Br).
        exists t', gs', segs', secs'. cbv zeta. rewrite (bind_Done _ _ _ _ _ E1). split_and!; [done|done|done| | |done].
        -- intros y. rewrite Hc, !elem_of_cons. tauto.
        -- eapply kept_trans; [by apply (adds_kept _ _ b _ A)|done].
Qed.
End callbacks.

(** ** Loading a file *)

Section load.
Context {V : Vas} {VL : VasLaws V} {H : Hooks} {E : MmapEnv} {EL : MmapLaws E} {U : UniqtypeEnv} {Q : QueryEnv}.
Context {SE : SiteEnv} {St : StaticEnv} {StL : StaticLaws E St} {RL : RuntLaws}.

(** Nothing is loaded for the object's meta-object: the object has no name or
    is a meta-object itself, none is found, or it is there already, and closing
    it again changes nothing. *)
Definition meta_quiet (h : Z) : Prop :=
  dynobj_name h = None \/ exists n, dynobj_name h = Some n /\
  (n = ensure_meta_base \/ ends_in_meta_suffix n = Some true \/
   (ends_in_meta_suffix n = Some false /\ exists fd, find_and_open_meta_libfile (runt_name h) (runt_build_id h) = Some fd /\
    (fd = -1 \/ fd_realpath fd = None \/
     exists libfile, fd_realpath fd = Some libfile /\ do_dlopen_noload libfile <> 0 /\
       forall s, do_dlclose (do_dlopen_noload libfile) s = Done (tt, s)))).

Definition file_limit (h : Z) : Z := lm_addr h + limit_vaddr (get_dso_vaddr_bounds h).

(** A shared object whose segments lie in one mapping with nothing in it yet. *)
Record loadable (s : sstate) (h M : Z) : Prop := {
  lb_mapping : exists p, owner (s_mmap s) M p;
  lb_low : contains (s_table s) M (lm_addr h + lowest_mapped_vaddr (get_dso_vaddr_bounds h));
  lb_high : contains (s_table s) M (file_limit h - 1);
  lb_empty c : used (s_table s) c -> parent (ba (s_table s) c) = M -> file_limit h <= b_begin (ba (s_table s) c);
  lb_size : 0 < file_limit h - b_begin (ba (s_table s) M) <= BIGGEST_SANE_USER_ALLOC;
  lb_room : room (s_table s) (S (length (runt_callbacks h)));
  lb_layout meta fm : m_l_addr fm = lm_addr h -> m_phdrs fm = dlpi_phdr h ->
    layout fm meta (b_begin (ba (s_table s) M), file_limit h, 0) [] [] (runt_callbacks h);
  lb_not_brk : M <> brk_mapping_bigalloc (s_mmap s);
  lb_name : lm_name h <> SYSTEM_LDSO_PATH;
  lb_sites meta : exists x, init_allocsites_info meta (s_sites s) = Done (tt, x);
  lb_meta : h ∈ early_lib_handles \/ meta_quiet h;
}.

(** The file's metadata, apart from what its meta-object adds. *)
Definition same_object (f f' : allocs_file_metadata) : Prop :=
  m_l_addr f' = m_l_addr f /\ m_phdrs f' = m_phdrs f /\ m_load_site f' = m_load_site f /\ m_filename f' = m_filename f.

Lemma meta_quiet_ok s meta h f : afiles s !! meta = Some f -> m_filename f = runt_name h -> m_build_id f = runt_build_id h ->
  meta_quiet h -> exists out, load_and_init_all_metadata_for_one_object meta h s = Done (out, s).
Proof.
  intros Ef En Ei Hq. unfold load_and_init_all_metadata_for_one_object. destruct Hq as [->|(n & -> & Hq)]; [by exists 0|].
  case_bool_decide as Hb; [by exists 0|]. destruct Hq as [?|[->|(-> & fd & Efd & Hq)]]; [done|by exists 0|].
  rewrite (bind_Done _ _ s false s) by done. cbv iota.
  rewrite (bind_Done _ _ _ _ _ (rd_file_ok _ _ _ Ef)), En, Ei, Efd, (bind_Done _ _ s fd s) by done.
  destruct (Z.eqb_spec fd (-1)) as [|Nfd]; [by exists 0|]. destruct Hq as [?|[->|(libfile & -> & No & Hc)]]; [done|by exists 0|].
  cbv zeta. rewrite (proj2 (Z.eqb_neq _ 0)) by done. cbn [negb]. exists (do_dlopen_noload libfile). by rewrite (bind_Done _ _ s tt s).
Qed.

Lemma load_metadata_ok s meta h f : afiles s !! meta = Some f -> m_filename f = runt_name h -> m_build_id f = runt_build_id h ->
  meta_quiet h -> meta <> 0 -> (exists x, init_allocsites_info meta (s_sites s) = Done (tt, x)) ->
  exists s' f', load_metadata (B := release) meta h s = Done (tt, s') /\ afiles s' !! meta = Some f' /\ same_object f f' /\
    s_mmap s' = s_mmap s /\ segments s' = segments s.
Proof.
  intros Ef En Ei Hq Nm (x & Ex). destruct (meta_quiet_ok s meta h f Ef En Ei Hq) as (out & E1).
  unfold load_metadata. rewrite (bind_Done _ _ s tt s), (bind_Done _ _ _ _ _ E1), (bind_Done _ _ _ _ _ (rd_file_ok _ _ _ Ef)) by done.
  cbv zeta. match goal with |- context [modify (set_afile meta ?fm)] => set (f1 := fm) end.
  set (s2 := set_afile meta f1 s). rewrite (bind_Done _ _ s tt s2) by done.
  set (s3 := set_s_sites x s2). rewrite (bind_Done _ _ s2 tt s3) by (unfold on_sites; change (s_sites s2) with (s_sites s); by rewrite Ex).
  assert (Ef3 : afiles s3 !! meta = Some f1) by apply lookup_insert_eq.
  unfold init_frames_info. rewrite (bind_Done _ _ _ _ _ (rd_file_ok _ _ _ Ef3)).
  destruct (meta_obj_handle f1 =? 0).
  - exists s3, f1. by split_and!.
  - destruct (gnu_hash_sym (meta_obj_handle f1) "frame_vaddrs") as [[first_entry size]|].
    + eexists (set_afile meta _ s3), _. split_and!; [done|apply lookup_insert_eq|done..].
    + exists s3, f1. by split_and!.
Qed.

(** The tree of a loaded file: the file below the mapping, one segment below
    the file for each loadable program header and nothing else, one section
    below the segments for each allocated section header that is not empty, and
    none without a header; no segment has a metavector. *)
Record file_at (s : sstate) (h site M F meta : Z) (fm : allocs_file_metadata) : Prop := {
  fa_meta : afiles s !! meta = Some fm /\ m_l_addr fm = lm_addr h /\ m_load_site fm = site /\ m_phdrs fm = dlpi_phdr h;
  fa_file : used (s_table s) F /\ allocated_by (ba (s_table s) F) = static_file_allocator /\ parent (ba (s_table s) F) = M /\
    suballocator (ba (s_table s) F) = static_segment_allocator /\
    extent_at (s_table s) F = (b_begin (ba (s_table s) M), file_limit h, meta);
  fa_segment i p : dlpi_phdr h !! i = Some p -> p_type p = PT_LOAD -> exists g, used (s_table s) g /\ parent (ba (s_table s) g) = F /\
    allocated_by (ba (s_table s) g) = static_segment_allocator /\
    extent_at (s_table s) g = segment_extent fm meta (load_index (dlpi_phdr h) i) p /\
    exists m, segments s !! segment_ptr meta (load_index (dlpi_phdr h) i) = Some m /\ metavector_size m = 0;
  fa_segment_only g : used (s_table s) g -> parent (ba (s_table s) g) = F ->
    exists i p, dlpi_phdr h !! i = Some p /\ p_type p = PT_LOAD /\
      extent_at (s_table s) g = segment_extent fm meta (load_index (dlpi_phdr h) i) p;
  fa_section sh : sh ∈ runt_shdrs h -> Z.land (sh_flags sh) SHF_ALLOC <> 0 -> sh_size sh <> 0 ->
    exists c, used (s_table s) c /\ parent (ba (s_table s) c) <> 0 /\
    parent (ba (s_table s) (parent (ba (s_table s) c))) = F /\ allocated_by (ba (s_table s) c) = static_section_allocator /\
    suballocator (ba (s_table s) c) = static_symbol_allocator /\ extent_at (s_table s) c = section_extent fm sh;
  fa_section_only c : used (s_table s) c -> parent (ba (s_table s) c) <> 0 -> parent (ba (s_table s) (parent (ba (s_table s) c))) = F ->
    exists sh, sh ∈ runt_shdrs h /\ sh_size sh <> 0 /\ extent_at (s_table s) c = section_extent fm sh;
}.

(** A new file has nothing below it. *)
Lemma new_file_tree t t' F M lo hi sub ap apf : wf t -> used t M ->
  adds t t' F (lo, hi, M, static_file_allocator, sub, ap, apf, 0, 0) -> file_tree t' F [] [].
Proof.
  intros W UM A. pose proof (ad_self _ _ _ _ A) as [= _ _ EP EA _ _ _ _ _].
  assert (Hk : forall c, used t' c -> parent (ba t' c) <> F).
  { intros c Uc. destruct (decide (c = F)) as [->|N].
    - rewrite EP. intros ->. by apply (ad_new _ _ _ _ A).
    - destruct (adds_leaf t t' F _ c W A Uc N) as (U0 & -> & Np & _). exact Np. }
  split.
  - split; [apply (ad_used _ _ _ _ A); by left|done].
  - intros c Uc Pc. by destruct (Hk c Uc).
  - intros x. by rewrite elem_of_nil.
  - intros c Uc Nc Pc. destruct (wf_parent _ (tk_wf _ (ad_table _ _ _ _ A)) c Uc Nc) as (Up & _). by destruct (Hk _ Up).
  - intros x. by rewrite elem_of_nil.
Qed.

Lemma static_tree_upd t b v f : static_tree t -> static_tree (upd b (set_private v f) t).
Proof.
  assert (Hf : forall i, parent (ba (upd b (set_private v f) t) i) = parent (ba t i) /\
    allocated_by (ba (upd b (set_private v f) t) i) = allocated_by (ba t i) /\ (used (upd b (set_private v f) t) i <-> used t i)).
  { intros i. unfold used. rewrite ba_upd. case_decide as Hd; [subst i|done]. by destruct (ba t b). }
  intros [T1 T2 T3]. split; intros i; destruct (Hf i) as (-> & -> & ->); intros Ui Ai;
    [destruct (T1 i Ui Ai) as (?&?&?)|destruct (T2 i Ui Ai)|destruct (T3 i Ui Ai)];
    destruct (Hf (parent (ba t i))) as (Ep & Ea & _); rewrite ?Ep, ?Ea; done.
Qed.

(** The file's bigalloc is made and filled in. *)
Lemma place_file s h M : mmap_ok (s_mmap s) -> static_tree (s_table s) -> loadable s h M ->
  exists F t1, let lo := b_begin (ba (s_table s) M) in
    (on_stable (__liballocs_new_bigalloc (B := release) lo (file_limit h - lo) 0 free_file_metadata_ptr M static_file_allocator) s =
       Done (F, set_s_table t1 s)) /\
    let t2 := upd F (set_suballocator static_segment_allocator) t1 in
    adds (s_table s) t2 F (lo, file_limit h, M, static_file_allocator, static_segment_allocator, 0, free_file_metadata_ptr, 0, 0) /\
    loading (set_s_table t2 s) F [] [].
Proof.
  intros K T [(q & O) Hlo Hhi He Hs R _ _ _ _ _]. pose proof (mk_table _ K) as Tk. pose proof (tk_wf _ Tk) as W.
  pose proof O as (UM & AM & _). change (m_table (s_mmap s)) with (s_table s) in *.
  pose proof (wf_bounds _ W M UM) as HM. set (lo := b_begin (ba (s_table s) M)) in *.
  assert (NM : M <> 0) by by apply (used_nonzero (s_table s)).
  assert (R1 : room (s_table s) 1) by (destruct R as (l & ND & Hl & Hi); exists l; split_and!; [done|lia|done]).
  destruct (add_child_ok (s_table s) lo (file_limit h - lo) M 0 free_file_metadata_ptr static_file_allocator Tk R1 NM ltac:(lia)) as (F & t1 & Et & A1).
  { unfold fits. rewrite decide_False by done. unfold contains in *. split_and!; [done|lia|lia|lia|lia|].
    intros c Uc Pc. left. specialize (He c Uc Pc). lia. }
  replace (lo + (file_limit h - lo)) with (file_limit h) in A1 by lia.
  exists F, t1. cbv zeta. split; [by apply on_stable_Done|]. set (t2 := upd F _ t1).
  assert (A : adds (s_table s) t2 F (lo, file_limit h, M, static_file_allocator, static_segment_allocator, 0, free_file_metadata_ptr, 0, 0)).
  { eapply adds_upd; [exact A1|by intros []|]. pose proof (ad_self _ _ _ _ A1) as Es. destruct (ba t1 F). unfold Forest.meta in *. cbn in *. by simplify_eq. }
  destruct distinct_allocators as (D1 & _). pose proof (ad_self _ _ _ _ A) as [= _ _ EP EA _ _ _ _ _].
  split; [exact A|]. split.
  - apply (adds_mmap_ok _ t2 F _ K A). congruence.
  - apply (adds_tree (s_table s) t2 F _ W T A). rewrite EP, EA. split; [done|left]. split_and!; [done..|]. by apply (mk_top _ K M q).
  - by apply (new_file_tree (s_table s) t2 F M lo (file_limit h) static_segment_allocator 0 free_file_metadata_ptr W UM).
Qed.

Lemma set_up_file s F h site :
  loading s F [] [] -> room (s_table s) (length (runt_callbacks h)) ->
  (forall meta fm, m_l_addr fm = lm_addr h -> m_phdrs fm = dlpi_phdr h ->
     layout fm meta (extent_at (s_table s) F) [] [] (runt_callbacks h)) ->
  exists meta fm t' gs' segs' secs', let s' := at_load t' gs' (set_afile meta fm s) in
    runt_files_notify_load h site s = Done (meta, s') /\ meta <> 0 /\
    (m_l_addr fm = lm_addr h /\ m_load_site fm = site /\ m_phdrs fm = dlpi_phdr h) /\
    (m_filename fm = runt_name h /\ m_build_id fm = runt_build_id h) /\ loading s' F segs' secs' /\ kept (s_table s) t' /\
    (forall x, x ∈ segs' <-> x ∈ defined_segments fm meta (runt_callbacks h)) /\
    (forall x, x ∈ secs' <-> x ∈ defined_sections fm (runt_callbacks h)) /\
    (forall x, x ∈ segs' -> exists m, gs' !! x.2 = Some m /\ metavector_size m = 0).
Proof.
  intros Ld R Ly. pose proof (runt_new_fresh s h site) as (Nm & _ & Fs). pose proof (runt_new_fields s h site) as (El & Ep & _ & Eh & Es & En & Ei).
  set (meta := (runt_new_file s h site).1) in *. set (fm := (runt_new_file s h site).2) in *. set (s1 := set_afile meta fm s).
  destruct (make_callbacks_ok (runt_callbacks h) s1 F [] [] meta fm) as (t' & gs' & segs' & secs' & Em & Ld' & Hs & Hc & Kp & Br).
  { by destruct Ld. } { exact R. } { apply lookup_insert_eq. } { exact Eh. } { by apply Ly. }
  assert (Hs' : forall x, x ∈ segs' <-> x ∈ defined_segments fm meta (runt_callbacks h)) by (intros x; rewrite Hs, elem_of_nil; tauto).
  exists meta, fm, t', gs', segs', secs'. cbv zeta. split_and!; [|done..| |].
  - rewrite runt_loads. fold meta fm. rewrite (bind_Done _ _ s tt s1) by done. by rewrite (bind_Done _ _ _ _ _ Em).
  - intros x. rewrite Hc, elem_of_nil. tauto.
  - intros x Hx. pose proof Hx as [g Hg]%Hs'%(ba_all _ _ _ Br). exists g. split; [done|].
    destruct (ba_new _ _ _ Br _ _ Hg) as [Ho|]; [|done]. exfalso. apply Hs' in Hx.
    assert (Hld : exists ld, x.2 = segment_ptr meta ld).
    { clear -Hx. induction (runt_callbacks h) as [|[ph ld|sh] cbs IH]; simpl in Hx; [by apply elem_of_nil in Hx| |by apply IH].
      apply elem_of_app in Hx as [Hx|Hx]; [|by apply IH]. destruct (m_phdrs fm !! _); [|by apply elem_of_nil in Hx].
      apply list_elem_of_singleton in Hx as ->. by exists ld. }
    destruct Hld as [ld Hld]. rewrite Hld in Ho. change (segments s1) with (segments s) in Ho. by rewrite Fs in Ho.
Qed.

(** The meta-object's part of the metadata does not matter for the tree. *)
Lemma file_at_same s s' h site M F meta fm fm' :
  file_at s h site M F meta fm -> s_mmap s' = s_mmap s -> segments s' = segments s ->
  afiles s' !! meta = Some fm' -> same_object fm fm' -> file_at s' h site M F meta fm'.
Proof.
  intros [(_ & El & Es & Ep) Hf Hseg Hso Hsec Hco] Et Eg Em (El' & Ep' & Es' & _).
  assert (Et' : s_table s' = s_table s) by exact (f_equal m_table Et).
  split; rewrite ?Et', ?Eg; [split_and!; congruence|done|..]; unfold segment_extent, section_extent; rewrite ?El'; [apply Hseg|apply Hso|apply Hsec|apply Hco].
Qed.

Lemma kept_upd t t' b f : kept t t' -> ~ used t b -> kept t (upd b f t').
Proof.
  intros K Nu i Ui. destruct (K i Ui) as [U' E']. assert (i <> b) by (intros ->; done). unfold used. by rewrite ba_upd_ne.
Qed.

(** The file's metadata are hung on its bigalloc once librunt is done. *)
Lemma file_filled s s3 t2 F h site M meta fm segs secs :
  adds (s_table s) t2 F (b_begin (ba (s_table s) M), file_limit h, M, static_file_allocator, static_segment_allocator, 0,
    free_file_metadata_ptr, 0, 0) -> used (s_table s) M ->
  kept t2 (s_table s3) -> loading s3 F segs secs -> afiles s3 !! meta = Some fm ->
  m_l_addr fm = lm_addr h /\ m_load_site fm = site /\ m_phdrs fm = dlpi_phdr h ->
  (forall x, x ∈ segs <-> x ∈ defined_segments fm meta (runt_callbacks h)) ->
  (forall x, x ∈ secs <-> x ∈ defined_sections fm (runt_callbacks h)) ->
  (forall x, x ∈ segs -> exists m, segments s3 !! x.2 = Some m /\ metavector_size m = 0) ->
  let s4 := set_s_table (upd F (set_private meta free_file_metadata_ptr) (s_table s3)) s3 in
  mmap_ok (s_mmap s4) /\ static_tree (s_table s4) /\ kept (s_table s) (s_table s4) /\ file_at s4 h site M F meta fm.
Proof.
  intros A UM Kp [K3 T3 Tr] Ef (El & Es & Ep) Hsegs Hsecs Hbare s4. set (t' := s_table s3) in *. set (t4 := upd F _ t') in *.
  change (s_table s4) with t4. pose proof (ad_self _ _ _ _ A) as [= EF1 EF2 EF3 EF4 EF5 EF6 _ _ _].
  assert (UF : used t2 F) by (apply (ad_used _ _ _ _ A); by left). destruct (Kp F UF) as [UF' _].
  destruct (kept_extent t2 t' F Kp UF) as (XF' & PF' & AF' & SF'). unfold extent_at in XF'. injection XF' as EbF EeF _.
  destruct distinct_allocators as (D1 & _ & _ & _ & D5 & _). assert (W' : wf t') by apply (mk_table _ K3).
  assert (Kp4 : kept (s_table s) t4).
  { apply kept_upd; [|apply A]. eapply kept_trans; [by apply (adds_kept _ _ F _ A)|done]. }
  split_and!; [|by apply static_tree_upd|done|].
  { apply (set_private_ok (s_mmap s3) F); [done..|]. change (m_table (s_mmap s3)) with t'. congruence. }
  assert (Hot : forall i, i <> F -> extent_at t4 i = extent_at t' i /\ ba t4 i = ba t' i) by (intros i N; unfold extent_at, t4; by rewrite ba_upd_ne).
  assert (Hpar : forall i, parent (ba t4 i) = parent (ba t' i) /\ (used t4 i <-> used t' i)).
  { intros i. unfold used, t4. rewrite ba_upd. case_decide as Hd; [subst i; by destruct (ba t' F)|done]. }
  destruct (kept_extent _ _ M Kp4 UM) as (XM & _). unfold extent_at in XM. injection XM as EM4 _ _.
  split; change (s_table s4) with t4.
  - by split_and!.
  - destruct (Hpar F) as [-> ->]. rewrite EM4. unfold extent_at, t4. rewrite ba_upd_eq. cbn. split_and!; [done|congruence..].
  - intros i p Ei Et. assert (Hx : segment_extent fm meta (load_index (dlpi_phdr h) i) p ∈ segs).
    { apply Hsegs. unfold runt_callbacks. rewrite <- Ep in Ei |- *. apply header_segments. by exists i, p. }
    destruct (ft_segs _ _ _ _ Tr _ Hx) as (g & Ug & Pg & Xg). destruct (ft_seg _ _ _ _ Tr g Ug Pg) as [Ag _].
    assert (N : g <> F) by (intros ->; by apply (parent_not_self t' F)). exists g. destruct (Hot g N) as [-> ->], (Hpar g) as [_ ->].
    split_and!; [done..|]. exact (Hbare _ Hx).
  - intros g Ug Pg. destruct (Hpar g) as [Epg Eug]. apply Eug in Ug. rewrite Epg in Pg. destruct (ft_seg _ _ _ _ Tr g Ug Pg) as [_ Hx%Hsegs].
    assert (N : g <> F) by (intros ->; by apply (parent_not_self t' F)). destruct (Hot g N) as [-> _].
    unfold runt_callbacks in Hx. rewrite <- Ep in Hx |- *. by apply header_segments in Hx.
  - intros sh Hsh Hal Nz. assert (Hx : section_extent fm sh ∈ secs).
    { apply Hsecs, header_sections. exists sh. split_and!; [apply list_elem_of_filter|done..]. by rewrite runt_allocated. }
    destruct (ft_secs _ _ _ _ Tr _ Hx) as (c & Uc & Nc & Pc & Xc).
    destruct (ft_sec _ _ _ _ Tr c Uc Nc Pc) as (Ac & Sc & _). assert (N : c <> F) by (intros ->; congruence). exists c.
    destruct (Hot c N) as [-> ->], (Hpar c) as [_ ->], (Hpar (parent (ba t' c))) as [-> _]. by split_and!.
  - intros c Uc Nc Pc. destruct (Hpar c) as [Epc Euc]. apply Euc in Uc. rewrite Epc in Nc, Pc. rewrite (proj1 (Hpar (parent (ba t' c)))) in Pc.
    destruct (ft_sec _ _ _ _ Tr c Uc Nc Pc) as (Ac & _ & Hx%Hsecs). assert (N : c <> F) by (intros ->; congruence).
    destruct (Hot c N) as [-> _]. apply header_sections in Hx as (sh & [_ Hsh]%list_elem_of_filter & Nz & Ex). by exists sh.
Qed.

Lemma metadata_loaded s s4 h site M F meta fm :
  file_at s4 h site M F meta fm -> m_filename fm = runt_name h -> m_build_id fm = runt_build_id h -> meta <> 0 ->
  h ∈ early_lib_handles \/ meta_quiet h -> s_sites s4 = s_sites s -> (exists x, init_allocsites_info meta (s_sites s) = Done (tt, x)) ->
  exists s5 fm5, (if bool_decide (h ∈ early_lib_handles) then mret tt else load_metadata (B := release) meta h) s4 = Done (tt, s5) /\
    s_mmap s5 = s_mmap s4 /\ file_at s5 h site M F meta fm5.
Proof.
  intros At4 En Ei Nm Hq Es4 Hx. destruct (bool_decide_reflect (h ∈ early_lib_handles)); [by exists s4, fm; split_and!|].
  destruct Hq as [?|Hq]; [done|].
  destruct (load_metadata_ok s4 meta h fm) as (s5 & fm5 & E5 & Ef5 & So & Em5 & Eg5); [apply (fa_meta _ _ _ _ _ _ _ At4)|done..|by rewrite Es4|].
  exists s5, fm5. split_and!; [done..|]. by apply (file_at_same s4 s5 h site M F meta fm).
Qed.

Lemma notify_load_ok s h site M : mmap_ok (s_mmap s) -> static_tree (s_table s) -> loadable s h M ->
  exists meta fm F s', __static_file_allocator_notify_load (B := release) h site s = Done (meta, s') /\
    mmap_ok (s_mmap s') /\ static_tree (s_table s') /\ kept (s_table s) (s_table s') /\ file_at s' h site M F meta fm.
Proof.
  intros K T Lb. destruct (place_file s h M K T Lb) as (F & t1 & Enew & A & Ld). destruct Lb as [(q & O) Hlo Hhi _ Hs R Ly Nbrk Nname Hsites Hmeta].
  pose proof (tk_wf _ (mk_table _ K)) as W. pose proof O as (UM & AM & _). change (m_table (s_mmap s)) with (s_table s) in *.
  destruct max_user_address_spec as [[_ Hmax] _]. pose proof (wf_bounds _ W M UM) as HM.
  set (t2 := upd F (set_suballocator static_segment_allocator) t1) in *. set (s1 := set_s_table t2 s) in *.
  pose proof (ad_self _ _ _ _ A) as [= EF1 EF2 _ _ _ EF6 _ _ _].
  destruct (set_up_file s1 F h site Ld) as (meta & fm & t' & gs' & segs' & secs' & Erunt & Nmeta & Hfm & (Hn & Hi) & Ld' & Kp & Hsegs & Hsecs & Hbare).
  { by apply (room_adds (s_table s) t2 F _ _ A). }
  { intros meta fm. change (s_table s1) with t2. unfold extent_at. rewrite EF1, EF2, EF6. apply Ly. }
  set (s3 := at_load t' gs' (set_afile meta fm s1)) in *.
  set (s3' := if FILE_META_DESCRIBES_EXECUTABLE fm then set_executable_file F s3 else s3).
  assert (Ef3 : afiles s3' !! meta = Some fm) by (unfold s3'; destruct (FILE_META_DESCRIBES_EXECUTABLE fm); apply lookup_insert_eq).
  destruct (file_filled s s3' t2 F h site M meta fm segs' secs') as (K4 & T4 & Kp4 & At4); try done.
  { unfold s3'. by destruct (FILE_META_DESCRIBES_EXECUTABLE fm). }
  { unfold s3'. destruct Ld'. by destruct (FILE_META_DESCRIBES_EXECUTABLE fm). }
  { unfold s3'. by destruct (FILE_META_DESCRIBES_EXECUTABLE fm). }
  set (s4 := set_s_table _ s3') in *.
  destruct (metadata_loaded s s4 h site M F meta fm) as (s5 & fm5 & E5 & Em5 & At5); try done.
  { unfold s4, s3'. by destruct (FILE_META_DESCRIBES_EXECUTABLE fm). }
  assert (Et5 : s_table s5 = s_table s4) by exact (f_equal m_table Em5).
  assert (Eb5 : brk_mapping_bigalloc (s_mmap s5) = brk_mapping_bigalloc (s_mmap s)).
  { rewrite Em5. unfold s4, s3'. by destruct (FILE_META_DESCRIBES_EXECUTABLE fm). }
  exists meta, fm5, F, s5. split; [|by rewrite Em5, Et5]. unfold __static_file_allocator_notify_load. rewrite (bind_Done _ _ s tt s) by done.
  destruct (get_memory_mapping_ok (B := release) (s_mmap s) _ M q K (contains_user _ M _ W UM Hlo) O Hlo) as (es & i & e & _ & _ & _ & Eg1).
  destruct (get_memory_mapping_ok (B := release) (s_mmap s) _ M q K (contains_user _ M _ W UM Hhi) O Hhi) as (es2 & i2 & e2 & _ & _ & _ & Eg2).
  fold (file_limit h). unfold contains in Hlo, Hhi. rewrite (wrap_small 64 (lm_addr h + _)), (wrap_small 64 (file_limit h - 1)), (wrap_small 64 (file_limit h)) by lia.
  rewrite (bind_Done _ _ _ _ _ (on_smmap_read _ _ _ Eg1)), (bind_Done _ _ _ _ _ (on_smmap_read _ _ _ Eg2)). cbv iota beta.
  rewrite Z.eqb_refl, (bind_Done _ _ s M s), (bind_Done _ _ s (b_begin (ba (s_table s) M)) s) by (done || by apply on_stable_read).
  rewrite (wrap_small 64 (file_limit h - b_begin (ba (s_table s) M))), (bind_Done _ _ _ _ _ Enew) by lia.
  rewrite (bind_Done _ _ (set_s_table t1 s) tt s1) by done. rewrite (bind_Done _ _ _ _ _ Erunt), (bind_Done _ _ s3 tt s3) by done.
  rewrite (bind_Done _ _ s3 fm s3) by (apply rd_file_ok, lookup_insert_eq).
  rewrite (bind_Done _ _ s3 tt s3') by (unfold s3'; by destruct (FILE_META_DESCRIBES_EXECUTABLE fm)).
  rewrite (bind_Done _ _ s3' tt s4), (bind_Done _ _ s4 tt s4), (bind_Done _ _ _ _ _ E5) by done.
  rewrite (bind_Done _ _ s5 (brk_mapping_bigalloc (s_mmap s)) s5) by (rewrite <- Eb5; by apply on_smmap_read).
  rewrite (proj2 (Z.eqb_neq M _)), (bind_Done _ _ s5 tt s5) by done.
  by rewrite bool_decide_eq_false_2, (bind_Done _ _ s5 tt s5) by done.
Qed.
End load.

(** ** Unloading a file *)

Section unload.
Context {V : Vas} {VL : VasLaws V} {H : Hooks} {E : MmapEnv} {EL : MmapLaws E} {St : StaticEnv} {StL : StaticLaws E St}.

(** Closing a meta-object removes the bigallocs of that object. *)
Class CloseLaws : Type := {
  closed : Z -> Z -> Prop;
  dlclose_prunes h s : mmap_ok (s_mmap s) -> exists s', do_dlclose h s = Done (tt, s') /\
    mmap_ok (s_mmap s') /\ pruned (s_table s) (s_table s') (closed h) /\ afiles s' = afiles s;
}.
Context {CL : CloseLaws}.

(** [f] is the bigalloc of a loaded file of that name. *)
Definition unloads (s : sstate) (name : string) (f : Z) (fm : allocs_file_metadata) : Prop :=
  used (s_table s) f /\ allocated_by (ba (s_table s) f) = static_file_allocator /\
  afiles s !! allocator_private (ba (s_table s) f) = Some fm /\ name = m_filename fm.

Record unloadable (s : sstate) (name : string) : Prop := {
  ul_mmap : mmap_ok (s_mmap s);
  ul_static : static_tree (s_table s);
  ul_files f : used (s_table s) f -> allocated_by (ba (s_table s) f) = static_file_allocator ->
    is_Some (afiles s !! allocator_private (ba (s_table s) f));
  ul_closed f fm : unloads s name f fm -> ~ closed (meta_obj_handle fm) f;
}.

Lemma pruned_refl t : wf t -> index_ok t -> pruned t t (fun _ => False).
Proof.
  intros W I. split; [done..| |done| |].
  - tauto.
  - intros i l _ K. assert (El : filter (used t) l = l); [|by rewrite El].
    destruct K as (_ & _ & Hl). assert (Hu : Forall (used t) l) by (apply Forall_forall; intros c Hc; by apply Hl).
    clear Hl. induction Hu as [|c l Uc _ IH]; [done|]. rewrite filter_cons_True by done. by rewrite IH.
  - exists []. split_and!; [apply NoDup_nil_2| |by rewrite app_nil_r]. intros i. rewrite elem_of_nil. tauto.
Qed.

Lemma pruned_static t t' D : static_tree t -> pruned t t' D -> static_tree t'.
Proof.
  intros [T1 T2 T3] P.
  assert (Hf : forall i, used t' i -> used t i /\ parent (ba t' i) = parent (ba t i) /\ allocated_by (ba t' i) = allocated_by (ba t i)).
  { intros i Ui. pose proof (pr_meta _ _ _ P i Ui) as [= _ _ -> -> _ _ _ _ _]. split; [by apply (pr_used _ _ _ P)|done]. }
  assert (Hp : forall i, used t' i -> parent (ba t i) <> 0 -> used t' (parent (ba t i))).
  { intros i Ui N. destruct (Hf i Ui) as (_ & <- & _). apply parent_used; [apply P|done|]. by destruct (Hf i Ui) as (_ & -> & _). }
  split; intros i Ui; destruct (Hf i Ui) as (U0 & -> & ->); intros Ai.
  - destruct (T1 i U0 Ai) as (N & Am & Tm). destruct (Hf _ (Hp i Ui N)) as (_ & -> & ->). done.
  - destruct (T2 i U0 Ai) as (N & Am). destruct (Hf _ (Hp i Ui N)) as (_ & _ & ->). done.
  - destruct (T3 i U0 Ai) as (N & Am). destruct (Hf _ (Hp i Ui N)) as (_ & _ & ->). done.
Qed.

(** Deleting what is nested leaves the mappings alone. *)
Lemma prune_nested_ok s t f : mmap_ok s -> used (m_table s) f -> parent (ba (m_table s) f) <> 0 ->
  pruned (m_table s) t (ancestor (m_table s) f) -> mmap_ok (set_m_table t s).
Proof.
  intros K Uf Nf P. destruct (mk_table _ K) as [W I Hst Sn].
  assert (Hroot : forall i, used (m_table s) i -> parent (ba (m_table s) i) = 0 -> used t i).
  { intros i Ui Pi. apply (pr_used _ _ _ P). split; [done|]. intros [->|(_ & Np & _)]%ancestor_inv; done. }
  assert (Hm : forall i, used t i -> Forest.meta (ba t i) = Forest.meta (ba (m_table s) i)) by apply (pr_meta _ _ _ P).
  apply same_owners_ok; [done| | |].
  - split; [apply P..| |by apply (pruned_sane _ _ _ P)]. destruct Hst as [[U0 P0]|[_ N0]]; [left|by destruct (N0 f)].
    rewrite (pr_start _ _ _ P). pose proof (Hroot _ U0 P0) as Us. split; [done|]. by pose proof (Hm _ Us) as [= _ _ -> _ _ _ _ _ _].
  - intros i r. unfold owner. simpl. split.
    + intros (Ui & Ea & Er). pose proof (Hm i Ui) as [= _ _ _ Ea' _ Er' _ _ _]. apply (pr_used _ _ _ P) in Ui as [Ui _]. split_and!; congruence.
    + intros O. pose proof (mk_top _ K i r O) as Pi. destruct O as (Ui & Ea & Er). pose proof (Hroot i Ui Pi) as Ut.
      pose proof (Hm i Ut) as [= _ _ _ Ea' _ Er' _ _ _]. split_and!; congruence.
  - intros i r O. pose proof (Hroot i (proj1 O) (mk_top _ K i r O)) as Ut. by pose proof (Hm i Ut) as [= -> -> -> _ _ _ _ _ _].
Qed.

(** What was pruned since [s] is below a file of the name or belongs to its meta-object. *)
Definition only_unloaded (s : sstate) (name : string) (D : Z -> Prop) : Prop :=
  forall i, used (s_table s) i -> D i ->
    exists f fm, unloads s name f fm /\ (ancestor (s_table s) f i \/ closed (meta_obj_handle fm) i).

Lemma unloads_pruned s s' name D f fm :
  pruned (s_table s) (s_table s') D -> afiles s' = afiles s -> unloads s' name f fm -> unloads s name f fm.
Proof.
  intros P Ef (Uf & Af & Hf & Hn). pose proof (pr_meta _ _ _ P f Uf) as [= _ _ _ Ea _ Ep _ _ _].
  split_and!; [by apply (pr_used _ _ _ P)|congruence|congruence|done].
Qed.

Lemma unloadable_pruned s s' name D :
  unloadable s name -> mmap_ok (s_mmap s') -> pruned (s_table s) (s_table s') D -> afiles s' = afiles s -> unloadable s' name.
Proof.
  intros [K T F C] K' P Ef. split; [done|by eapply pruned_static| |].
  - intros f Uf Af. pose proof (pr_meta _ _ _ P f Uf) as [= _ _ _ Ea _ Ep _ _ _]. rewrite Ep, Ef. rewrite Ea in Af.
    apply F; [by apply (pr_used _ _ _ P)|done].
  - intros f fm Hf. by apply C, (unloads_pruned s s' name D).
Qed.

Lemma unload_one s name f fm :
  unloadable s name -> unloads s name f fm ->
  exists s', (do_dlclose (meta_obj_handle fm) ;; begin_ ← on_stable (rd b_begin f);
              on_stable (__liballocs_delete_bigalloc_at (B := release) begin_ static_file_allocator) ;; mret tt) s = Done (tt, s') /\
    unloadable s' name /\ afiles s' = afiles s /\
    exists D, pruned (s_table s) (s_table s') D /\ D f /\ only_unloaded s name D.
Proof.
  intros Ul Hu. pose proof Hu as (Uf & Af & Hf & Hn). destruct (dlclose_prunes (meta_obj_handle fm) s (ul_mmap _ _ Ul)) as (s1 & E1 & K1 & P1 & Ef1).
  pose proof (unloadable_pruned s s1 name _ Ul K1 P1 Ef1) as Ul1. destruct (mk_table _ K1) as [W1 I1 _ Sn1].
  change (m_table (s_mmap s1)) with (s_table s1) in *.
  assert (Uf1 : used (s_table s1) f) by (apply (pr_used _ _ _ P1); split; [done|by apply (ul_closed _ _ Ul f fm)]).
  pose proof (pr_meta _ _ _ P1 f Uf1) as [= _ _ Ep Ea _ _ _ _ _].
  destruct (st_file _ (ul_static _ _ Ul1) f Uf1 ltac:(congruence)) as (Np & _).
  destruct (bigalloc_del_ok (s_table s1) f W1 I1 Sn1 Uf1) as (t2 & E2 & P2).
  assert (Hin : forall i, used (s_table s) i -> ~ closed (meta_obj_handle fm) i -> ancestor (s_table s1) f i -> ancestor (s_table s) f i).
  { intros i Ui Nc. apply (pruned_ancestor _ _ _ _ _ P1). by apply (pr_used _ _ _ P1). }
  rewrite (bind_Done _ _ _ _ _ E1), (bind_Done _ _ s1 (b_begin (ba (s_table s1) f)) s1) by by apply on_stable_read.
  exists (set_s_table t2 s1). split_and!.
  - rewrite (bind_Done _ _ s1 true (set_s_table t2 s1)); [done|]. apply on_stable_Done. unfold __liballocs_delete_bigalloc_at.
    destruct (lookup_one (B := release) (s_table s1) static_file_allocator f (b_begin (ba (s_table s1) f))) as [El _]; try done.
    { apply static_nonnull. } { by apply one_file, (ul_static _ _ Ul1). } { congruence. } { by apply contains_begin. }
    rewrite (bind_Done _ _ _ _ _ El), (proj2 (Z.eqb_neq f 0)) by by apply (used_nonzero (s_table s1)).
    by rewrite (bind_Done _ _ _ _ _ E2).
  - apply (unloadable_pruned s1 _ name (ancestor (s_table s1) f) Ul1); [|done|done]. by apply (prune_nested_ok (s_mmap s1) t2 f).
  - done.
  - exists (fun i => closed (meta_obj_handle fm) i \/ ancestor (s_table s1) f i). split_and!.
    + by apply (pruned_trans _ (s_table s1)).
    + right. apply ancestor_refl.
    + intros i Ui Di. exists f, fm. split; [done|]. destruct (pruned_dec _ _ _ i P1 Ui) as [|Nc]; [by right|left].
      apply Hin; [done..|]. tauto.
Qed.

Lemma unload_at_ok s b name : unloadable s name ->
  exists s' D, unload_at (B := release) b name s = Done (tt, s') /\ unloadable s' name /\ afiles s' = afiles s /\
    pruned (s_table s) (s_table s') D /\ only_unloaded s name D /\ forall fm, unloads s name b fm -> D b.
Proof.
  intros Ul. unfold unload_at. rewrite (bind_Done _ _ s (ba (s_table s) b) s) by by apply on_stable_read.
  assert (Hno : (forall fm, ~ unloads s name b fm) -> exists s' D, (mret tt : M sstate unit) s = Done (tt, s') /\ unloadable s' name /\
    afiles s' = afiles s /\ pruned (s_table s) (s_table s') D /\ only_unloaded s name D /\ forall fm, unloads s name b fm -> D b).
  { intros Hn. exists s, (fun _ => False). pose proof (mk_table _ (ul_mmap _ _ Ul)) as Tk.
    split_and!; [done..|apply pruned_refl; apply Tk| |]; [by intros i|]. intros fm Hf. by apply (Hn fm). }
  destruct (BIGALLOC_IN_USE (ba (s_table s) b)) eqn:Eu; [|apply Hno; intros fm (Ub & _)].
  2: { unfold BIGALLOC_IN_USE in Eu. destruct Ub. lia. }
  destruct (Z.eqb_spec (allocated_by (ba (s_table s) b)) static_file_allocator) as [Ea|Na]; cbn [andb]; [|apply Hno; by intros fm (_ & ? & _)].
  assert (Ub : used (s_table s) b) by (unfold BIGALLOC_IN_USE in Eu; split; lia).
  destruct (ul_files _ _ Ul b Ub Ea) as (fm & Hf). rewrite (bind_Done _ _ _ _ _ (rd_file_ok _ _ _ Hf)).
  destruct (bool_decide (name = m_filename fm)) eqn:En.
  - apply bool_decide_eq_true in En. destruct (unload_one s name b fm Ul) as (s1 & E1 & Ul1 & Ef1 & D1 & P1 & Db & Ho); [by split_and!|].
    exists s1, D1. by split_and!.
  - apply bool_decide_eq_false in En. apply Hno. intros fm' (_ & _ & Hf' & ?). congruence.
Qed.

Lemma unload_loop_ok n : forall s b name, unloadable s name ->
  exists s' D, unload_loop (B := release) n b name s = Done (tt, s') /\ unloadable s' name /\ afiles s' = afiles s /\
    pruned (s_table s) (s_table s') D /\ only_unloaded s name D /\
    forall f fm, unloads s name f fm -> b <= f < b + Z.of_nat n -> D f.
Proof.
  induction n as [|n IH]; intros s b name Ul.
  - exists s, (fun _ => False). pose proof (mk_table _ (ul_mmap _ _ Ul)) as Tk.
    split_and!; [done..|apply pruned_refl; apply Tk| |]; [by intros i|]. intros; lia.
  - cbn [unload_loop]. destruct (unload_at_ok s b name Ul) as (s1 & D1 & E1 & Ul1 & Ef1 & P1 & Ho1 & Hb1). rewrite (bind_Done _ _ _ _ _ E1).
    destruct (IH s1 (b + 1) name Ul1) as (s2 & D2 & E2 & Ul2 & Ef2 & P2 & Ho2 & Hf2).
    exists s2, (fun i => D1 i \/ (used (s_table s1) i /\ D2 i)). split_and!; [done|done|congruence| | |].
    + apply (pruned_trans _ (s_table s1)); [done|]. eapply pruned_equiv; [|exact P2]. tauto.
    + intros i Ui [Hd|[Ui1 Hd]]; [by apply Ho1|]. destruct (Ho2 i Ui1 Hd) as (f & fm & Hu & Ha). exists f, fm.
      split; [by apply (unloads_pruned s s1 name D1)|]. destruct Ha as [Ha|Ha]; [left|by right].
      by apply (pruned_ancestor _ _ _ _ _ P1).
    + intros f fm Hu Hr. destruct (decide (f = b)) as [->|N]; [left; by apply (Hb1 fm)|].
      destruct (decide (used (s_table s1) f)) as [Uf1|Nf1].
      * right. split; [done|]. apply (Hf2 f fm); [|lia]. destruct Hu as (_ & Ha & Hf & Hn).
        pose proof (pr_meta _ _ _ P1 f Uf1) as [= _ _ _ Ea _ Ep _ _ _]. split_and!; [done|congruence|congruence|done].
      * left. destruct (pruned_dec _ _ _ f P1 (proj1 Hu)) as [|Nd]; [done|]. destruct Nf1. apply (pr_used _ _ _ P1). split; [apply Hu|done].
Qed.
End unload.
