(* ===== verification/StaticHole.v ===== *)
(** Plugging a hole between two mappings of a file: the mappings of the two
    bigallocs and of the plug end up in the lower one. *)
From stdpp Require Import strings.
From S2P Require Import Prelude DList Vas BigAlloc PageIndex PageIndexQuery BigAllocFacts Forest Traversal.
From S2P Require Import Traversal Create Delete Resize QueryCorrect Reachable.
From S2P Require Import MappingSeq MappingSeqFacts Mmap MmapFacts MapFacts Brk BrkFacts AllocSites Uniqtype Subobject Query StaticData StaticFacts.

Section hole.
Context {V : Vas} {VL : VasLaws V} {H : Hooks} {E : MmapEnv} {EL : MmapLaws E} {St : StaticEnv}.

Lemma hole_free_ok s lo hi n : mmap_ok s -> free_range s lo hi -> forall i,
  lo <= i * PAGE_SIZE -> (i + Z.of_nat n) * PAGE_SIZE <= hi -> hole_free n i (m_table s) = Done (true, m_table s).
Proof.
  intros K F. assert (HP : PAGE_SIZE = 4096) by done. induction n as [|n IH]; intros i Hl Hh; [done|]. cbn [hole_free].
  rewrite (bind_Done _ _ _ (pi (m_table s) i) (m_table s)), (bind_Done _ _ _ _ _ (IH (i + 1) ltac:(lia) ltac:(lia))) by done.
  by rewrite (free_page s lo hi i K F) by lia.
Qed.

(** The entry that stands for another one in a sequence of that file. *)
Definition as_file (file : option string) (e : mapping_entry) : mapping_entry :=
  new_entry (e_begin e) (e_end e) (e_prot e) (e_flags e) (e_offset e) file (e_caller e).

Lemma as_file_contig file p q es : contig p q es -> contig p q (as_file file <$> es).
Proof. induction es as [|e es IH] in p |- *; [done|]. intros (<- & He & C). simpl. split_and!; [done..|by apply IH]. Qed.

Lemma as_file_attrs file es a :
  attrs_at (as_file file <$> es) a = (fun '(prot, flags, _, caller) => (prot, flags, is_null file, caller)) <$> attrs_at es a.
Proof. induction es as [|e es IH]; [done|]. simpl. by destruct (_ && _). Qed.

(** Appending the mappings of one sequence to another. *)
Lemma augment_from_ok p es2 : forall s q es junk hi,
  sequences s !! p = Some q -> seq_ok q es junk -> contig (seq_end q) hi es2 -> hi < 2 ^ 63 ->
  (nused q + length es2 <= MAPPING_SEQUENCE_MAX_LEN)%nat ->
  exists q' junk', augment_from (B := release) p es2 s = Done (tt, set_sequence p q' s) /\
    seq_ok q' (es ++ (as_file (seq_filename q) <$> es2)) junk' /\ seq_begin q' = seq_begin q /\ seq_end q' = hi.
Proof.
  induction es2 as [|e es2 IH]; intros s q es junk hi Eq Ok C Hhi Hn; simpl in C.
  - exists q, junk. cbn [augment_from]. rewrite app_nil_r. split_and!; [|done..]. unfold set_sequence. rewrite insert_id by done. by destruct s.
  - destruct C as (Eb & He & C). pose proof (contig_le _ _ _ C). simpl in Hn.
    destruct (augment_extends_ok (B := release) get_highest_loaded_object_below q es junk (e_end e) (e_prot e) (e_flags e) (e_offset e)
      (seq_filename q) (e_caller e) Ok ltac:(lia)) as (r & q1 & es1 & junk1 & Ea & Ok1 & _ & Ht & Hr).
    destruct (Hr eq_refl ltac:(lia)) as [-> Ef1]. destruct (Ht eq_refl) as (-> & Eb1 & Ee1). clear Ht Hr.
    destruct (IH (set_sequence p q1 s) q1 _ junk1 hi (lookup_insert_eq _ _ _) Ok1) as (q' & junk' & E' & Ok' & Eb' & Ee').
    { by rewrite Ee1. } { done. }
    { rewrite (sq_nused _ _ _ Ok1), length_app. simpl. rewrite <- (sq_nused _ _ _ Ok). lia. }
    exists q', junk'. cbn [augment_from]. rewrite (bind_Done _ _ _ _ _ (on_seq_read p (gets id) s q q Eq eq_refl)).
    rewrite <- Eb in Ea. rewrite (bind_Done _ _ _ _ _ (on_seq_Done p _ s q true q1 Eq Ea)), (bind_Done _ _ _ tt (set_sequence p q1 s)) by done.
    split_and!; [|rewrite fmap_cons; replace (es ++ _) with ((es ++ [as_file (seq_filename q) e]) ++ (as_file (seq_filename q) <$> es2)) by by rewrite <- app_assoc|congruence|done].
    + rewrite E'. unfold set_sequence. simpl. by rewrite insert_insert_eq.
    + rewrite Ef1 in Ok'. rewrite <- Eb in Ok'. exact Ok'.
Qed.

(** Two mappings of a file with a hole between them that can be plugged. *)
Record pluggable (s : mstate) (lowest highest p p' : Z) (q q' : mapping_sequence) : Prop := {
  pl_lower : owner s lowest p /\ sequences s !! p = Some q;
  pl_upper : owner s highest p' /\ sequences s !! p' = Some q';
  pl_hole : free_range s (b_end (ba (m_table s) lowest)) (b_begin (ba (m_table s) highest));
  pl_size : b_end (ba (m_table s) highest) - b_begin (ba (m_table s) lowest) <= BIGGEST_SANE_USER_ALLOC;
  pl_room : (nused q + nused q' < MAPPING_SEQUENCE_MAX_LEN)%nat;
  pl_anchor : highest <> START (m_table s);
  pl_kernel : MMAP_RETURN_IS_ERROR (raw_mmap (b_end (ba (m_table s) lowest))
    (b_begin (ba (m_table s) highest) - b_end (ba (m_table s) lowest))) = false;
}.

Definition set_s_mmap (m : mstate) (s : sstate) : sstate := set_s_brk (set_b_mmap m (s_brk s)) s.
Lemma on_smmap_Done {A} (x : M mstate A) (s : sstate) a m :
  x (s_mmap s) = Done (a, m) -> on_smmap x s = Done (a, set_s_mmap m s).
Proof. intros Ex. by apply on_brk_Done, on_mmap_Done. Qed.

(** The upper bigalloc goes and the lower one takes its place. *)
Lemma coalesce_ok s lowest highest p p' q q' :
  mmap_ok s -> pluggable s lowest highest p p' q q' ->
  exists t1 t2, __liballocs_delete_bigalloc_at (B := release) (b_begin (ba (m_table s) highest)) mmap_allocator (m_table s) = Done (true, t1) /\
    __adjust_bigalloc_end (B := release) lowest (b_end (ba (m_table s) highest)) t1 = Done (tt, t2) /\
    b_begin (ba t2 lowest) = b_begin (ba (m_table s) lowest) /\ b_end (ba t2 lowest) = b_end (ba (m_table s) highest) /\
    forall q2 es2 junk2, seq_ok q2 es2 junk2 -> seq_begin q2 = b_begin (ba (m_table s) lowest) -> seq_end q2 = b_end (ba (m_table s) highest) ->
    let s' := set_sequence p q2 (set_m_table t2 s) in
    mmap_ok s' /\ forall a x, maps_to s' a x <->
      attrs_at es2 a = Some x \/ (maps_to s a x /\ ~ contains (m_table s) lowest a /\ ~ contains (m_table s) highest a).
Proof.
  intros K [(Ol & Eq) (Oh & Eq') F Hs _ Ns _]. destruct (mk_table _ K) as [W I Hst Sn].
  pose proof (wf_bounds _ W lowest (proj1 Ol)) as Hl. pose proof (wf_bounds _ W highest (proj1 Oh)) as Hh. destruct (fg_range _ _ _ F) as [Hhole _].
  pose proof (mk_top _ K _ _ Ol) as Pl. pose proof (mk_top _ K _ _ Oh) as Ph. assert (Nlh : lowest <> highest) by (intros ->; lia).
  destruct (wf_aligned _ W lowest (proj1 Ol) Pl) as [Al Ale]. destruct (wf_aligned _ W highest (proj1 Oh) Ph) as [Ah Ahe].
  destruct (bigalloc_del_ok (m_table s) highest W I Sn (proj1 Oh)) as (t1 & Et1 & P).
  destruct (prune_mapping_ok s t1 highest p' K Oh Ns P) as [K1 M1]. set (s1 := set_m_table t1 s) in *.
  assert (Ul1 : used t1 lowest).
  { apply (pr_used _ _ _ P). split; [apply Ol|]. intros A. inversion A as [|? y ? (_ & Ey & Ny)]; [done|]. congruence. }
  pose proof (pr_meta _ _ _ P lowest Ul1) as [= Ebl Eel Epl Eal _ Erl _ _ _].
  assert (O1 : owner s1 lowest p) by (destruct Ol as (_ & ? & ?); split_and!; [done|simpl; congruence..]).
  destruct (mk_table _ K1) as [W1 I1 _ Sn1]. change (m_table s1) with t1 in *.
  assert (Ft : fits_range t1 lowest (b_begin (ba t1 lowest)) (b_end (ba (m_table s) highest))).
  { rewrite Ebl. split; rewrite ?Ebl, ?Eel, ?Epl.
    - lia.
    - lia.
    - done.
    - by split.
    - intros c Uc Pc. destruct (wf_parent _ W1 c Uc) as (_ & ? & ?); [rewrite Pc; by apply (used_nonzero t1)|]. rewrite Pc in *. lia.
    - intros c Uc N Pc. rewrite Pl in Pc. pose proof (pr_meta _ _ _ P c Uc) as [= -> -> Epc _ _ _ _ _ _]. rewrite Epc in Pc.
      apply (pr_used _ _ _ P) in Uc as [Uc Na]. assert (Nc : c <> highest) by (intros ->; apply Na, ancestor_refl).
      destruct (owner_disjoint s lowest p c K Ol Uc Pc N) as [?|?]; [|lia].
      destruct (owner_disjoint s highest p' c K Oh Uc Pc Nc) as [?|?]; [lia|].
      destruct (free_clear s _ _ c W F Uc); pose proof (wf_bounds _ W c Uc); lia. }
  destruct (adjust_end_ok t1 lowest W1 I1 Ul1 Sn1 _ Ft) as (t2 & Et2 & R); [rewrite Ebl, Eel; page_lia|lia|].
  pose proof (rz_self _ _ _ _ _ (ro_resized _ _ _ _ _ R)) as Es.
  exists t1, t2. split_and!; [|done| | |].
  - unfold __liballocs_delete_bigalloc_at. rewrite (bind_Done _ _ _ _ _ (find_mapping_ok s highest p' (b_begin (ba (m_table s) highest)) K Oh ltac:(unfold contains; lia))).
    rewrite (proj2 (Z.eqb_neq highest 0)) by (apply (used_nonzero (m_table s)); [done|apply Oh]). by rewrite (bind_Done _ _ _ _ _ Et1).
  - rewrite Es. simpl. congruence.
  - by rewrite Es.
  - intros q2 es2 junk2 Ok2 Eb2 Ee2.
    destruct (resize_mapping_ok s1 lowest p q2 es2 junk2 t2 _ _ K1 O1 Ft R ltac:(lia) Ok2 ltac:(congruence) Ee2) as [K2 M2].
    split; [exact K2|]. intros a x. etransitivity; [apply (M2 a x)|]. rewrite M1. change (m_table s1) with t1. unfold contains. rewrite Ebl, Eel. tauto.
Qed.

(** What is mapped at an address once the hole is plugged. *)
Definition plugged (s : mstate) (lowest highest : Z) (name : option string) (a : Z) (x : Z * Z * bool * Z) : Prop :=
  if decide (b_end (ba (m_table s) lowest) <= a < b_begin (ba (m_table s) highest)) then
    x = (PROT_NONE, Z.lor (Z.lor MAP_FIXED MAP_PRIVATE) MAP_ANONYMOUS, is_null name, plug_hole_caller)
  else if decide (contains (m_table s) highest a) then
    exists anon, maps_to s a (x.1.1, anon, x.2) /\ x.1.2 = is_null name
  else maps_to s a x.

Lemma plugged_attrs s lowest highest p p' q q' es junk es' junk' a x :
  mmap_ok s -> pluggable s lowest highest p p' q q' -> seq_ok q es junk -> seq_ok q' es' junk' ->
  seq_begin q = b_begin (ba (m_table s) lowest) -> seq_end q = b_end (ba (m_table s) lowest) ->
  seq_begin q' = b_begin (ba (m_table s) highest) -> seq_end q' = b_end (ba (m_table s) highest) ->
  attrs_at (es ++ new_entry (b_end (ba (m_table s) lowest)) (b_begin (ba (m_table s) highest)) PROT_NONE
              (Z.lor (Z.lor MAP_FIXED MAP_PRIVATE) MAP_ANONYMOUS) 0 (seq_filename q) plug_hole_caller
            :: (as_file (seq_filename q) <$> es')) a = Some x \/
  (maps_to s a x /\ ~ contains (m_table s) lowest a /\ ~ contains (m_table s) highest a) <->
  plugged s lowest highest (seq_filename q) a x.
Proof.
  intros K [(Ol & Eq) (Oh & Eq') F _ _ _ _] Ok Ok' Eb Ee Eb' Ee'. destruct (fg_range _ _ _ F) as [Hhole _].
  pose proof (sq_contig _ _ _ Ok) as C. pose proof (sq_contig _ _ _ Ok') as C'. pose proof (sq_range _ _ _ Ok). pose proof (sq_range _ _ _ Ok').
  set (e := new_entry _ _ _ _ _ _ _). assert (Ce : contig (seq_end q) (seq_end q') (e :: (as_file (seq_filename q) <$> es'))).
  { simpl. rewrite <- Eb', Ee. split_and!; [done|lia|]. by apply as_file_contig. }
  rewrite (attrs_at_split _ _ _ _ _ a C Ce). unfold plugged.
  assert (Dl : described s lowest p es) by (by exists q, junk). assert (Dh : described s highest p' es') by (by exists q', junk').
  destruct (decide (_ <= a < _)) as [Hh|Hh].
  - rewrite decide_False by lia. rewrite attrs_hit by done. unfold contains. split; [|by intros ->; left].
    intros [[= <-]|(Hm & N & _)]; [done|]. destruct Hm as (b & pb & esb & Ob & Db & Ha).
    pose proof (described_attrs _ _ _ _ _ _ Db Ha) as Cb. destruct (free_clear s _ _ b (tk_wf _ (mk_table _ K)) F (proj1 Ob)); unfold contains in Cb; lia.
  - destruct (decide (contains (m_table s) highest a)) as [Ch|Ch].
    + unfold contains in Ch. rewrite decide_False by lia. rewrite attrs_new by (simpl; lia). rewrite as_file_attrs.
      assert (Hex : (exists anon, maps_to s a (x.1.1, anon, x.2) /\ x.1.2 = is_null (seq_filename q)) <->
                    exists anon, attrs_at es' a = Some (x.1.1, anon, x.2) /\ x.1.2 = is_null (seq_filename q)).
      { split; intros (anon & Hm & Hn); exists anon; (split; [|done]); by apply (maps_to_inside s highest p' es' a _ K Oh Dh Ch). }
      rewrite Hex. destruct (attrs_at es' a) as [[[[pr fl] an] ca]|] eqn:Ea; simpl; cycle 1.
      { split; [intros [?|(_ & _ & [])]; done|by intros (? & ? & _)]. }
      split; [intros [[= <-]|(_ & _ & [])]; [by exists an|done]|]. intros (anon & Hs & Hx). left. destruct x as [[[]]]. simpl in *. by simplify_eq.
    + destruct (decide (a < seq_end q)) as [Hq|Hq].
      * destruct (decide (contains (m_table s) lowest a)) as [Cl|Cl].
        -- rewrite (maps_to_inside s lowest p es a x K Ol Dl Cl). tauto.
        -- unfold contains in Cl. rewrite (attrs_at_outside _ _ _ a C) by lia. split; [by intros [?|[? _]]|by right].
      * rewrite (attrs_at_outside _ _ _ a Ce) by (unfold contains in *; lia). split; [by intros [?|[? _]]|right]. split_and!; [done|unfold contains; lia|done].
Qed.

Lemma plug_hole_ok (s : sstate) lowest highest p p' q q' :
  mmap_ok (s_mmap s) -> pluggable (s_mmap s) lowest highest p p' q q' ->
  exists s', plug_hole_or_abort (B := release) lowest highest s = Done (lowest, s') /\ mmap_ok (s_mmap s') /\
    b_begin (ba (s_table s') lowest) = b_begin (ba (s_table s) lowest) /\
    b_end (ba (s_table s') lowest) = b_end (ba (s_table s) highest) /\
    forall a x, maps_to (s_mmap s') a x <-> plugged (s_mmap s) lowest highest (seq_filename q) a x.
Proof.
  intros K P. pose proof P as [(Ol & Eq) (Oh & Eq') F Hs Rm Ns Kn]. destruct (mk_table _ K) as [W I Hst Sn].
  pose proof (wf_bounds _ W lowest (proj1 Ol)) as Hl. pose proof (wf_bounds _ W highest (proj1 Oh)) as Hh. destruct (fg_range _ _ _ F) as [Hhole _].
  destruct (mk_seq _ K _ _ Ol) as (es & q0 & junk & Eq0 & Ok & Eb & Ee). rewrite Eq in Eq0. injection Eq0 as <-.
  destruct (mk_seq _ K _ _ Oh) as (es' & q0 & junk' & Eq0 & Ok' & Eb' & Ee'). rewrite Eq' in Eq0. injection Eq0 as <-.
  pose proof (sq_range _ _ _ Ok') as Hr'. assert (Np : p <> p').
  { intros <-. pose proof (mk_distinct _ K _ _ _ Ol Oh) as ->. lia. }
  set (m := s_mmap s) in *. change (s_table s) with (m_table m).
  assert (Nl : lowest <> 0) by (apply (used_nonzero (m_table m)); [done|apply Ol]).
  assert (Nh : highest <> 0) by (apply (used_nonzero (m_table m)); [done|apply Oh]).
  destruct (augment_extends_ok (B := release) get_highest_loaded_object_below q es junk (b_begin (ba (m_table m) highest)) PROT_NONE
    (Z.lor (Z.lor MAP_FIXED MAP_PRIVATE) MAP_ANONYMOUS) 0 (seq_filename q) plug_hole_caller Ok ltac:(lia)) as (r & q1 & es1 & junk1 & Ea & Ok1 & _ & Ht & Hr).
  destruct (Hr eq_refl ltac:(lia)) as [-> Ef1]. destruct (Ht eq_refl) as (-> & Eb1 & Ee1). clear Ht Hr. rewrite Ee in Ea, Ok1.
  destruct (coalesce_ok m lowest highest p p' q q' K P) as (t1 & t2 & Ed & Ead & Ebl & Eel & Fin).
  destruct (augment_from_ok p es' (set_m_table t2 (set_sequence p q1 m)) q1 _ junk1 (seq_end q') (lookup_insert_eq _ _ _) Ok1)
    as (q2 & junk2 & Ea2 & Ok2 & Eb2 & Ee2).
  { rewrite Ee1, <- Eb'. exact (sq_contig _ _ _ Ok'). } { lia. }
  { rewrite (sq_nused _ _ _ Ok1), length_app, <- (sq_nused _ _ _ Ok), <- (sq_nused _ _ _ Ok'). simpl. lia. }
  destruct (Fin q2 _ junk2 Ok2) as [K2 M2]; [congruence..|]. rewrite Ef1, <- app_assoc in M2. simpl in M2.
  exists (set_s_mmap (set_sequence p q2 (set_m_table t2 m)) s). split_and!; [|done..|].
  - unfold plug_hole_or_abort. rewrite (bind_Done _ _ _ _ _ (rd_bigalloc_ok lowest s Nl)), (bind_Done _ _ _ _ _ (rd_bigalloc_ok highest s Nh)).
    change (s_table s) with (m_table m). rewrite (bind_Done _ _ _ tt s) by done. cbv zeta. rewrite wrap_small by lia.
    rewrite (proj2 (Z.ltb_ge _ _)) by lia.
    rewrite (bind_Done _ _ _ true s); cycle 1.
    { destruct (fg_pages _ _ _ F). apply on_stable_read. rewrite !PAGENUM_spec by lia. assert (HP : PAGE_SIZE = 4096) by done.
      apply (hole_free_ok m _ _ _ K F); rewrite HP in *; Z.div_mod_to_equations; lia. }
    cbn [negb]. rewrite Kn. destruct Ol as (_ & _ & ->), Oh as (Uh & Ah & Eh). rewrite Eh.
    rewrite (bind_Done _ _ _ q s) by (apply on_smmap_read; by apply on_seq_read with q).
    rewrite (bind_Done _ _ _ _ _ (on_smmap_Done _ s _ _ (on_seq_Done p _ m q true q1 Eq Ea))). cbn [negb].
    set (s1 := set_s_mmap _ _). rewrite (bind_Done _ _ _ tt s1) by done.
    assert (Nu : exists u, on_smmap (on_seq p' (gets id)) s1 = Done (u, s1) /\ take (nused u) (mappings u) = es').
    { exists q'. split; [apply on_smmap_read, on_seq_read with q'; [by etransitivity; [apply lookup_insert_ne|]|done]|].
      by rewrite (sq_maps _ _ _ Ok'), (sq_nused _ _ _ Ok'), take_app_length. }
    destruct Nu as (u & Eu & Etk). rewrite (bind_Done _ _ _ _ _ Eu), (bind_Done _ _ _ tt s1) by done.
    rewrite (bind_Done _ _ _ q1 s1) by (apply on_smmap_read, on_seq_read with q1; [apply lookup_insert_eq|done]).
    do 3 rewrite (bind_Done _ _ _ tt s1) by done.
    rewrite (bind_Done _ _ _ _ _ (on_stable_Done _ s1 _ _ Ed)), (bind_Done _ _ _ tt _) by done.
    rewrite (bind_Done _ _ _ _ _ (on_stable_Done _ (set_s_table t1 s1) _ _ Ead)), Etk.
    rewrite (bind_Done _ _ _ _ _ (on_smmap_Done _ (set_s_table t2 (set_s_table t1 s1)) _ _ Ea2)).
    rewrite (bind_Done _ _ _ q2 _) by (apply on_smmap_read, on_seq_read with q2; [apply lookup_insert_eq|done]).
    rewrite (bind_Done _ _ _ tt _) by done. unfold set_sequence. simpl. by rewrite insert_insert_eq.
  - intros a x. etransitivity; [apply M2|]. by eapply plugged_attrs.
Qed.
End hole.
