(* ===== verification/StaticTheorems.v ===== *)
(** What makes the static allocators correct: an address in a segment gives
    the symbol or relocation target around it, a loaded file's bigallocs
    mirror its segments and sections, unloading takes exactly the files of the
    name away, and a hole between two mappings of the loader is plugged. *)
From stdpp Require Import strings.
From S2P Require Import Prelude DList Vas BigAlloc PageIndex PageIndexQuery BigAllocFacts Forest Traversal.
From S2P Require Import Attach Traversal Create Delete Resize QueryCorrect Reachable Demo.
From S2P Require Import MappingSeq MappingSeqFacts Mmap MmapFacts MapFacts Brk BrkFacts AllocSites Uniqtype Subobject Query QueryFacts.
From S2P Require Import MappingTheorems QueryTheorems SequenceTheorems.
From S2P Require Import MetaDso StaticData StaticFacts StaticLoad StaticHole.

Section lookups.
Context {V : Vas} {B : Build} {Q : QueryEnv} {SE : SiteEnv} {SL : SiteLaws SE} {St : StaticEnv}.

(** C28.  Given the bigalloc of a section, of a segment or of a promoted
    symbol in one, an address gets the description of the last record of the
    segment's sorted metavector that begins at or below it, when the address
    is in that record's span or just past its end: the record's type, its
    address where the file is loaded, its size and the file's load site.
    When no span of the metavector covers the address the static-object error
    is returned.  Both counters are kept. *)
Theorem static_object_found s obj b g fm l :
  in_segment s b g fm -> sorted_spans fm (recs_of g) l ->
  (forall i p x, recs_of g !! i = Some p -> l !! i = Some x -> fst x <= vaddr_of fm obj <= fst x + snd x ->
     (forall y, l !! S i = Some y -> vaddr_of fm obj < fst y) ->
     static_symbol_get_info obj b s = Done ((0, described_as fm p x), count_static 1 0 s)) /\
  ((forall x, x ∈ l -> ~ fst x <= vaddr_of fm obj <= fst x + snd x) ->
     static_symbol_get_info obj b s = Done ((err_unrecognised_static_object, no_info), count_static 0 1 (count_static 1 0 s))).
Proof.
  intros I S. split; [|by apply (symbol_info_none s obj b g fm l)]. intros i p x Ep Ex Hx Hn. by apply (symbol_info_found s obj b g fm l i).
Qed.
End lookups.

Section loading.
Context {V : Vas} {VL : VasLaws V} {H : Hooks} {E : MmapEnv} {EL : MmapLaws E} {U : UniqtypeEnv} {Q : QueryEnv}.
Context {SE : SiteEnv} {SL : SiteLaws SE} {St : StaticEnv} {StL : StaticLaws E St} {RL : RuntLaws}.

(** A segment of a file just loaded gives no static object. *)
Lemma bare_segment s h site M F meta fm i p obj : wf (s_table s) -> file_at s h site M F meta fm ->
  dlpi_phdr h !! i = Some p -> p_type p = PT_LOAD -> static_symbol_allocator <> static_segment_allocator ->
  exists g, extent_at (s_table s) g = segment_extent fm meta (load_index (dlpi_phdr h) i) p /\ parent (ba (s_table s) g) = F /\
    static_symbol_get_info (B := release) obj g s = Done ((err_unrecognised_static_object, no_info), count_static 0 1 (count_static 1 0 s)).
Proof.
  intros W [(Em & _) (Uf & _ & _ & _ & Ef) Sg _ _ _] Hi Ht Ny. destruct (Sg i p Hi Ht) as (g & Ug & Pg & Ag & Eg & m & Es & Z0).
  exists g. split_and!; [done..|]. destruct distinct_allocators as (_ & _ & _ & _ & _ & Nss).
  assert (E1 : section_or_segment (s_table s) g = g).
  { unfold section_or_segment. rewrite Ag, (proj2 (Z.eqb_neq _ _)); [done|congruence]. }
  assert (E2 : segment_around (s_table s) g = g).
  { unfold segment_around. rewrite E1, Ag, (proj2 (Z.eqb_neq _ _)); [done|congruence]. }
  assert (Ng : g <> 0) by by apply (used_nonzero (s_table s)). assert (NF : F <> 0) by by apply (used_nonzero (s_table s)).
  apply (symbol_info_none s obj g m fm []).
  - split; rewrite ?E2, ?E1, ?Pg; [done|by right|done| |].
    + rewrite <- Es. f_equal. by injection Eg.
    + rewrite <- Em. f_equal. by injection Ef.
  - rewrite (no_records m Z0). split; [done|intros ? []%not_elem_of_nil|done].
  - intros ? []%not_elem_of_nil.
Qed.

(** C29.  Loading a shared object whose segments lie in one recorded mapping
    that holds nothing else below the object's end returns its metadata; the
    mappings stay consistent and every bigalloc there was is kept.  The
    object's bigalloc spans from the mapping's begin to the end of the last
    segment.  Below it there is one bigalloc for each loadable program header,
    with its range, and no other; below those there is one for each section
    header that is allocated in memory and not empty, with its range, and none
    that has no header.  Files, segments and sections stay nested in that order.
    The metavectors are empty, so for every address of a segment of the new
    object the static-object error is returned.

    The object is neither the dynamic linker nor in the mapping of the brk
    area; its segments are disjoint, each non-empty, inside the object and none
    the executable's data segment; the sections librunt reports are disjoint
    and each inside a segment; enough records are free; its allocation sites
    can be registered; and no meta-object is newly opened for it: it is one of
    the early libraries, or its meta-object is not found or is there already
    ([loadable], [meta_quiet]).  Which headers an object has, and that librunt
    defines a segment for each loadable and a section for each allocated one,
    is what is assumed of librunt ([RuntLaws]). *)
Theorem file_loaded s h site M :
  mmap_ok (s_mmap s) -> static_tree (s_table s) -> loadable s h M -> static_symbol_allocator <> static_segment_allocator ->
  exists meta fm F s', __static_file_allocator_notify_load (B := release) h site s = Done (meta, s') /\
    mmap_ok (s_mmap s') /\ static_tree (s_table s') /\ kept (s_table s) (s_table s') /\ file_at s' h site M F meta fm /\
    forall i p obj, dlpi_phdr h !! i = Some p -> p_type p = PT_LOAD ->
      exists g, extent_at (s_table s') g = segment_extent fm meta (load_index (dlpi_phdr h) i) p /\ parent (ba (s_table s') g) = F /\
        static_symbol_get_info (B := release) obj g s' =
          Done ((err_unrecognised_static_object, no_info), count_static 0 1 (count_static 1 0 s')).
Proof.
  intros K T L Ny. destruct (notify_load_ok s h site M K T L) as (meta & fm & F & s' & El & K' & T' & Kp & Fa).
  exists meta, fm, F, s'. split_and!; [done..|]. intros i p obj Hi Ht. eapply bare_segment; [apply (mk_table _ K')|done..].
Qed.
End loading.

Section unloading.
Context {V : Vas} {VL : VasLaws V} {H : Hooks} {E : MmapEnv} {EL : MmapLaws E} {St : StaticEnv} {StL : StaticLaws E St} {CL : CloseLaws}.

(** C30.  Unloading an object by name takes away the bigalloc of every file
    of that name with all that is below it and what closing its meta-object
    removes, and nothing else; the mappings and the nesting of static
    bigallocs stay consistent.  Afterwards no file of that name is left. *)
Theorem file_unloaded s name :
  unloadable s name ->
  exists s' D, __static_file_allocator_notify_unload (B := release) true name s = Done (tt, s') /\
    mmap_ok (s_mmap s') /\ static_tree (s_table s') /\ pruned (s_table s) (s_table s') D /\ only_unloaded s name D /\
    (forall f fm, unloads s name f fm -> forall i, ancestor (s_table s) f i -> used (s_table s) i -> ~ used (s_table s') i) /\
    forall f fm, ~ unloads s' name f fm.
Proof.
  intros L. destruct (unload_loop_ok NB s 0 name L) as (s' & D & El & L' & Ea & P & O & G). exists s', D.
  pose proof (tk_wf _ (mk_table _ (ul_mmap _ _ L))) as W.
  assert (Gf : forall f fm, unloads s name f fm -> ~ used (s_table s') f).
  { intros f fm Hf Uf. destruct (proj1 (pr_used _ _ _ P f) Uf) as [_ Nd]. apply Nd, (G f fm Hf).
    pose proof (wf_range _ W f (proj1 Hf)). rewrite NB_eq. lia. }
  split_and!; [done|apply L'..|done|done| |].
  - intros f fm Hf i A _ Ui. apply (Gf f fm Hf). apply (pruned_ancestor _ _ _ _ _ P Ui) in A. by apply (ancestor_used (s_table s') f i); [apply P|..].
  - intros f fm Hf. apply (Gf f fm (unloads_pruned _ _ _ _ _ _ P Ea Hf)), Hf.
Qed.
End unloading.

Section plugging.
Context {V : Vas} {VL : VasLaws V} {H : Hooks} {E : MmapEnv} {EL : MmapLaws E} {St : StaticEnv}.

(** C31.  Plugging the free hole between two recorded mappings leaves one
    bigalloc that spans both.  The hole is recorded as a mapping without
    access; the addresses of the upper mapping keep their protection, flags
    and caller.  Whether the hole and the upper mapping count as anonymous
    is then decided by the file name of the lower one, so that the upper one
    may change in this respect; every other address keeps its mapping.  The two
    mappings together are of sane size, their entries and the hole's fit into one
    sequence, the upper one is not the anchor of the top-level list, and the
    kernel grants the mapping of the hole ([pluggable]). *)
Theorem hole_plugged (s : sstate) lowest highest p p' q q' :
  mmap_ok (s_mmap s) -> pluggable (s_mmap s) lowest highest p p' q q' ->
  exists s', plug_hole_or_abort (B := release) lowest highest s = Done (lowest, s') /\ mmap_ok (s_mmap s') /\
    b_begin (ba (s_table s') lowest) = b_begin (ba (s_table s) lowest) /\
    b_end (ba (s_table s') lowest) = b_end (ba (s_table s) highest) /\
    forall a x, maps_to (s_mmap s') a x <-> plugged (s_mmap s) lowest highest (seq_filename q) a x.
Proof. intros K P. by apply (plug_hole_ok s lowest highest p p' q q'). Qed.
End plugging.

(** ** Instances *)

#[local] Existing Instance trapped_hooks.
#[local] Existing Instance demo_mmap_env.
#[local] Existing Instance demo_mmap_laws.
#[local] Existing Instance demo_types.
#[local] Existing Instance demo_queries.
#[local] Existing Instance demo_site_env.
#[local] Existing Instance demo_site_laws.

(** One object, handle 70, loaded at 0x62000 with two loadable program headers
    and four section headers, one of them empty and one not allocated.  Its
    metadata and segments are put above all those in use.  Its meta-object is
    looked for by build ID and by path, but there is none. *)
Definition demo_phdrs : list Elf_Phdr := [Phdr PT_LOAD 0 0x1000; Phdr 4 0x200 0x20; Phdr PT_LOAD 0x1000 0x800].
Definition demo_shdrs : list Elf_Shdr :=
  [Shdr 0x8c0 0 0 0; Shdr 0x900 6 0x200 0x400; Shdr 0x940 3 0x1100 0x100; Shdr 0x980 0x30 0 0x2a].
Definition demo_reports (sh : Elf_Shdr) : bool := negb (Z.land (sh_flags sh) SHF_ALLOC =? 0).
Definition demo_callbacks : list callback :=
  [DefineSegment 0 0; DefineSegment 2 1; DefineSection (Shdr 0x900 6 0x200 0x400); DefineSection (Shdr 0x940 3 0x1100 0x100)].
Definition demo_build_id : list Z := replicate 20 0xab.
Definition demo_new_file (s : sstate) (h site : Z) : Z * allocs_file_metadata :=
  (1 + Z.max (top_block (afiles s)) (top_block (segments s)),
   AllocsFile 0 0 0 0 0 (if h =? 70 then 0x62000 else 0) "/lib/libc.so" site (if h =? 70 then demo_phdrs else [])
     (if h =? 70 then demo_shdrs else []) 0x500 0x600 demo_build_id).

Definition demo_static_with (notify_load : Z -> Z -> M sstate Z) : StaticEnv := {|
  static_file_allocator := 21;
  static_segment_allocator := 22;
  static_section_allocator := 23;
  static_symbol_allocator := 24;
  free_file_metadata_ptr := 0x700;
  lm_addr h := if h =? 70 then 0x62000 else 0;
  lm_name _ := "/lib/libc.so";
  SYSTEM_LDSO_PATH := "/lib/ld.so";
  __ldso_name := "/lib/libc.so";
  realpath_quick n := n;
  dlpi_phdr h := if h =? 70 then demo_phdrs else [];
  early_lib_handles := [71];
  segment_ptr meta ld := meta + Z.abs ld;
  metavector_at a := if a =? 0x800 then [SymRec REC_DYNSYM 1 5; RelocRec 0x260 8; SymRec REC_SYMTAB 2 6] else [];
  symtab_at t i := if t =? 0x500 then Sym 0x220 0x20 else Sym 0x300 0x40;
  fake_dlsym _ _ := 0;
  gnu_hash_sym _ _ := None;
  sizeof_frame_entry := 16;
  dlsym_in _ _ := 0;
  FILE_META_DESCRIBES_EXECUTABLE _ := false;
  base_load_site _ := 0;
  base_l_addr _ := 0;
  base_shdrs _ := None;
  raw_mmap a _ := a;
  plug_hole_caller := 0x4444;
  runt_segments_notify_define_segment file ph ld := modify (set_segment (file + Z.abs ld) (SegmentMetadata ph 0 0));
  runt_sections_notify_define_section _ _ := mret tt;
  runt_files_notify_load := notify_load;
  do_dlclose _ := mret tt;
  do_dlopen_noload _ := 0;
  do_dlopen _ := mret 0;
  dynobj_name _ := Some "/lib/libc.so"%string;
  fd_realpath _ := None;
  meta_files := {| getenv_META_BASE := None; open_rdonly _ := -1; fstat_mtime _ := None; stat_mtime _ := Some 0; stale_mtime := 0 |};
  __libcrunch_scan_lazy_typenames := None;
  __hook_loaded_one_object_meta := None;
|}.

Definition demo_notify_load (h site : Z) : M sstate Z := fun s =>
  let '(meta, f) := demo_new_file s h site in
  (modify (set_afile meta f) ;;
   make_callbacks (St := demo_static_with (fun _ _ => abort)) meta
     (header_callbacks (if h =? 70 then demo_phdrs else []) (filter demo_reports (if h =? 70 then demo_shdrs else []))) ;; mret meta) s.
#[local] Instance demo_static : StaticEnv := demo_static_with demo_notify_load.

#[local] Instance demo_static_laws : StaticLaws demo_mmap_env demo_static.
Proof. split; [done|]. by apply (bool_decide_unpack (NoDup [5; 21; 22; 23])). Qed.

Lemma above_blocks {A} (m : gmap Z A) k : top_block m < k -> m !! k = None.
Proof. intros Hk. destruct (m !! k) as [x|] eqn:Ek; [|done]. apply top_block_spec in Ek. lia. Qed.

#[local] Instance demo_runt_laws : RuntLaws.
Proof.
  refine {| runt_shdrs h := if h =? 70 then demo_shdrs else []; runt_reports := demo_reports; runt_name _ := "/lib/libc.so"%string;
            runt_build_id _ := demo_build_id; runt_new_file := demo_new_file |}.
  - done.
  - done.
  - intros sh Hal. unfold demo_reports. by rewrite (proj2 (Z.eqb_neq _ _)).
  - done.
  - intros s h site. pose proof (proj1 (top_block_spec (afiles s))). cbn [demo_new_file fst].
    split_and!; [lia|apply above_blocks; lia|]. intros ld. apply above_blocks. cbn. lia.
  - done.
Defined.

Lemma demo_calls : runt_callbacks 70 = demo_callbacks.
Proof. done. Qed.

Definition demo_s : sstate := SState (BState space_file 0 0 0 true false) no_sites ∅ ∅ 0 0 0 0 0.

(** A table none of whose records belongs to a static allocator. *)
Lemma no_static t : forallb (fun i => negb (existsb (Z.eqb (allocated_by (ba t i))) [21; 22; 23])) (elements (live t)) = true -> static_tree t.
Proof.
  intros Ht. pose proof (live_all t _ Ht) as A. cbv beta in A.
  split; intros f Uf Ef; specialize (A f Uf); rewrite Ef in A; discriminate A.
Qed.

Lemma demo_s_static : static_tree (s_table demo_s).
Proof. apply no_static. by vm_compute. Qed.

Lemma demo_room : room (s_table demo_s) 5.
Proof.
  exists [7; 8; 9; 10; 11]. split_and!; [by apply (bool_decide_unpack (NoDup [7; 8; 9; 10; 11]))|done|].
  intros i Hi. rewrite !elem_of_cons, elem_of_nil in Hi.
  destruct Hi as [->|[->|[->|[->|[->|[]]]]]]; (split; [done|by_eval; by intros [? ?]]).
Qed.

Lemma demo_layout meta fm : m_l_addr fm = 0x62000 -> m_phdrs fm = demo_phdrs ->
  layout fm meta (0x62000, 0x63800, 0) [] [] demo_callbacks.
Proof.
  intros El Ep. cbn [demo_callbacks layout]. exists (Phdr PT_LOAD 0 0x1000). rewrite Ep. split; [done|].
  unfold segment_extent, section_extent, within, apart, x_begin, x_end. rewrite El. cbv zeta. cbn [p_memsz p_vaddr sh_addr sh_size fst snd].
  split; [by_eval|]. split; [by_eval|]. split; [by_eval|]. split; [intros ? []%not_elem_of_nil|].
  exists (Phdr PT_LOAD 0x1000 0x800). split; [done|]. cbn [p_memsz p_vaddr]. split; [by_eval|]. split; [by_eval|]. split; [by_eval|].
  split; [intros y ->%list_elem_of_singleton; right; by_eval|]. split; [by_eval|]. cbn [Z.eqb].
  split; [eexists; split; [apply list_elem_of_further, list_elem_of_here|by_eval]|]. split; [intros ? []%not_elem_of_nil|].
  split; [by_eval|]. split; [eexists; split; [apply list_elem_of_here|by_eval]|]. split; [intros y ->%list_elem_of_singleton; right; by_eval|done].
Qed.

Lemma demo_loadable : loadable demo_s 70 6.
Proof.
  split.
  - exists 2. by_eval.
  - by_eval.
  - by_eval.
  - intros c Uc Pc. pose proof (live_all (s_table demo_s) (fun c => negb (parent (ba (s_table demo_s) c) =? 6)) ltac:(by vm_compute) c Uc) as A.
    cbv beta in A. rewrite Pc in A. discriminate A.
  - by_eval.
  - apply demo_room.
  - intros meta fm El Ep. replace (b_begin (ba (s_table demo_s) 6)) with 0x62000 by by_eval. rewrite demo_calls. by apply demo_layout.
  - by_eval.
  - done.
  - intros meta. unfold init_allocsites_info. cbn. destruct (meta =? 1); by eexists.
  - right. right. eexists. split; [done|]. right. right. split; [done|]. exists (-1). split; [by vm_compute|by left].
Qed.

Lemma file_loaded_witness :
  exists meta fm F s', __static_file_allocator_notify_load (B := release) 70 0x5555 demo_s = Done (meta, s') /\
    mmap_ok (s_mmap s') /\ static_tree (s_table s') /\ kept (s_table demo_s) (s_table s') /\ file_at s' 70 0x5555 6 F meta fm /\
    forall i p obj, dlpi_phdr 70 !! i = Some p -> p_type p = PT_LOAD ->
      exists g, extent_at (s_table s') g = segment_extent fm meta (load_index (dlpi_phdr 70) i) p /\ parent (ba (s_table s') g) = F /\
        static_symbol_get_info (B := release) obj g s' =
          Done ((err_unrecognised_static_object, no_info), count_static 0 1 (count_static 1 0 s')).
Proof. apply (file_loaded demo_s 70 0x5555 6); [exact space_file_ok|apply demo_s_static|apply demo_loadable|done]. Defined.

(** The state after the load. *)
Definition demo_loaded : sstate :=
  match __static_file_allocator_notify_load (B := release) 70 0x5555 demo_s with Done (_, s') => s' | _ => demo_s end.

Lemma demo_loaded_ok : __static_file_allocator_notify_load (B := release) 70 0x5555 demo_s = Done (1, demo_loaded).
Proof. by vm_compute. Qed.

(** The first segment with a metavector: a symbol, a relocation target and another symbol. *)
Definition demo_symbols : sstate := set_segment 1 (SegmentMetadata 0 0x800 24) demo_loaded.
Definition demo_fm : allocs_file_metadata := default (AllocsFile 0 0 0 0 0 0 "" 0 [] [] 0 0 []) (afiles demo_loaded !! 1).
Definition demo_spans : list (Z * Z) := [(0x220, 0x20); (0x260, 8); (0x300, 0x40)].

Lemma demo_in_segment : in_segment demo_symbols 10 (SegmentMetadata 0 0x800 24) demo_fm.
Proof. split; [by_eval|left; by_eval|by_eval|by_eval|by_eval]. Qed.

Lemma demo_sorted : sorted_spans demo_fm (recs_of (SegmentMetadata 0 0x800 24)) demo_spans.
Proof.
  split; [by vm_compute| |].
  - intros x Hx. unfold demo_spans in Hx. rewrite !elem_of_cons, elem_of_nil in Hx. destruct Hx as [->|[->|[->|[]]]]; by_eval.
  - intros i j x y Hij Hi Hj. destruct i as [|[|[|i]]], j as [|[|[|j]]]; simpl in *; simplify_eq; simpl; lia.
Qed.

Lemma static_object_found_witness :
  static_symbol_get_info (B := release) 0x62305 10 demo_symbols =
    Done ((0, AllocInfo 48 0x62300 0x40 0x5555), count_static 1 0 demo_symbols) /\
  static_symbol_get_info (B := release) 0x62240 10 demo_symbols =
    Done ((0, AllocInfo 40 0x62220 0x20 0x5555), count_static 1 0 demo_symbols) /\
  static_symbol_get_info (B := release) 0x62250 10 demo_symbols =
    Done ((9, no_info), count_static 0 1 (count_static 1 0 demo_symbols)).
Proof.
  split_and!.
  - refine (proj1 (static_object_found (B := release) demo_symbols 0x62305 10 _ demo_fm demo_spans demo_in_segment demo_sorted) 2%nat (SymRec REC_SYMTAB 2 6) (0x300, 0x40) _ _ _ _); by_eval.
  - refine (proj1 (static_object_found (B := release) demo_symbols 0x62240 10 _ demo_fm demo_spans demo_in_segment demo_sorted) 0%nat (SymRec REC_DYNSYM 1 5) (0x220, 0x20) _ _ _ _); try by_eval.
    intros y [= <-]. by_eval.
  - refine (proj2 (static_object_found (B := release) demo_symbols 0x62250 10 _ demo_fm demo_spans demo_in_segment demo_sorted) _).
    intros x Hx. unfold demo_spans in Hx. rewrite !elem_of_cons, elem_of_nil in Hx.
    assert (Ev : vaddr_of demo_fm 0x62250 = 0x250) by by_eval. rewrite Ev. destruct Hx as [->|[->|[->|[]]]]; cbn [fst snd]; lia.
Defined.

#[local] Instance demo_close_laws : CloseLaws.
Proof.
  refine {| closed _ _ := False |}. intros h s K. exists s. split_and!; [done..| |done].
  destruct (mk_table _ K) as [W I _ _]. by apply pruned_refl.
Defined.

Lemma Done_state {S A} (a a' : A) (s s' : S) : Done (a, s) = Done (a', s') -> s = s'.
Proof. by intros [= _ ->]. Qed.

Lemma demo_unloadable : unloadable demo_loaded "/lib/libc.so".
Proof.
  destruct (notify_load_ok demo_s 70 0x5555 6 space_file_ok demo_s_static demo_loadable) as (meta & fm & F & s' & El & K & T & _).
  pose proof (Done_state _ _ _ _ (eq_trans (eq_sym demo_loaded_ok) El)) as Es. rewrite <- Es in K, T. clear s' El Es.
  split; [exact K|exact T| |intros f fm' _ []].
  intros f Uf Ef. pose proof (live_all (s_table demo_loaded)
    (fun f => negb (allocated_by (ba (s_table demo_loaded) f) =? 21) ||
       bool_decide (is_Some (afiles demo_loaded !! allocator_private (ba (s_table demo_loaded) f)))) ltac:(by vm_compute) f Uf) as A.
  cbv beta in A. rewrite Ef in A. apply orb_true_iff in A as [A|A]; [discriminate A|]. exact (bool_decide_eq_true_1 _ A).
Qed.

Lemma file_unloaded_witness :
  exists s' D, __static_file_allocator_notify_unload (B := release) true "/lib/libc.so" demo_loaded = Done (tt, s') /\
    mmap_ok (s_mmap s') /\ static_tree (s_table s') /\ pruned (s_table demo_loaded) (s_table s') D /\
    only_unloaded demo_loaded "/lib/libc.so" D /\
    (forall f fm, unloads demo_loaded "/lib/libc.so" f fm -> forall i, ancestor (s_table demo_loaded) f i ->
       used (s_table demo_loaded) i -> ~ used (s_table s') i) /\
    forall f fm, ~ unloads s' "/lib/libc.so" f fm.
Proof. apply (file_unloaded demo_loaded "/lib/libc.so"). apply demo_unloadable. Defined.

(** Two mappings of one file with two pages between them. *)
Definition call_low : syscall := Smmap 0x60000 0x1000 5 2 3 0 0x5555.
Definition call_high : syscall := Smmap 0x63000 0x1000 3 2 3 0x3000 0x5555.
Definition space_low : mstate := after (notified call_low) space0.
Definition space_holed : mstate := after (notified call_high) space_low.
Definition demo_holed : sstate := SState (BState space_holed 0 0 0 true false) no_sites ∅ ∅ 0 0 0 0 0.

Lemma space0_covers_low : covered space0 call_low.
Proof.
  split; [done|]. left. split_and!; [by vm_compute| |apply mappable_test_ok; [by vm_compute|apply quiet_trapped..]].
  exists 5. split_and!; [done|done|by_eval; by intros [? ?]|]. intros j Hj.
  assert (j = 1 \/ j = 2 \/ j = 3 \/ j = 4) as [->|[->|[->| ->]]] by lia; by_eval.
Qed.

Lemma space_low_covers_high : covered space_low call_high.
Proof.
  split; [done|]. left. split_and!; [by vm_compute| |apply mappable_test_ok; [by vm_compute|apply quiet_trapped..]].
  exists 6. split_and!; [done|done|by_eval; by intros [? ?]|]. intros j Hj.
  assert (j = 1 \/ j = 2 \/ j = 3 \/ j = 4 \/ j = 5) as [->|[->|[->|[->| ->]]]] by lia; by_eval.
Qed.

Lemma spaces_holed : notified call_low space0 = Done (tt, space_low) /\ notified call_high space_low = Done (tt, space_holed).
Proof. split; by vm_compute. Qed.

Lemma space_holed_ok : mmap_ok space_holed.
Proof.
  pose proof (notified_represents _ _ _ _ eq_refl space0_ok space0_covers_low (proj1 spaces_holed)) as R.
  exact (proj1 (notified_represents _ _ _ _ eq_refl R space_low_covers_high (proj2 spaces_holed))).
Qed.

Definition seq_low : mapping_sequence := default zero_sequence (sequences space_holed !! 1).
Definition seq_high : mapping_sequence := default zero_sequence (sequences space_holed !! 2).

Lemma hole_plugged_witness :
  exists s', plug_hole_or_abort (B := release) 5 6 demo_holed = Done (5, s') /\ mmap_ok (s_mmap s') /\
    b_begin (ba (s_table s') 5) = b_begin (ba (s_table demo_holed) 5) /\
    b_end (ba (s_table s') 5) = b_end (ba (s_table demo_holed) 6) /\
    forall a x, maps_to (s_mmap s') a x <-> plugged (s_mmap demo_holed) 5 6 (seq_filename seq_low) a x.
Proof.
  apply (hole_plugged demo_holed 5 6 1 2 seq_low seq_high); [exact space_holed_ok|].
  change (s_mmap demo_holed) with space_holed. split; [by_eval|by_eval| |by_eval|vm_compute; lia|by_eval|by_eval].
  replace (b_end (ba (m_table space_holed) 5)) with 0x61000 by by_eval. replace (b_begin (ba (m_table space_holed) 6)) with 0x63000 by by_eval.
  apply free_test_ok. by vm_compute.
Defined.
