(* ===== verification/Stack.v ===== *)
(** The initial stack: src/src/allocators/stack.c, auxv.c and stackframe.c, and
    the unwinder they use, src/src/fake-libunwind.c.

    The mapping of the initial stack holds a bigalloc for the auxiliary vector
    and what surrounds it, which in turn holds one for the stack proper; frames
    are found by walking the chain of saved base pointers.  librunt finds the
    vectors; what it finds, the stack's memory, the frame tables of the loaded
    objects and the machine registers at a call are parameters.  The block
    under [#if 0] in [__stackframe_allocator_init] and debugging output are
    dropped. *)
From stdpp Require Import strings.
From S2P Require Import Prelude Vas BigAlloc PageIndex PageIndexQuery MappingSeq Mmap Brk AllocSites.
From S2P Require Import Uniqtype Subobject Query RtTypes StaticData.

(** ** The unwinder *)

Record unw_cursor_t := Cursor { frame_sp : Z; frame_bp : Z; frame_ip : Z }.
Inductive unw_reg := UNW_REG_SP | UNW_TDEP_BP | UNW_REG_IP | UNW_REG_OTHER.
Definition EINVAL : Z := 22.
Definition UNW_EBADREG : Z := 3.

(** The return value, and what is written to the destination. *)
Definition unw_get_reg (cursor : unw_cursor_t) (reg : unw_reg) : Z * option Z :=
  match reg with
  | UNW_REG_SP => (0, Some (frame_sp cursor))
  | UNW_TDEP_BP => if frame_bp cursor =? 0 then (- EINVAL, None) else (0, Some (frame_bp cursor))
  | UNW_REG_IP => (0, Some (frame_ip cursor))
  | UNW_REG_OTHER => (1, None)
  end.

Definition unw_init_local (context : unw_cursor_t) : unw_cursor_t := context.

Definition SANE_BP_OR_NULL (bp sp : Z) : Z := if (sp <=? bp) && (signed_diff bp sp <? 0x10000) then bp else 0.

(** ** State *)

(** librunt's variables for what the kernel puts at the top of the stack. *)
Record auxv_vars := AuxvVars {
  __auxv_array_start : Z; __auxv_array_terminator : Z;
  __argv_vector_start : Z; __argv_vector_terminator : Z;
  __env_vector_start : Z; __env_vector_terminator : Z;
  __auxv_asciiz_start : Z; __auxv_asciiz_end : Z;
  __auxv_program_argcountp : Z;
  __program_entry_point : Z;
}.
Definition no_vars : auxv_vars := AuxvVars 0 0 0 0 0 0 0 0 0 0.

Record kstate := KState {
  k_static : sstate;
  k_types : tstate;
  k_vars : auxv_vars;
  auxv_tried : bool;
  our_bigalloc : Z;
  auxv_array_uniqtype : Z;
  env_vector_uniqtype : Z;
  argv_vector_uniqtype : Z;
  asciiz_uniqtype : Z;
  __top_of_initial_stack : Z;
  initial_stack_bigalloc : Z;
  __stack_lim_cur : Z;
  __stack_lim_max : Z;
  stack_initialized : bool;
  stack_trying : bool;
  __liballocs_main_bp : Z;
  frames_initialized : bool;
  frames_trying : bool;
  __liballocs_hit_stack_case : Z;
  __liballocs_aborted_stack : Z;
}.

Definition set_k_static (x : sstate) (k : kstate) : kstate :=
  KState x (k_types k) (k_vars k) (auxv_tried k) (our_bigalloc k) (auxv_array_uniqtype k) (env_vector_uniqtype k)
    (argv_vector_uniqtype k) (asciiz_uniqtype k) (__top_of_initial_stack k) (initial_stack_bigalloc k) (__stack_lim_cur k)
    (__stack_lim_max k) (stack_initialized k) (stack_trying k) (__liballocs_main_bp k) (frames_initialized k) (frames_trying k)
    (__liballocs_hit_stack_case k) (__liballocs_aborted_stack k).
Definition set_k_types (x : tstate) (k : kstate) : kstate :=
  KState (k_static k) x (k_vars k) (auxv_tried k) (our_bigalloc k) (auxv_array_uniqtype k) (env_vector_uniqtype k)
    (argv_vector_uniqtype k) (asciiz_uniqtype k) (__top_of_initial_stack k) (initial_stack_bigalloc k) (__stack_lim_cur k)
    (__stack_lim_max k) (stack_initialized k) (stack_trying k) (__liballocs_main_bp k) (frames_initialized k) (frames_trying k)
    (__liballocs_hit_stack_case k) (__liballocs_aborted_stack k).
Definition set_k_vars (x : auxv_vars) (tried : bool) (k : kstate) : kstate :=
  KState (k_static k) (k_types k) x tried (our_bigalloc k) (auxv_array_uniqtype k) (env_vector_uniqtype k)
    (argv_vector_uniqtype k) (asciiz_uniqtype k) (__top_of_initial_stack k) (initial_stack_bigalloc k) (__stack_lim_cur k)
    (__stack_lim_max k) (stack_initialized k) (stack_trying k) (__liballocs_main_bp k) (frames_initialized k) (frames_trying k)
    (__liballocs_hit_stack_case k) (__liballocs_aborted_stack k).
Definition set_our_bigalloc (top b : Z) (k : kstate) : kstate :=
  KState (k_static k) (k_types k) (k_vars k) (auxv_tried k) b (auxv_array_uniqtype k) (env_vector_uniqtype k)
    (argv_vector_uniqtype k) (asciiz_uniqtype k) top (initial_stack_bigalloc k) (__stack_lim_cur k)
    (__stack_lim_max k) (stack_initialized k) (stack_trying k) (__liballocs_main_bp k) (frames_initialized k) (frames_trying k)
    (__liballocs_hit_stack_case k) (__liballocs_aborted_stack k).
Definition set_auxv_types (auxv env argv asciiz : Z) (k : kstate) : kstate :=
  KState (k_static k) (k_types k) (k_vars k) (auxv_tried k) (our_bigalloc k) auxv env argv asciiz (__top_of_initial_stack k)
    (initial_stack_bigalloc k) (__stack_lim_cur k) (__stack_lim_max k) (stack_initialized k) (stack_trying k)
    (__liballocs_main_bp k) (frames_initialized k) (frames_trying k) (__liballocs_hit_stack_case k) (__liballocs_aborted_stack k).
Definition set_initial_stack (b : Z) (k : kstate) : kstate :=
  KState (k_static k) (k_types k) (k_vars k) (auxv_tried k) (our_bigalloc k) (auxv_array_uniqtype k) (env_vector_uniqtype k)
    (argv_vector_uniqtype k) (asciiz_uniqtype k) (__top_of_initial_stack k) b (__stack_lim_cur k)
    (__stack_lim_max k) (stack_initialized k) (stack_trying k) (__liballocs_main_bp k) (frames_initialized k) (frames_trying k)
    (__liballocs_hit_stack_case k) (__liballocs_aborted_stack k).
Definition set_stack_lims (cur max : Z) (initialized : bool) (k : kstate) : kstate :=
  KState (k_static k) (k_types k) (k_vars k) (auxv_tried k) (our_bigalloc k) (auxv_array_uniqtype k) (env_vector_uniqtype k)
    (argv_vector_uniqtype k) (asciiz_uniqtype k) (__top_of_initial_stack k) (initial_stack_bigalloc k) cur
    max initialized (negb initialized) (__liballocs_main_bp k) (frames_initialized k) (frames_trying k)
    (__liballocs_hit_stack_case k) (__liballocs_aborted_stack k).
Definition set_main_bp (bp : Z) (k : kstate) : kstate :=
  KState (k_static k) (k_types k) (k_vars k) (auxv_tried k) (our_bigalloc k) (auxv_array_uniqtype k) (env_vector_uniqtype k)
    (argv_vector_uniqtype k) (asciiz_uniqtype k) (__top_of_initial_stack k) (initial_stack_bigalloc k) (__stack_lim_cur k)
    (__stack_lim_max k) (stack_initialized k) (stack_trying k) bp true false
    (__liballocs_hit_stack_case k) (__liballocs_aborted_stack k).
Definition count_stack (hit aborted : Z) (k : kstate) : kstate :=
  KState (k_static k) (k_types k) (k_vars k) (auxv_tried k) (our_bigalloc k) (auxv_array_uniqtype k) (env_vector_uniqtype k)
    (argv_vector_uniqtype k) (asciiz_uniqtype k) (__top_of_initial_stack k) (initial_stack_bigalloc k) (__stack_lim_cur k)
    (__stack_lim_max k) (stack_initialized k) (stack_trying k) (__liballocs_main_bp k) (frames_initialized k) (frames_trying k)
    (wrap64 (__liballocs_hit_stack_case k + hit)) (wrap64 (__liballocs_aborted_stack k + aborted)).

Definition on_static {A} (m : M sstate A) : M kstate A := fun k =>
  match m (k_static k) with Done (a, x) => Done (a, set_k_static x k) | Abort => Abort | NoFuel => NoFuel end.
Definition on_ktable {A} (m : M state A) : M kstate A := on_static (on_stable m).
Definition on_ktypes {A} (m : M tstate A) : M kstate A := fun k =>
  match m (k_types k) with Done (a, x) => Done (a, set_k_types x k) | Abort => Abort | NoFuel => NoFuel end.

Record frame_uniqtype_and_offset := FrameDesc { fd_u : Z; fd_o : Z }.

Class StackEnv := {
  stack_allocator : Z;
  stackframe_allocator : Z;
  (** what [__runt_auxv_init] finds *)
  runt_auxv_vars : auxv_vars;
  (** the word [__auxv_program_argcountp] points to *)
  program_argcount : Z;
  (** the types made at start-up *)
  k_rt_vars : rt_vars;
  (** [getrlimit(RLIMIT_STACK)] *)
  stack_rlimit : option (Z * Z);
  (** the entries of a table of frames: address, type, offset from the frame base *)
  frame_entries : Z -> list (Z * Z * Z);
  err_stack_walk_step_failure : Z;
  err_stack_walk_reached_higher_frame : Z;
  err_stack_walk_reached_top_of_stack : Z;
}.

Section ops.
Context {V : Vas} {H : Hooks} {B : Build} {E : MmapEnv} {U : UniqtypeEnv} {Q : QueryEnv} {D : DlEnv}.
Context {SE : SiteEnv} {St : StaticEnv} {K : StackEnv}.

Definition rd_kbigalloc (b : Z) : M kstate big_allocation := on_static (rd_bigalloc b).

(** ** stack.c *)

Definition __stack_allocator_init : M kstate unit :=
  k ← gets id;
  if stack_initialized k || stack_trying k then mret tt else
  match stack_rlimit with
  | Some (cur, max) => modify (set_stack_lims cur max true)
  | None => abort
  end.

Definition __stack_allocator_notify_init_stack_region (begin end_ : Z) : M kstate unit :=
  b ← on_ktable (__liballocs_new_bigalloc begin (wrap64 (end_ - begin)) 0 0 0 stack_allocator);
  modify (set_initial_stack b) ;;
  if b =? 0 then abort else
  r ← rd_kbigalloc b;
  if parent r =? 0 then abort else
  pr ← rd_kbigalloc (parent r);
  if negb (allocated_by pr =? auxv_allocator) then abort else
  on_ktable (wr b (set_suballocator stackframe_allocator)).

Definition stack_get_info : Z * alloc_info := (err_unrecognised_alloc_site, no_info).

Definition RLIM_INFINITY : Z := 2 ^ 64 - 1.
Definition guess_sane_max_stack_size (lim_cur lim_max : Z) : Z :=
  if (lim_cur =? RLIM_INFINITY) && (lim_max =? RLIM_INFINITY) then 16 * 1024 * 1024
  else if lim_cur =? RLIM_INFINITY then lim_max else lim_cur.
Definition guess_sane_max_stack_delta (lim_cur lim_max : Z) : Z :=
  if (lim_cur =? RLIM_INFINITY) && (lim_max =? RLIM_INFINITY) then 256 * 1024
  else guess_sane_max_stack_size lim_cur lim_max.

(** Each stack's private data is the next stack. *)
Fixpoint claim_loop (fuel : nat) (lim_cur lim_max ptr b : Z) : M state bool :=
  match fuel with
  | O => nofuel
  | S fuel =>
    if b =? 0 then mret false else
    r ← rd id b;
    let diff_from_lowest_stack_addr := signed_diff (b_begin r) ptr in
    let diff_from_highest_stack_addr := signed_diff (b_end r) ptr in
    unused ← (if ((0 <? diff_from_lowest_stack_addr) && (diff_from_lowest_stack_addr <? guess_sane_max_stack_delta lim_cur lim_max))
                 || ((0 <? diff_from_highest_stack_addr) && (diff_from_highest_stack_addr <? guess_sane_max_stack_size lim_cur lim_max))
              then __pages_unused (ROUND_UP ptr PAGE_SIZE) (b_begin r) else mret false);
    if (unused : bool) then __liballocs_pre_extend_bigalloc_recursive b (ROUND_DOWN ptr PAGE_SIZE) ;; mret true
    else claim_loop fuel lim_cur lim_max ptr (allocator_private r)
  end.

Definition __stack_allocator_notify_unindexed_address (ptr : Z) : M kstate bool :=
  k ← gets id;
  on_ktable (claim_loop FUEL (__stack_lim_cur k) (__stack_lim_max k) ptr (initial_stack_bigalloc k)).

(** ** auxv.c *)

Definition sizeof_auxv_t : Z := 16.
Definition sizeof_ptr : Z := 8.

(** The number of elements from a start to a terminator, itself included. *)
Definition elements_to (start terminator size : Z) : Z := (terminator + size - start) / size.

Definition init_uniqtypes : M kstate unit :=
  v ← gets k_vars;
  auxv ← on_ktypes (__liballocs_get_or_create_array_type (p_Elf64_auxv_t k_rt_vars)
           (wrap32 (elements_to (__auxv_array_start v) (__auxv_array_terminator v) sizeof_auxv_t)));
  env ← on_ktypes (__liballocs_get_or_create_array_type (p_PTR_signed_char k_rt_vars)
          (wrap32 (elements_to (__env_vector_terminator v) (__env_vector_terminator v) sizeof_ptr)));
  argv ← on_ktypes (__liballocs_get_or_create_array_type (p_PTR_signed_char k_rt_vars) (wrap32 (program_argcount + 1)));
  asciiz ← on_ktypes (__liballocs_get_or_create_array_type (p_signed_char k_rt_vars)
             (wrap32 (__auxv_asciiz_end v - __auxv_asciiz_start v)));
  modify (set_auxv_types auxv env argv asciiz).

Definition __auxv_allocator_init : M kstate unit :=
  k ← gets id;
  if auxv_tried k then mret tt else modify (set_k_vars runt_auxv_vars true).

Definition between (obj lo hi : Z) : bool := (lo <=? obj) && (obj <=? hi).

Definition auxv_get_info (obj : Z) : M kstate (Z * alloc_info) :=
  k ← gets id;
  (if auxv_array_uniqtype k =? 0 then init_uniqtypes else mret tt) ;;
  k ← gets id;
  let v := k_vars k in
  let info t base size := mret (0, AllocInfo t base (wrap64 size) (__program_entry_point v)) in
  if between obj (__auxv_array_start v) (__auxv_array_terminator v) then
    info (auxv_array_uniqtype k) (__auxv_array_start v)
      (elements_to (__auxv_array_start v) (__auxv_array_terminator v) sizeof_auxv_t * sizeof_auxv_t)
  else if between obj (__argv_vector_start v) (__argv_vector_terminator v) then
    info (argv_vector_uniqtype k) (__argv_vector_start v)
      (elements_to (__argv_vector_start v) (__argv_vector_terminator v) sizeof_ptr * sizeof_ptr)
  else if between obj (__env_vector_start v) (__env_vector_terminator v) then
    info (env_vector_uniqtype k) (__env_vector_start v)
      (elements_to (__env_vector_start v) (__env_vector_terminator v) sizeof_ptr * sizeof_ptr)
  else if between obj (__auxv_asciiz_start v) (__auxv_asciiz_end v) then
    info (asciiz_uniqtype k) (__auxv_asciiz_start v) (__auxv_asciiz_end v - __auxv_asciiz_start v)
  else if between obj (__auxv_program_argcountp v) (__auxv_program_argcountp v + 8) then
    info (p_intptr_t k_rt_vars) (__auxv_program_argcountp v) 8
  else mret (err_object_of_unknown_storage, no_info).

Definition __auxv_allocator_notify_init_stack_mapping_sequence (b : Z) : M kstate unit :=
  k ← gets id;
  (if __auxv_array_start (k_vars k) =? 0 then __auxv_allocator_init else mret tt) ;;
  v ← gets k_vars;
  if __auxv_program_argcountp v =? 0 then abort else
  r ← rd_kbigalloc b;
  our ← gets our_bigalloc;
  if negb (our =? 0) then
    o ← rd_kbigalloc our;
    (if b_begin r <? b_begin o then on_ktable (wr our (set_begin (b_begin r))) else mret tt) ;;
    if b_end o <? __auxv_asciiz_end v then
      let new_end := ROUND_UP (__auxv_asciiz_end v) PAGE_SIZE in
      pi ← on_ktable (pi_get (PAGENUM (__auxv_asciiz_end v)));
      (if negb (pi =? 0) then
         success ← on_ktable (__liballocs_truncate_bigalloc_at_beginning pi new_end);
         assert success
       else mret tt) ;;
      success ← on_ktable (__liballocs_extend_bigalloc our new_end);
      assert success
    else mret tt
  else
    new ← on_ktable (__liballocs_new_bigalloc (b_begin r) (wrap64 (b_end r - b_begin r)) 0 0 0 auxv_allocator);
    modify (set_our_bigalloc (b_end r) new) ;;
    if new =? 0 then abort else
    __stack_allocator_notify_init_stack_region (b_begin r) (__auxv_program_argcountp v) ;;
    on_ktable (wr new (set_suballocator 0)).

(** ** Frames *)

Definition __stackframe_allocator_init (our_sp : Z) : M kstate unit :=
  k ← gets id;
  if frames_initialized k || frames_trying k then mret tt else
  let bp := if __liballocs_main_bp k =? 0 then our_sp else __liballocs_main_bp k in
  assert (negb (bp =? 0)) ;;
  modify (set_main_bp bp).

Definition no_frame : frame_uniqtype_and_offset := FrameDesc 0 0.

Definition pc_to_frame_uniqtype (addr : Z) : M sstate frame_uniqtype_and_offset :=
  file_b ← on_stable (__lookup_bigalloc_from_root addr static_file_allocator);
  if file_b =? 0 then mret no_frame else
  r ← rd_bigalloc file_b;
  assert (negb (allocator_private r =? 0)) ;;
  afile ← rd_file (allocator_private r);
  if frames_info afile =? 0 then mret no_frame else
  let entries := take (Z.to_nat (nframes afile)) (frame_entries (frames_info afile)) in
  mret (match bsearch_leq (map (fun e => e.1.1) entries) (wrap64 (addr - m_l_addr afile)) ≫= fun i => entries !! i with
        | Some e => FrameDesc e.1.2 e.2
        | None => no_frame
        end).

(** The words of the stack; [None] where a read faults. *)
Context (word_at : Z -> option Z).

Definition rd_word (a : Z) : M kstate Z := match word_at a with Some v => mret v | None => abort end.

Definition unw_getcontext (frame_address return_address : Z) : M kstate unw_cursor_t :=
  assert (negb (frame_address =? 0)) ;;
  caller_bp ← rd_word frame_address;
  assert (negb (caller_bp =? 0)) ;;
  let caller_sp := wrap64 (frame_address + 16) in
  mret (Cursor caller_sp (SANE_BP_OR_NULL caller_bp caller_sp) return_address).

Definition unw_step (cp : unw_cursor_t) : M kstate (Z * unw_cursor_t) :=
  if frame_bp cp =? 0 then mret (0, cp) else
  assert (frame_bp cp mod 8 =? 0) ;;
  return_addr ← rd_word (wrap64 (frame_bp cp + 8));
  let sp := wrap64 (frame_bp cp + 16) in
  candidate_bp ← rd_word (frame_bp cp);
  let new_ctxt := Cursor sp (SANE_BP_OR_NULL candidate_bp sp) return_addr in
  if (sp <? frame_sp new_ctxt) || (frame_sp new_ctxt <=? wrap64 (sp - 0x10000000)) then mret (-1, cp)
  else mret (int32 (frame_sp new_ctxt - frame_sp cp), new_ctxt).

Definition BEGINNING_OF_STACK : Z := MAXIMUM_USER_ADDRESS.

(** The variables that live from one turn of the loop to the next. *)
Record walk_vars := WalkVars { w_cursor : unw_cursor_t; w_ip : Z; w_bp : Z; w_above_main : bool; w_higher_sp : Z; w_higher_bp : Z }.

(** How a turn ends: with an answer, or at the loop's condition. *)
Inductive turn := Answer (r : Z * alloc_info) | Continue (w : walk_vars).

(** The part of a turn after the step. *)
Definition frame_check (obj ip step_ret higherframe_sp higherframe_bp : Z) (got_higherframe_bp : bool) (w : walk_vars) : M kstate turn :=
  if got_higherframe_bp && (higherframe_bp <? obj) then mret (Continue w) else
  s ← on_static (pc_to_frame_uniqtype ip);
  if fd_u s =? 0 then mret (Continue w) else
  let frame_allocation_base := wrap64 (higherframe_sp - fd_o s) in
  let size := pos_maxoff (fd_u s) in
  if (frame_allocation_base <=? obj) && (obj <? wrap64 (frame_allocation_base + size)) then
    mret (Answer (0, AllocInfo (fd_u s) frame_allocation_base size ip))
  else if obj <? frame_allocation_base then
    modify (count_stack 0 1) ;; mret (Answer (err_stack_walk_reached_higher_frame, no_info))
  else
    assert ((0 <? step_ret) || (higherframe_sp =? BEGINNING_OF_STACK)) ;;
    mret (Continue w).

Definition frame_turn (obj : Z) (w : walk_vars) : M kstate turn :=
  main_bp ← gets __liballocs_main_bp;
  let cursor := w_cursor w in
  let ip := default (w_ip w) (snd (unw_get_reg cursor UNW_REG_IP)) in
  let sp := frame_sp cursor in
  let got_bp := fst (unw_get_reg cursor UNW_TDEP_BP) =? 0 in
  let bp := default (w_bp w) (snd (unw_get_reg cursor UNW_TDEP_BP)) in
  let at_or_above_main := w_above_main w || (got_bp && (main_bp <=? bp)) || (main_bp <=? sp) in
  step ← unw_step cursor;
  let '(step_ret, cursor') := step in
  let go higherframe_sp higherframe_bp got_higherframe_bp :=
    frame_check obj ip step_ret higherframe_sp higherframe_bp got_higherframe_bp
      (WalkVars cursor' ip bp at_or_above_main higherframe_sp higherframe_bp) in
  if 0 <? step_ret then
    let hbp := unw_get_reg cursor' UNW_TDEP_BP in
    let higherframe_bp := default (w_higher_bp w) (snd hbp) in
    go (frame_sp cursor') higherframe_bp ((fst hbp =? 0) && (bp <=? higherframe_bp))
  else if (step_ret =? 0) || (at_or_above_main && (step_ret =? - UNW_EBADREG)) then
    go BEGINNING_OF_STACK BEGINNING_OF_STACK true
  else modify (count_stack 0 1) ;; mret (Answer (err_stack_walk_step_failure, no_info)).

Fixpoint frame_loop (fuel : nat) (obj : Z) (w : walk_vars) : M kstate (Z * alloc_info) :=
  match fuel with
  | O => nofuel
  | S fuel =>
    t ← frame_turn obj w;
    match (t : turn) with
    | Answer r => mret r
    | Continue w' =>
      if negb (w_higher_sp w' =? BEGINNING_OF_STACK) then frame_loop fuel obj w'
      else modify (count_stack 0 1) ;; mret (err_stack_walk_reached_top_of_stack, no_info)
    end
  end.

(** [frame_address] and [return_address] are those of the call of
    [unw_getcontext], [rsp] the stack pointer after it. *)
Definition stackframe_get_info (fuel : nat) (frame_address return_address rsp obj : Z) : M kstate (Z * alloc_info) :=
  modify (count_stack 1 0) ;;
  unw_context ← unw_getcontext frame_address return_address;
  let cursor := unw_init_local unw_context in
  let higherframe_sp := default 0 (snd (unw_get_reg cursor UNW_REG_SP)) in
  assert (rsp =? higherframe_sp) ;;
  frame_loop fuel obj (WalkVars cursor 0 0 false higherframe_sp 0).
End ops.
