(* ===== verification/StackFacts.v ===== *)
(** Facts about the stack: the chain of saved base pointers, the descriptors of
    the frames on it and what the walk answers; and growth downwards, in which
    the bigalloc of the stack and those around it take the pages below, from
    the outermost inwards. *)
From stdpp Require Import strings.
From S2P Require Import Prelude DList Vas BigAlloc PageIndex PageIndexQuery BigAllocFacts Forest Traversal.
From S2P Require Import Toplevel Attach Create Detach Delete Resize QueryCorrect Reachable MappingSeq.
From S2P Require Import Mmap MmapFacts Brk AllocSites Uniqtype Subobject Query RtTypes StaticData.
From S2P Require Import StaticFacts StaticLoad Stack.

Lemma on_static_Done {A} (m : M sstate A) (k : kstate) a x :
  m (k_static k) = Done (a, x) -> on_static m k = Done (a, set_k_static x k).
Proof. unfold on_static. by intros ->. Qed.
Lemma on_static_read {A} (m : M sstate A) (k : kstate) a :
  m (k_static k) = Done (a, k_static k) -> on_static m k = Done (a, k).
Proof. intros Em. rewrite (on_static_Done _ _ _ _ Em). by destruct k. Qed.

Section frames.
Context {V : Vas} {VL : VasLaws V} {H : Hooks} {B : Build} {E : MmapEnv} {EL : MmapLaws E} {U : UniqtypeEnv} {Q : QueryEnv}.
Context {SE : SiteEnv} {St : StaticEnv} {StL : StaticLaws E St} {KE : StackEnv}.
Context (word_at : Z -> option Z).

(** ** Descriptors *)

(** The descriptor of the code at an address in a file. *)
Definition frame_in (fm : allocs_file_metadata) (ip : Z) : frame_uniqtype_and_offset :=
  if frames_info fm =? 0 then no_frame else
  let entries := take (Z.to_nat (nframes fm)) (frame_entries (frames_info fm)) in
  match bsearch_leq (map (fun e => e.1.1) entries) (wrap64 (ip - m_l_addr fm)) ≫= fun i => entries !! i with
  | Some e => FrameDesc e.1.2 e.2
  | None => no_frame
  end.

(** Code is in a mapping; its descriptor is the one of the file around it, if there is one. *)
Definition frame_of (s : sstate) (ip : Z) (d : frame_uniqtype_and_offset) : Prop :=
  (exists f fm, used (s_table s) f /\ allocated_by (ba (s_table s) f) = static_file_allocator /\ contains (s_table s) f ip /\
     allocator_private (ba (s_table s) f) <> 0 /\ afiles s !! allocator_private (ba (s_table s) f) = Some fm /\ d = frame_in fm ip) \/
  ((exists i, used (s_table s) i /\ contains (s_table s) i ip) /\
   (forall f, used (s_table s) f -> allocated_by (ba (s_table s) f) = static_file_allocator -> ~ contains (s_table s) f ip) /\
   d = no_frame).

Lemma pc_to_frame_ok s ip d :
  table_ok (s_table s) -> static_tree (s_table s) -> frame_of s ip d -> pc_to_frame_uniqtype ip s = Done (d, s).
Proof.
  intros [W I _ _] T [(f & fm & Uf & Af & Cf & Np & Em & ->)|((i & Ui & Ci) & Nf & ->)]; unfold pc_to_frame_uniqtype.
  - rewrite (bind_Done _ _ _ f s).
    2: { apply on_stable_read. apply (lookup_one (s_table s) static_file_allocator f ip W I); [apply static_nonnull|by apply one_file|done..]. }
    assert (Nz : f <> 0) by by apply (used_nonzero (s_table s)). rewrite (proj2 (Z.eqb_neq _ _)) by done.
    rewrite (bind_Done _ _ _ _ _ (rd_bigalloc_ok f s Nz)), (bind_Done _ _ _ tt s).
    2: { apply assert_true. by rewrite (proj2 (Z.eqb_neq _ _)). }
    rewrite (bind_Done _ _ _ _ _ (rd_file_ok _ _ s Em)). unfold frame_in. by destruct (_ =? 0).
  - rewrite (bind_Done _ _ _ 0 s); [done|].
    apply on_stable_read. apply (lookup_nothing (s_table s) static_file_allocator i ip W I); [apply static_nonnull|done..].
Qed.

(** ** The chain of frames *)

Definition stepped (c : unw_cursor_t) (ra nbp : Z) : unw_cursor_t :=
  Cursor (frame_bp c + 16) (SANE_BP_OR_NULL nbp (frame_bp c + 16)) ra.

(** The cursors from [c] up to the frame whose base pointer is not known. *)
Inductive unwinds : unw_cursor_t -> list unw_cursor_t -> Prop :=
| unwinds_top c : frame_bp c = 0 -> unwinds c [c]
| unwinds_up c ra nbp cs :
    frame_bp c mod 8 = 0 -> 0x10000000 <= frame_sp c <= frame_bp c -> frame_bp c < frame_sp c + 0x10000 ->
    frame_bp c + 16 < MAXIMUM_USER_ADDRESS ->
    word_at (frame_bp c + 8) = Some ra -> word_at (frame_bp c) = Some nbp ->
    unwinds (stepped c ra nbp) cs -> unwinds c (c :: cs).

(** A frame as the walk sees it: its code address, the range of the allocation
    its descriptor gives, that descriptor's type (0 for none), and the base
    pointer of the frame above where it is known. *)
Record stack_frame := StackFrame { sf_ip : Z; sf_begin : Z; sf_size : Z; sf_type : Z; sf_above : option Z }.
Definition sf_end (f : stack_frame) : Z := sf_begin f + sf_size f.

Context (describe : Z -> frame_uniqtype_and_offset).

Definition frame_below (c : unw_cursor_t) (sp : Z) (bp : option Z) : stack_frame :=
  let d := describe (frame_ip c) in StackFrame (frame_ip c) (wrap64 (sp - fd_o d)) (pos_maxoff (fd_u d)) (fd_u d) bp.
Fixpoint frames_on (cs : list unw_cursor_t) : list stack_frame :=
  match cs with
  | [] => []
  | c :: cs =>
    match cs with
    | [] => frame_below c BEGINNING_OF_STACK (Some BEGINNING_OF_STACK)
    | c' :: _ => frame_below c (frame_sp c') (if frame_bp c' =? 0 then None else Some (frame_bp c'))
    end :: frames_on cs
  end.

(** What one frame says of an address. *)
Inductive saying := Skips | Holds | Passed.
Definition says (obj : Z) (f : stack_frame) : saying :=
  if match sf_above f with Some b => b <? obj | None => false end then Skips
  else if sf_type f =? 0 then Skips
  else if (sf_begin f <=? obj) && (obj <? wrap64 (sf_end f)) then Holds
  else if obj <? sf_begin f then Passed else Skips.

Definition frame_info (f : stack_frame) : alloc_info := AllocInfo (sf_type f) (sf_begin f) (sf_size f) (sf_ip f).

(** The answer is that of the first frame that does not skip. *)
Fixpoint answer (obj : Z) (fs : list stack_frame) (k : kstate) : (Z * alloc_info) * kstate :=
  match fs with
  | [] => ((err_stack_walk_reached_top_of_stack, no_info), count_stack 0 1 k)
  | f :: fs =>
    match says obj f with
    | Skips => answer obj fs k
    | Holds => ((0, frame_info f), k)
    | Passed => ((err_stack_walk_reached_higher_frame, no_info), count_stack 0 1 k)
    end
  end.

Definition turn_says (x : saying) (f : stack_frame) (w : walk_vars) (k : kstate) : outcome (turn * kstate) :=
  match x with
  | Skips => Done (Continue w, k)
  | Holds => Done (Answer (0, frame_info f), k)
  | Passed => Done (Answer (err_stack_walk_reached_higher_frame, no_info), count_stack 0 1 k)
  end.

Lemma unw_step_top c k : frame_bp c = 0 -> unw_step word_at c k = Done ((0, c), k).
Proof. intros E0. unfold unw_step. by rewrite E0. Qed.

Lemma unw_step_up c ra nbp k :
  frame_bp c mod 8 = 0 -> 0x10000000 <= frame_sp c <= frame_bp c -> frame_bp c < frame_sp c + 0x10000 ->
  frame_bp c + 16 < 2 ^ 63 -> word_at (frame_bp c + 8) = Some ra -> word_at (frame_bp c) = Some nbp ->
  unw_step word_at c k = Done ((frame_bp c + 16 - frame_sp c, stepped c ra nbp), k).
Proof.
  intros Ha Hs Hb Hm Er En. unfold unw_step. rewrite (proj2 (Z.eqb_neq _ _)) by lia.
  rewrite (bind_Done _ _ _ tt k) by (apply assert_true; by rewrite Ha). rewrite !wrap_small by lia.
  rewrite (bind_Done _ _ _ ra k) by (unfold rd_word; by rewrite Er). cbv zeta.
  rewrite (bind_Done _ _ _ nbp k) by (unfold rd_word; by rewrite En). cbn [frame_sp].
  rewrite (proj2 (Z.ltb_ge _ _)), (proj2 (Z.leb_gt _ _)) by lia. cbn [orb]. unfold int32.
  rewrite wrap_small, (proj2 (Z.ltb_lt _ _)) by lia. done.
Qed.

Lemma turn_rest obj c k (f : stack_frame) w (got : bool) hsp hbp ret :
  pc_to_frame_uniqtype (frame_ip c) (k_static k) = Done (describe (frame_ip c), k_static k) ->
  f = frame_below c hsp (if got then Some hbp else None) -> (0 <? ret) || (hsp =? BEGINNING_OF_STACK) = true ->
  frame_check obj (frame_ip c) ret hsp hbp got w k = turn_says (says obj f) f w k.
Proof.
  intros P -> Hr. unfold frame_check, says. cbn [sf_above frame_below sf_type sf_begin sf_end sf_size].
  replace (match (if got then Some hbp else None) with Some b => b <? obj | None => false end) with (got && (hbp <? obj)) by by destruct got.
  destruct (got && (hbp <? obj)); [done|].
  rewrite (bind_Done _ _ _ _ _ (on_static_read _ _ _ P)). destruct (fd_u _ =? 0); [done|]. cbv zeta.
  unfold sf_end. cbn [sf_begin sf_size frame_below]. destruct (_ && _); [done|]. destruct (obj <? _); [done|].
  by rewrite (bind_Done _ _ _ tt k) by by apply assert_true.
Qed.

Definition known (k : kstate) (c : unw_cursor_t) : Prop :=
  pc_to_frame_uniqtype (frame_ip c) (k_static k) = Done (describe (frame_ip c), k_static k).

Lemma top_turn obj w k c : w_cursor w = c -> frame_bp c = 0 -> known k c ->
  exists w', w_higher_sp w' = BEGINNING_OF_STACK /\
    let f := frame_below c BEGINNING_OF_STACK (Some BEGINNING_OF_STACK) in
    frame_turn word_at obj w k = turn_says (says obj f) f w' k.
Proof.
  intros Ew E0 P. unfold frame_turn. rewrite (bind_Done _ _ _ (__liballocs_main_bp k) k) by done. cbv zeta.
  rewrite Ew, (bind_Done _ _ _ _ _ (unw_step_top c k E0)). cbn [unw_get_reg snd default Z.ltb Z.eqb orb].
  eexists. split; [|eapply (turn_rest obj c k _ _ true _ _ 0); [exact P|done|by rewrite Z.eqb_refl, orb_true_r]]. done.
Qed.

Lemma up_turn obj w k c ra nbp : w_cursor w = c -> known k c ->
  frame_bp c mod 8 = 0 -> 0x10000000 <= frame_sp c <= frame_bp c -> frame_bp c < frame_sp c + 0x10000 ->
  frame_bp c + 16 < 2 ^ 63 -> word_at (frame_bp c + 8) = Some ra -> word_at (frame_bp c) = Some nbp ->
  let c' := stepped c ra nbp in (frame_bp c' = 0 \/ frame_bp c <= frame_bp c') ->
  exists w', w_cursor w' = c' /\ w_higher_sp w' = frame_sp c' /\
    let f := frame_below c (frame_sp c') (if frame_bp c' =? 0 then None else Some (frame_bp c')) in
    frame_turn word_at obj w k = turn_says (says obj f) f w' k.
Proof.
  intros Ew P Ha Hs Hb Hm Er En c' Hc. unfold frame_turn. rewrite (bind_Done _ _ _ (__liballocs_main_bp k) k) by done. cbv zeta.
  rewrite Ew, (bind_Done _ _ _ _ _ (unw_step_up c ra nbp k Ha Hs Hb Hm Er En)). fold c'.
  rewrite (proj2 (Z.ltb_lt 0 _)) by lia. unfold unw_get_reg. rewrite (proj2 (Z.eqb_neq (frame_bp c) 0)) by lia. cbn [snd fst default Z.eqb andb].
  assert (Hret : forall x, (0 <? frame_bp c + 16 - frame_sp c) || x = true) by (intros x; by rewrite (proj2 (Z.ltb_lt 0 _)) by lia).
  destruct (Z.eqb_spec (frame_bp c') 0) as [E0|N0]; cbn [fst snd Z.eqb default andb].
  - change (- EINVAL =? 0) with false. cbn [andb].
    eexists. split_and!; cycle 2; [apply (turn_rest obj c k _ _ false); [exact P|done|apply Hret]|done..].
  - unfold default, id. rewrite (proj2 (Z.leb_le (frame_bp c) _)) by lia.
    eexists. split_and!; cycle 2; [apply (turn_rest obj c k _ _ true); [exact P|done|apply Hret]|done..].
Qed.
Lemma unwinds_head c cs : unwinds c cs -> exists l, cs = c :: l.
Proof. intros []; by eexists. Qed.

Lemma unwinds_bp c cs : unwinds c cs -> frame_bp c = 0 \/ frame_sp c <= frame_bp c.
Proof. intros [|]; [by left|right; lia]. Qed.

Lemma frame_loop_ok obj k c cs : unwinds c cs -> (forall c0, c0 ∈ cs -> known k c0) -> forall fuel w,
  (length cs <= fuel)%nat -> w_cursor w = c -> frame_loop word_at fuel obj w k = Done (answer obj (frames_on cs) k).
Proof.
  induction 1 as [c E0|c ra nbp cs Ha Hs Hb Hm Er En Un IH]; intros P fuel w Hf Ew; (destruct fuel as [|fuel]; [simpl in Hf; lia|]);
    cbn [frame_loop frames_on answer].
  - destruct (top_turn obj w k c Ew E0) as (w' & Eh & Et); [apply P, list_elem_of_here|]. cbv zeta in Et.
    destruct (says obj _) eqn:Es; rewrite (bind_Done _ _ _ _ _ Et); [|done..]. rewrite Eh, Z.eqb_refl. done.
  - destruct (proj1 max_user_address_spec) as [_ HM]. destruct (unwinds_head _ _ Un) as (l & El).
    destruct (up_turn obj w k c ra nbp Ew) as (w' & Ec & Eh & Et); [apply P, list_elem_of_here|done|done|done|lia|done|done| |].
    { apply unwinds_bp in Un. cbn [stepped frame_sp] in *. lia. }
    cbv zeta in Et. rewrite El. rewrite El in IH.
    destruct (says obj _) eqn:Es; rewrite (bind_Done _ _ _ _ _ Et); [|done..]. rewrite Eh. cbn [stepped frame_sp].
    rewrite (proj2 (Z.eqb_neq _ _)) by (unfold BEGINNING_OF_STACK; lia). cbn [negb].
    apply IH; [|rewrite El in Hf; simpl in *; lia|done]. intros c0 H0. apply P. rewrite El. by apply list_elem_of_further.
Qed.

(** ** Answers on a stack whose frames are laid out in order *)

Record laid_out (fs : list stack_frame) : Prop := {
  lo_bounds f : f ∈ fs -> sf_type f <> 0 -> 0 <= sf_begin f /\ 0 <= sf_size f /\ sf_end f < 2 ^ 64;
  lo_order i j f g : (i < j)%nat -> fs !! i = Some f -> fs !! j = Some g -> sf_type f <> 0 -> sf_type g <> 0 -> sf_end f <= sf_begin g;
  lo_above f b : f ∈ fs -> sf_type f <> 0 -> sf_above f = Some b -> sf_end f <= b + 1;
}.

Definition in_frame (obj : Z) (f : stack_frame) : Prop := sf_type f <> 0 /\ sf_begin f <= obj < sf_end f.

Lemma says_holds obj fs f : laid_out fs -> f ∈ fs -> says obj f = Holds <-> in_frame obj f.
Proof.
  intros L Hf. unfold says, in_frame. destruct (Z.eqb_spec (sf_type f) 0) as [E0|N0].
  { split; [|by intros [? _]]. by destruct (match sf_above f with Some b => b <? obj | None => false end). }
  destruct (lo_bounds _ L f Hf N0). rewrite wrap_small by (unfold sf_end in *; lia).
  assert (Ha : match sf_above f with Some b => b <? obj | None => false end = true -> sf_end f <= obj).
  { destruct (sf_above f) as [b|] eqn:Eb; [|done]. intros Hb%Z.ltb_lt. pose proof (lo_above _ L f b Hf N0 Eb). lia. }
  destruct (match sf_above f with Some b => b <? obj | None => false end).
  - specialize (Ha eq_refl). split; [done|]. intros [_ ?]. lia.
  - destruct (Z.leb_spec (sf_begin f) obj), (Z.ltb_spec obj (sf_end f)); simpl; try (split; [|done || lia]; by destruct (obj <? sf_begin f)).
Qed.

Lemma says_passed obj fs f : laid_out fs -> f ∈ fs -> says obj f = Passed <-> sf_type f <> 0 /\ obj < sf_begin f.
Proof.
  intros L Hf. unfold says. destruct (Z.eqb_spec (sf_type f) 0) as [E0|N0].
  { split; [|by intros [? _]]. by destruct (match sf_above f with Some b => b <? obj | None => false end). }
  destruct (lo_bounds _ L f Hf N0). rewrite wrap_small by (unfold sf_end in *; lia).
  assert (Ha : match sf_above f with Some b => b <? obj | None => false end = true -> sf_end f <= obj).
  { destruct (sf_above f) as [b|] eqn:Eb; [|done]. intros Hb%Z.ltb_lt. pose proof (lo_above _ L f b Hf N0 Eb). lia. }
  unfold sf_end in *. destruct (match sf_above f with Some b => b <? obj | None => false end).
  - specialize (Ha eq_refl). split; [done|]. intros [_ ?]. lia.
  - destruct (Z.leb_spec (sf_begin f) obj), (Z.ltb_spec obj (sf_begin f + sf_size f)), (Z.ltb_spec obj (sf_begin f)); simpl; split; try done; lia.
Qed.
Lemma laid_out_tail f fs : laid_out (f :: fs) -> laid_out fs.
Proof.
  intros [Hb Ho Ha]. split.
  - intros g Hg. apply Hb. by apply list_elem_of_further.
  - intros i j g h Hij. apply (Ho (S i) (S j)). lia.
  - intros g b Hg. apply Ha. by apply list_elem_of_further.
Qed.

Lemma answer_in obj fs f k : laid_out fs -> f ∈ fs -> in_frame obj f -> answer obj fs k = ((0, frame_info f), k).
Proof.
  induction fs as [|g fs IH]; intros L Hf If; [by apply not_elem_of_nil in Hf|]. cbn [answer].
  apply elem_of_cons in Hf as [<-|Hf].
  { by rewrite (proj2 (says_holds obj _ f L (list_elem_of_here _ _)) If). }
  assert (Og : sf_type g <> 0 -> sf_end g <= obj).
  { intros Ng. apply list_elem_of_lookup in Hf as (j & Ej). destruct If as [Nf ?].
    pose proof (lo_order _ L 0 (S j) g f ltac:(lia) eq_refl Ej Ng Nf). lia. }
  destruct (says obj g) eqn:Es; [by apply IH; [eapply laid_out_tail|..]| |].
  - apply (says_holds obj _ g L (list_elem_of_here _ _)) in Es as [Ng ?]. specialize (Og Ng). lia.
  - apply (says_passed obj _ g L (list_elem_of_here _ _)) in Es as [Ng ?]. specialize (Og Ng).
    destruct (lo_bounds _ L g (list_elem_of_here _ _) Ng). unfold sf_end in *. lia.
Qed.

Lemma answer_below obj fs f k : laid_out fs -> (forall g, g ∈ fs -> ~ in_frame obj g) -> f ∈ fs -> sf_type f <> 0 -> obj < sf_begin f ->
  answer obj fs k = ((err_stack_walk_reached_higher_frame, no_info), count_stack 0 1 k).
Proof.
  induction fs as [|g fs IH]; intros L N Hf Nf Hlt; [by apply not_elem_of_nil in Hf|]. cbn [answer].
  destruct (says obj g) eqn:Es; [| |done].
  - apply elem_of_cons in Hf as [<-|Hf].
    + by rewrite (proj2 (says_passed obj _ f L (list_elem_of_here _ _)) (conj Nf Hlt)) in Es.
    + apply IH; [by eapply laid_out_tail| |done..]. intros h Hh. apply N. by apply list_elem_of_further.
  - apply (says_holds obj _ g L (list_elem_of_here _ _)) in Es. by destruct (N g (list_elem_of_here _ _)).
Qed.

Lemma answer_above obj fs k : laid_out fs -> (forall g, g ∈ fs -> sf_type g <> 0 -> sf_end g <= obj) ->
  answer obj fs k = ((err_stack_walk_reached_top_of_stack, no_info), count_stack 0 1 k).
Proof.
  induction fs as [|g fs IH]; intros L N; [done|]. cbn [answer]. pose proof (N g (list_elem_of_here _ _)) as Ng.
  destruct (says obj g) eqn:Es.
  - apply IH; [by eapply laid_out_tail|]. intros h Hh. apply N. by apply list_elem_of_further.
  - apply (says_holds obj _ g L (list_elem_of_here _ _)) in Es as [T ?]. specialize (Ng T). lia.
  - apply (says_passed obj _ g L (list_elem_of_here _ _)) in Es as [T ?]. specialize (Ng T).
    destruct (lo_bounds _ L g (list_elem_of_here _ _) T). unfold sf_end in *. lia.
Qed.

(** ** The whole query *)

(** The cursor of the query itself. *)
Definition start_cursor (frame_address return_address caller_bp : Z) : unw_cursor_t :=
  Cursor (frame_address + 16) (SANE_BP_OR_NULL caller_bp (frame_address + 16)) return_address.

Lemma get_info_run fuel frame_address return_address caller_bp obj k cs :
  0 < frame_address -> frame_address + 16 < 2 ^ 64 -> word_at frame_address = Some caller_bp -> caller_bp <> 0 ->
  unwinds (start_cursor frame_address return_address caller_bp) cs -> (forall c, c ∈ cs -> known k c) -> (length cs <= fuel)%nat ->
  stackframe_get_info word_at fuel frame_address return_address (frame_address + 16) obj k = Done (answer obj (frames_on cs) (count_stack 1 0 k)).
Proof.
  intros Hf Hm Ew Nb Un Kn Hl. unfold stackframe_get_info. set (k1 := count_stack 1 0 k). rewrite (bind_Done _ _ _ tt k1) by done.
  rewrite (bind_Done _ _ _ (start_cursor frame_address return_address caller_bp) k1); cycle 1.
  { unfold unw_getcontext. rewrite (bind_Done _ _ _ tt k1) by (apply assert_true; rewrite (proj2 (Z.eqb_neq _ _)); [done|lia]).
    rewrite (bind_Done _ _ _ caller_bp k1) by (unfold rd_word; by rewrite Ew).
    rewrite (bind_Done _ _ _ tt k1) by (apply assert_true; by rewrite (proj2 (Z.eqb_neq _ _))). by rewrite wrap_small by lia. }
  cbv zeta. rewrite (bind_Done _ _ _ tt k1) by (apply assert_true; apply Z.eqb_refl).
  by eapply frame_loop_ok.
Qed.

(** ** The walk ends *)

(** The frame lookup of a code address answers, or stops the program. *)
Definition pc_ok (k : kstate) (ip : Z) : Prop :=
  pc_to_frame_uniqtype ip (k_static k) = Abort \/ exists d, pc_to_frame_uniqtype ip (k_static k) = Done (d, k_static k).

(** The words that can be read are at user addresses. *)
Definition user_memory (k : kstate) : Prop := forall a v, word_at a = Some v ->
  0 <= a <= MAXIMUM_USER_ADDRESS /\ 0 <= v < 2 ^ 64 /\ pc_ok k v.

Definition cursor_ok (k : kstate) (c : unw_cursor_t) : Prop :=
  0 <= frame_sp c /\ (frame_bp c = 0 \/ frame_sp c <= frame_bp c < 2 ^ 64) /\ pc_ok k (frame_ip c).

Lemma sane_ok k bp sp ip : 0 <= sp -> 0 <= bp < 2 ^ 64 -> pc_ok k ip -> cursor_ok k (Cursor sp (SANE_BP_OR_NULL bp sp) ip).
Proof.
  intros Hs Hb P. split; [done|]. split; [|done]. unfold SANE_BP_OR_NULL. cbn [frame_bp frame_sp].
  destruct (Z.leb_spec sp bp), (_ <? _); simpl; [right; lia|by left..].
Qed.

(** A step up is at least two words. *)
Lemma unw_step_progress c k : user_memory k -> cursor_ok k c ->
  unw_step word_at c k = Abort \/ exists r c', unw_step word_at c k = Done ((r, c'), k) /\
    (0 < r -> cursor_ok k c' /\ frame_sp c + 16 <= frame_sp c' <= MAXIMUM_USER_ADDRESS + 16).
Proof.
  intros Um (Hs & Hc & _). destruct (proj1 max_user_address_spec) as [_ HM]. unfold unw_step.
  destruct (Z.eqb_spec (frame_bp c) 0) as [E0|N0]; [right; exists 0, c; split; [done|lia]|].
  destruct Hc as [?|Hb]; [done|].
  assert (Ea : assert (frame_bp c mod 8 =? 0) k = Abort \/ assert (frame_bp c mod 8 =? 0) k = Done (tt, k)).
  { unfold assert. destruct NDEBUG; [by right|]. destruct (_ =? 0); [by right|by left]. }
  destruct Ea as [Ea|Ea]; [left; unfold mbind, M_bind; by rewrite Ea|]. rewrite (bind_Done _ _ _ _ _ Ea). cbv zeta. unfold rd_word.
  destruct (word_at (wrap64 (frame_bp c + 8))) as [ra|] eqn:Er; [|by left]. rewrite (bind_Done _ _ _ ra k) by done.
  destruct (word_at (frame_bp c)) as [nbp|] eqn:En; [|by left]. rewrite (bind_Done _ _ _ nbp k) by done. cbn [frame_sp].
  destruct (Um _ _ En) as (Hm & Hv & _). destruct (Um _ _ Er) as (_ & _ & Pr). rewrite (wrap_small 64 (frame_bp c + 16)) by lia. right.
  destruct (_ || _); [exists (-1), c; split; [done|lia]|]. do 2 eexists. split; [done|]. intros _. cbn [frame_sp].
  split; [apply sane_ok; [lia..|done]|lia].
Qed.

Context (obj : Z).

(** Both stop conditions of the loop's caller. *)
Definition may_go_on (sp : Z) (k : kstate) (o : outcome (turn * kstate)) : Prop :=
  match o with
  | NoFuel => False
  | Abort => True
  | Done (Answer _, _) => True
  | Done (Continue w, k') => k' = k /\ (w_higher_sp w = BEGINNING_OF_STACK \/
      cursor_ok k (w_cursor w) /\ sp + 16 <= frame_sp (w_cursor w) <= MAXIMUM_USER_ADDRESS + 16)
  end.

Lemma check_ends sp ip r hsp hbp got w k : pc_ok k ip -> hsp = BEGINNING_OF_STACK \/ 0 < r ->
  w_higher_sp w = BEGINNING_OF_STACK \/ cursor_ok k (w_cursor w) /\ sp + 16 <= frame_sp (w_cursor w) <= MAXIMUM_USER_ADDRESS + 16 ->
  may_go_on sp k (frame_check obj ip r hsp hbp got w k).
Proof.
  intros P Hh Ok. unfold frame_check. destruct (got && _); [done|]. destruct P as [Ep|(d & Ep)].
  { unfold mbind, M_bind, on_static. by rewrite Ep. }
  rewrite (bind_Done _ _ _ _ _ (on_static_read _ _ _ Ep)). destruct (fd_u d =? 0); [done|]. cbv zeta.
  destruct (_ && _); [done|]. destruct (obj <? _); [done|].
  rewrite (bind_Done _ _ _ tt k); [done|]. apply assert_true. destruct Hh as [->|Hh]; [by rewrite Z.eqb_refl, orb_true_r|].
  by rewrite (proj2 (Z.ltb_lt 0 r)).
Qed.

Lemma turn_ends w k : user_memory k -> cursor_ok k (w_cursor w) ->
  may_go_on (frame_sp (w_cursor w)) k (frame_turn word_at obj w k).
Proof.
  intros Um Hc. pose proof (proj2 (proj2 Hc)) as P. unfold frame_turn. rewrite (bind_Done _ _ _ (__liballocs_main_bp k) k) by done. cbv zeta.
  destruct (unw_step_progress (w_cursor w) k Um Hc) as [Es|(r & c' & Es & Hp)]; [unfold mbind, M_bind; by rewrite Es|].
  rewrite (bind_Done _ _ _ _ _ Es). destruct (Z.ltb_spec 0 r) as [Hr|Hr].
  - apply check_ends; [done|by right|right; by apply Hp].
  - destruct (_ || _); [apply check_ends; [done|by left|by left]|done].
Qed.

Lemma loop_ends k : user_memory k -> forall fuel w, cursor_ok k (w_cursor w) ->
  frame_sp (w_cursor w) <= MAXIMUM_USER_ADDRESS + 16 < frame_sp (w_cursor w) + 16 * Z.of_nat fuel -> frame_loop word_at fuel obj w k <> NoFuel.
Proof.
  intros Um. induction fuel as [|fuel IH]; intros w Hc Hf.
  - lia.
  - cbn [frame_loop]. pose proof (turn_ends w k Um Hc) as T. unfold mbind, M_bind at 1.
    destruct (frame_turn word_at obj w k) as [[[r|w'] k']| |]; [done| |done|done]. destruct T as [-> [Eh|(Hc' & Hs)]].
    + by rewrite Eh, Z.eqb_refl.
    + destruct (negb _); [|done]. apply IH; [done|lia].
Qed.

Lemma get_info_ends k fuel frame_address return_address rsp :
  user_memory k -> pc_ok k return_address -> 0 <= frame_address <= MAXIMUM_USER_ADDRESS ->
  MAXIMUM_USER_ADDRESS < frame_address + 16 * Z.of_nat fuel ->
  stackframe_get_info word_at fuel frame_address return_address rsp obj k <> NoFuel.
Proof.
  intros Um P Hf Hn. destruct (proj1 max_user_address_spec) as [_ HM]. unfold stackframe_get_info. set (k1 := count_stack 1 0 k).
  rewrite (bind_Done _ _ _ tt k1) by done. unfold unw_getcontext.
  assert (As : forall b, assert b k1 = Abort \/ assert b k1 = Done (tt, k1)).
  { intros b. unfold assert. destruct NDEBUG; [by right|]. destruct b; [by right|by left]. }
  destruct (As (negb (frame_address =? 0))) as [Ea|Ea]; [unfold mbind, M_bind; by rewrite Ea|].
  unfold rd_word. destruct (word_at frame_address) as [cbp|] eqn:Ew; [|unfold mbind, M_bind; by rewrite Ea].
  destruct (As (negb (cbp =? 0))) as [Eb|Eb]; [unfold mbind, M_bind; by rewrite Ea; cbn; rewrite Eb|].
  destruct (Um _ _ Ew) as (_ & Hv & _).
  rewrite (bind_Done _ _ _ (Cursor (frame_address + 16) (SANE_BP_OR_NULL cbp (frame_address + 16)) return_address) k1); cycle 1.
  { rewrite (bind_Done _ _ _ _ _ Ea), (bind_Done _ _ _ cbp k1), (bind_Done _ _ _ _ _ Eb) by done. cbv zeta. by rewrite wrap_small by lia. }
  cbv zeta. destruct (As (rsp =? default 0 (snd (unw_get_reg (unw_init_local (Cursor (frame_address + 16)
    (SANE_BP_OR_NULL cbp (frame_address + 16)) return_address)) UNW_REG_SP)))) as [Ec|Ec]; [unfold mbind, M_bind; by rewrite Ec|].
  rewrite (bind_Done _ _ _ _ _ Ec). apply loop_ends; [done| |]; cbn [w_cursor unw_init_local frame_sp]; [apply sane_ok; [lia..|done]|lia].
Qed.
End frames.

Section grow.
Context {V : Vas} {VL : VasLaws V} {H : Hooks}.

(** The bigallocs around [b] reach down to [n]; all else is as it was. *)
Record grown_down (s s' : state) (b n : Z) : Prop := {
  gd_wf : wf s';
  gd_index : index_ok s';
  gd_start : start_ok s -> start_ok s';
  gd_anchor : START s' = START s;
  gd_used i : used s' i <-> used s i;
  gd_parent i : parent (ba s' i) = parent (ba s i);
  gd_around a : ancestor s a b -> ba s' a = set_begin (Z.min n (b_begin (ba s a))) (ba s a);
  gd_other i : ~ ancestor s i b -> ba s' i = ba s i;
}.

(** Nothing but the bigallocs around [b] is between [n] and its beginning. *)
Record may_grow (s : state) (b n : Z) : Prop := {
  mg_page : 0 < n /\ n mod PAGE_SIZE = 0;
  mg_clear i : used s i -> ~ ancestor s i b -> b_end (ba s i) <= n \/ b_begin (ba s b) <= b_begin (ba s i);
  mg_size a : ancestor s a b -> b_end (ba s a) - n <= BIGGEST_SANE_USER_ALLOC;
  mg_aligned a : ancestor s a b -> min_alignment (allocated_by (ba s a)) <> 0 ->
    ROUND_DOWN n (min_alignment (allocated_by (ba s a))) = n;
}.

Lemma ancestor_cases s i b : used s b -> parent (ba s b) <> 0 -> ancestor s i b <-> i = b \/ ancestor s i (parent (ba s b)).
Proof.
  intros U N. split.
  - intros A. inversion A as [|? y ? (_ & Ey & Ny) A']; subst; [by left|by right].
  - intros [->|A]; [apply ancestor_refl|by apply ancestor_step].
Qed.
Lemma ancestor_root s i b : parent (ba s b) = 0 -> ancestor s i b -> i = b.
Proof. intros E A. inversion A as [|? y ? (_ & Ey & Ny) A']; subst; [done|congruence]. Qed.

Lemma may_grow_parent s b n : wf s -> used s b -> parent (ba s b) <> 0 -> may_grow s b n -> may_grow s (parent (ba s b)) n.
Proof.
  intros W U N [Pg Cl Sz Al]. destruct (wf_parent _ W b U N) as (_ & Hb & _). split; [done| | |].
  - intros i Ui Na. destruct (decide (i = b)) as [->|Ni]; [by right|].
    destruct (Cl i Ui) as [?|?]; [|by left|right; lia]. intros A. apply ancestor_cases in A as [?|?]; done.
  - intros a A. apply Sz. by apply ancestor_step.
  - intros a A. apply Al. by apply ancestor_step.
Qed.

(** Extending is a no-op when the bigalloc reaches that far already. *)
Lemma pre_extend_noop s b n : b_begin (ba s b) <= n -> __liballocs_pre_extend_bigalloc (B := release) b n s = Done (true, s).
Proof.
  intros Hn. unfold __liballocs_pre_extend_bigalloc. cbv [sanity_check_bigalloc NDEBUG release].
  rewrite (bind_Done _ _ _ tt s), (bind_Done _ _ _ (b_begin (ba s b)) s) by done.
  by rewrite (proj2 (Z.ltb_ge _ _)) by done.
Qed.

Lemma set_begin_id r : set_begin (b_begin r) r = r.
Proof. by destruct r. Qed.

Lemma grow_self s b n : wf s -> index_ok s -> used s b -> may_grow s b n ->
  (parent (ba s b) <> 0 -> b_begin (ba s (parent (ba s b))) <= n \/ b_begin (ba s b) <= n) ->
  exists s', __liballocs_pre_extend_bigalloc (B := release) b n s = Done (true, s') /\ wf s' /\ index_ok s' /\
    (start_ok s -> start_ok s') /\ START s' = START s /\ (forall i, used s' i <-> used s i) /\
    ba s' b = set_begin (Z.min n (b_begin (ba s b))) (ba s b) /\ (forall i, i <> b -> ba s' i = ba s i).
Proof.
  intros W I U [Pg Cl Sz Al] Hp. pose proof (wf_bounds _ W b U) as Hb. destruct (decide (b_begin (ba s b) <= n)) as [Hle|Hgt].
  { exists s. rewrite Z.min_r by done. split_and!; [by apply pre_extend_noop|done..|by rewrite set_begin_id|done]. }
  assert (F : fits_range s b n (b_end (ba s b))).
  { split; [lia|lia| | | |].
    - intros N. destruct (wf_parent _ W b U N) as (_ & _ & ?). destruct (Hp N); lia.
    - intros E. split; [apply Pg|apply (wf_aligned _ W b U E)].
    - intros c Uc Pc. destruct (wf_parent _ W c Uc) as (_ & ? & ?); [rewrite Pc; by apply (used_nonzero s)|]. rewrite Pc in *. lia.
    - intros c Uc Nc Pc. assert (Na : ~ ancestor s c b).
      { intros A. destruct (decide (parent (ba s b) = 0)) as [E|N]; [by apply Nc, (ancestor_root s c b E)|].
        apply ancestor_cases in A as [?|A]; [done| |done..]. by apply (child_not_ancestor s c (parent (ba s b)) W Uc Pc). }
      destruct (Cl c Uc Na) as [?|?]; [by right|]. pose proof (wf_bounds _ W c Uc).
      destruct (wf_disjoint _ W c b Uc U Nc Pc); unfold precedes in *; lia. }
  destruct (pre_extend_ok s b W I U n F ltac:(lia) (Sz b (ancestor_refl s b))) as (s' & E' & [W' I' S' R']).
  exists s'. rewrite Z.min_l by lia. split_and!; [done..|apply R'| | |apply R'].
  - intros i. by apply (rz_used s s' b n (b_end (ba s b))).
  - rewrite (rz_self _ _ _ _ _ R'). by destruct (ba s b).
Qed.

Lemma ancestor_same s s' : (forall i, used s' i <-> used s i) -> (forall i, parent (ba s' i) = parent (ba s i)) ->
  forall a d, ancestor s' a d <-> ancestor s a d.
Proof.
  intros Hu Hp a d. unfold ancestor. split; intros A; (eapply rtc_subrel; [|exact A]); intros x y (Ux & Px & Ny).
  - rewrite <- Hu, <- Hp. done.
  - rewrite Hu, Hp. done.
Qed.

(** What [may_grow] needs of the bigallocs around [b] survives the growth of the parent. *)
Lemma may_grow_next s s1 b n : used s b -> parent (ba s b) <> 0 -> ba s1 b = ba s b ->
  grown_down s s1 (parent (ba s b)) n -> may_grow s b n -> may_grow s1 b n.
Proof.
  intros U N Eb [_ _ _ _ U1 P1 An1 Ot1] [Pg Cl Sz Al]. pose proof (ancestor_same s s1 U1 P1) as An.
  assert (Es : forall a, ancestor s1 a b -> b_end (ba s1 a) = b_end (ba s a) /\ allocated_by (ba s1 a) = allocated_by (ba s a)).
  { intros a A. apply An, ancestor_cases in A as [->|A]; [by rewrite Eb|by rewrite (An1 a A)|done..]. }
  split; [done| | |].
  - intros i Ui Na. rewrite Ot1, Eb; [apply Cl; [by apply U1|by rewrite <- An]|]. intros A. apply Na, An. by apply ancestor_step.
  - intros a A. rewrite (proj1 (Es a A)). by apply Sz, An.
  - intros a A. rewrite (proj2 (Es a A)). by apply Al, An.
Qed.

Lemma grow_around s : wf s -> index_ok s -> forall b, used s b -> forall n, may_grow s b n ->
  exists s', __liballocs_pre_extend_bigalloc_recursive (B := release) b n s = Done (true, s') /\ grown_down s s' b n.
Proof.
  intros W I. apply (ascent_ind s (fun fuel b => forall n, may_grow s b n ->
    exists s', pre_extend_rec (B := release) fuel b n s = Done (true, s') /\ grown_down s s' b n) W).
  intros fuel b U IH n G. cbn [pre_extend_rec]. rewrite (bind_Done _ _ _ (parent (ba s b)) s) by done.
  destruct (Z.eqb_spec (parent (ba s b)) 0) as [E|N]; cbn [negb].
  - rewrite (bind_Done _ _ _ true s) by done. destruct (grow_self s b n W I U G) as (s' & E' & W' & I' & S' & A' & U' & Eb & Eo); [done|].
    exists s'. split; [done|]. split; [done..| | |].
    + intros i. destruct (decide (i = b)) as [->|Ni]; [by rewrite Eb|by rewrite Eo].
    + intros a A. by apply (ancestor_root s a b E) in A as ->.
    + intros i Ni. apply Eo. intros ->. apply Ni, ancestor_refl.
  - pose proof (may_grow_parent s b n W U N G) as Gp. pose proof (mg_aligned _ _ _ Gp _ (ancestor_refl s _)) as Al.
    destruct (IH N n Gp) as (s1 & E1 & G1). pose proof G1 as [W1 I1 S1 A1 U1 P1 An1 Ot1].
    rewrite (bind_Done _ _ _ true s1); cycle 1.
    { rewrite (bind_Done _ _ _ (ba s (parent (ba s b))) s) by done. cbv zeta.
      destruct (Z.eqb_spec (min_alignment (allocated_by (ba s (parent (ba s b))))) 0) as [Z0|NZ]; cbn [negb]; [done|by rewrite (Al NZ)]. }
    assert (Nb : ~ ancestor s b (parent (ba s b))) by by apply child_not_ancestor.
    assert (Eb : ba s1 b = ba s b) by by apply Ot1.
    destruct (grow_self s1 b n W1 I1) as (s' & E' & W' & I' & S' & A' & U' & Eb' & Eo').
    { by apply U1. } { by eapply may_grow_next. }
    { rewrite Eb. intros _. left. rewrite (An1 _ (ancestor_refl s _)). cbn [b_begin set_begin]. lia. }
    exists s'. split; [done|]. split; [done|done|tauto|congruence| | | |].
    + intros i. rewrite U'. apply U1.
    + intros i. destruct (decide (i = b)) as [->|Ni]; [by rewrite Eb', Eb|by rewrite Eo'].
    + intros a A. apply ancestor_cases in A as [->|A]; [by rewrite Eb', Eb| |done..].
      rewrite Eo' by (intros ->; done). by apply An1.
    + intros i Ni. rewrite Eo' by (intros ->; apply Ni, ancestor_refl). apply Ot1. intros A. apply Ni. by apply ancestor_step.
Qed.

(** ** Claiming an address below the stack *)

Lemma unindexed_ok t k : forall p last, last - p <= Z.of_nat k -> p <= last -> (forall x, p <= x < last -> pi t x = 0) ->
  is_unindexed_loop k p last t = Done (true, t).
Proof.
  induction k as [|k IH]; intros p last Hk Hp Hz; cbn [is_unindexed_loop]; rewrite (bind_Done _ _ _ (pi t p) t) by done.
  - assert (p = last) as -> by lia. by rewrite Z.eqb_refl.
  - destruct (Z.ltb_spec p last) as [Hlt|Hge].
    + rewrite (Hz p) by lia. cbn [andb Z.eqb]. apply IH; [lia|lia|]. intros x Hx. apply Hz. lia.
    + assert (p = last) as -> by lia. by rewrite Z.eqb_refl.
Qed.

(** No bigalloc is between the page of [ptr] and the stack [b], which begins on a page. *)
Record below_stack (t : state) (b ptr lim_cur lim_max : Z) : Prop := {
  bs_stack : used t b /\ b_begin (ba t b) mod PAGE_SIZE = 0;
  bs_near : PAGE_SIZE <= ptr < b_begin (ba t b) /\ b_begin (ba t b) - ptr < guess_sane_max_stack_delta lim_cur lim_max;
  bs_free i a : used t i -> ROUND_DOWN ptr PAGE_SIZE <= a < b_begin (ba t b) -> ~ contains t i a;
  bs_size a : ancestor t a b -> b_end (ba t a) - ROUND_DOWN ptr PAGE_SIZE <= BIGGEST_SANE_USER_ALLOC;
  bs_aligned a : ancestor t a b -> min_alignment (allocated_by (ba t a)) <> 0 -> min_alignment (allocated_by (ba t a)) = PAGE_SIZE;
}.

Lemma below_may_grow t b ptr cur max : wf t -> below_stack t b ptr cur max -> may_grow t b (ROUND_DOWN ptr PAGE_SIZE).
Proof.
  intros W [[U Ab] [Hp Hd] Fr Sz Al]. pose proof (wf_bounds _ W b U) as Hb. assert (HP : PAGE_SIZE = 4096) by done.
  rewrite ROUND_DOWN_spec in * by lia. split.
  - split; [|by rewrite Z.mul_comm, Z.mod_mul]. rewrite HP in *. Z.div_mod_to_equations. lia.
  - intros i Ui Na. destruct (decide (b_begin (ba t b) <= b_begin (ba t i))) as [|N]; [by right|left].
    apply Z.le_ngt. intros Hgt. apply (Fr i (Z.max (PAGE_SIZE * (ptr / PAGE_SIZE)) (b_begin (ba t i))) Ui); [|unfold contains].
    + rewrite HP in *. Z.div_mod_to_equations. lia.
    + pose proof (wf_bounds _ W i Ui). lia.
  - done.
  - intros a A Na. rewrite (Al a A Na). rewrite ROUND_DOWN_spec by (rewrite HP; Z.div_mod_to_equations; lia).
    rewrite (Z.mul_comm PAGE_SIZE (ptr / PAGE_SIZE)), Z.div_mul by done. lia.
Qed.

Lemma claim_ok t b ptr cur max : table_ok t -> below_stack t b ptr cur max ->
  exists t', claim_loop (B := release) FUEL cur max ptr b t = Done (true, t') /\ grown_down t t' b (ROUND_DOWN ptr PAGE_SIZE).
Proof.
  intros [W I _ _] BS. pose proof (below_may_grow _ _ _ _ _ W BS) as G. destruct BS as [[U Ab] [Hp Hd] Fr Sz Al].
  pose proof (wf_bounds _ W b U) as Hb. assert (HP : PAGE_SIZE = 4096) by done. destruct (proj1 max_user_address_spec) as [_ HM].
  destruct (grow_around t W I b U _ G) as (t' & E' & G'). exists t'. split; [|done].
  assert (exists n, FUEL = S n) as (n & ->) by (exists (2 * NB + 3)%nat; rewrite FUEL_eq; lia). cbn [claim_loop].
  rewrite (proj2 (Z.eqb_neq b 0)) by by apply (used_nonzero t). rewrite (bind_Done _ _ _ (ba t b) t) by done. cbv zeta.
  assert (Ed : signed_diff (b_begin (ba t b)) ptr = b_begin (ba t b) - ptr).
  { unfold signed_diff. rewrite wrap_small by lia. by rewrite (proj2 (Z.ltb_lt _ _)) by lia. }
  rewrite Ed, (proj2 (Z.ltb_lt 0 (b_begin (ba t b) - ptr))), (proj2 (Z.ltb_lt (b_begin (ba t b) - ptr) _)) by lia. cbn [andb orb].
  rewrite (bind_Done _ _ _ true t); [by rewrite (bind_Done _ _ _ _ _ E')|].
  unfold __pages_unused, is_unindexed. rewrite ROUND_UP_spec by lia. rewrite !PAGENUM_spec by (rewrite ?HP; Z.div_mod_to_equations; lia).
  rewrite ROUND_DOWN_spec in * by lia.
  apply unindexed_ok; [rewrite HP in *; Z.div_mod_to_equations; lia..|]. intros x Hx.
  assert (Ex : PAGENUM (x * PAGE_SIZE) = x) by (rewrite PAGENUM_spec by (rewrite HP in *; Z.div_mod_to_equations; lia); by rewrite Z.div_mul).
  rewrite <- Ex. apply (index_none _ _ W I).
  - unfold user_address. rewrite HP in *. Z.div_mod_to_equations. lia.
  - intros i Ui. apply (Fr i (x * PAGE_SIZE) Ui). rewrite HP in *. Z.div_mod_to_equations. lia.
Qed.

(** Too far below, or above: not claimed. *)
Lemma refuse_ok t b ptr cur max : wf t -> used t b -> 0 <= ptr < 2 ^ 63 -> allocator_private (ba t b) = 0 ->
  b_begin (ba t b) <= ptr \/ guess_sane_max_stack_delta cur max <= b_begin (ba t b) - ptr ->
  b_end (ba t b) <= ptr \/ guess_sane_max_stack_size cur max <= b_end (ba t b) - ptr ->
  claim_loop (B := release) FUEL cur max ptr b t = Done (false, t).
Proof.
  intros W U Hp E0 Hd He. pose proof (wf_bounds _ W b U) as Hb. destruct (proj1 max_user_address_spec) as [_ HM].
  assert (exists n, FUEL = S (S n)) as (n & ->) by (exists (2 * NB + 2)%nat; rewrite FUEL_eq; lia). cbn [claim_loop].
  rewrite (proj2 (Z.eqb_neq b 0)) by by apply (used_nonzero t). rewrite (bind_Done _ _ _ (ba t b) t) by done. cbv zeta.
  assert (Ed : forall x, 0 < x < 2 ^ 63 -> signed_diff x ptr = x - ptr).
  { intros x Hx. unfold signed_diff, wrap. destruct (decide (ptr <= x)).
    - rewrite Z.mod_small by lia. by rewrite (proj2 (Z.ltb_lt _ _)) by lia.
    - rewrite <- (Z_mod_plus_full _ 1), Z.mod_small by lia. rewrite (proj2 (Z.ltb_ge _ _)) by lia. lia. }
  rewrite !Ed by lia. rewrite (bind_Done _ _ _ false t); [by rewrite E0|].
  destruct (_ || _) eqn:Eo; [exfalso|done]. apply orb_true_iff in Eo as [[?%Z.ltb_lt ?%Z.ltb_lt]%andb_true_iff|[?%Z.ltb_lt ?%Z.ltb_lt]%andb_true_iff]; lia.
Qed.
End grow.

(** ** Registering the initial stack *)

Section register.
Context {V : Vas} {VL : VasLaws V} {H : Hooks} {E : MmapEnv} {EL : MmapLaws E} {St : StaticEnv} {KE : StackEnv}.

Definition k_table (k : kstate) : state := s_table (k_static k).
Definition set_k_table (t : state) (k : kstate) : kstate := set_k_static (set_s_table t (k_static k)) k.

Lemma on_ktable_Done {A} (m : M state A) (k : kstate) a t : m (k_table k) = Done (a, t) -> on_ktable m k = Done (a, set_k_table t k).
Proof. intros Em. by apply on_static_Done, on_stable_Done. Qed.
Lemma rd_kbigalloc_ok b (k : kstate) : b <> 0 -> rd_kbigalloc b k = Done (ba (k_table k) b, k).
Proof. intros N. apply on_static_read. by apply rd_bigalloc_ok. Qed.

Lemma childless_deepest t b x : wf t -> used t b -> contains t b x -> (forall c, used t c -> parent (ba t c) <> b) -> deepest_at t x b.
Proof. intros W U C Hc. split_and!; [done..|]. intros j. apply deepest_is_below; [done..|]. intros c Uc Pc. by destruct (Hc c Uc). Qed.

(** A new bigalloc at the beginning of a childless one, its parent left to be found. *)
Lemma add_at_begin t b e ab : table_ok t -> room t 1 -> used t b -> (forall c, used t c -> parent (ba t c) <> b) ->
  b_begin (ba t b) < e <= b_end (ba t b) -> e - b_begin (ba t b) <= BIGGEST_SANE_USER_ALLOC ->
  exists a t', __liballocs_new_bigalloc (B := release) (b_begin (ba t b)) (e - b_begin (ba t b)) 0 0 0 ab t = Done (a, t') /\
    adds t t' a (b_begin (ba t b), e, b, ab, 0, 0, 0, 0, 0).
Proof.
  intros K R U Hc He Hs. pose proof (tk_wf _ K) as W. pose proof (tk_index _ K) as I. pose proof (wf_bounds _ W b U) as Hb.
  assert (D1 : deepest_at t (b_begin (ba t b)) b) by (apply childless_deepest; [done..|unfold contains; lia|done]).
  assert (D2 : deepest_at t (e - 1) b) by (apply childless_deepest; [done..|unfold contains; lia|done]).
  assert (Nb : b <> 0) by by apply (used_nonzero t). set (lo := b_begin (ba t b)) in *.
  destruct (add_below_ok t lo (e - lo) b 0 0 ab 0 K R Nb ltac:(lia)) as (a & t' & Ea & Ad).
  - replace (lo + (e - lo)) with e by lia. apply nested_fits; [done|lia|done|done|]. intros c Uc Pc. by destruct (Hc c Uc).
  - right. split_and!; [done|apply find_deepest_at; [done..|unfold user_address; lia|done]| |done].
    replace (lo + (e - lo) - 1) with (e - 1) by lia. apply find_deepest_at; [done..|unfold user_address; lia|done].
  - exists a, t'. replace (lo + (e - lo)) with e in Ad by lia. done.
Qed.

(** Rewriting another record with what it holds. *)
Lemma adds_upd_other t t' b m i f : adds t t' b m -> i <> b -> i <> 0 -> (forall r, shape (f r) = shape r) ->
  meta (f (ba t' i)) = meta (ba t' i) -> adds t (upd i f t') b m.
Proof.
  intros [T Nu Hu Hm Hb] Ni Nz Hf Em. split; [by apply table_upd|done| | |].
  - intros j. rewrite <- Hu. unfold used. destruct (decide (j = i)) as [->|N]; [|by rewrite ba_upd_ne].
    rewrite ba_upd_eq. pose proof (Hf (ba t' i)) as [= -> -> _ _ _ _]. done.
  - intros j Nj. rewrite <- (Hm j Nj). destruct (decide (j = i)) as [->|N]; [by rewrite ba_upd_eq|by rewrite ba_upd_ne].
  - by rewrite ba_upd_ne by congruence.
Qed.

(** A mapping with nothing in it, and a stack inside it whose vectors librunt has found. *)
Record stack_mapping (k : kstate) (b : Z) : Prop := {
  sm_table : table_ok (k_table k) /\ room (k_table k) 2;
  sm_mapping : used (k_table k) b /\ forall c, used (k_table k) c -> parent (ba (k_table k) c) <> b;
  sm_vars : k_vars k = runt_auxv_vars \/ (k_vars k = no_vars /\ auxv_tried k = false);
  sm_found : __auxv_array_start runt_auxv_vars <> 0 /\
    b_begin (ba (k_table k) b) < __auxv_program_argcountp runt_auxv_vars <= b_end (ba (k_table k) b);
  sm_size : b_end (ba (k_table k) b) - b_begin (ba (k_table k) b) <= BIGGEST_SANE_USER_ALLOC;
  sm_first : our_bigalloc k = 0;
}.

(** The bigallocs of the auxiliary vector and of the stack are in place. *)
Record stack_registered_at (k : kstate) (b : Z) (k' : kstate) (a c : Z) : Prop := {
  sr_table : table_ok (k_table k');
  sr_kept : kept (k_table k) (k_table k');
  sr_new : ~ used (k_table k) a /\ ~ used (k_table k) c /\ forall i, used (k_table k') i <-> i = a \/ i = c \/ used (k_table k) i;
  sr_auxv : meta (ba (k_table k') a) = (b_begin (ba (k_table k) b), b_end (ba (k_table k) b), b, auxv_allocator, 0, 0, 0, 0, 0);
  sr_stack : meta (ba (k_table k') c) =
    (b_begin (ba (k_table k) b), __auxv_program_argcountp runt_auxv_vars, a, stack_allocator, stackframe_allocator, 0, 0, 0, 0);
  sr_vars : our_bigalloc k' = a /\ initial_stack_bigalloc k' = c /\ __top_of_initial_stack k' = b_end (ba (k_table k) b) /\
    k_vars k' = runt_auxv_vars;
}.

(** The stack's region: the bigalloc below the auxiliary vector's. *)
Lemma init_region_ok k a e :
  table_ok (k_table k) -> room (k_table k) 1 -> used (k_table k) a -> (forall c, used (k_table k) c -> parent (ba (k_table k) c) <> a) ->
  allocated_by (ba (k_table k) a) = auxv_allocator -> b_begin (ba (k_table k) a) < e <= b_end (ba (k_table k) a) ->
  e - b_begin (ba (k_table k) a) <= BIGGEST_SANE_USER_ALLOC ->
  exists c t, __stack_allocator_notify_init_stack_region (B := release) (b_begin (ba (k_table k) a)) e k =
      Done (tt, set_k_table t (set_initial_stack c k)) /\
    adds (k_table k) t c (b_begin (ba (k_table k) a), e, a, stack_allocator, stackframe_allocator, 0, 0, 0, 0).
Proof.
  intros K R U Hc Ea He Hs. pose proof (tk_wf _ K) as W. pose proof (wf_bounds _ W a U) as Hb. destruct (proj1 max_user_address_spec) as [_ HM].
  destruct (add_at_begin (k_table k) a e stack_allocator K R U Hc He Hs) as (c & t & En & Ad).
  exists c, (upd c (set_suballocator stackframe_allocator) t). unfold __stack_allocator_notify_init_stack_region.
  rewrite wrap_small by lia. rewrite (bind_Done _ _ _ _ _ (on_ktable_Done _ k _ _ En)). set (k1 := set_k_table t k).
  set (k2 := set_initial_stack c k1). rewrite (bind_Done _ _ _ tt k2) by done.
  pose proof (ad_self _ _ _ _ Ad) as [= _ _ Ep _ _ _ _ _ _].
  assert (Nc : c <> 0) by (apply (used_nonzero t); [apply Ad|apply (ad_used _ _ _ _ Ad); by left]).
  assert (Na : a <> 0) by by apply (used_nonzero (k_table k)).
  rewrite (proj2 (Z.eqb_neq c 0)) by done. rewrite (bind_Done _ _ _ _ _ (rd_kbigalloc_ok c k2 Nc)). change (k_table k2) with t.
  rewrite Ep, (proj2 (Z.eqb_neq a 0)) by done. rewrite (bind_Done _ _ _ _ _ (rd_kbigalloc_ok a k2 Na)). change (k_table k2) with t.
  assert (Nac : a <> c) by (intros ->; by apply (ad_new _ _ _ _ Ad)).
  pose proof (ad_meta _ _ _ _ Ad a Nac) as [= _ _ _ Eaa _ _ _ _ _]. rewrite Eaa, Ea, Z.eqb_refl. cbn [negb]. split.
  - by rewrite (on_ktable_Done _ k2 tt (upd c (set_suballocator stackframe_allocator) t)).
  - apply (adds_upd _ _ _ _ _ _ Ad); [done|]. pose proof (ad_self _ _ _ _ Ad) as Es. revert Es. unfold meta. simpl. by intros [= -> -> -> -> _ -> -> -> ->].
Qed.

Lemma register_ok k b : stack_mapping k b ->
  exists a c k', __auxv_allocator_notify_init_stack_mapping_sequence (B := release) b k = Done (tt, k') /\ stack_registered_at k b k' a c.
Proof.
  intros [[K R] [U Hc] Hv [Na Hp] Hs E0]. pose proof (tk_wf _ K) as W. pose proof (wf_bounds _ W b U) as Hb.
  destruct (proj1 max_user_address_spec) as [_ HM]. set (t := k_table k) in *.
  unfold __auxv_allocator_notify_init_stack_mapping_sequence. rewrite (bind_Done _ _ _ k k) by done.
  set (k0 := set_k_vars runt_auxv_vars (auxv_tried k || (__auxv_array_start (k_vars k) =? 0)) k).
  rewrite (bind_Done _ _ _ tt k0); cycle 1.
  { destruct Hv as [Ev|[Ev Et]]; unfold k0; rewrite Ev.
    - rewrite (proj2 (Z.eqb_neq _ 0)), orb_false_r by done. rewrite <- Ev. by destruct k.
    - change (__auxv_array_start no_vars =? 0) with true. cbv iota. unfold __auxv_allocator_init.
      rewrite (bind_Done _ _ _ k k) by done. rewrite Et. by rewrite ?orb_true_r. }
  rewrite (bind_Done _ _ _ runt_auxv_vars k0) by done. rewrite (proj2 (Z.eqb_neq (__auxv_program_argcountp _) 0)) by lia.
  rewrite (bind_Done _ _ _ _ _ (rd_kbigalloc_ok b k0 (used_nonzero t b W U))). change (k_table k0) with t.
  rewrite (bind_Done _ _ _ 0 k0) by (unfold gets; by rewrite <- E0). cbn [Z.eqb negb].
  destruct (add_at_begin t b (b_end (ba t b)) auxv_allocator K) as (a & t1 & En & Ad); [|done|done|lia|lia|].
  { destruct R as (l & ? & ? & ?). exists l. split_and!; [done|lia|done]. }
  rewrite wrap_small by lia. rewrite (bind_Done _ _ _ _ _ (on_ktable_Done _ k0 _ _ En)).
  set (k1 := set_our_bigalloc (b_end (ba t b)) a (set_k_table t1 k0)). rewrite (bind_Done _ _ _ tt k1) by done.
  pose proof (ad_table _ _ _ _ Ad) as K1. assert (Ua : used t1 a) by (apply (ad_used _ _ _ _ Ad); by left).
  assert (Nz : a <> 0) by (apply (used_nonzero t1); [apply K1|done]). rewrite (proj2 (Z.eqb_neq a 0)) by done.
  pose proof (ad_self _ _ _ _ Ad) as [= Eb Ee Ep Ea _ _ _ _ _].
  destruct (init_region_ok k1 a (__auxv_program_argcountp runt_auxv_vars)) as (c & t2 & Er & Ad2); change (k_table k1) with t1; rewrite ?Eb, ?Ee; try done.
  { by apply (room_adds t t1 a _ 1 Ad). }
  { intros i Ui Pi. destruct (decide (i = a)) as [->|Ni]; [apply (parent_not_self t1 a); [apply K1|done|done]|].
    apply (ad_used _ _ _ _ Ad) in Ui as [?|Ui]; [done|]. pose proof (ad_meta _ _ _ _ Ad i Ni) as [= _ _ Epi _ _ _ _ _ _].
    apply (adds_parent t t1 a _ i W Ad Ui). congruence. }
  { lia. }
  change (k_table k1) with t1 in Er, Ad2. rewrite Eb in Er, Ad2. rewrite (bind_Done _ _ _ _ _ Er).
  assert (Nac : a <> c) by (intros ->; by apply (ad_new _ _ _ _ Ad2)).
  exists a, c. eexists. split; [apply on_ktable_Done; reflexivity|].
  assert (Fin : adds t1 (upd a (set_suballocator 0) t2) c
    (b_begin (ba t b), __auxv_program_argcountp runt_auxv_vars, a, stack_allocator, stackframe_allocator, 0, 0, 0, 0)).
  { apply adds_upd_other; [done..| |].
    - intros r. done.
    - pose proof (ad_meta _ _ _ _ Ad2 a Nac) as Em. rewrite (ad_self _ _ _ _ Ad) in Em. revert Em. unfold meta. simpl. by intros [= _ _ _ _ -> _ _ _ _]. }
  split.
  - apply Fin.
  - eapply kept_trans; [by eapply adds_kept|by eapply adds_kept].
  - split_and!; [apply Ad| |].
    + intros Uc. apply (ad_new _ _ _ _ Ad2), (ad_used _ _ _ _ Ad). by right.
    + intros i. etransitivity; [apply (ad_used _ _ _ _ Fin)|]. rewrite (ad_used _ _ _ _ Ad). tauto.
  - etransitivity; [by apply (ad_meta _ _ _ _ Fin)|]. apply Ad.
  - apply Fin.
  - done.
Qed.
End register.

(** ** Queries of the vectors *)

Section vectors.
Context {B : Build} {Q : QueryEnv} {D : DlEnv} {KE : StackEnv}.

(** The kernel's order: count, arguments, environment, auxiliary vector, strings. *)
Record vectors_ok (v : auxv_vars) : Prop := {
  vo_argv : 0 < __auxv_program_argcountp v /\ __auxv_program_argcountp v + 8 <= __argv_vector_start v <= __argv_vector_terminator v;
  vo_env : __argv_vector_terminator v < __env_vector_start v <= __env_vector_terminator v;
  vo_auxv : __env_vector_terminator v < __auxv_array_start v <= __auxv_array_terminator v;
  vo_asciiz : __auxv_array_terminator v < __auxv_asciiz_start v <= __auxv_asciiz_end v /\ __auxv_asciiz_end v < 2 ^ 63;
  vo_whole : (__auxv_array_terminator v - __auxv_array_start v) mod 16 = 0 /\
    (__argv_vector_terminator v - __argv_vector_start v) mod 8 = 0 /\ (__env_vector_terminator v - __env_vector_start v) mod 8 = 0;
}.

Lemma elements_size s t n : 0 < n -> (t - s) mod n = 0 -> elements_to s t n * n = t - s + n.
Proof.
  intros Hn Hm. unfold elements_to. apply Z.mod_divide in Hm as [q Hq]; [|lia].
  replace (t + n - s) with ((q + 1) * n) by lia. rewrite Z.div_mul by lia. lia.
Qed.

(** Each vector and the strings are one object, known up to the first byte of
    the last element. *)
Lemma auxv_described k obj : auxv_array_uniqtype k <> 0 -> vectors_ok (k_vars k) ->
  let v := k_vars k in
  let info t base size := Done ((0, AllocInfo t base size (__program_entry_point v)), k) in
  (__auxv_array_start v <= obj <= __auxv_array_terminator v ->
     auxv_get_info obj k = info (auxv_array_uniqtype k) (__auxv_array_start v) (__auxv_array_terminator v + 16 - __auxv_array_start v)) /\
  (__argv_vector_start v <= obj <= __argv_vector_terminator v ->
     auxv_get_info obj k = info (argv_vector_uniqtype k) (__argv_vector_start v) (__argv_vector_terminator v + 8 - __argv_vector_start v)) /\
  (__env_vector_start v <= obj <= __env_vector_terminator v ->
     auxv_get_info obj k = info (env_vector_uniqtype k) (__env_vector_start v) (__env_vector_terminator v + 8 - __env_vector_start v)) /\
  (__auxv_asciiz_start v <= obj <= __auxv_asciiz_end v ->
     auxv_get_info obj k = info (asciiz_uniqtype k) (__auxv_asciiz_start v) (__auxv_asciiz_end v - __auxv_asciiz_start v)) /\
  (obj < __auxv_program_argcountp v \/ __auxv_asciiz_end v < obj ->
     auxv_get_info obj k = Done ((err_object_of_unknown_storage, no_info), k)).
Proof.
  intros N [Ha He Hx Hz (W1 & W2 & W3)] v info. unfold auxv_get_info. rewrite (bind_Done _ _ _ k k), (proj2 (Z.eqb_neq _ 0)) by done.
  rewrite (bind_Done _ _ _ tt k), (bind_Done _ _ _ k k) by done. cbv zeta. fold v in Ha, He, Hx, Hz, W1, W2, W3 |- *. unfold between.
  unfold sizeof_auxv_t, sizeof_ptr. rewrite (elements_size _ _ 16), !(elements_size _ _ 8) by done.
  assert (In : forall lo hi, lo <= obj <= hi -> (lo <=? obj) && (obj <=? hi) = true).
  { intros lo hi ?. by rewrite !(proj2 (Z.leb_le _ _)) by lia. }
  assert (Out : forall lo hi, obj < lo \/ hi < obj -> (lo <=? obj) && (obj <=? hi) = false).
  { intros lo hi ?. apply andb_false_iff. destruct (Z.leb_spec lo obj), (Z.leb_spec obj hi); [lia|by right|by left..]. }
  split_and!; intros Ho; unfold info; repeat (rewrite Out by lia); rewrite ?In by lia; rewrite ?wrap_small by lia; unfold mret, M_ret; repeat f_equal; lia.
Qed.
End vectors.
