(* ===== verification/StackTheorems.v ===== *)
(** What makes the handling of the initial stack correct: the walk over its
    frames answers for every address and always ends, the bigallocs of the
    auxiliary vector and the stack are put in place, and the stack grows to
    the page of an address below it. *)
From stdpp Require Import strings.
From S2P Require Import Prelude DList Vas BigAlloc PageIndex PageIndexQuery BigAllocFacts Forest Traversal.
From S2P Require Import Attach Traversal Create Delete Resize QueryCorrect Reachable Demo.
From S2P Require Import MappingSeq MappingSeqFacts Mmap MmapFacts MapFacts Brk AllocSites Uniqtype Subobject Query RtTypes.
From S2P Require Import MappingTheorems QueryTheorems SequenceTheorems.
From S2P Require Import StaticData StaticFacts StaticLoad StaticTheorems Stack StackFacts.

Section frames.
Context {V : Vas} {VL : VasLaws V} {H : Hooks} {B : Build} {E : MmapEnv} {EL : MmapLaws E} {U : UniqtypeEnv} {Q : QueryEnv}.
Context {SE : SiteEnv} {St : StaticEnv} {StL : StaticLaws E St} {KE : StackEnv}.

(** C32.  The query of a stack address walks the chain of saved base pointers
    up from the query's own frame.  On a stack whose described frames lie in
    address order it answers for every address: with the frame whose
    allocation the address is in, that allocation's type, base and size and
    the frame's code address; with the error for having passed the address
    when it is in no frame but below one; and with the error for the top of
    the stack when every described frame ends below it. *)
Theorem frame_found word_at describe fuel frame_address return_address caller_bp obj (k : kstate) cs :
  table_ok (k_table k) -> static_tree (k_table k) -> 0 < frame_address -> frame_address + 16 < 2 ^ 64 ->
  word_at frame_address = Some caller_bp -> caller_bp <> 0 ->
  unwinds word_at (start_cursor frame_address return_address caller_bp) cs ->
  (forall c, c ∈ cs -> frame_of (k_static k) (frame_ip c) (describe (frame_ip c))) ->
  laid_out (frames_on describe cs) -> (length cs <= fuel)%nat ->
  let fs := frames_on describe cs in
  let query := stackframe_get_info word_at fuel frame_address return_address (frame_address + 16) obj k in
  (forall f, f ∈ fs -> in_frame obj f -> query = Done ((0, frame_info f), count_stack 1 0 k)) /\
  ((forall f, f ∈ fs -> ~ in_frame obj f) -> (exists f, f ∈ fs /\ sf_type f <> 0 /\ obj < sf_begin f) ->
     query = Done ((err_stack_walk_reached_higher_frame, no_info), count_stack 0 1 (count_stack 1 0 k))) /\
  ((forall f, f ∈ fs -> sf_type f <> 0 -> sf_end f <= obj) ->
     query = Done ((err_stack_walk_reached_top_of_stack, no_info), count_stack 0 1 (count_stack 1 0 k))).
Proof.
  intros T Tr Hf Hm Ew Nb Un Fo L Hl fs query. unfold query.
  assert (Kn : forall c, c ∈ cs -> known describe k c) by (intros c Hc; apply pc_to_frame_ok; [done..|by apply Fo]).
  rewrite (get_info_run word_at describe fuel frame_address return_address caller_bp obj k cs) by done.
  split_and!.
  - intros f Hi If. f_equal. by apply answer_in.
  - intros N (f & Hi & Nf & Hlt). f_equal. by apply (answer_below obj fs f).
  - intros N. f_equal. by apply answer_above.
Qed.

(** C33.  Whatever the words of the stack are, the query ends: each step up the
    chain moves at least two words up, memory is readable at user addresses
    only, so one turn more than there are two-word slots above the query's
    frame is enough. *)
Theorem frame_walk_ends word_at k fuel frame_address return_address rsp obj :
  user_memory word_at k -> pc_ok k return_address -> 0 <= frame_address <= MAXIMUM_USER_ADDRESS ->
  MAXIMUM_USER_ADDRESS < frame_address + 16 * Z.of_nat fuel ->
  stackframe_get_info word_at fuel frame_address return_address rsp obj k <> NoFuel.
Proof. intros Um P Hf Hn. by apply get_info_ends. Qed.
End frames.

Section stack.
Context {V : Vas} {VL : VasLaws V} {H : Hooks} {E : MmapEnv} {EL : MmapLaws E} {St : StaticEnv} {KE : StackEnv}.

(** The first notification of the initial stack's mapping puts two
    bigallocs into it: one for the auxiliary vector over the whole mapping,
    and in it one for the stack, from the mapping's begin to the argument
    count, whose suballocator is that of frames.  All other bigallocs are
    kept, the invariant of the table holds, and the variables name the two. *)
Lemma stack_registered k b :
  stack_mapping k b ->
  exists a c k', __auxv_allocator_notify_init_stack_mapping_sequence (B := release) b k = Done (tt, k') /\
    stack_registered_at k b k' a c.
Proof. intros S. by apply register_ok. Qed.

(** C34.  An address on a free page within the stack's limit below the stack
    is claimed: the stack and every bigalloc around it then begin no later
    than that page, the stack holds the address, and no other record changes.
    An address that is neither near the begin nor near the end of the only
    stack is refused, and nothing changes. *)
Theorem stack_grows (k : kstate) ptr :
  table_ok (k_table k) ->
  (below_stack (k_table k) (initial_stack_bigalloc k) ptr (__stack_lim_cur k) (__stack_lim_max k) ->
   exists t', __stack_allocator_notify_unindexed_address (B := release) ptr k = Done (true, set_k_table t' k) /\
     grown_down (k_table k) t' (initial_stack_bigalloc k) (ROUND_DOWN ptr PAGE_SIZE) /\ contains t' (initial_stack_bigalloc k) ptr) /\
  (forall r, r = ba (k_table k) (initial_stack_bigalloc k) -> used (k_table k) (initial_stack_bigalloc k) -> 0 <= ptr < 2 ^ 63 ->
   allocator_private r = 0 ->
   b_begin r <= ptr \/ guess_sane_max_stack_delta (__stack_lim_cur k) (__stack_lim_max k) <= b_begin r - ptr ->
   b_end r <= ptr \/ guess_sane_max_stack_size (__stack_lim_cur k) (__stack_lim_max k) <= b_end r - ptr ->
   __stack_allocator_notify_unindexed_address (B := release) ptr k = Done (false, k)).
Proof.
  intros T. unfold __stack_allocator_notify_unindexed_address. rewrite (bind_Done _ _ _ k k) by done. split.
  - intros Bs. destruct (claim_ok _ _ _ _ _ T Bs) as (t' & Ec & G). exists t'. split_and!; [by apply on_ktable_Done|done|].
    destruct Bs as [[Ub Ab] [Hp _] _ _ _]. pose proof (wf_bounds _ (tk_wf _ T) _ Ub) as Hb.
    unfold contains. rewrite (gd_around _ _ _ _ G _ (ancestor_refl _ _)). cbn [b_begin b_end set_begin].
    assert (HP : PAGE_SIZE = 4096) by done. rewrite ROUND_DOWN_spec by lia. rewrite HP in *. Z.div_mod_to_equations. lia.
  - intros r -> Ub Hp E0 Hd He. apply on_static_read, on_stable_read. apply refuse_ok; try done. apply T.
Qed.
End stack.

(** ** Instances *)

#[local] Existing Instance trapped_hooks.
#[local] Existing Instance demo_mmap_env.
#[local] Existing Instance demo_mmap_laws.
#[local] Existing Instance demo_types.
#[local] Existing Instance demo_queries.
#[local] Existing Instance demo_site_env.
#[local] Existing Instance demo_static.
#[local] Existing Instance demo_static_laws.

#[local] Instance demo_stack : StackEnv := {|
  stack_allocator := 31;
  stackframe_allocator := 32;
  runt_auxv_vars := AuxvVars 0x61f80 0x61fb0 0x61f08 0x61f18 0x61f20 0x61f38 0x61fc0 0x61ff0 0x61f00 0x400000;
  program_argcount := 2;
  k_rt_vars := RtVars 0 0 0 0 0 0 0 0 0 0 0;
  stack_rlimit := Some (0x800000, RLIM_INFINITY);
  frame_entries a := if a =? 0xa00 then [(0x200, 3, 0x30); (0x400, 3, 0x20)] else [];
  err_stack_walk_step_failure := 11;
  err_stack_walk_reached_higher_frame := 12;
  err_stack_walk_reached_top_of_stack := 13;
|}.

Definition demo_k (s : sstate) : kstate := KState s (TState ∅ ∅) no_vars false 0 0 0 0 0 0 0 0x800000 RLIM_INFINITY true false 0x20000100 true false 0 0.

(** The loaded object of the static data, with descriptors for two functions;
    both are on the stack, below the frame of the query. *)
Definition demo_frames : kstate := demo_k (set_afile 1 (set_frames 0xa00 2 demo_fm) demo_loaded).
Definition demo_stack_words : list (Z * Z) :=
  [(0x20000000, 0x20000040); (0x20000040, 0x20000090); (0x20000048, 0x62210); (0x20000090, 0); (0x20000098, 0x62410)].
Definition demo_words (a : Z) : option Z := (list_to_map demo_stack_words : gmap Z Z) !! a.
Definition demo_cursors : list unw_cursor_t :=
  [Cursor 0x20000010 0x20000040 0x60100; Cursor 0x20000050 0x20000090 0x62210; Cursor 0x200000a0 0 0x62410].
Definition demo_describe (ip : Z) : frame_uniqtype_and_offset :=
  if ip =? 0x62210 then FrameDesc 3 0x30 else if ip =? 0x62410 then FrameDesc 3 0x20 else no_frame.

Lemma demo_unwinds : unwinds demo_words (start_cursor 0x20000000 0x60100 0x20000040) demo_cursors.
Proof.
  apply (unwinds_up demo_words _ 0x62210 0x20000090); [done|by_eval..|].
  apply (unwinds_up demo_words _ 0x62410 0); [done|by_eval..|]. by apply unwinds_top.
Qed.

Lemma demo_k_table s p fm : k_table (demo_k (set_afile p fm s)) = m_table (s_mmap s).
Proof. done. Qed.

Lemma demo_frames_ok : table_ok (k_table demo_frames) /\ static_tree (k_table demo_frames).
Proof. unfold demo_frames. rewrite demo_k_table. split; [apply mk_table|]; apply demo_unloadable. Qed.

Lemma demo_frame_of c : c ∈ demo_cursors -> frame_of (k_static demo_frames) (frame_ip c) (demo_describe (frame_ip c)).
Proof.
  intros Hc. unfold demo_cursors in Hc. rewrite !elem_of_cons, elem_of_nil in Hc. destruct Hc as [->|[->|[->|[]]]]; cbn [frame_ip].
  - right. split_and!; [exists 5; by_eval| |done]. intros f Uf Ef Cf.
    pose proof (live_all (k_table demo_frames) (fun f => negb (allocated_by (ba (k_table demo_frames) f) =? 21) ||
      negb ((b_begin (ba (k_table demo_frames) f) <=? 0x60100) && (0x60100 <? b_end (ba (k_table demo_frames) f)))) ltac:(by vm_compute) f Uf) as A.
    cbv beta in A. unfold k_table in A. rewrite Ef in A. unfold contains in Cf. apply orb_true_iff in A as [A|A]; [discriminate A|].
    rewrite (proj2 (Z.leb_le _ _)), (proj2 (Z.ltb_lt _ _)) in A by lia. discriminate A.
  - left. exists 7, (set_frames 0xa00 2 demo_fm). split_and!; by_eval.
  - left. exists 7, (set_frames 0xa00 2 demo_fm). split_and!; by_eval.
Qed.

Lemma demo_laid_out : laid_out (frames_on demo_describe demo_cursors).
Proof.
  replace (frames_on demo_describe demo_cursors) with
    [StackFrame 0x60100 0x20000050 0 0 (Some 0x20000090); StackFrame 0x62210 0x20000070 24 3 None;
     StackFrame 0x62410 0x7fffffffffdf 24 3 (Some 0x7fffffffffff)] by by_eval.
  split.
  - intros f Hf. rewrite !elem_of_cons, elem_of_nil in Hf. destruct Hf as [->|[->|[->|[]]]]; by_eval.
  - intros i j f g Hij Hi Hj. destruct i as [|[|[|i]]], j as [|[|[|j]]]; simpl in *; simplify_eq; try lia; by_eval.
  - intros f b Hf. rewrite !elem_of_cons, elem_of_nil in Hf. destruct Hf as [->|[->|[->|[]]]]; intros ?; simpl; intros [= <-]; by_eval.
Qed.

Lemma frame_found_witness :
  stackframe_get_info (B := debug) demo_words 3 0x20000000 0x60100 0x20000010 0x20000078 demo_frames =
    Done ((0, AllocInfo 3 0x20000070 24 0x62210), count_stack 1 0 demo_frames) /\
  stackframe_get_info (B := debug) demo_words 3 0x20000000 0x60100 0x20000010 0x20000090 demo_frames =
    Done ((12, no_info), count_stack 0 1 (count_stack 1 0 demo_frames)).
Proof.
  pose proof demo_frames_ok as [T Tr].
  split.
  - refine (proj1 (frame_found (B := debug) demo_words demo_describe 3 0x20000000 0x60100 0x20000040 0x20000078 demo_frames demo_cursors
      T Tr _ _ _ _ demo_unwinds demo_frame_of demo_laid_out _) (StackFrame 0x62210 0x20000070 24 3 None) _ _); [done..| |].
    + apply list_elem_of_further, list_elem_of_here.
    + by_eval.
  - refine (proj1 (proj2 (frame_found (B := debug) demo_words demo_describe 3 0x20000000 0x60100 0x20000040 0x20000090 demo_frames demo_cursors
      T Tr _ _ _ _ demo_unwinds demo_frame_of demo_laid_out _)) _ _); [done..| |].
    + intros f Hf. cbn [frames_on demo_cursors] in Hf. rewrite !elem_of_cons, elem_of_nil in Hf. unfold in_frame, sf_end.
      destruct Hf as [->|[->|[->|[]]]]; intros [Nf Hf]; vm_compute in Nf, Hf; intuition congruence.
    + exists (StackFrame 0x62410 0x7fffffffffdf 24 3 (Some 0x7fffffffffff)). split; [by apply list_elem_of_further, list_elem_of_further, list_elem_of_here|by_eval].
Defined.

Lemma demo_user_memory : user_memory (B := debug) demo_words demo_frames.
Proof.
  intros a v Ha. unfold demo_words in Ha. apply elem_of_list_to_map_2 in Ha. unfold demo_stack_words in Ha. rewrite !elem_of_cons, elem_of_nil in Ha.
  destruct Ha as [[= -> ->]|[[= -> ->]|[[= -> ->]|[[= -> ->]|[[= -> ->]|[]]]]]];
    (split; [by_eval|split; [by_eval|right]]).
  - exists no_frame. by vm_compute.
  - exists no_frame. by vm_compute.
  - exists (FrameDesc 3 0x30). by vm_compute.
  - exists no_frame. by vm_compute.
  - exists (FrameDesc 3 0x20). by vm_compute.
Qed.

Lemma frame_walk_ends_witness :
  stackframe_get_info (B := debug) demo_words (Z.to_nat (2 ^ 43)) 0x20000000 0x60100 0x20000010 0x20000078 demo_frames <> NoFuel.
Proof.
  apply (frame_walk_ends (B := debug) demo_words demo_frames (Z.to_nat (2 ^ 43)) 0x20000000 0x60100 0x20000010 0x20000078).
  - apply demo_user_memory.
  - right. exists no_frame. by vm_compute.
  - by_eval.
  - rewrite Z2Nat.id by done. by_eval.
Defined.

(** A mapping of two pages for the stack; its top holds the vectors. *)
Definition demo_initial : kstate := demo_k (SState (BState space1 0 0 0 true false) no_sites ∅ ∅ 0 0 0 0 0).

Lemma demo_initial_ok : table_ok (k_table demo_initial).
Proof. exact (mk_table _ (proj1 (notified_represents space0 space1 _ call1 eq_refl space0_ok space0_covered (proj1 spaces)))). Qed.

Lemma demo_stack_mapping : stack_mapping demo_initial 5.
Proof.
  split.
  - split; [apply demo_initial_ok|]. exists [6; 7]. split_and!; [by apply (bool_decide_unpack (NoDup [6; 7]))|done|].
    intros i Hi. rewrite !elem_of_cons, elem_of_nil in Hi. destruct Hi as [->|[->|[]]]; (split; [done|by_eval; by intros [? ?]]).
  - split; [by_eval|]. intros c Uc Pc.
    pose proof (live_all (k_table demo_initial) (fun c => negb (parent (ba (k_table demo_initial) c) =? 5)) ltac:(by vm_compute) c Uc) as A.
    cbv beta in A. rewrite Pc in A. discriminate A.
  - right. done.
  - by_eval.
  - by_eval.
  - done.
Qed.

Lemma stack_registered_demo :
  exists a c k', __auxv_allocator_notify_init_stack_mapping_sequence (B := release) 5 demo_initial = Done (tt, k') /\
    stack_registered_at demo_initial 5 k' a c.
Proof. apply (stack_registered demo_initial 5). apply demo_stack_mapping. Defined.

Definition demo_registered : kstate :=
  match __auxv_allocator_notify_init_stack_mapping_sequence (B := release) 5 demo_initial with Done (_, k) => k | _ => demo_initial end.

Lemma demo_registered_ok : table_ok (k_table demo_registered).
Proof.
  assert (Er : __auxv_allocator_notify_init_stack_mapping_sequence (B := release) 5 demo_initial = Done (tt, demo_registered)) by by vm_compute.
  destruct (register_ok demo_initial 5 demo_stack_mapping) as (a & c & k' & Ek & R).
  pose proof (Done_state _ _ _ _ (eq_trans (eq_sym Er) Ek)) as ->. apply R.
Qed.

Lemma demo_below : below_stack (k_table demo_registered) 7 0x5f800 0x800000 RLIM_INFINITY.
Proof.
  assert (F : forall i, used (k_table demo_registered) i -> b_end (ba (k_table demo_registered) i) - 0x5f000 <= BIGGEST_SANE_USER_ALLOC /\
    (b_end (ba (k_table demo_registered) i) <= 0x5f000 \/ 0x60000 <= b_begin (ba (k_table demo_registered) i))).
  { intros i Ui. pose proof (live_all (k_table demo_registered) (fun i =>
      (b_end (ba (k_table demo_registered) i) - 0x5f000 <=? BIGGEST_SANE_USER_ALLOC) &&
      ((b_end (ba (k_table demo_registered) i) <=? 0x5f000) || (0x60000 <=? b_begin (ba (k_table demo_registered) i)))) ltac:(by vm_compute) i Ui) as A.
    cbv beta in A. apply andb_true_iff in A as [?%Z.leb_le A]. split; [done|]. apply orb_true_iff in A as [?%Z.leb_le|?%Z.leb_le]; [by left|by right]. }
  assert (Er : ROUND_DOWN 0x5f800 PAGE_SIZE = 0x5f000) by by_eval.
  assert (Eb : b_begin (ba (k_table demo_registered) 7) = 0x60000) by by_eval.
  assert (U7 : used (k_table demo_registered) 7) by by_eval.
  split; rewrite ?Er, ?Eb.
  - split; [exact U7|by_eval].
  - by_eval.
  - intros i a Ui Ha. destruct (F i Ui) as [_ Hi]. unfold contains. lia.
  - intros a A. apply F. apply (ancestor_used _ _ 7); [apply demo_registered_ok|exact U7|exact A].
  - intros a _ N. exfalso. by apply N.
Qed.

Lemma stack_grows_witness :
  (exists t', __stack_allocator_notify_unindexed_address (B := release) 0x5f800 demo_registered = Done (true, set_k_table t' demo_registered) /\
     grown_down (k_table demo_registered) t' (initial_stack_bigalloc demo_registered) (ROUND_DOWN 0x5f800 PAGE_SIZE) /\
     contains t' (initial_stack_bigalloc demo_registered) 0x5f800) /\
  __stack_allocator_notify_unindexed_address (B := release) 0x70000 demo_registered = Done (false, demo_registered).
Proof.
  split.
  - refine (proj1 (stack_grows demo_registered 0x5f800 demo_registered_ok) _).
    replace (initial_stack_bigalloc demo_registered) with 7 by by_eval. replace (__stack_lim_cur demo_registered) with 0x800000 by by_eval.
    replace (__stack_lim_max demo_registered) with RLIM_INFINITY by by_eval. exact demo_below.
  - refine (proj2 (stack_grows demo_registered 0x70000 demo_registered_ok) _ eq_refl _ _ _ _ _); [by_eval|by_eval|by_eval|left; by_eval|left; by_eval].
Defined.
