(* ===== verification/Linear.v ===== *)
(** The linear malloc index: src/include/linear_malloc_index.h and the
    functions of src/allocsld/allocinstr.c that keep it.

    The chunks of the dynamic linker's own malloc are records in an array that
    fills one page, kept sorted by address; the trailer of a chunk holds its
    allocation site.  The page lies right before the linker, so that a write
    past the array faults.  [qsort] is libc's; what the standard says of it is
    [QsortLaws].  [bsearch_leq] is librunt's. *)
From S2P Require Import Prelude Subobject MallocMeta AllocSites.

Class Qsort := { qsort : forall {A}, (A -> A -> Z) -> list A -> list A }.

(** A comparison that orders the elements of [l] consistently. *)
Record orders {A} (cmp : A -> A -> Z) (l : list A) : Prop := {
  or_total x y : x ∈ l -> y ∈ l -> cmp x y <= 0 \/ cmp y x <= 0;
  or_trans x y z : x ∈ l -> y ∈ l -> z ∈ l -> cmp x y <= 0 -> cmp y z <= 0 -> cmp x z <= 0;
}.

Class QsortLaws (Q : Qsort) : Prop := {
  qsort_permutes {A} (cmp : A -> A -> Z) (l : list A) : qsort cmp l ≡ₚ l;
  qsort_sorts {A} (cmp : A -> A -> Z) (l : list A) : orders cmp l ->
    forall i j x y, (i < j)%nat -> qsort cmp l !! i = Some x -> qsort cmp l !! j = Some y -> cmp x y <= 0;
}.

Record linear_malloc_rec := LinearRec {
  rec_addr : Z;
  caller_requested_size : Z;
  padding_to_caller_usable_size : Z;
}.
Definition set_rec_addr (a : Z) (r : linear_malloc_rec) : linear_malloc_rec :=
  LinearRec a (caller_requested_size r) (padding_to_caller_usable_size r).

Definition sizeof_index_instance : Z := 48.
Definition sizeof_linear_malloc_rec : Z := 16.
Definition space_left_in_one_page : Z := Z.land (4096 - sizeof_index_instance) (Z.lnot 7).
Definition MAX_LINEAR_MALLOCS : Z := space_left_in_one_page / sizeof_linear_malloc_rec.

Record linear_malloc_index_instance := LinearIndex {
  recs : list linear_malloc_rec;
  nrecs_used : Z;
}.

(** The index, and the words of the chunks' trailers. *)
Record lstate := LState {
  linear_malloc : linear_malloc_index_instance;
  l_mem : gmap Z Z;
}.

Definition set_index (x : linear_malloc_index_instance) (s : lstate) : lstate := LState x (l_mem s).
Definition set_recs (l : list linear_malloc_rec) (s : lstate) : lstate :=
  set_index (LinearIndex l (nrecs_used (linear_malloc s))) s.
Definition set_nrecs_used (n : Z) (s : lstate) : lstate :=
  set_index (LinearIndex (recs (linear_malloc s)) n) s.
Definition l_load (s : lstate) (a : Z) : Z := default 0 (l_mem s !! a).

(** Null addresses are greatest.  The difference is converted to [int]. *)
Definition compare_linear_mallocs (r1 r2 : linear_malloc_rec) : Z :=
  let addr1 := rec_addr r1 in let addr2 := rec_addr r2 in
  if (addr1 =? 0) && (addr2 =? 0) then 0
  else if addr1 =? 0 then 1
  else if addr2 =? 0 then -1
  else int32 (wrap64 (addr1 - addr2)).

Section ops.
Context {B : Build} {E : SiteEnv} {Q : Qsort}.

(** The index of the record. *)
Definition find_linear_malloc_rec (addr : Z) (recs : list linear_malloc_rec) (nrecs_used : Z) : option nat :=
  match bsearch_leq (map rec_addr (take (Z.to_nat nrecs_used) recs)) addr with
  | None => None
  | Some i =>
    match recs !! i with
    | None => None
    | Some found => if addr <? wrap64 (rec_addr found + caller_requested_size found) then Some i else None
    end
  end.

Definition linear_malloc_usable_size (arg : Z) (recs : list linear_malloc_rec) (nrecs_used : Z) : Z :=
  match find_linear_malloc_rec arg recs nrecs_used ≫= (fun i => recs !! i) with
  | Some found =>
    if rec_addr found =? arg then wrap32 (caller_requested_size found + padding_to_caller_usable_size found) else 2 ^ 64 - 1
  | None => 2 ^ 64 - 1
  end.

Definition ld_so_malloc_usable_size (arg : Z) : M lstate Z :=
  gets (fun s => linear_malloc_usable_size arg (recs (linear_malloc s)) (nrecs_used (linear_malloc s))).

(** [recs[i] = r]; past the end of the page it faults. *)
Definition wr_rec (i : Z) (r : linear_malloc_rec) : M lstate unit := fun s =>
  if (0 <=? i) && (i <? Z.of_nat (length (recs (linear_malloc s))))
  then Done (tt, set_recs (<[Z.to_nat i := r]> (recs (linear_malloc s))) s) else Abort.
Definition rd_rec (i : Z) : M lstate linear_malloc_rec := fun s =>
  match (if i <? 0 then None else recs (linear_malloc s) !! Z.to_nat i) with Some r => Done (r, s) | None => Abort end.

(** Sorting the records in use. *)
Definition sort_recs : M lstate unit :=
  modify (fun s => let n := Z.to_nat (nrecs_used (linear_malloc s)) in
    set_recs (qsort compare_linear_mallocs (take n (recs (linear_malloc s))) ++ drop n (recs (linear_malloc s))) s).

Definition linear_malloc_index_insert (allocptr requested_size caller : Z) : M lstate unit :=
  let real_requested_size := wrap64 (CHUNK_SIZE_WITH_TRAILER requested_size sizeof_insert 8) in
  let real_caller_usable_size := wrap64 (real_requested_size - sizeof_insert) in
  let insert := insert_for_chunk_and_caller_usable_size allocptr real_caller_usable_size in
  modify (fun s => LState (linear_malloc s) (<[insert := set_initial_alloc_site caller (l_load s insert)]> (l_mem s))) ;;
  n ← gets (fun s => nrecs_used (linear_malloc s));
  wr_rec n (LinearRec allocptr (wrap32 requested_size) (wrap 8 (real_caller_usable_size - requested_size))) ;;
  modify (set_nrecs_used (wrap32 (n + 1))) ;;
  n ← gets (fun s => nrecs_used (linear_malloc s));
  if 1 <? n then
    last ← rd_rec (n - 1);
    prev ← rd_rec (n - 2);
    when (rec_addr last <? rec_addr prev) sort_recs
  else mret tt.

Definition linear_malloc_index_delete (userptr : Z) : M lstate unit :=
  x ← gets linear_malloc;
  match find_linear_malloc_rec userptr (recs x) (nrecs_used x) with
  | None => abort
  | Some i =>
    found ← rd_rec (Z.of_nat i);
    wr_rec (Z.of_nat i) (set_rec_addr 0 found) ;;
    sort_recs ;;
    assertM (last ← rd_rec (nrecs_used x - 1); mret (rec_addr last =? 0)) ;;
    modify (set_nrecs_used (wrap32 (nrecs_used x - 1)))
  end.

Definition linear_malloc_index_reinsert_after_resize (userptr modified_size old_usable_size requested_size caller new_allocptr : Z)
    : M lstate unit :=
  linear_malloc_index_insert new_allocptr requested_size caller.
End ops.
