(* ===== verification/LinearFacts.v ===== *)
(** Facts about the linear malloc index: sorting by address, and the records
    as a map from addresses to live chunks. *)
From S2P Require Import Prelude Subobject MallocMeta AllocSites Linear.

(** ** The order of the comparison *)

Definition rank (r : linear_malloc_rec) : Z := if rec_addr r =? 0 then 2 ^ 64 else rec_addr r.

(** Addresses so close that their differences are values of [int]. *)
Definition near (l : list linear_malloc_rec) : Prop :=
  forall x y, x ∈ l -> y ∈ l -> 0 <= rec_addr x < 2 ^ 64 /\
    (rec_addr x <> 0 -> rec_addr y <> 0 -> - 2 ^ 31 <= rec_addr x - rec_addr y < 2 ^ 31).

Lemma int32_small x : - 2 ^ 31 <= x < 2 ^ 31 -> int32 (wrap64 x) = x.
Proof.
  intros Hx. unfold int32, wrap64. unfold wrap. rewrite Z.mod_mod_divide by (by exists (2 ^ 32)).
  destruct (decide (0 <= x)).
  - rewrite Z.mod_small by lia. destruct (Z.ltb_spec x (2 ^ 31)); lia.
  - replace (x mod 2 ^ 32) with (x + 2 ^ 32); [destruct (Z.ltb_spec (x + 2 ^ 32) (2 ^ 31)); lia|].
    apply (Z.mod_unique _ _ (-1)); lia.
Qed.

Lemma compare_rank l x y : near l -> x ∈ l -> y ∈ l -> compare_linear_mallocs x y <= 0 <-> rank x <= rank y.
Proof.
  intros N Hx Hy. destruct (N x y Hx Hy) as [Bx D], (N y x Hy Hx) as [By _]. unfold compare_linear_mallocs, rank.
  destruct (Z.eqb_spec (rec_addr x) 0), (Z.eqb_spec (rec_addr y) 0); cbn [andb]; [lia..|].
  rewrite int32_small by (apply D; done). lia.
Qed.

Lemma compare_orders l : near l -> orders compare_linear_mallocs l.
Proof.
  intros N. split.
  - intros x y Hx Hy. rewrite !(compare_rank l) by done. lia.
  - intros x y z Hx Hy Hz. rewrite !(compare_rank l) by done. lia.
Qed.

(** Live chunks: the address of each, the size asked for and the site. *)
Abbreviation chunks := (gmap Z (Z * Z)).

Section facts.
Context {E : SiteEnv} {EL : SiteLaws E} {Q : Qsort} {QL : QsortLaws Q}.

(** Ranks in order, each address once: the addresses increase. *)
Lemma ranks_increase l : NoDup (map rec_addr l) -> (forall r, r ∈ l -> rec_addr r <> 0) ->
  (forall i j x y, (i < j)%nat -> l !! i = Some x -> l !! j = Some y -> rank x <= rank y) -> increasing (map rec_addr l).
Proof.
  intros ND Nz S i j a b Hij. rewrite !list_lookup_fmap, !fmap_Some. intros (x & Ex & ->) (y & Ey & ->).
  pose proof (S i j x y Hij Ex Ey) as C. unfold rank in C.
  rewrite !(proj2 (Z.eqb_neq _ 0)) in C by (apply Nz; by eapply list_elem_of_lookup_2).
  assert (Hne : rec_addr x <> rec_addr y); [|lia]. intros Exy.
  assert (i = j); [|lia]. eapply (NoDup_lookup _ i j (rec_addr x)); [done|..]; rewrite list_lookup_fmap;
    [by rewrite Ex|rewrite Ey; simpl; by f_equal].
Qed.

Lemma qsort_ranks l i j x y : near l -> (i < j)%nat ->
  qsort compare_linear_mallocs l !! i = Some x -> qsort compare_linear_mallocs l !! j = Some y -> rank x <= rank y.
Proof.
  intros N Hij Ex Ey. pose proof (qsort_permutes compare_linear_mallocs l) as P. apply (compare_rank l x y N).
  - rewrite <- P. by apply list_elem_of_lookup_2 with i.
  - rewrite <- P. by apply list_elem_of_lookup_2 with j.
  - by apply (qsort_sorts _ l (compare_orders l N) i j).
Qed.

Lemma sorted_addresses l : near l -> NoDup (map rec_addr l) -> (forall r, r ∈ l -> rec_addr r <> 0) ->
  increasing (map rec_addr (qsort compare_linear_mallocs l)).
Proof.
  intros N ND Nz. pose proof (qsort_permutes compare_linear_mallocs l) as P. apply ranks_increase.
  - by rewrite P.
  - intros r. rewrite P. apply Nz.
  - intros i j x y. by apply qsort_ranks.
Qed.

(** A null address is sorted to the end. *)
Lemma null_sorts_last l1 l2 r :
  let l := l1 ++ set_rec_addr 0 r :: l2 in
  near l -> NoDup (map rec_addr (l1 ++ l2)) -> (forall x, x ∈ l1 ++ l2 -> rec_addr x <> 0) ->
  exists l', qsort compare_linear_mallocs l = l' ++ [set_rec_addr 0 r] /\ l' ≡ₚ l1 ++ l2 /\ increasing (map rec_addr l').
Proof.
  intros l N ND Nz. set (z := set_rec_addr 0 r) in *.
  assert (Pz : qsort compare_linear_mallocs l ≡ₚ z :: (l1 ++ l2)).
  { rewrite (qsort_permutes compare_linear_mallocs l). unfold l. by rewrite Permutation_middle. }
  destruct (list_elem_of_lookup_1 (qsort compare_linear_mallocs l) z) as [k Ek]; [rewrite Pz; left|].
  apply list_elem_of_split_length in Ek as (a & b & Ek & Hk).
  assert (b = []) as ->.
  { destruct b as [|y b]; [done|exfalso]. assert (C : rank z <= rank y).
    { apply (qsort_ranks l k (S k)); [done|lia|rewrite Ek..]; [by rewrite list_lookup_middle|].
      rewrite lookup_app_r by lia. by replace (S k - length a)%nat with 1%nat by lia. }
    assert (Hy : y ∈ l1 ++ l2).
    { rewrite Ek in Pz. rewrite <- Permutation_middle in Pz. apply Permutation_cons_inv in Pz. rewrite <- Pz. set_solver. }
    unfold rank in C. rewrite (proj2 (Z.eqb_neq (rec_addr y) 0)) in C by auto. cbn in C.
    assert (Hl : y ∈ l) by (unfold l; set_solver). destruct (N y y Hl Hl). lia. }
  exists a. split; [done|]. rewrite Ek, Permutation_app_comm in Pz. apply Permutation_cons_inv in Pz. split; [done|].
  apply ranks_increase; [by rewrite Pz|intros x; rewrite Pz; apply Nz|].
  intros i j x y Hij Ex Ey. apply (qsort_ranks l i j); [done|done|rewrite Ek..]; rewrite lookup_app_l by (by eapply lookup_lt_Some); done.
Qed.

(** ** Live chunks *)

(** What the caller may use of a chunk of [n] bytes; the insert follows. *)
Definition usable (n : Z) : Z := CHUNK_SIZE_WITH_TRAILER n sizeof_insert 8 - sizeof_insert.

Lemma usable_spec n : n <= usable n < n + 8.
Proof. unfold usable, CHUNK_SIZE_WITH_TRAILER, sizeof_insert. destruct (PAD_TO_ALIGN_spec (n + 8) 8); lia. Qed.

(** A chunk of more than [2^32 - 8] bytes is padded to [2^32]. *)
Lemma usable_large n : 2 ^ 32 - 8 < n < 2 ^ 32 -> usable n = 2 ^ 32.
Proof.
  unfold usable, CHUNK_SIZE_WITH_TRAILER, sizeof_insert. destruct (PAD_TO_ALIGN_spec (n + 8) 8) as [Hn A]; [lia|].
  pose proof (Z.div_mod (PAD_TO_ALIGN (n + 8) 8) 8). lia.
Qed.

Lemma usable_small n : n <= 2 ^ 32 - 8 -> usable n <= 2 ^ 32 - 8.
Proof.
  unfold usable, CHUNK_SIZE_WITH_TRAILER, sizeof_insert. destruct (PAD_TO_ALIGN_spec (n + 8) 8) as [Hn A]; [lia|].
  pose proof (Z.div_mod (PAD_TO_ALIGN (n + 8) 8) 8). lia.
Qed.

Lemma usable_aligned n : usable n mod 8 = 0.
Proof.
  unfold usable, CHUNK_SIZE_WITH_TRAILER, sizeof_insert. destruct (PAD_TO_ALIGN_spec (n + 8) 8) as [_ A]; [lia|].
  by rewrite Zminus_mod, A.
Qed.

Definition used_recs (s : lstate) : list linear_malloc_rec :=
  take (Z.to_nat (nrecs_used (linear_malloc s))) (recs (linear_malloc s)).

Definition chunk_rec (c : Z * (Z * Z)) : linear_malloc_rec := LinearRec c.1 c.2.1 (usable c.2.1 - c.2.1).
Definition site_of (s : lstate) (p n : Z) : Z := l_load s (p + usable n).

(** Chunks and their trailers do not overlap, and lie in a window of 2 GB. *)
Record laid_out_chunks (m : chunks) : Prop := {
  lc_size p n c : m !! p = Some (n, c) -> 0 < p /\ 0 < n < 2 ^ 32 /\ p + usable n + sizeof_insert < 2 ^ 64;
  lc_apart p n c q x : m !! p = Some (n, c) -> m !! q = Some x -> p < q -> p + usable n + sizeof_insert <= q;
  lc_near p q x y : m !! p = Some x -> m !! q = Some y -> q - p < 2 ^ 31;
}.

Record indexes (s : lstate) (m : chunks) : Prop := {
  ix_length : Z.of_nat (length (recs (linear_malloc s))) = MAX_LINEAR_MALLOCS;
  ix_used : 0 <= nrecs_used (linear_malloc s) <= MAX_LINEAR_MALLOCS;
  ix_sorted : increasing (map rec_addr (used_recs s));
  ix_chunks : used_recs s ≡ₚ map chunk_rec (map_to_list m);
  ix_layout : laid_out_chunks m;
  ix_sites p n c : m !! p = Some (n, c) ->
    initial_alloc_site (site_of s p n) = c /\ INSERT_IS_WITH_TYPE (site_of s p n) = false;
}.

Lemma max_linear : MAX_LINEAR_MALLOCS = 253.
Proof. done. Qed.

Lemma ix_elem s m r : indexes s m -> r ∈ used_recs s <-> exists p n c, m !! p = Some (n, c) /\ r = LinearRec p n (usable n - n).
Proof.
  intros I. rewrite (ix_chunks _ _ I), list_elem_of_fmap. split.
  - intros ([p [n c]] & -> & Hp%elem_of_map_to_list). eauto.
  - intros (p & n & c & Hp & ->). exists (p, (n, c)). split; [done|]. by apply elem_of_map_to_list.
Qed.

Lemma ix_count s m : indexes s m -> Z.of_nat (size m) = nrecs_used (linear_malloc s).
Proof.
  intros I. pose proof (Permutation_length (ix_chunks _ _ I)) as L. destruct (ix_used _ _ I). pose proof (ix_length _ _ I).
  unfold used_recs in L. rewrite length_take, length_map, length_map_to_list in L. lia.
Qed.

Lemma chunk_recs_facts m : laid_out_chunks m ->
  near (map chunk_rec (map_to_list m)) /\ NoDup (map rec_addr (map chunk_rec (map_to_list m))) /\
  forall r, r ∈ map chunk_rec (map_to_list m) -> rec_addr r <> 0.
Proof.
  intros L. split_and!.
  - intros x y ([p [n c]] & -> & Hp%elem_of_map_to_list)%list_elem_of_fmap ([q [n' c']] & -> & Hq%elem_of_map_to_list)%list_elem_of_fmap.
    destruct (lc_size _ L _ _ _ Hp) as (? & ? & ?). pose proof (usable_spec n). unfold sizeof_insert in *.
    pose proof (lc_near _ L _ _ _ _ Hp Hq). pose proof (lc_near _ L _ _ _ _ Hq Hp). simpl. lia.
  - rewrite map_map. change (NoDup ((map_to_list m).*1)). apply NoDup_fst_map_to_list.
  - intros r ([p [n c]] & -> & Hp%elem_of_map_to_list)%list_elem_of_fmap. destruct (lc_size _ L _ _ _ Hp) as (? & _). simpl. lia.
Qed.

(** ** Lookups *)

Lemma used_lookup s i r : used_recs s !! i = Some r -> recs (linear_malloc s) !! i = Some r.
Proof. unfold used_recs. rewrite lookup_take_Some. by intros [? _]. Qed.

Lemma find_chunk s m p n c a : indexes s m -> m !! p = Some (n, c) -> p <= a < p + n ->
  exists i, find_linear_malloc_rec a (recs (linear_malloc s)) (nrecs_used (linear_malloc s)) = Some i /\
    used_recs s !! i = Some (LinearRec p n (usable n - n)).
Proof.
  intros I Hp Ha. destruct (lc_size _ (ix_layout _ _ I) _ _ _ Hp) as (Hp0 & Hn & Hb). pose proof (usable_spec n). unfold sizeof_insert in *.
  destruct (list_elem_of_lookup_1 (used_recs s) (LinearRec p n (usable n - n))) as [i Ei].
  { apply (ix_elem s m _ I). eauto. }
  exists i. split; [|done]. unfold find_linear_malloc_rec. fold (used_recs s).
  rewrite (proj2 (bsearch_leq_found _ a i (ix_sorted _ _ I))).
  - rewrite (used_lookup _ _ _ Ei). cbn [rec_addr caller_requested_size]. rewrite wrap_small by lia.
    by rewrite (proj2 (Z.ltb_lt _ _)) by lia.
  - split; [exists p; rewrite list_lookup_fmap, Ei; split; [done|lia]|]. intros k Ek.
    assert (Hk : p < k) by (apply (ix_sorted _ _ I i (S i)); [lia|by rewrite list_lookup_fmap, Ei|done]).
    rewrite list_lookup_fmap in Ek. apply fmap_Some in Ek as (r & Er & ->).
    apply list_elem_of_lookup_2, (ix_elem s m _ I) in Er as (q & n' & c' & Hq & ->). simpl in *.
    pose proof (lc_apart _ (ix_layout _ _ I) _ _ _ _ _ Hp Hq Hk). unfold sizeof_insert in *. lia.
Qed.

Lemma find_nothing s m a : indexes s m -> (forall p n c, m !! p = Some (n, c) -> ~ p <= a < p + n) ->
  find_linear_malloc_rec a (recs (linear_malloc s)) (nrecs_used (linear_malloc s)) = None.
Proof.
  intros I Hn. unfold find_linear_malloc_rec. fold (used_recs s). destruct (bsearch_leq _ a) as [i|] eqn:Eb; [|done].
  apply (bsearch_leq_found _ a i (ix_sorted _ _ I)) in Eb as [(k & Ek & Hk) _].
  rewrite list_lookup_fmap in Ek. apply fmap_Some in Ek as (r & Er & ->). rewrite (used_lookup _ _ _ Er).
  apply list_elem_of_lookup_2, (ix_elem s m _ I) in Er as (p & n & c & Hp & ->). simpl in *.
  destruct (lc_size _ (ix_layout _ _ I) _ _ _ Hp) as (? & ? & ?). pose proof (usable_spec n). unfold sizeof_insert in *.
  rewrite wrap_small by lia. destruct (Z.ltb_spec a (p + n)); [|done]. exfalso. apply (Hn p n c Hp). lia.
Qed.

(** ** Inserting *)

Lemma increasing_snoc l k : increasing l -> (forall x, last l = Some x -> x < k) -> increasing (l ++ [k]).
Proof.
  intros I Hl i j a b Hij Ha Hb. apply lookup_app_Some in Hb as [Hb|[Hj Hb]].
  - rewrite lookup_app_l in Ha by (apply lookup_lt_Some in Hb; lia). by apply (I i j).
  - apply list_lookup_singleton_Some in Hb as [Hj' <-]. rewrite lookup_app_l in Ha by lia.
    destruct (last l) as [x|] eqn:El; [|apply last_None in El as ->; done].
    pose proof El as El'. rewrite last_lookup in El'. specialize (Hl x eq_refl).
    destruct (decide (i = pred (length l))) as [->|]; [congruence|].
    pose proof (I i (pred (length l)) a x). apply lookup_lt_Some in Ha as ?. specialize (H ltac:(lia) Ha El'). lia.
Qed.

Record placeable (s : lstate) (m : chunks) (p n c : Z) : Prop := {
  pl_new : m !! p = None;
  pl_room : Z.of_nat (size m) < MAX_LINEAR_MALLOCS;
  pl_layout : laid_out_chunks (<[p := (n, c)]> m);
  pl_site : 0 <= c < 2 ^ 47;
  pl_blank : initial_unused (site_of s p n) = 0;
}.

Lemma sort_recs_used s : 0 <= nrecs_used (linear_malloc s) <= Z.of_nat (length (recs (linear_malloc s))) ->
  exists s', sort_recs s = Done (tt, s') /\ used_recs s' = qsort compare_linear_mallocs (used_recs s) /\
    length (recs (linear_malloc s')) = length (recs (linear_malloc s)) /\
    nrecs_used (linear_malloc s') = nrecs_used (linear_malloc s) /\ l_mem s' = l_mem s.
Proof.
  intros Hn. eexists. split; [done|]. unfold used_recs. simpl. set (n := Z.to_nat _).
  pose proof (Permutation_length (qsort_permutes compare_linear_mallocs (take n (recs (linear_malloc s))))) as L.
  rewrite length_take in L. split_and!; [|rewrite length_app, length_drop; lia|done..].
  apply take_app_length'. lia.
Qed.

(** What writing one more record does; the order is restored afterwards. *)
Definition written (s : lstate) (p n c : Z) : lstate :=
  LState (LinearIndex (<[Z.to_nat (nrecs_used (linear_malloc s)) := chunk_rec (p, (n, c))]> (recs (linear_malloc s)))
                      (nrecs_used (linear_malloc s) + 1))
         (<[p + usable n := set_initial_alloc_site c (site_of s p n)]> (l_mem s)).

Lemma written_used s m p n c : indexes s m -> placeable s m p n c ->
  used_recs (written s p n c) = used_recs s ++ [chunk_rec (p, (n, c))].
Proof.
  intros I P. pose proof (ix_count _ _ I). pose proof (pl_room _ _ _ _ _ P). pose proof (ix_length _ _ I). destruct (ix_used _ _ I).
  unfold used_recs, written. cbn [linear_malloc recs nrecs_used]. set (k := Z.to_nat (nrecs_used (linear_malloc s))).
  assert (Z.of_nat k = nrecs_used (linear_malloc s)) by lia.
  replace (Z.to_nat (nrecs_used (linear_malloc s) + 1)) with (S k) by lia.
  rewrite (take_S_r _ _ (chunk_rec (p, (n, c)))) by (apply list_lookup_insert_eq; lia).
  by rewrite take_insert_ge by lia.
Qed.

Lemma written_sites s m p n c q n' c' : indexes s m -> placeable s m p n c -> <[p := (n, c)]> m !! q = Some (n', c') ->
  initial_alloc_site (site_of (written s p n c) q n') = c' /\ INSERT_IS_WITH_TYPE (site_of (written s p n c) q n') = false.
Proof.
  intros I P. pose proof (pl_layout _ _ _ _ _ P) as L. pose proof (pl_site _ _ _ _ _ P).
  unfold site_of at 1 2, l_load. cbn [written l_mem]. rewrite lookup_insert_Some. intros [[<- [= <- <-]]|[Hne Hq]].
  - rewrite lookup_insert_eq. cbn [from_option id]. unfold initial_alloc_site, INSERT_IS_WITH_TYPE, initial_unused, set_initial_alloc_site.
    rewrite field_set_same, field_set_other by (done || lia). fold (initial_unused (site_of s p n)). by rewrite (pl_blank _ _ _ _ _ P).
  - rewrite lookup_insert_ne; [by apply (ix_sites _ _ I)|]. pose proof (usable_spec n). pose proof (usable_spec n').
    assert (Ep : <[p := (n, c)]> m !! p = Some (n, c)) by apply lookup_insert_eq.
    assert (Eq : <[p := (n, c)]> m !! q = Some (n', c')) by (by rewrite lookup_insert_ne).
    destruct (Z.lt_total p q) as [Hpq|[?|Hpq]]; [|done|].
    + pose proof (lc_apart _ L _ _ _ _ _ Ep Eq Hpq). unfold sizeof_insert in *. destruct (lc_size _ L _ _ _ Eq). lia.
    + pose proof (lc_apart _ L _ _ _ _ _ Eq Ep Hpq). unfold sizeof_insert in *. destruct (lc_size _ L _ _ _ Ep). lia.
Qed.

(** The records after a write are those of the larger map, whatever their order. *)
Lemma rewritten_ok s m p n c s' : indexes s m -> placeable s m p n c ->
  used_recs s' ≡ₚ used_recs (written s p n c) -> increasing (map rec_addr (used_recs s')) ->
  length (recs (linear_malloc s')) = length (recs (linear_malloc s)) ->
  nrecs_used (linear_malloc s') = nrecs_used (linear_malloc s) + 1 -> l_mem s' = l_mem (written s p n c) ->
  indexes s' (<[p := (n, c)]> m).
Proof.
  intros I P Pm Inc Len Nu Mem. pose proof (ix_count _ _ I). pose proof (pl_room _ _ _ _ _ P). pose proof (ix_length _ _ I).
  destruct (ix_used _ _ I). split; [congruence|lia|done| |apply P|].
  - rewrite Pm, (written_used s m) by done. rewrite (map_to_list_insert m p (n, c)) by apply P. cbn [map].
    rewrite Permutation_app_comm. cbn [app]. by rewrite (ix_chunks _ _ I).
  - intros q n' c' Hq. unfold site_of, l_load. rewrite Mem. by apply (written_sites s m).
Qed.

(** Up to the test of the order. *)
Lemma insert_writes {B : Build} s m p n c : indexes s m -> placeable s m p n c ->
  linear_malloc_index_insert p n c s =
    (n0 ← gets (fun s => nrecs_used (linear_malloc s));
     if 1 <? n0 then
       last ← rd_rec (n0 - 1); prev ← rd_rec (n0 - 2); when (rec_addr last <? rec_addr prev) sort_recs
     else mret tt) (written s p n c).
Proof.
  intros I P. pose proof (ix_count _ _ I). pose proof (pl_room _ _ _ _ _ P) as Hr. pose proof (ix_length _ _ I) as Len.
  destruct (ix_used _ _ I) as [Hu0 Hu]. rewrite max_linear in *.
  destruct (lc_size _ (pl_layout _ _ _ _ _ P) p n c) as (Hp & Hn & Hb); [apply lookup_insert_eq|]. pose proof (usable_spec n) as Us.
  assert (Hc : CHUNK_SIZE_WITH_TRAILER n sizeof_insert 8 = usable n + sizeof_insert) by (unfold usable; lia).
  unfold linear_malloc_index_insert, insert_for_chunk_and_caller_usable_size. rewrite Hc. unfold sizeof_insert in *.
  rewrite (wrap_small 64 (usable n + 8)) by lia. replace (usable n + 8 - 8) with (usable n) by lia.
  rewrite (wrap_small 64 (usable n)), (wrap_small 64 (p + usable n)) by lia.
  set (s1 := LState (linear_malloc s) (l_mem (written s p n c))).
  rewrite (bind_Done (modify _) _ s tt s1) by done. rewrite (bind_Done (gets _) _ s1 (nrecs_used (linear_malloc s)) s1) by done.
  rewrite (wrap_small 32 (nrecs_used (linear_malloc s) + 1)), (wrap_small 32 n), (wrap_small 8) by lia.
  set (s2 := set_recs (recs (linear_malloc (written s p n c))) s1).
  rewrite (bind_Done (wr_rec _ _) _ s1 tt s2); [by rewrite (bind_Done (modify _) _ s2 tt (written s p n c))|].
  unfold wr_rec. rewrite (proj2 (Z.leb_le 0 _) Hu0). cbn [s1 linear_malloc andb]. by rewrite (proj2 (Z.ltb_lt _ _)) by lia.
Qed.

Lemma linear_insert_ok {B : Build} s m p n c : indexes s m -> placeable s m p n c ->
  exists s', linear_malloc_index_insert p n c s = Done (tt, s') /\ indexes s' (<[p := (n, c)]> m).
Proof.
  intros I P. rewrite (insert_writes s m) by done. pose proof (written_used s m p n c I P) as Ew. set (w := written s p n c) in *.
  pose proof (ix_count _ _ I). pose proof (pl_room _ _ _ _ _ P) as Hr. pose proof (ix_length _ _ I) as Len. destruct (ix_used _ _ I) as [Hu0 Hu].
  rewrite max_linear in *. assert (Lw : length (recs (linear_malloc w)) = length (recs (linear_malloc s))) by apply length_insert.
  unfold gets at 1, mbind at 1, M_bind at 1. change (nrecs_used (linear_malloc w)) with (nrecs_used (linear_malloc s) + 1).
  destruct (last (used_recs s)) as [prev|] eqn:El.
  - rewrite last_lookup in El. pose proof El as Lt%lookup_lt_Some. unfold used_recs in Lt at 2. rewrite length_take in Lt.
    assert (Lu : length (used_recs s) = Z.to_nat (nrecs_used (linear_malloc s))) by (unfold used_recs; rewrite length_take; lia).
    rewrite (proj2 (Z.ltb_lt 1 _)) by lia.
    assert (R1 : used_recs w !! Z.to_nat (nrecs_used (linear_malloc s)) = Some (chunk_rec (p, (n, c)))).
    { rewrite Ew, lookup_app_r by lia. by rewrite Lu, Nat.sub_diag. }
    assert (R2 : used_recs w !! pred (length (used_recs s)) = Some prev) by (rewrite Ew, lookup_app_l by lia; done).
    rewrite (bind_Done (rd_rec _) _ w (chunk_rec (p, (n, c))) w).
    2: { unfold rd_rec. rewrite (proj2 (Z.ltb_ge _ _)) by lia. apply used_lookup in R1.
         by replace (Z.to_nat (nrecs_used (linear_malloc s) + 1 - 1)) with (Z.to_nat (nrecs_used (linear_malloc s))) by lia; rewrite R1. }
    rewrite (bind_Done (rd_rec _) _ w prev w).
    2: { unfold rd_rec. rewrite (proj2 (Z.ltb_ge _ _)) by lia. apply used_lookup in R2.
         by replace (Z.to_nat (nrecs_used (linear_malloc s) + 1 - 2)) with (pred (length (used_recs s))) by (rewrite Lu; lia); rewrite R2. }
    cbn [rec_addr chunk_rec fst]. destruct (Z.ltb_spec p (rec_addr prev)) as [Hlt|Hge]; cbn [when].
    + destruct (sort_recs_used w) as (s' & Es & Us & Ls & Ns & Ms); [rewrite Lw; change (nrecs_used (linear_malloc w)) with (nrecs_used (linear_malloc s) + 1); lia|].
      exists s'. split; [done|]. apply (rewritten_ok s m p n c); try done; [by rewrite Us, qsort_permutes| |congruence].
      rewrite Us. destruct (chunk_recs_facts _ (pl_layout _ _ _ _ _ P)) as (N & ND & Nz).
      assert (Pw : used_recs w ≡ₚ map chunk_rec (map_to_list (<[p := (n, c)]> m))).
      { rewrite Ew, (map_to_list_insert m p (n, c)) by apply P. cbn [map]. rewrite Permutation_app_comm. cbn [app]. by rewrite (ix_chunks _ _ I). }
      apply sorted_addresses; [|by rewrite Pw|intros r; rewrite Pw; apply Nz]. intros x y. rewrite !Pw. apply N.
    + exists w. split; [done|]. apply (rewritten_ok s m p n c); try done. rewrite Ew, map_app. apply increasing_snoc; [apply I|].
      intros x. rewrite last_lookup, list_lookup_fmap, length_fmap, El. intros [= <-].
      assert (rec_addr prev <> p); [|cbn; lia]. intros <-.
      apply list_elem_of_lookup_2, (ix_elem s m _ I) in El as (q & n' & c' & Hq & ->). simpl in *.
      rewrite (pl_new _ _ _ _ _ P) in Hq. done.
  - apply last_None in El. pose proof (f_equal length El) as L0. unfold used_recs in L0. rewrite length_take in L0. cbn in L0.
    rewrite (proj2 (Z.ltb_ge 1 _)) by lia. exists w. split; [done|]. apply (rewritten_ok s m p n c); try done.
    rewrite Ew, El. intros i j a b Hij Ha Hb. apply list_lookup_singleton_Some in Ha as [-> _], Hb as [-> _]. lia.
Qed.

(** ** Deleting *)

Lemma laid_out_delete m p : laid_out_chunks m -> laid_out_chunks (delete p m).
Proof.
  intros L. split.
  - intros q n c [_ Hq]%lookup_delete_Some. by apply (lc_size _ L) in Hq.
  - intros q n c q' x [_ Hq]%lookup_delete_Some [_ Hq']%lookup_delete_Some. by apply (lc_apart _ L q n c q' x).
  - intros q q' x y [_ Hq]%lookup_delete_Some [_ Hq']%lookup_delete_Some. by apply (lc_near _ L q q' x y).
Qed.

Lemma near_null l r : near l -> near (set_rec_addr 0 r :: l).
Proof.
  intros N x y Hx Hy. apply elem_of_cons in Hx as [->|Hx], Hy as [->|Hy]; cbn [set_rec_addr rec_addr]; [lia..| |by apply N].
  destruct (N x x Hx Hx). lia.
Qed.

Lemma near_perm l l' : l ≡ₚ l' -> near l -> near l'.
Proof. intros P N x y. rewrite <- !P. apply N. Qed.

Lemma split_chunk s m p n c i : indexes s m -> m !! p = Some (n, c) -> used_recs s !! i = Some (LinearRec p n (usable n - n)) ->
  exists l1 l2, used_recs s = l1 ++ LinearRec p n (usable n - n) :: l2 /\ length l1 = i /\
    l1 ++ l2 ≡ₚ map chunk_rec (map_to_list (delete p m)).
Proof.
  intros I Hp Ei. apply list_elem_of_split_length in Ei as (l1 & l2 & Eu & Hi). exists l1, l2. split_and!; [done|done|].
  pose proof (ix_chunks _ _ I) as P. rewrite Eu, <- Permutation_middle, <- (map_to_list_delete m p (n, c)) in P by done.
  by apply Permutation_cons_inv in P.
Qed.

(** The record sorted to the end is given up. *)
Lemma dropped_ok s m p s2 l' z : indexes s m -> used_recs s2 = l' ++ [z] -> l' ≡ₚ map chunk_rec (map_to_list (delete p m)) ->
  increasing (map rec_addr l') -> length (recs (linear_malloc s2)) = length (recs (linear_malloc s)) ->
  nrecs_used (linear_malloc s2) = nrecs_used (linear_malloc s) -> l_mem s2 = l_mem s ->
  indexes (set_nrecs_used (nrecs_used (linear_malloc s) - 1) s2) (delete p m).
Proof.
  intros I U2 Pl Inc L2 N2 M2. pose proof (ix_length _ _ I) as Len. destruct (ix_used _ _ I) as [U0 U1]. rewrite max_linear in *.
  assert (Ll : length l' = (Z.to_nat (nrecs_used (linear_malloc s)) - 1)%nat /\ 0 < nrecs_used (linear_malloc s)).
  { apply (f_equal length) in U2. unfold used_recs in U2. rewrite length_take, length_app in U2. simpl in U2. lia. }
  assert (U3 : used_recs (set_nrecs_used (nrecs_used (linear_malloc s) - 1) s2) = l').
  { unfold used_recs, set_nrecs_used, set_index. cbn [linear_malloc recs nrecs_used].
    replace (Z.to_nat (nrecs_used (linear_malloc s) - 1)) with (length l') by lia. unfold used_recs in U2.
    rewrite N2 in U2. replace (take (length l') (recs (linear_malloc s2)))
      with (take (length l') (take (Z.to_nat (nrecs_used (linear_malloc s))) (recs (linear_malloc s2)))) by (rewrite take_take; f_equal; lia).
    rewrite U2. by apply take_app_length. }
  split.
  - cbn [set_nrecs_used set_index linear_malloc recs]. rewrite max_linear. lia.
  - cbn [set_nrecs_used set_index linear_malloc nrecs_used]. rewrite max_linear. lia.
  - by rewrite U3.
  - by rewrite U3.
  - apply laid_out_delete, I.
  - intros q n' c' [_ Hq]%lookup_delete_Some. unfold site_of, l_load. cbn [set_nrecs_used set_index l_mem]. rewrite M2. by apply (ix_sites _ _ I).
Qed.

Lemma linear_delete_ok {B : Build} s m p n c u : indexes s m -> m !! p = Some (n, c) -> p <= u < p + n ->
  exists s', linear_malloc_index_delete u s = Done (tt, s') /\ indexes s' (delete p m) /\ l_mem s' = l_mem s.
Proof.
  intros I Hp Hu. destruct (find_chunk s m p n c u I Hp Hu) as (i & Ef & Ei).
  destruct (split_chunk s m p n c i I Hp Ei) as (l1 & l2 & Eu & Hi & Pm). set (r := LinearRec p n (usable n - n)) in *.
  pose proof (ix_length _ _ I) as Len. destruct (ix_used _ _ I) as [U0 U1]. rewrite max_linear in *.
  assert (Lu : length (used_recs s) = Z.to_nat (nrecs_used (linear_malloc s))) by (unfold used_recs; rewrite length_take; lia).
  pose proof Ei as Lt%lookup_lt_Some. pose proof (used_lookup _ _ _ Ei) as Er.
  unfold linear_malloc_index_delete. rewrite (bind_Done (gets _) _ s (linear_malloc s) s) by done. rewrite Ef.
  rewrite (bind_Done (rd_rec _) _ s r s) by (unfold rd_rec; rewrite (proj2 (Z.ltb_ge _ 0)), Nat2Z.id, Er by lia; done).
  set (s1 := set_recs (<[i := set_rec_addr 0 r]> (recs (linear_malloc s))) s).
  rewrite (bind_Done (wr_rec _ _) _ s tt s1).
  2: { unfold wr_rec. apply lookup_lt_Some in Er. rewrite (proj2 (Z.leb_le 0 _)), (proj2 (Z.ltb_lt _ _)) by lia. cbn [andb]. by rewrite Nat2Z.id. }
  assert (E1 : used_recs s1 = l1 ++ set_rec_addr 0 r :: l2).
  { unfold used_recs, s1. cbn [set_recs set_index linear_malloc recs nrecs_used]. rewrite take_insert_lt by lia. fold (used_recs s).
    rewrite Eu, <- Hi, insert_app_r_alt, Nat.sub_diag by done. done. }
  assert (L1 : length (recs (linear_malloc s1)) = length (recs (linear_malloc s))) by apply length_insert.
  destruct (sort_recs_used s1) as (s2 & Es & U2 & L2 & N2 & M2); [rewrite L1; cbn [s1 set_recs set_index linear_malloc nrecs_used]; lia|].
  rewrite (bind_Done _ _ _ _ _ Es). cbn [s1 set_recs set_index linear_malloc nrecs_used] in N2.
  destruct (chunk_recs_facts _ (laid_out_delete m p (ix_layout _ _ I))) as (Nr & ND & Nz).
  destruct (null_sorts_last l1 l2 r) as (l' & Eq & Pl & Inc).
  { apply (near_perm (set_rec_addr 0 r :: (l1 ++ l2))); [by rewrite Permutation_middle|]. apply near_null. by apply (near_perm _ _ (Permutation_sym Pm)). }
  { by rewrite Pm. } { intros x. rewrite Pm. apply Nz. }
  rewrite E1, Eq in U2. assert (Ll : length l' = (Z.to_nat (nrecs_used (linear_malloc s)) - 1)%nat).
  { rewrite (Permutation_length Pl), <- Lu, Eu, !length_app. simpl. lia. }
  rewrite (bind_Done (assertM _) _ s2 tt s2).
  2: { unfold assertM. destruct NDEBUG; [done|]. rewrite (bind_Done _ _ s2 true s2); [done|].
       rewrite (bind_Done (rd_rec _) _ s2 (set_rec_addr 0 r) s2); [done|]. unfold rd_rec. rewrite (proj2 (Z.ltb_ge _ 0)) by lia.
       rewrite (used_lookup s2 _ (set_rec_addr 0 r)); [done|]. rewrite U2, lookup_app_r by lia.
       by replace (Z.to_nat (nrecs_used (linear_malloc s) - 1) - length l')%nat with 0%nat by lia. }
  eexists. split; [done|]. rewrite wrap_small by lia. split; [|done]. apply (dropped_ok s m p s2 l' (set_rec_addr 0 r)); try done; [by rewrite Pl|lia].
Qed.
End facts.
