(* ===== verification/Events.v ===== *)
(** The events of a malloc: what ALLOC_EVENT_INDEXING_DEFS4 of
    src/tools/stubgen.h generates for an index.

    The index is the class [MallocIndex]: the macro's [index_namefrag] with its
    functions, the function giving the size of a chunk, and access to the words
    that hold inserts.  It has two instances, the bitmap index of
    generic_malloc_index.h and the linear index. *)
From S2P Require Import Prelude Vas Bitmap BigAlloc PageIndex PageIndexQuery MallocMeta AddrList GenericMalloc.
From S2P Require Import Subobject AllocSites Linear.

Class MallocIndex (S : Type) := {
  mi_current_allocsite : S -> Z;
  mi_current_allocsz : S -> Z;
  mi_arena_info_for_userptr : Z -> M S Z;
  mi_ensure_arena_info_for_userptr : Z -> M S Z;
  mi_index_insert : Z -> Z -> Z -> Z -> M S unit;
  mi_index_delete : Z -> Z -> M S unit;
  mi_index_reinsert_after_resize : Z -> Z -> Z -> Z -> Z -> Z -> Z -> M S unit;
  mi_sizefn : Z -> M S Z;
  mi_load : Z -> M S Z;
  mi_store : Z -> Z -> M S unit;
  mi_notify_free : Z -> M S unit;
}.

Section events.
Context {B : Build} {S : Type} {MI : MallocIndex S} (initial_lifetime_policies : Z).

(** [insert_for_chunk], with a size that is read from the state. *)
Definition lifetime_insert (userptr : Z) : M S Z :=
  sz ← mi_sizefn userptr; mret (insert_for_chunk (fun _ => sz) userptr).

Definition post_successful_alloc (allocptr modified_size modified_alignment requested_size requested_alignment caller : Z)
    : M S unit :=
  info ← mi_ensure_arena_info_for_userptr allocptr;
  site ← gets mi_current_allocsite;
  mi_index_insert info allocptr requested_size (if negb (site =? 0) then site else caller) ;;
  if initial_lifetime_policies =? 0 then mret tt else
  lti ← lifetime_insert allocptr;
  if lti =? 0 then mret tt else
  i ← mi_load lti;
  mi_store lti (set_lifetime_policies (Z.lor (lifetime_policies i) initial_lifetime_policies) i).

(** The size to ask for. *)
Definition pre_alloc (orig_size : Z) : M S Z :=
  let size_to_allocate := wrap64 (CHUNK_SIZE_WITH_TRAILER orig_size sizeof_insert 8) in
  assert (size_to_allocate mod 8 =? 0) ;;
  mret size_to_allocate.

(** Whether the free is cancelled. *)
Definition pre_nonnull_free (userptr freed_usable_size : Z) : M S bool :=
  cancel ← (if initial_lifetime_policies =? 0 then mret false else
              lti ← lifetime_insert userptr;
              i ← mi_load lti;
              mi_store lti (set_lifetime_policies (Z.ldiff (lifetime_policies i) (LIFETIME_POLICY_FLAG 0)) i) ;;
              i ← mi_load lti;
              if negb (lifetime_policies i =? 0) then mret true else
              mi_notify_free userptr ;; mret false);
  if (cancel : bool) then mret true else
  info ← mi_ensure_arena_info_for_userptr userptr;
  mi_index_delete info userptr ;;
  mret false.

Definition post_nonnull_free (userptr : Z) : M S unit := mret tt.

Definition pre_nonnull_nonzero_realloc (userptr size caller : Z) : M S unit :=
  info ← mi_arena_info_for_userptr userptr;
  mi_index_delete info userptr.

Definition post_nonnull_nonzero_realloc (userptr modified_size old_usable_size caller new_allocptr : Z) : M S unit :=
  sz ← gets mi_current_allocsz;
  let requested_size := if negb (sz =? 0) then sz else wrap64 (modified_size - sizeof_insert) in
  info ← mi_arena_info_for_userptr userptr;
  mi_index_reinsert_after_resize info userptr modified_size old_usable_size requested_size caller new_allocptr.
End events.

(** ** The bitmap index *)

Section generic.
Context {V : Vas} {H : Hooks} {B : Build} {BM : Bitmap} {E : MallocEnv}.

(** For the allocator [a]; [notify_free] is the client's, and [allocsz] the size the caller's wrapper left. *)
Definition generic_index (a : Z) (sizefn : Z -> Z) (allocsz : Z) (notify_free : Z -> M gstate unit) : MallocIndex gstate := {|
  mi_current_allocsite := __current_allocsite;
  mi_current_allocsz _ := allocsz;
  mi_arena_info_for_userptr := arena_info_for_userptr a;
  mi_ensure_arena_info_for_userptr := ensure_arena_info_for_userptr a;
  mi_index_insert ip p n c := __generic_malloc_index_insert sizefn a ip p n c ;; mret tt;
  mi_index_delete := __generic_malloc_index_delete sizefn a;
  mi_index_reinsert_after_resize ip u m o r c n := __generic_malloc_index_reinsert_after_resize sizefn a ip u m o r c n ;; mret tt;
  mi_sizefn p := mret (sizefn p);
  mi_load := rd_mem;
  mi_store := wr_mem;
  mi_notify_free := notify_free;
|}.
End generic.

(** ** The linear index *)

Section linear.
Context {B : Build} {E : SiteEnv} {Q : Qsort}.

(** There is one arena, and [__notify_free] does nothing; [allocsite] and [allocsz] are the values of the variables. *)
Definition linear_index (allocsite allocsz : Z) : MallocIndex lstate := {|
  mi_current_allocsite _ := allocsite;
  mi_current_allocsz _ := allocsz;
  mi_arena_info_for_userptr _ := mret 0;
  mi_ensure_arena_info_for_userptr _ := mret 0;
  mi_index_insert _ := linear_malloc_index_insert;
  mi_index_delete _ := linear_malloc_index_delete;
  mi_index_reinsert_after_resize _ := linear_malloc_index_reinsert_after_resize;
  mi_sizefn := ld_so_malloc_usable_size;
  mi_load a := gets (fun s => l_load s a);
  mi_store a v := modify (fun s => LState (linear_malloc s) (<[a := v]> (l_mem s)));
  mi_notify_free _ := mret tt;
|}.
End linear.
