(* ===== verification/EventTheorems.v ===== *)
(** The contract of the malloc events: the linear index refines a map of live
    chunks, and a lifetime policy keeps a chunk in the bitmap index. *)
From S2P Require Import Prelude DList Vas Bitmap BigAlloc PageIndex PageIndexQuery BigAllocFacts Forest Traversal QueryCorrect Reachable Demo.
From S2P Require Import MallocMeta AddrList GenericMalloc GenericMallocFacts HeapTheorems Subobject AllocSites SequenceTheorems.
From S2P Require Import Linear LinearFacts Events.

(** ** The linear index *)

Inductive chunk_event :=
| Allocated (p n caller : Z)
| Freed (p : Z)
| Reallocated (p q n caller : Z).

Section linear.
Context {B : Build} {E : SiteEnv} {EL : SiteLaws E} {Q : Qsort} {QL : QsortLaws Q}.

(** The events of a build without lifetime policies, outside an allocator's wrapper. *)
Definition raise_event (e : chunk_event) : M lstate unit :=
  let MI := linear_index 0 0 in
  match e with
  | Allocated p n caller => post_successful_alloc (MI := MI) 0 p (CHUNK_SIZE_WITH_TRAILER n sizeof_insert 8) 0 n 0 caller
  | Freed p => pre_nonnull_free (MI := MI) 0 p 0 ;; post_nonnull_free p
  | Reallocated p q n caller =>
    pre_nonnull_nonzero_realloc (MI := MI) p n caller ;;
    post_nonnull_nonzero_realloc (MI := MI) p (CHUNK_SIZE_WITH_TRAILER n sizeof_insert 8) 0 caller q
  end.
Fixpoint raise_all (l : list chunk_event) : M lstate unit :=
  match l with
  | [] => mret tt
  | e :: l => raise_event e ;; raise_all l
  end.

(** A chunk that was reallocated is recorded with all that its caller may use. *)
Definition chunk_effect (m : chunks) (e : chunk_event) : chunks :=
  match e with
  | Allocated p n caller => <[p := (n, caller)]> m
  | Freed p => delete p m
  | Reallocated p q n caller => <[q := (usable n, caller)]> (delete p m)
  end.

Definition admissible (s : lstate) (m : chunks) (e : chunk_event) : Prop :=
  match e with
  | Allocated p n caller => placeable s m p n caller
  | Freed p => is_Some (m !! p)
  | Reallocated p q n caller => is_Some (m !! p) /\ 0 < n < 2 ^ 31 /\ placeable s (delete p m) q (usable n) caller
  end.
Fixpoint admissible_all (s : lstate) (m : chunks) (l : list chunk_event) : Prop :=
  match l with
  | [] => True
  | e :: l => admissible s m e /\ forall s', raise_event e s = Done (tt, s') -> admissible_all s' (chunk_effect m e) l
  end.

Lemma admissible_step s s1 m e l :
  admissible s m e -> raise_event e s = Done (tt, s1) -> admissible_all s1 (chunk_effect m e) l -> admissible_all s m (e :: l).
Proof. intros A Hs Hl. split; [done|]. intros s'. rewrite Hs. by intros [= <-]. Qed.

Lemma delete_event s m p : indexes s m -> is_Some (m !! p) ->
  exists s', linear_malloc_index_delete p s = Done (tt, s') /\ indexes s' (delete p m) /\ l_mem s' = l_mem s.
Proof.
  intros I [[n c] Hp]. destruct (lc_size _ (ix_layout _ _ I) _ _ _ Hp) as (_ & ? & _).
  apply (linear_delete_ok s m p n c p I Hp). lia.
Qed.

Lemma event_ok s m e : indexes s m -> admissible s m e ->
  exists s', raise_event e s = Done (tt, s') /\ indexes s' (chunk_effect m e).
Proof.
  intros I A. destruct e as [p n c|p|p q n c]; cbn [admissible] in A.
  - destruct (linear_insert_ok s m p n c I A) as (s' & Es & I'). exists s'. split; [|done].
    unfold raise_event, post_successful_alloc. do 2 rewrite (bind_Done _ _ s 0 s) by done. by rewrite (bind_Done _ _ s tt s').
  - destruct (delete_event s m p I A) as (s' & Es & I' & _). exists s'. split; [|done].
    unfold raise_event, pre_nonnull_free. rewrite (bind_Done _ _ s false s'); [done|].
    rewrite (bind_Done _ _ s false s) by done. rewrite (bind_Done _ _ s 0 s) by done. by rewrite (bind_Done _ _ s tt s').
  - destruct A as (Hp & Hn & Pl). destruct (delete_event s m p I Hp) as (s1 & E1 & I1 & M1).
    assert (Pl1 : placeable s1 (delete p m) q (usable n) c).
    { destruct Pl. split; try done. unfold site_of, l_load in *. by rewrite M1. }
    destruct (linear_insert_ok s1 _ q (usable n) c I1 Pl1) as (s' & Es & I'). exists s'. split; [|done].
    unfold raise_event, pre_nonnull_nonzero_realloc, post_nonnull_nonzero_realloc. pose proof (usable_spec n).
    rewrite (bind_Done _ _ s tt s1) by (by rewrite (bind_Done _ _ s 0 s)). do 2 rewrite (bind_Done _ _ s1 0 s1) by done.
    change (CHUNK_SIZE_WITH_TRAILER n sizeof_insert 8 - sizeof_insert) with (usable n). rewrite wrap_small by lia. done.
Qed.

(** C35.  The linear index refines a map of live chunks: over any list of
    allocations, frees and reallocations that are admissible when they happen
    (the record fits the page, chunks do not overlap and lie within 2 GB), each
    event returns, the index then holds the map's chunks sorted by address,
    and a search finds the chunk around an address or nothing. *)
Theorem linear_index_refines l s m :
  indexes s m -> admissible_all s m l ->
  exists s', raise_all l s = Done (tt, s') /\
    let m' := fold_left chunk_effect l m in
    let find a := find_linear_malloc_rec a (recs (linear_malloc s')) (nrecs_used (linear_malloc s')) in
    indexes s' m' /\
    (forall p n c a, m' !! p = Some (n, c) -> p <= a < p + n ->
       exists i, find a = Some i /\ used_recs s' !! i = Some (chunk_rec (p, (n, c)))) /\
    (forall a, (forall p n c, m' !! p = Some (n, c) -> ~ p <= a < p + n) -> find a = None).
Proof.
  intros I A. induction l as [|e l IH] in s, m, I, A |- *.
  - exists s. split; [done|]. split_and!; [done| |]; [intros p n c a Hp Ha; by apply (find_chunk s m p n c)|intros a Hn; by apply (find_nothing s m)].
  - destruct A as [A Al]. destruct (event_ok s m e I A) as (s1 & E1 & I1). destruct (IH s1 _ I1 (Al s1 E1)) as (s' & E' & R).
    exists s'. split; [|done]. cbn [raise_all]. by rewrite (bind_Done _ _ _ _ _ E1).
Qed.

(** In a build with lifetime policies, the insert of a chunk is looked for
    one word before the place where indexing put it: the size the linear index
    reports leaves the insert out already. *)
Lemma linear_policies_misplaced s m p n c allocsite allocsz :
  indexes s m -> m !! p = Some (n, c) -> n <= 2 ^ 32 - 8 ->
  lifetime_insert (MI := linear_index allocsite allocsz) p s = Done (p + usable n - sizeof_insert, s).
Proof.
  intros I Hp Hn. destruct (lc_size _ (ix_layout _ _ I) _ _ _ Hp) as (? & ? & ?). pose proof (usable_spec n). pose proof (usable_small n Hn).
  destruct (find_chunk s m p n c p I Hp) as (i & Ef & Ei); [lia|]. unfold lifetime_insert.
  rewrite (bind_Done _ _ s (usable n) s).
  2: { change (ld_so_malloc_usable_size p s = Done (usable n, s)). unfold ld_so_malloc_usable_size, gets, linear_malloc_usable_size.
       rewrite Ef. cbn [mbind option_bind]. rewrite (used_lookup _ _ _ Ei). cbn [rec_addr caller_requested_size padding_to_caller_usable_size].
       rewrite Z.eqb_refl. rewrite wrap_small by lia. do 2 f_equal. lia. }
  unfold insert_for_chunk, insert_for_chunk_and_caller_usable_size, caller_usable_size_for_chunk, caller_usable_size_for_chunk_and_usable_size, sizeof_insert in *.
  pose proof (usable_aligned n). assert (8 <= usable n) by (Z.to_euclidean_division_equations; lia).
  rewrite (wrap_small 64 (usable n - 8)), wrap_small by lia. unfold mret, M_ret. do 2 f_equal. lia.
Qed.
End linear.

(** Addresses 4 GB apart compare as equal: the difference is cut to an [int]. *)
Lemma far_chunks_equal x y : 0 < rec_addr y -> rec_addr x = rec_addr y + 2 ^ 32 -> compare_linear_mallocs x y = 0.
Proof.
  intros Hy Ex. unfold compare_linear_mallocs. rewrite (proj2 (Z.eqb_neq (rec_addr x) 0)), (proj2 (Z.eqb_neq (rec_addr y) 0)) by lia.
  replace (rec_addr x - rec_addr y) with (2 ^ 32) by lia. by vm_compute.
Qed.

(** ** Lifetime policies *)

Section policies.
Context {V : Vas} {VL : VasLaws V} {H : Hooks} {BM : Bitmap} {BL : BitmapLaws BM} {E : MallocEnv}.
Context (sizefn : Z -> Z) (a allocsz : Z).
#[local] Existing Instance release.
#[local] Instance events_index : MallocIndex gstate := generic_index a sizefn allocsz (fun _ => mret tt).

(** A chunk of the index, and where its insert is. *)
Record indexed_chunk (g : gstate) (ip arena p : Z) : Prop := {
  ic_wf : wf (table g);
  ic_index : index_ok (table g);
  ic_a : a <> 0;
  ic_arena : arena_of (table g) a p arena;
  ic_private : suballocator_private (ba (table g) arena) = ip /\ ip <> 0;
  ic_small : topmost_at (table g) p a false 0;
  ic_info : info_ok (info g ip);
  ic_starts : starts_chunk (info g ip) p;
  ic_size : sizeof_insert <= sizefn p /\ 0 < p /\ p + sizefn p < 2 ^ 64;
}.
Definition insert_at (p : Z) : Z := p + sizefn p - sizeof_insert.

Lemma ensure_info_ok g ip arena p : indexed_chunk g ip arena p -> ensure_arena_info_for_userptr a p g = Done (ip, g).
Proof.
  intros K. destruct (ic_arena _ _ _ _ K) as (Hu & N & T), (ic_private _ _ _ _ K) as [Ei Ni].
  unfold ensure_arena_info_for_userptr, arena_for_userptr. rewrite bind_bind.
  rewrite (bind_Done _ _ g arena g).
  2: { apply big_pure. unfold __lookup_bigalloc_from_root_by_suballocator. rewrite (bind_Done _ _ _ tt (table g)) by done.
       apply lookup_arena_ok; try done; apply K. }
  rewrite (proj2 (Z.eqb_neq arena 0)) by done. rewrite (bind_Done _ _ g arena g) by done. unfold ensure_arena_has_info.
  rewrite (bind_Done _ _ g tt g) by (unfold deref; by rewrite (proj2 (Z.eqb_neq arena 0))).
  rewrite (bind_Done _ _ g ip g) by (apply big_pure; unfold rd, gets; by rewrite Ei).
  by rewrite (proj2 (Z.eqb_neq ip 0)).
Qed.

Lemma lifetime_insert_ok g ip arena p : indexed_chunk g ip arena p -> lifetime_insert p g = Done (insert_at p, g).
Proof.
  intros K. destruct (ic_size _ _ _ _ K) as (? & ? & ?). unfold lifetime_insert. rewrite (bind_Done _ _ g (sizefn p) g) by done.
  unfold insert_for_chunk, insert_for_chunk_and_caller_usable_size, caller_usable_size_for_chunk,
    caller_usable_size_for_chunk_and_usable_size, insert_at, sizeof_insert in *.
  rewrite (wrap_small 64 (sizefn p - 8)), wrap_small by lia. unfold mret, M_ret. do 2 f_equal. lia.
Qed.

(** C36.  With lifetime policies, freeing a chunk of the bitmap index clears
    its manual flag.  While another policy is attached the free is cancelled
    and the chunk stays indexed; otherwise exactly this chunk is unindexed.
    No other word of memory changes. *)
Theorem free_by_policies g ip arena p initial :
  let left := Z.ldiff (lifetime_policies (load g (insert_at p))) (LIFETIME_POLICY_FLAG 0) in
  indexed_chunk g ip arena p -> initial <> 0 ->
  exists g', pre_nonnull_free initial p (sizefn p) g = Done (negb (left =? 0), g') /\ table g' = table g /\
    lifetime_policies (load g' (insert_at p)) = left /\ (forall q, q <> insert_at p -> load g' q = load g q) /\
    forall o, starts_chunk (info g' ip) o <-> starts_chunk (info g ip) o /\ (left <> 0 \/ o <> p).
Proof.
  intros left K Ni. unfold pre_nonnull_free. rewrite (proj2 (Z.eqb_neq initial 0)) by done. rewrite bind_bind.
  rewrite (bind_Done _ _ _ _ _ (lifetime_insert_ok g ip arena p K)). rewrite bind_bind. rewrite (bind_Done _ _ g (load g (insert_at p)) g) by done.
  fold left. set (i' := set_lifetime_policies left (load g (insert_at p))).
  set (g1 := set_mem (<[insert_at p := i']> (mem g)) g). rewrite bind_bind, (bind_Done _ _ g tt g1) by done.
  assert (L1 : load g1 (insert_at p) = i') by (unfold g1; rewrite load_set; by rewrite decide_True).
  rewrite bind_bind, (bind_Done _ _ g1 i' g1) by (unfold mi_load; simpl; unfold rd_mem, gets; by rewrite L1).
  assert (Hl : lifetime_policies i' = left).
  { unfold lifetime_policies, i', set_lifetime_policies. apply field_set_same; [lia..|]. split.
    - apply Z.ldiff_nonneg. left. apply field_range. lia.
    - destruct (field_range 60 4 (load g (insert_at p))) as [F0 F1]; [lia|]. unfold left, lifetime_policies.
      rewrite Z.ldiff_land, <- Z.sub_land_same_l. pose proof (proj2 (Z.land_nonneg (field 60 4 (load g (insert_at p))) (LIFETIME_POLICY_FLAG 0)) (or_introl F0)). lia. }
  rewrite Hl. assert (Mem : forall q, q <> insert_at p -> load g1 q = load g q) by (intros q Hq; unfold g1; rewrite load_set; by rewrite decide_False).
  destruct (Z.eqb_spec left 0) as [E0|N0]; cbn [negb].
  - rewrite (bind_Done _ _ g1 false g1) by done. cbv iota.
    assert (K1 : indexed_chunk g1 ip arena p) by (destruct K; by split).
    rewrite (bind_Done _ _ g1 ip g1) by (by apply (ensure_info_ok g1 ip arena)).
    destruct (index_delete_ok sizefn g1 a ip arena p) as (g' & E' & U); try apply K1.
    exists g'. rewrite (bind_Done _ _ g1 tt g') by done. split; [done|].
    assert (Ld : forall q, load g' q = load g1 q) by (intros q; unfold load; by rewrite (ux_mem _ _ _ _ _ U)).
    split_and!; [by rewrite (ux_table _ _ _ _ _ U)|by rewrite Ld, L1|intros q Hq; rewrite Ld; auto|].
    intros o. rewrite (ux_starts _ _ _ _ _ U). change (info g1 ip) with (info g ip). tauto.
  - exists g1. split; [done|]. split_and!; [done|by rewrite L1|done|]. change (info g1 ip) with (info g ip). tauto.
Qed.

(** Indexing a chunk keeps whatever policies the word of its insert held before. *)
Lemma stale_policies g g' ip p req caller : 0 <= caller < 2 ^ 47 -> indexed sizefn g g' ip p req caller ->
  lifetime_policies (load g' (insert_at p)) = lifetime_policies (load g (insert_at p)).
Proof.
  intros Hc X. unfold insert_at. rewrite (ix_insert _ _ _ _ _ _ _ X). by apply fresh_insert_site.
Qed.
End policies.

(** ** Instances *)

(** Sorting by insertion. *)
Fixpoint insert_by {A} (cmp : A -> A -> Z) (x : A) (l : list A) : list A :=
  match l with
  | [] => [x]
  | y :: l' => if cmp x y <=? 0 then x :: l else y :: insert_by cmp x l'
  end.
Definition insertion_sort {A} (cmp : A -> A -> Z) (l : list A) : list A := foldr (insert_by cmp) [] l.
#[local] Instance sort_env : Qsort := {| qsort A := @insertion_sort A |}.

Lemma insert_by_permutes {A} (cmp : A -> A -> Z) x l : insert_by cmp x l ≡ₚ x :: l.
Proof. induction l as [|y l IH]; [done|]. cbn [insert_by]. destruct (_ <=? _); [done|]. rewrite IH. constructor. Qed.
Lemma insertion_sort_permutes {A} (cmp : A -> A -> Z) l : insertion_sort cmp l ≡ₚ l.
Proof. induction l as [|x l IH]; [done|]. cbn [insertion_sort foldr]. by rewrite insert_by_permutes, IH. Qed.

Lemma orders_perm {A} (cmp : A -> A -> Z) l l' : l ≡ₚ l' -> orders cmp l -> orders cmp l'.
Proof. intros P O. split; intros x y; [|intros z]; rewrite <- !P; apply O. Qed.
Lemma orders_tail {A} (cmp : A -> A -> Z) x l : orders cmp (x :: l) -> orders cmp l.
Proof. intros O. split; [intros y z Hy Hz|intros y z w Hy Hz Hw]; apply O; by right. Qed.

Lemma insert_by_sorts {A} (cmp : A -> A -> Z) x l : orders cmp (x :: l) ->
  StronglySorted (fun a b => cmp a b <= 0) l -> StronglySorted (fun a b => cmp a b <= 0) (insert_by cmp x l).
Proof.
  induction l as [|y l IH]; intros O S; [by repeat constructor|]. cbn [insert_by]. apply StronglySorted_inv in S as [S F].
  destruct (Z.leb_spec (cmp x y) 0) as [C|C].
  - constructor; [by constructor|]. constructor; [done|]. rewrite Forall_forall in F |- *. intros z Hz.
    apply (or_trans _ _ O x y z); [by left|by right; left|by right; right|done|by apply F].
  - assert (O' : orders cmp (x :: l)) by (apply (orders_tail _ y), (orders_perm _ (x :: y :: l)); [constructor|done]).
    constructor; [by apply IH|]. rewrite insert_by_permutes. constructor; [|done].
    destruct (or_total _ _ O x y); [by left|by right; left|lia|done].
Qed.

#[local] Instance sort_laws : QsortLaws sort_env.
Proof.
  split; [intros A; apply insertion_sort_permutes|]. intros A cmp l O. cbn [qsort sort_env].
  assert (S : StronglySorted (fun a b => cmp a b <= 0) (insertion_sort cmp l)).
  { induction l as [|x l IH]; [constructor|]. cbn [insertion_sort foldr]. apply insert_by_sorts; [|by apply IH, (orders_tail _ x)].
    fold (insertion_sort cmp l). by apply (orders_perm _ (x :: l)); [rewrite insertion_sort_permutes|]. }
  induction S as [|x l' S IH F]; intros i j y z Hij; [by rewrite lookup_nil|]. destruct i as [|i], j as [|j]; [lia| |lia|].
  - intros [= ->] Hz. rewrite Forall_forall in F. by apply F, list_elem_of_lookup_2 with j.
  - intros Hy Hz. apply (IH i j); [lia|done..].
Qed.

Definition pair_test (f : Z * (Z * Z) -> Z * (Z * Z) -> bool) (m : chunks) : bool :=
  forallb (fun x => forallb (f x) (map_to_list m)) (map_to_list m).
Definition layout_test (m : chunks) : bool :=
  pair_test (fun x y => (0 <? x.1) && (0 <? x.2.1) && (x.2.1 <? 2 ^ 32) && (x.1 + usable x.2.1 + sizeof_insert <? 2 ^ 64) &&
    implb (x.1 <? y.1) (x.1 + usable x.2.1 + sizeof_insert <=? y.1) && (y.1 - x.1 <? 2 ^ 31)) m.

Lemma layout_test_ok m : layout_test m = true -> laid_out_chunks m.
Proof.
  unfold layout_test, pair_test. rewrite forallb_forall. intros Ht.
  assert (G : forall p x q y, m !! p = Some x -> m !! q = Some y -> 0 < p /\ 0 < x.1 < 2 ^ 32 /\ p + usable x.1 + sizeof_insert < 2 ^ 64 /\
    (p < q -> p + usable x.1 + sizeof_insert <= q) /\ q - p < 2 ^ 31).
  { intros p x q y Hp%elem_of_map_to_list%list_elem_of_In Hq%elem_of_map_to_list%list_elem_of_In. specialize (Ht _ Hp).
    rewrite forallb_forall in Ht. specialize (Ht _ Hq). cbn [fst snd] in Ht.
    rewrite !andb_true_iff, !Z.ltb_lt in Ht. destruct Ht as (((((? & ?) & ?) & ?) & Hi) & ?). split_and!; try done.
    intros Hlt. rewrite (proj2 (Z.ltb_lt p q) Hlt) in Hi. by apply Z.leb_le. }
  split.
  - intros p n c Hp. destruct (G p _ p _ Hp Hp) as (? & ? & ? & _). done.
  - intros p n c q x Hp Hq. apply (G p _ q _ Hp Hq).
  - intros p q x y Hp Hq. apply (G p _ q _ Hp Hq).
Qed.

(** An empty index; then two chunks, the second below the first; the first moves, the second is freed. *)
Definition no_chunks : lstate := LState (LinearIndex (replicate 253 (LinearRec 0 0 0)) 0) ∅.
Definition event1 : chunk_event := Allocated 0x7000 24 0x401000.
Definition event2 : chunk_event := Allocated 0x6000 10 0x402000.
Definition event3 : chunk_event := Reallocated 0x7000 0x7100 40 0x403000.
Definition event4 : chunk_event := Freed 0x6000.

#[local] Existing Instances demo_site_env demo_site_laws.
Definition after_event (e : chunk_event) (s : lstate) : lstate :=
  match raise_event (B := debug) e s with Done (_, s') => s' | _ => s end.
Definition chunks1 : lstate := after_event event1 no_chunks.
Definition chunks2 : lstate := after_event event2 chunks1.
Definition chunks3 : lstate := after_event event3 chunks2.
Definition chunks4 : lstate := after_event event4 chunks3.

Lemma no_chunks_ok : indexes no_chunks ∅.
Proof.
  split; [by vm_compute|by vm_compute|intros i j a b Hij Ha; by destruct i|done|by apply layout_test_ok; vm_compute|].
  intros p n c. by rewrite lookup_empty.
Qed.

Lemma linear_index_refines_witness :
  exists s', raise_all (B := debug) [event1; event2; event3; event4] no_chunks = Done (tt, s') /\
    indexes s' (fold_left chunk_effect [event1; event2; event3; event4] ∅) /\
    find_linear_malloc_rec 0x7110 (recs (linear_malloc s')) (nrecs_used (linear_malloc s')) = Some 0%nat.
Proof.
  destruct (linear_index_refines (B := debug) [event1; event2; event3; event4] no_chunks ∅) as (s' & E' & I & F & N).
  - apply no_chunks_ok.
  - apply (admissible_step no_chunks chunks1); [split; [done|by vm_compute|by apply layout_test_ok; vm_compute|lia|by vm_compute]|by vm_compute|].
    apply (admissible_step chunks1 chunks2); [split; [by vm_compute|by vm_compute|by apply layout_test_ok; vm_compute|lia|by vm_compute]|by vm_compute|].
    apply (admissible_step chunks2 chunks3); [split; [by vm_compute; eexists|split; [lia|]]|by vm_compute|].
    { split; [by vm_compute|by vm_compute|by apply layout_test_ok; vm_compute|lia|by vm_compute]. }
    apply (admissible_step chunks3 chunks4); [by vm_compute; eexists|by vm_compute|done].
  - exists s'. split_and!; [done|done|]. destruct (F 0x7100 40 0x403000 0x7110) as (i & Ei & Ui); [by vm_compute|lia|].
    rewrite Ei. f_equal. apply lookup_lt_Some in Ui. rewrite (Permutation_length (ix_chunks _ _ I)) in Ui. vm_compute in Ui. lia.
Defined.

(** A chunk with a second policy attached. *)
#[local] Existing Instances words64 heap_env.
Definition shared_heap : gstate := set_mem {[insert_at (fun _ => 64) 0x10200 := set_lifetime_policies 3 0]} (heap marked_info).

Lemma shared_chunk : indexed_chunk (fun _ => 64) 90 shared_heap 7 1 0x10200.
Proof.
  split; [apply heap_table_ok|apply heap_table_ok|done|apply heap_arena; by_eval|by_eval| |apply marked_info_ok|apply heap_marked|by_eval].
  left. split; [reflexivity|]. intros j (U & _ & A). live_cases U heap_used. vm_compute in A. discriminate A.
Qed.

Lemma free_by_policies_witness :
  exists g', pre_nonnull_free (MI := events_index (fun _ => 64) 90 0) 1 0x10200 64 shared_heap = Done (true, g') /\
    (starts_chunk (info g' 7) 0x10200 <-> starts_chunk (info shared_heap 7) 0x10200 /\ (2 <> 0 \/ 0x10200 <> 0x10200)).
Proof.
  destruct (free_by_policies (fun _ => 64) 90 0 shared_heap 7 1 0x10200 1 shared_chunk) as (g' & E' & _ & _ & _ & St); [done|].
  exists g'. split; [exact E'|]. exact (St 0x10200).
Defined.
