(* ===== verification/LdSo.v ===== *)
(** The dynamic linker's malloc: src/src/allocators/ld-so-malloc.c.

    The chunks are in the linear index; this file gives them an arena, a
    bigalloc after the end of the linker's file or over a whole anonymous
    mapping, and answers queries.  Once started up it interposes on the
    functions that allocsld kept pointers to.  Those functions, reached through
    pointers, and the addresses of the replacements are parameters.  Output is
    dropped.

    [ensure_bigalloc_for_userptr] declares local variables of the name
    [__ld_so_brk_bigalloc], so that the global of that name is never written. *)
From stdpp Require Import strings.
From S2P Require Import Prelude Vas BigAlloc PageIndex PageIndexQuery MappingSeq Mmap Brk AllocSites.
From S2P Require Import MallocMeta Uniqtype Subobject Query StaticData Linear.

(** The pointers to the four functions. *)
Record malloc_functions := MallocFunctions { f_malloc : Z; f_calloc : Z; f_realloc : Z; f_free : Z }.

Record ldstate := LdState {
  ld_static : sstate;
  ld_linear : lstate;
  (** [*ld_so_malloc_index_info->p_orig_malloc] and the others *)
  orig : malloc_functions;
  orig_orig : malloc_functions;
  __ld_so_brk_bigalloc : Z;
  ld_so_nominal_caller_address : Z;
  ld_so_done_init : bool;
}.

Definition set_ld_static (s : sstate) (x : ldstate) : ldstate :=
  LdState s (ld_linear x) (orig x) (orig_orig x) (__ld_so_brk_bigalloc x) (ld_so_nominal_caller_address x) (ld_so_done_init x).
Definition set_originals (o oo : malloc_functions) (x : ldstate) : ldstate :=
  LdState (ld_static x) (ld_linear x) o oo (__ld_so_brk_bigalloc x) (ld_so_nominal_caller_address x) (ld_so_done_init x).
Definition set_nominal_caller (c : Z) (x : ldstate) : ldstate :=
  LdState (ld_static x) (ld_linear x) (orig x) (orig_orig x) (__ld_so_brk_bigalloc x) c (ld_so_done_init x).
Definition set_ld_done (x : ldstate) : ldstate :=
  LdState (ld_static x) (ld_linear x) (orig x) (orig_orig x) (__ld_so_brk_bigalloc x) (ld_so_nominal_caller_address x) true.

Definition on_ld_static {A} (m : M sstate A) : M ldstate A := fun x =>
  match m (ld_static x) with
  | Done (a, s) => Done (a, set_ld_static s x)
  | Abort => Abort
  | NoFuel => NoFuel
  end.
Definition on_ld_table {A} (m : M state A) : M ldstate A := on_ld_static (on_stable m).

Class LdsoEnv := {
  ld_so_malloc_allocator : Z;
  ld_so_brk_allocator : Z;
  (** the end of a file's last segment, relative to its load address *)
  vaddr_end : allocs_file_metadata -> Z;
  tls_get_addr : Z;
  (** the addresses of the functions below *)
  creating_bigalloc : malloc_functions;
  (** a call through a pointer to one of the linker's functions *)
  call_malloc : Z -> Z -> M ldstate Z;
  call_calloc : Z -> Z -> Z -> M ldstate Z;
  call_realloc : Z -> Z -> Z -> M ldstate Z;
  call_free : Z -> Z -> M ldstate unit;
}.

(** What a query sets: base, size, and type or site. *)
Record ld_so_info := LdSoInfo { li_base : Z; li_size : Z; li_type : option Z; li_site : option Z }.

Section ops.
Context {V : Vas} {H : Hooks} {B : Build} {E : MmapEnv} {SE : SiteEnv} {St : StaticEnv} {L : LdsoEnv}.

Definition ld_so_ensure_big (addr size : Z) : M ldstate Z := abort.
Definition ld_so_set_type (maybe_the_allocation obj new_type : Z) : M ldstate unit := abort.

Definition ld_so_arena_info_for_userptr (userptr : Z) : M ldstate Z :=
  gets (fun x => ld_so_malloc_index_info (ld_static x)).

(** The new arena, with the index as its private data; without a record to
    write to, the access faults. *)
Definition arena_bigalloc (begin size parent : Z) : M ldstate Z :=
  b ← on_ld_table (__liballocs_new_bigalloc begin size 0 0 parent ld_so_brk_allocator);
  assert (negb (b =? 0)) ;;
  (if b =? 0 then abort else mret tt) ;;
  on_ld_table (wr b (set_suballocator ld_so_malloc_allocator)) ;;
  info ← gets (fun x => ld_so_malloc_index_info (ld_static x));
  assert (negb (info =? 0)) ;;
  on_ld_table (wr b (fun r => set_suballocator_private info (suballocator_private_free r) r)) ;;
  mret b.

(** Looking for a file among the bigallocs of the mapping. *)
Fixpoint arena_after_file (fuel : nat) (child_b addr : Z) : M ldstate Z :=
  match fuel with
  | O => nofuel
  | S fuel =>
    if child_b =? 0 then abort else
    r ← on_ld_table (rd id child_b);
    if (b_begin r <=? addr) && (addr <? b_end r) then abort else
    if allocated_by r =? static_file_allocator then
      file ← on_ld_static (rd_file (allocator_private r));
      assert (wrap64 (m_l_addr file + vaddr_end file) <=? addr) ;;
      p ← on_ld_static (rd_bigalloc (parent r));
      let sz := wrap64 (b_end p - b_end r) in
      assert (0 <? sz) ;;
      arena_bigalloc (b_end r) sz (parent r)
    else arena_after_file fuel (next_sib r) addr
  end.

Definition ensure_bigalloc_for_userptr (addr : Z) : M ldstate Z :=
  found_mapping_b ← on_ld_table (__lookup_bigalloc_from_root addr mmap_allocator);
  assert (negb (found_mapping_b =? 0)) ;;
  if found_mapping_b =? 0 then abort else
  found_our_brk_b ← on_ld_table (__lookup_bigalloc_under_by_suballocator addr ld_so_malloc_allocator found_mapping_b);
  if negb (found_our_brk_b =? 0) then mret found_our_brk_b else
  r ← on_ld_table (rd id found_mapping_b);
  q ← on_ld_static (on_smmap (on_seq (allocator_private r) (gets id)));
  match seq_filename q with
  | None => arena_bigalloc (b_begin r) (wrap64 (b_end r - b_begin r)) found_mapping_b
  | Some _ => arena_after_file FUEL (first_child r) addr
  end.

(** ** The replacements *)

Definition malloc_creating_bigalloc (sz : Z) : M ldstate Z :=
  f ← gets orig_orig;
  ret ← call_malloc (f_malloc f) sz;
  (if negb (ret =? 0) then ensure_bigalloc_for_userptr ret ;; mret tt else mret tt) ;;
  mret ret.
Definition calloc_creating_bigalloc (arg1 arg2 : Z) : M ldstate Z :=
  f ← gets orig_orig;
  ret ← call_calloc (f_calloc f) arg1 arg2;
  (if negb (ret =? 0) then ensure_bigalloc_for_userptr ret ;; mret tt else mret tt) ;;
  mret ret.
Definition realloc_creating_bigalloc (ptr sz : Z) : M ldstate Z :=
  f ← gets orig_orig;
  ret ← call_realloc (f_realloc f) ptr sz;
  (if negb (ret =? 0) then ensure_bigalloc_for_userptr ret ;; mret tt else mret tt) ;;
  mret ret.
Definition free_creating_bigalloc (ptr : Z) : M ldstate unit :=
  ensure_bigalloc_for_userptr ptr ;;
  f ← gets orig_orig;
  call_free (f_free f) ptr.

(** ** Queries *)

(** The type is made from the address of the insert. *)
Definition linear_malloc_get_info (obj deepest_bigalloc : Z) : M ldstate (option ld_so_info) :=
  r ← on_ld_static (rd_bigalloc deepest_bigalloc);
  let arena := if allocated_by r =? ld_so_malloc_allocator then parent r else deepest_bigalloc in
  assert (negb (arena =? 0)) ;;
  a ← on_ld_table (rd id arena);
  info ← gets (fun x => ld_so_malloc_index_info (ld_static x));
  assert (suballocator a =? ld_so_malloc_allocator) ;;
  assert (negb (suballocator_private a =? 0)) ;;
  assert (suballocator_private a =? info) ;;
  x ← gets (fun x => linear_malloc (ld_linear x));
  match find_linear_malloc_rec obj (recs x) (nrecs_used x) ≫= (fun i => recs x !! i) with
  | None => mret None
  | Some found =>
    let heap_info := insert_for_chunk_and_caller_usable_size (rec_addr found)
      (wrap32 (caller_requested_size found + padding_to_caller_usable_size found)) in
    i ← gets (fun x => l_load (ld_linear x) heap_info);
    mret (Some (LdSoInfo (rec_addr found) (caller_requested_size found)
      (if INSERT_IS_WITH_TYPE i then Some (UNIQTYPE_UNSHIFT_FROM_INSERT heap_info) else None)
      (if negb (INSERT_IS_WITH_TYPE i) then Some (initial_alloc_site i) else None)))
  end.
Definition ld_so_get_info (obj maybe_the_allocation : Z) : M ldstate (option ld_so_info) :=
  linear_malloc_get_info obj maybe_the_allocation.

Definition ld_so_brk_get_info : M ldstate ld_so_info :=
  x ← gets id;
  if __ld_so_brk_bigalloc x =? 0 then abort else
  r ← on_ld_table (rd id (__ld_so_brk_bigalloc x));
  mret (LdSoInfo (b_begin r) (wrap64 (b_end r - b_begin r)) (Some 0) (Some (ld_so_nominal_caller_address x))).

(** ** Start-up *)

Fixpoint ensure_recs (fuel : nat) (i : Z) : M ldstate unit :=
  match fuel with
  | O => nofuel
  | S fuel =>
    x ← gets (fun x => linear_malloc (ld_linear x));
    if i <? nrecs_used x then
      match recs x !! Z.to_nat i with
      | None => abort
      | Some r => ensure_bigalloc_for_userptr (rec_addr r) ;; ensure_recs fuel (i + 1)
      end
    else mret tt
  end.

Definition __ld_so_malloc_allocator_init : M ldstate unit :=
  x ← gets id;
  if ld_so_done_init x then mret tt else
  if ld_so_malloc_index_info (ld_static x) =? 0 then modify set_ld_done else
  modify (set_originals creating_bigalloc (orig x)) ;;
  ensure_recs (S (Z.to_nat MAX_LINEAR_MALLOCS)) 0 ;;
  found_ld_so_file_b ← on_ld_table (__lookup_bigalloc_from_root tls_get_addr static_file_allocator);
  assert (negb (found_ld_so_file_b =? 0)) ;;
  r ← on_ld_static (rd_bigalloc found_ld_so_file_b);
  modify (set_nominal_caller (b_begin r)) ;;
  modify set_ld_done.
End ops.
