(* ===== verification/LdSoTheorems.v ===== *)
(** The contract of the dynamic linker's malloc: giving its chunks an arena
    adds one bigalloc, and they are described from the linear index. *)
From stdpp Require Import strings.
From S2P Require Import Prelude DList Vas BigAlloc PageIndex PageIndexQuery BigAllocFacts Forest Traversal.
From S2P Require Import Attach Create Delete Resize QueryCorrect Reachable Demo MallocMeta MappingSeq.
From S2P Require Import MappingSeqFacts Mmap MmapFacts MapFacts Brk BrkFacts MappingTheorems AllocSites SequenceTheorems.
From S2P Require Import Uniqtype Subobject Query QueryFacts StaticData StaticFacts StaticLoad StaticTheorems Linear.
From S2P Require Import LinearFacts Events EventTheorems LdSo.

Definition ld_table (x : ldstate) : state := s_table (ld_static x).
Definition ld_mmap (x : ldstate) : mstate := s_mmap (ld_static x).
Definition set_ld_table (t : state) (x : ldstate) : ldstate := set_ld_static (set_s_table t (ld_static x)) x.

Lemma on_ld_static_read {A} (m : M sstate A) (x : ldstate) a :
  m (ld_static x) = Done (a, ld_static x) -> on_ld_static m x = Done (a, x).
Proof. unfold on_ld_static. intros ->. by destruct x. Qed.
Lemma on_ld_table_Done {A} (m : M state A) (x : ldstate) a t :
  m (ld_table x) = Done (a, t) -> on_ld_table m x = Done (a, set_ld_table t x).
Proof. intros Em. unfold on_ld_table, on_ld_static. by rewrite (on_stable_Done _ _ _ _ Em). Qed.
Lemma on_ld_table_read {A} (m : M state A) (x : ldstate) a :
  m (ld_table x) = Done (a, ld_table x) -> on_ld_table m x = Done (a, x).
Proof. intros Em. apply on_ld_static_read. by apply on_stable_read. Qed.

Class LdsoLaws (E : MmapEnv) (L : LdsoEnv) : Prop := {
  ld_so_malloc_nonnull : ld_so_malloc_allocator <> 0;
  ld_so_brk_other : ld_so_brk_allocator <> mmap_allocator;
}.

Section arena.
Context {V : Vas} {VL : VasLaws V} {H : Hooks} {E : MmapEnv} {EL : MmapLaws E} {SE : SiteEnv} {St : StaticEnv}.
Context {L : LdsoEnv} {LL : LdsoLaws E L}.
#[local] Existing Instance release.

(** ** Finding the arena *)

(** The only bigalloc below [b] around [a] that the linker's malloc divides. *)
Lemma under_arena t b c a : wf t -> used t b -> contains t b a -> used t c -> parent (ba t c) = b -> contains t c a ->
  suballocator (ba t c) = ld_so_malloc_allocator -> suballocator (ba t b) <> ld_so_malloc_allocator ->
  __lookup_bigalloc_under_by_suballocator a ld_so_malloc_allocator b t = Done (c, t).
Proof.
  intros W Ub Cb Uc Pc Cc Sc Sb. unfold __lookup_bigalloc_under_by_suballocator. rewrite (bind_Done _ _ t tt t) by done.
  pose proof (used_nonzero t b W Ub) as Nb. unfold find_bigalloc_recursive. rewrite (proj2 (Z.eqb_neq b 0)) by done.
  destruct (find_bigalloc_rec_ok t a ld_so_malloc_allocator true W b Ub Cb) as (r & Er & Hr). rewrite Er. do 2 f_equal.
  assert (Ac : ancestor t b c) by (rewrite <- Pc; apply ancestor_parent; [done|by rewrite Pc]).
  destruct Hr as [[-> Hn]|[(Ur & Cr & Ar & An) Ht]]; [by destruct (Hn c)|]. cbn [allocator_of] in Ar.
  assert (Arc : ancestor t r c) by (by apply Ht).
  unfold ancestor in Arc. apply rtc_inv in Arc as [->|(y & (_ & Py & _) & Ay)]; [done|]. rewrite Pc in Py. subst y.
  destruct Sb. by rewrite (ancestor_antisym t b r W An Ay).
Qed.

Lemma under_nothing t b a : wf t -> used t b -> contains t b a ->
  (forall j, used t j -> contains t j a -> suballocator (ba t j) <> ld_so_malloc_allocator) ->
  __lookup_bigalloc_under_by_suballocator a ld_so_malloc_allocator b t = Done (0, t).
Proof.
  intros W Ub Cb Hn. unfold __lookup_bigalloc_under_by_suballocator. rewrite (bind_Done _ _ t tt t) by done.
  pose proof (used_nonzero t b W Ub) as Nb. unfold find_bigalloc_recursive. rewrite (proj2 (Z.eqb_neq b 0)) by done.
  destruct (find_bigalloc_rec_ok t a ld_so_malloc_allocator true W b Ub Cb) as (r & Er & [[-> _]|[(Ur & Cr & Ar & _) _]]); [done|].
  by destruct (Hn r).
Qed.

Lemma mapping_around x b p a : mmap_ok (ld_mmap x) -> owner (ld_mmap x) b p -> contains (ld_table x) b a ->
  on_ld_table (__lookup_bigalloc_from_root a mmap_allocator) x = Done (b, x).
Proof.
  intros K O C. apply on_ld_table_read. unfold __lookup_bigalloc_from_root. rewrite (bind_Done _ _ _ tt (ld_table x)) by done.
  by apply (find_mapping_ok (ld_mmap x) b p).
Qed.

(** ** Making the arena *)

Definition arena_meta (x : ldstate) (b lo hi : Z) :=
  (lo, hi, b, ld_so_brk_allocator, ld_so_malloc_allocator, 0, 0, ld_so_malloc_index_info (ld_static x), 0).

Lemma arena_bigalloc_ok x b lo hi :
  table_ok (ld_table x) -> room (ld_table x) 1 -> fits_under (ld_table x) b lo hi -> hi - lo <= BIGGEST_SANE_USER_ALLOC ->
  exists c t, arena_bigalloc lo (hi - lo) b x = Done (c, set_ld_table t x) /\ adds (ld_table x) t c (arena_meta x b lo hi).
Proof.
  intros Tk Rm Fit Hs. pose proof Fit as (Ub & Hr & _).
  assert (Nb : b <> 0) by by apply (used_nonzero (ld_table x) b (tk_wf _ Tk)).
  destruct (add_child_ok (ld_table x) lo (hi - lo) b 0 0 ld_so_brk_allocator Tk Rm Nb) as (c & t & Et & A); [lia| |].
  { unfold fits. rewrite decide_False by done. by replace (lo + (hi - lo)) with hi by lia. }
  set (t1 := upd c (set_suballocator ld_so_malloc_allocator) t).
  set (t2 := upd c (fun r => set_suballocator_private (ld_so_malloc_index_info (ld_static x)) (suballocator_private_free r) r) t1).
  replace (lo + (hi - lo)) with hi in A by lia.
  assert (A1 : adds (ld_table x) t1 c (lo, hi, b, ld_so_brk_allocator, ld_so_malloc_allocator, 0, 0, 0, 0)).
  { eapply adds_upd; [done|by intros []|]. pose proof (ad_self _ _ _ _ A) as Em. unfold meta in *. simpl. congruence. }
  assert (A2 : adds (ld_table x) t2 c (arena_meta x b lo hi)).
  { eapply adds_upd; [done|by intros []|]. pose proof (ad_self _ _ _ _ A1) as Em. unfold meta, arena_meta in *. simpl. congruence. }
  assert (Nc : c <> 0) by (apply (used_nonzero t c (tk_wf _ (ad_table _ _ _ _ A))), (ad_used _ _ _ _ A); by left).
  exists c, t2. split; [|done]. unfold arena_bigalloc. rewrite (bind_Done _ _ _ _ _ (on_ld_table_Done _ _ _ _ Et)).
  rewrite (bind_Done _ _ _ tt (set_ld_table t x)) by done. rewrite (proj2 (Z.eqb_neq c 0)) by done.
  rewrite (bind_Done _ _ _ tt (set_ld_table t x)) by done. rewrite (bind_Done _ _ _ tt (set_ld_table t1 x)) by done.
  rewrite (bind_Done _ _ _ (ld_so_malloc_index_info (ld_static x)) (set_ld_table t1 x)) by done.
  rewrite (bind_Done _ _ _ tt (set_ld_table t1 x)) by done. by rewrite (bind_Done _ _ _ tt (set_ld_table t2 x)).
Qed.

(** The first file among the children of a mapping, none before it or it around the address. *)
Lemma after_file_ok x b addr l1 F l2 f : wf (ld_table x) -> kids (ld_table x) b (l1 ++ F :: l2) ->
  (forall c, c ∈ l1 -> allocated_by (ba (ld_table x) c) <> static_file_allocator) ->
  (forall c, c ∈ l1 ++ [F] -> ~ contains (ld_table x) c addr) ->
  allocated_by (ba (ld_table x) F) = static_file_allocator ->
  afiles (ld_static x) !! allocator_private (ba (ld_table x) F) = Some f ->
  b <> 0 -> b_end (ba (ld_table x) F) <= b_end (ba (ld_table x) b) -> 0 <= b_end (ba (ld_table x) F) -> b_end (ba (ld_table x) b) < 2 ^ 64 ->
  arena_after_file FUEL (first_child (ba (ld_table x) b)) addr x =
    arena_bigalloc (b_end (ba (ld_table x) F)) (b_end (ba (ld_table x) b) - b_end (ba (ld_table x) F)) b x.
Proof.
  intros W K Hl1 Hc HF Ef Nb He H0 H64. pose proof (kids_length _ _ _ W K) as Len. rewrite FUEL_eq.
  assert (Hfu : (length l1 < 2 * NB + 4)%nat) by (rewrite length_app in Len; simpl in Len; lia). clear Len.
  pose proof K as (_ & [last C] & Kin). assert (PF : parent (ba (ld_table x) F) = b) by (apply Kin; set_solver).
  assert (Nz : forall c, c ∈ l1 ++ [F] -> c <> 0).
  { intros c Hin. apply (used_nonzero (ld_table x) c W), Kin. set_solver. }
  clear Kin K. enough (G : forall fuel p pp, (length l1 < fuel)%nat -> dseg (ld_table x) pp p last 0 (l1 ++ F :: l2) ->
    arena_after_file fuel p addr x =
      arena_bigalloc (b_end (ba (ld_table x) F)) (b_end (ba (ld_table x) b) - b_end (ba (ld_table x) F)) b x) by (by apply (G _ _ 0)).
  clear Hfu C. induction l1 as [|c l1 IH]; intros fuel p pp Hfu C; destruct fuel as [|fuel]; [lia| |lia|]; cbn [arena_after_file].
  - destruct C as (-> & _). rewrite (proj2 (Z.eqb_neq F 0)) by (apply Nz; set_solver).
    rewrite (bind_Done _ _ x (ba (ld_table x) F) x) by (by apply on_ld_table_read).
    rewrite (proj2 (andb_false_iff _ _)).
    2: { specialize (Hc F ltac:(set_solver)). unfold contains in Hc.
         destruct (Z.leb_spec (b_begin (ba (ld_table x) F)) addr); [right; apply Z.ltb_ge; lia|by left]. }
    rewrite HF, Z.eqb_refl. rewrite (bind_Done _ _ x f x) by (by apply on_ld_static_read, rd_file_ok).
    rewrite (bind_Done _ _ x tt x) by done. rewrite PF.
    rewrite (bind_Done _ _ x (ba (ld_table x) b) x) by (by apply on_ld_static_read, rd_bigalloc_ok).
    rewrite wrap_small by lia. by rewrite (bind_Done _ _ x tt x).
  - destruct C as (-> & _ & C). rewrite (proj2 (Z.eqb_neq c 0)) by (apply Nz; set_solver).
    rewrite (bind_Done _ _ x (ba (ld_table x) c) x) by (by apply on_ld_table_read).
    rewrite (proj2 (andb_false_iff _ _)).
    2: { specialize (Hc c ltac:(set_solver)). unfold contains in Hc.
         destruct (Z.leb_spec (b_begin (ba (ld_table x) c)) addr); [right; apply Z.ltb_ge; lia|by left]. }
    rewrite (proj2 (Z.eqb_neq _ static_file_allocator)) by (apply Hl1; set_solver).
    apply (IH ltac:(set_solver) ltac:(set_solver) ltac:(set_solver) fuel _ c); [simpl in Hfu; lia|done].
Qed.
End arena.

Section theorems.
Context {V : Vas} {VL : VasLaws V} {H : Hooks} {E : MmapEnv} {EL : MmapLaws E} {SE : SiteEnv} {SL : SiteLaws SE} {St : StaticEnv}.
Context {L : LdsoEnv} {LL : LdsoLaws E L}.
#[local] Existing Instance release.

(** Where the arena around [addr] goes in the mapping [b]: all of an anonymous
    mapping, or what follows the first file in it. *)
Inductive arena_range (x : ldstate) (b addr : Z) (q : mapping_sequence) : Z -> Z -> Prop :=
| range_anonymous :
    seq_filename q = None -> arena_range x b addr q (b_begin (ba (ld_table x) b)) (b_end (ba (ld_table x) b))
| range_after_file name l1 F l2 f :
    seq_filename q = Some name -> kids (ld_table x) b (l1 ++ F :: l2) ->
    (forall c, c ∈ l1 -> allocated_by (ba (ld_table x) c) <> static_file_allocator) ->
    (forall c, c ∈ l1 ++ [F] -> ~ contains (ld_table x) c addr) ->
    allocated_by (ba (ld_table x) F) = static_file_allocator ->
    afiles (ld_static x) !! allocator_private (ba (ld_table x) F) = Some f ->
    arena_range x b addr q (b_end (ba (ld_table x) F)) (b_end (ba (ld_table x) b)).

(** A chunk of the linker's malloc without an arena, in a mapping with room for one. *)
Record arena_place (x : ldstate) (b p addr lo hi : Z) : Prop := {
  ap_mmap : mmap_ok (ld_mmap x);
  ap_owner : owner (ld_mmap x) b p;
  ap_contains : contains (ld_table x) b addr /\ lo <= addr < hi;
  ap_none j : used (ld_table x) j -> contains (ld_table x) j addr -> suballocator (ba (ld_table x) j) <> ld_so_malloc_allocator;
  ap_range : exists q, sequences (ld_mmap x) !! p = Some q /\ arena_range x b addr q lo hi;
  ap_fits : fits_under (ld_table x) b lo hi /\ hi - lo <= BIGGEST_SANE_USER_ALLOC;
  ap_room : room (ld_table x) 1;
}.

Lemma arena_range_made x b p addr lo hi q : arena_place x b p addr lo hi -> arena_range x b addr q lo hi ->
  match seq_filename q with
  | None => arena_bigalloc (b_begin (ba (ld_table x) b)) (wrap64 (b_end (ba (ld_table x) b) - b_begin (ba (ld_table x) b))) b
  | Some _ => arena_after_file FUEL (first_child (ba (ld_table x) b)) addr
  end x = arena_bigalloc lo (hi - lo) b x.
Proof.
  intros P R. pose proof (tk_wf _ (mk_table _ (ap_mmap _ _ _ _ _ _ P))) as W. change (m_table (ld_mmap x)) with (ld_table x) in W.
  destruct (ap_owner _ _ _ _ _ _ P) as (Ub & _). change (m_table (ld_mmap x)) with (ld_table x) in Ub.
  pose proof (wf_bounds _ W b Ub). destruct max_user_address_spec as [[_ ?] _].
  destruct (ap_fits _ _ _ _ _ _ P) as [(_ & Hr & Hb & He & _) _].
  destruct R as [->|name l1 F l2 f -> Kd Hl Hc HF Ef]; [by rewrite wrap_small by lia|].
  apply (after_file_ok x b addr l1 F l2 f); try done; try lia. by apply (used_nonzero (ld_table x)).
Qed.

Lemma arena_made x b p addr lo hi : arena_place x b p addr lo hi ->
  exists c t, ensure_bigalloc_for_userptr addr x = Done (c, set_ld_table t x) /\ adds (ld_table x) t c (arena_meta x b lo hi).
Proof.
  intros P. pose proof (ap_mmap _ _ _ _ _ _ P) as K. pose proof (mk_table _ K) as Tk. change (m_table (ld_mmap x)) with (ld_table x) in Tk.
  pose proof (ap_owner _ _ _ _ _ _ P) as O. pose proof O as (Ub & _ & Ep). change (m_table (ld_mmap x)) with (ld_table x) in Ub, Ep.
  destruct (ap_contains _ _ _ _ _ _ P) as [Cb _]. destruct (ap_range _ _ _ _ _ _ P) as (q & Eq & R), (ap_fits _ _ _ _ _ _ P) as [Fit Hs].
  destruct (arena_bigalloc_ok x b lo hi Tk (ap_room _ _ _ _ _ _ P) Fit Hs) as (c & t & Ec & A). exists c, t. split; [|done].
  unfold ensure_bigalloc_for_userptr. rewrite (bind_Done _ _ _ _ _ (mapping_around x b p addr K O Cb)).
  rewrite (bind_Done _ _ x tt x) by done. rewrite (proj2 (Z.eqb_neq b 0)) by (by apply (used_nonzero (ld_table x) b (tk_wf _ Tk))).
  rewrite (bind_Done _ _ x 0 x) by (apply on_ld_table_read, under_nothing; [apply Tk|done|done|apply (ap_none _ _ _ _ _ _ P)]).
  cbn [Z.eqb negb]. rewrite (bind_Done _ _ x (ba (ld_table x) b) x) by (by apply on_ld_table_read).
  rewrite Ep, (bind_Done _ _ x q x) by (apply on_ld_static_read, on_smmap_read; by apply (on_seq_read p (gets id) _ q q Eq)).
  rewrite <- Ec. by apply (arena_range_made x b p addr lo hi).
Qed.

Lemma arena_found x b p addr lo hi c t a : arena_place x b p addr lo hi -> adds (ld_table x) t c (arena_meta x b lo hi) ->
  mmap_ok (ld_mmap (set_ld_table t x)) -> lo <= a < hi -> ensure_bigalloc_for_userptr a (set_ld_table t x) = Done (c, set_ld_table t x).
Proof.
  intros P A K' Ha. destruct (ap_owner _ _ _ _ _ _ P) as (Ub & Ab & Ep). change (m_table (ld_mmap x)) with (ld_table x) in *.
  destruct (ap_contains _ _ _ _ _ _ P) as [Cb _], (ap_fits _ _ _ _ _ _ P) as [(_ & Hr & Hb & He & _) _].
  pose proof (ad_self _ _ _ _ A) as [= B1 B2 B3 B4 B5 _ _ _ _].
  assert (Nc : b <> c) by (intros ->; by apply (ad_new _ _ _ _ A)). pose proof (ad_meta _ _ _ _ A b Nc) as [= C1 C2 C3 C4 C5 C6 _ _ _].
  assert (Ub' : used t b) by (apply (ad_used _ _ _ _ A); by right). assert (Uc : used t c) by (apply (ad_used _ _ _ _ A); by left).
  assert (Cb' : contains t b a) by (unfold contains; rewrite C1, C2; lia).
  unfold ensure_bigalloc_for_userptr. rewrite (bind_Done _ _ _ b (set_ld_table t x)).
  2: { apply (mapping_around _ b p); [done| |done]. change (used t b /\ allocated_by (ba t b) = mmap_allocator /\ allocator_private (ba t b) = p).
       by rewrite C4, C6. }
  rewrite (bind_Done _ _ _ tt (set_ld_table t x)) by done. pose proof (tk_wf _ (ad_table _ _ _ _ A)) as Wt.
  rewrite (proj2 (Z.eqb_neq b 0)) by (by apply (used_nonzero t b)). rewrite (bind_Done _ _ _ c (set_ld_table t x)).
  - by rewrite (proj2 (Z.eqb_neq c 0)) by (by apply (used_nonzero t c)).
  - apply on_ld_table_read. apply (under_arena t b c a); [done..|unfold contains; lia|done|].
    rewrite C5. by apply (ap_none _ _ _ _ _ _ P).
Qed.

(** The answer for a chunk whose insert is taken to be [u] bytes after its start. *)
Definition info_from (l : lstate) (p n u : Z) : ld_so_info :=
  let heap_info := insert_for_chunk_and_caller_usable_size p u in
  let i := l_load l heap_info in
  LdSoInfo p n (if INSERT_IS_WITH_TYPE i then Some (UNIQTYPE_UNSHIFT_FROM_INSERT heap_info) else None)
    (if negb (INSERT_IS_WITH_TYPE i) then Some (initial_alloc_site i) else None).

Lemma get_info_runs x b a : b <> 0 ->
  let l := linear_malloc (ld_linear x) in
  ld_so_get_info a b x = Done (match find_linear_malloc_rec a (recs l) (nrecs_used l) ≫= (fun i => recs l !! i) with
  | None => None
  | Some r => Some (info_from (ld_linear x) (rec_addr r) (caller_requested_size r)
                      (wrap32 (caller_requested_size r + padding_to_caller_usable_size r)))
  end, x).
Proof.
  intros Nb l. unfold ld_so_get_info, linear_malloc_get_info.
  rewrite (bind_Done _ _ x (ba (ld_table x) b) x) by (by apply on_ld_static_read, rd_bigalloc_ok).
  do 6 rewrite (bind_Done _ _ x _ x) by (done || by apply on_ld_table_read).
  rewrite (bind_Done _ _ x l x) by done. by destruct (find_linear_malloc_rec a (recs l) (nrecs_used l) ≫= _).
Qed.

Lemma chunk_info x m b p n c a : indexes (ld_linear x) m -> b <> 0 -> m !! p = Some (n, c) -> p <= a < p + n ->
  ld_so_get_info a b x = Done (Some (info_from (ld_linear x) p n (wrap32 (usable n))), x).
Proof.
  intros I Nb Hp Ha. rewrite get_info_runs by done. destruct (find_chunk (ld_linear x) m p n c a I Hp Ha) as (i & -> & Ei).
  cbn [mbind option_bind]. rewrite (used_lookup _ _ _ Ei). cbn [rec_addr caller_requested_size padding_to_caller_usable_size].
  by replace (n + (usable n - n)) with (usable n) by lia.
Qed.

Lemma chunk_described x m b : indexes (ld_linear x) m -> b <> 0 ->
  (forall p n c a, m !! p = Some (n, c) -> p <= a < p + n ->
     (n <= 2 ^ 32 - 8 -> ld_so_get_info a b x = Done (Some (LdSoInfo p n None (Some c)), x)) /\
     (2 ^ 32 - 8 < n -> ld_so_get_info a b x = Done (Some (info_from (ld_linear x) p n 0), x))) /\
  (forall a, (forall p n c, m !! p = Some (n, c) -> ~ p <= a < p + n) -> ld_so_get_info a b x = Done (None, x)).
Proof.
  intros I Nb. split.
  - intros p n c a Hp Ha. rewrite (chunk_info x m b p n c a I Nb Hp Ha).
    destruct (lc_size _ (ix_layout _ _ I) _ _ _ Hp) as (? & ? & ?). pose proof (usable_spec n). unfold sizeof_insert in *. split.
    + intros Hn. pose proof (usable_small n Hn). unfold info_from, insert_for_chunk_and_caller_usable_size. rewrite !wrap_small by (rewrite ?wrap_small; lia).
      destruct (ix_sites _ _ I p n c Hp) as [Es Ew]. unfold site_of in Es, Ew. by rewrite Ew, Es.
    + intros Hn. by rewrite usable_large by lia.
  - intros a Hn. rewrite get_info_runs by done. by rewrite (find_nothing (ld_linear x) m a I Hn).
Qed.

(** C37.  Making sure of an arena for a chunk of the linker's malloc adds one
    bigalloc, the rest of the mapping after the linker's file or all of an
    anonymous mapping, divided by that malloc, and changes no other record and
    no mapping.  Asked again anywhere in the range, the same arena is returned;
    a query there gives base, size and site of the chunk around the address,
    or an error where there is none.  A chunk of more than [2^32 - 8] bytes,
    whose usable size wraps to 0 in 32 bits, is the exception: base and size
    are right, but its first word is read as if it were the insert.  The chunk
    lies in a recorded mapping in which that malloc has no arena around it, the
    arena's range is free below the mapping and of sane size, and a record is
    free ([arena_place]); the linear index holds the chunks of [m], which are
    disjoint, smaller than 4 GB and start within 2 GB of each other
    ([indexes]). *)
Theorem ld_so_chunks_described x b p addr lo hi m : arena_place x b p addr lo hi -> indexes (ld_linear x) m ->
  exists c x', ensure_bigalloc_for_userptr addr x = Done (c, x') /\ ld_linear x' = ld_linear x /\
    adds (ld_table x) (ld_table x') c (arena_meta x b lo hi) /\ mmap_ok (ld_mmap x') /\
    (forall a y, maps_to (ld_mmap x') a y <-> maps_to (ld_mmap x) a y) /\
    (forall a, lo <= a < hi -> ensure_bigalloc_for_userptr a x' = Done (c, x')) /\
    (forall q n site a, m !! q = Some (n, site) -> q <= a < q + n ->
       (n <= 2 ^ 32 - 8 -> ld_so_get_info a c x' = Done (Some (LdSoInfo q n None (Some site)), x')) /\
       (2 ^ 32 - 8 < n -> ld_so_get_info a c x' = Done (Some (info_from (ld_linear x') q n 0), x'))) /\
    (forall a, (forall q n site, m !! q = Some (n, site) -> ~ q <= a < q + n) -> ld_so_get_info a c x' = Done (None, x')).
Proof.
  intros P I. destruct (arena_made x b p addr lo hi P) as (c & t & Ec & A). exists c, (set_ld_table t x).
  destruct (adds_mmap_ok (ld_mmap x) t c (arena_meta x b lo hi) (ap_mmap _ _ _ _ _ _ P) A) as [K' M'].
  { pose proof (ad_self _ _ _ _ A) as [= _ _ _ -> _ _ _ _ _]. apply ld_so_brk_other. }
  assert (Nc : c <> 0) by (apply (used_nonzero t c (tk_wf _ (ad_table _ _ _ _ A))), (ad_used _ _ _ _ A); by left).
  destruct (chunk_described (set_ld_table t x) m c I Nc) as [D1 D2].
  split_and!; [done|done|done|done|done| |done|done]. intros a Ha. by apply (arena_found x b p addr lo hi).
Qed.

(** The variable that a query of the linker's own area reads is never set:
    making an arena leaves it null, and the query then ends the program. *)
Lemma ld_so_brk_query_aborts x b p addr lo hi c x' : arena_place x b p addr lo hi -> __ld_so_brk_bigalloc x = 0 ->
  ensure_bigalloc_for_userptr addr x = Done (c, x') -> ld_so_brk_get_info x' = Abort.
Proof.
  intros P E0. destruct (arena_made x b p addr lo hi P) as (c' & t & -> & _). intros [= <- <-].
  unfold ld_so_brk_get_info, gets, mbind, M_bind. cbn. by rewrite E0.
Qed.

(** Freeing a null pointer through the replacement ends the program, once system calls are trapped. *)
Lemma free_null_aborts x : systrap_is_initialized = true -> table_ok (ld_table x) -> free_creating_bigalloc 0 x = Abort.
Proof.
  intros Sys [W I _ _]. unfold free_creating_bigalloc, ensure_bigalloc_for_userptr. rewrite bind_bind.
  rewrite (bind_Done _ _ x 0 x); [by rewrite bind_bind, (bind_Done _ _ x tt x)|]. apply on_ld_table_read.
  unfold __lookup_bigalloc_from_root, find_bigalloc_from_root. rewrite (bind_Done _ _ _ tt (ld_table x)) by done.
  destruct (find_from_root_ok (ld_table x) 0 mmap_allocator false W I) as (r & Er & [[-> _]|[(U & C & _) _]]); [|apply mmap_allocator_nonnull|by right|done|].
  - assert (HP : PAGE_SIZE = 4096) by done. unfold user_address. destruct max_user_address_spec. lia.
  - pose proof (wf_bounds _ W r U). unfold contains in C. lia.
Qed.
End theorems.

(** ** Instances *)

#[local] Existing Instances trapped_hooks demo_mmap_env demo_mmap_laws demo_site_env demo_site_laws demo_static sort_env sort_laws.

#[local] Instance demo_ldso : LdsoEnv := {|
  ld_so_malloc_allocator := 61;
  ld_so_brk_allocator := 62;
  vaddr_end _ := 0x2000;
  tls_get_addr := 0x60010;
  creating_bigalloc := MallocFunctions 1 2 3 4;
  call_malloc _ _ := mret 0x61010;
  call_calloc _ _ _ := mret 0x61010;
  call_realloc _ _ _ := mret 0x61010;
  call_free _ _ := mret tt;
|}.
#[local] Instance demo_ldso_laws : LdsoLaws demo_mmap_env demo_ldso.
Proof. by split. Qed.

(** An anonymous mapping from 0x60000 to 0x62000 with a chunk of 24 bytes at 0x61010. *)
Definition demo_chunk : lstate := after_event (Allocated 0x61010 24 0x401000) no_chunks.
Definition demo_ld : ldstate :=
  LdState (SState (BState space_file 0 0 0 true false) no_sites ∅ ∅ 0 0 0x5f000 0 0) demo_chunk
    (MallocFunctions 11 12 13 14) (MallocFunctions 0 0 0 0) 0 0 false.

Lemma demo_chunk_ok : indexes demo_chunk {[0x61010 := (24, 0x401000)]}.
Proof.
  destruct (event_ok (B := debug) no_chunks ∅ (Allocated 0x61010 24 0x401000)) as (s' & E' & I'); [apply no_chunks_ok| |].
  - split; [done|by vm_compute|by apply layout_test_ok; vm_compute|lia|by vm_compute].
  - unfold demo_chunk, after_event. rewrite E'. exact I'.
Qed.

Lemma demo_place : arena_place demo_ld 5 1 0x61010 0x60000 0x62000.
Proof.
  split.
  - exact space_file_ok.
  - by_eval.
  - by_eval.
  - intros j U C A. pose proof (live_all (ld_table demo_ld) (fun j => negb (suballocator (ba (ld_table demo_ld) j) =? 61)) ltac:(by vm_compute) j U) as T.
    cbv beta in T. rewrite A in T. discriminate T.
  - exists (default zero_sequence (sequences space_file !! 1)). split; [by vm_compute|].
    replace 0x60000 with (b_begin (ba (ld_table demo_ld) 5)) by by_eval. replace 0x62000 with (b_end (ba (ld_table demo_ld) 5)) by by_eval.
    apply range_anonymous. by vm_compute.
  - split; [|by_eval]. split_and!; [by_eval..|]. intros c U P.
    pose proof (live_all (ld_table demo_ld) (fun c => negb (parent (ba (ld_table demo_ld) c) =? 5)) ltac:(by vm_compute) c U) as T.
    cbv beta in T. rewrite P in T. discriminate T.
  - exists [7]. split_and!; [by apply (bool_decide_unpack (NoDup [7]))|done|]. intros i ->%list_elem_of_singleton. split; [done|by_eval; by intros [? ?]].
Qed.

Lemma ld_so_chunks_described_witness :
  exists c x', ensure_bigalloc_for_userptr (B := release) 0x61010 demo_ld = Done (c, x') /\
    ensure_bigalloc_for_userptr (B := release) 0x60008 x' = Done (c, x') /\
    ld_so_get_info (B := release) 0x61018 c x' = Done (Some (LdSoInfo 0x61010 24 None (Some 0x401000)), x').
Proof.
  destruct (ld_so_chunks_described demo_ld 5 1 0x61010 0x60000 0x62000 {[0x61010 := (24, 0x401000)]} demo_place demo_chunk_ok)
    as (c & x' & Ec & _ & _ & _ & _ & Ea & Ed & _).
  exists c, x'. split_and!; [exact Ec|apply Ea; lia|]. apply (Ed 0x61010 24 0x401000 0x61018); [by vm_compute|lia|lia].
Defined.
