(* ===== verification/PrivateHeap.v ===== *)
(** liballocs's own heap: src/src/dlmalloc-ext.c, the wrappers around a private
    copy of dlmalloc.

    The file is compiled twice.  The no-mmap flavour never maps memory to serve
    an allocation: it takes memory from a region set aside at start-up, through
    an emulation of sbrk, and keeps a bitmap of its chunks, which lies in the
    region itself.  The region's bigalloc is [START] of the table.  dlmalloc is not in the repository: its functions are
    parameters on a state [D] of its own and may call [emulated_sbrk].  The
    words of the bitmap are a list per address, with the operations of the
    class [Bitmap].  Tracing is dropped. *)
From stdpp Require Import strings.
From S2P Require Import Prelude Vas Bitmap BigAlloc PageIndex PageIndexQuery MappingSeq Mmap MallocMeta.

Definition PRIVATE_MALLOC_ALIGN : Z := 16.
Definition MAP_NORESERVE : Z := 0x4000.
Definition ENOMEM : Z := 12.
(** [sizeof (struct mapping_sequence)] *)
Definition sizeof_mapping_sequence : Z := 416.

Record hstate (D : Type) := HState {
  h_mmap : mstate;
  bitmaps : gmap Z (list Z);
  nommap_malloc_heap_base : Z;
  nommap_malloc_heap_limit : Z;
  emulated_curbrk : Z;
  h_errno : Z;
  dlmalloc_state : D;
}.
Arguments HState {D}. Arguments h_mmap {D}. Arguments bitmaps {D}.
Arguments nommap_malloc_heap_base {D}. Arguments nommap_malloc_heap_limit {D}. Arguments emulated_curbrk {D}.
Arguments h_errno {D}. Arguments dlmalloc_state {D}.

Section state.
Context {D : Type}.

Definition set_h_mmap (m : mstate) (s : hstate D) : hstate D :=
  HState m (bitmaps s) (nommap_malloc_heap_base s) (nommap_malloc_heap_limit s) (emulated_curbrk s)
    (h_errno s) (dlmalloc_state s).
Definition set_bitmap (p : Z) (w : list Z) (s : hstate D) : hstate D :=
  HState (h_mmap s) (<[p := w]> (bitmaps s)) (nommap_malloc_heap_base s) (nommap_malloc_heap_limit s)
    (emulated_curbrk s) (h_errno s) (dlmalloc_state s).
Definition set_heap_range (base limit : Z) (s : hstate D) : hstate D :=
  HState (h_mmap s) (bitmaps s) base limit (emulated_curbrk s) (h_errno s) (dlmalloc_state s).
Definition set_curbrk (c : Z) (s : hstate D) : hstate D :=
  HState (h_mmap s) (bitmaps s) (nommap_malloc_heap_base s) (nommap_malloc_heap_limit s) c (h_errno s) (dlmalloc_state s).
Definition set_errno (e : Z) (s : hstate D) : hstate D :=
  HState (h_mmap s) (bitmaps s) (nommap_malloc_heap_base s) (nommap_malloc_heap_limit s) (emulated_curbrk s) e (dlmalloc_state s).
Definition set_dlmalloc_state (d : D) (s : hstate D) : hstate D :=
  HState (h_mmap s) (bitmaps s) (nommap_malloc_heap_base s) (nommap_malloc_heap_limit s) (emulated_curbrk s) (h_errno s) d.

Definition on_hmmap {A} (m : M mstate A) : M (hstate D) A := fun s =>
  match m (h_mmap s) with
  | Done (a, t) => Done (a, set_h_mmap t s)
  | Abort => Abort
  | NoFuel => NoFuel
  end.
Definition on_htable {A} (m : M state A) : M (hstate D) A := on_hmmap (on_bigallocs m).
End state.

(** The flavour: whether it is compiled with NOMMAP. *)
Class Flavour := { NOMMAP : bool }.

Class Dlmalloc (D : Type) := {
  __real_dlmalloc : Z -> M (hstate D) Z;
  __real_dlcalloc : Z -> Z -> M (hstate D) Z;
  __real_dlfree : Z -> M (hstate D) unit;
  __real_dlrealloc : Z -> Z -> M (hstate D) Z;
  __real_dlmemalign : Z -> Z -> M (hstate D) Z;
  (** the result, and what is stored through [memptr] if anything is *)
  __real_dlposix_memalign : Z -> Z -> M (hstate D) (Z * option Z);
  __real_dlmalloc_usable_size : Z -> M (hstate D) Z;
}.

Class HeapEnv := {
  private_nommap_malloc_allocator : Z;
  (** where the kernel maps a region of this size *)
  heap_mmap : Z -> Z;
  (** the address of the static mapping sequence *)
  heap_seq : Z;
  (** the words that a new block happens to hold *)
  block_words : Z -> Z -> list Z;
}.

Section sbrk.
Context {D : Type}.

(** [increment] is signed. *)
Definition emulated_sbrk (increment : Z) : M (hstate D) Z :=
  s ← gets id;
  when (emulated_curbrk s =? 0) (modify (set_curbrk (nommap_malloc_heap_base s))) ;;
  s ← gets id;
  let old_curbrk := emulated_curbrk s in
  let req_brk := wrap64 (old_curbrk + increment) in
  let flowed_over_or_under := (0 <? increment) && (req_brk <? old_curbrk) || (increment <? 0) && (old_curbrk <? req_brk) in
  let new_brk := if 0 <? increment then Z.min (nommap_malloc_heap_limit s) req_brk else Z.max (nommap_malloc_heap_base s) req_brk in
  if negb flowed_over_or_under && (new_brk =? req_brk) then
    modify (set_curbrk req_brk) ;; mret old_curbrk
  else
    modify (set_errno ENOMEM) ;; mret (2 ^ 64 - 1).
End sbrk.

Section ops.
Context {V : Vas} {H : Hooks} {B : Build} {E : MmapEnv} {BM : Bitmap} {D : Type} {F : Flavour} {DL : Dlmalloc D} {HE : HeapEnv}.

(** The bitmap at an address; none is there to change at a null or dangling pointer. *)
Definition on_bitmap (p : Z) (f : list Z -> list Z) : M (hstate D) unit := fun s =>
  match bitmaps s !! p with Some w => Done (tt, set_bitmap p (f w) s) | None => Abort end.

Definition rd_top (b : Z) : M (hstate D) big_allocation := if b =? 0 then abort else on_htable (rd id b).

Definition set_metadata (ptr size allocsite : Z) : M (hstate D) unit :=
  if negb NOMMAP then mret tt else
  b ← on_htable (__lookup_bigalloc_top_level ptr);
  assert (negb (b =? 0)) ;;
  r ← rd_top b;
  assert (allocated_by r =? mmap_allocator) ;;
  assert (wrap64 (ptr - b_begin r) mod PRIVATE_MALLOC_ALIGN =? 0) ;;
  assert (b_begin r <=? ptr) ;;
  on_bitmap (suballocator_private r) (fun w => bitmap_set_l w (wrap64 (ptr - b_begin r) / PRIVATE_MALLOC_ALIGN)).
Definition __private_nommap_malloc_set_metadata := set_metadata.

Definition clear_metadata (ptr : Z) : M (hstate D) unit :=
  if negb NOMMAP then mret tt else
  b ← on_htable (__lookup_bigalloc_top_level ptr);
  assertM (r ← rd_top b; mret (allocated_by r =? mmap_allocator)) ;;
  r ← rd_top b;
  on_bitmap (suballocator_private r) (fun w => bitmap_clear_l w (wrap64 (ptr - b_begin r) / PRIVATE_MALLOC_ALIGN)).

Definition __wrap_dlmalloc (size caller : Z) : M (hstate D) Z :=
  ret ← __real_dlmalloc size;
  when (negb (ret =? 0)) (set_metadata ret size caller) ;;
  mret ret.

Definition __wrap_dlcalloc (nmemb size caller : Z) : M (hstate D) Z :=
  ret ← __real_dlcalloc nmemb size;
  when (negb (ret =? 0)) (set_metadata ret size caller) ;;
  mret ret.

Definition __wrap_dlfree (ptr : Z) : M (hstate D) unit :=
  clear_metadata ptr ;;
  __real_dlfree ptr.

Definition __wrap_dlrealloc (ptr size caller : Z) : M (hstate D) Z :=
  when (negb (ptr =? 0)) (clear_metadata ptr) ;;
  if size =? 0 then __real_dlfree ptr ;; mret 0 else
  ret ← __real_dlrealloc ptr (wrap64 (size + sizeof_insert));
  when (negb (ret =? 0) && (0 <? size)) (set_metadata ret size caller) ;;
  mret ret.

Definition __wrap_dlmemalign (boundary size caller : Z) : M (hstate D) Z :=
  ret ← __real_dlmemalign boundary size;
  when (negb (ret =? 0)) (set_metadata ret size caller) ;;
  mret ret.

(** [memptr] is the value at the pointer before the call; the result and the value after it. *)
Definition __wrap_dlposix_memalign (memptr alignment size caller : Z) : M (hstate D) (Z * Z) :=
  r ← __real_dlposix_memalign alignment size;
  let memptr := default memptr (snd r) in
  when (negb (fst r =? 0)) (set_metadata memptr size caller) ;;
  mret (fst r, memptr).

Definition __wrap_dlmalloc_usable_size (userptr : Z) : M (hstate D) Z :=
  ret ← __real_dlmalloc_usable_size userptr;
  mret (wrap64 (ret - sizeof_insert)).

(** ** Setting the heap up *)

Definition heap_size : Z := ROUND_UP (NBIGALLOCS * 4 * sizeof_mapping_sequence / 3) PAGE_SIZE.

Definition heap_sequence (base limit : Z) : mapping_sequence :=
  let flags := Z.lor (Z.lor MAP_ANONYMOUS MAP_NORESERVE) MAP_PRIVATE in
  MappingSequence base limit None 1
    (MappingEntry base limit (Z.lor PROT_READ PROT_WRITE) (Z.ldiff flags MAP_NORESERVE) 0 true 0 ::
     replicate (MAPPING_SEQUENCE_MAX_LEN - 1) zero_mapping).

Definition bitmap_alloc_size_bytes (range_size_bytes : Z) : Z :=
  DIVIDE_ROUNDING_UP (DIVIDE_ROUNDING_UP range_size_bytes PRIVATE_MALLOC_ALIGN) 8 + sizeof_insert.

(** [site] is the address of the label after the call. *)
Definition create_private_nommap_malloc_heap (site : Z) : M (hstate D) Z :=
  let base := heap_mmap heap_size in
  let limit := wrap64 (base + heap_size) in
  (if MMAP_RETURN_IS_ERROR base then abort else mret tt) ;;
  modify (set_heap_range base limit) ;;
  on_hmmap (modify (set_sequence heap_seq (heap_sequence base limit))) ;;
  b ← on_hmmap (__add_mapping_sequence_bigalloc_with_seq heap_seq 0);
  on_htable (modify (set_START b)) ;;
  on_htable (wr b (set_suballocator private_nommap_malloc_allocator)) ;;
  r ← on_htable (rd id b);
  let bytes := bitmap_alloc_size_bytes (wrap64 (b_end r - b_begin r)) in
  p ← __real_dlmalloc bytes;
  when (negb (p =? 0)) (modify (set_bitmap p (block_words p bytes))) ;;
  on_htable (wr b (fun r => set_suballocator_private p (suballocator_private_free r) r)) ;;
  assert (negb (p =? 0)) ;;
  assert (base <=? p) ;;
  assert (wrap64 (p + bytes) <? limit) ;;
  set_metadata p bytes site ;;
  mret b.
End ops.
