(* ===== verification/PrivateHeapTheorems.v ===== *)
(** The contract of liballocs's own heap: its bitmap marks exactly the chunks
    that dlmalloc has handed out, and its break stays in the region. *)
From stdpp Require Import strings.
From S2P Require Import Prelude DList Vas Bitmap BigAlloc PageIndex PageIndexQuery BigAllocFacts Forest.
From S2P Require Import Traversal Attach Create Delete Resize QueryCorrect Reachable Demo MallocMeta.
From S2P Require Import MappingSeq MappingSeqFacts Mmap MmapFacts MapFacts Brk BrkFacts MappingTheorems AllocSites.
From S2P Require Import Uniqtype Subobject Query StaticData StaticFacts StaticLoad PrivateHeap.

(** ** The break *)

Section sbrk.
Context {D : Type}.

(** The break as the next call sees it. *)
Definition current_break (s : hstate D) : Z :=
  if emulated_curbrk s =? 0 then nommap_malloc_heap_base s else emulated_curbrk s.
Definition break_ok (s : hstate D) : Prop :=
  0 < nommap_malloc_heap_base s /\ nommap_malloc_heap_limit s < 2 ^ 63 /\
  nommap_malloc_heap_base s <= current_break s <= nommap_malloc_heap_limit s.

Lemma sbrk_ok s inc : break_ok s -> - 2 ^ 63 <= inc < 2 ^ 63 ->
  let old := current_break s in
  exists s', emulated_sbrk inc s =
    Done (if decide (nommap_malloc_heap_base s <= old + inc <= nommap_malloc_heap_limit s) then old else 2 ^ 64 - 1, s') /\
    s' = (if decide (nommap_malloc_heap_base s <= old + inc <= nommap_malloc_heap_limit s)
          then set_curbrk (old + inc) s else set_errno ENOMEM (set_curbrk old s)).
Proof.
  intros (Hb & Hl & Hc) Hi old. unfold emulated_sbrk. rewrite (bind_Done _ _ s s s) by done.
  set (s1 := set_curbrk old s).
  assert (E1 : when (emulated_curbrk s =? 0) (modify (set_curbrk (nommap_malloc_heap_base s))) s = Done (tt, s1)).
  { unfold when, s1, old, current_break. destruct (emulated_curbrk s =? 0); [done|]. by destruct s. }
  rewrite (bind_Done _ _ _ _ _ E1). rewrite (bind_Done _ _ s1 s1 s1) by done. cbn [s1 emulated_curbrk set_curbrk nommap_malloc_heap_base nommap_malloc_heap_limit].
  fold s1. eexists. split; [|done].
  assert (Hw : wrap64 (old + inc) = if decide (0 <= old + inc) then old + inc else old + inc + 2 ^ 64).
  { case_decide; [apply wrap_small; unfold old; lia|]. unfold wrap64, wrap. symmetry. apply (Z.mod_unique _ _ (-1)); unfold old in *; lia. }
  rewrite Hw. repeat case_decide; unfold old in *.
  - replace (negb _ && _) with true; [done|]. symmetry. rewrite andb_true_iff, negb_true_iff, orb_false_iff, !andb_false_iff, !Z.ltb_ge, Z.eqb_eq.
    destruct (Z.ltb_spec 0 inc); lia.
  - replace (negb _ && _) with false; [done|]. symmetry. rewrite andb_false_iff, negb_false_iff, orb_true_iff, !andb_true_iff, !Z.ltb_lt, Z.eqb_neq.
    destruct (Z.ltb_spec 0 inc); lia.
  - lia.
  - replace (negb _ && _) with false; [done|]. symmetry. rewrite andb_false_iff, negb_false_iff, orb_true_iff, !andb_true_iff, !Z.ltb_lt, Z.eqb_neq.
    destruct (Z.ltb_spec 0 inc); lia.
Qed.
End sbrk.

(** ** The index *)

Section index.
Context {V : Vas} {VL : VasLaws V} {H : Hooks} {E : MmapEnv} {BM : Bitmap} {BL : BitmapLaws BM} {D : Type}.

Definition h_table (s : hstate D) : state := m_table (h_mmap s).

(** The heap's bigalloc, and its bitmap: a bit for each chunk of [live]. *)
Record heap_index (s : hstate D) (live : gset Z) : Prop := {
  hi_table : table_ok (h_table s);
  hi_used : used (h_table s) (START (h_table s)) /\ parent (ba (h_table s) (START (h_table s))) = 0 /\
    allocated_by (ba (h_table s) (START (h_table s))) = mmap_allocator;
  hi_range : b_begin (ba (h_table s) (START (h_table s))) = nommap_malloc_heap_base s /\
    b_end (ba (h_table s) (START (h_table s))) = nommap_malloc_heap_limit s;
  hi_bitmap : exists w, bitmaps s !! suballocator_private (ba (h_table s) (START (h_table s))) = Some w /\
    nommap_malloc_heap_limit s - nommap_malloc_heap_base s <= PRIVATE_MALLOC_ALIGN * (BITMAP_WORD_NBITS * Z.of_nat (length w)) /\
    forall j, 0 <= j -> bitmap_get_l w j = true <-> nommap_malloc_heap_base s + PRIVATE_MALLOC_ALIGN * j ∈ live;
  hi_live p : p ∈ live -> nommap_malloc_heap_base s <= p < nommap_malloc_heap_limit s /\
    (p - nommap_malloc_heap_base s) mod PRIVATE_MALLOC_ALIGN = 0;
}.

(** All but the bitmaps. *)
Definition same_but_bitmaps (s s' : hstate D) : Prop :=
  exists b, s' = HState (h_mmap s) b (nommap_malloc_heap_base s) (nommap_malloc_heap_limit s)
    (emulated_curbrk s) (h_errno s) (dlmalloc_state s).

Lemma on_htable_read {A} (m : M state A) (s : hstate D) a : m (h_table s) = Done (a, h_table s) -> on_htable m s = Done (a, s).
Proof.
  intros Em. unfold on_htable, on_hmmap. rewrite (on_bigallocs_read m (h_mmap s) a Em). by destruct s.
Qed.

Lemma top_level_ok t b a : table_ok t -> used t b -> parent (ba t b) = 0 -> contains t b a -> __lookup_bigalloc_top_level a t = Done (b, t).
Proof.
  intros T Ub Pb C. assert (Ha : user_address a).
  { pose proof (wf_bounds _ (tk_wf _ T) b Ub). unfold contains, user_address in *. lia. }
  destruct (index_spans t a (tk_wf _ T) (tk_index _ T) Ha ltac:(by exists b)) as [Un Cn].
  destruct (root_loop_ok t (tk_wf _ T) _ Un) as (r & Er & Ar & Ur & Pr).
  assert (r = b) as ->.
  { apply (siblings_same t r b a (tk_wf _ T) Ur Ub); [by rewrite Pr| |done]. by apply (ancestor_contains t r _ a (tk_wf _ T) Un Ar Cn). }
  unfold __lookup_bigalloc_top_level. rewrite (bind_Done _ _ _ _ _ (eq_refl : pi_get _ _ = _)).
  by rewrite (proj2 (Z.eqb_neq _ _) (used_nonzero _ _ (tk_wf _ T) Un)).
Qed.

Context {B : Build} {F : Flavour} (Fl : NOMMAP = true).

(** The bit of a chunk. *)
Lemma chunk_bit s live p : heap_index s live ->
  nommap_malloc_heap_base s <= p < nommap_malloc_heap_limit s -> (p - nommap_malloc_heap_base s) mod PRIVATE_MALLOC_ALIGN = 0 ->
  let i := wrap64 (p - nommap_malloc_heap_base s) / PRIVATE_MALLOC_ALIGN in
  p = nommap_malloc_heap_base s + PRIVATE_MALLOC_ALIGN * i /\ 0 <= i /\
  forall w : list Z, nommap_malloc_heap_limit s - nommap_malloc_heap_base s <= PRIVATE_MALLOC_ALIGN * (BITMAP_WORD_NBITS * Z.of_nat (length w)) ->
    i < BITMAP_WORD_NBITS * Z.of_nat (length w).
Proof.
  intros K Hp Ha i. destruct (hi_used _ _ K) as (U & _), (hi_range _ _ K) as [R1 R2]. destruct max_user_address_spec as [[_ Hm] _].
  pose proof (wf_bounds _ (tk_wf _ (hi_table _ _ K)) _ U). unfold i. rewrite wrap_small by lia. unfold PRIVATE_MALLOC_ALIGN in *.
  pose proof (Z.div_mod (p - nommap_malloc_heap_base s) 16 ltac:(lia)) as Dm. rewrite Ha in Dm.
  split_and!; [lia|apply Z.div_pos; lia|]. intros w Hw. apply Z.div_lt_upper_bound; lia.
Qed.

(** What setting or clearing a bit makes of the set. *)
Lemma rewritten_index s live live' w w' : heap_index s live ->
  bitmaps s !! suballocator_private (ba (h_table s) (START (h_table s))) = Some w -> length w' = length w ->
  (forall j, 0 <= j -> bitmap_get_l w' j = true <-> nommap_malloc_heap_base s + PRIVATE_MALLOC_ALIGN * j ∈ live') ->
  (forall p, p ∈ live' -> nommap_malloc_heap_base s <= p < nommap_malloc_heap_limit s /\
    (p - nommap_malloc_heap_base s) mod PRIVATE_MALLOC_ALIGN = 0) ->
  heap_index (set_bitmap (suballocator_private (ba (h_table s) (START (h_table s)))) w' s) live'.
Proof.
  intros K Ew Lw G Hl. destruct (hi_bitmap _ _ K) as (w0 & Ew0 & Hw & _). rewrite Ew in Ew0. injection Ew0 as <-.
  split; [apply K..| |done]. exists w'. split; [apply lookup_insert_eq|]. split; [|done]. rewrite Lw. apply Hw.
Qed.

Lemma set_metadata_ok s live p n c : heap_index s live ->
  nommap_malloc_heap_base s <= p < nommap_malloc_heap_limit s -> (p - nommap_malloc_heap_base s) mod PRIVATE_MALLOC_ALIGN = 0 ->
  exists s', set_metadata p n c s = Done (tt, s') /\ heap_index s' ({[p]} ∪ live) /\ same_but_bitmaps s s'.
Proof.
  intros K Hp Ha. destruct (hi_used _ _ K) as (U & P0 & Am), (hi_range _ _ K) as [R1 R2], (hi_bitmap _ _ K) as (w & Ew & Hw & G).
  destruct (chunk_bit s live p K Hp Ha) as (Ep & Hi0 & Hi). specialize (Hi w Hw). set (i := wrap64 _ / _) in *.
  set (b := START (h_table s)) in *. assert (Nb : b <> 0) by by apply (used_nonzero (h_table s) b (tk_wf _ (hi_table _ _ K))).
  eexists. split; [|split; [apply (rewritten_index s live ({[p]} ∪ live) w (bitmap_set_l w i) K Ew)|by eexists]].
  - unfold set_metadata. rewrite Fl. cbn [negb].
    rewrite (bind_Done _ _ s b s) by (apply on_htable_read, top_level_ok; [apply K|done|done|unfold contains; lia]).
    rewrite (bind_Done _ _ s tt s) by (apply assert_true; by rewrite (proj2 (Z.eqb_neq b 0))).
    rewrite (bind_Done _ _ s (ba (h_table s) b) s) by (unfold rd_top; rewrite (proj2 (Z.eqb_neq b 0)) by done; by apply on_htable_read).
    rewrite (bind_Done _ _ s tt s) by (apply assert_true; rewrite Am; apply Z.eqb_refl). rewrite R1.
    rewrite (bind_Done _ _ s tt s).
    2: { apply assert_true, Z.eqb_eq. rewrite wrap_small; [done|]. destruct max_user_address_spec as [[_ Hm] _].
         pose proof (wf_bounds _ (tk_wf _ (hi_table _ _ K)) _ U). lia. }
    rewrite (bind_Done _ _ s tt s) by (apply assert_true, Z.leb_le; lia).
    unfold on_bitmap. rewrite Ew. done.
  - apply bitmap_set_length.
  - intros j Hj. rewrite bitmap_get_set by (done || lia). rewrite orb_true_iff, bool_decide_eq_true, (G j Hj), elem_of_union, elem_of_singleton.
    unfold PRIVATE_MALLOC_ALIGN in *. split; [intros [<-|?]; [left; lia|by right]|intros [?|?]; [left; lia|by right]].
  - intros q [->%elem_of_singleton|Hq]%elem_of_union; [done|by apply (hi_live _ _ K)].
Qed.

Lemma clear_metadata_ok s live p : heap_index s live -> p ∈ live ->
  exists s', clear_metadata p s = Done (tt, s') /\ heap_index s' (live ∖ {[p]}) /\ same_but_bitmaps s s'.
Proof.
  intros K Hl. destruct (hi_live _ _ K p Hl) as [Hp Ha].
  destruct (hi_used _ _ K) as (U & P0 & Am), (hi_range _ _ K) as [R1 R2], (hi_bitmap _ _ K) as (w & Ew & Hw & G).
  destruct (chunk_bit s live p K Hp Ha) as (Ep & Hi0 & Hi). specialize (Hi w Hw). set (i := wrap64 _ / _) in *.
  set (b := START (h_table s)) in *. assert (Nb : b <> 0) by by apply (used_nonzero (h_table s) b (tk_wf _ (hi_table _ _ K))).
  assert (Er : rd_top b s = Done (ba (h_table s) b, s)).
  { unfold rd_top. rewrite (proj2 (Z.eqb_neq b 0)) by done. by apply on_htable_read. }
  eexists. split; [|split; [apply (rewritten_index s live (live ∖ {[p]}) w (bitmap_clear_l w i) K Ew)|by eexists]].
  - unfold clear_metadata. rewrite Fl. cbn [negb].
    rewrite (bind_Done _ _ s b s) by (apply on_htable_read, top_level_ok; [apply K|done|done|unfold contains; lia]).
    rewrite (bind_Done _ _ s tt s).
    2: { unfold assertM. destruct NDEBUG; [done|]. rewrite bind_bind, (bind_Done _ _ _ _ _ Er). unfold mret, M_ret, mbind, M_bind.
         by rewrite Am, Z.eqb_refl. }
    rewrite (bind_Done _ _ _ _ _ Er). rewrite R1. unfold on_bitmap. by rewrite Ew.
  - apply bitmap_clear_length.
  - intros j Hj. rewrite bitmap_get_clear by (done || lia).
    rewrite andb_true_iff, negb_true_iff, bool_decide_eq_false, (G j Hj), elem_of_difference, elem_of_singleton.
    unfold PRIVATE_MALLOC_ALIGN in *. split; [intros [Hn Hj']; split; [done|intros Eq; apply Hn; lia]|intros [Hj' Hn]; split; [intros <-; apply Hn; lia|done]].
  - intros q [Hq _]%elem_of_difference. by apply (hi_live _ _ K).
Qed.
End index.

(** ** What dlmalloc promises *)

Section laws.
Context {D : Type}.

(** All that belongs to the wrappers. *)
Definition unchanged (s s' : hstate D) : Prop :=
  h_mmap s' = h_mmap s /\ bitmaps s' = bitmaps s /\
  nommap_malloc_heap_base s' = nommap_malloc_heap_base s /\ nommap_malloc_heap_limit s' = nommap_malloc_heap_limit s.

(** A chunk in the region, apart from those of [others]. *)
Definition new_chunk (s : hstate D) (others : gset Z) (p : Z) : Prop :=
  nommap_malloc_heap_base s <= p < nommap_malloc_heap_limit s /\
  (p - nommap_malloc_heap_base s) mod PRIVATE_MALLOC_ALIGN = 0 /\ p ∉ others.

(** Chunks are [before]; [p] is null, or a new chunk beside those of [others]. *)
Definition allocates (allocated : D -> gset Z) (s s' : hstate D) (others : gset Z) (p : Z) : Prop :=
  unchanged s s' /\
  ((p = 0 /\ allocated (dlmalloc_state s') = allocated (dlmalloc_state s)) \/
   (p <> 0 /\ new_chunk s others p /\ allocated (dlmalloc_state s') = {[p]} ∪ others)).

Class DlmallocLaws (DL : Dlmalloc D) := {
  allocated : D -> gset Z;
  dl_malloc n s : break_ok s -> exists p s', __real_dlmalloc n s = Done (p, s') /\ break_ok s' /\
    allocates allocated s s' (allocated (dlmalloc_state s)) p;
  dl_calloc m n s : break_ok s -> exists p s', __real_dlcalloc m n s = Done (p, s') /\ break_ok s' /\
    allocates allocated s s' (allocated (dlmalloc_state s)) p;
  dl_memalign m n s : break_ok s -> exists p s', __real_dlmemalign m n s = Done (p, s') /\ break_ok s' /\
    allocates allocated s s' (allocated (dlmalloc_state s)) p;
  dl_posix_memalign m n s : break_ok s -> exists r q s', __real_dlposix_memalign m n s = Done ((r, q), s') /\ break_ok s' /\
    ((r = 0 /\ exists p, q = Some p /\ p <> 0 /\ allocates allocated s s' (allocated (dlmalloc_state s)) p) \/
     (r <> 0 /\ q = None /\ allocates allocated s s' (allocated (dlmalloc_state s)) 0));
  dl_free p s : break_ok s -> p ∈ allocated (dlmalloc_state s) -> exists s', __real_dlfree p s = Done (tt, s') /\ break_ok s' /\
    unchanged s s' /\ allocated (dlmalloc_state s') = allocated (dlmalloc_state s) ∖ {[p]};
  dl_realloc p n s : break_ok s -> p ∈ allocated (dlmalloc_state s) -> p <> 0 -> exists q s', __real_dlrealloc p n s = Done (q, s') /\ break_ok s' /\
    allocates allocated s s' (allocated (dlmalloc_state s) ∖ {[p]}) q;
  dl_realloc_null n s : break_ok s -> exists q s', __real_dlrealloc 0 n s = Done (q, s') /\ break_ok s' /\
    allocates allocated s s' (allocated (dlmalloc_state s)) q;
}.
End laws.

(** ** Calls *)

Inductive heap_call :=
| Hmalloc (n : Z)
| Hcalloc (m n : Z)
| Hmemalign (m n : Z)
| Hfree (p : Z)
| Hrealloc (p n : Z).

Section theorems.
Context {V : Vas} {VL : VasLaws V} {H : Hooks} {B : Build} {E : MmapEnv} {BM : Bitmap} {BL : BitmapLaws BM} {D : Type}.
Context {F : Flavour} {DL : Dlmalloc D} {LL : DlmallocLaws DL}.

Definition call_heap (caller : Z) (c : heap_call) : M (hstate D) unit :=
  match c with
  | Hmalloc n => __wrap_dlmalloc n caller ;; mret tt
  | Hcalloc m n => __wrap_dlcalloc m n caller ;; mret tt
  | Hmemalign m n => __wrap_dlmemalign m n caller ;; mret tt
  | Hfree p => __wrap_dlfree p
  | Hrealloc p n => __wrap_dlrealloc p n caller ;; mret tt
  end.
Fixpoint call_all (caller : Z) (l : list heap_call) : M (hstate D) unit :=
  match l with
  | [] => mret tt
  | c :: l => call_heap caller c ;; call_all caller l
  end.

(** A chunk is freed or reallocated while it is allocated; a reallocation to a
    positive size finds memory. *)
Definition proper_call (s : hstate D) (c : heap_call) : Prop :=
  match c with
  | Hfree p => p ∈ allocated (dlmalloc_state s)
  | Hrealloc p n => (p = 0 /\ 0 < n) \/ (p <> 0 /\ p ∈ allocated (dlmalloc_state s) /\ 0 <= n /\
      (0 < n -> forall caller s', __wrap_dlrealloc p n caller s <> Done (0, s')))
  | _ => True
  end.
Fixpoint proper_calls (caller : Z) (s : hstate D) (l : list heap_call) : Prop :=
  match l with
  | [] => True
  | c :: l => proper_call s c /\ forall s', call_heap caller c s = Done (tt, s') -> proper_calls caller s' l
  end.

Definition heap_ok (s : hstate D) : Prop := break_ok s /\ heap_index s (allocated (dlmalloc_state s)).

Lemma index_unchanged (s s' : hstate D) live : unchanged s s' -> heap_index s live -> heap_index s' live.
Proof.
  intros (E1 & E2 & E4 & E5) [A1 A2 A3 A4 A5].
  assert (Et : h_table s' = h_table s) by (unfold h_table; by rewrite E1).
  split; rewrite ?Et, ?E2, ?E4, ?E5; done.
Qed.

Lemma break_same (s s' : hstate D) : same_but_bitmaps s s' -> break_ok s -> break_ok s'.
Proof. by intros [b ->]. Qed.

(** What the wrappers of the allocating functions do after the call. *)
Lemma note_chunk s s' others p n c : NOMMAP = true -> heap_index s others -> break_ok s' -> allocates allocated s s' others p ->
  allocated (dlmalloc_state s) = others \/ p <> 0 ->
  exists s2, (when (negb (p =? 0)) (set_metadata p n c) ;; mret p) s' = Done (p, s2) /\ heap_ok s2.
Proof.
  intros Fl K Br (Un & [[-> Ea]|(Np & (Hr & Al & Nl) & Ea)]) Ho.
  - destruct Ho as [Ho|]; [|done]. exists s'. split; [done|]. split; [done|]. rewrite Ea, Ho. by apply (index_unchanged s).
  - pose proof Un as (_ & _ & Eb & El). destruct (set_metadata_ok Fl s' others p n c) as (s2 & E2 & K2 & Sm).
    + by apply (index_unchanged s).
    + by rewrite Eb, El.
    + by rewrite Eb.
    + exists s2. rewrite (proj2 (Z.eqb_neq p 0)) by done. cbn [negb when]. rewrite (bind_Done _ _ _ _ _ E2). split; [done|].
      split; [by apply (break_same s')|]. destruct Sm as [b' ->]. cbn [dlmalloc_state]. by rewrite Ea.
Qed.

Lemma realloc_ok s p n caller : NOMMAP = true -> heap_ok s -> p ∈ allocated (dlmalloc_state s) -> p <> 0 -> 0 <= n ->
  (0 < n -> forall s', __wrap_dlrealloc p n caller s <> Done (0, s')) ->
  exists q s', __wrap_dlrealloc p n caller s = Done (q, s') /\ heap_ok s'.
Proof.
  intros Fl [Br K] Hp Np Hn Hf. destruct (clear_metadata_ok Fl s _ p K Hp) as (s1 & E1 & K1 & Sm1).
  assert (Es : __wrap_dlrealloc p n caller s =
    (if n =? 0 then __real_dlfree p ;; mret 0 else
     ret ← __real_dlrealloc p (wrap64 (n + sizeof_insert));
     when (negb (ret =? 0) && (0 <? n)) (set_metadata ret n caller) ;; mret ret) s1).
  { unfold __wrap_dlrealloc. rewrite (proj2 (Z.eqb_neq p 0)) by done. cbn [negb when]. by rewrite (bind_Done _ _ _ _ _ E1). }
  assert (Ea : allocated (dlmalloc_state s1) = allocated (dlmalloc_state s)) by (by destruct Sm1 as [? ->]).
  assert (Br1 : break_ok s1) by (by apply (break_same s)). destruct (Z.eqb_spec n 0) as [->|Nn].
  - destruct (dl_free p s1) as (s2 & E2 & Br2 & Un & Ea2); [done|by rewrite Ea|]. exists 0, s2. rewrite Es, (bind_Done _ _ _ _ _ E2).
    split; [done|]. split; [done|]. rewrite Ea2, Ea. by apply (index_unchanged s1).
  - destruct (dl_realloc p (wrap64 (n + sizeof_insert)) s1) as (q & s2 & E2 & Br2 & Al); [done|by rewrite Ea|done|].
    rewrite Ea in Al. rewrite (proj2 (Z.ltb_lt 0 n)) in Es by lia.
    assert (Es' : __wrap_dlrealloc p n caller s = (when (negb (q =? 0)) (set_metadata q n caller) ;; mret q) s2).
    { rewrite Es, (bind_Done _ _ _ _ _ E2). by rewrite andb_true_r. }
    assert (Nq : q <> 0) by (intros ->; by apply (Hf ltac:(lia) s2)).
    destruct (note_chunk s1 s2 _ q n caller Fl K1 Br2 Al) as (s3 & E3 & K3); [by right|]. exists q, s3. by rewrite Es'.
Qed.

Lemma proper_step caller s s1 c l : proper_call s c -> call_heap caller c s = Done (tt, s1) -> proper_calls caller s1 l ->
  proper_calls caller s (c :: l).
Proof. intros Hc Hs Hl. split; [done|]. intros s'. rewrite Hs. by intros [= <-]. Qed.

Lemma call_ok caller s c : NOMMAP = true -> heap_ok s -> proper_call s c -> exists s', call_heap caller c s = Done (tt, s') /\ heap_ok s'.
Proof.
  intros Fl [Br K] Hc. destruct c as [n|m n|m n|p|p n]; cbn [proper_call] in Hc; unfold call_heap.
  - destruct (dl_malloc n s Br) as (p & s1 & E1 & Br1 & Al). destruct (note_chunk s s1 _ p n caller Fl K Br1 Al) as (s2 & E2 & K2); [by left|].
    exists s2. unfold __wrap_dlmalloc. by rewrite bind_bind, (bind_Done _ _ _ _ _ E1), (bind_Done _ _ _ _ _ E2).
  - destruct (dl_calloc m n s Br) as (p & s1 & E1 & Br1 & Al). destruct (note_chunk s s1 _ p n caller Fl K Br1 Al) as (s2 & E2 & K2); [by left|].
    exists s2. unfold __wrap_dlcalloc. by rewrite bind_bind, (bind_Done _ _ _ _ _ E1), (bind_Done _ _ _ _ _ E2).
  - destruct (dl_memalign m n s Br) as (p & s1 & E1 & Br1 & Al). destruct (note_chunk s s1 _ p n caller Fl K Br1 Al) as (s2 & E2 & K2); [by left|].
    exists s2. unfold __wrap_dlmemalign. by rewrite bind_bind, (bind_Done _ _ _ _ _ E1), (bind_Done _ _ _ _ _ E2).
  - destruct (clear_metadata_ok Fl s _ p K Hc) as (s1 & E1 & K1 & Sm). unfold __wrap_dlfree. rewrite (bind_Done _ _ _ _ _ E1).
    assert (Ea : allocated (dlmalloc_state s1) = allocated (dlmalloc_state s)) by (by destruct Sm as [? ->]).
    destruct (dl_free p s1) as (s2 & E2 & Br2 & Un & Ea2); [by apply (break_same s)|by rewrite Ea|].
    exists s2. split; [done|]. split; [done|]. rewrite Ea2, Ea. by apply (index_unchanged s1).
  - destruct Hc as [[-> Hn]|(Np & Hp & Hn & Hf)].
    + destruct (dl_realloc_null (wrap64 (n + sizeof_insert)) s Br) as (q & s1 & E1 & Br1 & Al).
      destruct (note_chunk s s1 _ q n caller Fl K Br1 Al) as (s2 & E2 & K2); [by left|]. exists s2. unfold __wrap_dlrealloc. cbn [Z.eqb negb when].
      rewrite bind_bind, (bind_Done _ _ s tt s) by done. rewrite (proj2 (Z.eqb_neq n 0)), (proj2 (Z.ltb_lt 0 n)) by lia.
      rewrite bind_bind, (bind_Done _ _ _ _ _ E1), andb_true_r. by rewrite (bind_Done _ _ _ _ _ E2).
    + destruct (realloc_ok s p n caller Fl (conj Br K) Hp Np Hn) as (q & s' & E' & K'); [intros Hn0 s'; by apply Hf|].
      exists s'. by rewrite (bind_Done _ _ _ _ _ E').
Qed.

(** C38.  In the build whose heap has a bitmap, over any list of calls of the
    wrapped malloc, calloc, memalign, free and realloc in which only allocated
    chunks are freed (so the null pointer is not), only allocated chunks or the
    null pointer are reallocated, and no reallocation to a positive size fails
    ([proper_calls]), each call returns and the bitmap marks exactly the chunks
    that dlmalloc has handed out.  [failed_realloc_unmarked] and
    [free_null_crashes] show what happens otherwise. *)
Theorem heap_index_exact caller l s :
  NOMMAP = true -> heap_ok s -> proper_calls caller s l ->
  exists s', call_all caller l s = Done (tt, s') /\ heap_ok s'.
Proof.
  intros Fl K Hl. induction l as [|c l IH] in s, K, Hl |- *; [by exists s|]. destruct Hl as [Hc Hl].
  destruct (call_ok caller s c Fl K Hc) as (s1 & E1 & K1). destruct (IH s1 K1 (Hl s1 E1)) as (s' & E' & K').
  exists s'. split; [|done]. cbn [call_all]. by rewrite (bind_Done _ _ _ _ _ E1).
Qed.

(** A reallocation that fails leaves the old chunk allocated but unmarked. *)
Lemma failed_realloc_unmarked s p n caller s' : NOMMAP = true -> heap_ok s -> p ∈ allocated (dlmalloc_state s) -> p <> 0 -> 0 < n ->
  __wrap_dlrealloc p n caller s = Done (0, s') ->
  p ∈ allocated (dlmalloc_state s') /\ heap_index s' (allocated (dlmalloc_state s) ∖ {[p]}).
Proof.
  intros Fl [Br K] Hp Np Hn. destruct (clear_metadata_ok Fl s _ p K Hp) as (s1 & E1 & K1 & Sm).
  unfold __wrap_dlrealloc. rewrite (proj2 (Z.eqb_neq p 0)) by done. cbn [negb when]. rewrite (bind_Done _ _ _ _ _ E1).
  rewrite (proj2 (Z.eqb_neq n 0)) by lia.
  assert (Ea : allocated (dlmalloc_state s1) = allocated (dlmalloc_state s)) by (by destruct Sm as [? ->]).
  destruct (dl_realloc p (wrap64 (n + sizeof_insert)) s1) as (q & s2 & E2 & Br2 & Un & Al); [by apply (break_same s)|by rewrite Ea|done|].
  rewrite (bind_Done _ _ _ _ _ E2). destruct Al as [[-> Ea2]|(Nq & _)].
  - cbn [Z.eqb negb andb when]. intros [= <-]. rewrite Ea2, Ea. split; [done|]. by apply (index_unchanged s1).
  - rewrite (proj2 (Z.eqb_neq q 0)), (proj2 (Z.ltb_lt 0 n)) by (done || lia). cbn [negb andb when].
    intros Hd. unfold mbind, M_bind in Hd. destruct (set_metadata q n caller s2) as [[[] ?]| |]; [|done..]. by injection Hd as ->.
Qed.

(** A successful posix_memalign is not marked: the wrapper takes the value 0 for a failure. *)
Lemma posix_memalign_unmarked s memptr m n caller p s' : heap_ok s ->
  __wrap_dlposix_memalign memptr m n caller s = Done ((0, p), s') ->
  p ∈ allocated (dlmalloc_state s') /\ (p ∉ allocated (dlmalloc_state s)) /\ heap_index s' (allocated (dlmalloc_state s)).
Proof.
  intros [Br K]. unfold __wrap_dlposix_memalign. destruct (dl_posix_memalign m n s Br) as (r & q & s1 & E1 & Br1 & Hr).
  rewrite (bind_Done _ _ _ _ _ E1). cbn [fst snd]. destruct Hr as [(-> & p' & -> & Np & Un & Al)|(Nr & -> & _)].
  - cbn [Z.eqb negb when]. intros [= <- <-]. destruct Al as [[-> _]|(_ & (_ & _ & Nl) & Ea)]; [done|]. rewrite Ea.
    split_and!; [set_solver|done|by apply (index_unchanged s)].
  - rewrite (proj2 (Z.eqb_neq r 0)) by done. cbn [negb when]. intros Hd. unfold mbind, M_bind in Hd.
    destruct (set_metadata _ n caller s1) as [[[] ?]| |]; [|done..]. by injection Hd as -> .
Qed.

(** Freeing a null pointer ends the program. *)
Lemma free_null_crashes s : NOMMAP = true -> heap_ok s -> __wrap_dlfree 0 s = Abort.
Proof.
  intros Fl [_ K]. destruct (hi_table _ _ K) as [W I _ _]. unfold __wrap_dlfree, clear_metadata. rewrite Fl. cbn [negb].
  assert (E0 : on_htable (__lookup_bigalloc_top_level 0) s = Done (0, s)).
  { apply on_htable_read. unfold __lookup_bigalloc_top_level. rewrite (bind_Done _ _ _ _ _ (eq_refl : pi_get _ _ = _)).
    rewrite (index_none _ 0 W I); [done| |].
    - assert (HP : PAGE_SIZE = 4096) by done. unfold user_address. destruct max_user_address_spec. lia.
    - intros i U C. pose proof (wf_bounds _ W i U). unfold contains in C. lia. }
  rewrite bind_bind, (bind_Done _ _ _ _ _ E0). unfold assertM. by destruct NDEBUG.
Qed.
End theorems.

(** C39.  The emulated sbrk: from a break inside the region, a request moves
    the break and returns the old one exactly when the new break stays inside
    the region; otherwise it returns -1 with ENOMEM and the break stays.  No
    increment makes it wrap around. *)
Theorem emulated_sbrk_bounds {D : Type} (s : hstate D) inc :
  let old := current_break s in
  break_ok s -> - (2 ^ 63) <= inc < 2 ^ 63 ->
  exists r s', emulated_sbrk inc s = Done (r, s') /\ break_ok s' /\
    (nommap_malloc_heap_base s <= old + inc <= nommap_malloc_heap_limit s /\ r = old /\ current_break s' = old + inc \/
     ~ (nommap_malloc_heap_base s <= old + inc <= nommap_malloc_heap_limit s) /\ r = 2 ^ 64 - 1 /\ h_errno s' = ENOMEM /\ current_break s' = old).
Proof.
  intros old Br Hi. destruct (sbrk_ok s inc Br Hi) as (s' & E' & Es). pose proof Br as (Hb & Hl & Hc). fold old in E', Es, Hc.
  case_decide as Hd; (eexists _, s'; split; [exact E'|]); subst s'; unfold break_ok, current_break in *; cbn.
  - rewrite (proj2 (Z.eqb_neq (old + inc) 0)) by lia. split; [lia|]. by left.
  - rewrite (proj2 (Z.eqb_neq old 0)) by lia. split; [lia|]. by right.
Qed.

(** ** Setting the heap up *)

Class HeapLaws {D : Type} {DL : Dlmalloc D} {LL : DlmallocLaws DL} {BM : Bitmap} {V : Vas} (HE : HeapEnv) : Prop := {
  (** where the region is *)
  heap_region : 0 < heap_mmap heap_size /\ heap_mmap heap_size + heap_size <= MAXIMUM_USER_ADDRESS + 1 /\
    heap_mmap heap_size mod PAGE_SIZE = 0 /\ heap_size <= BIGGEST_SANE_USER_ALLOC;
  (** it holds zeroes *)
  heap_zero p : exists k, block_words p (bitmap_alloc_size_bytes heap_size) = replicate k 0 /\
    (heap_size + PRIVATE_MALLOC_ALIGN - 1) / PRIVATE_MALLOC_ALIGN <= BITMAP_WORD_NBITS * Z.of_nat k;
}.

Section create.
Context {V : Vas} {VL : VasLaws V} {H : Hooks} {E : MmapEnv} {BM : Bitmap} {BL : BitmapLaws BM} {D : Type}.
Context {F : Flavour} {DL : Dlmalloc D} {LL : DlmallocLaws DL} {HE : HeapEnv} {HL : HeapLaws HE}.
#[local] Existing Instance release.

Definition set_h_table (t : state) (s : hstate D) : hstate D := set_h_mmap (set_m_table t (h_mmap s)) s.

Lemma on_htable_Done {A} (m : M state A) (s : hstate D) a t : m (h_table s) = Done (a, t) -> on_htable m s = Done (a, set_h_table t s).
Proof. intros Em. unfold on_htable, on_hmmap. by rewrite (on_bigallocs_Done m (h_mmap s) a t Em). Qed.

(** Before the heap there is no bigalloc; nothing answers for the region. *)
Record bare (s : hstate D) : Prop := {
  br_table : table_ok (h_table s);
  br_start : START (h_table s) = 0;
  br_quiet : quiet (heap_mmap heap_size) (h_table s) /\ quiet (heap_mmap heap_size + heap_size - 1) (h_table s);
  br_chunks : allocated (dlmalloc_state s) = ∅;
  br_curbrk : emulated_curbrk s = 0;
}.

Lemma heap_size_pos : 0 < heap_size /\ heap_size mod PAGE_SIZE = 0.
Proof.
  assert (HP : PAGE_SIZE = 4096) by done. unfold heap_size. rewrite ROUND_UP_spec by (vm_compute; done).
  rewrite HP. by vm_compute.
Qed.

(** The first bigalloc. *)
Lemma first_bigalloc_ok s : bare s -> let base := heap_mmap heap_size in
  exists t, __liballocs_new_bigalloc base heap_size 0 0 0 mmap_allocator (h_table s) = Done (1, t) /\ table_ok (set_START 1 t) /\
    meta (ba t 1) = (base, base + heap_size, 0, mmap_allocator, 0, 0, 0, 0, 0).
Proof.
  intros [T S0 [Q1 Q2] _ _] base. pose proof T as [W I St Sn]. destruct heap_region as (R1 & R2 & R3 & R4), heap_size_pos as [P1 P2].
  change (heap_mmap heap_size) with base in R1, R2, R3, Q1, Q2.
  assert (No : forall i, ~ used (h_table s) i).
  { destruct St as [[U _]|[_ N]]; [|done]. rewrite S0 in U. by apply (not_used_0 _ W) in U. }
  assert (HP : PAGE_SIZE = 4096) by done.
  assert (Fit : fits (h_table s) 0 base (base + heap_size)).
  { unfold fits. rewrite decide_True by done. split; [done|]. split_and!; [lia..|done|rewrite Z.add_mod, R3, P2; done|].
    intros c U. by destruct (No c). }
  assert (Pf : parent_for (h_table s) base heap_size 0 0).
  { right. split_and!; [done| | |intros _; split; [done|by rewrite Z.add_mod, R3, P2]];
      (apply find_deepest_none; [done|done|unfold user_address; lia|intros i U; by destruct (No i)|done]). }
  assert (Fr : first_free (h_table s) 1) by (split_and!; [done|done|apply No|lia]).
  destruct (new_bigalloc_with_parent (h_table s) 1 base heap_size 0 0 0 mmap_allocator 0 W I Fr) as (t & Et & C & Mb); [lia|done|done|].
  exists t. split_and!; [done| |done]. apply (table_ok_step (h_table s)); [done|].
  by apply (step_boot _ t 1 base heap_size 0 0 mmap_allocator).
Qed.

(** The state when the bitmap is about to be allocated. *)
Definition heap_placed (s : hstate D) (t : state) : hstate D :=
  let base := heap_mmap heap_size in
  set_h_table (upd 1 (set_suballocator private_nommap_malloc_allocator) (set_START 1 (upd 1 (set_private heap_seq 0) t)))
    (set_h_mmap (set_sequence heap_seq (heap_sequence base (base + heap_size)) (h_mmap s)) (set_heap_range base (base + heap_size) s)).

Lemma create_places site s t : bare s ->
  __liballocs_new_bigalloc (heap_mmap heap_size) heap_size 0 0 0 mmap_allocator (h_table s) = Done (1, t) ->
  meta (ba t 1) = (heap_mmap heap_size, heap_mmap heap_size + heap_size, 0, mmap_allocator, 0, 0, 0, 0, 0) ->
  create_private_nommap_malloc_heap site s =
    (p ← __real_dlmalloc (bitmap_alloc_size_bytes heap_size);
     when (negb (p =? 0)) (modify (set_bitmap p (block_words p (bitmap_alloc_size_bytes heap_size)))) ;;
     on_htable (wr 1 (fun r => set_suballocator_private p (suballocator_private_free r) r)) ;;
     set_metadata p (bitmap_alloc_size_bytes heap_size) site ;;
     mret 1) (heap_placed s t).
Proof.
  intros Bs Et Mb. destruct heap_region as (R1 & R2 & R3 & R4), heap_size_pos as [P1 P2]. destruct max_user_address_spec as [[_ Hm] _].
  unfold heap_placed. set (base := heap_mmap heap_size) in *.
  unfold create_private_nommap_malloc_heap. fold base. rewrite (wrap_small 64 (base + heap_size)) by lia.
  assert (Err : MMAP_RETURN_IS_ERROR base = false) by (apply mmap_no_error; lia). rewrite Err.
  rewrite (bind_Done _ _ s tt s) by done. set (s1 := set_heap_range base (base + heap_size) s). rewrite (bind_Done _ _ s tt s1) by done.
  set (q := heap_sequence base (base + heap_size)). set (s2 := set_h_mmap (set_sequence heap_seq q (h_mmap s1)) s1).
  rewrite (bind_Done _ _ s1 tt s2) by done. set (t1 := upd 1 (set_private heap_seq 0) t).
  set (s3 := set_h_table t1 s2). rewrite (bind_Done _ _ s2 1 s3).
  2: { unfold on_hmmap, __add_mapping_sequence_bigalloc_with_seq, add_mapping_sequence_bigalloc_with_seq.
       rewrite (bind_Done _ _ (h_mmap s2) q (h_mmap s2)) by (apply (on_seq_read heap_seq (gets id) _ q q); [apply lookup_insert_eq|done]).
       cbn [q heap_sequence seq_begin seq_end]. replace (base + heap_size - base) with heap_size by lia. rewrite wrap_small by lia.
       rewrite (bind_Done _ _ (h_mmap s2) 1 (set_m_table t (h_mmap s2))).
       2: { unfold add_bigalloc. rewrite (bind_Done _ _ (h_mmap s2) 1 (set_m_table t (h_mmap s2))); [done|]. by apply on_bigallocs_Done. }
       rewrite (bind_Done _ _ _ tt (set_m_table t1 (h_mmap s2))) by done. done. }
  set (t2 := set_START 1 t1). rewrite (bind_Done _ _ s3 tt (set_h_table t2 s3)) by done.
  set (t3 := upd 1 (set_suballocator private_nommap_malloc_allocator) t2).
  set (s5 := set_h_table t3 s3). rewrite (bind_Done _ _ (set_h_table t2 s3) tt s5) by done.
  rewrite (bind_Done _ _ s5 (ba t3 1) s5) by (by apply on_htable_read).
  assert (Er : b_end (ba t3 1) - b_begin (ba t3 1) = heap_size).
  { injection Mb as Eb Ee _ _ _ _ _ _ _. unfold t3, t2, t1. rewrite ba_upd_eq. cbn [set_suballocator b_end b_begin].
    change (ba (set_START 1 ?x) 1) with (ba x 1). rewrite ba_upd_eq. cbn [set_private b_end b_begin]. lia. }
  rewrite Er, wrap_small by lia. done.
Qed.

(** The empty bitmap at [p] as the bigalloc's private data. *)
Lemma placed_index s t p w s7 : table_ok (set_START 1 t) ->
  meta (ba t 1) = (heap_mmap heap_size, heap_mmap heap_size + heap_size, 0, mmap_allocator, 0, 0, 0, 0, 0) ->
  h_table s7 = h_table (heap_placed s t) ->
  nommap_malloc_heap_base s7 = heap_mmap heap_size /\ nommap_malloc_heap_limit s7 = heap_mmap heap_size + heap_size ->
  bitmaps s7 !! p = Some w ->
  (exists k, w = replicate k 0 /\ (heap_size + PRIVATE_MALLOC_ALIGN - 1) / PRIVATE_MALLOC_ALIGN <= BITMAP_WORD_NBITS * Z.of_nat k) ->
  heap_index (set_h_table (upd 1 (fun r => set_suballocator_private p (suballocator_private_free r) r) (h_table (heap_placed s t))) s7) ∅.
Proof.
  intros Tk [= Eb Ee Ep Ea1 _ _ _ _ _] Et [U3 U4] Ew (k & Ek & Hk). destruct heap_region as (R1 & _), heap_size_pos as [P1 _].
  set (f := fun r => _). set (base := heap_mmap heap_size) in *. set (s8 := set_h_table _ s7).
  assert (Em : ba (h_table s8) 1 = f (set_suballocator private_nommap_malloc_allocator (set_private heap_seq 0 (ba t 1)))).
  { change (ba (upd 1 f (upd 1 (set_suballocator private_nommap_malloc_allocator) (set_START 1 (upd 1 (set_private heap_seq 0) t)))) 1 =
      f (set_suballocator private_nommap_malloc_allocator (set_private heap_seq 0 (ba t 1)))). rewrite !ba_upd_eq.
    change (ba (set_START 1 ?x) 1) with (ba x 1). by rewrite ba_upd_eq. }
  split; change (START (h_table s8)) with 1; rewrite ?Em; change (nommap_malloc_heap_base s8) with (nommap_malloc_heap_base s7);
    change (nommap_malloc_heap_limit s8) with (nommap_malloc_heap_limit s7); rewrite ?U3, ?U4.
  - change (table_ok (upd 1 f (upd 1 (set_suballocator private_nommap_malloc_allocator) (upd 1 (set_private heap_seq 0) (set_START 1 t))))).
    repeat (apply table_upd; [|done|by intros []]). done.
  - split_and!; [|done|done]. unfold used. rewrite Em. cbn. lia.
  - by split.
  - exists w. split; [done|]. rewrite Ek, length_replicate. split.
    + unfold PRIVATE_MALLOC_ALIGN in *. replace (base + heap_size - base) with heap_size by lia. Z.to_euclidean_division_equations; lia.
    + intros j Hj. rewrite bitmap_get_zeros. split; [done|]. set_solver.
  - intros x. set_solver.
Qed.

(** Once set up, the bitmap marks the chunk that holds it and nothing else. *)
Lemma heap_created site s : NOMMAP = true -> bare s ->
  (forall s1 s2, break_ok s1 -> allocated (dlmalloc_state s1) = ∅ -> nommap_malloc_heap_limit s1 = nommap_malloc_heap_base s1 + heap_size ->
     __real_dlmalloc (bitmap_alloc_size_bytes heap_size) s1 <> Done (0, s2)) ->
  exists s', create_private_nommap_malloc_heap site s = Done (1, s') /\ heap_ok s' /\ START (h_table s') = 1.
Proof.
  intros Fl Bs Nn. destruct (first_bigalloc_ok s Bs) as (t & Et & Tk & Mb). rewrite (create_places site s t Bs Et Mb).
  destruct heap_region as (R1 & R2 & R3 & R4), heap_size_pos as [P1 P2]. destruct max_user_address_spec as [[_ Hm] _].
  set (base := heap_mmap heap_size) in *. set (s5 := heap_placed s t). set (bytes := bitmap_alloc_size_bytes heap_size).
  assert (Br5 : break_ok s5).
  { unfold break_ok, current_break. change (emulated_curbrk s5) with (emulated_curbrk s). rewrite (br_curbrk _ Bs). cbn. fold base. lia. }
  destruct (dl_malloc bytes s5 Br5) as (p & s6 & E6 & Br6 & Un & Al). rewrite (bind_Done _ _ _ _ _ E6).
  assert (Np : p <> 0) by (intros ->; apply (Nn s5 s6); [done|apply (br_chunks _ Bs)|done|done]). destruct Al as [[? _]|(_ & (Hr & Ha & _) & Ea)]; [done|].
  rewrite (proj2 (Z.eqb_neq p 0)) by done. cbn [negb when]. change (dlmalloc_state s5) with (dlmalloc_state s) in Ea. rewrite (br_chunks _ Bs) in Ea.
  set (w := block_words p bytes). set (s7 := set_bitmap p w s6). rewrite (bind_Done _ _ s6 tt s7) by done.
  destruct Un as (U1 & _ & U3 & U4). assert (Et6 : h_table s7 = h_table s5) by (unfold h_table, s7; cbn; by rewrite U1).
  set (f := fun r => set_suballocator_private p (suballocator_private_free r) r). set (s8 := set_h_table (upd 1 f (h_table s5)) s7).
  rewrite (bind_Done _ _ s7 tt s8) by (apply on_htable_Done; unfold wr, modify; by rewrite Et6).
  assert (K8 : heap_index s8 ∅).
  { apply (placed_index s t p w s7); [done|done|done|by split|apply lookup_insert_eq|apply heap_zero]. }
  destruct (set_metadata_ok Fl s8 ∅ p bytes site K8) as (s9 & E9 & K9 & Sm).
  { cbn [s8 s7 set_h_table set_h_mmap set_bitmap nommap_malloc_heap_base nommap_malloc_heap_limit]. by rewrite U3, U4. }
  { cbn [s8 s7 set_h_table set_h_mmap set_bitmap nommap_malloc_heap_base nommap_malloc_heap_limit]. by rewrite U3. }
  exists s9. rewrite (bind_Done _ _ _ _ _ E9). split; [done|]. destruct Sm as [bm ->]. split; [split|done].
  - exact Br6.
  - cbn [dlmalloc_state]. change (dlmalloc_state s8) with (dlmalloc_state s6). by rewrite Ea.
Qed.
End create.

(** ** Instances *)

(** An allocator that hands out the addresses of the region one after the other. *)
Section bump.
#[local] Existing Instance words64.
Definition highest (base : Z) (l : list Z) : Z := foldr Z.max (-1) (map (fun q => (q - base) / 16) l).
Definition next_chunk (s : hstate (gset Z)) (others : gset Z) : Z :=
  let p := nommap_malloc_heap_base s + 16 * (1 + highest (nommap_malloc_heap_base s) (elements others)) in
  if (0 <? nommap_malloc_heap_base s) && (p <? nommap_malloc_heap_limit s) then p else 0.
Definition bump_alloc (others : hstate (gset Z) -> gset Z) : M (hstate (gset Z)) Z := fun s =>
  let p := next_chunk s (others s) in
  Done (p, if p =? 0 then s else set_dlmalloc_state ({[p]} ∪ others s) s).
#[local] Instance bump_malloc : Dlmalloc (gset Z) := {|
  __real_dlmalloc _ := bump_alloc dlmalloc_state;
  __real_dlcalloc _ _ := bump_alloc dlmalloc_state;
  __real_dlfree p := modify (fun s => set_dlmalloc_state (dlmalloc_state s ∖ {[p]}) s);
  __real_dlrealloc p _ := bump_alloc (fun s => if p =? 0 then dlmalloc_state s else dlmalloc_state s ∖ {[p]});
  __real_dlmemalign _ _ := bump_alloc dlmalloc_state;
  __real_dlposix_memalign _ _ := p ← bump_alloc dlmalloc_state; mret (if p =? 0 then (ENOMEM, None) else (0, Some p));
  __real_dlmalloc_usable_size _ := mret 16;
|}.

Lemma highest_ge base l q : q ∈ l -> (q - base) / 16 <= highest base l.
Proof.
  induction l as [|x l IH]; [by intros ?%elem_of_nil|]. change (highest base (x :: l)) with (Z.max ((x - base) / 16) (highest base l)).
  intros [->|Hq]%elem_of_cons; [lia|]. specialize (IH Hq). lia.
Qed.
Lemma highest_low base l : -1 <= highest base l.
Proof. induction l as [|x l IH]; [done|]. change (highest base (x :: l)) with (Z.max ((x - base) / 16) (highest base l)). lia. Qed.

Lemma next_chunk_new s others : next_chunk s others = 0 \/ (next_chunk s others <> 0 /\ new_chunk s others (next_chunk s others)).
Proof.
  unfold next_chunk. set (h := highest _ _). pose proof (highest_low (nommap_malloc_heap_base s) (elements others)) as Hh. fold h in Hh.
  destruct (Z.ltb_spec 0 (nommap_malloc_heap_base s)) as [Hb|]; [|by left]. cbn [andb].
  destruct (Z.ltb_spec (nommap_malloc_heap_base s + 16 * (1 + h)) (nommap_malloc_heap_limit s)); [right|by left]. split; [lia|]. split; [lia|]. split.
  - unfold PRIVATE_MALLOC_ALIGN. replace (nommap_malloc_heap_base s + 16 * (1 + h) - nommap_malloc_heap_base s) with ((1 + h) * 16) by lia. by apply Z.mod_mul.
  - intros Hin. pose proof (highest_ge (nommap_malloc_heap_base s) (elements others) _ (proj2 (elem_of_elements _ _) Hin)) as Hg. fold h in Hg.
    replace (nommap_malloc_heap_base s + 16 * (1 + h) - nommap_malloc_heap_base s) with ((1 + h) * 16) in Hg by lia. rewrite Z.div_mul in Hg by done. lia.
Qed.

Lemma bump_allocates (f : hstate (gset Z) -> gset Z) s : break_ok s ->
  exists p s', bump_alloc f s = Done (p, s') /\ break_ok s' /\ allocates id s s' (f s) p.
Proof.
  intros Br. unfold bump_alloc. eexists _, _. split; [done|].
  destruct (next_chunk_new s (f s)) as [E0|[N0 Nc]].
  - rewrite E0. split; [done|]. split; [done|]. by left.
  - rewrite (proj2 (Z.eqb_neq _ 0)) by done. split; [done|]. split; [done|]. right. by split_and!.
Qed.

#[local] Instance bump_laws : DlmallocLaws bump_malloc.
Proof.
  refine {| allocated := id |}.
  - intros n s Br. by apply (bump_allocates dlmalloc_state).
  - intros m n s Br. by apply (bump_allocates dlmalloc_state).
  - intros m n s Br. by apply (bump_allocates dlmalloc_state).
  - intros m n s Br. destruct (bump_allocates dlmalloc_state s Br) as (p & s' & E' & Br' & A). cbn [__real_dlposix_memalign bump_malloc].
    rewrite (bind_Done _ _ _ _ _ E'). destruct (Z.eqb_spec p 0) as [->|Np].
    + eexists _, _, s'. split; [done|]. split; [done|]. right. done.
    + eexists _, _, s'. split; [done|]. split; [done|]. left. split; [done|]. by exists p.
  - intros p s Br Hp. eexists. split; [done|]. done.
  - intros p n s Br Hp Np. destruct (bump_allocates (fun s => dlmalloc_state s ∖ {[p]}) s Br) as (q & s' & E' & Br' & A). exists q, s'.
    split; [|done]. cbn [__real_dlrealloc bump_malloc]. by rewrite (proj2 (Z.eqb_neq p 0)).
  - intros n s Br. by apply (bump_allocates dlmalloc_state).
Defined.

#[local] Instance no_mmap : Flavour := {| NOMMAP := true |}.
#[local] Instance demo_heap_mmap : MmapEnv := {|
  mmap_allocator := 5;
  auxv_allocator := 6;
  private_nommap_free := 99;
  private_nommap_malloc _ := 0;
  get_highest_loaded_object_below _ := 0;
  filename_for_fd _ := None;
  auxv_notify_init_stack_mapping_sequence _ := mret tt;
  executable_data_segment_start_addr := 0;
|}.
#[local] Instance demo_heap_env : HeapEnv := {|
  private_nommap_malloc_allocator := 98;
  heap_mmap _ := 0x7000000;
  heap_seq := 0x5000;
  block_words _ n := replicate (Z.to_nat (n / 8)) 0;
|}.
#[local] Instance demo_heap_laws : HeapLaws demo_heap_env.
Proof.
  split; [by vm_compute|]. intros p. exists (Z.to_nat (bitmap_alloc_size_bytes heap_size / 8)). split; [done|]. by vm_compute.
Qed.

Definition no_heap : hstate (gset Z) := HState (MState init_state ∅ 0) ∅ 0 0 0 0 ∅.
Lemma no_heap_bare : bare no_heap.
Proof. split; [apply reachable_ok, rtc_refl|done|split; split; reflexivity|done|done]. Qed.

Definition heap0 : hstate (gset Z) :=
  match create_private_nommap_malloc_heap (B := release) 0 no_heap with Done (_, s) => s | _ => no_heap end.
Lemma heap0_ok : heap_ok heap0.
Proof.
  destruct (heap_created (F := no_mmap) 0 no_heap eq_refl no_heap_bare) as (s' & E' & K & _).
  - intros s1 s2 (Hb & _) Ea El. cbn [__real_dlmalloc bump_malloc]. unfold bump_alloc, next_chunk. cbn in Ea. rewrite Ea, El.
    cbn [elements]. change (highest _ (elements ∅)) with (-1). pose proof (proj1 heap_size_pos). rewrite !(proj2 (Z.ltb_lt _ _)) by lia. cbn [andb]. intros [=]; lia.
  - unfold heap0. by rewrite E'.
Qed.

(** Two chunks, then the first is freed. *)
Definition after_call (c : heap_call) (s : hstate (gset Z)) : hstate (gset Z) :=
  match call_heap (B := release) 0 c s with Done (_, s') => s' | _ => s end.
Lemma after_call_ok c s : heap_ok s -> proper_call (B := release) s c ->
  call_heap (B := release) 0 c s = Done (tt, after_call c s) /\ heap_ok (after_call c s).
Proof.
  intros K Hc. destruct (call_ok (B := release) (F := no_mmap) 0 s c eq_refl K Hc) as (s' & E' & K').
  unfold after_call. by rewrite E'.
Qed.
Definition heap1 := after_call (Hmalloc 24) heap0.
Definition heap2 := after_call (Hmalloc 40) heap1.

Lemma heap_index_exact_witness :
  exists s', call_all (B := release) 0 [Hmalloc 24; Hmalloc 40; Hfree 0x7000010] heap0 = Done (tt, s') /\ heap_ok s'.
Proof.
  destruct (after_call_ok (Hmalloc 24) heap0 heap0_ok I) as [E1 K1]. destruct (after_call_ok (Hmalloc 40) heap1 K1 I) as [E2 K2].
  apply heap_index_exact; [reflexivity|exact heap0_ok|].
  apply (proper_step 0 heap0 heap1); [exact I|exact E1|]. apply (proper_step 0 heap1 heap2); [exact I|exact E2|].
  split; [|intros s' _; exact I].
  change (0x7000010 ∈ dlmalloc_state heap2). apply (bool_decide_unpack _). vm_compute. exact I.
Defined.

Lemma emulated_sbrk_bounds_witness :
  exists r s', emulated_sbrk (-1) heap0 = Done (r, s') /\ break_ok s' /\
    (nommap_malloc_heap_base heap0 <= current_break heap0 + -1 <= nommap_malloc_heap_limit heap0 /\ r = current_break heap0 /\
       current_break s' = current_break heap0 + -1 \/
     ~ (nommap_malloc_heap_base heap0 <= current_break heap0 + -1 <= nommap_malloc_heap_limit heap0) /\ r = 2 ^ 64 - 1 /\
       h_errno s' = ENOMEM /\ current_break s' = current_break heap0).
Proof. apply emulated_sbrk_bounds; [exact (proj1 heap0_ok)|lia]. Defined.
End bump.
