(* ===== verification/Systrap.v ===== *)
(** System calls that the library traps: src/src/systrap.c, and the wrappers of
    the same calls in src/src/preload.c.

    A trapped call is handed to a replacement, which makes the call itself,
    tells the allocators what the kernel did, and resumes the program with the
    result: a replacement here returns the value that it gives to [post].  The
    kernel's state is a parameter [W], and its calls are functions on it; the
    rest of what is not in the repository (libsystrap, the loader's data, the
    text of /proc/pid/maps) is in the class [TrapEnv].  A pointer to a path name is a number.  Output is
    dropped.  The functions of the library are linked in, and no library
    overrides [__liballocs_nudge_mmap]. *)
From stdpp Require Import strings.
From S2P Require Import Prelude Vas BigAlloc PageIndex PageIndexQuery MappingSeq Mmap Brk AllocSites.
From S2P Require Import MallocMeta Uniqtype Subobject Query StaticData.

(** A register read as an [int]. *)
Definition to_int (x : Z) : Z := let y := wrap32 x in if y <? 2 ^ 31 then y else y - 2 ^ 32.

Definition MAP_FIXED_NOREPLACE : Z := 0x100000.
Definition MREMAP_FIXED : Z := 2.
Definition MAP_FAILED : Z := 2 ^ 64 - 1.
Definition O_RDONLY : Z := 0.
Definition O_RDWR : Z := 2.
Definition SIGILL : Z := 4.
Definition ENOTSUP : Z := 95.
Definition SIG_ERR : Z := 2 ^ 64 - 1.
Definition SYS_open : Z := 2.
Definition SYS_mmap : Z := 9.
Definition SYS_munmap : Z := 11.
Definition SYS_brk : Z := 12.
Definition SYS_mremap : Z := 25.
Definition SYS_openat : Z := 257.
Definition AT_BASE : Z := 7.
Definition AT_EXECFN : Z := 31.

(** The registers of the call, and the address of its instruction. *)
Record generic_syscall := GenericSyscall { sc_args : list Z; generic_syscall_get_ip : Z }.
Definition arg (s : generic_syscall) (i : nat) : Z := nth i (sc_args s) 0.
Definition GUESS_CALLER (s : generic_syscall) : Z := generic_syscall_get_ip s.

Inductive replacement :=
| mmap_handler | munmap_handler | mremap_handler | brk_handler | open_handler | openat_handler.

(** The arguments of a call of [trap_one_executable_region]. *)
Record trapped_region := TrappedRegion {
  tr_begin : Z;
  tr_end : Z;
  tr_filename : string;
  tr_is_writable : bool;
  tr_is_readable : bool;
  tr_preserve_exec : bool;
}.

Record trap_state (W : Type) := TrapState {
  t_brk : bstate;
  kernel : W;
  (** the static variable of [local_liballocs_nudge_mmap] *)
  unhinted_self_call_mmap_area : Z;
  (** whether libdlbind has set [dlbind_open_active_on] *)
  dlbind_open_active : bool;
  __private_nommap_malloc_heap_base : Z;
  __liballocs_systrap_is_initialized : bool;
  replaced_syscalls : gmap Z replacement;
  sigill_installed : bool;
  trapped_regions : list trapped_region;
  t_errno : Z;
}.
Arguments TrapState {W}. Arguments t_brk {W}. Arguments kernel {W}. Arguments unhinted_self_call_mmap_area {W}.
Arguments dlbind_open_active {W}. Arguments __private_nommap_malloc_heap_base {W}. Arguments __liballocs_systrap_is_initialized {W}.
Arguments replaced_syscalls {W}. Arguments sigill_installed {W}. Arguments trapped_regions {W}. Arguments t_errno {W}.

Section state.
Context {W : Type}.

Definition set_t_brk (b : bstate) (s : trap_state W) : trap_state W :=
  TrapState b (kernel s) (unhinted_self_call_mmap_area s) (dlbind_open_active s) (__private_nommap_malloc_heap_base s)
    (__liballocs_systrap_is_initialized s) (replaced_syscalls s) (sigill_installed s) (trapped_regions s) (t_errno s).
Definition set_kernel (w : W) (s : trap_state W) : trap_state W :=
  TrapState (t_brk s) w (unhinted_self_call_mmap_area s) (dlbind_open_active s) (__private_nommap_malloc_heap_base s)
    (__liballocs_systrap_is_initialized s) (replaced_syscalls s) (sigill_installed s) (trapped_regions s) (t_errno s).
Definition set_unhinted (a : Z) (s : trap_state W) : trap_state W :=
  TrapState (t_brk s) (kernel s) a (dlbind_open_active s) (__private_nommap_malloc_heap_base s)
    (__liballocs_systrap_is_initialized s) (replaced_syscalls s) (sigill_installed s) (trapped_regions s) (t_errno s).
Definition set_trap_initialized (s : trap_state W) : trap_state W :=
  TrapState (t_brk s) (kernel s) (unhinted_self_call_mmap_area s) (dlbind_open_active s) (__private_nommap_malloc_heap_base s)
    true (replaced_syscalls s) (sigill_installed s) (trapped_regions s) (t_errno s).
Definition set_replaced (n : Z) (h : replacement) (s : trap_state W) : trap_state W :=
  TrapState (t_brk s) (kernel s) (unhinted_self_call_mmap_area s) (dlbind_open_active s) (__private_nommap_malloc_heap_base s)
    (__liballocs_systrap_is_initialized s) (<[n := h]> (replaced_syscalls s)) (sigill_installed s) (trapped_regions s) (t_errno s).
Definition install_sigill_handler (s : trap_state W) : trap_state W :=
  TrapState (t_brk s) (kernel s) (unhinted_self_call_mmap_area s) (dlbind_open_active s) (__private_nommap_malloc_heap_base s)
    (__liballocs_systrap_is_initialized s) (replaced_syscalls s) true (trapped_regions s) (t_errno s).
Definition trap_one_executable_region (r : trapped_region) (s : trap_state W) : trap_state W :=
  TrapState (t_brk s) (kernel s) (unhinted_self_call_mmap_area s) (dlbind_open_active s) (__private_nommap_malloc_heap_base s)
    (__liballocs_systrap_is_initialized s) (replaced_syscalls s) (sigill_installed s) (trapped_regions s ++ [r]) (t_errno s).
Definition set_t_errno (e : Z) (s : trap_state W) : trap_state W :=
  TrapState (t_brk s) (kernel s) (unhinted_self_call_mmap_area s) (dlbind_open_active s) (__private_nommap_malloc_heap_base s)
    (__liballocs_systrap_is_initialized s) (replaced_syscalls s) (sigill_installed s) (trapped_regions s) e.

Definition on_tbrk {A} (m : M bstate A) : M (trap_state W) A := fun s =>
  match m (t_brk s) with
  | Done (a, b) => Done (a, set_t_brk b s)
  | Abort => Abort
  | NoFuel => NoFuel
  end.
Definition on_tmmap {A} (m : M mstate A) : M (trap_state W) A := on_tbrk (on_mmap m).
Definition on_ttable {A} (m : M state A) : M (trap_state W) A := on_tmmap (on_bigallocs m).
(** A call of the kernel: the result is in the register, the kernel's state changes. *)
Definition on_kernel {A} (f : W -> A * W) : M (trap_state W) A := fun s => let r := f (kernel s) in Done (fst r, set_kernel (snd r) s).
End state.

Class Kernel (W : Type) := {
  raw_mmap : Z -> Z -> Z -> Z -> Z -> Z -> W -> Z * W;
  raw_munmap : Z -> Z -> W -> Z * W;
  raw_mremap : Z -> Z -> Z -> Z -> Z -> W -> Z * W;
  raw_mprotect : Z -> Z -> Z -> W -> Z * W;
  raw_brk : Z -> W -> Z * W;
  raw_open : Z -> Z -> Z -> W -> Z * W;
  raw_openat : Z -> Z -> Z -> Z -> W -> Z * W;
}.

Class TrapEnv := {
  (** the addresses of two functions *)
  nudge_mmap_ptr : Z;
  maybe_trap_map_cb_ptr : Z;
  (** where a handler of libsystrap's returns to *)
  handler_return_address : Z;
  (** the auxiliary vector, and the name at an address *)
  auxv_entries : option (list (Z * Z));
  name_at : Z -> string;
  (** [l_addr] and [l_name] of the loaded objects *)
  link_map_entries : list (Z * string);
  realpath : string -> option string;
  addr_is_in_ld_so : Z -> bool;
  (** opening /proc/pid/maps: a descriptor, or -1; then what a read at an
      offset of at most that many bytes gives, or an error *)
  open_proc_maps : Z;
  read_proc_maps : Z -> Z -> option string;
  (** the lines that [for_each_maps_entry] finds in a buffer *)
  maps_lines : string -> list maps_entry;
}.

Record mmap_args := MmapArgs { ma_addr : Z; ma_length : Z; ma_prot : Z; ma_flags : Z; ma_fd : Z; ma_offset : Z }.

Section ops.
Context {V : Vas} {H : Hooks} {B : Build} {E : MmapEnv} {BE : BrkEnv} {SE : StaticEnv} {W : Type} {K : Kernel W} {TE : TrapEnv}.

(** ** Nudging *)

Definition IS_SELF_CALL (caller : Z) : M (trap_state W) bool :=
  h ← gets __private_nommap_malloc_heap_base;
  if h =? 0 then mret false else
  b1 ← on_ttable (__lookup_bigalloc_from_root caller static_file_allocator);
  b2 ← on_ttable (__lookup_bigalloc_from_root nudge_mmap_ptr static_file_allocator);
  mret (b1 =? b2).

Definition local_liballocs_nudge_mmap (p : mmap_args) (caller : Z) : M (trap_state W) mmap_args :=
  active ← gets dlbind_open_active;
  if (active : bool) then
    mret (MmapArgs (ma_addr p) (ma_length p) (ma_prot p) (Z.lor (Z.ldiff (ma_flags p) 3) MAP_SHARED) (ma_fd p) (ma_offset p))
  else
    unhinted ← (if negb (ma_addr p =? 0) then mret false else
                  self ← IS_SELF_CALL caller;
                  mret (self && negb (negb (Z.land (ma_flags p) MAP_FIXED =? 0) || negb (Z.land (ma_flags p) MAP_FIXED_NOREPLACE =? 0))));
    if (unhinted : bool) then
      area ← gets unhinted_self_call_mmap_area;
      modify (set_unhinted (wrap64 (area + ma_length p))) ;;
      mret (MmapArgs area (ma_length p) (ma_prot p) (ma_flags p) (ma_fd p) (ma_offset p))
    else mret p.
Definition __liballocs_nudge_mmap := local_liballocs_nudge_mmap.

(** The flags after nudging; the other arguments stay. *)
Definition __liballocs_nudge_open (flags : Z) : M (trap_state W) Z :=
  active ← gets dlbind_open_active;
  mret (if (active : bool) then Z.lor (Z.ldiff flags (Z.lor O_RDWR O_RDONLY)) O_RDWR else flags).
Definition __liballocs_nudge_openat (flags : Z) : M (trap_state W) Z :=
  active ← gets dlbind_open_active;
  mret (if (active : bool) then Z.lor (Z.ldiff flags (Z.lor O_RDWR O_RDONLY)) O_RDWR else flags).

(** ** Replacements *)

Definition brk_replacement (s : generic_syscall) : M (trap_state W) Z :=
  let brk_asked_for := arg s 0 in
  brk_returned ← on_kernel (raw_brk brk_asked_for);
  on_tbrk (__brk_allocator_notify_brk brk_returned (GUESS_CALLER s)) ;;
  mret brk_returned.

Definition mmap_replacement (s : generic_syscall) : M (trap_state W) Z :=
  let caller := GUESS_CALLER s in
  a ← __liballocs_nudge_mmap
        (MmapArgs (arg s 0) (arg s 1) (to_int (arg s 2)) (to_int (arg s 3)) (to_int (arg s 4)) (arg s 5)) caller;
  ret ← on_kernel (raw_mmap (ma_addr a) (ma_length a) (ma_prot a) (ma_flags a) (ma_fd a) (ma_offset a));
  when (negb (MMAP_RETURN_IS_ERROR ret))
    (on_tmmap (__mmap_allocator_notify_mmap ret (ma_length a) (ma_prot a) (ma_flags a) (ma_fd a) (ma_offset a) caller)) ;;
  mret ret.

Definition munmap_replacement (s : generic_syscall) : M (trap_state W) Z :=
  let addr := arg s 0 in
  let length := arg s 1 in
  ret ← on_kernel (raw_munmap addr length);
  when (ret =? 0) (on_tmmap (__mmap_allocator_notify_munmap addr length)) ;;
  mret ret.

Definition mremap_replacement (s : generic_syscall) : M (trap_state W) Z :=
  let old_addr := arg s 0 in
  let old_length := arg s 1 in
  let mremap_flags := to_int (arg s 3) in
  let maybe_new_address := arg s 4 in
  let requested_new_addr := if negb (Z.land mremap_flags MREMAP_FIXED =? 0) then maybe_new_address else MAP_FAILED in
  let addr := if requested_new_addr =? MAP_FAILED then 0 else requested_new_addr in
  a ← __liballocs_nudge_mmap (MmapArgs addr (arg s 2) 0 0 (-1) 0) handler_return_address;
  let new_length := ma_length a in
  let forced := negb (ma_addr a =? 0) in
  let maybe_new_address := if forced then ma_addr a else maybe_new_address in
  let mremap_flags := if forced then Z.lor mremap_flags MREMAP_FIXED else mremap_flags in
  ret ← on_kernel (raw_mremap old_addr old_length new_length mremap_flags maybe_new_address);
  when (negb (MMAP_RETURN_IS_ERROR ret))
    (on_tmmap (__mmap_allocator_notify_mremap ret old_addr old_length new_length mremap_flags
       (if negb (Z.land mremap_flags MREMAP_FIXED =? 0) then maybe_new_address else MAP_FAILED) (GUESS_CALLER s))) ;;
  mret ret.

Definition mprotect_replacement (s : generic_syscall) : M (trap_state W) Z :=
  let addr := arg s 0 in
  let length := arg s 1 in
  let prot := to_int (arg s 2) in
  ret ← on_kernel (raw_mprotect addr length prot);
  when (ret =? 0) (on_tmmap (__mmap_allocator_notify_mprotect addr length prot)) ;;
  mret ret.

Definition open_replacement (s : generic_syscall) : M (trap_state W) Z :=
  let path := arg s 0 in
  let mode := wrap32 (arg s 2) in
  flags ← __liballocs_nudge_open (to_int (arg s 1));
  on_kernel (raw_open path flags mode).

Definition openat_replacement (s : generic_syscall) : M (trap_state W) Z :=
  let dirfd := to_int (arg s 0) in
  let path := arg s 1 in
  let mode := wrap32 (arg s 3) in
  flags ← __liballocs_nudge_openat (to_int (arg s 2));
  on_kernel (raw_openat dirfd path flags mode).

(** The handler that an entry of [replaced_syscalls] stands for. *)
Definition run_replacement (h : replacement) : generic_syscall -> M (trap_state W) Z :=
  match h with
  | mmap_handler => mmap_replacement
  | munmap_handler => munmap_replacement
  | mremap_handler => mremap_replacement
  | brk_handler => brk_replacement
  | open_handler => open_replacement
  | openat_handler => openat_replacement
  end.

(** ** Start-up *)

Definition maybe_trap_map_cb (ent : maps_entry) : M (trap_state W) unit :=
  if x_flag ent && negb ((first ent <=? maybe_trap_map_cb_ptr) && (maybe_trap_map_cb_ptr <? second ent)) then
    modify (trap_one_executable_region
      (TrappedRegion (first ent) (second ent) (rest ent) (w_flag ent) (r_flag ent) (addr_is_in_ld_so (first ent))))
  else mret tt.

(** The callback on each line in turn. *)
Fixpoint trap_lines (l : list maps_entry) : M (trap_state W) unit :=
  match l with
  | [] => mret tt
  | ent :: l => maybe_trap_map_cb ent ;; trap_lines l
  end.

Definition auxv_lookup (l : list (Z * Z)) (t : Z) : option Z := snd <$> List.find (fun x => fst x =? t) l.

Definition interpreter_name (auxv : list (Z * Z)) : M (trap_state W) (option string) :=
  match auxv_lookup auxv AT_BASE with
  | None => abort
  | Some base =>
    if base =? 0 then
      match auxv_lookup auxv AT_EXECFN with
      | None => abort
      | Some a => mret (realpath (name_at a))
      end
    else mret (fold_left (fun r l => if fst l =? base then realpath (snd l) else r) link_map_entries None)
  end.

Definition filebuf_sz : Z := 64 * 8192.
Definition amt_to_read : Z := 4096.

(** Reading the whole file: each turn but the last reads a byte at least. *)
Fixpoint read_loop (fuel : nat) (filebuf : string) : M (trap_state W) string :=
  match fuel with
  | O => nofuel
  | S fuel =>
    let pos := Z.of_nat (String.length filebuf) in
    if filebuf_sz - pos <? amt_to_read then mret filebuf else
    match read_proc_maps pos amt_to_read with
    | None => mret filebuf
    | Some EmptyString => mret filebuf
    | Some chunk => read_loop fuel (filebuf ++ chunk)%string
    end
  end.

Definition __liballocs_systrap_init : M (trap_state W) unit :=
  i ← gets __liballocs_systrap_is_initialized;
  if (i : bool) then mret tt else
  modify (set_replaced SYS_mmap mmap_handler) ;;
  modify (set_replaced SYS_munmap munmap_handler) ;;
  modify (set_replaced SYS_mremap mremap_handler) ;;
  modify (set_replaced SYS_brk brk_handler) ;;
  modify (set_replaced SYS_open open_handler) ;;
  modify (set_replaced SYS_openat openat_handler) ;;
  match auxv_entries with
  | None => abort
  | Some auxv =>
    fname ← interpreter_name auxv;
    match fname with
    | None => abort
    | Some _ =>
      modify install_sigill_handler ;;
      if open_proc_maps =? -1 then abort else
      filebuf ← read_loop (Z.to_nat (filebuf_sz + 1)) EmptyString;
      trap_lines (maps_lines filebuf) ;;
      modify set_trap_initialized
    end
  end.

(** ** Calls of the library itself *)

(** [mmap] of preload.c; [caller] is its return address. *)
Definition mmap (addr length prot flags fd offset caller : Z) : M (trap_state W) Z :=
  a ← __liballocs_nudge_mmap (MmapArgs addr length prot flags fd offset) caller;
  ret ← on_kernel (raw_mmap (ma_addr a) (ma_length a) (ma_prot a) (ma_flags a) (ma_fd a) (ma_offset a));
  when (MMAP_RETURN_IS_ERROR ret) (modify (set_t_errno (- to_int ret))) ;;
  let ret := if MMAP_RETURN_IS_ERROR ret then MAP_FAILED else ret in
  if BIGGEST_SANE_USER_ALLOC <? ma_length a then mret ret else
  if negb (MMAP_RETURN_IS_ERROR ret) then
    i ← gets __liballocs_systrap_is_initialized;
    if negb (i : bool) then mret ret else
    on_tmmap (__mmap_allocator_notify_mmap ret (ma_length a) (ma_prot a) (ma_flags a) (ma_fd a) (ma_offset a) caller) ;;
    mret ret
  else
    modify (set_t_errno (to_int (- (ret - 2 ^ 64)))) ;;
    mret MAP_FAILED.

(** [mremap] of preload.c; [new_address] is the optional argument, and
    [orig_mremap] the next definition in the link. *)
Definition mremap (orig_mremap : Z -> Z -> Z -> Z -> option Z -> M (trap_state W) Z)
    (old_addr old_size new_size mremap_flags new_address caller : Z) : M (trap_state W) Z :=
  let requested_new_addr := if negb (Z.land mremap_flags MREMAP_FIXED =? 0) then new_address else MAP_FAILED in
  let addr := if requested_new_addr =? MAP_FAILED then 0 else requested_new_addr in
  a ← __liballocs_nudge_mmap (MmapArgs addr new_size 0 0 (-1) 0) caller;
  let forced := negb (ma_addr a =? 0) in
  let requested_new_addr := if forced then ma_addr a else requested_new_addr in
  let mremap_flags := if forced then Z.lor mremap_flags MREMAP_FIXED else mremap_flags in
  orig_mremap old_addr old_size (ma_length a) mremap_flags
    (if negb (Z.land mremap_flags MREMAP_FIXED =? 0) then Some requested_new_addr else None).

Definition signal (orig_signal : Z -> Z -> M (trap_state W) Z) (signum handler : Z) : M (trap_state W) Z :=
  if signum =? SIGILL then modify (set_t_errno ENOTSUP) ;; mret SIG_ERR
  else orig_signal signum handler.

(** [act] is 0 for a null pointer. *)
Definition sigaction (orig_sigaction : Z -> Z -> Z -> M (trap_state W) Z) (signum act oldact : Z) : M (trap_state W) Z :=
  if (signum =? SIGILL) && negb (act =? 0) then orig_sigaction SIGILL 0 oldact
  else orig_sigaction signum act oldact.
End ops.
