(* ===== verification/SystrapTheorems.v ===== *)
(** The contract of the traps: after every trapped call the library's account
    of the address space is the kernel's, and start-up traps every executable
    mapping but the library's own. *)
From stdpp Require Import strings.
From S2P Require Import Prelude DList Vas BigAlloc PageIndex PageIndexQuery BigAllocFacts Forest Traversal.
From S2P Require Import Create Delete Resize QueryCorrect Reachable Demo.
From S2P Require Import MappingSeq MappingSeqFacts Mmap MmapFacts MapFacts Brk BrkFacts MappingTheorems AllocSites.
From S2P Require Import MallocMeta Uniqtype Subobject Query StaticData StaticFacts StaticLoad StaticTheorems Systrap.

(** ** What the kernel promises *)

(** Protection, flags and descriptor with which the page at each address was
    mapped, [None] where nothing is mapped. *)
Class KernelLaws {V : Vas} {W : Type} (K : Kernel W) := {
  mapped_with : W -> Z -> option (Z * Z * Z);
  kernel_mmap addr len prot flags fd off w a :
    let r := raw_mmap addr len prot flags fd off w in
    mapped_with (snd r) a =
      if MMAP_RETURN_IS_ERROR (fst r) then mapped_with w a
      else if decide (fst r <= a < fst r + ROUND_UP len PAGE_SIZE) then Some (prot, flags, fd) else mapped_with w a;
  kernel_munmap addr len w a :
    let r := raw_munmap addr len w in
    mapped_with (snd r) a =
      if fst r =? 0 then if decide (addr <= a < addr + ROUND_UP len PAGE_SIZE) then None else mapped_with w a
      else mapped_with w a;
}.

(** Calls that reach the library: trapped ones, and the library's own. *)
Inductive trapped :=
| Tmmap (g : generic_syscall)
| Tmunmap (g : generic_syscall)
| Town (addr length prot flags fd offset caller : Z).

Section in_step.
Context {V : Vas} {VL : VasLaws V} {H : Hooks} {E : MmapEnv} {EL : MmapLaws E} {BE : BrkEnv} {SE : StaticEnv} {SL : StaticLaws E SE}.
Context {W : Type} {K : Kernel W} {KL : KernelLaws K} {TE : TrapEnv}.
#[local] Existing Instance release.

Definition t_mmap (s : trap_state W) : mstate := b_mmap (t_brk s).
Definition set_t_mmap (m : mstate) (s : trap_state W) : trap_state W := set_t_brk (set_b_mmap m (t_brk s)) s.

(** What the kernel has at an address: protection, flags and whether the
    descriptor had a file. *)
Definition kernel_view (w : W) (a : Z) : option (Z * Z * bool) :=
  (fun x => (fst (fst x), snd (fst x), is_null (filename_for_fd (snd x)))) <$> mapped_with w a.

(** The library says of each address what the kernel does; the caller, which
    it also records, is not the kernel's to know. *)
Definition in_step (s : trap_state W) : Prop :=
  exists f, represents (t_mmap s) f /\ forall a, kernel_view (kernel s) a = fst <$> f a.

Definition trap (c : trapped) : M (trap_state W) Z :=
  match c with
  | Tmmap g => mmap_replacement g
  | Tmunmap g => munmap_replacement g
  | Town addr length prot flags fd offset caller => mmap addr length prot flags fd offset caller
  end.
Fixpoint trap_all (l : list trapped) : M (trap_state W) unit :=
  match l with
  | [] => mret tt
  | c :: l => trap c ;; trap_all l
  end.

(** If the kernel maps something for these arguments, the library covers the notification. *)
Definition mapping_covered (s : trap_state W) (p : mmap_args) (caller : Z) : Prop :=
  user_address caller /\
  forall q s1, __liballocs_nudge_mmap p caller s = Done (q, s1) ->
  let r := fst (raw_mmap (ma_addr q) (ma_length q) (ma_prot q) (ma_flags q) (ma_fd q) (ma_offset q) (kernel s)) in
  MMAP_RETURN_IS_ERROR r = false ->
  covered (t_mmap s) (Smmap r (ma_length q) (ma_prot q) (ma_flags q) (ma_fd q) (ma_offset q) caller).

Definition args_of (g : generic_syscall) : mmap_args :=
  MmapArgs (arg g 0) (arg g 1) (to_int (arg g 2)) (to_int (arg g 3)) (to_int (arg g 4)) (arg g 5).

Definition trap_covered (s : trap_state W) (c : trapped) : Prop :=
  match c with
  | Tmmap g => mapping_covered s (args_of g) (GUESS_CALLER g)
  | Tmunmap g => fst (raw_munmap (arg g 0) (arg g 1) (kernel s)) = 0 -> covered (t_mmap s) (Smunmap (arg g 0) (arg g 1))
  | Town addr length prot flags fd offset caller =>
    mapping_covered s (MmapArgs addr length prot flags fd offset) caller /\ length <= BIGGEST_SANE_USER_ALLOC /\
    __liballocs_systrap_is_initialized s = true
  end.
Fixpoint trap_covered_all (s : trap_state W) (l : list trapped) : Prop :=
  match l with
  | [] => True
  | c :: l => trap_covered s c /\ forall r s', trap c s = Done (r, s') -> trap_covered_all s' l
  end.

(** ** Nudging *)

Lemma on_tmmap_Done {A} (m : M mstate A) s a t : m (t_mmap s) = Done (a, t) -> on_tmmap m s = Done (a, set_t_mmap t s).
Proof. intros Em. unfold on_tmmap, on_tbrk, on_mmap. unfold t_mmap in Em. by rewrite Em. Qed.

Lemma set_t_mmap_same s : set_t_mmap (t_mmap s) s = s.
Proof. by destruct s as [[] ? ? ? ? ? ? ? ? ?]. Qed.

Lemma trap_lookup_ok s addr : systrap_is_initialized = true -> mmap_ok (t_mmap s) -> user_address addr ->
  exists r, on_ttable (__lookup_bigalloc_from_root addr static_file_allocator) s = Done (r, s).
Proof.
  intros Sys Km Ha. destruct (mk_table _ Km) as [Wf I _ _].
  destruct (find_from_root_ok (m_table (t_mmap s)) addr static_file_allocator false Wf I Ha (proj1 static_nonnull) (or_intror Sys)) as (r & Er & _).
  exists r. unfold on_ttable. rewrite (on_tmmap_Done _ s r (t_mmap s)); [by rewrite set_t_mmap_same|]. apply on_bigallocs_read.
  unfold __lookup_bigalloc_from_root. by rewrite (bind_Done _ _ _ tt (m_table (t_mmap s))) by done.
Qed.

(** Nudging returns, keeps the length, and changes nothing but the next hint. *)
Lemma nudge_ok p caller s : systrap_is_initialized = true -> mmap_ok (t_mmap s) -> user_address caller -> user_address nudge_mmap_ptr ->
  exists q u, __liballocs_nudge_mmap p caller s = Done (q, set_unhinted u s) /\ ma_length q = ma_length p.
Proof.
  intros Sys Km Hc Hn.
  assert (Hs : forall {A} (o : A), Done (o, s) = Done (o, set_unhinted (unhinted_self_call_mmap_area s) s)) by (by destruct s).
  destruct (trap_lookup_ok s caller Sys Km Hc) as [b1 E1], (trap_lookup_ok s nudge_mmap_ptr Sys Km Hn) as [b2 E2].
  assert (Es : exists b, IS_SELF_CALL caller s = Done (b, s)).
  { unfold IS_SELF_CALL. rewrite (bind_Done _ _ s (__private_nommap_malloc_heap_base s) s) by done.
    destruct (__private_nommap_malloc_heap_base s =? 0); [by eexists|].
    rewrite (bind_Done _ _ _ _ _ E1), (bind_Done _ _ _ _ _ E2). by eexists. }
  destruct Es as [b Es]. unfold __liballocs_nudge_mmap, local_liballocs_nudge_mmap.
  rewrite (bind_Done _ _ s (dlbind_open_active s) s) by done. destruct (dlbind_open_active s).
  { eexists _, _. by rewrite <- Hs. }
  destruct (ma_addr p =? 0); cbn [negb].
  2: { rewrite (bind_Done _ _ s false s) by done. eexists _, _. by rewrite <- Hs. }
  rewrite bind_bind, (bind_Done _ _ _ _ _ Es). set (u := b && _). rewrite (bind_Done _ _ s u s) by done. destruct u.
  - by eexists _, _.
  - eexists _, _. by rewrite <- Hs.
Qed.

(** ** One call *)

(** The kernel has done a call and the library is told. *)
Lemma told_ok s w c : systrap_is_initialized = true -> in_step s -> covered (t_mmap s) c ->
  (forall f, (forall a, kernel_view (kernel s) a = fst <$> f a) -> forall a, kernel_view w a = fst <$> effect c f a) ->
  exists t, on_tmmap (notified c) (set_kernel w s) = Done (tt, set_t_mmap t (set_kernel w s)) /\
    in_step (set_t_mmap t (set_kernel w s)).
Proof.
  intros Sys (f & R & P) Hc Hw. destruct (notified_ok (t_mmap s) f c Sys R Hc) as (t & Et & Rt).
  exists t. split; [by apply on_tmmap_Done|]. exists (effect c f). split; [exact Rt|]. by apply Hw.
Qed.

(** The kernel's answer to an mmap, and the notification. *)
Lemma mapped_ok s q caller : systrap_is_initialized = true -> in_step s ->
  let r := raw_mmap (ma_addr q) (ma_length q) (ma_prot q) (ma_flags q) (ma_fd q) (ma_offset q) (kernel s) in
  (MMAP_RETURN_IS_ERROR (fst r) = false ->
     covered (t_mmap s) (Smmap (fst r) (ma_length q) (ma_prot q) (ma_flags q) (ma_fd q) (ma_offset q) caller)) ->
  if MMAP_RETURN_IS_ERROR (fst r) then in_step (set_kernel (snd r) s) else
  exists s', on_tmmap (__mmap_allocator_notify_mmap (fst r) (ma_length q) (ma_prot q) (ma_flags q) (ma_fd q) (ma_offset q) caller)
      (set_kernel (snd r) s) = Done (tt, s') /\ in_step s'.
Proof.
  intros Sys St r Hc. pose proof (kernel_mmap (ma_addr q) (ma_length q) (ma_prot q) (ma_flags q) (ma_fd q) (ma_offset q) (kernel s)) as Hk.
  fold r in Hk. cbv zeta in Hk. destruct (MMAP_RETURN_IS_ERROR (fst r)).
  - destruct St as (f & R & P). exists f. split; [done|]. intros a. cbn [kernel set_kernel]. unfold kernel_view. by rewrite Hk, <- P.
  - destruct (told_ok s (snd r) _ Sys St (Hc eq_refl)) as (t & Et & St'); [|by eexists].
    intros f P a. unfold kernel_view. rewrite Hk. unfold effect. case_decide; [done|apply P].
Qed.

Lemma in_step_unhinted u s : in_step s -> in_step (set_unhinted u s).
Proof. done. Qed.
Lemma in_step_errno e s : in_step s -> in_step (set_t_errno e s).
Proof. done. Qed.

Lemma trap_ok s c : systrap_is_initialized = true -> user_address nudge_mmap_ptr -> in_step s -> trap_covered s c ->
  exists r s', trap c s = Done (r, s') /\ in_step s'.
Proof.
  intros Sys Hn St Hc. assert (Km : mmap_ok (t_mmap s)) by (by destruct St as (f & [Km _] & _)).
  destruct c as [g|g|addr len prot flags fd off caller]; cbn [trap trap_covered] in *.
  - destruct Hc as [Hca Hc]. destruct (nudge_ok (args_of g) (GUESS_CALLER g) s Sys Km Hca Hn) as (q & u & Eq & _).
    pose proof (mapped_ok (set_unhinted u s) q (GUESS_CALLER g) Sys (in_step_unhinted u s St) (Hc q _ Eq)) as Hm. cbv zeta in Hm.
    unfold mmap_replacement. fold (args_of g). rewrite (bind_Done _ _ _ _ _ Eq).
    set (r := raw_mmap _ _ _ _ _ _ _) in Hm. rewrite (bind_Done _ _ (set_unhinted u s) (fst r) (set_kernel (snd r) (set_unhinted u s))) by done.
    destruct (MMAP_RETURN_IS_ERROR (fst r)); [by eexists _, _|]. destruct Hm as (s' & E' & St'). cbn [negb when].
    rewrite (bind_Done _ _ _ _ _ E'). by eexists _, _.
  - unfold munmap_replacement. pose proof (kernel_munmap (arg g 0) (arg g 1) (kernel s)) as Hk. cbv zeta in Hk.
    set (r := raw_munmap _ _ _) in *. rewrite (bind_Done _ _ s (fst r) (set_kernel (snd r) s)) by done. destruct (Z.eqb_spec (fst r) 0) as [E0|N0].
    + destruct (told_ok s (snd r) _ Sys St (Hc E0)) as (t & Et & St').
      { intros f P a. unfold kernel_view. rewrite Hk. unfold effect. case_decide; [done|apply P]. }
      cbn [when]. rewrite (bind_Done _ _ _ _ _ Et). by eexists _, _.
    + destruct St as (f & R & P). eexists _, _. split; [done|]. exists f. split; [done|]. intros a. cbn [kernel set_kernel]. unfold kernel_view. by rewrite Hk, <- P.
  - destruct Hc as ([Hca Hc] & Hl & Hi). set (p := MmapArgs addr len prot flags fd off) in *.
    destruct (nudge_ok p caller s Sys Km Hca Hn) as (q & u & Eq & Lq).
    pose proof (mapped_ok (set_unhinted u s) q caller Sys (in_step_unhinted u s St) (Hc q _ Eq)) as Hm. cbv zeta in Hm.
    unfold mmap. fold p. rewrite (bind_Done _ _ _ _ _ Eq). set (r := raw_mmap _ _ _ _ _ _ _) in Hm.
    set (s1 := set_kernel (snd r) (set_unhinted u s)) in Hm. rewrite (bind_Done _ _ (set_unhinted u s) (fst r) s1) by done.
    assert (El : (BIGGEST_SANE_USER_ALLOC <? ma_length q) = false) by (apply Z.ltb_ge; rewrite Lq; exact Hl). rewrite El.
    destruct (MMAP_RETURN_IS_ERROR (fst r)) eqn:Er; cbn [when negb].
    + rewrite (bind_Done _ _ s1 tt (set_t_errno (- to_int (fst r)) s1)) by done.
      replace (MMAP_RETURN_IS_ERROR MAP_FAILED) with true by done. cbn [negb]. eexists _, _. split; [done|]. by apply in_step_errno, in_step_errno.
    + rewrite (bind_Done _ _ s1 tt s1) by done. rewrite Er. cbn [negb]. rewrite (bind_Done _ _ s1 true s1) by (by rewrite <- Hi). cbn [negb].
      destruct Hm as (s' & E' & St'). rewrite (bind_Done _ _ _ _ _ (E' : _ s1 = _)). by eexists _, _.
Qed.

(** C3.  Trapping keeps the library in step with the kernel.  Take a list of
    trapped calls of mmap and munmap and of the library's own mmaps, nudged or
    not, granted or refused by the kernel, such that each call's caller is a
    user address, each mapping the kernel makes or removes is one that the mmap
    allocator covers at that point ([covered], see C2), and the library's own
    mmaps are of sane length and come after start-up ([trap_covered]).  Then
    every call returns, and afterwards the bigallocs and mapping sequences have
    a mapping at exactly the addresses where the kernel has one, with the
    protection and flags it was made with and anonymous exactly when its
    descriptor had no file. *)
Theorem traps_keep_step l s :
  systrap_is_initialized = true -> user_address nudge_mmap_ptr -> in_step s -> trap_covered_all s l ->
  exists s', trap_all l s = Done (tt, s') /\ in_step s'.
Proof.
  intros Sys Hn St Hl. induction l as [|c l IH] in s, St, Hl |- *; [by exists s|]. destruct Hl as [Hc Hl].
  destruct (trap_ok s c Sys Hn St Hc) as (r & s1 & E1 & St1). destruct (IH s1 St1 (Hl r s1 E1)) as (s' & E' & St').
  exists s'. split; [|done]. cbn [trap_all]. by rewrite (bind_Done _ _ _ _ _ E1).
Qed.
End in_step.

(** ** Further facts about single calls *)

Section calls.
Context {V : Vas} {VL : VasLaws V} {H : Hooks} {E : MmapEnv} {EL : MmapLaws E} {BE : BrkEnv} {SE : StaticEnv}.
Context {W : Type} {K : Kernel W} {TE : TrapEnv}.
#[local] Existing Instance release.

(** A trapped brk: whether or not the kernel moves the break, the brk area ends
    at the break that it returns. *)
Lemma trapped_break g (s : trap_state W) p :
  let b := t_brk s in let m := brk_mapping_bigalloc (b_mmap b) in let bb := __brk_bigalloc b in
  let r := raw_brk (arg g 0) (kernel s) in
  brk_ok b p -> __curbrk b = b_end (ba (m_table (b_mmap b)) bb) -> break_fits (b_mmap b) bb (fst r) ->
  (b_end (ba (m_table (b_mmap b)) m) < ROUND_UP (fst r) PAGE_SIZE ->
     exists q, sequences (b_mmap b) !! p = Some q /\ can_grow q) ->
  exists s', brk_replacement g s = Done (fst r, s') /\ kernel s' = snd r /\ brk_ok (t_brk s') p /\
    b_end (ba (m_table (b_mmap (t_brk s'))) bb) = fst r.
Proof.
  intros b m bb r Hb Hc Hf Hg. destruct (brk_notify_ok b p (fst r) (GUESS_CALLER g) Hb Hc Hf Hg) as (b' & E' & Hb' & Mv & _).
  exists (set_t_brk b' (set_kernel (snd r) s)). unfold brk_replacement.
  rewrite (bind_Done _ _ s (fst r) (set_kernel (snd r) s)) by done.
  rewrite (bind_Done _ _ _ tt (set_t_brk b' (set_kernel (snd r) s))).
  2: { unfold on_tbrk. change (t_brk (set_kernel (snd r) s)) with b. by rewrite E'. }
  split_and!; [done|done|done|]. apply (bm_area _ _ _ _ Mv).
Qed.

(** An mmap of the library's own that the kernel refuses leaves EPERM in errno,
    whatever the kernel's reason was. *)
Lemma own_mmap_errno addr len prot flags fd off caller (s s1 s' : trap_state W) q r :
  __liballocs_nudge_mmap (MmapArgs addr len prot flags fd off) caller s = Done (q, s1) ->
  MMAP_RETURN_IS_ERROR (fst (raw_mmap (ma_addr q) (ma_length q) (ma_prot q) (ma_flags q) (ma_fd q) (ma_offset q) (kernel s1))) = true ->
  ma_length q <= BIGGEST_SANE_USER_ALLOC ->
  mmap addr len prot flags fd off caller s = Done (r, s') -> r = MAP_FAILED /\ t_errno s' = 1.
Proof.
  intros Eq Er Hl. unfold mmap. rewrite (bind_Done _ _ _ _ _ Eq). set (k := raw_mmap _ _ _ _ _ _ _) in Er.
  rewrite (bind_Done _ _ s1 (fst k) (set_kernel (snd k) s1)) by done. rewrite Er. cbn [when].
  rewrite (bind_Done _ _ _ tt (set_t_errno (- to_int (fst k)) (set_kernel (snd k) s1))) by done.
  assert (El : (BIGGEST_SANE_USER_ALLOC <? ma_length q) = false) by (by apply Z.ltb_ge). rewrite El.
  replace (MMAP_RETURN_IS_ERROR MAP_FAILED) with true by done. cbn [negb]. by intros [= <- <-].
Qed.

(** A trapped mremap without a fixed address is made to move to the next hint
    whenever the handler's return address lies in the file that the nudging
    function lies in. *)
Lemma mremap_is_forced g (s : trap_state W) : dlbind_open_active s = false ->
  Z.land (to_int (arg g 3)) MREMAP_FIXED = 0 -> unhinted_self_call_mmap_area s <> 0 ->
  IS_SELF_CALL handler_return_address s = Done (true, s) ->
  forall r s', mremap_replacement g s = Done (r, s') ->
  r = fst (raw_mremap (arg g 0) (arg g 1) (arg g 2) (Z.lor (to_int (arg g 3)) MREMAP_FIXED) (unhinted_self_call_mmap_area s) (kernel s)).
Proof.
  intros Ha Hf Hu Hs r s'. unfold mremap_replacement. rewrite Hf. cbn [Z.eqb negb].
  set (s1 := set_unhinted (wrap64 (unhinted_self_call_mmap_area s + arg g 2)) s).
  rewrite (bind_Done _ _ s (MmapArgs (unhinted_self_call_mmap_area s) (arg g 2) 0 0 (-1) 0) s1).
  2: { unfold __liballocs_nudge_mmap, local_liballocs_nudge_mmap. rewrite (bind_Done _ _ s false s) by (by rewrite <- Ha).
       cbn [ma_addr ma_flags ma_length ma_prot ma_fd ma_offset]. replace (MAP_FAILED =? MAP_FAILED) with true by done. cbn [Z.eqb negb].
       rewrite bind_bind, (bind_Done _ _ _ _ _ Hs). done. }
  cbn [ma_addr ma_length]. rewrite (proj2 (Z.eqb_neq _ _) Hu). cbn [negb].
  set (k := raw_mremap _ _ _ _ _ (kernel s)). rewrite (bind_Done _ _ s1 (fst k) (set_kernel (snd k) s1)) by done.
  intros Hd. unfold mbind, M_bind in Hd. destruct (when _ _ _) as [[[] ?]| |]; [|done..]. by injection Hd as ->.
Qed.
End calls.

(** ** Start-up *)

(** Reads of the file give its bytes in order, some of them while any are left. *)
Definition reads {TE : TrapEnv} (contents : string) : Prop :=
  forall done_ left, contents = (done_ ++ left)%string ->
  exists chunk left', left = (chunk ++ left')%string /\ (left <> EmptyString -> chunk <> EmptyString) /\
    read_proc_maps (Z.of_nat (String.length done_)) amt_to_read = Some chunk.

Section init.
Context {W : Type} {TE : TrapEnv}.

Lemma read_loop_ok contents fuel done_ left (s : trap_state W) : reads contents ->
  Z.of_nat (String.length contents) <= filebuf_sz - amt_to_read -> contents = (done_ ++ left)%string ->
  (String.length left < fuel)%nat -> read_loop fuel done_ s = Done (contents, s).
Proof.
  intros Hr Hs. induction fuel as [|fuel IH] in done_, left |- *; [lia|]. intros Ec Hf. cbn [read_loop].
  assert (Hd : (String.length done_ <= String.length contents)%nat) by (rewrite Ec, string_length_app; lia).
  rewrite (proj2 (Z.ltb_ge (filebuf_sz - Z.of_nat (String.length done_)) amt_to_read)) by (unfold filebuf_sz, amt_to_read in *; lia).
  destruct (Hr done_ left Ec) as (chunk & left' & El & Hn & Er). rewrite Er. destruct chunk as [|c chunk].
  - destruct left as [|c left]; [by rewrite Ec, string_app_nil|]. by destruct (Hn ltac:(done)).
  - apply (IH _ left'); [by rewrite Ec, El, string_app_assoc|]. rewrite El, string_length_app in Hf. cbn in Hf. lia.
Qed.

(** The mappings to trap: the executable ones that do not hold the callback. *)
Definition to_trap (ent : maps_entry) : bool :=
  x_flag ent && negb ((first ent <=? maybe_trap_map_cb_ptr) && (maybe_trap_map_cb_ptr <? second ent)).
Definition region_of (ent : maps_entry) : trapped_region :=
  TrappedRegion (first ent) (second ent) (rest ent) (w_flag ent) (r_flag ent) (addr_is_in_ld_so (first ent)).
Definition set_trapped (l : list trapped_region) (s : trap_state W) : trap_state W :=
  TrapState (t_brk s) (kernel s) (unhinted_self_call_mmap_area s) (dlbind_open_active s) (__private_nommap_malloc_heap_base s)
    (__liballocs_systrap_is_initialized s) (replaced_syscalls s) (sigill_installed s) l (t_errno s).

Lemma for_each_ok l (s : trap_state W) :
  trap_lines l s = Done (tt, set_trapped (trapped_regions s ++ map region_of (List.filter to_trap l)) s).
Proof.
  induction l as [|ent l IH] in s |- *; cbn [trap_lines List.filter].
  - rewrite app_nil_r. by destruct s.
  - unfold maybe_trap_map_cb. fold (to_trap ent). destruct (to_trap ent).
    + rewrite (bind_Done _ _ s tt (trap_one_executable_region (region_of ent) s)) by done. rewrite IH.
      cbn [map trapped_regions trap_one_executable_region]. by rewrite <- app_assoc.
    + by rewrite (bind_Done _ _ s tt s), IH by done.
Qed.

(** The calls that are replaced. *)
Definition replacements : gmap Z replacement :=
  <[SYS_openat := openat_handler]> (<[SYS_open := open_handler]> (<[SYS_brk := brk_handler]>
    (<[SYS_mremap := mremap_handler]> (<[SYS_munmap := munmap_handler]> (<[SYS_mmap := mmap_handler]> ∅))))).

(** C40.  Start-up, when the interpreter's name can be found and the memory map
    of the process can be read and fits the buffer: however short the reads
    are, the whole map is read; each executable mapping in it is trapped once,
    in order, but for the one that holds the library's own code; handlers are
    installed for six system calls; nothing else changes; and a second call
    does nothing. *)
Theorem traps_installed auxv fname contents (s : trap_state W) :
  __liballocs_systrap_is_initialized s = false -> replaced_syscalls s = ∅ ->
  auxv_entries = Some auxv -> (forall t : trap_state W, interpreter_name auxv t = Done (Some fname, t)) ->
  open_proc_maps <> -1 -> reads contents -> Z.of_nat (String.length contents) <= filebuf_sz - amt_to_read ->
  exists s', __liballocs_systrap_init s = Done (tt, s') /\
    s' = TrapState (t_brk s) (kernel s) (unhinted_self_call_mmap_area s) (dlbind_open_active s) (__private_nommap_malloc_heap_base s)
           true replacements true (trapped_regions s ++ map region_of (List.filter to_trap (maps_lines contents))) (t_errno s) /\
    __liballocs_systrap_init s' = Done (tt, s').
Proof.
  intros Hi He Ha Hn Ho Hr Hl. eexists. split; [|split; [reflexivity|done]].
  unfold __liballocs_systrap_init. rewrite (bind_Done _ _ s false s) by (by rewrite <- Hi). cbn iota.
  do 6 (rewrite (bind_Done _ _ _ tt _ eq_refl)). rewrite Ha. rewrite (bind_Done _ _ _ _ _ (Hn _)).
  rewrite (bind_Done _ _ _ tt _ eq_refl). rewrite (proj2 (Z.eqb_neq _ _) Ho).
  assert (Hf : (String.length contents < Z.to_nat (filebuf_sz + 1))%nat) by (unfold filebuf_sz, amt_to_read in *; lia).
  rewrite (bind_Done _ _ _ contents _ (read_loop_ok contents _ EmptyString contents _ Hr Hl eq_refl Hf)).
  rewrite (bind_Done _ _ _ _ _ (for_each_ok _ _)). unfold replacements. by rewrite <- He.
Qed.
End init.

(** ** Instances *)

(** A kernel that grants every mapping with an address; its state lists the changes, latest first. *)
Definition changes : Type := list (Z * Z * option (Z * Z * Z)).
Fixpoint mapped_in (w : changes) (a : Z) : option (Z * Z * Z) :=
  match w with
  | [] => None
  | (lo, hi, x) :: w => if decide (lo <= a < hi) then x else mapped_in w a
  end.
#[local] Instance demo_kernel : Kernel changes := {|
  raw_mmap addr len prot flags fd _ w :=
    if (addr =? 0) || MMAP_RETURN_IS_ERROR addr then (2 ^ 64 - 12, w)
    else (addr, (addr, addr + ROUND_UP len PAGE_SIZE, Some (prot, flags, fd)) :: w);
  raw_munmap addr len w := (0, (addr, addr + ROUND_UP len PAGE_SIZE, None) :: w);
  raw_mremap _ _ _ _ _ w := (2 ^ 64 - 12, w);
  raw_mprotect _ _ _ w := (-1, w);
  raw_brk _ w := (0, w);
  raw_open _ _ _ w := (3, w);
  raw_openat _ _ _ _ w := (3, w);
|}.
#[local] Instance demo_kernel_laws : KernelLaws demo_kernel.
Proof.
  refine {| mapped_with := mapped_in |}.
  - intros addr len prot flags fd off w a. cbn [raw_mmap demo_kernel]. destruct (addr =? 0) eqn:E0; [done|]. cbn [orb].
    destruct (MMAP_RETURN_IS_ERROR addr) eqn:Ee; [done|]. cbn [fst snd]. by rewrite Ee.
  - done.
Defined.
#[local] Existing Instances trapped_hooks demo_mmap_env demo_mmap_laws demo_brk_env demo_static demo_static_laws.

(** The map of the process is read one byte at a time; of its lines two are executable, one of them the library's. *)
Definition demo_maps : string := "maps".
#[local] Instance demo_trap_env : TrapEnv := {|
  nudge_mmap_ptr := 0x12000;
  maybe_trap_map_cb_ptr := 0x12100;
  handler_return_address := 0x12200;
  auxv_entries := Some [(AT_BASE, 0x40000)];
  name_at _ := EmptyString;
  link_map_entries := [(0, "a.out"%string); (0x40000, "/lib/ld.so"%string)];
  realpath := Some;
  addr_is_in_ld_so a := a =? 0x40000;
  open_proc_maps := 3;
  read_proc_maps pos n := Some (String.substring (Z.to_nat pos) 1 demo_maps);
  maps_lines _ := [MapsEntry 0x10000 0x20000 true false true true 0 "/lib/liballocs.so"%string;
                   MapsEntry 0x40000 0x42000 true false true true 0 "/lib/ld.so"%string;
                   MapsEntry 0x42000 0x44000 true true false true 0 "/lib/ld.so"%string];
|}.
Definition trap_demo0 : trap_state changes :=
  TrapState (BState space0 0 0 0 false false) [] 0x70fffffff000 false 0x10000 true ∅ false [] 0.
Definition trapped_call (c : list Z) : generic_syscall := GenericSyscall c 0x5555.

(** A mapping at an address, an own one after it, one that replaces a page of
    the first, one at the null address that the kernel refuses, an own one that
    is given a hint, and the unmapping of a page. *)
Definition trap_call1 : trapped := Tmmap (trapped_call [0x60000; 0x2000; 3; 0x22; 2 ^ 64 - 1; 0]).
Definition trap_call2 : trapped := Town 0x62000 0x1000 1 0x22 (-1) 0 0x5555.
Definition trap_call3 : trapped := Tmmap (trapped_call [0x61000; 0x1000; 1; 0x32; 2 ^ 64 - 1; 0]).
Definition trap_call4 : trapped := Tmmap (trapped_call [0; 0x1000; 1; 0x32; 2 ^ 64 - 1; 0]).
Definition trap_call5 : trapped := Town 0 0x1000 3 0x22 (-1) 0 0x12000.
Definition trap_call6 : trapped := Tmunmap (trapped_call [0x60000; 0x1000]).

Definition after_trap (c : trapped) (s : trap_state changes) : trap_state changes :=
  match trap c s with Done (_, s') => s' | _ => s end.
Definition trap_demo1 : trap_state changes := set_t_mmap space1 (set_kernel [(0x60000, 0x62000, Some (3, 0x22, -1))] trap_demo0).
Definition trap_demo2 : trap_state changes :=
  set_t_mmap space2 (set_kernel ((0x62000, 0x63000, Some (1, 0x22, -1)) :: kernel trap_demo1) trap_demo1).
Definition trap_demo3 : trap_state changes :=
  set_t_mmap space3 (set_kernel ((0x61000, 0x62000, Some (1, 0x32, -1)) :: kernel trap_demo2) trap_demo2).
Definition trap_demo5 : trap_state changes := after_trap trap_call5 trap_demo3.
Definition trap_demo6 : trap_state changes := after_trap trap_call6 trap_demo5.

Lemma trap_demos : trap trap_call1 trap_demo0 = Done (0x60000, trap_demo1) /\ trap trap_call2 trap_demo1 = Done (0x62000, trap_demo2) /\
  trap trap_call3 trap_demo2 = Done (0x61000, trap_demo3) /\ trap trap_call4 trap_demo3 = Done (2 ^ 64 - 12, trap_demo3) /\
  trap trap_call5 trap_demo3 = Done (0x70fffffff000, trap_demo5) /\ trap trap_call6 trap_demo5 = Done (0, trap_demo6).
Proof. split_and!; by vm_compute. Qed.

Lemma hint_covered : covered space3 (Smmap 0x70fffffff000 0x1000 3 0x22 (-1) 0 0x12000).
Proof.
  split; [done|]. left. split_and!; [by vm_compute| |apply mappable_test_ok; [by vm_compute|apply quiet_trapped..]].
  exists 6. split_and!; [done|done|by_eval; by intros [? ?]|]. intros j Hj.
  assert (j = 1 \/ j = 2 \/ j = 3 \/ j = 4 \/ j = 5) as [->|[->|[->|[->| ->]]]] by lia; by_eval.
Qed.

Lemma covered_trap s r s1 c l : trap_covered s c -> trap c s = Done (r, s1) -> trap_covered_all s1 l -> trap_covered_all s (c :: l).
Proof. intros Hc Hs Hl. split; [done|]. intros r' s'. rewrite Hs. by intros [= <- <-]. Qed.

Lemma traps_keep_step_witness :
  exists s', trap_all [trap_call1; trap_call2; trap_call3; trap_call4; trap_call5; trap_call6] trap_demo0 = Done (tt, s') /\ in_step s'.
Proof.
  destruct trap_demos as (E1 & E2 & E3 & E4 & E5 & E6). apply traps_keep_step; [reflexivity|by_eval| |].
  - exists (fun _ => None). split; [apply space0_ok|reflexivity].
  - apply (covered_trap trap_demo0 0x60000 trap_demo1); [|exact E1|].
    { split; [by_eval|]. intros q s1 [= <- <-] r _. apply space0_covered. }
    apply (covered_trap trap_demo1 0x62000 trap_demo2); [|exact E2|].
    { split; [|by_eval]. split; [by_eval|]. intros q s1 [= <- <-] r _. apply space1_covered. }
    apply (covered_trap trap_demo2 0x61000 trap_demo3); [|exact E3|].
    { split; [by_eval|]. intros q s1 [= <- <-] r _. apply space2_covered. }
    apply (covered_trap trap_demo3 (2 ^ 64 - 12) trap_demo3); [|exact E4|].
    { split; [by_eval|]. intros q s1 Eq r Er. exfalso. revert q s1 Eq r Er.
      intros q s1 Eq. vm_compute in Eq. injection Eq as <- <-. cbv zeta. intros Er. vm_compute in Er. discriminate Er. }
    apply (covered_trap trap_demo3 0x70fffffff000 trap_demo5); [|exact E5|].
    { split; [|by_eval]. split; [by_eval|]. intros q s1 Eq r _. subst r. vm_compute in Eq. injection Eq as <- <-. apply hint_covered. }
    apply (covered_trap trap_demo5 0 trap_demo6); [|exact E6|exact I].
    intros _. split; [done|]. apply unmappable_test_ok. by vm_compute.
Defined.

Lemma substring_after (d left : string) n : String.substring (String.length d) n (d ++ left) = String.substring 0 n left.
Proof. induction d as [|c d IH]; [done|exact IH]. Qed.
Lemma demo_reads : reads demo_maps.
Proof.
  intros d left Ed. cbn [read_proc_maps demo_trap_env]. rewrite Nat2Z.id, Ed, substring_after. destruct left as [|c left].
  - by exists EmptyString, EmptyString.
  - exists (String c EmptyString), left. split; [done|]. split; [done|]. by destruct left.
Qed.

Definition trap_start : trap_state changes := TrapState (BState space0 0 0 0 false false) [] 0x70fffffff000 false 0x10000 false ∅ false [] 0.
Lemma traps_installed_witness :
  exists s', __liballocs_systrap_init trap_start = Done (tt, s') /\
    s' = TrapState (t_brk trap_start) (kernel trap_start) (unhinted_self_call_mmap_area trap_start) (dlbind_open_active trap_start)
           (__private_nommap_malloc_heap_base trap_start) true replacements true
           (trapped_regions trap_start ++ map region_of (List.filter to_trap (maps_lines demo_maps))) (t_errno trap_start) /\
    __liballocs_systrap_init s' = Done (tt, s').
Proof.
  apply (traps_installed [(AT_BASE, 0x40000)] "/lib/ld.so"%string demo_maps trap_start);
    [reflexivity|reflexivity|reflexivity|reflexivity|discriminate|exact demo_reads|by_eval].
Defined.

(** Only the linker's code is trapped, and the handler of a call is found in the table. *)
Example trap_start_regions : map region_of (List.filter to_trap (maps_lines demo_maps)) =
  [TrappedRegion 0x40000 0x42000 "/lib/ld.so"%string false true true].
Proof. reflexivity. Qed.

(** The library's own unhinted calls get hints one after the other, but by
    the length asked for and not by pages: the second hint is not at a page. *)
Example hints_unaligned :
  match mmap (B := release) 0 100 3 0x22 (-1) 0 0x12000 trap_demo0 with
  | Done (r, s) => r = 0x70fffffff000 /\ unhinted_self_call_mmap_area s = 0x70fffffff064
  | _ => False
  end.
Proof. by vm_compute. Qed.
